(* ===== verification/_CoqProject ===== *)
-Q . S2P
Prelude.v
GuestMemory.v
VirtioQueue.v
VsockProto.v
VsockTable.v
Mmio.v
VsockQueue.v
VsockDevice.v
NetQueue.v
NetDevice.v
Io.v
Snapshot.v
Str.v
Fs.v
VmCore.v
VmMock.v
Ipc.v
Proto.v
FuseWire.v
FuseBody.v
FuseDirent.v
FuseDispatch.v
StdFs.v
StdFsTables.v
Time.v
ApiError.v
Auth.v
AuthProps.v
WarmPool.v
PoolCalls.v
Api.v
Ownership.v
HvCalls.v
Store.v
Metrics.v
Routes.v
Tenancy.v
SandboxProps.v
Listing.v
UsageProps.v
Server.v
GuestAgent.v
AgentProps.v
F64.v
Billing.v
BillingProps.v
UsageReporter.v
ForkQuota.v
Jailer.v
JailerProps.v
Fleet.v
FleetProps.v
FleetHost.v
Boot.v
BootProps.v
VcpuThread.v
KvmVsock.v
KvmVsockProps.v
KvmState.v
Kvm.v
KvmSample.v
KvmProps.v
KvmRestore.v
Tap.v
Smoltcp.v
SmoltcpProps.v
TcpProxy.v
TcpProxyProps.v
AuditTrail.v
ExecSse.v
