(* ===== verification/Prelude.v ===== *)
(** * rust-nano-vm: verification library

    rust-nano-vm runs sandbox virtual machines: a KVM hypervisor with
    paravirtual devices (crates [virtio-queue], [virtio-vsock], [virtio-net],
    [vm-kvm]), snapshots that are forked copy-on-write ([snapshot]), a
    hypervisor interface with an in-memory implementation ([vm-core],
    [vm-mock]), jailed worker processes driven over a socket ([vmm-ipc],
    [nanovm-vmm-child], [nanovm-jailer], [nanovm-fleet]), an agent inside the
    guest ([proto], [guest-agent]), a file server for directories shared with
    the guest ([virtio-fs]) and a multi-tenant HTTP control plane above them
    ([control-plane]). This library models the parts that carry the program's
    own logic as executable definitions and proves what makes them correct. This
    file holds what the others share.

    ** How the program hangs together

    A guest driver programs a device through its register window (one 4-byte
    register at a time), places descriptor chains in guest memory, publishes
    them in an available ring and kicks the device by writing [QueueNotify].
    The device walks the chains, moves bytes between guest memory and its back
    end, publishes completions in the used ring and raises an interrupt. The
    vsock device carries byte streams between the host and the agent in the
    guest; on top of them run length-prefixed JSON frames, from which the host
    reassembles the agent's answers. Snapshots dump guest memory to an image
    file that later VMs map privately. Orchestration is a request loop over the
    [Hypervisor] trait. The control plane admits a request by its bearer token,
    checks that the caller's organisation owns the VM or snapshot it names,
    calls the hypervisor and keeps the owner map, the fork counters and a pool
    of pre-restored VMs, which background tasks refill.

    ** Files, in dependency order

    - [Prelude]: results and the state-and-error monad, machine integers,
      little- and big-endian bytes, slices, and the tactics [ulia], [len],
      [slices], [fields], [case_if].
    - [GuestMemory]: the interface between the queue code and guest RAM, a class
      of operations and a class of laws. Guest memory is the [vm-memory] crate
      at run time, so it stays abstract.
    - [VirtioQueue]: [crates/virtio-queue/src/lib.rs]. Descriptors, chains,
      available and used rings, packed descriptors, and the slice-backed memory
      that discharges the laws.
    - [VsockProto]: [crates/virtio-vsock/src/lib.rs]. The packet header and the
      per-connection state machine with its credit accounting.
    - [VsockTable]: [crates/virtio-vsock/src/conn_table.rs]. The connection
      table, refined by an abstract table of connection states.
    - [Mmio]: [crates/virtio-vsock/src/mmio.rs]. The register block.
    - [VsockQueue]: [crates/virtio-vsock/src/queue.rs] and the adapter of
      [crates/vm-kvm/src/lib.rs] over the guest's memory map.
    - [VsockDevice]: [crates/virtio-vsock/src/device.rs]. The device assembled
      from the four previous parts.
    - [NetQueue]: [crates/virtio-net/src/header.rs], [lib.rs], [mock.rs] and
      [queue.rs]. The consumers of the two network queues over any back end.
    - [NetDevice]: [crates/virtio-net/src/mmio.rs], [device.rs] and
      [crates/vm-kvm/src/virtio_net_dev.rs]. The network transport and its
      wiring to the interrupt line.
    - [Io]: byte readers and writers, and the interface of [serde_json].
    - [Snapshot]: [crates/snapshot/src/lib.rs] (image header),
      [crates/snapshot/src/runtime.rs] and the image reader and writer of
      [crates/vm-kvm/src/lib.rs].
    - [Str]: the parts of Rust's [str] the sources use, on UTF-8 strings.
    - [Fs]: Unix paths and the interface of the host's file system.
    - [VmCore]: [crates/vm-core/src/lib.rs]. The [Hypervisor] trait as a class.
    - [VmMock]: [crates/vm-mock/src/lib.rs] and the snapshot manifest. The
      in-memory hypervisor, an instance of the class.
    - [Ipc]: [crates/vmm-ipc/src] and [crates/nanovm-vmm-child/src/lib.rs].
      Worker messages, frames and the request loop over any [Hypervisor].
    - [Proto]: [crates/proto/src] and the readers of the agent's answers in
      [crates/vm-kvm/src/lib.rs].
    - [FuseWire], [FuseBody], [FuseDirent]: [crates/virtio-fs/src/lib.rs] and
      [body.rs]. Packet headers, the 22 message bodies, directory listings.
    - [FuseDispatch]: [crates/virtio-fs/src/dispatch.rs]. Request parsing, the
      handler trait as a class, dispatch and replies.
    - [StdFs], [StdFsTables]: [crates/virtio-fs/src/std_fs.rs]. The handler
      that serves a host directory, and the invariant of its tables.
    - [Time], [ApiError]: the control plane's timestamps and error envelope
      ([crates/control-plane/src/time.rs], [error.rs]).
    - [Auth], [AuthProps]: [auth.rs] and [keys.rs]. Tokens, roles, the token
      file, bearer authentication and the key endpoints.
    - [WarmPool], [PoolCalls]: [warm_pool.rs]. The pool, one definition per locked
      section, and calls of [take] and [drain] interleaved with refill tasks at
      their locked sections.
    - [Api]: [api.rs]. Request and response bodies and their conversions.
    - [Ownership]: [ownership.rs]. The store interface with its laws, the
      in-memory store and the access checks.
    - [HvCalls]: the calls of the [Hypervisor] trait as data and the contract on
      what each may touch, met by the in-memory hypervisor and by KVM's.
    - [Store]: [crates/snapshot/src/store.rs] and the control plane's
      [snapshot_store.rs]. The store interface, the directory store, store URIs.
    - [Metrics]: [metrics.rs]. Counters and their Prometheus text.
    - [Routes]: [routes.rs], [sandbox.rs] and [snapshot_export.rs]. Every
      handler over the interfaces above, the router, and the server's events.
    - [Tenancy], [SandboxProps], [Listing], [UsageProps]: what the handlers
      guarantee.
    - [Server]: the handlers over the in-memory hypervisor, the in-memory owner
      map and the directory store, on which the examples run.
    - [GuestAgent], [AgentProps]: [crates/guest-agent/src/main.rs]. The agent's
      handlers and its two session loops over the guest's operating system, and
      the exec stream from the host's request to the host's reader.
    - [F64]: IEEE binary64 arithmetic from the Standard Library's [SpecFloat].
    - [Billing], [BillingProps]: [billing.rs]. Plan tiers, dunning, the billing
      store, the Stripe client, magic-link signup and the Stripe webhook.
    - [UsageReporter]: [billing/usage_reporter.rs]. The metering task.
    - [ForkQuota]: [fork_quota.rs]. The token buckets of the fork routes, which
      discharge the interface [Routes] is generic in.
    - [Jailer], [JailerProps]: [crates/nanovm-jailer/src] and
      [crates/vm-kvm/src/cgroups.rs]. The cgroup of a worker and the caps of a
      hypervisor process, over the system calls they make.
    - [Fleet], [FleetProps], [FleetHost]: [crates/nanovm-fleet/src/lib.rs]. The
      hypervisor that runs one worker process per VM: its methods, what holds of
      them on any system, and on a host whose processes are the workers of [Ipc].
    - [Boot], [BootProps]: [crates/vm-kvm/src/lib.rs]. What is prepared before a
      vCPU runs: segments, page tables, registers, boot parameters, initramfs.
    - [VcpuThread]: [crates/vm-kvm/src/lib.rs]. The stop and pause protocol of
      the vCPU thread, under every interleaving.
    - [KvmVsock], [KvmVsockProps]: [crates/vm-kvm/src/lib.rs]. The vsock device in
      the machine, requests to the agent with their gate and reply loops, and what
      each exit of the vCPU does to the devices.
    - [KvmState]: [crates/vm-kvm/src/vmstate.rs]. The registers and devices a
      snapshot keeps.
    - [Kvm], [KvmSample], [KvmProps], [KvmRestore]: [crates/vm-kvm/src/lib.rs]
      ([KvmHypervisor]). VMs built from a configuration or a snapshot, and every
      method of the [Hypervisor] trait; its isolation, snapshots and failures.
    - [Tap]: [crates/virtio-net/src/tap.rs]. The TAP back end over system calls.
    - [Smoltcp], [SmoltcpProps]: [crates/virtio-net/src/smoltcp_backend.rs]. The
      back end that runs a TCP/IP stack in the process: device, echo service,
      client sockets, and an instance of the [NetworkBackend] interface.
    - [TcpProxy], [TcpProxyProps]: [crates/virtio-net/src/tcp_proxy.rs]. The bridge
      between a host connection and a client socket of that back end.
    - [AuditTrail]: [control-plane/src/request_id.rs], [audit.rs], [audit_sink.rs]. Ids of
      requests, the audit log and the channel to a collector.
    - [ExecSse]: [control-plane/src/exec_stream.rs]. Exec output as a stream of
      server-sent events.

    A component is a [Module] with its state as a record [t] and one definition
    per method, under the method's name. A method taking [&mut self], or
    mutating guest memory, is a state transformer [SM S E A] returning the
    outcome together with the state left behind, so that what a failing call
    already did is visible. Enums are inductive types, [HashMap]s are [gmap]s
    and a [Mutex] is the state it guards: the code holds one lock for the whole
    of each operation modelled here, except in the warm pool, where each locked
    section is a step of its own. A handler of the control plane runs as one
    step; the refill tasks run in between, section by section. The verification
    of a magic link is also modelled step by step, its wait for Stripe between two
    of them, so that several can overlap.

    ** What the theorems show

    - Codecs (descriptors, vsock and network headers, image header, frames,
      FUSE packets and listings, the token configuration) are lossless in both
      directions, leave unrelated bytes alone and refuse exactly the malformed
      inputs.
    - Ring code: iterating a chain yields exactly the chain and always stops;
      the used ring is a log seen through a window, and a completion becomes
      visible to the driver only as a whole, across wrap-around of the 16-bit
      indices; gathering and scattering move exactly the bytes announced.
    - State machines: vsock connections follow the documented diagram and the
      table refines a map of connection states; registers keep their widths and
      a reset restores the fresh device; VMs follow their lifecycle and ids are
      not reused; the copy-on-write pager populates each page once.
    - Bounds and termination whatever the guest writes: chain walks, the two
      network loops and the vsock device cycle.
    - End to end: a packet queued by the host is read by the guest as it was
      sent; a frame published by the guest reaches the back end as it was
      written; a dumped memory image maps back to the same memory; a worker
      answers every request once and in order; the host recovers the agent's
      output from any fragmentation of the stream; a snapshot put into the
      directory store comes back as it was.
    - The file server: dispatch calls the handler of the request and answers
      with one well-formed packet; the node, path and handle tables stay
      consistent under every operation but a listing of the root and a rename
      onto a known path, which break them; closed handles are refused.
    - The control plane: no request of one organisation, nor any background
      refill, changes a VM or snapshot recorded for another, and requests that
      name one are refused without effect; issued and revoked keys behave as an
      abstract key ring and survive a restart; every pooled VM is in one place
      and is handed out once; a sandbox leaves its VM behind only when destroying
      it fails; paginated
      listings are complete; the audit log has exactly the mutating requests and
      only a fingerprint of their tokens; an exec stream is served to its end; the
      fork counters are exactly the successful forks; dates are the Gregorian
      calendar's.
    - The agent: a session answers every request in order, in either framing,
      and a streamed exec arrives at the host's reader as the child produced it.
    - Worker processes: the jailer starts a worker only in its own capped cgroup;
      every worker process the fleet started is one it keeps or has killed; calls
      reach exactly the VM's own worker, also when others have died.
    - KVM: the boot tables put the vCPU in 64-bit mode with memory mapped to
      itself, and the memory map handed to the kernel is exact; a snapshot is of
      one moment under every schedule, and the schedules that defeat a stop or a
      pause are characterised; a register access reaches the device whose window
      it is in; a request to the agent holds its gate until it ends and then
      frees it; the hypervisor meets the contract the control plane's isolation
      rests on, and a restored VM has the memory of the snapshotted one and a
      vCPU and devices made from the captured values by the calls of the
      documented order. Nothing is assumed of what one such call does to the
      registers another one sets.
    - The userspace network: a bridged connection loses and reorders no byte in
      either direction while other threads use the back end, also to open
      sockets, until one of them uses the connection's handle; frames of the
      guest never make a serving back end panic; a handle whose socket was
      removed poisons it unless its slot was given out again.
    - Billing: the webhook acts exactly on authentic and fresh events; a magic
      link is worth at most one key to each verification that found it before it
      was deleted, and nothing to later ones; dunning blocks exactly after
      the grace period; usage is reported once; the fork quota never grants more
      than its burst at an instant, in floating point as the code computes it.

    ** Integers, bounds and fuel

    A machine integer is a [Z] with a range predicate; every operation that can
    wrap at run time is written with its wrap ([wrap16], [wrap64], ...), which
    is the behaviour of a release build where the source uses plain [+] on
    guest-controlled addresses. [usize] has 64 bits. Loops whose length is not
    that of a list carry a count. For the network queues it is the distance
    between the cursor and the driver's index, which is also the loop's exit
    condition. For the vsock transmit loop it is [2 ^ 16]: the theorem that the
    device cycle returns shows that this is enough unless the used ring overlaps
    the driver's index. For a memory dump it is the number of chunks; for the
    worker loop, the agent's sessions and the exec stream it is bounded by the
    bytes still to come; for the fleet's wait for a socket it is the number of
    sleeps that fit into the timeout, and likewise for the polls of a request to
    the agent and of the proxy's handshake; a write to the proxy's client ends
    within its bytes and the stream's events. In each case a theorem states that
    the bound is not reached. The wait for the agent's request gate, the proxy's
    byte pump and a TAP write that is interrupted have no bound in the code; their
    count is an argument, and running out of it means "still running".

    ** Parameters

    Guest memory ([GuestMem]), network back ends ([NetworkBackend]), interrupt
    lines, [mmap], [serde_json] ([Serde]), the host's file system ([FileSystem],
    [DirFs], [HostFs], [TokenDisk]), process execution, random bytes, base64,
    SHA-256 and HMAC, HTTP ([Http]), the guest's operating system ([GuestOs]),
    processes, sockets and cgroups ([FleetOs], [JailOs]), KVM's descriptors and
    threads ([KvmHost], [VmFd], [VcpuFd], [VcpuIoctls], [VcpuThreads]), the kernel
    loader ([LinuxLoader]), smoltcp ([Smoltcp], [TcpStreams]), the TAP system calls
    ([TapOs]), the clock and environment variables are interfaces or arguments: the theorems hold for
    every implementation with the stated laws, and each law is instantiated by a
    concrete implementation that the examples run on. Between components of the
    program the interfaces are the source's traits: [Hypervisor], [FuseHandler],
    [OwnershipStore], [SnapshotStore], [BillingStore], [EmailSender], and
    [ForkQuota] for the rate limiter.

    ** Not modelled

    KVM itself and seccomp (system calls); S3 and SQLite; the CORS layer, the
    OpenAPI document, start-up, command line and benchmarks. The routes are the build without the [billing] feature; the
    billing handlers are modelled beside them, each as one step from beginning
    to end. A method of the KVM hypervisor runs as one step too; guests run
    during it only where it waits for one. A call that has not returned within its
    count is given no effect and an error ([Kvm.returned]). Guest memory does not
    change during one call of a device: what a guest writes meanwhile is seen by
    the next call, and the bounds on the loops hold whatever the memory holds.
    The streaming exec route is not a constructor of [Routes.Request]: its handler
    is [ExecSse.exec_vm_stream], with the access check of the other VM routes. The
    files of a snapshot are host files, outside the [snap_view] of the contract in
    [HvCalls]: a restore of the KVM hypervisor reads them, so the contract says
    that nobody else's entry changes, not that its files are intact. *)
From coqutil Require Import Byte.
From coqutil Require Import Word.LittleEndianList.
From stdpp Require Export base numbers gmap list_numbers list.

#[export] Set Default Goal Selector "!".
#[global] Open Scope Z_scope.

(** ** Results

    Rust's [Result<T, E>], with the error type first so that [result E] is a
    monad: [?] is the bind, written [x ← r; k]. *)

Inductive result (E A : Type) : Type :=
| Ok (a : A)
| Err (e : E).

Arguments Ok {E A} a.
Arguments Err {E A} e.

#[global] Instance result_ret E : MRet (result E) := fun A => Ok.
#[global] Instance result_bind E : MBind (result E) := fun A B f r =>
  match r with Ok a => f a | Err e => Err e end.
#[global] Instance result_fmap E : FMap (result E) := fun A B f r =>
  match r with Ok a => Ok (f a) | Err e => Err e end.

#[global] Instance result_eq_dec E A `{!EqDecision E, !EqDecision A} : EqDecision (result E A).
Proof. solve_decision. Defined.

Definition is_ok {E A} (r : result E A) : bool :=
  match r with Ok _ => true | Err _ => false end.

(** [r.map_err(f)] *)
Definition map_err {E F A} (f : E -> F) (r : result E A) : result F A :=
  match r with Ok a => Ok a | Err e => Err (f e) end.

(** [o.ok_or(e)] *)
Definition ok_or {E A} (e : E) (o : option A) : result E A :=
  match o with Some a => Ok a | None => Err e end.

(** A fallible loop whose body never fails is a [map]. *)
Lemma mapM_ok {E A B} (f : A -> result E B) (g : A -> B) l :
  Forall (fun x => f x = Ok (g x)) l -> mapM f l = Ok (g <$> l).
Proof.
  induction 1 as [|x l Hx _ IH]; [done|]. simpl. rewrite Hx. simpl.
  by rewrite IH.
Qed.

Lemma mapM_ok_inv {E A B} (f : A -> result E B) l l' :
  mapM f l = Ok l' -> Forall2 (fun x y => f x = Ok y) l l'.
Proof.
  revert l'. induction l as [|x l IH]; intros l'; simpl; [by intros [= <-]; constructor|].
  destruct (f x) as [y|e] eqn:Hx; simpl; [|done].
  destruct (mapM f l) as [ys|e]; simpl; [|done]. intros [= <-]. constructor; auto.
Qed.

(** [iter().find(p)] *)
Fixpoint list_find_val {A} (p : A -> bool) (l : list A) : option A :=
  match l with
  | [] => None
  | x :: l => if p x then Some x else list_find_val p l
  end.

Lemma list_find_val_some {A} (p : A -> bool) l x :
  list_find_val p l = Some x -> x ∈ l /\ p x = true.
Proof.
  induction l as [|y l IH]; simpl; [done|]. destruct (p y) eqn:Hp.
  - intros [= <-]. split; [left|done].
  - intros [? ?]%IH. split; [by right|done].
Qed.

Lemma list_find_val_none {A} (p : A -> bool) l x :
  list_find_val p l = None -> x ∈ l -> p x = false.
Proof.
  induction l as [|y l IH]; simpl; [by inversion 2|]. destruct (p y) eqn:Hp; [done|].
  intros Hn [->|Hx]%elem_of_cons; auto.
Qed.

Lemma foldl_foldr_reverse {A B} (f : A -> B -> A) a l :
  foldl f a l = foldr (flip f) a (reverse l).
Proof.
  revert a. induction l as [|x l IH]; intros a; [done|].
  rewrite reverse_cons, foldr_app. apply IH.
Qed.

Lemma prefix_snoc_inv {A} (k l : list A) x :
  k `prefix_of` l ++ [x] -> k = l ++ [x] \/ k `prefix_of` l.
Proof.
  intros [k' Hk]. destruct k' as [|y k' _] using rev_ind.
  - left. by rewrite app_nil_r in Hk.
  - right. rewrite app_assoc in Hk. apply app_inj_tail in Hk as [-> _]. by exists k'.
Qed.

(** ** Stateful computations

    A method taking [&mut self] (or mutating guest memory) and returning a
    [Result] is a function from the state to the outcome and the state left
    behind: an early return keeps the updates made before it. *)

Definition SM (S E A : Type) : Type := S -> result E A * S.

#[global] Instance sm_ret S E : MRet (SM S E) := fun A a s => (Ok a, s).
#[global] Instance sm_bind S E : MBind (SM S E) := fun A B f c s =>
  match c s with
  | (Ok a, s') => f a s'
  | (Err e, s') => (Err e, s')
  end.

Section SMOps.
Context {S E : Type}.

Definition sm_get : SM S E S := fun s => (Ok s, s).
Definition sm_gets {A} (f : S -> A) : SM S E A := fun s => (Ok (f s), s).
Definition sm_modify (f : S -> S) : SM S E unit := fun s => (Ok tt, f s).
Definition sm_lift {A} (r : result E A) : SM S E A := fun s => (r, s).
Definition sm_fail {A} (e : E) : SM S E A := fun s => (Err e, s).
End SMOps.

Lemma sm_bind_ok {S E A B} (c : SM S E A) (f : A -> SM S E B) s a s' :
  c s = (Ok a, s') -> (x ← c; f x) s = f a s'.
Proof. intros H. unfold mbind, sm_bind. by rewrite H. Qed.

Lemma sm_bind_err {S E A B} (c : SM S E A) (f : A -> SM S E B) s e s' :
  c s = (Err e, s') -> (x ← c; f x) s = (Err e, s').
Proof. intros H. unfold mbind, sm_bind. by rewrite H. Qed.

Lemma sm_bind_inv {S E A B} (c : SM S E A) (f : A -> SM S E B) s b s' :
  (x ← c; f x) s = (Ok b, s') -> exists a s1, c s = (Ok a, s1) /\ f a s1 = (Ok b, s').
Proof.
  unfold mbind, sm_bind. destruct (c s) as [[a|e] s1] eqn:?; [eauto|done].
Qed.

(** ** Machine integers

    A [uN] is a [Z] in range; arithmetic that Rust lets wrap is written with
    the wrap ([wrap16], ...), and [usize] is 64-bit. *)

Definition wrap8 (z : Z) : Z := z mod 2 ^ 8.
Definition wrap16 (z : Z) : Z := z mod 2 ^ 16.
Definition wrap32 (z : Z) : Z := z mod 2 ^ 32.
Definition wrap64 (z : Z) : Z := z mod 2 ^ 64.

Definition is_u8 (z : Z) : Prop := 0 <= z < 2 ^ 8.
Definition is_u16 (z : Z) : Prop := 0 <= z < 2 ^ 16.
Definition is_u32 (z : Z) : Prop := 0 <= z < 2 ^ 32.
Definition is_u64 (z : Z) : Prop := 0 <= z < 2 ^ 64.

(** [z as i32] and [z as i64]. *)
Definition as_i32 (z : Z) : Z := (z + 2 ^ 31) mod 2 ^ 32 - 2 ^ 31.
Definition as_i64 (z : Z) : Z := (z + 2 ^ 63) mod 2 ^ 64 - 2 ^ 63.
Definition is_i32 (z : Z) : Prop := - 2 ^ 31 <= z < 2 ^ 31.

(** [u64::checked_add] *)
Definition checked_add64 (a b : Z) : option Z :=
  if a + b <? 2 ^ 64 then Some (a + b) else None.

(** [u64::saturating_mul] *)
Definition saturating_mul64 (a b : Z) : Z := Z.min (a * b) (2 ^ 64 - 1).

(** [uN::is_power_of_two] *)
Definition is_power_of_two (z : Z) : bool := (0 <? z) && (z =? 2 ^ Z.log2 z).

(** [flags & mask != 0] *)
Definition has_flag (flags mask : Z) : bool := negb (Z.land flags mask =? 0).

Ltac unfold_uint :=
  unfold is_u8, is_u16, is_u32, is_u64, wrap8, wrap16, wrap32, wrap64 in *.

(** [lia] with the range predicates unfolded and the powers of two computed;
    [mod] and [/] by constants are handled through their defining equations. *)
Ltac ulia :=
  unfold_uint;
  change (2 ^ 8) with 256 in *;
  change (2 ^ 16) with 65536 in *;
  change (2 ^ 32) with 4294967296 in *;
  change (2 ^ 64) with 18446744073709551616 in *;
  Z.to_euclidean_division_equations; lia.

Lemma wrap16_range z : is_u16 (wrap16 z).
Proof. ulia. Qed.
Lemma wrap32_range z : is_u32 (wrap32 z).
Proof. ulia. Qed.
Lemma wrap64_range z : is_u64 (wrap64 z).
Proof. ulia. Qed.
Lemma wrap16_small z : is_u16 z -> wrap16 z = z.
Proof. intros. by apply Z.mod_small. Qed.
Lemma wrap32_small z : is_u32 z -> wrap32 z = z.
Proof. intros. by apply Z.mod_small. Qed.
Lemma wrap64_small z : is_u64 z -> wrap64 z = z.
Proof. intros. by apply Z.mod_small. Qed.

Lemma wrap32_add_l a b : wrap32 (wrap32 a + b) = wrap32 (a + b).
Proof. apply Zplus_mod_idemp_l. Qed.
Lemma wrap16_add_l a b : wrap16 (wrap16 a + b) = wrap16 (a + b).
Proof. apply Zplus_mod_idemp_l. Qed.

Lemma is_power_of_two_spec z :
  is_power_of_two z = true <-> exists k, 0 <= k /\ z = 2 ^ k.
Proof.
  unfold is_power_of_two. rewrite andb_true_iff, Z.ltb_lt, Z.eqb_eq. split.
  - intros [Hp Hz]. exists (Z.log2 z). split; [apply Z.log2_nonneg|done].
  - intros (k & Hk & ->). split; [apply Z.pow_pos_nonneg; lia|].
    by rewrite Z.log2_pow2.
Qed.

Lemma is_power_of_two_pos z : is_power_of_two z = true -> 0 < z.
Proof. intros (k & ? & ->)%is_power_of_two_spec. lia. Qed.

(** A power of two no larger than 2^16 divides 2^16: wrapping a 16-bit counter
    does not disturb its slot. *)
Lemma pow2_divides_wrap q :
  is_power_of_two q = true -> q <= 2 ^ 16 -> (q | 2 ^ 16).
Proof.
  intros (k & Hk & ->)%is_power_of_two_spec Hle.
  apply Z.pow_le_mono_r_iff in Hle; [|lia..].
  exists (2 ^ (16 - k)). rewrite <- Z.pow_add_r by lia. f_equal. lia.
Qed.

Lemma wrap16_slot q z :
  is_power_of_two q = true -> q <= 2 ^ 16 -> (wrap16 z) mod q = z mod q.
Proof.
  intros Hp Hle. unfold wrap16. apply Z.mod_mod_divide. by apply pow2_divides_wrap.
Qed.

(** ** Bytes and little-endian integers *)

Abbreviation bytes := (list Init.Byte.byte).

#[global] Instance byte_eq_decision : EqDecision Init.Byte.byte := Byte.byte_eq_dec.

(** [x.to_le_bytes()] of an [n]-byte integer and [uN::from_le_bytes]. *)
Definition to_le (n : nat) (z : Z) : bytes := le_split n z.
Definition from_le (bs : bytes) : Z := le_combine bs.

(** [x.to_be_bytes()] and [uN::from_be_bytes]. *)
Definition to_be (n : nat) (z : Z) : bytes := rev (le_split n z).
Definition from_be (bs : bytes) : Z := le_combine (rev bs).

Arguments to_le : simpl never.
Arguments from_le : simpl never.
Arguments to_be : simpl never.
Arguments from_be : simpl never.
Arguments wrap8 : simpl never.
Arguments wrap16 : simpl never.
Arguments wrap32 : simpl never.
Arguments wrap64 : simpl never.

(** A byte as a [u8], and [z as u8]. *)
Definition u8_of (b : Init.Byte.byte) : Z := byte.unsigned b.
Definition byte_of (z : Z) : Init.Byte.byte := byte.of_Z z.

Definition zsum (l : list Z) : Z := foldr Z.add 0 l.

Definition zlen {A} (l : list A) : Z := Z.of_nat (length l).

Lemma zsum_cons x l : zsum (x :: l) = x + zsum l.
Proof. done. Qed.

Lemma u8_of_range b : is_u8 (u8_of b).
Proof. apply byte.unsigned_range. Qed.

Lemma u8_of_byte_of z : u8_of (byte_of z) = wrap8 z.
Proof. apply byte.unsigned_of_Z. Qed.

Lemma from_le_nil : from_le [] = 0.
Proof. done. Qed.

Lemma from_le_cons b bs : from_le (b :: bs) = Z.lor (u8_of b) (Z.shiftl (from_le bs) 8).
Proof. done. Qed.

Lemma to_le_length n z : length (to_le n z) = n.
Proof. apply length_le_split. Qed.

Lemma to_le_0 z : to_le 0 z = [].
Proof. done. Qed.

Lemma from_le_snoc bs b :
  from_le (bs ++ [b]) = Z.lor (from_le bs) (Z.shiftl (u8_of b) (Z.of_nat (length bs) * 8)).
Proof.
  unfold from_le. rewrite le_combine_app. change (le_combine [b]) with (Z.lor (u8_of b) 0).
  by rewrite Z.lor_0_r.
Qed.

Lemma to_le_snoc n z : to_le (S n) z = to_le n z ++ [byte_of (Z.shiftr z (8 * Z.of_nat n))].
Proof.
  unfold to_le, byte_of. revert z. induction n as [|n IH]; intros z; [done|].
  change (le_split (S (S n)) z) with (byte.of_Z z :: le_split (S n) (Z.shiftr z 8)).
  change (le_split (S n) z) with (byte.of_Z z :: le_split n (Z.shiftr z 8)).
  rewrite IH, Z.shiftr_shiftr by lia. cbn [app]. repeat f_equal. lia.
Qed.

Lemma from_to_le n z : from_le (to_le n z) = z mod 2 ^ (Z.of_nat n * 8).
Proof. apply le_combine_split. Qed.

Lemma to_from_le n bs : length bs = n -> to_le n (from_le bs) = bs.
Proof. intros <-. apply split_le_combine. Qed.

Lemma from_le_range n bs : length bs = n -> 0 <= from_le bs < 2 ^ (Z.of_nat n * 8).
Proof. intros <-. rewrite Z.mul_comm. apply le_combine_bound. Qed.

Lemma from_to_le_small n z :
  0 <= z < 2 ^ (Z.of_nat n * 8) -> from_le (to_le n z) = z.
Proof. intros. by rewrite from_to_le, Z.mod_small. Qed.

Lemma from_to_le8 z : is_u8 z -> from_le (to_le 1 z) = z.
Proof. apply (from_to_le_small 1). Qed.
Lemma from_to_le16 z : is_u16 z -> from_le (to_le 2 z) = z.
Proof. apply (from_to_le_small 2). Qed.
Lemma from_to_le32 z : is_u32 z -> from_le (to_le 4 z) = z.
Proof. apply (from_to_le_small 4). Qed.
Lemma from_to_le64 z : is_u64 z -> from_le (to_le 8 z) = z.
Proof. apply (from_to_le_small 8). Qed.

Lemma to_be_length n z : length (to_be n z) = n.
Proof. unfold to_be. by rewrite length_rev, length_le_split. Qed.

Lemma from_to_be n z : from_be (to_be n z) = z mod 2 ^ (Z.of_nat n * 8).
Proof. unfold from_be, to_be. rewrite rev_involutive. apply le_combine_split. Qed.

(** ** Slices

    [slice l off n] is [&l[off..off + n]]; [splice l off src] is
    [l[off..off + src.len()].copy_from_slice(src)]. Both are used where the
    code has checked the bounds; [slice_length]/[splice_length] need them. *)

Section Slices.
Context {A : Type}.
Implicit Types (l src : list A) (off n : nat).

Definition slice l off n : list A := take n (drop off l).
Definition splice l off src : list A :=
  take off l ++ src ++ drop (off + length src) l.

Lemma slice_length l off n : (off + n <= length l)%nat -> length (slice l off n) = n.
Proof. intros. unfold slice. rewrite length_take, length_drop. lia. Qed.

Lemma splice_length l off src :
  (off + length src <= length l)%nat -> length (splice l off src) = length l.
Proof.
  intros. unfold splice. rewrite !length_app, length_take, length_drop. lia.
Qed.

Lemma slice_lookup l off n i :
  (i < n)%nat -> slice l off n !! i = l !! (off + i)%nat.
Proof. intros. unfold slice. by rewrite lookup_take_lt, lookup_drop. Qed.

Lemma splice_lookup_old l off src i :
  (off + length src <= length l)%nat -> (i < off \/ off + length src <= i)%nat ->
  splice l off src !! i = l !! i.
Proof.
  intros Hb [Hi|Hi]; unfold splice.
  - rewrite lookup_app_l by (rewrite length_take; lia). by rewrite lookup_take_lt.
  - rewrite lookup_app_r by (rewrite length_take; lia).
    rewrite length_take, Nat.min_l by lia.
    rewrite lookup_app_r by lia. rewrite lookup_drop. f_equal. lia.
Qed.

Lemma splice_slice_same l off src :
  (off + length src <= length l)%nat -> slice (splice l off src) off (length src) = src.
Proof.
  intros. unfold slice, splice.
  rewrite drop_app_length' by (rewrite length_take; lia).
  by rewrite take_app_length.
Qed.

Lemma splice_slice_disjoint l off src off' n :
  (off + length src <= length l)%nat ->
  (off' + n <= off \/ off + length src <= off')%nat ->
  slice (splice l off src) off' n = slice l off' n.
Proof.
  intros Hb Hd. apply list_eq. intros i.
  destruct (decide (i < n)%nat) as [Hi|Hi].
  - rewrite !slice_lookup by done. apply splice_lookup_old; lia.
  - rewrite !lookup_ge_None_2; [done|unfold slice; rewrite length_take; lia..].
Qed.

(** Writing right after an already written prefix extends it. *)
Lemma splice_app pre l off src :
  off = length pre -> splice (pre ++ l) off src = (pre ++ src) ++ drop (length src) l.
Proof.
  intros ->. unfold splice. rewrite take_app_length.
  rewrite <- drop_drop, drop_app_length. by rewrite app_assoc.
Qed.

Lemma splice_0 l src : splice l 0 src = src ++ drop (length src) l.
Proof. done. Qed.

Lemma splice_nil l off : splice l off [] = l.
Proof. unfold splice. simpl. rewrite Nat.add_0_r. apply take_drop. Qed.

(** Overwriting the byte after a splice extends the splice. *)
Lemma splice_insert_next l off src x :
  (off + length src < length l)%nat ->
  <[(off + length src)%nat := x]> (splice l off src) = splice l off (src ++ [x]).
Proof.
  intros Hb. unfold splice.
  rewrite insert_app_r_alt by (rewrite length_take; lia).
  rewrite length_take, Nat.min_l by lia.
  replace (off + length src - off)%nat with (length src + 0)%nat by lia.
  rewrite insert_app_r. f_equal. rewrite <- app_assoc. f_equal.
  destruct (drop (off + length src) l) as [|y r] eqn:Hd.
  { apply (f_equal length) in Hd. rewrite length_drop in Hd. simpl in Hd. lia. }
  simpl. f_equal. rewrite length_app, Nat.add_assoc, <- drop_drop, Hd. done.
Qed.

Lemma slice_app_l l l' off n :
  (off + n <= length l)%nat -> slice (l ++ l') off n = slice l off n.
Proof.
  intros. unfold slice. rewrite drop_app_le by lia.
  by rewrite take_app_le by (rewrite length_drop; lia).
Qed.

Lemma slice_app_r l l' off n :
  (length l <= off)%nat -> slice (l ++ l') off n = slice l' (off - length l) n.
Proof. intros. unfold slice. by rewrite drop_app_ge by lia. Qed.

Lemma slice_exact l : slice l 0 (length l) = l.
Proof. unfold slice. by rewrite drop_0, firstn_all. Qed.

Lemma slice_0 l off : slice l off 0 = [].
Proof. done. Qed.

Lemma slice_take_drop l off n : slice l off n = take n (drop off l).
Proof. done. Qed.

Lemma slice_from_0 l n : slice l 0 n = take n l.
Proof. unfold slice. by rewrite drop_0. Qed.

Lemma slice_all l n : length l = n -> slice l 0 n = l.
Proof. intros <-. apply slice_exact. Qed.

Lemma slice_take l off n m :
  (off + n <= m)%nat -> slice (take m l) off n = slice l off n.
Proof.
  intros. apply list_eq. intros i. destruct (decide (i < n)%nat).
  - rewrite !slice_lookup by done. by rewrite lookup_take_lt by lia.
  - rewrite !lookup_ge_None_2; [done|unfold slice; rewrite length_take; lia..].
Qed.

Lemma slice_slice l off n k j :
  (k + j <= n)%nat -> slice (slice l off n) k j = slice l (off + k) j.
Proof.
  intros. unfold slice at 2. rewrite slice_take by done.
  unfold slice. by rewrite drop_drop.
Qed.

(** Consecutive slices of a buffer concatenate. *)
Lemma slice_cat l off n off2 m :
  off2 = (off + n)%nat -> slice l off n ++ slice l off2 m = slice l off (n + m).
Proof. intros ->. unfold slice. rewrite <- drop_drop. by rewrite take_take_drop. Qed.

Lemma slice_split3 l off k :
  (off + k <= length l)%nat ->
  l = slice l 0 off ++ slice l off k ++ slice l (off + k) (length l - (off + k)).
Proof.
  intros. rewrite !slice_cat by lia.
  replace (off + (k + (length l - (off + k))))%nat with (length l) by lia.
  symmetry. apply slice_exact.
Qed.
End Slices.

Arguments slice : simpl never.
Arguments splice : simpl never.

(** ** Automation

    [len] computes lengths of the byte-buffer expressions the codecs build
    (database [len]) and closes the resulting bound with [lia]; [slices] reads
    back what a sequence of [splice]s left in a buffer. *)

Create Rewrite HintDb len.
#[export] Hint Rewrite @length_app @length_take @length_drop @length_replicate
  @length_cons @length_nil to_le_length to_be_length @length_rev @length_fmap
  @length_seq : len.

Ltac len :=
  repeat first
    [ progress autorewrite with len in *
    | rewrite splice_length by len
    | rewrite slice_length by len ];
  simpl; unfold zlen in *; try lia.

Ltac slices :=
  repeat first
    [ rewrite splice_slice_disjoint by len
    | rewrite splice_slice_same by len
    | match goal with
      | |- context [slice (splice ?l ?o ?s) ?o ?n] =>
          replace (slice (splice l o s) o n) with s
            by (symmetry; replace n with (length s) by len;
                apply splice_slice_same; len)
      end ].

(** Reads of the fields of a concatenation of encoded fields. *)
Ltac fields :=
  repeat match goal with
  | |- context [slice (?a ++ ?b) ?o ?n] =>
      first
        [ rewrite (slice_app_l a b o n) by len
        | rewrite (slice_app_r a b o n) by len; rewrite ?to_le_length; cbn [Nat.sub] ]
  end;
  rewrite ?slice_all by len.

(** A buffer written field by field from offset 0 holds the fields in order. *)
Ltac write_fields :=
  rewrite splice_0; repeat (rewrite splice_app by len);
  rewrite ?to_le_length, ?drop_drop, <- ?app_assoc.

(** Glue consecutive slices of one buffer. *)
Ltac cat_slices := repeat (rewrite slice_cat by lia; cbn [Nat.add]).

(** Case analysis on every [if]/[match] scrutinee of a hypothesis or the goal,
    turning boolean comparisons into propositions. *)
Ltac bool_to_prop :=
  repeat match goal with
  | H : (_ <? _) = true |- _ => apply Z.ltb_lt in H
  | H : (_ <? _) = false |- _ => apply Z.ltb_ge in H
  | H : (_ <=? _) = true |- _ => apply Z.leb_le in H
  | H : (_ <=? _) = false |- _ => apply Z.leb_gt in H
  | H : (_ =? _) = true |- _ => apply Z.eqb_eq in H
  | H : (_ =? _) = false |- _ => apply Z.eqb_neq in H
  | H : (_ && _) = true |- _ => apply andb_true_iff in H as [? ?]
  | H : (_ || _) = false |- _ => apply orb_false_iff in H as [? ?]
  | H : negb _ = true |- _ => apply negb_true_iff in H
  | H : negb _ = false |- _ => apply negb_false_iff in H
  end.

(** Case analysis on an innermost [if] of the goal. *)
Ltac case_if :=
  match goal with
  | |- context [if ?b then _ else _] =>
      lazymatch b with
      | context [if _ then _ else _] => fail
      | _ => destruct b eqn:?
      end
  end; bool_to_prop.

Ltac case_if_in H :=
  match type of H with
  | context [if ?b then _ else _] =>
      lazymatch b with
      | context [if _ then _ else _] => fail
      | _ => destruct b eqn:?
      end
  end; bool_to_prop.

(** The bytes of a buffer are the little-endian re-encodings of its fields. *)
Lemma to_le_slice bs off n :
  (off + n <= length bs)%nat -> to_le n (from_le (slice bs off n)) = slice bs off n.
Proof. intros. apply to_from_le. by apply slice_length. Qed.

Lemma from_le_slice_range bs off n :
  (off + n <= length bs)%nat -> 0 <= from_le (slice bs off n) < 2 ^ (Z.of_nat n * 8).
Proof. intros. apply from_le_range. by apply slice_length. Qed.

Lemma from_le_u8 bs off : (off + 1 <= length bs)%nat -> is_u8 (from_le (slice bs off 1)).
Proof. apply (from_le_slice_range bs off 1). Qed.
Lemma from_le_u16 bs off : (off + 2 <= length bs)%nat -> is_u16 (from_le (slice bs off 2)).
Proof. apply (from_le_slice_range bs off 2). Qed.
Lemma from_le_u32 bs off : (off + 4 <= length bs)%nat -> is_u32 (from_le (slice bs off 4)).
Proof. apply (from_le_slice_range bs off 4). Qed.
Lemma from_le_u64 bs off : (off + 8 <= length bs)%nat -> is_u64 (from_le (slice bs off 8)).
Proof. apply (from_le_slice_range bs off 8). Qed.

#[global] Opaque to_le from_le to_be from_be slice splice.
