(* ===== verification/GuestMemory.v ===== *)
(** * Guest memory: the interface between the virtqueue code and guest RAM

    Both virtqueue consumers reach guest RAM through a two-method trait
    ([virtio_queue::GuestMemory] and [virtio_vsock::GuestRam]): a bounds-checked
    read and a bounds-checked write at a guest-physical address. [GuestMem]
    states the two operations over an abstract memory [M] and error type [E],
    and [GuestMemLaws] what an implementation promises. The queue theorems are
    proved against the laws; [VirtioQueue] discharges them for the contiguous
    [SliceGuestMemory]. *)

From S2P Require Import Prelude.

(** A failing write may already have copied part of its data (the documented
    behaviour of a multi-region memory map), so [mem_write] always returns the
    memory left behind. *)
Class GuestMem (E M : Type) := {
  mem_read : M -> Z -> nat -> result E bytes;
  mem_write : M -> Z -> bytes -> result E unit * M;
}.

Class GuestMemLaws (E M : Type) `{!GuestMem E M} := {
  (** A read fills exactly the buffer it was given. *)
  mem_read_length m a n bs : mem_read m a n = Ok bs -> length bs = n;
  (** What was written is read back. *)
  mem_read_write_same m a bs m' :
    mem_write m a bs = (Ok tt, m') -> mem_read m' a (length bs) = Ok bs;
  (** A write, successful or not, leaves every disjoint range alone. *)
  mem_read_write_frame m a bs r m' a' n :
    mem_write m a bs = (r, m') ->
    a + zlen bs <= a' \/ a' + Z.of_nat n <= a ->
    mem_read m' a' n = mem_read m a' n;
  (** Reading and writing a range have the same bounds check, and no write
      moves the bounds. *)
  mem_write_total m a bs bs' :
    mem_read m a (length bs) = Ok bs' -> exists m', mem_write m a bs = (Ok tt, m');
  mem_read_bounds m a bs r m' a' n :
    mem_write m a bs = (r, m') -> is_ok (mem_read m' a' n) = is_ok (mem_read m a' n);
  (** A readable range is readable in parts. *)
  mem_read_slice m a n bs k j :
    mem_read m a n = Ok bs -> (k + j <= n)%nat ->
    mem_read m (a + Z.of_nat k) j = Ok (slice bs k j);
}.

Section Regions.
Context {E M : Type} `{!GuestMem E M, !GuestMemLaws E M}.
Implicit Types (m : M) (a : Z) (bs src : bytes).

(** A write inside a readable region succeeds and is a [splice] of the region. *)
Lemma mem_write_within m a n bs off src :
  mem_read m a n = Ok bs -> (off + length src <= n)%nat ->
  exists m', mem_write m (a + Z.of_nat off) src = (Ok tt, m') /\
    mem_read m' a n = Ok (splice bs off src).
Proof.
  intros Hr Hb. pose proof (mem_read_length _ _ _ _ Hr) as Hl.
  pose proof (mem_read_slice _ _ _ _ off (length src) Hr Hb) as Hs.
  destruct (mem_write_total _ _ _ _ Hs) as [m' Hw]. exists m'. split; [done|].
  pose proof (mem_read_bounds _ _ _ _ _ a n Hw) as Hok. rewrite Hr in Hok.
  destruct (mem_read m' a n) as [bs'|] eqn:Hr'; [|done]. f_equal.
  pose proof (mem_read_length _ _ _ _ Hr') as Hl'.
  pose proof (mem_read_write_same _ _ _ _ Hw) as Hsame.
  rewrite (mem_read_slice _ _ _ _ _ _ Hr' Hb) in Hsame. injection Hsame as Hsame.
  assert (Hout : forall k j, (k + j <= n)%nat -> (k + j <= off \/ off + length src <= k)%nat ->
            slice bs' k j = slice bs k j).
  { intros k j Hkj Hd. pose proof (mem_read_write_frame _ _ _ _ _ (a + Z.of_nat k) j Hw) as Hf.
    rewrite (mem_read_slice _ _ _ _ _ _ Hr Hkj), (mem_read_slice _ _ _ _ _ _ Hr' Hkj) in Hf.
    unfold zlen in Hf. specialize (Hf ltac:(lia)). congruence. }
  rewrite (slice_split3 bs' off (length src)), (slice_split3 (splice bs off src) off (length src))
    by len.
  rewrite splice_length, Hl, Hl' by lia.
  rewrite Hsame, !Hout by lia. by slices.
Qed.
End Regions.

(** ** Adapters

    A memory seen through another error type: the newtype wrappers that map the
    error of a foreign memory implementation. The laws carry over. *)

Section Adapter.
Context {E E' M : Type} `{!GuestMem E M, !GuestMemLaws E M}.
Variable f : Z -> nat -> E -> E'.

Definition adapt_mem : GuestMem E' M := {|
  mem_read m a n := map_err (f a n) (mem_read m a n);
  mem_write m a bs := let (r, m') := mem_write m a bs in (map_err (f a (length bs)) r, m');
|}.

Lemma adapt_mem_laws : @GuestMemLaws E' M adapt_mem.
Proof.
  split; simpl.
  - intros m a n bs. destruct (mem_read m a n) eqn:Hr; [|done]. intros [= <-].
    by apply mem_read_length in Hr.
  - intros m a bs m'. destruct (mem_write m a bs) as [[[]|] m1] eqn:Hw; intros [=]; subst.
    by rewrite (mem_read_write_same _ _ _ _ Hw).
  - intros m a bs r m' a' n. destruct (mem_write m a bs) as [r1 m1] eqn:Hw. intros [= _ <-] Hd.
    by rewrite (mem_read_write_frame _ _ _ _ _ _ _ Hw Hd).
  - intros m a bs bs'. destruct (mem_read m a (length bs)) eqn:Hr; [|done]. intros _.
    destruct (mem_write_total _ _ _ _ Hr) as [m' Hw]. rewrite Hw. by exists m'.
  - intros m a bs r m' a' n. destruct (mem_write m a bs) as [r1 m1] eqn:Hw. intros [= _ <-].
    pose proof (mem_read_bounds _ _ _ _ _ a' n Hw) as Hb.
    by destruct (mem_read m1 a' n), (mem_read m a' n).
  - intros m a n bs k j. destruct (mem_read m a n) eqn:Hr; [|done]. intros [= <-] Hkj.
    by rewrite (mem_read_slice _ _ _ _ _ _ Hr Hkj).
Qed.
End Adapter.
