(* ===== verification/VirtioQueue.v ===== *)
(** * virtio-queue: split-virtqueue primitives

    Models [crates/virtio-queue/src/lib.rs]: the descriptor codec, the
    cycle-safe chain iterator, the contiguous guest-memory window, the packed
    descriptor, and the available and used ring views. *)

From S2P Require Import Prelude GuestMemory.

Definition DESC_SIZE : Z := 16.
Definition PACKED_DESC_SIZE : Z := 16.
Definition DESC_F_NEXT : Z := Z.shiftl 1 0.
Definition DESC_F_WRITE : Z := Z.shiftl 1 1.
Definition DESC_F_INDIRECT : Z := Z.shiftl 1 2.
Definition MAX_DESC_READ_BYTES : Z := 16 * 1024 * 1024.
Definition MAX_QUEUE_SIZE : Z := 32768.

Definition PACKED_DESC_F_NEXT : Z := Z.shiftl 1 0.
Definition PACKED_DESC_F_WRITE : Z := Z.shiftl 1 1.
Definition PACKED_DESC_F_INDIRECT : Z := Z.shiftl 1 2.
Definition PACKED_DESC_F_AVAIL : Z := Z.shiftl 1 7.
Definition PACKED_DESC_F_USED : Z := Z.shiftl 1 15.

Inductive QueueError : Type :=
| ShortDescriptor (have need : Z)
| ShortBuffer (have need : Z)
| BadIndex (idx table_len : Z)
| ChainTooLong (limit : Z)
| ShortRing (have need qsize : Z)
| ShortTable (have need qsize : Z)
| BadQueueSize (qsize max : Z)
| ShortPackedRing (have need qsize : Z)
| AddressOverflow (addr len : Z)
| GuestMemoryOutOfBounds (addr len mem_start mem_len : Z)
| DescriptorNotWritable (addr : Z)
| DescriptorTooLarge (len max : Z).

(** ** Descriptors *)

Module Descriptor.

Record t : Type := mk {
  addr : Z;
  len : Z;
  flags : Z;
  next : Z;
}.

(** The field widths of the Rust struct. *)
Definition wf (d : t) : Prop :=
  is_u64 (addr d) /\ is_u32 (len d) /\ is_u16 (flags d) /\ is_u16 (next d).

Definition from_bytes (buf : bytes) : result QueueError t :=
  if zlen buf <? DESC_SIZE then Err (ShortDescriptor (zlen buf) DESC_SIZE)
  else Ok {|
    addr := from_le (slice buf 0 8);
    len := from_le (slice buf 8 4);
    flags := from_le (slice buf 12 2);
    next := from_le (slice buf 14 2);
  |}.

Definition write_to (d : t) : SM bytes QueueError Z := fun buf =>
  if zlen buf <? DESC_SIZE then (Err (ShortBuffer (zlen buf) DESC_SIZE), buf)
  else
    let buf := splice buf 0 (to_le 8 (addr d)) in
    let buf := splice buf 8 (to_le 4 (len d)) in
    let buf := splice buf 12 (to_le 2 (flags d)) in
    let buf := splice buf 14 (to_le 2 (next d)) in
    (Ok DESC_SIZE, buf).

Definition to_bytes (d : t) : bytes :=
  to_le 8 (addr d) ++ to_le 4 (len d) ++ to_le 2 (flags d) ++ to_le 2 (next d).

Definition has_next (d : t) : bool := has_flag (flags d) DESC_F_NEXT.
Definition is_writable (d : t) : bool := has_flag (flags d) DESC_F_WRITE.
Definition is_indirect (d : t) : bool := has_flag (flags d) DESC_F_INDIRECT.

Definition end_addr (d : t) : result QueueError Z :=
  ok_or (AddressOverflow (addr d) (len d)) (checked_add64 (addr d) (len d)).

Section WithMemory.
Context {M : Type} `{!GuestMem QueueError M}.

Definition read_from (d : t) (mem : M) : result QueueError bytes :=
  if MAX_DESC_READ_BYTES <? len d
  then Err (DescriptorTooLarge (len d) MAX_DESC_READ_BYTES)
  else mem_read mem (addr d) (Z.to_nat (len d)).

Definition write_to_guest (d : t) (data : bytes) : SM M QueueError Z := fun mem =>
  if negb (is_writable d) then (Err (DescriptorNotWritable (addr d)), mem)
  else
    let n := Z.min (len d) (zlen data) in
    match mem_write mem (addr d) (take (Z.to_nat n) data) with
    | (Ok _, mem') => (Ok n, mem')
    | (Err e, mem') => (Err e, mem')
    end.
End WithMemory.
End Descriptor.

(** ** The chain iterator *)

Module DescriptorChain.

Record t : Type := mk {
  table : list Descriptor.t;
  next_idx : option Z;
  visited : Z;
  failed : bool;
}.

Definition new (table : list Descriptor.t) (head : Z) : t :=
  {| table := table; next_idx := Some head; visited := 0; failed := false |}.

(** [Iterator::next]: the item, if any, and the iterator left behind. *)
Definition next (c : t) : option (result QueueError Descriptor.t) * t :=
  if failed c then (None, c)
  else
    match next_idx c with
    | None => (None, c)
    | Some idx =>
        match table c !! Z.to_nat idx with
        | None =>
            (Some (Err (BadIndex idx (zlen (table c)))),
             {| table := table c; next_idx := next_idx c;
                visited := visited c; failed := true |})
        | Some desc =>
            let v := visited c + 1 in
            if zlen (table c) <? v then
              (Some (Err (ChainTooLong (zlen (table c)))),
               {| table := table c; next_idx := next_idx c;
                  visited := v; failed := true |})
            else
              (Some (Ok desc),
               {| table := table c;
                  next_idx := if Descriptor.has_next desc
                              then Some (Descriptor.next desc) else None;
                  visited := v; failed := false |})
        end
    end.

(** What a [for] loop over the iterator sees within [fuel] calls to [next]. *)
Fixpoint run (fuel : nat) (c : t) : list (result QueueError Descriptor.t) :=
  match fuel with
  | O => []
  | S fuel =>
      match next c with
      | (None, _) => []
      | (Some x, c') => x :: run fuel c'
      end
  end.

(** The whole sequence of items: [table.len() + 2] calls exhaust the
    iterator (lemma [run_exhausted]). *)
Definition items (table : list Descriptor.t) (head : Z) :=
  run (length table + 2) (new table head).
End DescriptorChain.

(** ** Contiguous guest memory *)

Module SliceGuestMemory.

Record t : Type := mk {
  base_addr : Z;
  contents : bytes;
}.

(** [u32::try_from(n).unwrap_or(u32::MAX)] *)
Definition clamp32 (n : Z) : Z := if n <? 2 ^ 32 then n else 2 ^ 32 - 1.

Definition checked_bounds (m : t) (addr len : Z) : result QueueError (Z * Z) :=
  req_end ← ok_or (AddressOverflow addr (clamp32 len)) (checked_add64 addr len);
  mem_end ← ok_or (AddressOverflow (base_addr m) (clamp32 (zlen (contents m))))
              (checked_add64 (base_addr m) (zlen (contents m)));
  if (addr <? base_addr m) || (mem_end <? req_end) then
    Err (GuestMemoryOutOfBounds addr (clamp32 len) (base_addr m) (zlen (contents m)))
  else
    let start := addr - base_addr m in
    Ok (start, start + len).

Definition read (m : t) (addr : Z) (n : nat) : result QueueError bytes :=
  '(start, stop) ← checked_bounds m addr (Z.of_nat n);
  Ok (slice (contents m) (Z.to_nat start) (Z.to_nat (stop - start))).

Definition write (m : t) (addr : Z) (src : bytes) : result QueueError unit * t :=
  match checked_bounds m addr (zlen src) with
  | Err e => (Err e, m)
  | Ok (start, _) =>
      (Ok tt, {| base_addr := base_addr m;
                 contents := splice (contents m) (Z.to_nat start) src |})
  end.

#[global] Instance guest_mem : GuestMem QueueError t :=
  {| mem_read := read; mem_write := write |}.
End SliceGuestMemory.

(** ** Ring geometry and tables *)

Definition avail_ring_size (qsize : Z) : Z := 6 + 2 * qsize.
Definition used_ring_size (qsize : Z) : Z := 6 + 8 * qsize.
Definition desc_table_size (qsize : Z) : Z := qsize * DESC_SIZE.
Definition packed_ring_size (qsize : Z) : Z := qsize * PACKED_DESC_SIZE.

Definition validate_qsize (qsize : Z) : result QueueError unit :=
  if (qsize =? 0) || (MAX_QUEUE_SIZE <? qsize) || negb (is_power_of_two qsize)
  then Err (BadQueueSize qsize MAX_QUEUE_SIZE)
  else Ok tt.

(** The [for i in 0..qsize] loop with its [?]. *)
Definition parse_descriptor_table (buf : bytes) (qsize : Z)
  : result QueueError (list Descriptor.t) :=
  _ ← validate_qsize qsize;
  let need := desc_table_size qsize in
  if zlen buf <? need then Err (ShortTable (zlen buf) need qsize)
  else mapM (fun i => Descriptor.from_bytes (slice buf (i * 16) 16)) (seq 0 (Z.to_nat qsize)).

Module PackedDesc.

Record t : Type := mk {
  addr : Z;
  len : Z;
  id : Z;
  flags : Z;
}.

Definition wf (d : t) : Prop :=
  is_u64 (addr d) /\ is_u32 (len d) /\ is_u16 (id d) /\ is_u16 (flags d).

Definition from_bytes (buf : bytes) : result QueueError t :=
  if zlen buf <? PACKED_DESC_SIZE
  then Err (ShortDescriptor (zlen buf) PACKED_DESC_SIZE)
  else Ok {|
    addr := from_le (slice buf 0 8);
    len := from_le (slice buf 8 4);
    id := from_le (slice buf 12 2);
    flags := from_le (slice buf 14 2);
  |}.

Definition write_to (d : t) : SM bytes QueueError Z := fun buf =>
  if zlen buf <? PACKED_DESC_SIZE
  then (Err (ShortBuffer (zlen buf) PACKED_DESC_SIZE), buf)
  else
    let buf := splice buf 0 (to_le 8 (addr d)) in
    let buf := splice buf 8 (to_le 4 (len d)) in
    let buf := splice buf 12 (to_le 2 (id d)) in
    let buf := splice buf 14 (to_le 2 (flags d)) in
    (Ok PACKED_DESC_SIZE, buf).

Definition to_bytes (d : t) : bytes :=
  to_le 8 (addr d) ++ to_le 4 (len d) ++ to_le 2 (id d) ++ to_le 2 (flags d).

Definition has_next (d : t) : bool := has_flag (flags d) PACKED_DESC_F_NEXT.
Definition is_writable (d : t) : bool := has_flag (flags d) PACKED_DESC_F_WRITE.
Definition is_indirect (d : t) : bool := has_flag (flags d) PACKED_DESC_F_INDIRECT.
Definition is_avail (d : t) : bool := has_flag (flags d) PACKED_DESC_F_AVAIL.
Definition is_used (d : t) : bool := has_flag (flags d) PACKED_DESC_F_USED.
End PackedDesc.

Definition parse_packed_ring (buf : bytes) (qsize : Z)
  : result QueueError (list PackedDesc.t) :=
  _ ← validate_qsize qsize;
  let need := packed_ring_size qsize in
  if zlen buf <? need then Err (ShortPackedRing (zlen buf) need qsize)
  else mapM (fun i => PackedDesc.from_bytes (slice buf (i * 16) 16)) (seq 0 (Z.to_nat qsize)).

(** ** The available ring *)

Module AvailRing.

Record t : Type := mk {
  contents : bytes;
  qsize : Z;
}.

Definition new (bs : bytes) (qsize : Z) : result QueueError t :=
  _ ← validate_qsize qsize;
  let need := avail_ring_size qsize in
  if zlen bs <? need then Err (ShortRing (zlen bs) need qsize)
  else Ok {| contents := bs; qsize := qsize |}.

Definition flags (r : t) : Z := from_le (slice (contents r) 0 2).
Definition idx (r : t) : Z := from_le (slice (contents r) 2 2).

Definition head (r : t) (slot : Z) : Z :=
  let i := Z.to_nat (slot mod qsize r) in
  from_le (slice (contents r) (4 + 2 * i) 2).

Definition used_event (r : t) : Z :=
  from_le (slice (contents r) (4 + 2 * Z.to_nat (qsize r)) 2).
End AvailRing.

Module AvailIter.

Record t : Type := mk {
  ring : AvailRing.t;
  next_idx : Z;
  stop : Z;
}.

Definition iter_new (r : AvailRing.t) (last_seen : Z) : t :=
  {| ring := r; next_idx := last_seen; stop := AvailRing.idx r |}.

Definition next (it : t) : option Z * t :=
  if next_idx it =? stop it then (None, it)
  else
    (Some (AvailRing.head (ring it) (next_idx it)),
     {| ring := ring it; next_idx := wrap16 (next_idx it + 1); stop := stop it |}).

Fixpoint run (fuel : nat) (it : t) : list Z :=
  match fuel with
  | O => []
  | S fuel =>
      match next it with
      | (None, _) => []
      | (Some h, it') => h :: run fuel it'
      end
  end.
End AvailIter.

(** ** The used ring *)

Module UsedRing.

Record t : Type := mk {
  contents : bytes;
  qsize : Z;
}.

Definition new (bs : bytes) (qsize : Z) : result QueueError t :=
  _ ← validate_qsize qsize;
  let need := used_ring_size qsize in
  if zlen bs <? need then Err (ShortRing (zlen bs) need qsize)
  else Ok {| contents := bs; qsize := qsize |}.

(** [self.bytes[off..off + src.len()].copy_from_slice(src)] *)
Definition set_bytes (r : t) (off : nat) (src : bytes) : t :=
  {| contents := splice (contents r) off src; qsize := qsize r |}.

Definition flags (r : t) : Z := from_le (slice (contents r) 0 2).
Definition set_flags (r : t) (v : Z) : t := set_bytes r 0 (to_le 2 v).
Definition idx (r : t) : Z := from_le (slice (contents r) 2 2).
Definition set_idx (r : t) (v : Z) : t := set_bytes r 2 (to_le 2 v).

Definition avail_event (r : t) : Z :=
  from_le (slice (contents r) (4 + 8 * Z.to_nat (qsize r)) 2).
Definition set_avail_event (r : t) (v : Z) : t :=
  set_bytes r (4 + 8 * Z.to_nat (qsize r)) (to_le 2 v).

Definition elem (r : t) (slot : Z) : Z * Z :=
  let i := Z.to_nat (slot mod qsize r) in
  let off := (4 + 8 * i)%nat in
  (from_le (slice (contents r) off 4), from_le (slice (contents r) (off + 4) 4)).

(** Returns the index published for the element and the ring left behind. *)
Definition push (r : t) (head_idx written_len : Z) : Z * t :=
  let cur := idx r in
  let slot := Z.to_nat (cur mod qsize r) in
  let off := (4 + 8 * slot)%nat in
  let r := set_bytes r off (to_le 4 head_idx) in
  let r := set_bytes r (off + 4) (to_le 4 written_len) in
  let new_idx := wrap16 (cur + 1) in
  (cur, set_idx r new_idx).
End UsedRing.

(** ** Descriptor codec: lemmas *)

Section DescriptorCodec.
Implicit Types (d : Descriptor.t) (buf : bytes).

Lemma desc_to_bytes_length d : length (Descriptor.to_bytes d) = 16%nat.
Proof. unfold Descriptor.to_bytes. len. Qed.

Lemma desc_from_bytes_short buf :
  zlen buf < DESC_SIZE ->
  Descriptor.from_bytes buf = Err (ShortDescriptor (zlen buf) DESC_SIZE).
Proof. intros ?%Z.ltb_lt. unfold Descriptor.from_bytes. by case_match. Qed.

Lemma desc_from_bytes_wf buf d : Descriptor.from_bytes buf = Ok d -> Descriptor.wf d.
Proof.
  unfold Descriptor.from_bytes. case_if; [done|].
  unfold DESC_SIZE, zlen in *. intros [= <-]. repeat split; simpl;
    first [apply from_le_u64 | apply from_le_u32 | apply from_le_u16]; lia.
Qed.

Lemma desc_decode_encode d rest :
  Descriptor.wf d -> Descriptor.from_bytes (Descriptor.to_bytes d ++ rest) = Ok d.
Proof.
  intros (Ha & Hl & Hf & Hn). unfold Descriptor.from_bytes, zlen.
  rewrite length_app, desc_to_bytes_length.
  case_if; [unfold DESC_SIZE in *; lia|].
  unfold Descriptor.to_bytes. fields.
  rewrite from_to_le64, from_to_le32, !from_to_le16 by done. by destruct d.
Qed.

Lemma desc_encode_decode buf d :
  Descriptor.from_bytes buf = Ok d -> Descriptor.to_bytes d = slice buf 0 16.
Proof.
  unfold Descriptor.from_bytes. case_if; [done|].
  unfold DESC_SIZE, zlen in *. intros [= <-]. unfold Descriptor.to_bytes. simpl.
  rewrite !to_le_slice by lia. by cat_slices.
Qed.

Lemma desc_write_to_ok d buf :
  (16 <= length buf)%nat ->
  Descriptor.write_to d buf = (Ok 16, Descriptor.to_bytes d ++ drop 16 buf).
Proof.
  intros Hl. unfold Descriptor.write_to, DESC_SIZE. case_if; [unfold zlen in *; lia|].
  f_equal. unfold Descriptor.to_bytes. by write_fields.
Qed.
End DescriptorCodec.

(** ** The chain iterator: specification and lemmas *)

(** [chain_from table i ds]: following [next] links from index [i] visits
    exactly the descriptors [ds] and stops at one without [DESC_F_NEXT]. *)
Inductive chain_from (table : list Descriptor.t) : Z -> list Descriptor.t -> Prop :=
| chain_last i d :
    table !! Z.to_nat i = Some d -> Descriptor.has_next d = false ->
    chain_from table i [d]
| chain_more i d ds :
    table !! Z.to_nat i = Some d -> Descriptor.has_next d = true ->
    chain_from table (Descriptor.next d) ds ->
    chain_from table i (d :: ds).

(** The table slots such a walk visits. *)
Inductive chain_slots (table : list Descriptor.t) : Z -> list nat -> Prop :=
| slots_last i d :
    table !! Z.to_nat i = Some d -> Descriptor.has_next d = false ->
    chain_slots table i [Z.to_nat i]
| slots_more i d js :
    table !! Z.to_nat i = Some d -> Descriptor.has_next d = true ->
    chain_slots table (Descriptor.next d) js ->
    chain_slots table i (Z.to_nat i :: js).

Section Chain.
Context (table : list Descriptor.t).
Implicit Types (ds : list Descriptor.t) (i : Z).

Lemma chain_from_slots i ds :
  chain_from table i ds ->
  exists js, chain_slots table i js /\ length js = length ds.
Proof.
  induction 1 as [i d Hd Hn | i d ds Hd Hn _ (js & His & Hlen)].
  - exists [Z.to_nat i]. split; [by eapply slots_last|done].
  - exists (Z.to_nat i :: js). split; [by eapply slots_more|simpl; lia].
Qed.

Lemma chain_slots_det i i' js js' :
  chain_slots table i js -> chain_slots table i' js' ->
  Z.to_nat i = Z.to_nat i' -> js = js'.
Proof.
  intros His. revert i' js'.
  induction His as [i d Hd Hn | i d js Hd Hn His IH]; intros i' js' H' Heq;
    destruct H' as [i' d' Hd' Hn' | i' d' js' Hd' Hn' His']; rewrite Heq in *;
    simplify_eq; try congruence.
  f_equal. eauto.
Qed.

(** The slots visited after slot [j] form the walk from [j]. *)
Lemma chain_slots_suffix i js j :
  chain_slots table i js -> j ∈ js ->
  exists i' js', Z.to_nat i' = j /\ chain_slots table i' js' /\ (length js' <= length js)%nat.
Proof.
  induction 1 as [i d Hd Hn | i d js Hd Hn His IH]; intros Hj.
  - apply list_elem_of_singleton in Hj as ->. exists i, [Z.to_nat i].
    repeat split; [by eapply slots_last|done].
  - apply elem_of_cons in Hj as [->|Hj].
    + exists i, (Z.to_nat i :: js). repeat split; [by eapply slots_more|done].
    + destruct (IH Hj) as (i' & js' & ? & ? & ?). exists i', js'.
      repeat split; [done..|simpl; lia].
Qed.

(** A terminating walk never visits a slot twice. *)
Lemma chain_slots_nodup i js : chain_slots table i js -> NoDup js.
Proof.
  induction 1 as [i d Hd Hn | i d js Hd Hn His IH].
  - apply NoDup_singleton.
  - constructor; [|done]. intros Hin.
    destruct (chain_slots_suffix _ _ _ His Hin) as (i' & js' & Heq & His' & Hle).
    assert (Z.to_nat i :: js = js') as <-.
    { eapply chain_slots_det; [by eapply slots_more|done|done]. }
    simpl in Hle. lia.
Qed.

Lemma chain_slots_in_table i js :
  chain_slots table i js -> Forall (fun j => (j < length table)%nat) js.
Proof. induction 1; repeat constructor; eauto using lookup_lt_Some. Qed.

Lemma chain_from_length i ds : chain_from table i ds -> (length ds <= length table)%nat.
Proof.
  intros (js & His & <-)%chain_from_slots.
  rewrite <- (length_seq (length table) 0).
  apply submseteq_length, NoDup_submseteq; [by eapply chain_slots_nodup|].
  intros j Hj. apply elem_of_seq.
  pose proof (chain_slots_in_table _ _ His) as Hall.
  rewrite Forall_forall in Hall. specialize (Hall j Hj). lia.
Qed.
End Chain.

(** The walk as a function of the remaining budget [n] of descriptors: the
    reference definition of what the iterator yields. *)
Fixpoint walk (table : list Descriptor.t) (n : nat) (i : Z)
  : list (result QueueError Descriptor.t) :=
  match table !! Z.to_nat i with
  | None => [Err (BadIndex i (zlen table))]
  | Some d =>
      match n with
      | O => [Err (ChainTooLong (zlen table))]
      | S n =>
          Ok d :: (if Descriptor.has_next d then walk table n (Descriptor.next d) else [])
      end
  end.

Section Walk.
Context (table : list Descriptor.t).
Implicit Types (ds : list Descriptor.t) (i : Z).

Lemma run_failed fuel c :
  DescriptorChain.failed c = true -> DescriptorChain.run fuel c = [].
Proof.
  destruct fuel; [done|]. intros Hf. simpl. unfold DescriptorChain.next. by rewrite Hf.
Qed.

Lemma run_walk n : forall fuel i v,
  v + Z.of_nat n = zlen table -> (n + 2 <= fuel)%nat ->
  DescriptorChain.run fuel
    {| DescriptorChain.table := table; DescriptorChain.next_idx := Some i;
       DescriptorChain.visited := v; DescriptorChain.failed := false |}
  = walk table n i.
Proof.
  induction n as [|n IH]; intros [|fuel] i v Hv Hf; try lia; simpl;
    unfold DescriptorChain.next; simpl;
    destruct (table !! Z.to_nat i) as [d|] eqn:Hd; try (by rewrite run_failed).
  - case_if; [|lia]. by rewrite run_failed.
  - case_if; [lia|]. f_equal.
    destruct (Descriptor.has_next d); [apply IH; lia|].
    destruct fuel; [done|]. done.
Qed.

Lemma items_walk i : DescriptorChain.items table i = walk table (length table) i.
Proof. apply run_walk; unfold zlen; lia. Qed.

Lemma walk_chain n i ds : walk table n i = Ok <$> ds -> chain_from table i ds.
Proof.
  revert i ds. induction n as [|n IH]; intros i ds; simpl;
    destruct (table !! Z.to_nat i) as [d|] eqn:Hd; destruct ds as [|d' ds];
    simpl; intros Heq; simplify_eq.
  destruct (Descriptor.has_next d') eqn:Hn.
  - eapply chain_more; eauto.
  - destruct ds; [|done]. by eapply chain_last.
Qed.

Lemma chain_walk n i ds :
  chain_from table i ds -> (length ds <= n)%nat -> walk table n i = Ok <$> ds.
Proof.
  intros Hc. revert n. induction Hc as [i d Hd Hn | i d ds Hd Hn _ IH];
    intros [|n] Hle; simpl in *; try lia; rewrite Hd, Hn; [done|].
  rewrite IH by lia. done.
Qed.

(** Every walk ends: all descriptors, then at most one error. *)
Lemma walk_shape n i :
  exists ds es, walk table n i = (Ok <$> ds) ++ es /\ (length ds <= n)%nat /\
    (es = [] \/ (exists j, es = [Err (BadIndex j (zlen table))]) \/
     (es = [Err (ChainTooLong (zlen table))] /\ length ds = n)).
Proof.
  revert i. induction n as [|n IH]; intros i; simpl;
    destruct (table !! Z.to_nat i) as [d|] eqn:Hd;
    try (eexists [], _; simpl; split; [done|]; split; [lia|]; eauto; fail).
  destruct (Descriptor.has_next d).
  - destruct (IH (Descriptor.next d)) as (ds & es & -> & Hle & Hes).
    exists (d :: ds), es. split; [done|]. simpl. split; [lia|].
    destruct Hes as [?|[?|[? ?]]]; [eauto..|]. right. right. split; [done|lia].
  - exists [d], []. simpl. split; [done|]. split; [lia|]. by left.
Qed.
End Walk.

(** ** Contiguous memory satisfies the guest-memory interface *)

Section SliceMemory.
Import SliceGuestMemory.
Implicit Types (m : t).

(** The bounds check succeeds exactly on the ranges inside the window that
    do not run past the 64-bit address space. *)
Lemma checked_bounds_ok m a n start stop :
  checked_bounds m a n = Ok (start, stop) <->
  base_addr m <= a /\ a + n <= base_addr m + zlen (contents m) /\
  a + n < 2 ^ 64 /\ base_addr m + zlen (contents m) < 2 ^ 64 /\
  start = a - base_addr m /\ stop = start + n.
Proof.
  unfold checked_bounds, checked_add64.
  destruct (a + n <? 2 ^ 64) eqn:Ha; destruct (base_addr m + _ <? 2 ^ 64) eqn:Hb;
    simpl; bool_to_prop; try (split; [done|lia]).
  case_if; [apply orb_true_iff in Heqb as [?|?]|]; bool_to_prop.
  1,2: split; [done|lia].
  split; [intros [= <- <-]; repeat split; lia|].
  intros (? & ? & ? & ? & -> & ->). done.
Qed.

Definition in_window m (a n : Z) : Prop :=
  base_addr m <= a /\ a + n <= base_addr m + zlen (contents m) /\
  base_addr m + zlen (contents m) < 2 ^ 64.

Lemma slice_read_ok m a n bs :
  read m a n = Ok bs <->
  in_window m a (Z.of_nat n) /\ bs = slice (contents m) (Z.to_nat (a - base_addr m)) n.
Proof.
  unfold read, in_window.
  destruct (checked_bounds m a (Z.of_nat n)) as [[start stop]|e] eqn:Hc; simpl.
  - apply checked_bounds_ok in Hc as (? & ? & ? & ? & -> & ->).
    replace (_ + Z.of_nat n - _) with (Z.of_nat n) by lia. rewrite Nat2Z.id.
    split; [intros [= <-]; repeat split; lia|by intros [_ ->]].
  - split; [done|]. intros [(? & ? & ?) _].
    assert (checked_bounds m a (Z.of_nat n) =
      Ok (a - base_addr m, a - base_addr m + Z.of_nat n)) as Hok
      by (apply checked_bounds_ok; repeat split; lia).
    congruence.
Qed.

Lemma slice_write_ok m a bs m' :
  write m a bs = (Ok tt, m') <->
  in_window m a (zlen bs) /\
  m' = {| base_addr := base_addr m;
          contents := splice (contents m) (Z.to_nat (a - base_addr m)) bs |}.
Proof.
  unfold write, in_window.
  destruct (checked_bounds m a (zlen bs)) as [[start stop]|e] eqn:Hc; simpl.
  - apply checked_bounds_ok in Hc as (? & ? & ? & ? & -> & ->).
    split; [intros [= <-]; repeat split; lia|by intros [_ ->]].
  - split; [done|]. intros [(? & ? & ?) _].
    assert (checked_bounds m a (zlen bs) =
      Ok (a - base_addr m, a - base_addr m + zlen bs)) as Hok
      by (apply checked_bounds_ok; repeat split; lia).
    congruence.
Qed.

Lemma slice_write_err m a bs e m' : write m a bs = (Err e, m') -> m' = m.
Proof. unfold write. by repeat case_match; intros; simplify_eq. Qed.

Lemma slice_write_cases m a bs r m' :
  write m a bs = (r, m') ->
  m' = m \/ in_window m a (zlen bs) /\
  m' = {| base_addr := base_addr m;
          contents := splice (contents m) (Z.to_nat (a - base_addr m)) bs |}.
Proof.
  destruct r as [[]|e]; intros H; [right; by apply slice_write_ok|].
  left. by eapply slice_write_err.
Qed.

Lemma slice_write_window m a bs r m' a' n :
  write m a bs = (r, m') -> in_window m' a' n <-> in_window m a' n.
Proof.
  intros [->|[Hw ->]]%slice_write_cases; [done|].
  unfold in_window, zlen in *. simpl. rewrite splice_length by lia. done.
Qed.

#[global] Instance guest_mem_laws : GuestMemLaws QueueError t.
Proof.
  split; simpl.
  - intros m a n bs [Hw ->]%slice_read_ok. unfold in_window, zlen in *.
    apply slice_length. lia.
  - intros m a bs m' Hwr. apply slice_read_ok. split.
    + rewrite (slice_write_window _ _ _ _ _ _ _ Hwr). by apply slice_write_ok in Hwr as [? _].
    + apply slice_write_ok in Hwr as [Hw ->]. unfold in_window, zlen in *. simpl.
      symmetry. apply splice_slice_same. lia.
  - intros m a bs r m' a' n Hwr Hd.
    pose proof (slice_write_window _ _ _ _ _ a' (Z.of_nat n) Hwr) as Hwin.
    unfold read. apply slice_write_cases in Hwr as [->|[Hw ->]]; [done|].
    unfold checked_bounds. simpl. unfold in_window, zlen in *. simpl in *.
    rewrite splice_length in * by lia.
    destruct (checked_add64 a' (Z.of_nat n)) as [req|]; [|done]. simpl.
    destruct (checked_add64 (base_addr m) _) as [me|] eqn:Hme; [|done]. simpl.
    unfold checked_add64 in Hme. case_if_in Hme; simplify_eq.
    case_if; [done|]. simpl. f_equal.
    apply splice_slice_disjoint; lia.
  - intros m a bs bs' [Hw _]%slice_read_ok. eexists. by apply slice_write_ok.
  - intros m a bs r m' a' n Hwr.
    pose proof (slice_write_window _ _ _ _ _ a' (Z.of_nat n) Hwr) as Hwin.
    destruct (read m a' n) as [b1|e1] eqn:H1, (read m' a' n) as [b2|e2] eqn:H2;
      try done; simpl.
    + apply slice_read_ok in H1 as [H1 _]. apply Hwin in H1.
      assert (read m' a' n = Ok (slice (contents m') (Z.to_nat (a' - base_addr m')) n))
        by by apply slice_read_ok. congruence.
    + apply slice_read_ok in H2 as [H2 _]. apply Hwin in H2.
      assert (read m a' n = Ok (slice (contents m) (Z.to_nat (a' - base_addr m)) n))
        by by apply slice_read_ok. congruence.
  - intros m a n bs k j [Hw ->]%slice_read_ok Hkj. apply slice_read_ok.
    unfold in_window, zlen in *. split; [lia|].
    replace (Z.to_nat (a + Z.of_nat k - base_addr m))
      with (Z.to_nat (a - base_addr m) + k)%nat by lia.
    by rewrite slice_slice.
Qed.
End SliceMemory.

(** ** Ring lemmas *)

Lemma validate_qsize_ok q :
  validate_qsize q = Ok tt <->
  0 < q /\ q <= MAX_QUEUE_SIZE /\ is_power_of_two q = true.
Proof.
  unfold validate_qsize. case_if; split; try done.
  - intros (? & ? & Hp). rewrite Hp in *. rewrite orb_false_r in *.
    apply orb_true_iff in Heqb as [?|?]; bool_to_prop; lia.
  - intros _. repeat split; [|lia|done]. unfold is_power_of_two in *. bool_to_prop. lia.
Qed.

(** The range facts a validated ring's index arithmetic needs. *)
Lemma slot_range q z : 0 < q -> (Z.to_nat (z mod q) < Z.to_nat q)%nat.
Proof. intros. pose proof (Z.mod_pos_bound z q). lia. Qed.

Module AvailSpec.
Import AvailIter.

Definition wf (r : AvailRing.t) : Prop :=
  validate_qsize (AvailRing.qsize r) = Ok tt /\
  avail_ring_size (AvailRing.qsize r) <= zlen (AvailRing.contents r).

Lemma avail_new_wf bs q r : AvailRing.new bs q = Ok r -> wf r.
Proof.
  unfold AvailRing.new, wf. destruct (validate_qsize q) as [[]|] eqn:Hq; [|done].
  simpl. case_if; [done|]. intros [= <-]. simpl. auto.
Qed.

Lemma avail_idx_u16 r : wf r -> is_u16 (AvailRing.idx r).
Proof.
  intros [(? & ? & ?)%validate_qsize_ok Hl]. unfold avail_ring_size, zlen in Hl.
  apply from_le_u16. lia.
Qed.

Lemma head_u16 r slot : wf r -> is_u16 (AvailRing.head r slot).
Proof.
  intros [(? & ? & ?)%validate_qsize_ok Hl]. unfold avail_ring_size, zlen in Hl.
  apply from_le_u16. pose proof (slot_range (AvailRing.qsize r) slot). lia.
Qed.

Lemma run_spec r stop n : forall fuel i,
  is_u16 i -> is_u16 stop -> wrap16 (stop - i) = Z.of_nat n -> (n < fuel)%nat ->
  run fuel {| ring := r; next_idx := i; stop := stop |}
  = (fun k => AvailRing.head r (wrap16 (i + Z.of_nat k))) <$> seq 0 n.
Proof.
  induction n as [|n IH]; intros [|fuel] i Hi Hs Hn Hf; try lia; simpl;
    unfold next; simpl.
  - assert (i = stop) as -> by ulia. by rewrite Z.eqb_refl.
  - assert (i <> stop) by (intros ->; ulia).
    case_if; [done|]. rewrite Z.add_0_r, (wrap16_small i) by done. f_equal.
    rewrite IH; [|apply wrap16_range|done|ulia|lia].
    rewrite <- fmap_S_seq, <- list_fmap_compose. apply list_fmap_ext.
    intros k x Hx. simpl. f_equal. ulia.
Qed.
End AvailSpec.

Module UsedSpec.
Import UsedRing.

Definition wf (r : t) : Prop :=
  validate_qsize (qsize r) = Ok tt /\ used_ring_size (qsize r) <= zlen (contents r).

Lemma used_new_wf bs q r : new bs q = Ok r -> wf r.
Proof.
  unfold new, wf. destruct (validate_qsize q) as [[]|] eqn:Hq; [|done].
  simpl. case_if; [done|]. intros [= <-]. simpl. auto.
Qed.

Lemma used_idx_u16 r : wf r -> is_u16 (idx r).
Proof.
  intros [(? & ? & ?)%validate_qsize_ok Hl]. unfold used_ring_size, zlen in Hl.
  apply from_le_u16. lia.
Qed.

(** The bounds every access of a well-formed ring relies on. *)
Ltac ring_bounds r :=
  match goal with
  | H : wf r |- _ =>
      destruct H as [Hq Hl];
      pose proof (proj1 (validate_qsize_ok _) Hq) as (? & ? & ?);
      pose proof (slot_range (qsize r) (idx r));
      unfold used_ring_size, zlen in *
  end.

Lemma push_wf r h l : wf r -> wf (push r h l).2.
Proof.
  intros. ring_bounds r. split; [done|]. unfold used_ring_size, zlen. simpl. len.
Qed.

Lemma push_idx r h l : wf r -> idx (push r h l).2 = wrap16 (idx r + 1).
Proof.
  intros. ring_bounds r.
  unfold idx at 1. simpl. slices. apply from_to_le16, wrap16_range.
Qed.

Lemma push_flags r h l : wf r -> flags (push r h l).2 = flags r.
Proof.
  intros. ring_bounds r.
  unfold flags. simpl. by slices.
Qed.

Lemma push_avail_event r h l : wf r -> avail_event (push r h l).2 = avail_event r.
Proof.
  intros. ring_bounds r.
  unfold avail_event. simpl. by slices.
Qed.

Lemma push_elem r h l slot :
  wf r -> is_u32 h -> is_u32 l ->
  elem (push r h l).2 slot =
  if decide (slot mod qsize r = idx r mod qsize r) then (h, l) else elem r slot.
Proof.
  intros ? Hh Hlen. ring_bounds r.
  pose proof (slot_range (qsize r) slot).
  pose proof (Z.mod_pos_bound (idx r) (qsize r)).
  pose proof (Z.mod_pos_bound slot (qsize r)).
  unfold elem. simpl. case_decide as Hs.
  - rewrite Hs. slices. by rewrite !from_to_le32.
  - assert (Z.to_nat (slot mod qsize r) <> Z.to_nat (idx r mod qsize r)) by lia.
    slices. done.
Qed.

(** A run of completions reported one after the other. *)
Definition push_all (r : t) (es : list (Z * Z)) : t :=
  foldl (fun r e => (push r e.1 e.2).2) r es.

Lemma push_all_snoc r es e : push_all r (es ++ [e]) = (push (push_all r es) e.1 e.2).2.
Proof. unfold push_all. by rewrite foldl_app. Qed.

Lemma push_all_state r es :
  wf r ->
  wf (push_all r es) /\ qsize (push_all r es) = qsize r /\
  idx (push_all r es) = wrap16 (idx r + zlen es) /\
  flags (push_all r es) = flags r /\ avail_event (push_all r es) = avail_event r.
Proof.
  intros Hr. induction es as [|e es IH] using rev_ind.
  - split; [done|]. rewrite Z.add_0_r, wrap16_small by (by apply used_idx_u16). done.
  - rewrite push_all_snoc. destruct IH as (Hw & Hq & Hi & Hf & Ha).
    split; [by apply push_wf|]. split; [done|].
    rewrite push_idx, push_flags, push_avail_event by done.
    rewrite Hi. repeat split; [|done..]. unfold zlen. rewrite length_app. simpl. ulia.
Qed.

(** The last [qsize] completions are all readable at their own slots. *)
Lemma push_all_elem r es k h l :
  wf r -> zlen es <= qsize r -> Forall (fun e => is_u32 e.1 /\ is_u32 e.2) es ->
  es !! k = Some (h, l) ->
  elem (push_all r es) (wrap16 (idx r + Z.of_nat k)) = (h, l).
Proof.
  intros Hr. revert k h l. induction es as [|[h' l'] es IH] using rev_ind; [done|].
  intros k h l Hlen Hall Hk. rewrite push_all_snoc. cbn [fst snd].
  apply Forall_app in Hall as [Hall [Hh Hl]%Forall_singleton].
  destruct (push_all_state r es Hr) as (Hw & Hq & Hi & _).
  rewrite push_elem, Hq, Hi by done.
  assert (is_power_of_two (qsize r) = true /\ qsize r <= 2 ^ 16 /\ 0 < qsize r) as (?&?&?).
  { destruct Hr as [(? & ? & ?)%validate_qsize_ok _]. unfold MAX_QUEUE_SIZE in *.
    repeat split; [done|lia..]. }
  rewrite !wrap16_slot by done.
  unfold zlen in *. rewrite length_app in Hlen. simpl in Hlen.
  apply lookup_app_Some in Hk as [Hk|[Hge Hk]].
  - pose proof (lookup_lt_Some _ _ _ Hk). rewrite decide_False.
    + apply IH; [lia|done..].
    + intros [z Hz]%Z.cong_iff_ex.
      assert (z <= -1 \/ 0 <= z) as [?|?] by lia; nia.
  - destruct (k - length es)%nat eqn:Hke; [|done]. simpl in Hk. simplify_eq.
    rewrite decide_True; [done|]. do 2 f_equal. lia.
Qed.
End UsedSpec.

(** ** Tables of 16-byte entries

    Shared by the split and the packed layout: parsing a table entry by entry
    re-encodes to the bytes it was read from. *)

Section Tables.
Context {T : Type} (from_bytes : bytes -> result QueueError T) (to_bytes : T -> bytes).
Context (Hcodec : forall bs, length bs = 16%nat ->
  exists d, from_bytes bs = Ok d /\ to_bytes d = bs).

Lemma parse_entries buf n : forall k,
  (16 * (k + n) <= length buf)%nat ->
  exists ds, mapM (fun i => from_bytes (slice buf (i * 16) 16)) (seq k n) = Ok ds /\
    length ds = n /\ concat (to_bytes <$> ds) = slice buf (16 * k) (16 * n).
Proof.
  induction n as [|n IH]; intros k Hk; simpl.
  - exists []. by rewrite slice_0.
  - destruct (Hcodec (slice buf (k * 16) 16)) as (d & -> & Hd);
      [apply slice_length; lia|].
    destruct (IH (S k)) as (ds & -> & Hlen & Hcat); [lia|]. simpl.
    exists (d :: ds). repeat split; [simpl; lia|].
    change (to_bytes d ++ concat (to_bytes <$> ds) = slice buf (16 * k) (16 * S n)).
    rewrite Hd, Hcat.
    replace (k * 16)%nat with (16 * k)%nat by lia.
    rewrite slice_cat by lia. f_equal. lia.
Qed.
End Tables.

Lemma desc_codec16 bs :
  length bs = 16%nat ->
  exists d, Descriptor.from_bytes bs = Ok d /\ Descriptor.to_bytes d = bs.
Proof.
  intros Hl. destruct (Descriptor.from_bytes bs) as [d|] eqn:Hd.
  - exists d. split; [done|]. apply desc_encode_decode in Hd. by rewrite Hd, slice_all.
  - unfold Descriptor.from_bytes, zlen, DESC_SIZE in Hd. rewrite Hl in Hd. done.
Qed.

Section PackedCodec.
Lemma packed_to_bytes_length d : length (PackedDesc.to_bytes d) = 16%nat.
Proof. unfold PackedDesc.to_bytes. len. Qed.

Lemma packed_decode_encode d rest :
  PackedDesc.wf d -> PackedDesc.from_bytes (PackedDesc.to_bytes d ++ rest) = Ok d.
Proof.
  intros (Ha & Hl & Hi & Hf). unfold PackedDesc.from_bytes, zlen.
  rewrite length_app, packed_to_bytes_length.
  case_if; [unfold PACKED_DESC_SIZE in *; lia|].
  unfold PackedDesc.to_bytes. fields.
  rewrite from_to_le64, from_to_le32, !from_to_le16 by done. by destruct d.
Qed.

Lemma packed_codec16 bs :
  length bs = 16%nat ->
  exists d, PackedDesc.from_bytes bs = Ok d /\ PackedDesc.to_bytes d = bs.
Proof.
  intros Hl. unfold PackedDesc.from_bytes, PACKED_DESC_SIZE, zlen. rewrite Hl. simpl.
  eexists. split; [done|]. unfold PackedDesc.to_bytes; cbn [PackedDesc.addr
    PackedDesc.len PackedDesc.id PackedDesc.flags].
  rewrite !to_le_slice by lia. cat_slices. by rewrite slice_all.
Qed.
End PackedCodec.

(** ** Properties *)

(** the descriptor codec is a bijection between well-formed descriptors
    and 16-byte prefixes: decoding what [to_bytes] (or [write_to] into a larger
    buffer) produced gives the descriptor back whatever follows it, and every
    descriptor [from_bytes] accepts is in range and re-encodes to the bytes it
    was parsed from. *)
Theorem descriptor_codec_roundtrip (d : Descriptor.t) (buf rest : bytes) :
  (Descriptor.wf d -> Descriptor.from_bytes (Descriptor.to_bytes d ++ rest) = Ok d) /\
  (forall d', Descriptor.from_bytes buf = Ok d' ->
     Descriptor.wf d' /\ Descriptor.to_bytes d' = slice buf 0 16) /\
  (16 <= zlen buf ->
     Descriptor.write_to d buf = (Ok 16, Descriptor.to_bytes d ++ drop 16 buf)).
Proof.
  split; [apply desc_decode_encode|]. split.
  - intros d' Hd. split; [by eapply desc_from_bytes_wf|by apply desc_encode_decode].
  - unfold zlen. intros Hl. apply desc_write_to_ok. lia.
Qed.

Lemma descriptor_codec_roundtrip_witness :
  let d := Descriptor.mk 0xdeadbeefcafef00d 4096 3 7 in
  Descriptor.from_bytes (Descriptor.to_bytes d ++ [Byte.xab]) = Ok d.
Proof.
  intros d. apply (descriptor_codec_roundtrip d [] [Byte.xab]).
  unfold Descriptor.wf; simpl; unfold_uint; lia.
Defined.

(** C2: the chain iterator yields, without any error, exactly the descriptors of
    the terminating [next]-chain from [head]: its cycle guard of [table.len()]
    visits never cuts a chain that does terminate, and whatever it yields
    error-free is such a chain. *)
Theorem chain_iterator_exact (table : list Descriptor.t) (head : Z) (ds : list Descriptor.t) :
  DescriptorChain.items table head = Ok <$> ds <-> chain_from table head ds.
Proof.
  rewrite items_walk. split; [apply walk_chain|].
  intros Hc. apply chain_walk; [done|]. by eapply chain_from_length.
Qed.

(** on any table, hostile ones included, the iterator is exhausted after at
    most [table.len() + 1] items: some descriptors, then at most one error,
    which is [BadIndex] or, only when no terminating chain exists,
    [ChainTooLong]; more calls of [next] add nothing. *)
Theorem chain_iterator_terminates (table : list Descriptor.t) (head : Z) (extra : nat) :
  DescriptorChain.run (length table + 2 + extra) (DescriptorChain.new table head)
    = DescriptorChain.items table head /\
  exists ds es,
    DescriptorChain.items table head = (Ok <$> ds) ++ es /\
    (length ds <= length table)%nat /\
    (es = [] \/ (exists i, es = [Err (BadIndex i (zlen table))]) \/
     es = [Err (ChainTooLong (zlen table))] /\ ~ (exists ds', chain_from table head ds')).
Proof.
  split.
  - rewrite items_walk. unfold DescriptorChain.new. apply run_walk; unfold zlen; lia.
  - destruct (walk_shape table (length table) head) as (ds & es & Hw & Hle & Hes).
    exists ds, es. rewrite items_walk, Hw. split; [done|]. split; [done|].
    destruct Hes as [?|[?|[-> Hlen]]]; [eauto..|]. right. right. split; [done|].
    intros (ds' & Hc). pose proof (chain_from_length _ _ _ Hc).
    rewrite (chain_walk _ _ _ _ Hc) in Hw by done.
    apply (f_equal (fun l => Err (ChainTooLong (zlen table)) ∈ l)) in Hw.
    assert (Err (ChainTooLong (zlen table)) ∈ (Ok <$> ds' : list (result QueueError _))) as Hin.
    { rewrite Hw. set_solver. }
    apply list_elem_of_fmap in Hin as (? & ? & ?). done.
Qed.

(** parsing a descriptor table accepts exactly the power-of-two queue sizes
    up to 32768 with a buffer of at least [16 * qsize] bytes, and then returns
    [qsize] descriptors that re-encode to that prefix; [ShortDescriptor] is
    unreachable. The packed ring's parser behaves the same way. *)
Theorem parse_table_spec (buf : bytes) (q : Z) :
  match parse_descriptor_table buf q with
  | Ok t => validate_qsize q = Ok tt /\ zlen t = q /\
      concat (Descriptor.to_bytes <$> t) = slice buf 0 (Z.to_nat (16 * q))
  | Err e =>
      e = BadQueueSize q MAX_QUEUE_SIZE /\ validate_qsize q <> Ok tt \/
      e = ShortTable (zlen buf) (16 * q) q /\ zlen buf < 16 * q
  end /\
  match parse_packed_ring buf q with
  | Ok t => validate_qsize q = Ok tt /\ zlen t = q /\
      concat (PackedDesc.to_bytes <$> t) = slice buf 0 (Z.to_nat (16 * q))
  | Err e =>
      e = BadQueueSize q MAX_QUEUE_SIZE /\ validate_qsize q <> Ok tt \/
      e = ShortPackedRing (zlen buf) (16 * q) q /\ zlen buf < 16 * q
  end.
Proof.
  unfold parse_descriptor_table, parse_packed_ring, desc_table_size, packed_ring_size,
    DESC_SIZE, PACKED_DESC_SIZE. rewrite Z.mul_comm.
  destruct (validate_qsize q) as [[]|e] eqn:Hq.
  - pose proof (proj1 (validate_qsize_ok _) Hq) as (? & ? & ?). simpl.
    case_if; [split; right; done|]. unfold zlen in *.
    destruct (parse_entries _ _ desc_codec16 buf (Z.to_nat q) 0) as (t1 & -> & ? & Hc1); [lia|].
    destruct (parse_entries _ _ packed_codec16 buf (Z.to_nat q) 0) as (t2 & -> & ? & Hc2); [lia|].
    rewrite Hc1, Hc2. repeat split; try lia; f_equal; lia.
  - simpl. assert (e = BadQueueSize q MAX_QUEUE_SIZE) as ->.
    { unfold validate_qsize in Hq. case_if_in Hq; congruence. }
    split; by left.
Qed.

(** over a validated available ring, the iterator visits exactly
    [idx().wrapping_sub(last_seen)] heads, in the order the driver published
    them, each read from its slot modulo the queue size, and then stops: at most
    65535 items whatever the driver wrote in [idx]. *)
Theorem avail_iteration_spec (bs : bytes) (q last_seen : Z) (r : AvailRing.t) (fuel : nat)
  (Hnew : AvailRing.new bs q = Ok r) (Hlast : is_u16 last_seen)
  (Hfuel : 65536 <= Z.of_nat fuel) :
  AvailIter.run fuel (AvailIter.iter_new r last_seen)
  = (fun k => AvailRing.head r (wrap16 (last_seen + Z.of_nat k)))
      <$> seq 0 (Z.to_nat (wrap16 (AvailRing.idx r - last_seen))) /\
  Forall is_u16 (AvailIter.run fuel (AvailIter.iter_new r last_seen)).
Proof.
  apply AvailSpec.avail_new_wf in Hnew. pose proof (AvailSpec.avail_idx_u16 _ Hnew).
  pose proof (wrap16_range (AvailRing.idx r - last_seen)).
  unfold AvailIter.iter_new.
  rewrite (AvailSpec.run_spec r _ (Z.to_nat (wrap16 (AvailRing.idx r - last_seen))));
    [|done|done|unfold_uint; lia|ulia].
  split; [done|]. apply Forall_fmap, Forall_true. intros k. by apply AvailSpec.head_u16.
Qed.

Lemma avail_iteration_spec_witness :
  let bs := to_le 2 0 ++ to_le 2 1 ++ to_le 2 7 ++ to_le 2 9 ++ to_le 2 0 in
  AvailIter.run (Z.to_nat 65536) (AvailIter.iter_new (AvailRing.mk bs 2) 65535)
  = [9; 7].
Proof.
  intros bs.
  rewrite (proj1 (avail_iteration_spec bs 2 65535 (AvailRing.mk bs 2) (Z.to_nat 65536)
    ltac:(vm_compute; reflexivity) ltac:(unfold_uint; lia) ltac:(lia))).
  vm_compute. reflexivity.
Defined.

(** C29: reporting completions refines the driver's view of the used ring: after
    any sequence of at most [qsize] pushes on a validated ring, the [k]-th pushed
    element is what the driver reads at slot [idx + k] (mod 2^16), also when
    [idx] wraps, [idx] has advanced by the number of pushes, and [flags] and
    [avail_event] are untouched. *)
Theorem used_ring_refines_log (bs : bytes) (q : Z) (r : UsedRing.t) (es : list (Z * Z))
  (Hnew : UsedRing.new bs q = Ok r) (Hlen : zlen es <= q)
  (Hes : Forall (fun e => is_u32 e.1 /\ is_u32 e.2) es) :
  let r' := UsedSpec.push_all r es in
  (forall k e, es !! k = Some e ->
     UsedRing.elem r' (wrap16 (UsedRing.idx r + Z.of_nat k)) = e) /\
  UsedRing.idx r' = wrap16 (UsedRing.idx r + zlen es) /\
  UsedRing.flags r' = UsedRing.flags r /\
  UsedRing.avail_event r' = UsedRing.avail_event r.
Proof.
  intros r'. assert (UsedRing.qsize r = q) as Hq.
  { unfold UsedRing.new in Hnew. destruct (validate_qsize q) as [[]|]; [|done].
    simpl in Hnew. case_if_in Hnew; [done|]. by simplify_eq. }
  apply UsedSpec.used_new_wf in Hnew.
  destruct (UsedSpec.push_all_state r es Hnew) as (_ & _ & Hi & Hf & Ha).
  split; [|done]. intros k [h l] Hk. apply UsedSpec.push_all_elem; [done|lia|done..].
Qed.

Lemma used_ring_refines_log_witness :
  let bs := to_le 2 0 ++ to_le 2 65535 ++ replicate 18 Byte.x00 in
  UsedRing.idx (UsedSpec.push_all (UsedRing.mk bs 2) [(3, 10); (4, 20)]) = 1.
Proof.
  intros bs.
  rewrite (proj1 (proj2 (used_ring_refines_log bs 2 (UsedRing.mk bs 2) [(3, 10); (4, 20)]
    ltac:(vm_compute; reflexivity) ltac:(unfold zlen; simpl; lia)
    ltac:(repeat constructor; simpl; unfold_uint; lia)))).
  vm_compute. reflexivity.
Defined.

(** a descriptor is only ever copied out of guest memory when its length is
    at most 16 MiB, whatever 32-bit length the guest wrote, and then in full; and
    the device writes at most [len] bytes, only into device-writable
    descriptors. Proved for every guest memory that meets the interface. *)
Theorem descriptor_access_bounded {M : Type} `{!GuestMem QueueError M, !GuestMemLaws QueueError M}
  (d : Descriptor.t) (mem mem' : M) (data out : bytes) (n : Z) (Hd : Descriptor.wf d) :
  (Descriptor.read_from d mem = Ok out ->
     zlen out = Descriptor.len d /\ zlen out <= MAX_DESC_READ_BYTES) /\
  (Descriptor.write_to_guest d data mem = (Ok n, mem') ->
     Descriptor.is_writable d = true /\ n = Z.min (Descriptor.len d) (zlen data) /\
     mem_read mem' (Descriptor.addr d) (Z.to_nat n) = Ok (take (Z.to_nat n) data)).
Proof.
  destruct Hd as (_ & Hl & _). split.
  - unfold Descriptor.read_from. case_if; [done|].
    intros Hr. pose proof (mem_read_length _ _ _ _ Hr). unfold zlen. unfold_uint. lia.
  - unfold Descriptor.write_to_guest. case_if; [done|].
    destruct (mem_write _ _ _) as [[[]|] m1] eqn:Hw; intros; simplify_eq.
    split; [done|]. split; [done|].
    apply mem_read_write_same in Hw. rewrite length_take in Hw.
    rewrite Nat.min_l in Hw by (unfold zlen; lia). done.
Qed.

Lemma descriptor_access_bounded_witness :
  let m := SliceGuestMemory.mk 16 (replicate 8 Byte.x00) in
  let d := Descriptor.mk 18 3 2 0 in
  SliceGuestMemory.read (Descriptor.write_to_guest d [Byte.x01; Byte.x02] m).2 18 2
  = Ok [Byte.x01; Byte.x02].
Proof.
  intros m d.
  assert (Descriptor.write_to_guest d [Byte.x01; Byte.x02] m
    = (Ok 2, (Descriptor.write_to_guest d [Byte.x01; Byte.x02] m).2)) as Hw
    by (vm_compute; reflexivity).
  assert (Descriptor.wf d) as Hd by (unfold Descriptor.wf; simpl; unfold_uint; lia).
  exact (proj2 (proj2 (proj2 (descriptor_access_bounded d m _ _ [] 2 Hd) Hw))).
Defined.
