(* ===== verification/VsockProto.v ===== *)
(** * virtio-vsock: packet header and connection state machine

    Models [crates/virtio-vsock/src/lib.rs]: the 44-byte header codec with its
    operation and type codes, and [Connection], the per-stream state machine
    with its credit counters. *)

From S2P Require Import Prelude.

Definition VSOCK_HDR_LEN : Z := 44.
Definition HYPERVISOR_CID : Z := 0.

Inductive VsockError : Type :=
| ShortHeader (have need : Z)
| ShortBuffer (have need : Z)
| UnknownOp (raw : Z)
| UnknownType (raw : Z).

(** ** Type and operation codes *)

Inductive VsockType : Type := Stream.

Module VsockTypeCode.

Definition from_raw (raw : Z) : result VsockError VsockType :=
  if raw =? 1 then Ok Stream else Err (UnknownType raw).

(** [self.vtype as u16] *)
Definition as_raw (t : VsockType) : Z := match t with Stream => 1 end.

End VsockTypeCode.

Inductive VsockOp : Type :=
| Invalid | Request | Response | Rst | Shutdown | Rw | CreditUpdate | CreditRequest.

#[global] Instance VsockOp_eq_dec : EqDecision VsockOp.
Proof. solve_decision. Defined.

Module VsockOpCode.

Definition from_raw (raw : Z) : result VsockError VsockOp :=
  match raw with
  | 0 => Ok Invalid
  | 1 => Ok Request
  | 2 => Ok Response
  | 3 => Ok Rst
  | 4 => Ok Shutdown
  | 5 => Ok Rw
  | 6 => Ok CreditUpdate
  | 7 => Ok CreditRequest
  | other => Err (UnknownOp other)
  end.

Definition as_raw (op : VsockOp) : Z :=
  match op with
  | Invalid => 0 | Request => 1 | Response => 2 | Rst => 3
  | Shutdown => 4 | Rw => 5 | CreditUpdate => 6 | CreditRequest => 7
  end.

End VsockOpCode.

(** ** The header codec *)

Module VsockHeader.

Record t : Type := mk {
  src_cid : Z;
  dst_cid : Z;
  src_port : Z;
  dst_port : Z;
  len : Z;
  vtype : VsockType;
  op : VsockOp;
  flags : Z;
  buf_alloc : Z;
  fwd_cnt : Z;
}.

Definition wf (h : t) : Prop :=
  is_u64 (src_cid h) /\ is_u64 (dst_cid h) /\ is_u32 (src_port h) /\
  is_u32 (dst_port h) /\ is_u32 (len h) /\ is_u32 (flags h) /\
  is_u32 (buf_alloc h) /\ is_u32 (fwd_cnt h).

Definition from_bytes (buf : bytes) : result VsockError t :=
  if zlen buf <? VSOCK_HDR_LEN then Err (ShortHeader (zlen buf) VSOCK_HDR_LEN)
  else
    let src_cid := from_le (slice buf 0 8) in
    let dst_cid := from_le (slice buf 8 8) in
    let src_port := from_le (slice buf 16 4) in
    let dst_port := from_le (slice buf 20 4) in
    let len := from_le (slice buf 24 4) in
    let type_raw := from_le (slice buf 28 2) in
    let op_raw := from_le (slice buf 30 2) in
    let flags := from_le (slice buf 32 4) in
    let buf_alloc := from_le (slice buf 36 4) in
    let fwd_cnt := from_le (slice buf 40 4) in
    vtype ← VsockTypeCode.from_raw type_raw;
    op ← VsockOpCode.from_raw op_raw;
    Ok (mk src_cid dst_cid src_port dst_port len vtype op flags buf_alloc fwd_cnt).

(** The ten field writes shared by [write_to] and [to_bytes]. *)
Definition put (h : t) (buf : bytes) : bytes :=
  let buf := splice buf 0 (to_le 8 (src_cid h)) in
  let buf := splice buf 8 (to_le 8 (dst_cid h)) in
  let buf := splice buf 16 (to_le 4 (src_port h)) in
  let buf := splice buf 20 (to_le 4 (dst_port h)) in
  let buf := splice buf 24 (to_le 4 (len h)) in
  let buf := splice buf 28 (to_le 2 (VsockTypeCode.as_raw (vtype h))) in
  let buf := splice buf 30 (to_le 2 (VsockOpCode.as_raw (op h))) in
  let buf := splice buf 32 (to_le 4 (flags h)) in
  let buf := splice buf 36 (to_le 4 (buf_alloc h)) in
  splice buf 40 (to_le 4 (fwd_cnt h)).

Definition write_to (h : t) : SM bytes VsockError Z := fun buf =>
  if zlen buf <? VSOCK_HDR_LEN then (Err (ShortBuffer (zlen buf) VSOCK_HDR_LEN), buf)
  else (Ok VSOCK_HDR_LEN, put h buf).

Definition to_bytes (h : t) : bytes := put h (replicate 44 Byte.x00).

End VsockHeader.

(** ** Connections *)

Record Endpoint : Type := mk_endpoint { cid : Z; port : Z }.
Record ConnectionId : Type := mk_conn_id { local : Endpoint; remote : Endpoint }.

#[global] Instance Endpoint_eq_dec : EqDecision Endpoint.
Proof. solve_decision. Defined.
#[global] Instance ConnectionId_eq_dec : EqDecision ConnectionId.
Proof. solve_decision. Defined.
#[global] Instance Endpoint_countable : Countable Endpoint.
Proof.
  refine (inj_countable' (fun e => (cid e, port e)) (fun p => mk_endpoint p.1 p.2) _).
  by intros [].
Defined.
#[global] Instance ConnectionId_countable : Countable ConnectionId.
Proof.
  refine (inj_countable' (fun i => (local i, remote i)) (fun p => mk_conn_id p.1 p.2) _).
  by intros [].
Defined.

Inductive ConnectionState : Type :=
| Closed | Listen | SynSent | Established | FinWait | CloseWait.

#[global] Instance ConnectionState_eq_dec : EqDecision ConnectionState.
Proof. solve_decision. Defined.

Inductive ConnectionError : Type :=
| InvalidOp (op : VsockOp) (state : ConnectionState)
| InvalidStateTransition (state : ConnectionState)
| EndpointMismatch (expected got : ConnectionId)
| NotWritable (state : ConnectionState).

(** The connection id an incoming packet names: our side is its destination. *)
Definition incoming_id (hdr : VsockHeader.t) : ConnectionId :=
  {| local := mk_endpoint (VsockHeader.dst_cid hdr) (VsockHeader.dst_port hdr);
     remote := mk_endpoint (VsockHeader.src_cid hdr) (VsockHeader.src_port hdr) |}.

Module Connection.

Record t : Type := mk {
  id : ConnectionId;
  state : ConnectionState;
  local_buf_alloc : Z;
  fwd_cnt : Z;
  peer_buf_alloc : Z;
  peer_fwd_cnt : Z;
  tx_cnt : Z;
}.

Definition new (id : ConnectionId) (local_buf_alloc : Z) : t :=
  mk id Closed local_buf_alloc 0 0 0 0.

Definition set_state (c : t) (s : ConnectionState) : t :=
  mk (id c) s (local_buf_alloc c) (fwd_cnt c) (peer_buf_alloc c) (peer_fwd_cnt c) (tx_cnt c).

Definition set_peer_credit (c : t) (buf_alloc fwd : Z) : t :=
  mk (id c) (state c) (local_buf_alloc c) (fwd_cnt c) buf_alloc fwd (tx_cnt c).

Definition listen : SM t ConnectionError unit := fun c =>
  if decide (state c = Closed) then (Ok tt, set_state c Listen)
  else (Err (InvalidStateTransition (state c)), c).

Definition connect : SM t ConnectionError unit := fun c =>
  if decide (state c = Closed) then (Ok tt, set_state c SynSent)
  else (Err (InvalidStateTransition (state c)), c).

(** The [match (self.state, hdr.op)] of [recv_header], arm by arm. *)
Definition recv_transition (s : ConnectionState) (op : VsockOp)
  : result ConnectionError ConnectionState :=
  match s, op with
  | Listen, Request => Ok Established
  | SynSent, Response => Ok Established
  | Established, Rw => Ok Established
  | Established, CreditUpdate | Established, CreditRequest => Ok Established
  | CloseWait, CreditUpdate | CloseWait, CreditRequest => Ok CloseWait
  | FinWait, CreditUpdate | FinWait, CreditRequest => Ok FinWait
  | Established, Shutdown => Ok CloseWait
  | FinWait, Shutdown | FinWait, Rst => Ok Closed
  | CloseWait, Rst => Ok Closed
  | _, Rst => Ok Closed
  | state, op => Err (InvalidOp op state)
  end.

Definition recv_header (hdr : VsockHeader.t) : SM t ConnectionError unit := fun c =>
  let incoming := incoming_id hdr in
  if decide (incoming = id c) then
    let c := set_peer_credit c (VsockHeader.buf_alloc hdr) (VsockHeader.fwd_cnt hdr) in
    match recv_transition (state c) (VsockHeader.op hdr) with
    | Ok s => (Ok tt, set_state c s)
    | Err e => (Err e, c)
    end
  else (Err (EndpointMismatch (id c) incoming), c).

Definition record_send (n : Z) : SM t ConnectionError unit := fun c =>
  if decide (state c = Established) then
    (Ok tt, mk (id c) (state c) (local_buf_alloc c) (fwd_cnt c) (peer_buf_alloc c)
              (peer_fwd_cnt c) (wrap32 (tx_cnt c + n)))
  else (Err (NotWritable (state c)), c).

Definition record_recv (n : Z) (c : t) : t :=
  mk (id c) (state c) (local_buf_alloc c) (wrap32 (fwd_cnt c + n)) (peer_buf_alloc c)
    (peer_fwd_cnt c) (tx_cnt c).

Definition send_credit (c : t) : Z :=
  wrap32 (peer_buf_alloc c - wrap32 (tx_cnt c - peer_fwd_cnt c)).

Definition shutdown : SM t ConnectionError unit := fun c =>
  if decide (state c = Established) then (Ok tt, set_state c FinWait)
  else (Err (InvalidStateTransition (state c)), c).

Definition rst (c : t) : t := set_state c Closed.

End Connection.

(** ** Header lemmas *)

Lemma op_code_roundtrip op : VsockOpCode.from_raw (VsockOpCode.as_raw op) = Ok op.
Proof. by destruct op. Qed.

Lemma op_code_inv raw op :
  VsockOpCode.from_raw raw = Ok op -> raw = VsockOpCode.as_raw op.
Proof.
  unfold VsockOpCode.from_raw. destruct raw as [|p|p]; [by intros [= <-]| |done].
  do 3 (destruct p as [p|p|]; try (by intros [= <-]); try done).
Qed.

Lemma type_code_inv raw ty :
  VsockTypeCode.from_raw raw = Ok ty -> raw = VsockTypeCode.as_raw ty.
Proof. unfold VsockTypeCode.from_raw. case_if; [|done]. by intros [= <-]. Qed.

Section HeaderCodec.
Implicit Types (h : VsockHeader.t) (buf : bytes).

Definition hdr_fields h : bytes :=
  to_le 8 (VsockHeader.src_cid h) ++ to_le 8 (VsockHeader.dst_cid h) ++
  to_le 4 (VsockHeader.src_port h) ++ to_le 4 (VsockHeader.dst_port h) ++
  to_le 4 (VsockHeader.len h) ++ to_le 2 (VsockTypeCode.as_raw (VsockHeader.vtype h)) ++
  to_le 2 (VsockOpCode.as_raw (VsockHeader.op h)) ++ to_le 4 (VsockHeader.flags h) ++
  to_le 4 (VsockHeader.buf_alloc h) ++ to_le 4 (VsockHeader.fwd_cnt h).

Lemma hdr_put h buf : VsockHeader.put h buf = hdr_fields h ++ drop 44 buf.
Proof. unfold VsockHeader.put, hdr_fields. by write_fields. Qed.

Lemma hdr_to_bytes h : VsockHeader.to_bytes h = hdr_fields h.
Proof.
  unfold VsockHeader.to_bytes. rewrite hdr_put, drop_ge by len. apply app_nil_r.
Qed.

Lemma hdr_fields_length h : length (hdr_fields h) = 44%nat.
Proof. unfold hdr_fields. len. Qed.

Lemma hdr_decode_encode h rest :
  VsockHeader.wf h -> VsockHeader.from_bytes (hdr_fields h ++ rest) = Ok h.
Proof.
  intros (? & ? & ? & ? & ? & ? & ? & ?).
  unfold VsockHeader.from_bytes, VSOCK_HDR_LEN, zlen.
  rewrite length_app, hdr_fields_length. case_if; [lia|].
  unfold hdr_fields. fields.
  rewrite !from_to_le64, !from_to_le32 by done.
  rewrite (from_to_le16 (VsockTypeCode.as_raw _))
    by (destruct (VsockHeader.vtype h); unfold_uint; simpl; lia).
  rewrite (from_to_le16 (VsockOpCode.as_raw _))
    by (destruct (VsockHeader.op h); unfold_uint; simpl; lia).
  rewrite op_code_roundtrip. destruct h as [? ? ? ? ? []]. done.
Qed.

Lemma hdr_encode_decode h buf :
  VsockHeader.from_bytes buf = Ok h -> VsockHeader.wf h /\ hdr_fields h = slice buf 0 44.
Proof.
  unfold VsockHeader.from_bytes, VSOCK_HDR_LEN, zlen. case_if; [done|].
  destruct (VsockTypeCode.from_raw _) as [ty|] eqn:Ht; [|done].
  destruct (VsockOpCode.from_raw _) as [op|] eqn:Ho; [|done].
  intros [= <-]. apply type_code_inv in Ht. apply op_code_inv in Ho. split.
  - repeat split; simpl; first [apply from_le_u64 | apply from_le_u32]; lia.
  - unfold hdr_fields. cbn [VsockHeader.src_cid VsockHeader.dst_cid VsockHeader.src_port
      VsockHeader.dst_port VsockHeader.len VsockHeader.vtype VsockHeader.op
      VsockHeader.flags VsockHeader.buf_alloc VsockHeader.fwd_cnt].
    rewrite <- Ht, <- Ho, !to_le_slice by lia. by cat_slices.
Qed.
End HeaderCodec.

(** ** The connection as a transition system

    One constructor per public method of [Connection]; [run] is any sequence of
    calls on one connection, keeping what each call answered. *)

Inductive ConnOp : Type :=
| OpListen | OpConnect | OpRecv (hdr : VsockHeader.t)
| OpSend (n : Z) | OpConsume (n : Z) | OpShutdown | OpRst.

Definition exec (o : ConnOp) : SM Connection.t ConnectionError unit :=
  match o with
  | OpListen => Connection.listen
  | OpConnect => Connection.connect
  | OpRecv hdr => Connection.recv_header hdr
  | OpSend n => Connection.record_send n
  | OpConsume n => sm_modify (Connection.record_recv n)
  | OpShutdown => Connection.shutdown
  | OpRst => sm_modify Connection.rst
  end.

Fixpoint run (ops : list ConnOp) (c : Connection.t)
  : list (ConnOp * result ConnectionError unit) * Connection.t :=
  match ops with
  | [] => ([], c)
  | o :: ops =>
      let (r, c) := exec o c in
      let (log, c) := run ops c in ((o, r) :: log, c)
  end.

(** The documented diagram, as edges labelled with the call that takes them. *)
Inductive edge (me : ConnectionId) : ConnectionState -> ConnOp -> ConnectionState -> Prop :=
| edge_listen : edge me Closed OpListen Listen
| edge_connect : edge me Closed OpConnect SynSent
| edge_accept h : incoming_id h = me -> VsockHeader.op h = Request ->
    edge me Listen (OpRecv h) Established
| edge_accepted h : incoming_id h = me -> VsockHeader.op h = Response ->
    edge me SynSent (OpRecv h) Established
| edge_data h : incoming_id h = me -> VsockHeader.op h = Rw ->
    edge me Established (OpRecv h) Established
| edge_credit h s : incoming_id h = me ->
    VsockHeader.op h = CreditUpdate \/ VsockHeader.op h = CreditRequest ->
    s = Established \/ s = CloseWait \/ s = FinWait -> edge me s (OpRecv h) s
| edge_peer_shutdown h : incoming_id h = me -> VsockHeader.op h = Shutdown ->
    edge me Established (OpRecv h) CloseWait
| edge_peer_close h : incoming_id h = me -> VsockHeader.op h = Shutdown ->
    edge me FinWait (OpRecv h) Closed
| edge_peer_rst h s : incoming_id h = me -> VsockHeader.op h = Rst ->
    edge me s (OpRecv h) Closed
| edge_send n : edge me Established (OpSend n) Established
| edge_consume n s : edge me s (OpConsume n) s
| edge_shutdown : edge me Established OpShutdown FinWait
| edge_rst s : edge me s OpRst Closed.

#[local] Hint Constructors edge : core.

Ltac conn_cases :=
  repeat match goal with
  | H : context [if decide ?P then _ else _] |- _ => destruct (decide P)
  | |- context [if decide ?P then _ else _] => destruct (decide P)
  end.

Section ConnectionSystem.
Implicit Types (c : Connection.t) (o : ConnOp) (s : ConnectionState).

Lemma recv_transition_edge me h s s' :
  incoming_id h = me ->
  Connection.recv_transition s (VsockHeader.op h) = Ok s' <-> edge me s (OpRecv h) s'.
Proof.
  intros Hid. split.
  - destruct s, (VsockHeader.op h) eqn:?; simpl; intros [= <-]; auto 6.
  - inversion 1; subst; simpl;
      repeat match goal with
      | H : _ \/ _ |- _ => destruct H
      | H : VsockHeader.op h = _ |- _ => rewrite H
      end; subst; try done; by destruct s.
Qed.

(** What every call leaves alone, whatever it answers. *)
Lemma exec_fixed o c :
  Connection.id (exec o c).2 = Connection.id c /\
  Connection.local_buf_alloc (exec o c).2 = Connection.local_buf_alloc c.
Proof.
  destruct o; simpl; unfold Connection.listen, Connection.connect, Connection.recv_header,
    Connection.record_send, Connection.shutdown; conn_cases; try done.
  by destruct (Connection.recv_transition _ _).
Qed.

Lemma exec_edge o c :
  (exec o c).1 = Ok tt -> edge (Connection.id c) (Connection.state c) o (Connection.state (exec o c).2).
Proof.
  destruct o as [| |h| | | |]; simpl; unfold Connection.listen, Connection.connect,
    Connection.recv_header, Connection.record_send, Connection.shutdown; conn_cases;
    try done; intros Hok; simpl; repeat match goal with
    | H : Connection.state _ = _ |- _ => rewrite H end; auto.
  destruct (Connection.recv_transition _ _) eqn:Ht; [|done].
  by apply (recv_transition_edge _ h).
Qed.

Lemma edge_exec o c s' :
  edge (Connection.id c) (Connection.state c) o s' ->
  (exec o c).1 = Ok tt /\ Connection.state (exec o c).2 = s'.
Proof.
  intros He. destruct o as [| |h| | | |].
  3: { assert (Hid : incoming_id h = Connection.id c) by by inversion He.
       apply (recv_transition_edge _ h _ _ Hid) in He. simpl.
       unfold Connection.recv_header. rewrite decide_True by done. simpl. by rewrite He. }
  all: inversion He; subst; simpl; unfold Connection.listen, Connection.connect,
    Connection.record_send, Connection.shutdown; conn_cases; simpl; split; congruence.
Qed.

(** A refused call keeps the state and the counters; only a packet that
    belongs to the connection may still refresh the peer's credit. *)
Lemma exec_refused o c e :
  (exec o c).1 = Err e ->
  (exec o c).2 = c \/
  exists h, o = OpRecv h /\ incoming_id h = Connection.id c /\
    e = InvalidOp (VsockHeader.op h) (Connection.state c) /\
    (exec o c).2 = Connection.set_peer_credit c (VsockHeader.buf_alloc h) (VsockHeader.fwd_cnt h).
Proof.
  destruct o as [| |h| | | |]; simpl; unfold Connection.listen, Connection.connect,
    Connection.recv_header, Connection.record_send, Connection.shutdown;
    conn_cases; try done; eauto.
  destruct (Connection.recv_transition _ _) eqn:Ht; [done|]. intros [= <-].
  right. exists h. repeat split; [done|].
  revert Ht. simpl. by destruct (Connection.state c), (VsockHeader.op h); intros [= <-].
Qed.

(** Bytes of the successful sends, and of the consumes, of a log. *)
Definition sent (log : list (ConnOp * result ConnectionError unit)) : Z :=
  zsum ((fun x => match x with (OpSend n, Ok _) => n | _ => 0 end) <$> log).
Definition consumed (log : list (ConnOp * result ConnectionError unit)) : Z :=
  zsum ((fun x => match x with (OpConsume n, _) => n | _ => 0 end) <$> log).
End ConnectionSystem.

Section ConnectionRuns.
Implicit Types (c : Connection.t) (o : ConnOp) (ops : list ConnOp).

Lemma run_app ops ops' c :
  (run (ops ++ ops') c).2 = (run ops' (run ops c).2).2.
Proof.
  revert c. induction ops as [|o ops IH]; intros c; [done|]. simpl.
  destruct (exec o c) as [r c1]. specialize (IH c1).
  destruct (run ops c1), (run (ops ++ ops') c1). simpl in *. done.
Qed.

Lemma run_snoc ops o c : (run (ops ++ [o]) c).2 = (exec o (run ops c).2).2.
Proof. rewrite run_app. simpl. by destruct (exec o _). Qed.

Lemma run_fixed ops c :
  Connection.id (run ops c).2 = Connection.id c /\
  Connection.local_buf_alloc (run ops c).2 = Connection.local_buf_alloc c.
Proof.
  induction ops as [|o ops IH] using rev_ind; [done|].
  rewrite run_snoc. destruct (exec_fixed o (run ops c).2) as [-> ->]. done.
Qed.

Lemma sent_cons x log : sent (x :: log) = sent [x] + sent log.
Proof. unfold sent, zsum. cbn [fmap list_fmap foldr]. lia. Qed.
Lemma consumed_cons x log : consumed (x :: log) = consumed [x] + consumed log.
Proof. unfold consumed, zsum. cbn [fmap list_fmap foldr]. lia. Qed.

Lemma exec_counters o c :
  let r := exec o c in
  Connection.tx_cnt r.2 = wrap32 (Connection.tx_cnt c + sent [(o, r.1)]) \/
    (sent [(o, r.1)] = 0 /\ Connection.tx_cnt r.2 = Connection.tx_cnt c).
Proof.
  simpl. destruct o; simpl; unfold Connection.listen, Connection.connect,
    Connection.recv_header, Connection.record_send, Connection.shutdown;
    conn_cases; simpl; try (by right).
  - destruct (Connection.recv_transition _ _); by right.
  - left. unfold sent, zsum. simpl. f_equal. lia.
Qed.

Lemma exec_consumed o c :
  let r := exec o c in
  Connection.fwd_cnt r.2 = wrap32 (Connection.fwd_cnt c + consumed [(o, r.1)]) \/
    (consumed [(o, r.1)] = 0 /\ Connection.fwd_cnt r.2 = Connection.fwd_cnt c).
Proof.
  simpl. destruct o; simpl; unfold Connection.listen, Connection.connect,
    Connection.recv_header, Connection.record_send, Connection.shutdown;
    conn_cases; simpl; try (by right).
  - destruct (Connection.recv_transition _ _); by right.
  - left. unfold consumed, zsum. simpl. f_equal. lia.
Qed.

Lemma run_counters ops c :
  is_u32 (Connection.tx_cnt c) -> is_u32 (Connection.fwd_cnt c) ->
  Connection.tx_cnt (run ops c).2 = wrap32 (Connection.tx_cnt c + sent (run ops c).1) /\
  Connection.fwd_cnt (run ops c).2 = wrap32 (Connection.fwd_cnt c + consumed (run ops c).1).
Proof.
  revert c. induction ops as [|o ops IH]; intros c Ht Hf.
  { unfold sent, consumed, zsum. simpl. rewrite !Z.add_0_r, !wrap32_small by done. done. }
  simpl. pose proof (exec_counters o c) as Htx. pose proof (exec_consumed o c) as Hfw.
  destruct (exec o c) as [r c1]. simpl in Htx, Hfw.
  assert (Hu : is_u32 (Connection.tx_cnt c1) /\ is_u32 (Connection.fwd_cnt c1)).
  { destruct Htx as [->|[_ ->]], Hfw as [->|[_ ->]]; auto using wrap32_range. }
  destruct Hu as [Ht1 Hf1].
  destruct (IH c1 Ht1 Hf1) as [IHt IHf]. destruct (run ops c1) as [log c2]. simpl in *.
  rewrite IHt, IHf, (sent_cons _ log), (consumed_cons _ log).
  split; [destruct Htx as [->|[-> ->]]|destruct Hfw as [->|[-> ->]]];
    rewrite ?wrap32_add_l; f_equal; lia.
Qed.
(** An [Established] connection got there by a handshake packet and stayed. *)
Lemma run_established me alloc ops :
  let c0 := Connection.new me alloc in
  Connection.state (run ops c0).2 = Established ->
  exists pre h post, ops = pre ++ OpRecv h :: post /\ incoming_id h = me /\
    (Connection.state (run pre c0).2 = Listen /\ VsockHeader.op h = Request \/
     Connection.state (run pre c0).2 = SynSent /\ VsockHeader.op h = Response) /\
    forall mid, mid `prefix_of` post ->
      Connection.state (run (pre ++ OpRecv h :: mid) c0).2 = Established.
Proof.
  intros c0. induction ops as [|o ops IH] using rev_ind; [done|].
  intros Hs. pose proof Hs as Hs'. rewrite run_snoc in Hs'.
  set (c := (run ops c0).2) in *.
  destruct (decide (Connection.state c = Established)) as [He|Hne].
  - destruct (IH He) as (pre & h & post & -> & Hid & Hhs & Hmid).
    exists pre, h, (post ++ [o]). split_and!; [by rewrite <- app_assoc|done..|].
    intros mid [->|Hp]%prefix_snoc_inv; [|by apply Hmid].
    by rewrite <- app_assoc in Hs.
  - assert (Hok : (exec o c).1 = Ok tt).
    { destruct (exec o c).1 as [[]|e] eqn:Hr; [done|].
      destruct (exec_refused _ _ _ Hr) as [Hx|(h & _ & _ & _ & Hx)];
        rewrite Hx in Hs'; done. }
    apply exec_edge in Hok. rewrite Hs' in Hok.
    assert (Hcid : Connection.id c = me) by apply (run_fixed ops c0).
    destruct o as [| |h| | | |]; try (by inversion Hok; congruence).
    exists ops, h, []. split_and!; [done|by inversion Hok; congruence| |].
    + inversion Hok; try congruence; auto.
    + by intros mid ->%prefix_nil_inv.
Qed.
End ConnectionRuns.

(** ** Properties *)

(** The 44-byte header codec is lossless both ways. Every well-formed
    header survives [to_bytes] and [from_bytes], also when payload follows it;
    [write_to] puts the same bytes at the front of any large enough buffer and
    nothing else; and every accepted buffer re-encodes to its first 44 bytes. *)
Theorem vsock_header_codec h rest buf :
  VsockHeader.wf h -> VSOCK_HDR_LEN <= zlen buf ->
  VsockHeader.from_bytes (VsockHeader.to_bytes h ++ rest) = Ok h /\
  VsockHeader.write_to h buf = (Ok VSOCK_HDR_LEN, VsockHeader.to_bytes h ++ drop 44 buf) /\
  (forall h', VsockHeader.from_bytes buf = Ok h' ->
     VsockHeader.wf h' /\ VsockHeader.to_bytes h' = slice buf 0 44).
Proof.
  intros Hwf Hlen. rewrite hdr_to_bytes. split_and!.
  - by apply hdr_decode_encode.
  - unfold VsockHeader.write_to. case_if; [lia|]. by rewrite hdr_put.
  - intros h' Hh. rewrite hdr_to_bytes. by apply hdr_encode_decode.
Qed.

Lemma vsock_header_codec_witness :
  let h := VsockHeader.mk 3 2 1024 52 128 Stream Rw 0 65536 7 in
  VsockHeader.from_bytes (VsockHeader.to_bytes h ++ [Byte.x61]) = Ok h.
Proof.
  apply (vsock_header_codec _ _ (replicate 44 Byte.x00)).
  - repeat split; vm_compute; done.
  - vm_compute. done.
Defined.

(** [Connection] implements its documented state diagram exactly: a call
    succeeds if and only if the diagram has an edge for it from the current
    state, and then the connection is in the state the edge leads to; a refused
    call changes nothing, except that a packet of this connection refused for
    its operation has already refreshed the peer's credit. *)
Theorem connection_follows_diagram c o :
  (forall s', edge (Connection.id c) (Connection.state c) o s' <->
     (exec o c).1 = Ok tt /\ Connection.state (exec o c).2 = s') /\
  (forall e, (exec o c).1 = Err e ->
     (exec o c).2 = c \/
     exists h, o = OpRecv h /\ incoming_id h = Connection.id c /\
       e = InvalidOp (VsockHeader.op h) (Connection.state c) /\
       (exec o c).2 =
         Connection.set_peer_credit c (VsockHeader.buf_alloc h) (VsockHeader.fwd_cnt h)).
Proof.
  split.
  - intros s'. split; [apply edge_exec|]. intros [Hok <-]. by apply exec_edge.
  - apply exec_refused.
Qed.

(** Whatever sequence of calls a connection goes through, its identity and
    advertised buffer never change, [tx_cnt] is the number of bytes of the
    sends that were accepted and [fwd_cnt] the number of bytes consumed, both
    modulo 2^32; and it is [Established] only if the calls contain a matching
    handshake packet, taken in [Listen] (a [Request]) or [SynSent] (a
    [Response]), after which it never left [Established]. *)
Theorem connection_run_invariant me alloc ops :
  let c0 := Connection.new me alloc in
  let (log, c) := run ops c0 in
  Connection.id c = me /\ Connection.local_buf_alloc c = alloc /\
  Connection.tx_cnt c = wrap32 (sent log) /\
  Connection.fwd_cnt c = wrap32 (consumed log) /\
  (Connection.state c = Established ->
   exists pre h post, ops = pre ++ OpRecv h :: post /\ incoming_id h = me /\
     (Connection.state (run pre c0).2 = Listen /\ VsockHeader.op h = Request \/
      Connection.state (run pre c0).2 = SynSent /\ VsockHeader.op h = Response) /\
     forall mid, mid `prefix_of` post ->
       Connection.state (run (pre ++ OpRecv h :: mid) c0).2 = Established).
Proof.
  intros c0. destruct (run ops c0) as [log c] eqn:Hrun.
  assert (Hc : c = (run ops c0).2) by by rewrite Hrun.
  assert (Hl : log = (run ops c0).1) by by rewrite Hrun.
  destruct (run_fixed ops c0) as [Hid Hb].
  destruct (run_counters ops c0) as [Ht Hf]; [simpl; by vm_compute..|].
  rewrite Hc, Hl. split_and!; [done..|]. subst c log. clear Hrun Ht Hf Hb Hid.
  apply run_established.
Qed.

(** The send credit of a connection that went through any sequence of
    calls is exact although its counters wrap: when the bytes in flight (sent
    since the connection opened, less those the peer reported as forwarded) fit
    the peer's buffer, [send_credit] is the room left in it. When they exceed
    it, which [record_send] does not prevent, the subtraction wraps and the
    reported credit is close to 2^32 instead of 0. *)
Theorem send_credit_spec me alloc ops forwarded :
  let (log, c) := run ops (Connection.new me alloc) in
  let in_flight := sent log - forwarded in
  is_u32 (Connection.peer_buf_alloc c) ->
  Connection.peer_fwd_cnt c = wrap32 forwarded ->
  is_u32 in_flight ->
  (in_flight <= Connection.peer_buf_alloc c ->
   Connection.send_credit c = Connection.peer_buf_alloc c - in_flight) /\
  (Connection.peer_buf_alloc c < in_flight ->
   Connection.send_credit c = 2 ^ 32 - (in_flight - Connection.peer_buf_alloc c)).
Proof.
  destruct (run_counters ops (Connection.new me alloc)) as [Ht _]; [by vm_compute..|].
  destruct (run ops _) as [log c]. simpl in Ht. intros inf Hb Hf Hi.
  unfold Connection.send_credit. rewrite Ht, Hf. subst inf. ulia.
Qed.

(** A connection that accepts a peer with a 100-byte buffer and sends 40 bytes
    has 60 left; after 140 bytes the credit reads 4294967256. *)
Lemma send_credit_spec_witness :
  let me := mk_conn_id (mk_endpoint 2 52) (mk_endpoint 3 1024) in
  let req := VsockHeader.mk 3 2 1024 52 0 Stream Request 0 100 0 in
  let go n := (run [OpListen; OpRecv req; OpSend n] (Connection.new me 65536)).2 in
  Connection.send_credit (go 40) = 60 /\ Connection.send_credit (go 140) = 4294967256.
Proof.
  intros me req go. split.
  - apply (send_credit_spec me 65536 [OpListen; OpRecv req; OpSend 40] 0); vm_compute; done.
  - apply (send_credit_spec me 65536 [OpListen; OpRecv req; OpSend 140] 0); vm_compute; done.
Defined.
