(* ===== verification/VsockTable.v ===== *)
(** * virtio-vsock: the host-side connection table

    Models [crates/virtio-vsock/src/conn_table.rs]: the listening ports, the
    connection map and [dispatch], which turns every incoming header into a
    table update and a [Reply]. The [HashMap] is a [gmap], the [HashSet] a
    [gset]; the unspecified iteration order that [first_established] depends on
    is an argument. *)

From S2P Require Import Prelude VsockProto.

Inductive Reply : Type :=
| Send (hdr : VsockHeader.t)
| DeliverPayload (conn_id : ConnectionId) (n : Z)
| NoReply.

Record TableConfig : Type := mk_table_config {
  local_cid : Z;
  default_buf_alloc : Z;
}.

Definition TableConfig_default : TableConfig :=
  {| local_cid := HYPERVISOR_CID; default_buf_alloc := 64 * 1024 |}.

Definition rst_static (_local_cid : Z) (conn_id : ConnectionId) (flags : Z) : VsockHeader.t :=
  {| VsockHeader.src_cid := cid (local conn_id);
     VsockHeader.dst_cid := cid (remote conn_id);
     VsockHeader.src_port := port (local conn_id);
     VsockHeader.dst_port := port (remote conn_id);
     VsockHeader.len := 0;
     VsockHeader.vtype := Stream;
     VsockHeader.op := Rst;
     VsockHeader.flags := flags;
     VsockHeader.buf_alloc := 0;
     VsockHeader.fwd_cnt := 0 |}.

Module ConnectionTable.

Record t : Type := mk {
  cfg : TableConfig;
  listening : gset Z;
  connections : gmap ConnectionId Connection.t;
}.

Definition set_connections (tb : t) (m : gmap ConnectionId Connection.t) : t :=
  mk (cfg tb) (listening tb) m.

Definition new (cfg : TableConfig) : t := mk cfg ∅ ∅.

Definition is_listening (tb : t) (port : Z) : bool := bool_decide (port ∈ listening tb).

Definition len (tb : t) : nat := size (connections tb).

Definition is_empty (tb : t) : bool := bool_decide (connections tb = ∅).

Definition get (tb : t) (id : ConnectionId) : option Connection.t := connections tb !! id.

(** [order] is the order in which the [HashMap] iterates. *)
Definition first_established (order : list (ConnectionId * Connection.t))
  : option ConnectionId :=
  fst <$> list_find_val (fun x => bool_decide (Connection.state x.2 = Established)) order.

Definition listen (local_port : Z) (tb : t) : bool * t :=
  (bool_decide (local_port ∉ listening tb),
   mk (cfg tb) ({[local_port]} ∪ listening tb) (connections tb)).

Definition unlisten (local_port : Z) (tb : t) : bool * t :=
  (bool_decide (local_port ∈ listening tb),
   mk (cfg tb) (listening tb ∖ {[local_port]}) (connections tb)).

Definition drop_connection (id : ConnectionId) (tb : t) : bool * t :=
  (bool_decide (is_Some (connections tb !! id)),
   set_connections tb (delete id (connections tb))).

Definition reply_header (tb : t) (conn_id : ConnectionId) (op : VsockOp) : VsockHeader.t :=
  let (buf_alloc, fwd_cnt) :=
    match connections tb !! conn_id with
    | Some c => (Connection.local_buf_alloc c, Connection.fwd_cnt c)
    | None => (default_buf_alloc (cfg tb), 0)
    end in
  {| VsockHeader.src_cid := cid (local conn_id);
     VsockHeader.dst_cid := cid (remote conn_id);
     VsockHeader.src_port := port (local conn_id);
     VsockHeader.dst_port := port (remote conn_id);
     VsockHeader.len := 0;
     VsockHeader.vtype := Stream;
     VsockHeader.op := op;
     VsockHeader.flags := 0;
     VsockHeader.buf_alloc := buf_alloc;
     VsockHeader.fwd_cnt := fwd_cnt |}.

Definition rst_for (tb : t) (conn_id : ConnectionId) (src_hdr : VsockHeader.t)
  : VsockHeader.t :=
  rst_static (local_cid (cfg tb)) conn_id (VsockHeader.flags src_hdr).

Definition handle_request (conn_id : ConnectionId) (hdr : VsockHeader.t) (tb : t) : Reply * t :=
  if negb (is_listening tb (VsockHeader.dst_port hdr)) then
    (Send (rst_for tb conn_id hdr), tb)
  else if bool_decide (is_Some (connections tb !! conn_id)) then
    (Send (rst_for tb conn_id hdr), tb)
  else
    let conn := Connection.new conn_id (default_buf_alloc (cfg tb)) in
    let (r, conn) := Connection.listen conn in
    if negb (is_ok r) then (Send (rst_for tb conn_id hdr), tb)
    else
      let (r, conn) := Connection.recv_header hdr conn in
      if negb (is_ok r) then (Send (rst_for tb conn_id hdr), tb)
      else
        let tb := set_connections tb (<[conn_id := conn]> (connections tb)) in
        (Send (reply_header tb conn_id Response), tb).

Definition handle_data (conn_id : ConnectionId) (hdr : VsockHeader.t) (tb : t) : Reply * t :=
  match connections tb !! conn_id with
  | None => (Send (rst_for tb conn_id hdr), tb)
  | Some conn =>
      if negb (bool_decide (Connection.state conn = Established)) then
        (Send (rst_for tb conn_id hdr), tb)
      else
        let (r, conn) := Connection.recv_header hdr conn in
        let tb := set_connections tb (<[conn_id := conn]> (connections tb)) in
        if negb (is_ok r) then
          (Send (rst_static (local_cid (cfg tb)) conn_id (VsockHeader.flags hdr)),
           set_connections tb (delete conn_id (connections tb)))
        else if VsockHeader.len hdr =? 0 then (NoReply, tb)
        else (DeliverPayload conn_id (VsockHeader.len hdr), tb)
  end.

Definition handle_rst (conn_id : ConnectionId) (hdr : VsockHeader.t) (tb : t) : Reply * t :=
  match connections tb !! conn_id with
  | None => (NoReply, tb)
  | Some conn =>
      let (_, conn) := Connection.recv_header hdr conn in
      let tb := set_connections tb (<[conn_id := conn]> (connections tb)) in
      (NoReply, set_connections tb (delete conn_id (connections tb)))
  end.

(** The shape shared by [handle_shutdown] and [handle_response]: drive the
    connection, evict it and answer [Rst] when it refuses. *)
Definition drive_or_evict (conn_id : ConnectionId) (hdr : VsockHeader.t) (tb : t) : Reply * t :=
  match connections tb !! conn_id with
  | None => (Send (rst_for tb conn_id hdr), tb)
  | Some conn =>
      let (r, conn) := Connection.recv_header hdr conn in
      let tb := set_connections tb (<[conn_id := conn]> (connections tb)) in
      if negb (is_ok r) then
        (Send (rst_static (local_cid (cfg tb)) conn_id (VsockHeader.flags hdr)),
         set_connections tb (delete conn_id (connections tb)))
      else (NoReply, tb)
  end.

Definition handle_shutdown := drive_or_evict.
Definition handle_response := drive_or_evict.

Definition handle_credit (conn_id : ConnectionId) (hdr : VsockHeader.t) (tb : t) : Reply * t :=
  match connections tb !! conn_id with
  | None => (Send (rst_for tb conn_id hdr), tb)
  | Some conn =>
      let (_, conn) := Connection.recv_header hdr conn in
      (NoReply, set_connections tb (<[conn_id := conn]> (connections tb)))
  end.

Definition dispatch (hdr : VsockHeader.t) (tb : t) : Reply * t :=
  let conn_id := incoming_id hdr in
  match VsockHeader.op hdr with
  | Request => handle_request conn_id hdr tb
  | Rw => handle_data conn_id hdr tb
  | Rst => handle_rst conn_id hdr tb
  | Shutdown => handle_shutdown conn_id hdr tb
  | Response => handle_response conn_id hdr tb
  | CreditUpdate | CreditRequest => handle_credit conn_id hdr tb
  | Invalid => (Send (rst_for tb conn_id hdr), tb)
  end.

Definition prepare_data (id : ConnectionId) (len : Z) (tb : t) : option VsockHeader.t * t :=
  match connections tb !! id with
  | None => (None, tb)
  | Some conn =>
      let (r, conn) := Connection.record_send len conn in
      let tb := set_connections tb (<[id := conn]> (connections tb)) in
      if negb (is_ok r) then (None, tb)
      else
        (Some {| VsockHeader.src_cid := cid (local id);
                 VsockHeader.dst_cid := cid (remote id);
                 VsockHeader.src_port := port (local id);
                 VsockHeader.dst_port := port (remote id);
                 VsockHeader.len := len;
                 VsockHeader.vtype := Stream;
                 VsockHeader.op := Rw;
                 VsockHeader.flags := 0;
                 VsockHeader.buf_alloc := Connection.local_buf_alloc conn;
                 VsockHeader.fwd_cnt := Connection.fwd_cnt conn |}, tb)
  end.

End ConnectionTable.

(** ** What the table promises

    The abstract table keeps, per connection, only whether the peer can still
    send; an incoming packet has one of four outcomes. *)

Inductive phase : Type := Open | PeerClosed.

Inductive outcome : Type := Accept | Reset | Deliver (n : Z) | Quiet.

Definition spec_dispatch (listening : gset Z) (hdr : VsockHeader.t)
    (m : gmap ConnectionId phase) : outcome * gmap ConnectionId phase :=
  let id := incoming_id hdr in
  match VsockHeader.op hdr, m !! id with
  | Request, None =>
      if bool_decide (VsockHeader.dst_port hdr ∈ listening)
      then (Accept, <[id := Open]> m) else (Reset, m)
  | Rw, Some Open =>
      (if VsockHeader.len hdr =? 0 then Quiet else Deliver (VsockHeader.len hdr), m)
  | Rst, _ => (Quiet, delete id m)
  | Shutdown, Some Open => (Quiet, <[id := PeerClosed]> m)
  | Shutdown, Some PeerClosed => (Reset, delete id m)
  | Response, Some _ => (Reset, delete id m)
  | CreditUpdate, Some _ | CreditRequest, Some _ => (Quiet, m)
  | _, _ => (Reset, m)
  end.

(** The reply that carries an outcome back to the sender of [hdr]: control
    packets go from the packet's destination to its source. *)
Definition control_reply (op : VsockOp) (hdr : VsockHeader.t) (flags buf_alloc : Z)
  : VsockHeader.t :=
  {| VsockHeader.src_cid := VsockHeader.dst_cid hdr;
     VsockHeader.dst_cid := VsockHeader.src_cid hdr;
     VsockHeader.src_port := VsockHeader.dst_port hdr;
     VsockHeader.dst_port := VsockHeader.src_port hdr;
     VsockHeader.len := 0; VsockHeader.vtype := Stream; VsockHeader.op := op;
     VsockHeader.flags := flags; VsockHeader.buf_alloc := buf_alloc;
     VsockHeader.fwd_cnt := 0 |}.

Definition outcome_reply (buf_alloc : Z) (hdr : VsockHeader.t) (o : outcome) : Reply :=
  match o with
  | Accept => Send (control_reply Response hdr 0 buf_alloc)
  | Reset => Send (control_reply Rst hdr (VsockHeader.flags hdr) 0)
  | Deliver n => DeliverPayload (incoming_id hdr) n
  | Quiet => NoReply
  end.

(** The data packet a connection sends. No consumed bytes are ever reported. *)
Definition data_header (id : ConnectionId) (n buf_alloc : Z) : VsockHeader.t :=
  {| VsockHeader.src_cid := cid (local id); VsockHeader.dst_cid := cid (remote id);
     VsockHeader.src_port := port (local id); VsockHeader.dst_port := port (remote id);
     VsockHeader.len := n; VsockHeader.vtype := Stream; VsockHeader.op := Rw;
     VsockHeader.flags := 0; VsockHeader.buf_alloc := buf_alloc;
     VsockHeader.fwd_cnt := 0 |}.

(** The calls that change the table, and what they answer. *)
Inductive TableOp : Type :=
| TListen (p : Z) | TUnlisten (p : Z) | TDrop (id : ConnectionId)
| TDispatch (hdr : VsockHeader.t) | TPrepare (id : ConnectionId) (n : Z).

Inductive TableOut : Type :=
| OBool (b : bool) | OReply (r : Reply) | OHeader (h : option VsockHeader.t).

Definition table_exec (o : TableOp) (tb : ConnectionTable.t) : TableOut * ConnectionTable.t :=
  match o with
  | TListen p => let (b, tb) := ConnectionTable.listen p tb in (OBool b, tb)
  | TUnlisten p => let (b, tb) := ConnectionTable.unlisten p tb in (OBool b, tb)
  | TDrop id => let (b, tb) := ConnectionTable.drop_connection id tb in (OBool b, tb)
  | TDispatch hdr => let (r, tb) := ConnectionTable.dispatch hdr tb in (OReply r, tb)
  | TPrepare id n => let (h, tb) := ConnectionTable.prepare_data id n tb in (OHeader h, tb)
  end.

Definition spec_exec (buf_alloc : Z) (o : TableOp) (st : gset Z * gmap ConnectionId phase)
  : TableOut * (gset Z * gmap ConnectionId phase) :=
  let (L, m) := st in
  match o with
  | TListen p => (OBool (bool_decide (p ∉ L)), ({[p]} ∪ L, m))
  | TUnlisten p => (OBool (bool_decide (p ∈ L)), (L ∖ {[p]}, m))
  | TDrop id => (OBool (bool_decide (is_Some (m !! id))), (L, delete id m))
  | TDispatch hdr =>
      let (out, m) := spec_dispatch L hdr m in
      (OReply (outcome_reply buf_alloc hdr out), (L, m))
  | TPrepare id n =>
      (OHeader (match m !! id with
                | Some Open => Some (data_header id n buf_alloc)
                | _ => None
                end), (L, m))
  end.

(** Any sequence of calls, with the answers in order. *)
Fixpoint trace {S O A} (step : O -> S -> A * S) (ops : list O) (s : S) : list A * S :=
  match ops with
  | [] => ([], s)
  | o :: ops =>
      let (a, s) := step o s in
      let (l, s) := trace step ops s in (a :: l, s)
  end.

Definition phase_of (c : Connection.t) : phase :=
  if decide (Connection.state c = Established) then Open else PeerClosed.

Section TableInvariant.
Import ConnectionTable.
Implicit Types (tb : t) (hdr : VsockHeader.t) (id : ConnectionId) (c : Connection.t).

Definition abs tb : gmap ConnectionId phase := phase_of <$> connections tb.

(** What every connection in the table satisfies. *)
Definition conn_ok (buf_alloc : Z) id c : Prop :=
  Connection.id c = id /\
  (Connection.state c = Established \/ Connection.state c = CloseWait) /\
  Connection.local_buf_alloc c = buf_alloc /\
  Connection.fwd_cnt c = 0.

Definition table_ok tb : Prop :=
  map_Forall (conn_ok (default_buf_alloc (cfg tb))) (connections tb).

Lemma recv_tracked c hdr :
  Connection.id c = incoming_id hdr ->
  Connection.recv_header hdr c =
    let c := Connection.set_peer_credit c (VsockHeader.buf_alloc hdr) (VsockHeader.fwd_cnt hdr) in
    match Connection.recv_transition (Connection.state c) (VsockHeader.op hdr) with
    | Ok s => (Ok tt, Connection.set_state c s)
    | Err e => (Err e, c)
    end.
Proof. intros Hid. unfold Connection.recv_header. by rewrite decide_True. Qed.

(** Looking a connection up in the table decides the abstract lookup. *)
Lemma abs_lookup tb id : abs tb !! id = phase_of <$> connections tb !! id.
Proof. apply lookup_fmap. Qed.

Lemma abs_insert tb id c p :
  phase_of c = p ->
  abs (set_connections tb (<[id:=c]> (connections tb))) = <[id := p]> (abs tb).
Proof. intros <-. unfold abs. simpl. apply fmap_insert. Qed.

Lemma abs_update tb id c c' :
  connections tb !! id = Some c -> phase_of c' = phase_of c ->
  abs (set_connections tb (<[id:=c']> (connections tb))) = abs tb.
Proof.
  intros Hl Hp. rewrite (abs_insert _ _ _ _ Hp). apply insert_id. by rewrite abs_lookup, Hl.
Qed.

Lemma abs_evict tb tb' id c :
  abs (set_connections tb' (delete id (<[id:=c]> (connections tb)))) = delete id (abs tb).
Proof. unfold abs. simpl. rewrite fmap_delete, fmap_insert. apply delete_insert_eq. Qed.

Lemma table_ok_evict tb id c c' :
  table_ok tb ->
  table_ok (set_connections (set_connections tb (<[id:=c']> (connections tb)))
    (delete id (<[id:=c]> (connections tb)))).
Proof. intros Ht. unfold table_ok. simpl. rewrite delete_insert_eq. by apply map_Forall_delete. Qed.

Lemma table_ok_insert tb id c :
  table_ok tb -> conn_ok (default_buf_alloc (cfg tb)) id c ->
  table_ok (set_connections tb (<[id:=c]> (connections tb))).
Proof. intros. by apply map_Forall_insert_2. Qed.

(** The simulation: one step of [dispatch] is one step of the specification. *)
Lemma dispatch_sim hdr tb :
  table_ok tb ->
  let (r, tb') := dispatch hdr tb in
  let (o, m') := spec_dispatch (listening tb) hdr (abs tb) in
  r = outcome_reply (default_buf_alloc (cfg tb)) hdr o /\ abs tb' = m' /\
  table_ok tb' /\ cfg tb' = cfg tb /\ listening tb' = listening tb.
Proof.
  intros Hok. unfold dispatch, spec_dispatch. rewrite abs_lookup.
  set (id := incoming_id hdr).
  destruct (connections tb !! id) as [c|] eqn:Hl.
  - destruct (Hok _ _ Hl) as (Hid & Hst & Hbuf & Hfwd).
    pose proof (recv_tracked c hdr Hid) as Hrecv.
    assert (Hc : forall s, s = Established \/ s = CloseWait ->
      conn_ok (default_buf_alloc (cfg tb)) id (Connection.set_state (Connection.set_peer_credit c
        (VsockHeader.buf_alloc hdr) (VsockHeader.fwd_cnt hdr)) s)) by (intros s Hs; by repeat split).
    destruct Hst as [Hst|Hst];
    [assert (Hph : phase_of c = Open) by (unfold phase_of; by rewrite Hst)
    |assert (Hph : phase_of c = PeerClosed) by (unfold phase_of; by rewrite Hst)];
    cbn [fmap option_fmap option_map]; rewrite Hph;
    destruct (VsockHeader.op hdr) eqn:Hop;
    unfold handle_request, handle_data, handle_rst, handle_shutdown, handle_response,
      drive_or_evict, handle_credit; rewrite ?Hl, ?Hrecv; simpl; rewrite ?Hst; simpl.
    all: repeat case_if; simpl; split_and!; try done.
    all: first [ eapply abs_update; [done|rewrite Hph; done] | by apply abs_insert
               | apply abs_evict | by apply table_ok_evict
               | apply table_ok_insert; auto ].
  - destruct (VsockHeader.op hdr) eqn:Hop; simpl;
      unfold handle_request, handle_data, handle_rst, handle_shutdown, handle_response,
        drive_or_evict, handle_credit, is_listening; rewrite ?Hl; try done.
    + destruct (bool_decide (VsockHeader.dst_port hdr ∈ listening tb)) eqn:?; simpl; [|done].
      rewrite (recv_tracked _ hdr) by done. simpl. rewrite Hop. simpl.
      unfold reply_header. simpl. rewrite lookup_insert_eq. simpl.
      split_and!; [done|by apply abs_insert| |done..].
      apply table_ok_insert; [done|]. repeat split. by left.
    + split_and!; try done. unfold abs. by rewrite delete_id by by rewrite lookup_fmap, Hl.
Qed.
Lemma phase_of_open c : phase_of c = Open <-> Connection.state c = Established.
Proof. unfold phase_of. by destruct (decide _). Qed.

Lemma prepare_sim id n tb :
  table_ok tb ->
  let (h, tb') := prepare_data id n tb in
  h = match abs tb !! id with
      | Some Open => Some (data_header id n (default_buf_alloc (cfg tb)))
      | _ => None
      end /\
  abs tb' = abs tb /\ table_ok tb' /\ cfg tb' = cfg tb /\ listening tb' = listening tb.
Proof.
  intros Hok. unfold prepare_data. rewrite abs_lookup.
  destruct (connections tb !! id) as [c|] eqn:Hl; [|done].
  destruct (Hok _ _ Hl) as (Hid & Hst & Hbuf & Hfwd).
  unfold Connection.record_send. destruct (decide _) as [He|He]; simpl.
  - rewrite (proj2 (phase_of_open c) He), Hbuf, Hfwd. split_and!; [done| | |done..].
    + eapply abs_update; [done|]. unfold phase_of. simpl. by rewrite He.
    + apply table_ok_insert; [done|]. by repeat split.
  - destruct (phase_of c) eqn:Hph; [by apply phase_of_open in Hph|].
    split_and!; [done| | |done..].
    + by eapply abs_update.
    + by apply table_ok_insert.
Qed.

Lemma table_exec_sim o tb :
  table_ok tb ->
  let (a, tb') := table_exec o tb in
  spec_exec (default_buf_alloc (cfg tb)) o (listening tb, abs tb)
    = (a, (listening tb', abs tb')) /\ table_ok tb' /\ cfg tb' = cfg tb.
Proof.
  intros Hok. destruct o as [p|p|id|hdr|id n]; simpl; [done|done| | |].
  - split_and!; [|by apply map_Forall_delete|done].
    unfold abs. simpl. rewrite lookup_fmap, fmap_delete. do 3 f_equal.
    apply bool_decide_ext. by rewrite fmap_is_Some.
  - pose proof (dispatch_sim hdr tb Hok) as Hs.
    destruct (dispatch hdr tb), (spec_dispatch _ _ _) as [out m].
    by destruct Hs as (-> & <- & ? & ? & ->).
  - pose proof (prepare_sim id n tb Hok) as Hs.
    destruct (prepare_data id n tb). by destruct Hs as (-> & -> & ? & ? & ->).
Qed.

Lemma table_trace_sim ops tb :
  table_ok tb ->
  let (l, tb') := trace table_exec ops tb in
  trace (spec_exec (default_buf_alloc (cfg tb))) ops (listening tb, abs tb)
    = (l, (listening tb', abs tb')) /\ table_ok tb' /\ cfg tb' = cfg tb.
Proof.
  revert tb. induction ops as [|o ops IH]; intros tb Hok; [done|].
  cbn [trace]. pose proof (table_exec_sim o tb Hok) as Hs.
  destruct (table_exec o tb) as [a tb1]. destruct Hs as (-> & Hok1 & Hcfg).
  specialize (IH tb1 Hok1). rewrite Hcfg in IH. destruct (trace table_exec ops tb1).
  by destruct IH as (-> & ? & ->).
Qed.
End TableInvariant.

(** ** Properties *)

(** C16: The connection table refines its abstract specification over every
    sequence of calls: the answers to [listen], [unlisten], [drop_connection],
    [dispatch] and [prepare_data] are those of a table that only remembers, per
    connection, whether the peer has shut down. In particular a [Request] is
    accepted only on a listening port for an unused pair, payload is delivered
    only for a connection the peer opened and did not shut down, an [Rst] is
    never answered, and every header sent has its addresses swapped and a
    forwarded count of 0. Along the way every tracked connection is keyed by
    its own id, [Established] or [CloseWait], with the default buffer. *)
Theorem table_refines_spec cfg ops :
  let (answers, tb) := trace table_exec ops (ConnectionTable.new cfg) in
  trace (spec_exec (default_buf_alloc cfg)) ops (∅, ∅)
    = (answers, (ConnectionTable.listening tb, abs tb)) /\
  map_Forall (fun id c =>
    Connection.id c = id /\
    (Connection.state c = Established \/ Connection.state c = CloseWait) /\
    Connection.local_buf_alloc c = default_buf_alloc cfg /\ Connection.fwd_cnt c = 0)
    (ConnectionTable.connections tb).
Proof.
  pose proof (table_trace_sim ops (ConnectionTable.new cfg)) as H.
  destruct (trace table_exec ops _) as [l tb].
  destruct H as (Ht & Hok & Hcfg); [apply map_Forall_empty|].
  unfold abs at 1 in Ht. simpl in *. rewrite fmap_empty in Ht.
  split; [done|]. unfold table_ok in Hok. by rewrite Hcfg in Hok.
Qed.

(** Whatever order the map is iterated in, [first_established] returns a
    tracked [Established] connection when there is one, and nothing only when
    no tracked connection is [Established]. *)
Theorem first_established_spec tb order :
  order ≡ₚ map_to_list (ConnectionTable.connections tb) ->
  match ConnectionTable.first_established order with
  | Some id => exists c, ConnectionTable.get tb id = Some c /\ Connection.state c = Established
  | None => forall id c, ConnectionTable.get tb id = Some c -> Connection.state c <> Established
  end.
Proof.
  intros Hp. unfold ConnectionTable.first_established, ConnectionTable.get.
  destruct (list_find_val _ order) as [[id c]|] eqn:Hf; simpl.
  - apply list_find_val_some in Hf as [Hin Hs]. rewrite Hp in Hin.
    apply elem_of_map_to_list in Hin. exists c. split; [done|].
    by apply bool_decide_eq_true in Hs.
  - intros id c Hl. assert (Hin : (id, c) ∈ order)
      by (rewrite Hp; by apply elem_of_map_to_list).
    by apply (list_find_val_none _ _ _ Hf), bool_decide_eq_false in Hin.
Qed.

Lemma first_established_spec_witness :
  let id := mk_conn_id (mk_endpoint 2 52) (mk_endpoint 3 1024) in
  let req := VsockHeader.mk 3 2 1024 52 0 Stream Request 0 100 0 in
  let tb := (trace table_exec [TListen 52; TDispatch req]
               (ConnectionTable.new TableConfig_default)).2 in
  exists c, ConnectionTable.get tb id = Some c /\ Connection.state c = Established.
Proof.
  intros id req tb.
  pose proof (first_established_spec tb _ (reflexivity _)) as H.
  assert (Hf : ConnectionTable.first_established
            (map_to_list (ConnectionTable.connections tb)) = Some id) by by vm_compute.
  by rewrite Hf in H.
Defined.
