(* ===== verification/Mmio.v ===== *)
(** * virtio-MMIO transport: the register window of a device

    Models [crates/virtio-vsock/src/mmio.rs] (the virtio-net copy differs in its
    constructor and in what [negotiated_features] masks, see [NetDevice]): the
    register block as a record, [read] and [write] by offset, queue
    programming, feature negotiation, reset and the device config space. A
    register access has a size of at most 8 bytes, the largest a guest MMIO
    exit carries. *)

From S2P Require Import Prelude.

Definition VIRTIO_MMIO_MAGIC : Z := 0x74726976.
Definition VIRTIO_MMIO_VERSION : Z := 2.
Definition VIRTIO_ID_VSOCK : Z := 19.
Definition NANOVM_VENDOR_ID : Z := 0x4e414e4f.
Definition VIRTIO_F_VERSION_1 : Z := Z.shiftl 1 32.
Definition VIRTIO_VSOCK_NUM_QUEUES : nat := 3.
Definition QUEUE_SIZE_MAX : Z := 256.
Definition STATUS_DRIVER_OK : Z := 4.
Definition VIRTIO_MMIO_INT_VRING : Z := 1.

Module reg.
Definition MAGIC : Z := 0x000.
Definition VERSION : Z := 0x004.
Definition DEVICE_ID : Z := 0x008.
Definition VENDOR_ID : Z := 0x00c.
Definition DEVICE_FEATURES : Z := 0x010.
Definition DEVICE_FEATURES_SEL : Z := 0x014.
Definition DRIVER_FEATURES : Z := 0x020.
Definition DRIVER_FEATURES_SEL : Z := 0x024.
Definition QUEUE_SEL : Z := 0x030.
Definition QUEUE_NUM_MAX : Z := 0x034.
Definition QUEUE_NUM : Z := 0x038.
Definition QUEUE_READY : Z := 0x044.
Definition QUEUE_NOTIFY : Z := 0x050.
Definition INTERRUPT_STATUS : Z := 0x060.
Definition INTERRUPT_ACK : Z := 0x064.
Definition STATUS : Z := 0x070.
Definition QUEUE_DESC_LOW : Z := 0x080.
Definition QUEUE_DESC_HIGH : Z := 0x084.
Definition QUEUE_DRIVER_LOW : Z := 0x090.
Definition QUEUE_DRIVER_HIGH : Z := 0x094.
Definition QUEUE_DEVICE_LOW : Z := 0x0a0.
Definition QUEUE_DEVICE_HIGH : Z := 0x0a4.
Definition CONFIG_GENERATION : Z := 0x0fc.
Definition CONFIG_SPACE : Z := 0x100.
End reg.

Module QueueConfig.
Record t : Type := mk {
  size : Z;
  ready : bool;
  desc : Z;
  driver : Z;
  device : Z;
}.

Definition default : t := mk 0 false 0 0 0.

Definition set_size (v : Z) (q : t) : t := mk v (ready q) (desc q) (driver q) (device q).
Definition set_ready (v : bool) (q : t) : t := mk (size q) v (desc q) (driver q) (device q).
Definition set_desc (v : Z) (q : t) : t := mk (size q) (ready q) v (driver q) (device q).
Definition set_driver (v : Z) (q : t) : t := mk (size q) (ready q) (desc q) v (device q).
Definition set_device (v : Z) (q : t) : t := mk (size q) (ready q) (desc q) (driver q) v.
End QueueConfig.

(** [QueueNotify(pub u32)] *)
Definition QueueNotify : Type := Z.

Definition set_low (addr low : Z) : Z := Z.lor (Z.land addr 0xffffffff00000000) low.
Definition set_high (addr high : Z) : Z :=
  Z.lor (Z.land addr 0x00000000ffffffff) (Z.shiftl high 32).

Module MmioTransport.

Record t : Type := mk {
  device_id : Z;
  device_features : Z;
  config : bytes;
  device_features_sel : Z;
  driver_features : Z;
  driver_features_sel : Z;
  status : Z;
  queue_sel : Z;
  queues : list QueueConfig.t;
  interrupt_status : Z;
  config_generation : Z;
  pending_notify : option QueueNotify;
}.

(** Field updates. *)
Definition set_config (c : bytes) (g : Z) (m : t) : t :=
  mk (device_id m) (device_features m) c (device_features_sel m) (driver_features m)
    (driver_features_sel m) (status m) (queue_sel m) (queues m) (interrupt_status m) g
    (pending_notify m).
Definition set_device_features_sel (v : Z) (m : t) : t :=
  mk (device_id m) (device_features m) (config m) v (driver_features m)
    (driver_features_sel m) (status m) (queue_sel m) (queues m) (interrupt_status m)
    (config_generation m) (pending_notify m).
Definition set_driver_features (v : Z) (m : t) : t :=
  mk (device_id m) (device_features m) (config m) (device_features_sel m) v
    (driver_features_sel m) (status m) (queue_sel m) (queues m) (interrupt_status m)
    (config_generation m) (pending_notify m).
Definition set_driver_features_sel (v : Z) (m : t) : t :=
  mk (device_id m) (device_features m) (config m) (device_features_sel m)
    (driver_features m) v (status m) (queue_sel m) (queues m) (interrupt_status m)
    (config_generation m) (pending_notify m).
Definition set_status (v : Z) (m : t) : t :=
  mk (device_id m) (device_features m) (config m) (device_features_sel m)
    (driver_features m) (driver_features_sel m) v (queue_sel m) (queues m)
    (interrupt_status m) (config_generation m) (pending_notify m).
Definition set_queue_sel (v : Z) (m : t) : t :=
  mk (device_id m) (device_features m) (config m) (device_features_sel m)
    (driver_features m) (driver_features_sel m) (status m) v (queues m)
    (interrupt_status m) (config_generation m) (pending_notify m).
Definition set_queues (v : list QueueConfig.t) (m : t) : t :=
  mk (device_id m) (device_features m) (config m) (device_features_sel m)
    (driver_features m) (driver_features_sel m) (status m) (queue_sel m) v
    (interrupt_status m) (config_generation m) (pending_notify m).
Definition set_interrupt_status (v : Z) (m : t) : t :=
  mk (device_id m) (device_features m) (config m) (device_features_sel m)
    (driver_features m) (driver_features_sel m) (status m) (queue_sel m) (queues m)
    v (config_generation m) (pending_notify m).
Definition set_pending_notify (v : option QueueNotify) (m : t) : t :=
  mk (device_id m) (device_features m) (config m) (device_features_sel m)
    (driver_features m) (driver_features_sel m) (status m) (queue_sel m) (queues m)
    (interrupt_status m) (config_generation m) v.

Definition new_vsock (guest_cid : Z) : t :=
  {| device_id := VIRTIO_ID_VSOCK;
     device_features := VIRTIO_F_VERSION_1;
     config := to_le 8 guest_cid;
     device_features_sel := 0;
     driver_features := 0;
     driver_features_sel := 0;
     status := 0;
     queue_sel := 0;
     queues := replicate VIRTIO_VSOCK_NUM_QUEUES QueueConfig.default;
     interrupt_status := 0;
     config_generation := 0;
     pending_notify := None |}.

Definition driver_ok (m : t) : bool := has_flag (status m) STATUS_DRIVER_OK.

Definition negotiated_features (m : t) : Z := driver_features m.

Definition queue (m : t) (index : nat) : option QueueConfig.t := queues m !! index.

Definition take_notify (m : t) : option QueueNotify * t :=
  (pending_notify m, set_pending_notify None m).

Definition raise_interrupt (m : t) : t :=
  set_interrupt_status (Z.lor (interrupt_status m) VIRTIO_MMIO_INT_VRING) m.

Definition interrupt_asserted (m : t) : bool := negb (interrupt_status m =? 0).

Definition read_device_features (m : t) : Z :=
  match device_features_sel m with
  | 0 => wrap32 (device_features m)
  | 1 => wrap32 (Z.shiftr (device_features m) 32)
  | _ => 0
  end.

Definition write_driver_features (v : Z) (m : t) : t :=
  match driver_features_sel m with
  | 0 => set_driver_features
           (Z.lor (Z.land (driver_features m) 0xffffffff00000000) v) m
  | 1 => set_driver_features
           (Z.lor (Z.land (driver_features m) 0x00000000ffffffff) (Z.shiftl v 32)) m
  | _ => m
  end.

Definition reset (m : t) : t :=
  {| device_id := device_id m;
     device_features := device_features m;
     config := config m;
     device_features_sel := 0;
     driver_features := 0;
     driver_features_sel := 0;
     status := 0;
     queue_sel := 0;
     queues := (fun _ => QueueConfig.default) <$> queues m;
     interrupt_status := 0;
     config_generation := config_generation m;
     pending_notify := None |}.

Definition write_status (v : Z) (m : t) : t :=
  if v =? 0 then reset m else set_status v m.

Definition current_queue (m : t) : option QueueConfig.t :=
  queues m !! Z.to_nat (queue_sel m).

Definition with_current_queue (f : QueueConfig.t -> QueueConfig.t) (m : t) : t :=
  match queues m !! Z.to_nat (queue_sel m) with
  | Some q => set_queues (<[Z.to_nat (queue_sel m) := f q]> (queues m)) m
  | None => m
  end.

(** [self.config.get(i)] *)
Definition config_get (c : bytes) (i : Z) : option Init.Byte.byte :=
  if i <? zlen c then c !! Z.to_nat i else None.

Definition read_config (m : t) (off : Z) (size : nat) : Z :=
  foldl (fun out i =>
           let byte := default Byte.x00 (config_get (config m) (off + Z.of_nat i)) in
           Z.lor out (Z.shiftl (u8_of byte) (8 * Z.of_nat i)))
        0 (seq 0 size).

(** One iteration of the copy loop: the block and the [wrote] flag. *)
Definition write_config_step (off value : Z) (st : bytes * bool) (i : nat) : bytes * bool :=
  match config_get st.1 (off + Z.of_nat i) with
  | Some _ =>
      (<[Z.to_nat (off + Z.of_nat i) := byte_of (Z.shiftr value (8 * Z.of_nat i))]> st.1, true)
  | None => st
  end.

Definition write_config (off : Z) (size : nat) (value : Z) (m : t) : t :=
  let st := foldl (write_config_step off value) (config m, false) (seq 0 size) in
  if st.2 then set_config st.1 (wrap32 (config_generation m + 1)) m else m.

Definition read (m : t) (offset : Z) (size : nat) : Z :=
  if reg.CONFIG_SPACE <=? offset then read_config m (offset - reg.CONFIG_SPACE) size
  else if offset =? reg.MAGIC then VIRTIO_MMIO_MAGIC
  else if offset =? reg.VERSION then VIRTIO_MMIO_VERSION
  else if offset =? reg.DEVICE_ID then device_id m
  else if offset =? reg.VENDOR_ID then NANOVM_VENDOR_ID
  else if offset =? reg.DEVICE_FEATURES then read_device_features m
  else if offset =? reg.QUEUE_NUM_MAX then QUEUE_SIZE_MAX
  else if offset =? reg.QUEUE_READY then
    match current_queue m with Some q => Z.b2z (QueueConfig.ready q) | None => 0 end
  else if offset =? reg.INTERRUPT_STATUS then interrupt_status m
  else if offset =? reg.STATUS then status m
  else if offset =? reg.CONFIG_GENERATION then config_generation m
  else 0.

Definition write (offset : Z) (size : nat) (value : Z) (m : t) : t :=
  if reg.CONFIG_SPACE <=? offset then write_config (offset - reg.CONFIG_SPACE) size value m
  else
  let v := wrap32 value in
  if offset =? reg.DEVICE_FEATURES_SEL then set_device_features_sel v m
  else if offset =? reg.DRIVER_FEATURES then write_driver_features v m
  else if offset =? reg.DRIVER_FEATURES_SEL then set_driver_features_sel v m
  else if offset =? reg.QUEUE_SEL then set_queue_sel v m
  else if offset =? reg.QUEUE_NUM then with_current_queue (QueueConfig.set_size v) m
  else if offset =? reg.QUEUE_READY then
    with_current_queue (QueueConfig.set_ready (has_flag v 1)) m
  else if offset =? reg.QUEUE_NOTIFY then set_pending_notify (Some v) m
  else if offset =? reg.INTERRUPT_ACK then
    set_interrupt_status (Z.ldiff (interrupt_status m) v) m
  else if offset =? reg.STATUS then write_status v m
  else if offset =? reg.QUEUE_DESC_LOW then
    with_current_queue (fun q => QueueConfig.set_desc (set_low (QueueConfig.desc q) v) q) m
  else if offset =? reg.QUEUE_DESC_HIGH then
    with_current_queue (fun q => QueueConfig.set_desc (set_high (QueueConfig.desc q) v) q) m
  else if offset =? reg.QUEUE_DRIVER_LOW then
    with_current_queue (fun q => QueueConfig.set_driver (set_low (QueueConfig.driver q) v) q) m
  else if offset =? reg.QUEUE_DRIVER_HIGH then
    with_current_queue (fun q => QueueConfig.set_driver (set_high (QueueConfig.driver q) v) q) m
  else if offset =? reg.QUEUE_DEVICE_LOW then
    with_current_queue (fun q => QueueConfig.set_device (set_low (QueueConfig.device q) v) q) m
  else if offset =? reg.QUEUE_DEVICE_HIGH then
    with_current_queue (fun q => QueueConfig.set_device (set_high (QueueConfig.device q) v) q) m
  else m.

End MmioTransport.

(** ** 64-bit values in two halves *)

Lemma bits_above n z i : 0 <= n -> 0 <= z < 2 ^ n -> n <= i -> Z.testbit z i = false.
Proof.
  intros Hn Hz Hi. rewrite <- (Z.mod_small z (2 ^ n)) by done.
  by apply Z.mod_pow2_bits_high.
Qed.

Lemma lor_low_add a b n :
  0 <= n -> 0 <= b < 2 ^ n -> Z.lor (a * 2 ^ n) b = a * 2 ^ n + b.
Proof.
  intros Hn Hb.
  assert (Hd : Z.land (a * 2 ^ n) b = 0).
  { apply Z.bits_inj'. intros i Hi. rewrite Z.land_spec, Z.bits_0.
    destruct (decide (i < n)); [by rewrite Z.mul_pow2_bits_low|].
    by rewrite (bits_above n b), andb_false_r by lia. }
  by rewrite <- Z.lxor_lor, <- Z.add_nocarry_lxor.
Qed.

Lemma land_high a : is_u64 a -> Z.land a 0xffffffff00000000 = a / 2 ^ 32 * 2 ^ 32.
Proof.
  intros Ha. rewrite <- Z.shiftr_div_pow2, <- Z.shiftl_mul_pow2 by lia.
  change 0xffffffff00000000 with (Z.shiftl (Z.ones 32) 32).
  apply Z.bits_inj'. intros i Hi. rewrite Z.land_spec.
  destruct (decide (i < 32)); [by rewrite !Z.shiftl_spec_low, andb_false_r|].
  rewrite !Z.shiftl_spec, Z.shiftr_spec, Z.sub_add by lia.
  destruct (decide (i < 64)).
  - rewrite Z.ones_spec_low by lia. apply andb_true_r.
  - by rewrite (bits_above 64 a) by (unfold is_u64 in *; lia).
Qed.

Lemma set_low_spec a l : is_u64 a -> is_u32 l -> set_low a l = a / 2 ^ 32 * 2 ^ 32 + l.
Proof. intros. unfold set_low. rewrite land_high by done. apply lor_low_add; [lia|done]. Qed.

Lemma set_high_spec a h : set_high a h = h * 2 ^ 32 + a mod 2 ^ 32.
Proof.
  unfold set_high. change 0x00000000ffffffff with (Z.ones 32).
  rewrite Z.land_ones, Z.shiftl_mul_pow2, Z.lor_comm by lia.
  apply lor_low_add; [lia|]. apply Z.mod_pos_bound. lia.
Qed.

(** ** Queue registers

    The eight registers that program the selected queue, and what each does to
    its configuration. *)

Inductive QReg : Type :=
| QNum | QDescLow | QDescHigh | QDriverLow | QDriverHigh | QDeviceLow | QDeviceHigh | QReady.

#[global] Instance QReg_eq_dec : EqDecision QReg.
Proof. solve_decision. Defined.

Definition qreg_offset (r : QReg) : Z :=
  match r with
  | QNum => reg.QUEUE_NUM | QReady => reg.QUEUE_READY
  | QDescLow => reg.QUEUE_DESC_LOW | QDescHigh => reg.QUEUE_DESC_HIGH
  | QDriverLow => reg.QUEUE_DRIVER_LOW | QDriverHigh => reg.QUEUE_DRIVER_HIGH
  | QDeviceLow => reg.QUEUE_DEVICE_LOW | QDeviceHigh => reg.QUEUE_DEVICE_HIGH
  end.

Definition qreg_effect (r : QReg) (v : Z) (q : QueueConfig.t) : QueueConfig.t :=
  match r with
  | QNum => QueueConfig.set_size v q
  | QReady => QueueConfig.set_ready (has_flag v 1) q
  | QDescLow => QueueConfig.set_desc (set_low (QueueConfig.desc q) v) q
  | QDescHigh => QueueConfig.set_desc (set_high (QueueConfig.desc q) v) q
  | QDriverLow => QueueConfig.set_driver (set_low (QueueConfig.driver q) v) q
  | QDriverHigh => QueueConfig.set_driver (set_high (QueueConfig.driver q) v) q
  | QDeviceLow => QueueConfig.set_device (set_low (QueueConfig.device q) v) q
  | QDeviceHigh => QueueConfig.set_device (set_high (QueueConfig.device q) v) q
  end.

Definition queue_ok (q : QueueConfig.t) : Prop :=
  is_u32 (QueueConfig.size q) /\ is_u64 (QueueConfig.desc q) /\
  is_u64 (QueueConfig.driver q) /\ is_u64 (QueueConfig.device q).

Section QueueProgramming.
Import MmioTransport.
Implicit Types (m : t) (q : QueueConfig.t) (r : QReg).

Lemma write_qreg r n v m :
  write (qreg_offset r) n v m = with_current_queue (qreg_effect r (wrap32 v)) m.
Proof. by destruct r. Qed.

Lemma set_low_u64 a l : is_u64 a -> is_u32 l -> is_u64 (set_low a l).
Proof. intros. rewrite set_low_spec by done. ulia. Qed.
Lemma set_high_u64 a h : is_u32 h -> is_u64 (set_high a h).
Proof. intros. rewrite set_high_spec. ulia. Qed.

Lemma qreg_effect_ok r v q : is_u32 v -> queue_ok q -> queue_ok (qreg_effect r v q).
Proof.
  intros Hv (? & ? & ? & ?).
  unfold queue_ok. destruct r; split_and!; simpl; auto using set_low_u64, set_high_u64.
Qed.

(** After both halves are written, in either order, nothing of the old value is
    left. *)
Lemma set_low_high a l h :
  is_u32 l -> is_u32 h -> set_low (set_high a h) l = h * 2 ^ 32 + l.
Proof.
  intros Hl Hh. rewrite set_low_spec by auto using set_high_u64.
  rewrite set_high_spec. ulia.
Qed.

Lemma set_high_low a l h :
  is_u32 l -> is_u32 h -> set_high (set_low a l) h = h * 2 ^ 32 + l.
Proof.
  intros Hl Hh. rewrite set_high_spec. f_equal. unfold set_low.
  rewrite <- Z.land_ones, Z.land_lor_distr_l, <- Z.land_assoc by lia.
  change (Z.land 0xffffffff00000000 (Z.ones 32)) with 0.
  rewrite Z.land_0_r, Z.lor_0_l, Z.land_ones by lia. by apply Z.mod_small.
Qed.

(** Writes to different queue registers commute. *)
Lemma qreg_effect_comm r1 v1 r2 v2 q :
  is_u32 v1 -> is_u32 v2 -> r1 <> r2 ->
  qreg_effect r1 v1 (qreg_effect r2 v2 q) = qreg_effect r2 v2 (qreg_effect r1 v1 q).
Proof.
  intros ? ? Hne.
  destruct r1, r2; try done;
    unfold qreg_effect, QueueConfig.set_desc, QueueConfig.set_driver, QueueConfig.set_device;
    simpl; by rewrite set_low_high, set_high_low.
Qed.

(** The writes of a list, in order. *)
Definition write_qregs (ws : list (QReg * Z)) m : t :=
  foldl (fun m w => write (qreg_offset w.1) 4 w.2 m) m ws.

Lemma write_qregs_effect ws m q :
  queues m !! Z.to_nat (queue_sel m) = Some q ->
  write_qregs ws m =
    set_queues (<[Z.to_nat (queue_sel m) :=
      foldl (fun q w => qreg_effect w.1 (wrap32 w.2) q) q ws]> (queues m)) m.
Proof.
  unfold write_qregs. revert m q. induction ws as [|[r v] ws IH]; intros m q Hq; simpl.
  - rewrite list_insert_id by done. by destruct m.
  - rewrite write_qreg. unfold with_current_queue. rewrite Hq.
    rewrite (IH _ (qreg_effect r (wrap32 v) q)).
    + unfold set_queues. simpl. by rewrite list_insert_insert_eq.
    + simpl. apply list_lookup_insert_eq. by eapply lookup_lt_Some.
Qed.
(** The driver's writes for one queue: size, the three ring addresses by halves,
    and ready. *)
Definition bring_up (size desc driver device : Z) : list (QReg * Z) :=
  [(QNum, size); (QDescLow, wrap32 desc); (QDescHigh, Z.shiftr desc 32);
   (QDriverLow, wrap32 driver); (QDriverHigh, Z.shiftr driver 32);
   (QDeviceLow, wrap32 device); (QDeviceHigh, Z.shiftr device 32); (QReady, 1)].

Lemma qreg_effects_permute ws ws' q :
  NoDup ws.*1 -> ws ≡ₚ ws' ->
  foldl (fun q w => qreg_effect w.1 (wrap32 w.2) q) q ws =
  foldl (fun q w => qreg_effect w.1 (wrap32 w.2) q) q ws'.
Proof.
  intros Hnd Hp. rewrite !foldl_foldr_reverse.
  apply (foldr_permutation (=)).
  - by intros x q1 q2 ->.
  - intros j1 [r1 v1] j2 [r2 v2] b Hj H1 H2. unfold flip. simpl.
    apply qreg_effect_comm; [apply wrap32_range..|]. intros ->.
    assert (Hnd' : NoDup (reverse ws).*1) by (by rewrite reverse_Permutation).
    apply Hj. eapply (NoDup_lookup _ _ _ r2 Hnd'); rewrite list_lookup_fmap.
    + by rewrite H1.
    + by rewrite H2.
  - by rewrite !reverse_Permutation.
Qed.

Lemma bring_up_effect size desc driver device q :
  is_u32 size -> is_u64 desc -> is_u64 driver -> is_u64 device ->
  foldl (fun q w => qreg_effect w.1 (wrap32 w.2) q) q (bring_up size desc driver device) =
  QueueConfig.mk size true desc driver device.
Proof.
  intros Hs Hd Hr Hv. unfold bring_up. cbn [foldl fst snd qreg_effect].
  unfold QueueConfig.set_desc, QueueConfig.set_driver, QueueConfig.set_device,
    QueueConfig.set_ready. simpl.
  rewrite !Z.shiftr_div_pow2 by lia. f_equal.
  - by apply wrap32_small.
  - rewrite set_high_low; ulia.
  - rewrite set_high_low; ulia.
  - rewrite set_high_low; ulia.
Qed.
End QueueProgramming.

(** ** Config space *)

Section ConfigSpace.
Import MmioTransport.
Implicit Types (m : t) (c : bytes).

(** The bytes a read at [off] sees: those of the config block, then zeros. *)
Definition config_bytes c (off : Z) (n : nat) : bytes :=
  (fun i => default Byte.x00 (config_get c (off + Z.of_nat i))) <$> seq 0 n.

Lemma read_config_bytes m off n : read_config m off n = from_le (config_bytes (config m) off n).
Proof.
  unfold read_config, config_bytes. induction n as [|n IH]; [done|].
  rewrite seq_S, foldl_snoc, IH, fmap_app. simpl.
  rewrite from_le_snoc, length_fmap, length_seq. f_equal. f_equal. lia.
Qed.

Lemma config_bytes_in c off n :
  0 <= off -> off + Z.of_nat n <= zlen c -> config_bytes c off n = slice c (Z.to_nat off) n.
Proof.
  intros Ho Hn. unfold zlen in *. apply list_eq. intros i. unfold config_bytes.
  rewrite list_lookup_fmap. destruct (decide (i < n)%nat).
  - rewrite lookup_seq_lt, slice_lookup by done. simpl. unfold config_get, zlen.
    case_if; [|lia]. replace (Z.to_nat (off + Z.of_nat i)) with (Z.to_nat off + i)%nat by lia.
    by destruct (lookup_lt_is_Some_2 c (Z.to_nat off + i)) as [x ->]; [lia|].
  - rewrite lookup_seq_ge by lia. simpl. symmetry. apply lookup_ge_None_2.
    rewrite slice_length; lia.
Qed.

(** The block after the first [k] bytes of a write within it. *)
Lemma write_config_fold_in off value c k :
  0 <= off -> off + Z.of_nat k <= zlen c -> (0 < k)%nat ->
  foldl (write_config_step off value) (c, false) (seq 0 k) =
    (splice c (Z.to_nat off) (to_le k value), true).
Proof.
  intros Ho. induction k as [|k IH]; [lia|]. intros Hk _.
  rewrite seq_S, foldl_snoc.
  assert (IH' : (foldl (write_config_step off value) (c, false) (seq 0 k)).1 =
     splice c (Z.to_nat off) (to_le k value)).
  { destruct k; [|rewrite IH by lia; done]. by rewrite to_le_0, splice_nil. }
  unfold write_config_step at 1. rewrite IH'. unfold zlen in *.
  assert (Hl : length (splice c (Z.to_nat off) (to_le k value)) = length c) by len.
  unfold config_get, zlen. rewrite Hl. case_if; [|lia].
  destruct (lookup_lt_is_Some_2 (splice c (Z.to_nat off) (to_le k value))
    (Z.to_nat (off + Z.of_nat (0 + k)))) as [x ->]; [lia|]. f_equal.
  replace (Z.to_nat (off + Z.of_nat (0 + k))) with (Z.to_nat off + length (to_le k value))%nat
    by len.
  rewrite splice_insert_next by len. f_equal. by rewrite to_le_snoc.
Qed.
End ConfigSpace.

(** ** The register block over any sequence of accesses *)

(** A guest access, or the device side raising its interrupt or draining the
    pending kick. *)
Inductive MmioOp : Type :=
| MWrite (offset : Z) (size : nat) (value : Z) | MRaise | MTake.

Definition mmio_exec (o : MmioOp) (m : MmioTransport.t) : MmioTransport.t :=
  match o with
  | MWrite off n v => MmioTransport.write off n v m
  | MRaise => MmioTransport.raise_interrupt m
  | MTake => (MmioTransport.take_notify m).2
  end.

Section Invariant.
Import MmioTransport.
Implicit Types (m : t).

(** Every register fits its width, and every queue its fields. *)
Record mmio_ok (m : t) : Prop := {
  ok_features : is_u64 (driver_features m);
  ok_device_sel : is_u32 (device_features_sel m);
  ok_driver_sel : is_u32 (driver_features_sel m);
  ok_status : is_u32 (status m);
  ok_queue_sel : is_u32 (queue_sel m);
  ok_queues : Forall queue_ok (queues m);
  ok_interrupt : is_u32 (interrupt_status m);
  ok_generation : is_u32 (config_generation m);
  ok_notify : from_option is_u32 True (pending_notify m);
}.

(** What identifies the device: fixed when it is built. *)
Definition identity m : Z * Z * nat * nat :=
  (device_id m, device_features m, length (config m), length (queues m)).

Lemma lor_u32 a b : is_u32 a -> is_u32 b -> is_u32 (Z.lor a b).
Proof.
  intros [Ha1 Ha2] [Hb1 Hb2]. split; [by apply Z.lor_nonneg|].
  rewrite <- (Z.mod_small a (2 ^ 32)), <- (Z.mod_small b (2 ^ 32)) by done.
  rewrite <- !Z.land_ones, <- Z.land_lor_distr_l, Z.land_ones by lia.
  by apply Z.mod_pos_bound.
Qed.

Lemma ldiff_u32 a b : is_u32 a -> is_u32 (Z.ldiff a b).
Proof.
  intros [Ha1 Ha2]. split; [apply Z.ldiff_nonneg; by left|].
  rewrite <- (Z.mod_small a (2 ^ 32)) by done.
  rewrite <- Z.land_ones by lia. rewrite Z.ldiff_land, <- Z.land_assoc,
    (Z.land_comm (Z.ones 32)), Z.land_assoc, Z.land_ones by lia.
  by apply Z.mod_pos_bound.
Qed.

Lemma with_current_queue_ok f m :
  (forall q, queue_ok q -> queue_ok (f q)) -> mmio_ok m ->
  mmio_ok (with_current_queue f m) /\ identity (with_current_queue f m) = identity m.
Proof.
  intros Hf Hok. unfold with_current_queue.
  destruct (queues m !! _) as [q|] eqn:Hq; [|done]. destruct Hok. split.
  - split; try done. simpl. apply Forall_insert; [done|]. apply Hf.
    by eapply Forall_lookup_1.
  - unfold identity. simpl. by rewrite length_insert.
Qed.

Lemma write_config_ok off n v m :
  mmio_ok m -> mmio_ok (write_config off n v m) /\ identity (write_config off n v m) = identity m.
Proof.
  intros Hok. unfold write_config.
  assert (Hl : forall l st, length (foldl (write_config_step off v) st l).1 = length st.1).
  { induction l as [|i l IH]; intros st; [done|]. simpl. rewrite IH. unfold write_config_step.
    destruct (config_get _ _); [apply length_insert|done]. }
  specialize (Hl (seq 0 n) (config m, false)).
  destruct (foldl _ _ _) as [c []]; simpl in *; [|done]. destruct Hok. split.
  - split; try done. apply wrap32_range.
  - unfold identity. simpl. by rewrite Hl.
Qed.

Lemma reset_ok m : mmio_ok m -> mmio_ok (reset m) /\ identity (reset m) = identity m.
Proof.
  intros []. split; [split; simpl; try done; try ulia|].
  - apply Forall_fmap, Forall_true. intros. repeat split; done.
  - unfold identity. simpl. by rewrite length_fmap.
Qed.

Lemma write_driver_features_ok v m :
  is_u32 v -> mmio_ok m ->
  mmio_ok (write_driver_features v m) /\ identity (write_driver_features v m) = identity m.
Proof.
  intros Hv Hok. destruct (Hok).
  assert (Hset : forall w, is_u64 w -> mmio_ok (set_driver_features w m)) by by split.
  unfold write_driver_features. destruct (driver_features_sel m) as [|[]|]; try done;
    (split; [|done]); apply Hset.
  - by apply (set_low_u64 (driver_features m)).
  - by apply (set_high_u64 (driver_features m)).
Qed.

Lemma mmio_exec_ok o m : mmio_ok m -> mmio_ok (mmio_exec o m) /\ identity (mmio_exec o m) = identity m.
Proof.
  intros Hok. destruct o as [off n v| |]; simpl.
  - unfold write. case_if; [by apply write_config_ok|].
    pose proof (wrap32_range v) as Hv. set (w := wrap32 v) in *.
    repeat (case_if;
      [first [ apply write_driver_features_ok; [exact Hv|exact Hok]
             | apply with_current_queue_ok; [|exact Hok];
               first [ by intros q (? & ? & ? & ?); split
                     | intros q; apply (qreg_effect_ok QDescLow w); exact Hv
                     | intros q; apply (qreg_effect_ok QDescHigh w); exact Hv
                     | intros q; apply (qreg_effect_ok QDriverLow w); exact Hv
                     | intros q; apply (qreg_effect_ok QDriverHigh w); exact Hv
                     | intros q; apply (qreg_effect_ok QDeviceLow w); exact Hv
                     | intros q; apply (qreg_effect_ok QDeviceHigh w); exact Hv ]
             | unfold write_status; case_if; [by apply reset_ok|];
               destruct Hok; by split
             | destruct Hok; split; [split; try done; by apply ldiff_u32|done]]
      |]). done.
  - destruct Hok. split; [split; try done|done]. apply lor_u32; [done|]. by vm_compute.
  - destruct Hok. by split.
Qed.

Lemma mmio_run_ok ops m :
  mmio_ok m ->
  mmio_ok (foldl (flip mmio_exec) m ops) /\ identity (foldl (flip mmio_exec) m ops) = identity m.
Proof.
  intros Hok. induction ops as [|o ops IH] using rev_ind; [done|].
  rewrite foldl_snoc. destruct IH as [IHok <-]. by apply mmio_exec_ok.
Qed.

(** A pending kick appears exactly on a [QueueNotify] write. *)
Lemma write_pending off n v m :
  pending_notify m = None ->
  pending_notify (write off n v m) = if off =? reg.QUEUE_NOTIFY then Some (wrap32 v) else None.
Proof.
  intros Hp. unfold write. case_if.
  { unfold write_config. case_if; simpl; rewrite Hp;
      by rewrite (proj2 (Z.eqb_neq off _)) by (unfold reg.CONFIG_SPACE, reg.QUEUE_NOTIFY in *; lia). }
  destruct (off =? reg.QUEUE_NOTIFY) eqn:Hn; bool_to_prop; [by subst|].
  unfold write_driver_features, with_current_queue, write_status.
  repeat case_match; simpl; done.
Qed.

Lemma new_vsock_ok cid : mmio_ok (new_vsock cid).
Proof.
  split; try done. apply Forall_replicate. repeat split; done.
Qed.
End Invariant.

(** ** Properties *)

(** However the guest and the device use the register window of a vsock
    device, its identity (device id, offered features, number of queues, size
    of the config block) never changes, every register keeps within its width,
    and writing 0 to [Status] brings back the state of a fresh device, config
    space and its generation counter apart. *)
Theorem mmio_invariant guest_cid ops n :
  let fresh := MmioTransport.new_vsock guest_cid in
  let m := foldl (flip mmio_exec) fresh ops in
  mmio_ok m /\ identity m = identity fresh /\
  MmioTransport.write reg.STATUS n 0 m =
    MmioTransport.set_config (MmioTransport.config m) (MmioTransport.config_generation m) fresh.
Proof.
  intros fresh m. destruct (mmio_run_ok ops _ (new_vsock_ok guest_cid)) as [Hok Hid].
  split_and!; [done..|]. fold fresh in Hid. fold m in Hid.
  injection Hid as Hdev Hfeat _ Hq.
  unfold MmioTransport.write. simpl. unfold MmioTransport.write_status. simpl.
  unfold MmioTransport.reset, MmioTransport.set_config. fold fresh m.
  rewrite Hdev, Hfeat. f_equal.
  rewrite (const_fmap _ _ QueueConfig.default) by done. by rewrite Hq.
Qed.

(** Queue bring-up composes: with a queue selected, the eight writes that
    program it (size, the low and high half of the three ring addresses,
    ready), in any order, leave exactly the size and the 64-bit addresses the
    driver meant in that queue's configuration and change nothing else. *)
Theorem mmio_queue_programming m q size desc driver device ws :
  MmioTransport.current_queue m = Some q ->
  is_u32 size -> is_u64 desc -> is_u64 driver -> is_u64 device ->
  ws ≡ₚ bring_up size desc driver device ->
  write_qregs ws m =
    MmioTransport.set_queues
      (<[Z.to_nat (MmioTransport.queue_sel m) := QueueConfig.mk size true desc driver device]>
         (MmioTransport.queues m)) m.
Proof.
  intros Hq Hs Hd Hr Hv Hp. rewrite (write_qregs_effect ws m q Hq). do 2 f_equal.
  rewrite (qreg_effects_permute ws (bring_up size desc driver device)).
  - by apply bring_up_effect.
  - rewrite Hp. by apply (bool_decide_eq_true_1 (NoDup _)); vm_compute.
  - done.
Qed.

(** Programming queue 1 of a fresh device, ready first and high halves before
    low ones. *)
Lemma mmio_queue_programming_witness :
  let m := MmioTransport.write reg.QUEUE_SEL 4 1 (MmioTransport.new_vsock 3) in
  MmioTransport.queue
    (write_qregs (reverse (bring_up 128 0x140001000 0x140002000 0x140003000)) m) 1 =
  Some (QueueConfig.mk 128 true 0x140001000 0x140002000 0x140003000).
Proof.
  intros m.
  rewrite (mmio_queue_programming m QueueConfig.default 128 0x140001000 0x140002000
             0x140003000 _).
  - reflexivity.
  - reflexivity.
  - vm_compute; split; discriminate || reflexivity.
  - vm_compute; split; discriminate || reflexivity.
  - vm_compute; split; discriminate || reflexivity.
  - vm_compute; split; discriminate || reflexivity.
  - apply reverse_Permutation.
Defined.

(** Feature negotiation by halves: reading [DeviceFeatures] with the
    selector at 0 and at 1 yields the two halves of the offered 64-bit word,
    and writing [DriverFeatures] under both selectors, in either order, makes
    the negotiated word exactly the one the driver wrote, whatever was there
    before. *)
Theorem mmio_feature_negotiation m f lo_first :
  is_u64 (MmioTransport.device_features m) -> is_u64 f ->
  let select o v := MmioTransport.write o 4 v in
  let features_half i :=
    MmioTransport.read (select reg.DEVICE_FEATURES_SEL i m) reg.DEVICE_FEATURES 4 in
  let put i m :=
    MmioTransport.write reg.DRIVER_FEATURES 4 (if i =? 0 then wrap32 f else Z.shiftr f 32)
      (select reg.DRIVER_FEATURES_SEL i m) in
  features_half 1 * 2 ^ 32 + features_half 0 = MmioTransport.device_features m /\
  MmioTransport.negotiated_features
    (if lo_first : bool then put 1 (put 0 m) else put 0 (put 1 m)) = f.
Proof.
  intros Hd Hf. cbv zeta. split.
  - cbv [MmioTransport.read MmioTransport.write reg.CONFIG_SPACE reg.DEVICE_FEATURES_SEL
      reg.DEVICE_FEATURES]. simpl.
    unfold MmioTransport.read_device_features. simpl.
    change (wrap32 1) with 1. change (wrap32 0) with 0. simpl.
    rewrite Z.shiftr_div_pow2 by lia. ulia.
  - assert (H : forall a, set_high (set_low a (wrap32 (wrap32 f))) (wrap32 (Z.shiftr f 32)) = f /\
                     set_low (set_high a (wrap32 (Z.shiftr f 32))) (wrap32 (wrap32 f)) = f).
    { intros a. rewrite set_high_low, set_low_high by apply wrap32_range.
      rewrite Z.shiftr_div_pow2 by lia. ulia. }
    destruct lo_first; [apply (H (MmioTransport.driver_features m))..].
Qed.

Lemma mmio_feature_negotiation_witness :
  let put i v m := MmioTransport.write reg.DRIVER_FEATURES 4 v
                     (MmioTransport.write reg.DRIVER_FEATURES_SEL 4 i m) in
  MmioTransport.negotiated_features
    (put 1 1 (put 0 0xdeadbeef (MmioTransport.new_vsock 3))) = 0x1deadbeef.
Proof.
  pose proof (mmio_feature_negotiation (MmioTransport.new_vsock 3) 0x1deadbeef true) as H.
  apply H; vm_compute; split; discriminate || reflexivity.
Defined.

(** Config-space accesses are byte-exact: a read inside the block returns
    the little-endian value of exactly the bytes it covers; a non-empty write
    inside it replaces exactly those bytes with the value's low bytes, is read
    back truncated to its size, and bumps the generation. *)
Theorem mmio_config_space m off n v :
  let c := MmioTransport.config m in
  0 <= off -> (0 < n)%nat -> off + Z.of_nat n <= zlen c ->
  let m' := MmioTransport.write (reg.CONFIG_SPACE + off) n v m in
  MmioTransport.read m (reg.CONFIG_SPACE + off) n = from_le (slice c (Z.to_nat off) n) /\
  MmioTransport.config m' = splice c (Z.to_nat off) (to_le n v) /\
  MmioTransport.config_generation m' = wrap32 (MmioTransport.config_generation m + 1) /\
  MmioTransport.read m' (reg.CONFIG_SPACE + off) n = v mod 2 ^ (Z.of_nat n * 8).
Proof.
  intros c Ho Hn Hb. cbv zeta. unfold MmioTransport.read, MmioTransport.write.
  case_if; [|unfold reg.CONFIG_SPACE in *; lia].
  rewrite !read_config_bytes.
  replace (reg.CONFIG_SPACE + off - reg.CONFIG_SPACE) with off by lia.
  unfold MmioTransport.write_config. fold c. rewrite write_config_fold_in by done.
  cbn [fst snd MmioTransport.set_config MmioTransport.config MmioTransport.config_generation].
  unfold zlen in Hb.
  rewrite !config_bytes_in by (unfold zlen; len).
  split_and!; [done..|].
  pose proof (splice_slice_same c (Z.to_nat off) (to_le n v)) as Hs.
  rewrite to_le_length in Hs. rewrite Hs by lia. apply from_to_le.
Qed.

(** The guest reads its context id from the config space of a fresh device. *)
Lemma mmio_config_space_witness :
  MmioTransport.read (MmioTransport.new_vsock 42) 0x100 8 = 42.
Proof.
  refine (eq_trans (proj1 (mmio_config_space (MmioTransport.new_vsock 42) 0 8 0 _ _ _)) _);
    vm_compute; reflexivity || discriminate || lia.
Defined.
