(* ===== verification/VsockQueue.v ===== *)
(** * virtio-vsock: split-virtqueue traversal over guest memory

    Models [crates/virtio-vsock/src/queue.rs]: [SplitQueue] pops descriptor
    chains from the available ring and completes them on the used ring, through
    the [GuestRam] trait (here [GuestMem QueueError]). Ring addresses are
    guest-controlled [u64]s; the additions on them wrap, as they do in a build
    without overflow checks. *)

From S2P Require Import Prelude GuestMemory VirtioQueue Mmio.

Definition VIRTQ_DESC_F_NEXT : Z := 1.
Definition VIRTQ_DESC_F_WRITE : Z := 2.
Definition VIRTQ_DESC_F_INDIRECT : Z := 4.
Definition DESC_ENTRY_LEN : Z := 16.
Definition USED_ENTRY_LEN : Z := 8.
Definition MAX_QUEUE_SIZE : Z := Z.shiftl 1 15.

Inductive QueueError : Type :=
| OutOfBounds (gpa : Z) (len : nat)
| BadDescriptor (idx : Z)
| ChainTooLong
| IndirectUnsupported.

Module Descriptor.
Record t : Type := mk { addr : Z; len : Z; writable : bool }.
End Descriptor.

Module DescChain.
Record t : Type := mk { head : Z; descriptors : list Descriptor.t }.

(** [self.descriptors.iter().filter(|d| !d.writable)], and its counterpart. *)
Definition readables (c : t) : list Descriptor.t :=
  List.filter (fun d => negb (Descriptor.writable d)) (descriptors c).
Definition writables (c : t) : list Descriptor.t :=
  List.filter Descriptor.writable (descriptors c).

Definition readable_len (c : t) : Z := zsum (Descriptor.len <$> readables c).
Definition writable_len (c : t) : Z := zsum (Descriptor.len <$> writables c).

Section Access.
Context {M : Type} `{!GuestMem QueueError M}.

Fixpoint gather (mem : M) (ds : list Descriptor.t) (out : bytes) : result QueueError bytes :=
  match ds with
  | [] => Ok out
  | d :: ds =>
      scratch ← mem_read mem (Descriptor.addr d) (Z.to_nat (Descriptor.len d));
      gather mem ds (out ++ scratch)
  end.

Definition read_readable (c : t) (mem : M) : result QueueError bytes :=
  gather mem (readables c) [].

(** The loop of [write_writable]; [off] bytes of [src] are already written. *)
Fixpoint scatter (ds : list Descriptor.t) (src : bytes) (off : nat) : SM M QueueError nat :=
  match ds with
  | [] => mret off
  | d :: ds =>
      if (length src <=? off)%nat then mret off
      else
        let take := Nat.min (Z.to_nat (Descriptor.len d)) (length src - off) in
        _ ← (fun mem => mem_write mem (Descriptor.addr d) (slice src off take)) : SM M QueueError unit;
        scatter ds src (off + take)
  end.

Definition write_writable (c : t) (src : bytes) : SM M QueueError nat :=
  scatter (writables c) src 0.
End Access.
End DescChain.

Module SplitQueue.
Record t : Type := mk {
  size : Z;
  desc : Z;
  avail : Z;
  used : Z;
  next_avail : Z;
  next_used : Z;
}.

Definition new (cfg : QueueConfig.t) : option t :=
  if negb (QueueConfig.ready cfg) || (QueueConfig.size cfg =? 0)
     || (MAX_QUEUE_SIZE <? QueueConfig.size cfg)
     || negb (is_power_of_two (QueueConfig.size cfg))
  then None
  else Some {| size := wrap16 (QueueConfig.size cfg);
               desc := QueueConfig.desc cfg;
               avail := QueueConfig.driver cfg;
               used := QueueConfig.device cfg;
               next_avail := 0;
               next_used := 0 |}.

Definition set_next_avail (v : Z) (q : t) : t :=
  mk (size q) (desc q) (avail q) (used q) v (next_used q).
Definition set_next_used (v : Z) (q : t) : t :=
  mk (size q) (desc q) (avail q) (used q) (next_avail q) v.

Section Traversal.
Context {M : Type} `{!GuestMem QueueError M}.

Definition read_u16 (mem : M) (gpa : Z) : result QueueError Z :=
  b ← mem_read mem gpa 2; Ok (from_le b).
Definition read_u32 (mem : M) (gpa : Z) : result QueueError Z :=
  b ← mem_read mem gpa 4; Ok (from_le b).
Definition read_u64 (mem : M) (gpa : Z) : result QueueError Z :=
  b ← mem_read mem gpa 8; Ok (from_le b).

Definition write_u16 (gpa v : Z) (mem : M) : result QueueError unit * M :=
  mem_write mem gpa (to_le 2 v).
Definition write_u32 (gpa v : Z) (mem : M) : result QueueError unit * M :=
  mem_write mem gpa (to_le 4 v).

(** The [for _ in 0..self.size] loop: [fuel] iterations are left. *)
Fixpoint collect_loop (q : t) (mem : M) (fuel : nat) (idx : Z) (out : list Descriptor.t)
  : result QueueError (list Descriptor.t) :=
  match fuel with
  | O => Err ChainTooLong
  | S fuel =>
      if size q <=? idx then Err (BadDescriptor idx)
      else
        let entry := wrap64 (desc q + DESC_ENTRY_LEN * idx) in
        addr ← read_u64 mem entry;
        len ← read_u32 mem (wrap64 (entry + 8));
        flags ← read_u16 mem (wrap64 (entry + 12));
        next ← read_u16 mem (wrap64 (entry + 14));
        if has_flag flags VIRTQ_DESC_F_INDIRECT then Err IndirectUnsupported
        else
          let out := out ++ [Descriptor.mk addr len (has_flag flags VIRTQ_DESC_F_WRITE)] in
          if negb (has_flag flags VIRTQ_DESC_F_NEXT) then Ok out
          else collect_loop q mem fuel next out
  end.

Definition collect_chain (q : t) (mem : M) (head : Z) : result QueueError (list Descriptor.t) :=
  collect_loop q mem (Z.to_nat (size q)) head [].

Definition pop_avail (mem : M) : SM t QueueError (option DescChain.t) := fun q =>
  match read_u16 mem (wrap64 (avail q + 2)) with
  | Err e => (Err e, q)
  | Ok avail_idx =>
      if next_avail q =? avail_idx then (Ok None, q)
      else
        let slot := next_avail q mod size q in
        match read_u16 mem (wrap64 (avail q + 4 + 2 * slot)) with
        | Err e => (Err e, q)
        | Ok head =>
            if size q <=? head then (Err (BadDescriptor head), q)
            else
              match collect_chain q mem head with
              | Err e => (Err e, q)
              | Ok descriptors =>
                  (Ok (Some (DescChain.mk head descriptors)),
                   set_next_avail (wrap16 (next_avail q + 1)) q)
              end
        end
  end.

(** The queue and guest memory change together. *)
Definition push_used (head len : Z) : SM (t * M) QueueError unit := fun '(q, mem) =>
  let slot := next_used q mod size q in
  let elem := wrap64 (used q + 4 + USED_ENTRY_LEN * slot) in
  match write_u32 elem head mem with
  | (Err e, mem) => (Err e, (q, mem))
  | (Ok _, mem) =>
      match write_u32 (wrap64 (elem + 4)) len mem with
      | (Err e, mem) => (Err e, (q, mem))
      | (Ok _, mem) =>
          let q := set_next_used (wrap16 (next_used q + 1)) q in
          let (r, mem) := write_u16 (wrap64 (used q + 2)) (next_used q) mem in
          (r, (q, mem))
      end
  end.
End Traversal.
Arguments pop_avail : simpl never.
Arguments push_used : simpl never.
End SplitQueue.

(** ** Chains in guest memory

    What the descriptor table in guest memory says, independently of how the
    code walks it: [walk q mem i ds] is a chain from descriptor [i] whose
    entries are [ds] and whose last entry has no [NEXT] flag. *)

Section Chains.
Context {M : Type} `{!GuestMem QueueError M}.
Implicit Types (q : SplitQueue.t) (mem : M).

Definition entry_at q mem (idx : Z) : result QueueError (Z * Z * Z * Z) :=
  let entry := wrap64 (SplitQueue.desc q + DESC_ENTRY_LEN * idx) in
  addr ← SplitQueue.read_u64 mem entry;
  len ← SplitQueue.read_u32 mem (wrap64 (entry + 8));
  flags ← SplitQueue.read_u16 mem (wrap64 (entry + 12));
  next ← SplitQueue.read_u16 mem (wrap64 (entry + 14));
  Ok (addr, len, flags, next).

Inductive walk q mem : Z -> list Descriptor.t -> Prop :=
| walk_last i addr len flags next :
    i < SplitQueue.size q ->
    entry_at q mem i = Ok (addr, len, flags, next) ->
    has_flag flags VIRTQ_DESC_F_INDIRECT = false ->
    has_flag flags VIRTQ_DESC_F_NEXT = false ->
    walk q mem i [Descriptor.mk addr len (has_flag flags VIRTQ_DESC_F_WRITE)]
| walk_next i addr len flags next ds :
    i < SplitQueue.size q ->
    entry_at q mem i = Ok (addr, len, flags, next) ->
    has_flag flags VIRTQ_DESC_F_INDIRECT = false ->
    has_flag flags VIRTQ_DESC_F_NEXT = true ->
    walk q mem next ds ->
    walk q mem i (Descriptor.mk addr len (has_flag flags VIRTQ_DESC_F_WRITE) :: ds).

Lemma collect_loop_step q mem fuel idx out :
  SplitQueue.collect_loop q mem (S fuel) idx out =
    if SplitQueue.size q <=? idx then Err (BadDescriptor idx)
    else
      '(addr, len, flags, next) ← entry_at q mem idx;
      if has_flag flags VIRTQ_DESC_F_INDIRECT then Err IndirectUnsupported
      else
        let out := out ++ [Descriptor.mk addr len (has_flag flags VIRTQ_DESC_F_WRITE)] in
        if negb (has_flag flags VIRTQ_DESC_F_NEXT) then Ok out
        else SplitQueue.collect_loop q mem fuel next out.
Proof.
  simpl. case_if; [done|]. unfold entry_at.
  repeat (match goal with
          | |- context [mbind _ (SplitQueue.read_u64 ?m ?a)] =>
              destruct (SplitQueue.read_u64 m a); [|done]
          | |- context [mbind _ (SplitQueue.read_u32 ?m ?a)] =>
              destruct (SplitQueue.read_u32 m a); [|done]
          | |- context [mbind _ (SplitQueue.read_u16 ?m ?a)] =>
              destruct (SplitQueue.read_u16 m a); [|done]
          end; simpl). done.
Qed.

Lemma collect_loop_sound q mem fuel : forall idx out ds,
  SplitQueue.collect_loop q mem fuel idx out = Ok ds ->
  exists tl, ds = out ++ tl /\ walk q mem idx tl /\ (length tl <= fuel)%nat.
Proof.
  induction fuel as [|fuel IH]; intros idx out ds; [done|].
  rewrite collect_loop_step. case_if; [done|].
  destruct (entry_at q mem idx) as [[[[addr len] flags] next]|] eqn:He; [|done]. simpl.
  case_if; [done|]. destruct (has_flag flags VIRTQ_DESC_F_NEXT) eqn:Hn; simpl.
  - intros (tl & -> & Hw & Hl)%IH. rewrite <- app_assoc. simpl.
    eexists. split; [done|]. split; [by eapply walk_next|simpl; lia].
  - intros [= <-]. eexists. split; [done|]. split; [by eapply walk_last|simpl; lia].
Qed.

Lemma collect_loop_complete q mem idx tl :
  walk q mem idx tl -> forall fuel out, (length tl <= fuel)%nat ->
  SplitQueue.collect_loop q mem fuel idx out = Ok (out ++ tl).
Proof.
  induction 1 as [i addr len flags next Hi He Hind Hn|i addr len flags next ds Hi He Hind Hn _ IH];
    intros fuel out Hf; (destruct fuel as [|fuel]; [simpl in Hf; lia|]);
    rewrite collect_loop_step; (case_if; [lia|]); rewrite He; simpl; rewrite Hind, Hn; simpl.
  - done.
  - rewrite IH by (simpl in Hf; lia). by rewrite <- app_assoc.
Qed.

Lemma collect_chain_walk q mem head ds :
  SplitQueue.collect_chain q mem head = Ok ds <->
  walk q mem head ds /\ (length ds <= Z.to_nat (SplitQueue.size q))%nat.
Proof.
  unfold SplitQueue.collect_chain. split.
  - by intros (tl & -> & ? & ?)%collect_loop_sound.
  - intros [Hw Hl]. by rewrite (collect_loop_complete _ _ _ _ Hw).
Qed.
End Chains.

(** ** The used ring as the driver reads it *)

Section UsedRing.
Implicit Types (bs : bytes) (size seen i : Z).

(** Bytes of a used ring of [size] entries: flags, index, elements. *)
Definition used_len size : nat := 4 + 8 * Z.to_nat size.

Definition used_idx bs : Z := from_le (slice bs 2 2).

Definition used_elem bs size i : Z * Z :=
  let off := (4 + 8 * Z.to_nat (i mod size))%nat in
  (from_le (slice bs off 4), from_le (slice bs (off + 4) 4)).

(** The completions published since the driver last looked, at index [seen]. *)
Definition used_view bs size seen : list (Z * Z) :=
  (fun k => used_elem bs size (seen + Z.of_nat k)) <$> seq 0 (Z.to_nat (wrap16 (used_idx bs - seen))).

(** The ring after each of the three stores of a completion. *)
Definition used_store1 bs size i head : bytes :=
  splice bs (4 + 8 * Z.to_nat (i mod size)) (to_le 4 head).
Definition used_store2 bs size i head len : bytes :=
  splice (used_store1 bs size i head) (4 + 8 * Z.to_nat (i mod size) + 4) (to_le 4 len).
Definition used_store3 bs size i head len : bytes :=
  splice (used_store2 bs size i head len) 2 (to_le 2 (wrap16 (i + 1))).

Section Stores.
Context (bs : bytes) (size i seen head len : Z).
Context (Hp : is_power_of_two size = true) (Hs : size <= MAX_QUEUE_SIZE).
Context (Hl : length bs = used_len size).
Context (Hi : used_idx bs = i) (Hseen : is_u16 seen) (Hfree : wrap16 (i - seen) < size).
Context (Hh : is_u32 head) (Hlen : is_u32 len).

Lemma used_size_pos : 0 < size.
Proof using Hp. by apply is_power_of_two_pos. Qed.

Lemma used_slot_bound j : 0 <= j mod size < size.
Proof. apply Z.mod_pos_bound, used_size_pos. Qed.

(** An entry the driver has not consumed yet is not the one being written. *)
Lemma used_pending_slot k :
  (k < Z.to_nat (wrap16 (i - seen)))%nat -> (seen + Z.of_nat k) mod size <> i mod size.
Proof.
  intros Hk Heq. pose proof used_size_pos. pose proof (wrap16_range (i - seen)).
  assert (Heq' : (i - seen - Z.of_nat k) mod size = 0).
  { replace (i - seen - Z.of_nat k) with (i - (seen + Z.of_nat k)) by lia.
    by rewrite Zminus_mod, Heq, Z.sub_diag, Zmod_0_l. }
  assert (Hw : (wrap16 (i - seen) - Z.of_nat k) mod size = 0).
  { rewrite Zminus_mod, wrap16_slot, <- Zminus_mod; [done|done|].
    etrans; [exact Hs|by vm_compute]. }
  rewrite Z.mod_small in Hw; lia.
Qed.
(** Offsets of the written slot and of any other. *)
Ltac slot_bounds j :=
  pose proof used_size_pos; pose proof (used_slot_bound i); pose proof (used_slot_bound j);
  unfold used_len in *; unfold used_store3, used_store2, used_store1.

Lemma used_stores_length :
  length (used_store1 bs size i head) = length bs /\
  length (used_store2 bs size i head len) = length bs /\
  length (used_store3 bs size i head len) = length bs.
Proof. slot_bounds 0. split_and!; len. Qed.

Lemma used_stores_idx :
  used_idx (used_store1 bs size i head) = i /\
  used_idx (used_store2 bs size i head len) = i /\
  used_idx (used_store3 bs size i head len) = wrap16 (i + 1).
Proof.
  slot_bounds 0. unfold used_idx.
  split_and!; slices; [exact Hi..|apply from_to_le16, wrap16_range].
Qed.

Lemma used_stores_other j :
  j mod size <> i mod size ->
  used_elem (used_store1 bs size i head) size j = used_elem bs size j /\
  used_elem (used_store2 bs size i head len) size j = used_elem bs size j /\
  used_elem (used_store3 bs size i head len) size j = used_elem bs size j.
Proof.
  intros Hne. slot_bounds j.
  assert (Z.to_nat (j mod size) <> Z.to_nat (i mod size)) by lia.
  unfold used_elem. split_and!; by slices.
Qed.

Lemma used_stores_new j :
  j mod size = i mod size -> used_elem (used_store3 bs size i head len) size j = (head, len).
Proof.
  intros He. slot_bounds j. unfold used_elem. rewrite He. slices.
  by rewrite !from_to_le32.
Qed.

(** A half-written completion is invisible; the index store publishes it. *)
Lemma used_stores_view :
  used_view (used_store1 bs size i head) size seen = used_view bs size seen /\
  used_view (used_store2 bs size i head len) size seen = used_view bs size seen /\
  used_view (used_store3 bs size i head len) size seen = used_view bs size seen ++ [(head, len)].
Proof.
  destruct used_stores_idx as (H1 & H2 & H3). unfold used_view. rewrite H1, H2, H3, Hi.
  assert (Hpend : forall (f : Z -> Z * Z) (g : Z -> Z * Z),
    (forall j, j mod size <> i mod size -> f j = g j) ->
    (fun k => f (seen + Z.of_nat k)) <$> seq 0 (Z.to_nat (wrap16 (i - seen))) =
    (fun k => g (seen + Z.of_nat k)) <$> seq 0 (Z.to_nat (wrap16 (i - seen)))).
  { intros f g Hfg. apply list_fmap_ext. intros k k' [-> Hk]%lookup_seq.
    apply Hfg, used_pending_slot. lia. }
  split_and!.
  - apply (Hpend (used_elem _ size)). intros j ?. by apply used_stores_other.
  - apply (Hpend (used_elem _ size)). intros j ?. by apply used_stores_other.
  - replace (Z.to_nat (wrap16 (wrap16 (i + 1) - seen))) with (S (Z.to_nat (wrap16 (i - seen)))).
    2: { assert (Hb : size <= 2 ^ 15) by exact Hs. ulia. }
    rewrite seq_S, fmap_app. f_equal.
    + apply (Hpend (used_elem _ size)). intros j ?. by apply used_stores_other.
    + simpl. f_equal. apply used_stores_new.
      rewrite <- (wrap16_slot size (seen + _)) by (done || (etrans; [exact Hs|by vm_compute])).
      rewrite <- (wrap16_slot size i) by (done || (etrans; [exact Hs|by vm_compute])).
      f_equal. ulia.
Qed.
End Stores.
End UsedRing.

Section MemoryLaws.
Context {M : Type} `{!GuestMem QueueError M, !GuestMemLaws QueueError M}.
Implicit Types (q : SplitQueue.t) (mem : M).

(** The used ring of [q] lies in guest RAM, without wrapping around, and holds
    [bs]; its index is the one the device will publish next. *)
Record used_ready q mem (bs : bytes) : Prop := {
  ready_pow2 : is_power_of_two (SplitQueue.size q) = true;
  ready_max : SplitQueue.size q <= MAX_QUEUE_SIZE;
  ready_base : 0 <= SplitQueue.used q;
  ready_top : SplitQueue.used q + Z.of_nat (used_len (SplitQueue.size q)) <= 2 ^ 64;
  ready_read : mem_read mem (SplitQueue.used q) (used_len (SplitQueue.size q)) = Ok bs;
  ready_idx : used_idx bs = SplitQueue.next_used q;
}.

Lemma push_used_stores q mem bs head len :
  used_ready q mem bs ->
  let n := used_len (SplitQueue.size q) in
  let u := SplitQueue.used q in
  let i := SplitQueue.next_used q in
  let size := SplitQueue.size q in
  let elem := wrap64 (u + 4 + USED_ENTRY_LEN * (i mod size)) in
  exists m1 m2 m3,
    SplitQueue.push_used head len (q, mem) =
      (Ok tt, (SplitQueue.set_next_used (wrap16 (i + 1)) q, m3)) /\
    SplitQueue.write_u32 elem head mem = (Ok tt, m1) /\
    SplitQueue.write_u32 (wrap64 (elem + 4)) len m1 = (Ok tt, m2) /\
    SplitQueue.write_u16 (wrap64 (u + 2)) (wrap16 (i + 1)) m2 = (Ok tt, m3) /\
    mem_read m1 u n = Ok (used_store1 bs size i head) /\
    mem_read m2 u n = Ok (used_store2 bs size i head len) /\
    mem_read m3 u n = Ok (used_store3 bs size i head len) /\
    (forall a k, a + Z.of_nat k <= u \/ u + Z.of_nat n <= a ->
       mem_read m3 a k = mem_read mem a k).
Proof.
  intros [Hp Hs Hb Ht Hr Hi] n u i size elem. fold u in Hb, Ht, Hr. fold n in Ht, Hr.
  assert (Hpos : 0 < size) by by apply is_power_of_two_pos.
  pose proof (Z.mod_pos_bound i size Hpos) as Hslot.
  set (off := (4 + 8 * Z.to_nat (i mod size))%nat).
  assert (Hoff : (off + 8 <= n)%nat) by (subst off n; unfold used_len; fold size; lia).
  destruct (mem_write_within mem u n bs off (to_le 4 head) Hr) as (m1 & Hw1 & Hr1); [len|].
  destruct (mem_write_within m1 u n _ (off + 4) (to_le 4 len) Hr1) as (m2 & Hw2 & Hr2); [len|].
  destruct (mem_write_within m2 u n _ 2 (to_le 2 (wrap16 (i + 1))) Hr2) as (m3 & Hw3 & Hr3);
    [len|].
  assert (Ha : elem = u + Z.of_nat off).
  { subst elem off. unfold USED_ENTRY_LEN. rewrite wrap64_small; [lia|]. unfold is_u64. lia. }
  assert (W1 : SplitQueue.write_u32 elem head mem = (Ok tt, m1)) by by rewrite Ha.
  assert (W2 : SplitQueue.write_u32 (wrap64 (elem + 4)) len m1 = (Ok tt, m2)).
  { rewrite Ha, wrap64_small by (unfold is_u64; lia).
    by replace (u + Z.of_nat off + 4) with (u + Z.of_nat (off + 4)) by lia. }
  assert (W3 : SplitQueue.write_u16 (wrap64 (u + 2)) (wrap16 (i + 1)) m2 = (Ok tt, m3)).
  { rewrite wrap64_small by (unfold is_u64; lia). exact Hw3. }
  exists m1, m2, m3. split_and!; [|exact W1|exact W2|exact W3|exact Hr1|exact Hr2|exact Hr3|].
  - unfold SplitQueue.push_used. fold i size u. fold elem. rewrite W1, W2. simpl.
    fold u i. by rewrite W3.
  - intros a k Hd.
    assert (Hz : forall j z, zlen (to_le j z) = Z.of_nat j)
      by (intros; unfold zlen; by rewrite to_le_length).
    rewrite (mem_read_write_frame _ _ _ _ _ a k Hw3) by (rewrite Hz; lia).
    rewrite (mem_read_write_frame _ _ _ _ _ a k Hw2) by (rewrite Hz; lia).
    apply (mem_read_write_frame _ _ _ _ _ a k Hw1). rewrite Hz. lia.
Qed.

(** ** Buffers *)

Lemma gather_app mem ds out :
  DescChain.gather mem ds out = (app out) <$> DescChain.gather mem ds [].
Proof.
  revert out. induction ds as [|d ds IH]; intros out; simpl; [by rewrite app_nil_r|].
  destruct (mem_read mem _ _) as [s|]; simpl; [|done].
  rewrite (IH (out ++ s)), (IH s). destruct (DescChain.gather mem ds []); simpl; [|done].
  by rewrite app_assoc.
Qed.

Lemma gather_cons mem d ds :
  DescChain.gather mem (d :: ds) [] =
    (s ← mem_read mem (Descriptor.addr d) (Z.to_nat (Descriptor.len d));
     app s <$> DescChain.gather mem ds []).
Proof. simpl. destruct (mem_read mem _ _); simpl; [apply gather_app|done]. Qed.

Lemma gather_zlen mem ds bs :
  Forall (fun d => 0 <= Descriptor.len d) ds -> DescChain.gather mem ds [] = Ok bs ->
  zlen bs = zsum (Descriptor.len <$> ds).
Proof.
  intros Hn. revert bs. induction Hn as [|d ds Hd _ IH]; intros bs; [by intros [= <-]|].
  rewrite gather_cons. destruct (mem_read mem _ _) as [s|] eqn:Hr; [|done]. simpl.
  destruct (DescChain.gather mem ds []) as [t|]; [|done]. intros [= <-].
  unfold zlen in *. rewrite length_app. specialize (IH t eq_refl).
  rewrite (mem_read_length _ _ _ _ Hr).  by rewrite Nat2Z.inj_add, IH, Z2Nat.id.
Qed.

(** Two buffers that share no byte. *)
Definition apart (d e : Descriptor.t) : Prop :=
  Descriptor.addr d + Descriptor.len d <= Descriptor.addr e \/
  Descriptor.addr e + Descriptor.len e <= Descriptor.addr d.

(** Every buffer of the list is apart from the ones after it, and no length is
    negative. *)
Fixpoint separated (ds : list Descriptor.t) : Prop :=
  match ds with
  | [] => True
  | d :: ds => 0 <= Descriptor.len d /\ Forall (apart d) ds /\ separated ds
  end.

Lemma separated_nonneg ds : separated ds -> Forall (fun d => 0 <= Descriptor.len d) ds.
Proof. induction ds as [|d ds IH]; [done|]. intros (? & _ & ?). constructor; auto. Qed.

(** A write inside one buffer does not show in the others. *)
Lemma gather_frame mem a src r mem' ds :
  mem_write mem a src = (r, mem') ->
  Forall (fun e => 0 <= Descriptor.len e /\
    (a + zlen src <= Descriptor.addr e \/ Descriptor.addr e + Descriptor.len e <= a)) ds ->
  DescChain.gather mem' ds [] = DescChain.gather mem ds [].
Proof.
  intros Hw. induction 1 as [|e ds [Hn Hd] _ IH]; [done|].
  rewrite !gather_cons, IH.
  by rewrite (mem_read_write_frame _ _ _ _ _ _ _ Hw) by lia.
Qed.

(** What one buffer [s] and the rest hold after the bytes of [src] from [off]
    were written across them. *)
Lemma scatter_bytes (src s rest : bytes) (off : nat) :
  (off <= length src)%nat ->
  let k := Nat.min (length s) (length src - off) in
  let n' := Nat.min (length src - (off + k)) (length rest) in
  let n := Nat.min (length src - off) (length (s ++ rest)) in
  splice s 0 (slice src off k) ++ slice src (off + k) n' ++ drop n' rest =
  slice src off n ++ drop n (s ++ rest).
Proof.
  intros Hoff k n' n. rewrite splice_0, slice_length by lia. subst n n' k.
  rewrite length_app. destruct (decide (length s <= length src - off)%nat) as [Hf|Hf].
  - rewrite (Nat.min_l (length s)) by done. rewrite (drop_ge s), app_nil_r by lia.
    rewrite app_assoc, slice_cat by done.
    replace (length s + Nat.min (length src - (off + length s)) (length rest))%nat
      with (Nat.min (length src - off) (length s + length rest)) by lia.
    f_equal. rewrite drop_app_ge by lia. f_equal. lia.
  - rewrite (Nat.min_r (length s)) by lia.
    replace (length src - (off + (length src - off)))%nat with 0%nat by lia.
    rewrite Nat.min_0_l, slice_0, drop_0, Nat.min_l by lia. simpl.
    rewrite <- app_assoc, drop_app_le by lia. done.
Qed.

Lemma scatter_gather ds : forall src off mem old,
  separated ds -> (off <= length src)%nat -> DescChain.gather mem ds [] = Ok old ->
  let n := Nat.min (length src - off) (length old) in
  exists mem', DescChain.scatter ds src off mem = (Ok (off + n)%nat, mem') /\
    DescChain.gather mem' ds [] = Ok (slice src off n ++ drop n old) /\
    (forall a k, Forall (fun d => apart d (Descriptor.mk a (Z.of_nat k) false)) ds ->
       mem_read mem' a k = mem_read mem a k).
Proof.
  induction ds as [|d ds IH]; intros src off mem old Hsep Hoff Hg n.
  { injection Hg as <-. exists mem. subst n. simpl. rewrite Nat.min_0_r, Nat.add_0_r.
    by rewrite slice_0, drop_nil. }
  destruct Hsep as (Hlen & Hap & Hsep). rewrite gather_cons in Hg.
  destruct (mem_read mem _ _) as [s|] eqn:Hr; [|done]. simpl in Hg.
  destruct (DescChain.gather mem ds []) as [rest|] eqn:Hg'; [|done]. injection Hg as <-.
  pose proof (mem_read_length _ _ _ _ Hr) as Hsl. cbn [DescChain.scatter].
  destruct (Nat.leb_spec (length src) off) as [Hle|Hlt].
  { exists mem. subst n. replace (length src - off)%nat with 0%nat by lia. cbn [Nat.min].
    rewrite Nat.add_0_r. split_and!; [done| |done].
    rewrite gather_cons, Hr. simpl. by rewrite Hg'. }
  set (take := Nat.min (Z.to_nat (Descriptor.len d)) (length src - off)).
  assert (Htk : length (slice src off take) = take) by (apply slice_length; lia).
  destruct (mem_write_within mem _ _ s 0 (slice src off take) Hr) as (m1 & Hw & Hr1); [lia|].
  rewrite Z.add_0_r in Hw.
  assert (Hg1 : DescChain.gather m1 ds [] = Ok rest).
  { rewrite <- Hg'. eapply gather_frame; [exact Hw|]. unfold zlen. rewrite Htk.
    apply separated_nonneg in Hsep. clear -Hap Hsep Hlen.
    induction Hap as [|e ds He Hap IH]; [done|]. inversion Hsep; subst.
    constructor; [|auto]. split; [done|]. unfold apart in He. subst take. lia. }
  destruct (IH src (off + take)%nat m1 rest Hsep ltac:(lia) Hg1) as (m2 & Hs2 & Hg2 & Hf2).
  exists m2. split_and!.
  - erewrite sm_bind_ok by exact Hw. rewrite Hs2. f_equal. f_equal.
    subst n. rewrite length_app. lia.
  - rewrite gather_cons.
    rewrite Hf2 by (eapply Forall_impl; [exact Hap|];
      intros e He; unfold apart in *; simpl; lia).
    rewrite Hr1. simpl. rewrite Hg2. simpl. f_equal.
    subst n take. rewrite <- Hsl. apply scatter_bytes. lia.
  - intros a k Hk. inversion Hk as [|? ? Hd Hk']; subst. rewrite Hf2 by done.
    apply (mem_read_write_frame _ _ _ _ _ _ _ Hw). unfold zlen. rewrite Htk.
    unfold apart in Hd. simpl in Hd. lia.
Qed.
End MemoryLaws.

(** ** Guest memory of the VMM

    [vm-kvm] hands the device [GuestRamMem], a newtype over the memory map of
    the [vm-memory] crate that turns every error into [OutOfBounds]. *)

Section GuestRamMem.
Context {E M : Type} `{!GuestMem E M, !GuestMemLaws E M}.

Definition GuestRamMem : GuestMem QueueError M := adapt_mem (fun gpa len _ => OutOfBounds gpa len).

Lemma GuestRamMem_laws : @GuestMemLaws QueueError M GuestRamMem.
Proof. apply adapt_mem_laws. Qed.
End GuestRamMem.

(** The same over the contiguous memory of [virtio-queue], for the examples. *)
#[export] Instance slice_ram : GuestMem QueueError SliceGuestMemory.t := GuestRamMem.
#[export] Instance slice_ram_laws : GuestMemLaws QueueError SliceGuestMemory.t := GuestRamMem_laws.

(** ** Properties *)

(** [pop_avail] hands out exactly what the driver published. It returns a
    chain if and only if the available index differs from the cursor, the ring
    slot of the cursor names a head inside the table, and the descriptors are
    the complete chain from that head, of at most [size] entries and without
    indirect ones; the cursor then advances by one modulo 2^16. It returns
    nothing exactly when the index equals the cursor, and in that case and on
    every error the queue is left as it was. *)
Theorem vsock_pop_avail_exact {M : Type} `{!GuestMem QueueError M}
  (q q' : SplitQueue.t) (mem : M) (head : Z) (ds : list Descriptor.t) :
  let avail_idx := SplitQueue.read_u16 mem (wrap64 (SplitQueue.avail q + 2)) in
  let ring_slot := wrap64 (SplitQueue.avail q + 4 +
                           2 * (SplitQueue.next_avail q mod SplitQueue.size q)) in
  (SplitQueue.pop_avail mem q = (Ok (Some (DescChain.mk head ds)), q') <->
     (exists i, avail_idx = Ok i /\ i <> SplitQueue.next_avail q) /\
     SplitQueue.read_u16 mem ring_slot = Ok head /\ head < SplitQueue.size q /\
     walk q mem head ds /\ (length ds <= Z.to_nat (SplitQueue.size q))%nat /\
     q' = SplitQueue.set_next_avail (wrap16 (SplitQueue.next_avail q + 1)) q) /\
  ((SplitQueue.pop_avail mem q).1 = Ok None <-> avail_idx = Ok (SplitQueue.next_avail q)) /\
  ((forall c, (SplitQueue.pop_avail mem q).1 <> Ok (Some c)) ->
   (SplitQueue.pop_avail mem q).2 = q).
Proof.
  intros avail_idx ring_slot. unfold SplitQueue.pop_avail. fold avail_idx ring_slot.
  destruct avail_idx as [i|e].
  2: { split_and!; [split; [done|by intros ((? & [=] & _) & _)]|by split|done]. }
  case_if.
  { split_and!; [split; [done|by intros ((? & [= <-] & ?) & _)]|split; [congruence|done]|done]. }
  destruct (SplitQueue.read_u16 mem ring_slot) as [h|e].
  2: { split_and!; [split; [done|by intros (_ & [=] & _)]|split; [done|congruence]|done]. }
  case_if.
  { split_and!; [split; [done|intros (_ & [= <-] & ? & _); lia]|split; [done|congruence]|done]. }
  destruct (SplitQueue.collect_chain q mem h) as [ds'|e] eqn:Hc.
  - pose proof (proj1 (collect_chain_walk q mem h ds') Hc) as [Hw Hl].
    split_and!; [split|split; [done|congruence]|intros Hn; by destruct (Hn (DescChain.mk h ds'))].
    + intros [= <- <- <-]. split_and!; eauto.
    + intros (_ & [= <-] & _ & Hw' & Hl' & ->).
      rewrite (proj2 (collect_chain_walk q mem h ds) (conj Hw' Hl')) in Hc. by simplify_eq.
  - split_and!; [split; [done|]|split; [done|congruence]|done].
    intros (_ & [= <-] & _ & Hw & Hl & _).
    by rewrite (proj2 (collect_chain_walk q mem h ds) (conj Hw Hl)) in Hc.
Qed.

(** A completion is published atomically. With fewer than [size]
    completions unread by the driver, [push_used] makes three stores; after
    each of the first two the driver, which trusts the index, still reads the
    completions it could read before, and after the last it reads the same ones
    followed by the new one, also when the index wraps. Memory outside the used
    ring is untouched and the device's index stays equal to the published one. *)
Theorem vsock_used_publication {M : Type} `{!GuestMem QueueError M, !GuestMemLaws QueueError M}
  (q : SplitQueue.t) (mem : M) (bs : bytes) (seen head len : Z) :
  used_ready q mem bs -> is_u16 seen -> is_u32 head -> is_u32 len ->
  wrap16 (SplitQueue.next_used q - seen) < SplitQueue.size q ->
  let size := SplitQueue.size q in
  let ring m := mem_read m (SplitQueue.used q) (used_len size) in
  let view m := (fun bs => used_view bs size seen) <$> ring m in
  let elem := wrap64 (SplitQueue.used q + 4 + USED_ENTRY_LEN * (SplitQueue.next_used q mod size)) in
  let next := wrap16 (SplitQueue.next_used q + 1) in
  exists m1 m2 m3 bs3,
    let q' := SplitQueue.set_next_used next q in
    SplitQueue.push_used head len (q, mem) = (Ok tt, (q', m3)) /\
    SplitQueue.write_u32 elem head mem = (Ok tt, m1) /\
    SplitQueue.write_u32 (wrap64 (elem + 4)) len m1 = (Ok tt, m2) /\
    SplitQueue.write_u16 (wrap64 (SplitQueue.used q + 2)) next m2 = (Ok tt, m3) /\
    view m1 = view mem /\ view m2 = view mem /\
    view m3 = (fun v => v ++ [(head, len)]) <$> view mem /\
    used_ready q' m3 bs3 /\
    (forall a k, a + Z.of_nat k <= SplitQueue.used q \/
                 SplitQueue.used q + Z.of_nat (used_len size) <= a ->
       mem_read m3 a k = mem_read mem a k).
Proof.
  intros Hready Hseen Hh Hlen Hfree size ring view elem next.
  destruct (push_used_stores q mem bs head len Hready)
    as (m1 & m2 & m3 & Hpush & W1 & W2 & W3 & H1 & H2 & H3 & Hf).
  destruct Hready as [Hp Hs Hb Ht Hr Hi].
  pose proof (mem_read_length _ _ _ _ Hr) as Hl.
  destruct (used_stores_view bs size (SplitQueue.next_used q) seen head len) as (V1 & V2 & V3);
    [done..|].
  destruct (used_stores_idx bs size (SplitQueue.next_used q) head len) as (_ & _ & I3); [done..|].
  exists m1, m2, m3, (used_store3 bs size (SplitQueue.next_used q) head len).
  unfold view, ring, size. rewrite H1, H2, H3, Hr. simpl. fold size.
  rewrite V1, V2, V3. by split_and!.
Qed.

(** Two completions on a queue of two entries whose index wraps from 65535. *)
Lemma vsock_used_publication_witness :
  let bs := to_le 2 0 ++ to_le 2 65535 ++ replicate 16 Byte.x00 in
  let mem := SliceGuestMemory.mk 4096 bs in
  let q := SplitQueue.mk 2 0 0 4096 0 65535 in
  exists m3, (SplitQueue.push_used 1 44 (q, mem)).2.2 = m3 /\
    (fun bs => used_view bs 2 65535) <$> mem_read (E := QueueError) m3 4096 20 = Ok [(1, 44)].
Proof.
  intros bs mem q.
  assert (Hready : used_ready q mem bs)
    by (split; vm_compute; reflexivity || discriminate).
  destruct (vsock_used_publication q mem bs 65535 1 44 Hready) as
    (m1 & m2 & m3 & bs3 & -> & _ & _ & _ & _ & _ & Hv & _);
    [vm_compute; split; discriminate || reflexivity..|vm_compute; reflexivity|].
  exists m3. split; [reflexivity|]. etransitivity; [exact Hv|vm_compute; reflexivity].
Defined.

(** Scatter and gather agree. Writing a packet into a chain whose writable
    buffers lie in guest memory and do not overlap always succeeds, reports the
    lesser of the packet's and the buffers' length, leaves in the buffers,
    read in order, exactly that prefix of the packet followed by their old
    contents, and changes no other byte of guest memory. Reading a chain
    returns exactly the bytes its readable buffers announce. *)
Theorem vsock_scatter_gather {M : Type} `{!GuestMem QueueError M, !GuestMemLaws QueueError M}
  (c : DescChain.t) (mem : M) (src old : bytes) :
  separated (DescChain.writables c) -> DescChain.gather mem (DescChain.writables c) [] = Ok old ->
  let n := Nat.min (length src) (length old) in
  exists mem',
    DescChain.write_writable c src mem = (Ok n, mem') /\
    zlen old = DescChain.writable_len c /\
    DescChain.gather mem' (DescChain.writables c) [] = Ok (take n src ++ drop n old) /\
    (forall a k, Forall (fun d => apart d (Descriptor.mk a (Z.of_nat k) false)) (DescChain.writables c) ->
       mem_read mem' a k = mem_read mem a k) /\
    (forall got, Forall (fun d => 0 <= Descriptor.len d) (DescChain.readables c) ->
       DescChain.read_readable c mem = Ok got -> zlen got = DescChain.readable_len c).
Proof.
  intros Hsep Hg n.
  destruct (scatter_gather _ src 0 mem old Hsep ltac:(lia) Hg) as (mem' & Hs & Hg' & Hf).
  rewrite Nat.sub_0_r, slice_from_0 in *. exists mem'. split_and!; [done| |done|done|].
  - eapply gather_zlen; [by apply separated_nonneg|done].
  - intros got Hn Hr. by eapply gather_zlen.
Qed.

(** A 5-byte packet into two buffers of 2 and 4 bytes. *)
Lemma vsock_scatter_gather_witness :
  let mem := SliceGuestMemory.mk 0 (replicate 16 Byte.x2e) in
  let c := DescChain.mk 0 [Descriptor.mk 8 2 true; Descriptor.mk 2 4 true] in
  let src := [Byte.x61; Byte.x62; Byte.x63; Byte.x64; Byte.x65] in
  exists mem', DescChain.write_writable c src mem = (Ok 5%nat, mem') /\
    DescChain.gather mem' (DescChain.writables c) [] = Ok (src ++ [Byte.x2e]).
Proof.
  intros mem c src.
  assert (Hsep : separated (DescChain.writables c)).
  { change (separated [Descriptor.mk 8 2 true; Descriptor.mk 2 4 true]).
    unfold separated. rewrite !Forall_cons, !Forall_nil. unfold apart. cbn. split_and!; done || lia. }
  destruct (vsock_scatter_gather c mem src (replicate 6 Byte.x2e) Hsep) as (m & Hw & _ & Hg & _);
    [vm_compute; reflexivity|].
  exists m. split; [exact Hw|exact Hg].
Defined.

