(* ===== verification/VsockDevice.v ===== *)
(** * virtio-vsock: the assembled device

    Models [crates/virtio-vsock/src/device.rs]: transport, connection table and
    queues put together. [process] drains the tx queue through the table and
    flushes the packets it produced, and the host's, onto the rx queue. The tx
    loop re-reads the driver's index on every iteration, so it takes fuel:
    [None] is "still running". The rx loop consumes one outbound packet per
    iteration and is structural in them. Guest memory is the caller's for the
    whole of one call: writes of a running guest fall between calls. *)

From S2P Require Import Prelude GuestMemory VirtioQueue Mmio VsockProto VsockTable VsockQueue.

Definition RX_QUEUE : nat := 0.
Definition TX_QUEUE : nat := 1.

Module OutPacket.
Record t : Type := mk { header : VsockHeader.t; payload : bytes }.
End OutPacket.

Module VsockDevice.

Record t : Type := mk {
  transport : MmioTransport.t;
  table : ConnectionTable.t;
  rx : option SplitQueue.t;
  tx : option SplitQueue.t;
  outbound : list OutPacket.t;
  inbound : list (ConnectionId * bytes);
  guest_cid : Z;
}.

Definition set_transport (v : MmioTransport.t) (d : t) : t :=
  mk v (table d) (rx d) (tx d) (outbound d) (inbound d) (guest_cid d).
Definition set_table (v : ConnectionTable.t) (d : t) : t :=
  mk (transport d) v (rx d) (tx d) (outbound d) (inbound d) (guest_cid d).
Definition set_rx (v : option SplitQueue.t) (d : t) : t :=
  mk (transport d) (table d) v (tx d) (outbound d) (inbound d) (guest_cid d).
Definition set_tx (v : option SplitQueue.t) (d : t) : t :=
  mk (transport d) (table d) (rx d) v (outbound d) (inbound d) (guest_cid d).
Definition set_outbound (v : list OutPacket.t) (d : t) : t :=
  mk (transport d) (table d) (rx d) (tx d) v (inbound d) (guest_cid d).
Definition set_inbound (v : list (ConnectionId * bytes)) (d : t) : t :=
  mk (transport d) (table d) (rx d) (tx d) (outbound d) v (guest_cid d).

Definition new (guest_cid : Z) (cfg : TableConfig) : t :=
  {| transport := MmioTransport.new_vsock guest_cid;
     table := ConnectionTable.new cfg;
     rx := None;
     tx := None;
     outbound := [];
     inbound := [];
     guest_cid := guest_cid |}.

Definition mmio_read (d : t) (offset : Z) (size : nat) : Z :=
  MmioTransport.read (transport d) offset size.

Definition mmio_write (offset : Z) (size : nat) (value : Z) (d : t) : option Z * t :=
  let (q, tr) := MmioTransport.take_notify (MmioTransport.write offset size value (transport d)) in
  (q, set_transport tr d).

Definition interrupt_asserted (d : t) : bool := MmioTransport.interrupt_asserted (transport d).

Definition listen (port : Z) (d : t) : bool * t :=
  let (b, tb) := ConnectionTable.listen port (table d) in (b, set_table tb d).

Definition unlisten (port : Z) (d : t) : bool * t :=
  let (b, tb) := ConnectionTable.unlisten port (table d) in (b, set_table tb d).

Definition send (id : ConnectionId) (data : bytes) (d : t) : bool * t :=
  if 2 ^ 32 <=? zlen data then (false, d)
  else
    let (h, tb) := ConnectionTable.prepare_data id (zlen data) (table d) in
    let d := set_table tb d in
    match h with
    | Some header => (true, set_outbound (outbound d ++ [OutPacket.mk header data]) d)
    | None => (false, d)
    end.

Definition recv (d : t) : option (ConnectionId * bytes) * t :=
  match inbound d with
  | [] => (None, d)
  | x :: rest => (Some x, set_inbound rest d)
  end.

(** The iteration order of the table's map is an argument, see [VsockTable]. *)
Definition established_connection (order : list (ConnectionId * Connection.t))
  : option ConnectionId :=
  ConnectionTable.first_established order.

Definition pending_outbound (d : t) : nat := length (outbound d).

(** One side of [sync_queues]: build the queue once it is ready. *)
Definition sync_queue (cur : option SplitQueue.t) (tr : MmioTransport.t) (index : nat)
  : option SplitQueue.t :=
  match cur with
  | Some q => Some q
  | None =>
      match MmioTransport.queue tr index with
      | Some cfg => SplitQueue.new cfg
      | None => None
      end
  end.

Definition sync_queues (d : t) : t :=
  if MmioTransport.status (transport d) =? 0 then
    {| transport := transport d; table := table d; rx := None; tx := None;
       outbound := []; inbound := []; guest_cid := guest_cid d |}
  else
    let d := set_rx (sync_queue (rx d) (transport d) RX_QUEUE) d in
    set_tx (sync_queue (tx d) (transport d) TX_QUEUE) d.

(** [raw.get(start..end).unwrap_or(&[])] *)
Definition get_range (raw : bytes) (start stop : Z) : bytes :=
  if (start <=? stop) && (stop <=? zlen raw)
  then slice raw (Z.to_nat start) (Z.to_nat (stop - start)) else [].

Definition handle_guest_packet (raw : bytes) (d : t) : t :=
  match VsockHeader.from_bytes raw with
  | Err _ => d
  | Ok hdr =>
      let (reply, tb) := ConnectionTable.dispatch hdr (table d) in
      let d := set_table tb d in
      match reply with
      | Send header => set_outbound (outbound d ++ [OutPacket.mk header []]) d
      | DeliverPayload conn_id n =>
          let start := VSOCK_HDR_LEN in
          let stop := Z.min (start + n) (2 ^ 64 - 1) in
          set_inbound (inbound d ++ [(conn_id, get_range raw start stop)]) d
      | NoReply => d
      end
  end.

Section Processing.
Context {M : Type} `{!GuestMem QueueError M}.

(** The loop of [drain_tx], with the queue taken out of the device. *)
Fixpoint drain_loop (fuel : nat) (tx : SplitQueue.t) (d : t) (mem : M) (completed : bool)
  : option (result QueueError unit * bool * SplitQueue.t * t * M) :=
  match fuel with
  | O => None
  | S fuel =>
      match SplitQueue.pop_avail mem tx with
      | (Ok (Some chain), tx) =>
          match DescChain.read_readable chain mem with
          | Ok raw =>
              let d := handle_guest_packet raw d in
              match SplitQueue.push_used (DescChain.head chain) 0 (tx, mem) with
              | (Err e, (tx, mem)) => Some (Err e, completed, tx, d, mem)
              | (Ok _, (tx, mem)) => drain_loop fuel tx d mem true
              end
          | Err e => Some (Err e, completed, tx, d, mem)
          end
      | (Ok None, tx) => Some (Ok tt, completed, tx, d, mem)
      | (Err e, tx) => Some (Err e, completed, tx, d, mem)
      end
  end.

Definition drain_tx (fuel : nat) (d : t) (mem : M) : option (result QueueError bool * t * M) :=
  match tx d with
  | None => Some (Ok false, d, mem)
  | Some q =>
      match drain_loop fuel q (set_tx None d) mem false with
      | None => None
      | Some (outcome, completed, q, d, mem) =>
          Some (outcome ≫= (fun _ => Ok completed), set_tx (Some q) d, mem)
      end
  end.

(** The loop of [flush_rx] on the packets still to send; it returns the ones
    left in the queue. *)
Fixpoint flush_loop (out : list OutPacket.t) (rx : SplitQueue.t) (mem : M) (completed : bool)
  : result QueueError unit * bool * list OutPacket.t * SplitQueue.t * M :=
  match out with
  | [] => (Ok tt, completed, [], rx, mem)
  | pkt :: rest =>
      match SplitQueue.pop_avail mem rx with
      | (Ok (Some chain), rx) =>
          let buf := VsockHeader.to_bytes (OutPacket.header pkt) ++ OutPacket.payload pkt in
          match DescChain.write_writable chain buf mem with
          | (Ok written, mem) =>
              match SplitQueue.push_used (DescChain.head chain) (wrap32 (Z.of_nat written)) (rx, mem) with
              | (Err e, (rx, mem)) => (Err e, completed, rest, rx, mem)
              | (Ok _, (rx, mem)) => flush_loop rest rx mem true
              end
          | (Err e, mem) => (Err e, completed, rest, rx, mem)
          end
      | (Ok None, rx) => (Ok tt, completed, pkt :: rest, rx, mem)
      | (Err e, rx) => (Err e, completed, pkt :: rest, rx, mem)
      end
  end.

Definition flush_rx (d : t) (mem : M) : result QueueError bool * t * M :=
  match rx d with
  | None => (Ok false, d, mem)
  | Some q =>
      let '(outcome, completed, out, q, mem) := flush_loop (outbound d) q mem false in
      (outcome ≫= (fun _ => Ok completed), set_rx (Some q) (set_outbound out d), mem)
  end.

Definition process (fuel : nat) (d : t) (mem : M) : option (result QueueError bool * t * M) :=
  let d := sync_queues d in
  match drain_tx fuel d mem with
  | None => None
  | Some (Err e, d, mem) => Some (Err e, d, mem)
  | Some (Ok completed, d, mem) =>
      match flush_rx d mem with
      | (Err e, d, mem) => Some (Err e, d, mem)
      | (Ok more, d, mem) =>
          let completed := completed || more in
          Some (Ok completed,
                if completed then set_transport (MmioTransport.raise_interrupt (transport d)) d
                else d, mem)
      end
  end.
End Processing.
End VsockDevice.

(** ** Queues keep their shape *)

(** The ring addresses and size, fixed when the queue is built. *)
Definition rings (q : SplitQueue.t) : Z * Z * Z * Z :=
  (SplitQueue.size q, SplitQueue.desc q, SplitQueue.avail q, SplitQueue.used q).

Record queue_wf (q : SplitQueue.t) : Prop := {
  wf_pow2 : is_power_of_two (SplitQueue.size q) = true;
  wf_max : SplitQueue.size q <= MAX_QUEUE_SIZE;
  wf_next_avail : is_u16 (SplitQueue.next_avail q);
  wf_next_used : is_u16 (SplitQueue.next_used q);
}.

Lemma splitqueue_new_wf cfg q : SplitQueue.new cfg = Some q -> queue_wf q.
Proof.
  unfold SplitQueue.new. case_if; [done|].
  repeat (apply orb_false_iff in Heqb as [Heqb ?]). bool_to_prop.
  intros [= <-].
  assert (Hs : wrap16 (QueueConfig.size cfg) = QueueConfig.size cfg).
  { pose proof (is_power_of_two_pos (QueueConfig.size cfg) ltac:(done)).
    apply wrap16_small. change MAX_QUEUE_SIZE with 32768 in *. unfold is_u16. lia. }
  split; simpl; rewrite ?Hs; try done; ulia.
Qed.

Section QueueShape.
Context {M : Type} `{!GuestMem QueueError M}.
Implicit Types (q : SplitQueue.t) (mem : M).

Lemma pop_avail_shape mem q :
  queue_wf q ->
  queue_wf (SplitQueue.pop_avail mem q).2 /\ rings (SplitQueue.pop_avail mem q).2 = rings q.
Proof.
  intros Hq. unfold SplitQueue.pop_avail.
  repeat (case_match; simpl; try done). destruct Hq. split; [split; try done|done].
  apply wrap16_range.
Qed.

Lemma push_used_shape head len q mem :
  queue_wf q ->
  let q' := (SplitQueue.push_used head len (q, mem)).2.1 in
  queue_wf q' /\ rings q' = rings q /\ SplitQueue.next_avail q' = SplitQueue.next_avail q.
Proof.
  intros Hq. unfold SplitQueue.push_used.
  destruct (SplitQueue.write_u32 _ head mem) as [[]]; [|done].
  destruct (SplitQueue.write_u32 _ len _) as [[]]; [|done].
  destruct (SplitQueue.write_u16 _ _ _) as [r mem3]. simpl. destruct Hq.
  split_and!; try done. split; try done. apply wrap16_range.
Qed.

(** What a successful pop and push do to the cursors. *)
Lemma pop_avail_next mem q c q' :
  SplitQueue.pop_avail mem q = (Ok (Some c), q') ->
  q' = SplitQueue.set_next_avail (wrap16 (SplitQueue.next_avail q + 1)) q.
Proof. unfold SplitQueue.pop_avail. repeat case_match; intros [=]; by subst. Qed.

Lemma pop_avail_idle mem q r q' :
  SplitQueue.pop_avail mem q = (r, q') -> (forall c, r <> Ok (Some c)) -> q' = q.
Proof. unfold SplitQueue.pop_avail. intros Hp Hn. repeat case_match; simplify_eq; try done. by edestruct Hn. Qed.

Lemma push_used_next head len q mem q' mem' :
  SplitQueue.push_used head len (q, mem) = (Ok tt, (q', mem')) ->
  q' = SplitQueue.set_next_used (wrap16 (SplitQueue.next_used q + 1)) q.
Proof.
  unfold SplitQueue.push_used. destruct (SplitQueue.write_u32 _ head mem) as [[]]; [|done].
  destruct (SplitQueue.write_u32 _ len _) as [[]]; [|done].
  by destruct (SplitQueue.write_u16 _ _ _) as [r mem3]; intros [= -> <- <-].
Qed.
End QueueShape.

(** ** The device invariant *)

Section DeviceInvariant.
Import VsockDevice.
Implicit Types (d : t) (p : OutPacket.t).

Definition endpoint_wf (e : Endpoint) : Prop := is_u64 (cid e) /\ is_u32 (port e).
Definition id_wf (i : ConnectionId) : Prop := endpoint_wf (local i) /\ endpoint_wf (remote i).

(** A packet the guest can decode: a well-formed header announcing exactly the
    payload that follows it. *)
Definition packet_ok p : Prop :=
  VsockHeader.wf (OutPacket.header p) /\
  VsockHeader.len (OutPacket.header p) = zlen (OutPacket.payload p).

Record device_ok d : Prop := {
  dev_mmio : mmio_ok (transport d);
  dev_idle : MmioTransport.pending_notify (transport d) = None;
  dev_table : table_ok (table d);
  dev_buf : is_u32 (default_buf_alloc (ConnectionTable.cfg (table d)));
  dev_ids : map_Forall (fun i (_ : phase) => id_wf i) (abs (table d));
  dev_rx : from_option queue_wf True (rx d);
  dev_tx : from_option queue_wf True (tx d);
  dev_outbound : Forall packet_ok (outbound d);
}.

Lemma header_wf_id hdr : VsockHeader.wf hdr -> id_wf (incoming_id hdr).
Proof. intros (? & ? & ? & ? & _). unfold id_wf, endpoint_wf. simpl. by split_and!. Qed.

Lemma control_reply_wf op hdr flags buf :
  VsockHeader.wf hdr -> is_u32 flags -> is_u32 buf ->
  VsockHeader.wf (control_reply op hdr flags buf).
Proof. intros (? & ? & ? & ? & ? & ? & ? & ?) ? ?. unfold VsockHeader.wf. simpl. split_and!; try done; ulia. Qed.

Lemma data_header_wf i n buf :
  id_wf i -> is_u32 n -> is_u32 buf -> VsockHeader.wf (data_header i n buf).
Proof. intros [[? ?] [? ?]] ? ?. unfold VsockHeader.wf. simpl. split_and!; try done; ulia. Qed.

Lemma spec_dispatch_ids L hdr m :
  VsockHeader.wf hdr -> map_Forall (fun i (_ : phase) => id_wf i) m ->
  map_Forall (fun i (_ : phase) => id_wf i) (spec_dispatch L hdr m).2.
Proof.
  intros Hh Hm. unfold spec_dispatch. repeat (case_match; simpl; try done);
    first [ by apply map_Forall_delete
          | apply map_Forall_insert_2; [by apply header_wf_id|done] ].
Qed.

Lemma spec_deliver_len L hdr m n m' :
  spec_dispatch L hdr m = (Deliver n, m') -> n = VsockHeader.len hdr.
Proof. unfold spec_dispatch. repeat case_match; by intros [= <- _]. Qed.

Lemma get_range_payload raw n :
  is_u32 n ->
  get_range raw VSOCK_HDR_LEN (Z.min (VSOCK_HDR_LEN + n) (2 ^ 64 - 1)) =
    if 44 + n <=? zlen raw then slice raw 44 (Z.to_nat n) else [].
Proof.
  intros Hn. unfold get_range, VSOCK_HDR_LEN. rewrite Z.min_l by ulia.
  rewrite (proj2 (Z.leb_le 44 (44 + n))) by ulia. simpl.
  case_if; [|done]. f_equal. lia.
Qed.

(** What handling one packet does, in terms of the table's specification. *)
Lemma handle_guest_packet_spec raw hdr d :
  table_ok (table d) -> VsockHeader.from_bytes raw = Ok hdr ->
  let cfg := ConnectionTable.cfg (table d) in
  let (o, m') := spec_dispatch (ConnectionTable.listening (table d)) hdr (abs (table d)) in
  let d' := handle_guest_packet raw d in
  abs (table d') = m' /\ table_ok (table d') /\ ConnectionTable.cfg (table d') = cfg /\
  ConnectionTable.listening (table d') = ConnectionTable.listening (table d) /\
  transport d' = transport d /\ rx d' = rx d /\ tx d' = tx d /\ guest_cid d' = guest_cid d /\
  outbound d' = outbound d ++
    match o with
    | Accept => [OutPacket.mk (control_reply Response hdr 0 (default_buf_alloc cfg)) []]
    | Reset => [OutPacket.mk (control_reply Rst hdr (VsockHeader.flags hdr) 0) []]
    | _ => []
    end /\
  inbound d' = inbound d ++
    match o with
    | Deliver n => [(incoming_id hdr, if 44 + n <=? zlen raw then slice raw 44 (Z.to_nat n) else [])]
    | _ => []
    end.
Proof.
  intros Hok Hh cfg. unfold handle_guest_packet. rewrite Hh.
  pose proof (dispatch_sim hdr (table d) Hok) as Hs.
  destruct (ConnectionTable.dispatch hdr (table d)) as [r tb].
  destruct (spec_dispatch _ hdr _) as [o m'] eqn:Hsp. destruct Hs as (-> & Ha & Hok' & Hcfg & Hl).
  destruct o; simpl; rewrite ?app_nil_r; split_and!; try done.
  apply spec_deliver_len in Hsp as ->. do 3 f_equal. apply get_range_payload.
  by destruct (proj1 (hdr_encode_decode _ _ Hh)) as (? & ? & ? & ? & ? & _).
Qed.
End DeviceInvariant.

(** ** Every operation keeps the invariant *)

Section DeviceSteps.
Import VsockDevice.
Context {M : Type} `{!GuestMem QueueError M}.
Implicit Types (d : t) (mem : M).

(** One call on the device. Guest memory is whatever the guest made of it, so
    [process] may run on any memory. *)
Inductive dev_step : t -> t -> Prop :=
| step_mmio_write d off n v : dev_step d (mmio_write off n v d).2
| step_listen d p : dev_step d (listen p d).2
| step_unlisten d p : dev_step d (unlisten p d).2
| step_send d i data : dev_step d (send i data d).2
| step_recv d : dev_step d (recv d).2
| step_process d fuel mem r d' mem' :
    process fuel d mem = Some (r, d', mem') -> dev_step d d'.

Lemma handle_guest_packet_ok raw d : device_ok d -> device_ok (handle_guest_packet raw d).
Proof.
  intros Hd. destruct (VsockHeader.from_bytes raw) as [hdr|e] eqn:Hh.
  2: { unfold handle_guest_packet. by rewrite Hh. }
  destruct (hdr_encode_decode _ _ Hh) as [Hwf _]. destruct Hd.
  pose proof (handle_guest_packet_spec raw hdr d dev_table0 Hh) as Hs. cbv zeta in Hs.
  pose proof (spec_dispatch_ids (ConnectionTable.listening (table d)) hdr _ Hwf dev_ids0) as Hids.
  destruct (spec_dispatch _ hdr _) as [o m']. simpl in Hids.
  destruct Hs as (Ha & Hok & Hcfg & _ & Htr & Hrx & Htx & _ & Hout & _).
  split; rewrite ?Ha, ?Hcfg, ?Htr, ?Hrx, ?Htx, ?Hout; try done.
  apply Forall_app. split; [done|].
  pose proof Hwf as (_ & _ & _ & _ & _ & ? & _).
  destruct o; [apply Forall_singleton; split; [apply control_reply_wf|]..|done|done];
    done || ulia.
Qed.

Lemma drain_loop_ok fuel : forall q d mem c r c' q' d' mem',
  drain_loop fuel q d mem c = Some (r, c', q', d', mem') ->
  queue_wf q -> device_ok d -> queue_wf q' /\ device_ok d' /\ rings q' = rings q /\
  transport d' = transport d /\ rx d' = rx d.
Proof.
  induction fuel as [|fuel IH]; intros q d mem c r c' q' d' mem'; simpl; [done|].
  intros H Hq Hd. pose proof (pop_avail_shape mem q Hq) as [Hq1 Hr1].
  destruct (SplitQueue.pop_avail mem q) as [[[chain|]|e] q1]; simpl in *; [|by inversion H; subst..].
  destruct (DescChain.read_readable chain mem) as [raw|e]; [|by inversion H; subst].
  pose proof (handle_guest_packet_ok raw d Hd) as Hd1.
  assert (Hfix : transport (handle_guest_packet raw d) = transport d /\
                 rx (handle_guest_packet raw d) = rx d).
  { unfold handle_guest_packet. repeat case_match; done. }
  pose proof (push_used_shape (DescChain.head chain) 0 q1 mem Hq1) as (Hq2 & Hr2 & _).
  destruct (SplitQueue.push_used _ _ _) as [[[]|e] [q2 mem2]]; simpl in *.
  - destruct Hfix as [Ht Hx]. apply IH in H as (? & ? & Hr' & Ht' & Hx'); [|done..].
    split_and!; congruence.
  - inversion H; subst. destruct Hfix. split_and!; congruence || done.
Qed.

Lemma flush_loop_ok out : forall q mem c r c' out' q' mem',
  flush_loop out q mem c = (r, c', out', q', mem') ->
  queue_wf q -> queue_wf q' /\ rings q' = rings q /\ exists k, out' = drop k out.
Proof.
  induction out as [|p out IH]; intros q mem c r c' out' q' mem'; simpl.
  { intros [=] Hq; subst. split_and!; try done. by exists 0%nat. }
  intros H Hq. pose proof (pop_avail_shape mem q Hq) as [Hq1 Hr1].
  destruct (SplitQueue.pop_avail mem q) as [[[chain|]|e] q1]; simpl in *;
    [|inversion H; subst; split_and!; try done; by exists 0%nat..].
  destruct (DescChain.write_writable _ _ _) as [[w|e] mem1];
    [|inversion H; subst; split_and!; try done; by exists 1%nat].
  pose proof (push_used_shape (DescChain.head chain) (wrap32 (Z.of_nat w)) q1 mem1 Hq1)
    as (Hq2 & Hr2 & _).
  destruct (SplitQueue.push_used _ _ _) as [[[]|e] [q2 mem2]]; simpl in *.
  - apply IH in H as (? & ? & k & ->); [|done]. split_and!; [done|congruence|]. by exists (S k).
  - inversion H; subst. split_and!; [done|congruence|]. by exists 1%nat.
Qed.

Lemma sync_queues_ok d : device_ok d -> device_ok (sync_queues d).
Proof.
  intros []. unfold sync_queues. case_if; [by split|].
  assert (Hs : forall cur i, from_option queue_wf True cur ->
            from_option queue_wf True (sync_queue cur (transport d) i)).
  { intros [q|] i Hq; simpl; [done|]. destruct (MmioTransport.queue _ i) as [cfg|]; [|done].
    destruct (SplitQueue.new cfg) eqn:Hn; [|done]. by apply splitqueue_new_wf in Hn. }
  split; simpl; auto.
Qed.

Lemma process_ok fuel d mem r d' mem' :
  process fuel d mem = Some (r, d', mem') -> device_ok d -> device_ok d'.
Proof.
  intros H Hd. apply sync_queues_ok in Hd. unfold process in H.
  set (d1 := sync_queues d) in *. clearbody d1.
  assert (Hdrain : forall r2 d2 mem2, drain_tx fuel d1 mem = Some (r2, d2, mem2) -> device_ok d2).
  { intros r2 d2 mem2. unfold drain_tx. destruct (tx d1) as [q|] eqn:Htx; [|by intros [= <- <- <-]].
    destruct (drain_loop _ _ _ _ _) as [[[[[o c] q'] d'']]|] eqn:Hl; [|done]. intros [= <- <- <-].
    pose proof (dev_tx _ Hd) as Hq. rewrite Htx in Hq.
    destruct (drain_loop_ok _ _ _ _ _ _ _ _ _ _ Hl Hq) as (Hq' & Hd'' & _);
      [by destruct Hd; split|]. by destruct Hd''; split. }
  assert (Hflush : forall d2 mem2 r3 d3 mem3, device_ok d2 ->
            flush_rx d2 mem2 = (r3, d3, mem3) -> device_ok d3).
  { intros d2 mem2 r3 d3 mem3 Hd2. unfold flush_rx.
    destruct (rx d2) as [q|] eqn:Hrx; [|by intros [= <- <- <-]].
    destruct (flush_loop _ _ _ _) as [[[[o c] out] q'] mem''] eqn:Hl. intros [= <- <- <-].
    pose proof (dev_rx _ Hd2) as Hq. rewrite Hrx in Hq.
    destruct (flush_loop_ok _ _ _ _ _ _ _ _ _ Hl Hq) as (Hq' & _ & k & ->).
    destruct Hd2; split; simpl; try done. by apply Forall_drop. }
  destruct (drain_tx fuel d1 mem) as [[[[c|e] d2] mem2]|]; [| |done].
  - specialize (Hdrain _ _ _ eq_refl).
    destruct (flush_rx d2 mem2) as [[[more|e] d3] mem3] eqn:Hf; simplify_eq;
      apply (Hflush _ _ _ _ _ Hdrain) in Hf; [|done].
    case_if; [|done]. destruct Hf. split; simpl; try done.
    by apply (mmio_exec_ok MRaise).
  - simplify_eq. by eapply Hdrain.
Qed.

Lemma dev_step_ok d d' : dev_step d d' -> device_ok d -> device_ok d'.
Proof.
  destruct 1 as [d off n v|d p|d p|d i data|d|d fuel mem r d' mem' Hp]; intros Hd.
  - destruct Hd. split; simpl; try done.
    apply (mmio_exec_ok MTake). by apply (mmio_exec_ok (MWrite off n v)).
  - destruct Hd. by split.
  - destruct Hd. by split.
  - unfold send. case_if; [done|]. destruct Hd.
    pose proof (prepare_sim i (zlen data) (table d) dev_table0) as Hs.
    destruct (ConnectionTable.prepare_data _ _ _) as [h tb].
    destruct Hs as (-> & Ha & Hok & Hcfg & _).
    destruct (abs (table d) !! i) as [[]|] eqn:Hi; simpl;
      split; simpl; rewrite ?Ha, ?Hcfg; try done.
    apply Forall_app. split; [done|]. apply Forall_singleton. split; [|done].
    apply data_header_wf; [by apply (dev_ids0 _ _ Hi)|unfold is_u32, zlen in *; lia|done].
  - unfold recv. destruct Hd, (inbound d); by split.
  - by eapply process_ok.
Qed.

Lemma dev_reach_ok cid cfg d :
  is_u32 (default_buf_alloc cfg) -> rtc dev_step (new cid cfg) d -> device_ok d.
Proof.
  intros Hb Hr.
  assert (H0 : device_ok (new cid cfg)).
  { split; simpl; try done. apply new_vsock_ok. }
  clear Hb. induction Hr as [|d d1 d2 Hs _ IH]; [done|]. by eapply IH, dev_step_ok.
Qed.
End DeviceSteps.

(** ** Termination of the tx loop *)

Section Termination.
Import VsockDevice.
Context {M : Type} `{!GuestMem QueueError M, !GuestMemLaws QueueError M}.
Implicit Types (d : t) (mem : M) (q : SplitQueue.t).

(** The used ring does not wrap around the address space and does not cover the
    driver's available index. *)
Record rings_apart q : Prop := {
  apart_used : 0 <= SplitQueue.used q;
  apart_top : SplitQueue.used q + Z.of_nat (used_len (SplitQueue.size q)) <= 2 ^ 64;
  apart_avail : 0 <= SplitQueue.avail q /\ SplitQueue.avail q + 4 <= 2 ^ 64;
  apart_idx : SplitQueue.avail q + 4 <= SplitQueue.used q \/
              SplitQueue.used q + Z.of_nat (used_len (SplitQueue.size q)) <= SplitQueue.avail q + 2;
}.

Lemma rings_apart_eq q q' : rings q' = rings q -> rings_apart q -> rings_apart q'.
Proof. unfold rings. intros [= Hs _ Ha Hu] []. split; by rewrite ?Hs, ?Ha, ?Hu. Qed.

Lemma read_u16_range mem a i : SplitQueue.read_u16 mem a = Ok i -> is_u16 i.
Proof.
  unfold SplitQueue.read_u16. destruct (mem_read mem a 2) as [b|] eqn:Hr; [|done].
  intros [= <-]. apply (from_le_range 2). by eapply mem_read_length.
Qed.

(** Completing a buffer, successfully or not, writes only to the used ring. *)
Lemma push_used_frame head len q mem a n :
  queue_wf q -> 0 <= SplitQueue.used q ->
  SplitQueue.used q + Z.of_nat (used_len (SplitQueue.size q)) <= 2 ^ 64 ->
  a + Z.of_nat n <= SplitQueue.used q \/
    SplitQueue.used q + Z.of_nat (used_len (SplitQueue.size q)) <= a ->
  mem_read (SplitQueue.push_used head len (q, mem)).2.2 a n = mem_read mem a n.
Proof.
  intros [Hp _ _ _] Hu Ht Hd. apply is_power_of_two_pos in Hp.
  pose proof (Z.mod_pos_bound (SplitQueue.next_used q) _ Hp) as Hs.
  unfold used_len in *. unfold SplitQueue.push_used, USED_ENTRY_LEN.
  rewrite !(wrap64_small (SplitQueue.used q + 4 + _)) by (unfold is_u64; lia).
  rewrite !wrap64_small by (simpl; unfold is_u64; lia).
  unfold SplitQueue.write_u32, SplitQueue.write_u16.
  assert (Hz : forall j z, zlen (to_le j z) = Z.of_nat j)
    by (intros; unfold zlen; by rewrite to_le_length).
  destruct (mem_write mem _ _) as [r1 m1] eqn:H1.
  assert (E1 : mem_read m1 a n = mem_read mem a n)
    by (apply (mem_read_write_frame _ _ _ _ _ _ _ H1); rewrite Hz; lia).
  destruct r1; [|done]. destruct (mem_write m1 _ _) as [r2 m2] eqn:H2.
  assert (E2 : mem_read m2 a n = mem_read m1 a n)
    by (apply (mem_read_write_frame _ _ _ _ _ _ _ H2); rewrite Hz; lia).
  destruct r2; [|simpl; congruence].
  destruct (mem_write m2 _ _) as [r3 m3] eqn:H3. simpl in *.
  rewrite <- E1, <- E2. apply (mem_read_write_frame _ _ _ _ _ _ _ H3). rewrite Hz. lia.
Qed.

Lemma push_used_avail_idx head len q mem :
  queue_wf q -> rings_apart q ->
  SplitQueue.read_u16 (SplitQueue.push_used head len (q, mem)).2.2 (wrap64 (SplitQueue.avail q + 2)) =
  SplitQueue.read_u16 mem (wrap64 (SplitQueue.avail q + 2)).
Proof.
  intros Hq [Hu Ht Ha Hd]. unfold SplitQueue.read_u16.
  rewrite wrap64_small by (unfold is_u64; lia).
  by rewrite push_used_frame by (done || lia).
Qed.

(** Chains the driver has published and the device has not popped. *)
Definition backlog q mem : nat :=
  match SplitQueue.read_u16 mem (wrap64 (SplitQueue.avail q + 2)) with
  | Ok i => Z.to_nat (wrap16 (i - SplitQueue.next_avail q))
  | Err _ => 0
  end.

Lemma drain_loop_terminates fuel : forall q d mem c,
  queue_wf q -> rings_apart q -> (backlog q mem < fuel)%nat ->
  exists res, drain_loop fuel q d mem c = Some res.
Proof.
  induction fuel as [|fuel IH]; intros q d mem c Hq Hap Hf; [lia|]. cbn [drain_loop].
  destruct (SplitQueue.pop_avail mem q) as [[[chain|]|e] q1] eqn:Hpop; [|eauto..].
  pose proof (pop_avail_shape mem q Hq) as [Hq1 Hr1]. rewrite Hpop in Hq1, Hr1. simpl in Hq1, Hr1.
  destruct (DescChain.read_readable chain mem) as [raw|]; [|eauto].
  pose proof (push_used_shape (DescChain.head chain) 0 q1 mem Hq1) as (Hq2 & Hr2 & Hn2).
  pose proof (rings_apart_eq _ _ Hr1 Hap) as Hap1.
  pose proof (push_used_avail_idx (DescChain.head chain) 0 q1 mem Hq1 Hap1) as Hidx.
  destruct (SplitQueue.push_used _ _ _) as [[[]|] [q2 mem2]]; [|eauto]. simpl in *.
  apply IH; [done|by apply (rings_apart_eq q1)|].
  assert (Havail : SplitQueue.avail q2 = SplitQueue.avail q)
    by (unfold rings in Hr1, Hr2; congruence).
  assert (Havail1 : SplitQueue.avail q1 = SplitQueue.avail q) by (unfold rings in Hr1; congruence).
  unfold backlog in *. rewrite Havail, <- Havail1, Hidx, Havail1. rewrite Hn2.
  pose proof Hpop as Hnext. apply pop_avail_next in Hnext as ->. simpl.
  revert Hpop Hf. unfold SplitQueue.pop_avail.
  destruct (SplitQueue.read_u16 mem _) as [i|] eqn:Hi; [|done]. case_if; [done|]. intros _ Hf.
  apply read_u16_range in Hi. pose proof (wf_next_avail _ Hq). ulia.
Qed.

Lemma backlog_bound q mem : Z.of_nat (backlog q mem) < 2 ^ 16.
Proof.
  unfold backlog. destruct (SplitQueue.read_u16 mem _) as [i|]; [|lia].
  pose proof (wrap16_range (i - SplitQueue.next_avail q)). unfold is_u16 in *. lia.
Qed.

Lemma drain_tx_terminates fuel d mem :
  device_ok d -> from_option rings_apart True (tx d) -> 2 ^ 16 <= Z.of_nat fuel ->
  exists r d' mem', drain_tx fuel d mem = Some (r, d', mem') /\ device_ok d' /\
    transport d' = transport d.
Proof.
  intros Hok Hap Hf. unfold drain_tx. destruct (tx d) as [q|] eqn:Htx; [|eauto 6].
  pose proof (dev_tx _ Hok) as Hq. rewrite Htx in Hq.
  assert (Hd0 : device_ok (set_tx None d)) by by destruct Hok; split.
  pose proof (backlog_bound q mem).
  destruct (drain_loop_terminates fuel q (set_tx None d) mem false Hq Hap) as [res Hres]; [lia|].
  rewrite Hres. destruct res as [[[[o c] q'] d'] mem'].
  destruct (drain_loop_ok _ _ _ _ _ _ _ _ _ _ Hres Hq Hd0) as (Hq' & Hd' & _ & Ht & _).
  do 3 eexists. split; [reflexivity|]. split; [by destruct Hd'; split|done].
Qed.

(** ** The rx loop delivers in order *)

Lemma flush_loop_order out : forall q mem c c' out' q' mem',
  queue_wf q -> flush_loop out q mem c = (Ok tt, c', out', q', mem') ->
  exists k, (k <= length out)%nat /\ out' = drop k out /\
    SplitQueue.next_used q' = wrap16 (SplitQueue.next_used q + Z.of_nat k) /\
    SplitQueue.next_avail q' = wrap16 (SplitQueue.next_avail q + Z.of_nat k) /\
    c' = c || negb (k =? 0)%nat /\
    (out' = [] \/ (SplitQueue.pop_avail mem' q').1 = Ok None).
Proof.
  induction out as [|p out IH]; intros q mem c c' out' q' mem' Hq; simpl.
  { intros [=]; subst. exists 0%nat. destruct Hq. rewrite !Z.add_0_r, !wrap16_small by done.
    split_and!; try done; [|by left]. by rewrite orb_false_r. }
  pose proof (pop_avail_shape mem q Hq) as [Hq1 _].
  destruct (SplitQueue.pop_avail mem q) as [[[chain|]|e] q1] eqn:Hpop; simpl in Hq1; [| |done].
  2: { pose proof (pop_avail_idle _ _ _ _ Hpop ltac:(done)) as ->. intros [=]; subst.
       exists 0%nat. destruct Hq. rewrite !Z.add_0_r, !wrap16_small by done.
       split_and!; try done; [lia|by rewrite orb_false_r|]. right. by rewrite Hpop. }
  apply pop_avail_next in Hpop as ->.
  destruct (DescChain.write_writable _ _ _) as [[w|e] mem1]; [|done].
  pose proof (push_used_shape (DescChain.head chain) (wrap32 (Z.of_nat w)) _ mem1 Hq1) as (Hq2 & _).
  destruct (SplitQueue.push_used _ _ _) as [[[]|e] [q2 mem2]] eqn:Hpush; [|done].
  simpl in Hq2. apply push_used_next in Hpush as ->. intros H.
  destruct (IH _ _ _ _ _ _ _ Hq2 H) as (k & Hk & -> & Hu & Ha & -> & Hend).
  exists (S k). simpl in Hu, Ha. rewrite Hu, Ha, !wrap16_add_l.
  split_and!; [simpl; lia|done|f_equal; lia|f_equal; lia| |done].
  simpl. by rewrite orb_true_r.
Qed.
Lemma flush_rx_result d mem r d' mem' :
  device_ok d -> flush_rx d mem = (r, d', mem') ->
  transport d' = transport d /\
  (forall b, r = Ok b -> outbound d' = [] \/
     from_option (fun q => (SplitQueue.pop_avail mem' q).1 = Ok None) True (rx d')).
Proof.
  intros Hok. unfold flush_rx. destruct (rx d) as [q|] eqn:Hrx.
  2: { intros [= <- <- <-]. split; [done|]. right. by rewrite Hrx. }
  pose proof (dev_rx _ Hok) as Hq. rewrite Hrx in Hq.
  destruct (flush_loop _ _ _ _) as [[[[o c] out] q'] mem''] eqn:Hl. intros [= <- <- <-].
  split; [done|]. intros b Hb. destruct o as [[]|]; [|done].
  by apply flush_loop_order in Hl as (k & _ & _ & _ & _ & _ & Hend).
Qed.
End Termination.

(** ** One packet to the guest *)

Section Delivery.
Import VsockDevice.
Context {M : Type} `{!GuestMem QueueError M, !GuestMemLaws QueueError M}.
Implicit Types (mem : M) (q : SplitQueue.t).

Lemma gather_ext mem mem' ds :
  Forall (fun d => mem_read mem' (Descriptor.addr d) (Z.to_nat (Descriptor.len d)) =
                   mem_read mem (Descriptor.addr d) (Z.to_nat (Descriptor.len d))) ds ->
  DescChain.gather mem' ds [] = DescChain.gather mem ds [].
Proof. induction 1 as [|d ds Hd _ IH]; [done|]. by rewrite !gather_cons, Hd, IH. Qed.

Lemma pop_avail_head mem q c q' :
  SplitQueue.pop_avail mem q = (Ok (Some c), q') -> is_u16 (DescChain.head c).
Proof.
  unfold SplitQueue.pop_avail. destruct (SplitQueue.read_u16 mem _) as [i|]; [|done].
  case_if; [done|]. destruct (SplitQueue.read_u16 mem (wrap64 (_ + 4 + _))) as [h|] eqn:Hh; [|done].
  apply read_u16_range in Hh. case_if; [done|].
  by destruct (SplitQueue.collect_chain q mem h); intros [= <- <-].
Qed.

(** The writable buffers of a chain keep clear of the queue's used ring. *)
Definition clear_of_used q (d : Descriptor.t) : Prop :=
  Descriptor.addr d + Descriptor.len d <= SplitQueue.used q \/
  SplitQueue.used q + Z.of_nat (used_len (SplitQueue.size q)) <= Descriptor.addr d.

Lemma packet_bytes_length (p : OutPacket.t) :
  length (VsockHeader.to_bytes (OutPacket.header p) ++ OutPacket.payload p) =
    (44 + length (OutPacket.payload p))%nat.
Proof. rewrite hdr_to_bytes, length_app, hdr_fields_length. done. Qed.

Lemma packet_bytes_decode (p : OutPacket.t) rest :
  packet_ok p ->
  let got := (VsockHeader.to_bytes (OutPacket.header p) ++ OutPacket.payload p) ++ rest in
  VsockHeader.from_bytes got = Ok (OutPacket.header p) /\
  slice got 44 (length (OutPacket.payload p)) = OutPacket.payload p.
Proof.
  intros [Hwf _]. cbv zeta. rewrite hdr_to_bytes, <- app_assoc. split.
  - by apply hdr_decode_encode.
  - rewrite slice_app_r by by rewrite hdr_fields_length.
    rewrite hdr_fields_length, Nat.sub_diag, slice_from_0. apply take_app_length.
Qed.

Lemma deliver_one q mem bs (p : OutPacket.t) chain q1 old seen :
  packet_ok p -> zlen (OutPacket.payload p) < 2 ^ 32 - 44 ->
  SplitQueue.pop_avail mem q = (Ok (Some chain), q1) ->
  used_ready q mem bs -> is_u16 seen ->
  wrap16 (SplitQueue.next_used q - seen) < SplitQueue.size q ->
  separated (DescChain.writables chain) ->
  Forall (clear_of_used q) (DescChain.writables chain) ->
  DescChain.gather mem (DescChain.writables chain) [] = Ok old ->
  44 + zlen (OutPacket.payload p) <= zlen old ->
  exists q' mem' got bs',
    flush_loop [p] q mem false = (Ok tt, true, [], q', mem') /\
    DescChain.gather mem' (DescChain.writables chain) [] = Ok got /\
    VsockHeader.from_bytes got = Ok (OutPacket.header p) /\
    slice got 44 (length (OutPacket.payload p)) = OutPacket.payload p /\
    mem_read mem' (SplitQueue.used q) (used_len (SplitQueue.size q)) = Ok bs' /\
    used_view bs' (SplitQueue.size q) seen =
      used_view bs (SplitQueue.size q) seen ++
        [(DescChain.head chain, 44 + zlen (OutPacket.payload p))].
Proof.
  intros Hp Hsz Hpop Hready Hseen Hfree Hsep Hclear Hg Hcap.
  set (buf := VsockHeader.to_bytes (OutPacket.header p) ++ OutPacket.payload p).
  pose proof (packet_bytes_length p) as Hbl. fold buf in Hbl. unfold zlen in *.
  destruct (scatter_gather _ buf 0 mem old Hsep ltac:(lia) Hg) as (mem1 & Hs & Hg1 & Hf1).
  rewrite Nat.sub_0_r, Nat.min_l in Hs by lia.
  rewrite Nat.sub_0_r, slice_from_0, Nat.min_l in Hg1 by lia.
  rewrite take_ge in Hg1 by lia.
  pose proof (pop_avail_head _ _ _ _ Hpop) as Hhead.
  pose proof (pop_avail_next _ _ _ _ Hpop) as Hq1.
  assert (Hready1 : used_ready q1 mem1 bs).
  { destruct Hready as [? ? ? ? Hr ?]. rewrite Hq1. split; try done. simpl.
    rewrite Hf1; [done|]. eapply Forall_impl; [exact Hclear|]. intros d [?|?]; [left|right]; done. }
  set (n := Z.of_nat (length buf)).
  assert (Hn : is_u32 n) by (unfold is_u32, n; lia).
  destruct (push_used_stores q1 mem1 bs (DescChain.head chain) n Hready1)
    as (m1 & m2 & m3 & Hpush & _ & _ & _ & _ & _ & H3 & Hf3).
  destruct (used_stores_view bs (SplitQueue.size q) (SplitQueue.next_used q) seen
              (DescChain.head chain) n) as (_ & _ & V3);
    [by destruct Hready..|by eapply mem_read_length, Hready|by destruct Hready|done|done
    |unfold is_u16, is_u32 in *; lia|done|].
  subst q1. do 4 eexists. split; [|split; [|split; [|split; [|split]]]].
  - cbn [flush_loop]. rewrite Hpop. fold buf. unfold DescChain.write_writable. rewrite Hs.
    rewrite Nat.add_0_l, wrap32_small by done. fold n. rewrite Hpush. reflexivity.
  - rewrite <- Hg1. apply gather_ext. rewrite Forall_forall. intros d Hd. apply Hf3.
    rewrite Forall_forall in Hclear. apply Hclear in Hd as Hc.
    apply separated_nonneg in Hsep. rewrite Forall_forall in Hsep. apply Hsep in Hd.
    unfold clear_of_used in Hc. simpl. lia.
  - by apply packet_bytes_decode.
  - by apply packet_bytes_decode.
  - exact H3.
  - simpl. rewrite V3. do 3 f_equal. unfold n. rewrite Hbl. lia.
Qed.
End Delivery.

(** ** Properties *)

(** The device invariant holds in every state reachable from a new device
    by guest register writes, host calls and [process] runs on arbitrary guest
    memory: registers within their widths, at most [QUEUE_SIZE]-legal queues
    with 16-bit cursors, a connection table as specified, and, for the guest,
    every queued packet with a well-formed header that announces exactly its
    payload. A register write is reported as a kick exactly when it is one. *)
Theorem vsock_device_invariant {M : Type} `{!GuestMem QueueError M} guest_cid cfg d off n v :
  is_u32 (default_buf_alloc cfg) ->
  rtc (dev_step (M := M)) (VsockDevice.new guest_cid cfg) d ->
  device_ok d /\
  (VsockDevice.mmio_write off n v d).1 =
    (if off =? reg.QUEUE_NOTIFY then Some (wrap32 v) else None).
Proof.
  intros Hb Hr. pose proof (dev_reach_ok _ _ _ Hb Hr) as Hok. split; [done|].
  destruct Hok as [_ Hidle _ _ _ _ _ _]. by apply write_pending.
Qed.

Lemma vsock_device_invariant_witness :
  device_ok (VsockDevice.listen 52 (VsockDevice.new 3 TableConfig_default)).2.
Proof.
  refine (proj1 (vsock_device_invariant (M := SliceGuestMemory.t) 3 TableConfig_default _ 0 4 0 _ _)).
  - vm_compute; split; discriminate || reflexivity.
  - apply rtc_once, step_listen.
Defined.

(** C3: [process] terminates. If the used ring of the tx queue does not cover
    the driver's available index, 2^16 iterations are enough whatever the guest
    wrote, and on success the rx queue delivered a prefix of the queued packets
    in order, stopping only when all are out or no buffer is left, and the
    interrupt is raised exactly when the call reports a completed buffer. When
    the call fails the interrupt is never raised. *)
Theorem vsock_process_terminates {M : Type} `{!GuestMem QueueError M, !GuestMemLaws QueueError M}
  (fuel : nat) (d : VsockDevice.t) (mem : M) :
  device_ok d -> from_option rings_apart True (VsockDevice.tx (VsockDevice.sync_queues d)) ->
  2 ^ 16 <= Z.of_nat fuel ->
  exists r d' mem', VsockDevice.process fuel d mem = Some (r, d', mem') /\
    MmioTransport.interrupt_status (VsockDevice.transport d') =
      (let s := MmioTransport.interrupt_status (VsockDevice.transport d) in
       match r with Ok true => Z.lor s VIRTIO_MMIO_INT_VRING | _ => s end) /\
    (forall b, r = Ok b ->
       VsockDevice.outbound d' = [] \/
       from_option (fun q => (SplitQueue.pop_avail mem' q).1 = Ok None) True (VsockDevice.rx d')).
Proof.
  intros Hok Hap Hf. apply sync_queues_ok in Hok.
  assert (Htr : VsockDevice.transport (VsockDevice.sync_queues d) = VsockDevice.transport d)
    by (unfold VsockDevice.sync_queues; by case_if).
  rewrite <- Htr. unfold VsockDevice.process.
  set (d1 := VsockDevice.sync_queues d) in *. clearbody d1. clear Htr.
  destruct (drain_tx_terminates fuel d1 mem Hok Hap Hf) as (r & d2 & mem2 & -> & Hok2 & <-).
  destruct r as [c|e]; [|by exists (Err e), d2, mem2].
  destruct (VsockDevice.flush_rx d2 mem2) as [[r d3] mem3] eqn:Hfl.
  pose proof (flush_rx_result _ _ _ _ _ Hok2 Hfl) as [Htr3 Hend].
  destruct r as [more|e]; [|by exists (Err e), d3, mem3; rewrite Htr3].
  specialize (Hend more eq_refl).
  do 3 eexists. split; [reflexivity|]. rewrite <- Htr3. by destruct (c || more).
Qed.

(** A kick on a device whose driver published one chain with a connection
    request. *)
Lemma vsock_process_terminates_witness :
  let mem := SliceGuestMemory.mk 0 (replicate 256 Byte.x00) in
  let d := VsockDevice.set_tx (Some (SplitQueue.mk 2 0 64 128 0 0))
             (VsockDevice.set_transport (MmioTransport.set_status 15 (MmioTransport.new_vsock 3))
                (VsockDevice.new 3 TableConfig_default)) in
  exists r d' mem', VsockDevice.process (Z.to_nat 65536) d mem = Some (r, d', mem').
Proof.
  intros mem d.
  assert (Hok : device_ok d).
  { split; try done.
    exact (proj1 (mmio_exec_ok (MWrite reg.STATUS 4 15) _ (new_vsock_ok 3))). }
  assert (Hap : from_option rings_apart True (VsockDevice.tx (VsockDevice.sync_queues d))).
  { change (rings_apart (SplitQueue.mk 2 0 64 128 0 0)). split; unfold used_len; simpl; lia. }
  destruct (vsock_process_terminates (Z.to_nat 65536) d mem Hok Hap) as (r & d' & mem' & H & _);
    [lia|]. exists r, d', mem'. exact H.
Defined.

(** A packet from the guest is handled as the connection table specifies.
    A malformed one is dropped without effect; otherwise the table takes its
    specified step, at most one control reply is queued after the packets
    already waiting, and payload is handed to the host exactly when it is
    delivered: the announced bytes after the header, or none if the buffer is
    too short for them. *)
Theorem vsock_guest_packet raw d :
  table_ok (VsockDevice.table d) ->
  match VsockHeader.from_bytes raw with
  | Err _ => VsockDevice.handle_guest_packet raw d = d
  | Ok hdr =>
      let tb := VsockDevice.table d in
      let (o, m') := spec_dispatch (ConnectionTable.listening tb) hdr (abs tb) in
      let d' := VsockDevice.handle_guest_packet raw d in
      abs (VsockDevice.table d') = m' /\ table_ok (VsockDevice.table d') /\
      VsockDevice.outbound d' = VsockDevice.outbound d ++
        match o with
        | Accept => [OutPacket.mk (control_reply Response hdr 0
                       (default_buf_alloc (ConnectionTable.cfg tb))) []]
        | Reset => [OutPacket.mk (control_reply Rst hdr (VsockHeader.flags hdr) 0) []]
        | _ => []
        end /\
      VsockDevice.inbound d' = VsockDevice.inbound d ++
        match o with
        | Deliver n =>
            [(incoming_id hdr, if 44 + n <=? zlen raw then slice raw 44 (Z.to_nat n) else [])]
        | _ => []
        end
  end.
Proof.
  intros Hok. destruct (VsockHeader.from_bytes raw) as [hdr|e] eqn:Hh.
  - pose proof (handle_guest_packet_spec raw hdr d Hok Hh) as Hs. cbv zeta in *.
    destruct (spec_dispatch _ hdr _) as [o m'].
    destruct Hs as (? & ? & _ & _ & _ & _ & _ & _ & ? & ?). by split_and!.
  - unfold VsockDevice.handle_guest_packet. by rewrite Hh.
Qed.

(** A connection request to a listening port, as bytes, is answered by one
    queued response. *)
Lemma vsock_guest_packet_witness :
  let req := VsockHeader.mk 3 2 1024 52 0 Stream Request 0 100 0 in
  let d := (VsockDevice.listen 52 (VsockDevice.new 3 TableConfig_default)).2 in
  VsockDevice.outbound (VsockDevice.handle_guest_packet (VsockHeader.to_bytes req) d)
  = [OutPacket.mk (control_reply Response req 0 65536) []].
Proof.
  intros req d.
  assert (Hok : table_ok (VsockDevice.table d)) by apply map_Forall_empty.
  pose proof (vsock_guest_packet (VsockHeader.to_bytes req) d Hok) as H.
  assert (Hh : VsockHeader.from_bytes (VsockHeader.to_bytes req) = Ok req) by (vm_compute; reflexivity).
  rewrite Hh in H. cbv zeta in H.
  assert (Hs : (spec_dispatch (ConnectionTable.listening (VsockDevice.table d)) req
                  (abs (VsockDevice.table d))).1 = Accept) by (vm_compute; reflexivity).
  destruct (spec_dispatch _ req _) as [o m']. simpl in Hs. subst o. apply H.
Defined.

(** A device reset (0 written to [Status]) followed by [process] leaves the
    device without queues, queued packets, undelivered payload or interrupt,
    touches no guest memory and completes nothing. The connection table is not
    part of the teardown: listeners and connections survive it unchanged. *)
Theorem vsock_device_reset {M : Type} `{!GuestMem QueueError M} (fuel n : nat) (d : VsockDevice.t) (mem : M) :
  let d1 := (VsockDevice.mmio_write reg.STATUS n 0 d).2 in
  exists d', VsockDevice.process fuel d1 mem = Some (Ok false, d', mem) /\
    VsockDevice.rx d' = None /\ VsockDevice.tx d' = None /\
    VsockDevice.outbound d' = [] /\ VsockDevice.inbound d' = [] /\
    VsockDevice.interrupt_asserted d' = false /\
    VsockDevice.table d' = VsockDevice.table d.
Proof. by eexists. Qed.

(** What the host sends is what the guest reads. When a buffer chain is
    available on the rx queue whose writable buffers are in guest memory, do
    not overlap each other or the used ring, and have room for the packet, the
    rx loop delivers it: the buffers, read in order, decode to exactly the
    packet's header followed by its payload, and the driver sees one more
    completion, of the chain's head and the packet's length. *)
Theorem vsock_rx_delivery {M : Type} `{!GuestMem QueueError M, !GuestMemLaws QueueError M}
  (q : SplitQueue.t) (mem : M) bs p chain q1 old seen :
  packet_ok p -> zlen (OutPacket.payload p) < 2 ^ 32 - 44 ->
  SplitQueue.pop_avail mem q = (Ok (Some chain), q1) ->
  used_ready q mem bs -> is_u16 seen ->
  wrap16 (SplitQueue.next_used q - seen) < SplitQueue.size q ->
  separated (DescChain.writables chain) ->
  Forall (clear_of_used q) (DescChain.writables chain) ->
  DescChain.gather mem (DescChain.writables chain) [] = Ok old ->
  44 + zlen (OutPacket.payload p) <= zlen old ->
  exists q' mem' got bs',
    VsockDevice.flush_loop [p] q mem false = (Ok tt, true, [], q', mem') /\
    DescChain.gather mem' (DescChain.writables chain) [] = Ok got /\
    VsockHeader.from_bytes got = Ok (OutPacket.header p) /\
    slice got 44 (length (OutPacket.payload p)) = OutPacket.payload p /\
    mem_read mem' (SplitQueue.used q) (used_len (SplitQueue.size q)) = Ok bs' /\
    used_view bs' (SplitQueue.size q) seen =
      used_view bs (SplitQueue.size q) seen ++
        [(DescChain.head chain, 44 + zlen (OutPacket.payload p))].
Proof. apply deliver_one. Qed.

(** A three-byte payload through a queue of one entry: descriptor table at 0,
    available ring at 16, used ring at 32, buffer of 64 bytes at 64. *)
Lemma vsock_rx_delivery_witness :
  let desc := to_le 8 64 ++ to_le 4 64 ++ to_le 2 2 ++ to_le 2 0 in
  let avail := to_le 2 0 ++ to_le 2 1 ++ to_le 2 0 ++ replicate 10 Byte.x00 in
  let mem := SliceGuestMemory.mk 0 (desc ++ avail ++ replicate 96 Byte.x00) in
  let q := SplitQueue.mk 1 0 16 32 0 0 in
  let p := OutPacket.mk (VsockHeader.mk 2 3 52 1024 3 Stream Rw 0 65536 0)
             [Byte.x61; Byte.x62; Byte.x63] in
  exists q' mem', VsockDevice.flush_loop [p] q mem false = (Ok tt, true, [], q', mem') /\
    (got ← mem_read mem' 64 64; Ok (slice got 44 3)) = Ok [Byte.x61; Byte.x62; Byte.x63].
Proof.
  intros desc avail mem q p.
  assert (Hpop : SplitQueue.pop_avail mem q =
    (Ok (Some (DescChain.mk 0 [Descriptor.mk 64 64 true])), SplitQueue.mk 1 0 16 32 1 0))
    by (vm_compute; reflexivity).
  assert (Hp : packet_ok p).
  { split; [unfold VsockHeader.wf; split_and!; vm_compute; split; discriminate || reflexivity
           |reflexivity]. }
  assert (Hz : zlen (OutPacket.payload p) < 2 ^ 32 - 44) by (vm_compute; reflexivity).
  destruct (vsock_rx_delivery q mem (replicate 12 Byte.x00) p _ _ (replicate 64 Byte.x00) 0
              Hp Hz Hpop) as (q' & mem' & got & bs' & Hf & Hg & _ & Hpl & _).
  - split; vm_compute; reflexivity || discriminate.
  - vm_compute; split; discriminate || reflexivity.
  - vm_compute; reflexivity.
  - split; [vm_compute; discriminate|split; [constructor|exact I]].
  - constructor; [right; vm_compute; discriminate|constructor].
  - vm_compute; reflexivity.
  - vm_compute; discriminate.
  - exists q', mem'. split; [exact Hf|].
    change (mbind (fun got => Ok (slice got 44 3)) (mem_read mem' 64 64) = Ok (OutPacket.payload p)).
    change (mbind (fun b => Ok ([] ++ b)) (mem_read (E := QueueError) mem' 64 64) = Ok got) in Hg.
    destruct (mem_read (E := QueueError) mem' 64 64) as [b|]; [|discriminate Hg].
    injection Hg as Hgot. simpl. rewrite Hgot. f_equal. exact Hpl.
Defined.
