(* ===== verification/NetQueue.v ===== *)
(** * virtio-net: packet header, backends and the virtqueue consumer

    Models [crates/virtio-net/src/header.rs], the [NetworkBackend] trait of
    [lib.rs] with its [MockBackend], and [queue.rs]: [process_tx] and
    [process_rx] move Ethernet frames between guest memory and a backend. Both
    loops run while the cursor differs from the driver's index read once at the
    start, so the distance between the two is their iteration count. *)

From S2P Require Import Prelude GuestMemory VsockQueue VirtioQueue Mmio.

(** ** The packet header *)

Definition VIRTIO_NET_HDR_LEN : Z := 12.
Definition VIRTIO_NET_HDR_GSO_NONE : Z := 0.

Inductive HeaderError : Type :=
| NetShortHeader (have need : Z)
| NetShortBuffer (have need : Z).

Module VirtioNetHdr.
Record t : Type := mk {
  flags : Z;
  gso_type : Z;
  hdr_len : Z;
  gso_size : Z;
  csum_start : Z;
  csum_offset : Z;
  num_buffers : Z;
}.

Definition wf (h : t) : Prop :=
  is_u8 (flags h) /\ is_u8 (gso_type h) /\ is_u16 (hdr_len h) /\ is_u16 (gso_size h) /\
  is_u16 (csum_start h) /\ is_u16 (csum_offset h) /\ is_u16 (num_buffers h).

Definition no_offload : t :=
  {| flags := 0; gso_type := VIRTIO_NET_HDR_GSO_NONE; hdr_len := 0; gso_size := 0;
     csum_start := 0; csum_offset := 0; num_buffers := 1 |}.

Definition from_bytes (buf : bytes) : result HeaderError t :=
  if zlen buf <? VIRTIO_NET_HDR_LEN then Err (NetShortHeader (zlen buf) VIRTIO_NET_HDR_LEN)
  else Ok {|
    flags := from_le (slice buf 0 1);
    gso_type := from_le (slice buf 1 1);
    hdr_len := from_le (slice buf 2 2);
    gso_size := from_le (slice buf 4 2);
    csum_start := from_le (slice buf 6 2);
    csum_offset := from_le (slice buf 8 2);
    num_buffers := from_le (slice buf 10 2);
  |}.

(** The field stores shared by [write_to] and [to_bytes]. *)
Definition put (h : t) (buf : bytes) : bytes :=
  let buf := splice buf 0 (to_le 1 (flags h)) in
  let buf := splice buf 1 (to_le 1 (gso_type h)) in
  let buf := splice buf 2 (to_le 2 (hdr_len h)) in
  let buf := splice buf 4 (to_le 2 (gso_size h)) in
  let buf := splice buf 6 (to_le 2 (csum_start h)) in
  let buf := splice buf 8 (to_le 2 (csum_offset h)) in
  splice buf 10 (to_le 2 (num_buffers h)).

Definition write_to (h : t) : SM bytes HeaderError Z := fun buf =>
  if zlen buf <? VIRTIO_NET_HDR_LEN
  then (Err (NetShortBuffer (zlen buf) VIRTIO_NET_HDR_LEN), buf)
  else (Ok VIRTIO_NET_HDR_LEN, put h buf).

Definition to_bytes (h : t) : bytes := put h (replicate 12 Byte.x00).
End VirtioNetHdr.

(** ** Backends *)

(** [Io] carries the operating system's error, which the code only passes on. *)
Inductive VirtioNetError : Type :=
| Io (code : Z)
| InvalidIfName (name : bytes) (reason : bytes)
| Header (e : HeaderError)
| Queue (e : VirtioQueue.QueueError).

(** The trait: a read fills at most the buffer it is given ([n] bytes) and
    returns the frame, empty when none is waiting; backends use interior
    mutability, so both calls return the backend left behind. *)
Class NetworkBackend (B : Type) := {
  read_frame : B -> nat -> result VirtioNetError bytes * B;
  write_frame : B -> bytes -> result VirtioNetError unit * B;
}.

Class NetworkBackendLaws (B : Type) `{!NetworkBackend B} := {
  read_frame_length b n f b' : read_frame b n = (Ok f, b') -> (length f <= n)%nat;
}.

Module MockBackend.
Record t : Type := mk { rx : list bytes; tx : list bytes }.

Definition new : t := mk [] [].

Definition inject_rx (frame : bytes) (b : t) : t := mk (rx b ++ [frame]) (tx b).

Definition pop_tx (b : t) : option bytes * t :=
  match tx b with
  | [] => (None, b)
  | f :: rest => (Some f, mk (rx b) rest)
  end.

Definition queue_depths (b : t) : nat * nat := (length (rx b), length (tx b)).

Definition mock_read_frame (b : t) (n : nat) : result VirtioNetError bytes * t :=
  match rx b with
  | [] => (Ok [], b)
  | frame :: rest => (Ok (take (Nat.min (length frame) n) frame), mk rest (tx b))
  end.

Definition mock_write_frame (b : t) (frame : bytes) : result VirtioNetError unit * t :=
  (Ok tt, mk (rx b) (tx b ++ [frame])).

#[global] Instance mock_backend : NetworkBackend t :=
  {| read_frame := mock_read_frame; write_frame := mock_write_frame |}.

#[global] Instance mock_backend_laws : NetworkBackendLaws t.
Proof.
  split. intros b n f b'. simpl. unfold mock_read_frame.
  destruct (rx b); intros [= <- <-]; [simpl; lia|]. rewrite length_take. lia.
Qed.
End MockBackend.

(** ** The queue consumer *)

Definition MAX_FRAME_LEN : Z := 1518.
Definition MAX_CHAIN_BYTES : Z := MAX_FRAME_LEN + VIRTIO_NET_HDR_LEN.
Definition MIN_FRAME_LEN : Z := 14 + 46.
Definition MAX_SUPPORTED_QUEUE_SIZE : Z := QUEUE_SIZE_MAX.

Definition net_validate_qsize (cfg_size : Z) : option Z :=
  if (cfg_size =? 0) || (MAX_SUPPORTED_QUEUE_SIZE <? cfg_size) then None
  else if negb (is_power_of_two cfg_size) then None
  else Some (wrap16 cfg_size).

Definition avail_delta_is_sane (last_seen avail_idx qsize : Z) : bool :=
  wrap16 (avail_idx - last_seen) <=? qsize.

(** [QueueCursor { last_seen_avail }] *)
Record QueueCursor : Type := mk_cursor { last_seen_avail : Z }.

Module ProcessStats.
Record t : Type := mk { completed_chains : Z; frames_moved : Z }.
Definition default : t := mk 0 0.
Definition should_raise_interrupt (s : t) : bool := 0 <? completed_chains s.
End ProcessStats.

Section Consumer.
Context {M : Type} `{!GuestMem VirtioQueue.QueueError M}.
Context {B : Type} `{!NetworkBackend B}.

Definition net_read_u16 (mem : M) (gpa : Z) : result VirtioQueue.QueueError Z :=
  b ← mem_read mem gpa 2; Ok (from_le b).

Definition read_descriptor_table (mem : M) (base qsize : Z)
  : result VirtioQueue.QueueError (list VirtioQueue.Descriptor.t) :=
  mapM (fun i =>
          buf ← mem_read mem (wrap64 (base + Z.of_nat i * DESC_SIZE)) 16;
          VirtioQueue.Descriptor.from_bytes buf)
       (seq 0 (Z.to_nat qsize)).

(** [mem.read] and [mem.write] as steps of a computation on the memory. *)
Definition mem_get (gpa : Z) (n : nat) : SM M VirtioQueue.QueueError bytes :=
  fun mem => (mem_read mem gpa n, mem).
Definition mem_put (gpa : Z) (bs : bytes) : SM M VirtioQueue.QueueError unit :=
  fun mem => mem_write mem gpa bs.

Definition net_push_used (base qsize head_idx written_len : Z)
  : SM M VirtioQueue.QueueError unit :=
  idx_bytes ← mem_get (wrap64 (base + 2)) 2;
  let cur := from_le idx_bytes in
  let slot := cur mod qsize in
  let off := wrap64 (base + (4 + slot * 8)) in
  _ ← mem_put off (to_le 4 head_idx);
  _ ← mem_put (wrap64 (off + 4)) (to_le 4 written_len);
  let new_idx := wrap16 (cur + 1) in
  mem_put (wrap64 (base + 2)) (to_le 2 new_idx).

(** The [for desc in DescriptorChain::new(..)] loop of [process_tx]: the bytes
    gathered and whether the chain is valid. *)
Fixpoint tx_gather (mem : M) (items : list (result VirtioQueue.QueueError VirtioQueue.Descriptor.t))
    (scratch : bytes) : result VirtioNetError (bytes * bool) :=
  match items with
  | [] => Ok (scratch, true)
  | Err e :: _ => Err (Queue e)
  | Ok desc :: rest =>
      if VirtioQueue.Descriptor.is_indirect desc then Ok (scratch, false)
      else if VirtioQueue.Descriptor.is_writable desc then tx_gather mem rest scratch
      else
        let would_be := zlen scratch + VirtioQueue.Descriptor.len desc in
        if MAX_CHAIN_BYTES <? would_be then Ok (scratch, false)
        else
          bytes ← map_err Queue (VirtioQueue.Descriptor.read_from desc mem);
          tx_gather mem rest (scratch ++ bytes)
  end.

(** The frame of a gathered chain, if it is one the device passes on. *)
Definition tx_frame (scratch : bytes) (chain_valid : bool)
  : result VirtioNetError (option bytes) :=
  if chain_valid && (VIRTIO_NET_HDR_LEN + MIN_FRAME_LEN <=? zlen scratch)
     && (zlen scratch <=? MAX_CHAIN_BYTES)
  then
    _ ← map_err Header (VirtioNetHdr.from_bytes (take 12 scratch));
    Ok (Some (drop 12 scratch))
  else Ok None.

Definition State : Type := QueueCursor * M * B.

Definition lift_mem {A} (f : M -> result VirtioQueue.QueueError A * M) : SM State VirtioNetError A :=
  fun '(c, mem, b) => let (r, mem) := f mem in (map_err Queue r, (c, mem, b)).
Definition lift_backend {A} (f : B -> result VirtioNetError A * B) : SM State VirtioNetError A :=
  fun '(c, mem, b) => let (r, b) := f b in (r, (c, mem, b)).
Definition get_mem : SM State VirtioNetError M := fun st => (Ok st.1.2, st).
Definition get_cursor : SM State VirtioNetError Z := fun st => (Ok (last_seen_avail st.1.1), st).
Definition advance : SM State VirtioNetError unit :=
  fun '(c, mem, b) => (Ok tt, (mk_cursor (wrap16 (last_seen_avail c + 1)), mem, b)).

(** One iteration of the [while] loop of [process_tx]: whether a frame was
    handed to the backend. *)
Definition tx_step (cfg : QueueConfig.t) (qsize : Z) (table : list VirtioQueue.Descriptor.t)
  : SM State VirtioNetError bool :=
  cursor ← get_cursor;
  mem ← get_mem;
  let slot := cursor mod qsize in
  head ← sm_lift (map_err Queue
           (net_read_u16 mem (wrap64 (QueueConfig.driver cfg + (4 + slot * 2)))));
  gathered ← sm_lift (tx_gather mem (DescriptorChain.items table head) []);
  frame ← sm_lift (tx_frame gathered.1 gathered.2);
  moved ← match frame with
          | Some f => _ ← lift_backend (fun b => write_frame b f); mret true
          | None => mret false
          end;
  _ ← lift_mem (net_push_used (QueueConfig.device cfg) qsize head 0);
  _ ← advance;
  mret moved.

Fixpoint tx_loop (n : nat) (cfg : QueueConfig.t) (qsize : Z)
    (table : list VirtioQueue.Descriptor.t) (avail_idx : Z) (stats : ProcessStats.t)
  : SM State VirtioNetError ProcessStats.t :=
  match n with
  | O => mret stats
  | S n =>
      cursor ← get_cursor;
      if cursor =? avail_idx then mret stats
      else
        moved ← tx_step cfg qsize table;
        tx_loop n cfg qsize table avail_idx
          {| ProcessStats.completed_chains := ProcessStats.completed_chains stats + 1;
             ProcessStats.frames_moved := ProcessStats.frames_moved stats + Z.b2z moved |}
  end.

(** What both calls do before their loop: [None] is an early [Ok(stats)]. *)
Definition prepare (cfg : QueueConfig.t) (cursor : Z) (mem : M)
  : result VirtioQueue.QueueError (option (Z * list VirtioQueue.Descriptor.t * Z)) :=
  if negb (QueueConfig.ready cfg) then Ok None
  else
    match net_validate_qsize (QueueConfig.size cfg) with
    | None => Ok None
    | Some qsize =>
        table ← read_descriptor_table mem (QueueConfig.desc cfg) qsize;
        avail_idx ← net_read_u16 mem (wrap64 (QueueConfig.driver cfg + 2));
        if negb (avail_delta_is_sane cursor avail_idx qsize) then Ok None
        else Ok (Some (qsize, table, avail_idx))
    end.

Definition process_tx (cfg : QueueConfig.t) : SM State VirtioNetError ProcessStats.t :=
  cursor ← get_cursor;
  mem ← get_mem;
  setup ← sm_lift (map_err Queue (prepare cfg cursor mem));
  match setup with
  | None => mret ProcessStats.default
  | Some (qsize, table, avail_idx) =>
      tx_loop (Z.to_nat (wrap16 (avail_idx - cursor))) cfg qsize table avail_idx
        ProcessStats.default
  end.

(** The writable descriptors of a chain and whether it is valid. *)
Fixpoint rx_writable (items : list (result VirtioQueue.QueueError VirtioQueue.Descriptor.t))
    (writable : list VirtioQueue.Descriptor.t)
  : result VirtioNetError (list VirtioQueue.Descriptor.t * bool) :=
  match items with
  | [] => Ok (writable, true)
  | Err e :: _ => Err (Queue e)
  | Ok desc :: rest =>
      if VirtioQueue.Descriptor.is_indirect desc then Ok (writable, false)
      else if negb (VirtioQueue.Descriptor.is_writable desc) then rx_writable rest writable
      else rx_writable rest (writable ++ [desc])
  end.

Fixpoint rx_scatter (ds : list VirtioQueue.Descriptor.t) (payload : bytes) (written : nat)
  : SM M VirtioQueue.QueueError nat :=
  match ds with
  | [] => mret written
  | desc :: ds =>
      if (written =? length payload)%nat then mret written
      else
        n ← VirtioQueue.Descriptor.write_to_guest desc (drop written payload);
        rx_scatter ds payload (written + Z.to_nat n)
  end.

(** The rest of an iteration of [process_rx] once the backend gave a frame:
    whether it was delivered. *)
Definition rx_deliver (cfg : QueueConfig.t) (qsize : Z) (table : list VirtioQueue.Descriptor.t)
    (frame : bytes) : SM State VirtioNetError bool :=
  cursor ← get_cursor;
  mem ← get_mem;
  let slot := cursor mod qsize in
  head ← sm_lift (map_err Queue
           (net_read_u16 mem (wrap64 (QueueConfig.driver cfg + (4 + slot * 2)))));
  chain ← sm_lift (rx_writable (DescriptorChain.items table head) []);
  let (writable, chain_valid) := (chain : list _ * bool) in
  let total_cap := zsum (VirtioQueue.Descriptor.len <$> writable) in
  let need := VIRTIO_NET_HDR_LEN + zlen frame in
  if negb chain_valid || (total_cap <? need) then
    _ ← lift_mem (net_push_used (QueueConfig.device cfg) qsize head 0);
    _ ← advance;
    mret false
  else
    let payload := VirtioNetHdr.to_bytes VirtioNetHdr.no_offload ++ frame in
    written ← lift_mem (rx_scatter writable payload 0);
    _ ← lift_mem (net_push_used (QueueConfig.device cfg) qsize head (wrap32 (Z.of_nat written)));
    _ ← advance;
    mret true.

Fixpoint rx_loop (n : nat) (cfg : QueueConfig.t) (qsize : Z)
    (table : list VirtioQueue.Descriptor.t) (avail_idx : Z) (stats : ProcessStats.t)
  : SM State VirtioNetError ProcessStats.t :=
  match n with
  | O => mret stats
  | S n =>
      cursor ← get_cursor;
      if cursor =? avail_idx then mret stats
      else
        frame ← lift_backend (fun b => read_frame b (Z.to_nat MAX_FRAME_LEN));
        if (length frame =? 0)%nat then mret stats
        else
          moved ← rx_deliver cfg qsize table frame;
          rx_loop n cfg qsize table avail_idx
            {| ProcessStats.completed_chains := ProcessStats.completed_chains stats + 1;
               ProcessStats.frames_moved := ProcessStats.frames_moved stats + Z.b2z moved |}
  end.

Definition process_rx (cfg : QueueConfig.t) : SM State VirtioNetError ProcessStats.t :=
  cursor ← get_cursor;
  mem ← get_mem;
  setup ← sm_lift (map_err Queue (prepare cfg cursor mem));
  match setup with
  | None => mret ProcessStats.default
  | Some (qsize, table, avail_idx) =>
      rx_loop (Z.to_nat (wrap16 (avail_idx - cursor))) cfg qsize table avail_idx
        ProcessStats.default
  end.
End Consumer.

(** ** Header lemmas *)

Section HeaderCodec.
Implicit Types (h : VirtioNetHdr.t) (buf : bytes).

Definition net_hdr_fields h : bytes :=
  to_le 1 (VirtioNetHdr.flags h) ++ to_le 1 (VirtioNetHdr.gso_type h) ++
  to_le 2 (VirtioNetHdr.hdr_len h) ++ to_le 2 (VirtioNetHdr.gso_size h) ++
  to_le 2 (VirtioNetHdr.csum_start h) ++ to_le 2 (VirtioNetHdr.csum_offset h) ++
  to_le 2 (VirtioNetHdr.num_buffers h).

Lemma net_hdr_put h buf : VirtioNetHdr.put h buf = net_hdr_fields h ++ drop 12 buf.
Proof. unfold VirtioNetHdr.put, net_hdr_fields. by write_fields. Qed.

Lemma net_hdr_to_bytes h : VirtioNetHdr.to_bytes h = net_hdr_fields h.
Proof. unfold VirtioNetHdr.to_bytes. rewrite net_hdr_put, drop_ge by len. apply app_nil_r. Qed.

Lemma net_hdr_fields_length h : length (net_hdr_fields h) = 12%nat.
Proof. unfold net_hdr_fields. len. Qed.

Lemma net_hdr_decode_encode h rest :
  VirtioNetHdr.wf h -> VirtioNetHdr.from_bytes (net_hdr_fields h ++ rest) = Ok h.
Proof.
  intros (? & ? & ? & ? & ? & ? & ?).
  unfold VirtioNetHdr.from_bytes, VIRTIO_NET_HDR_LEN, zlen.
  rewrite length_app, net_hdr_fields_length. case_if; [lia|].
  unfold net_hdr_fields. fields.
  rewrite !from_to_le8, !from_to_le16 by done. by destruct h.
Qed.

Lemma net_hdr_encode_decode h buf :
  VirtioNetHdr.from_bytes buf = Ok h -> VirtioNetHdr.wf h /\ net_hdr_fields h = slice buf 0 12.
Proof.
  unfold VirtioNetHdr.from_bytes, VIRTIO_NET_HDR_LEN, zlen. case_if; [done|].
  intros [= <-]. split.
  - unfold VirtioNetHdr.wf. simpl. split_and!; first [apply from_le_u16 | apply from_le_u8]; lia.
  - unfold net_hdr_fields. cbn [VirtioNetHdr.flags VirtioNetHdr.gso_type VirtioNetHdr.hdr_len
      VirtioNetHdr.gso_size VirtioNetHdr.csum_start VirtioNetHdr.csum_offset
      VirtioNetHdr.num_buffers].
    rewrite !to_le_slice by lia. by cat_slices.
Qed.
End HeaderCodec.

(** ** Bounds of one call *)

Lemma net_validate_qsize_ok n q :
  net_validate_qsize n = Some q -> q = n /\ is_power_of_two q = true /\ 0 < q <= 256.
Proof.
  unfold net_validate_qsize. case_if; [done|]. case_if; [done|]. intros [= <-].
  pose proof (is_power_of_two_pos n ltac:(done)).
  change MAX_SUPPORTED_QUEUE_SIZE with 256 in *.
  rewrite wrap16_small by (unfold is_u16; lia). split_and!; done || lia.
Qed.

Section Bounds.
Context {M : Type} `{!GuestMem VirtioQueue.QueueError M}.
Context {B : Type} `{!NetworkBackend B}.
Implicit Types (cfg : QueueConfig.t) (mem : M) (b : B) (c : QueueCursor).

(** A frame the device may hand to the network. *)
Definition frame_ok (f : bytes) : Prop := MIN_FRAME_LEN <= zlen f <= MAX_FRAME_LEN.

(** The frames offered to the backend, in order, the last of them possibly
    refused. *)
Inductive sends : B -> list bytes -> B -> Prop :=
| sends_nil b : sends b [] b
| sends_snoc b fs b1 f r b2 :
    sends b fs b1 -> write_frame b1 f = (r, b2) -> sends b (fs ++ [f]) b2.

Lemma sends_app b1 fs b2 gs b3 : sends b1 fs b2 -> sends b2 gs b3 -> sends b1 (fs ++ gs) b3.
Proof.
  intros H1 H2. induction H2 as [|b fs' b' f r b'' _ IH Hw]; [by rewrite app_nil_r|].
  rewrite app_assoc. by eapply sends_snoc; [apply IH|].
Qed.

Lemma tx_frame_ok scratch v f : tx_frame scratch v = Ok (Some f) -> frame_ok f.
Proof.
  unfold tx_frame. case_if; [|done]. unfold VIRTIO_NET_HDR_LEN, MAX_CHAIN_BYTES, zlen in *.
  destruct (VirtioNetHdr.from_bytes _); [|done]. intros [= <-].
  unfold frame_ok, zlen, MIN_FRAME_LEN, MAX_FRAME_LEN, VIRTIO_NET_HDR_LEN in *.
  rewrite length_drop. lia.
Qed.

Ltac no_frames :=
  intros [= <- <- <- <-]; exists []; split_and!; try done; constructor.

(** The effect of one iteration, whatever its outcome. *)
Lemma tx_step_bounds cfg qsize table c mem b r c' mem' b' :
  tx_step cfg qsize table (c, mem, b) = (r, (c', mem', b')) ->
  exists fs, sends b fs b' /\ Forall frame_ok fs /\
    match r with
    | Ok moved => c' = mk_cursor (wrap16 (last_seen_avail c + 1)) /\ zlen fs = Z.b2z moved
    | Err _ => c' = c /\ zlen fs <= 1
    end.
Proof.
  unfold tx_step, mbind, sm_bind, get_cursor, get_mem, sm_lift, mret, sm_ret. cbn [fst snd].
  destruct (net_read_u16 mem _) as [head|e]; cbn [map_err];
    [|no_frames].
  destruct (tx_gather _ _ _) as [[scratch v]|e];
    [|no_frames]. cbn [fst snd].
  destruct (tx_frame scratch v) as [[f|]|e] eqn:Hf;
    [| |no_frames].
  - unfold lift_backend at 1. destruct (write_frame b f) as [rw b1] eqn:Hw.
    assert (Hs : sends b [f] b1) by (eapply (sends_snoc b [] b f); [constructor|done]).
    assert (Hok : Forall frame_ok [f]) by (apply Forall_singleton; by eapply tx_frame_ok).
    destruct rw as [[]|e]; [|intros [= <- <- <- <-]; exists [f]; by split_and!].
    unfold lift_mem at 1. destruct (net_push_used _ _ _ _ mem) as [[[]|e] mem1];
      intros [= <- <- <- <-]; exists [f]; by split_and!.
  - unfold lift_mem at 1. destruct (net_push_used _ _ _ _ mem) as [[[]|e] mem1];
      no_frames.
Qed.

Lemma tx_loop_bounds n : forall cfg qsize table avail stats c mem b r c' mem' b',
  tx_loop n cfg qsize table avail stats (c, mem, b) = (r, (c', mem', b')) ->
  is_u16 (last_seen_avail c) -> is_u16 avail ->
  wrap16 (avail - last_seen_avail c) = Z.of_nat n ->
  exists k fs, (k <= n)%nat /\ last_seen_avail c' = wrap16 (last_seen_avail c + Z.of_nat k) /\
    sends b fs b' /\ Forall frame_ok fs /\ zlen fs <= Z.of_nat k + 1 /\
    match r with
    | Ok s => k = n /\ last_seen_avail c' = avail /\
        ProcessStats.completed_chains s = ProcessStats.completed_chains stats + Z.of_nat k /\
        ProcessStats.frames_moved s = ProcessStats.frames_moved stats + zlen fs /\
        zlen fs <= Z.of_nat k
    | Err _ => True
    end.
Proof.
  induction n as [|n IH]; intros cfg qsize table avail stats c mem b r c' mem' b' H Hc Ha Hd.
  { injection H as <- <- <- <-. exists 0%nat, []. rewrite Z.add_0_r, wrap16_small by done.
    split_and!; try done; [constructor|..]; unfold zlen; simpl; ulia. }
  cbn [tx_loop] in H. unfold mbind, sm_bind, get_cursor in H. cbn [fst snd] in H.
  destruct (last_seen_avail c =? avail) eqn:He; bool_to_prop.
  { rewrite He, Z.sub_diag in Hd. ulia. }
  destruct (tx_step cfg qsize table (c, mem, b)) as [[moved|e] [[c1 mem1] b1]] eqn:Hs;
    apply tx_step_bounds in Hs as (fs & Hsend & Hfs & Hr).
  - destruct Hr as [-> Hm]. apply IH in H; simpl; [|apply wrap16_range|done|ulia].
    destruct H as (k & gs & Hk & Hc' & Hsend' & Hgs & Hlen & Hr).
    exists (S k), (fs ++ gs). unfold zlen in *. rewrite length_app.
    split_and!; [lia| |by eapply sends_app|by apply Forall_app| |].
    + rewrite Hc'. simpl. rewrite wrap16_add_l. f_equal. lia.
    + destruct moved; simpl in Hm; lia.
    + destruct r; [|done]. destruct Hr as (-> & Hca & -> & -> & Hl).
      split_and!; try done; simpl; destruct moved; simpl in *; lia.
  - injection H as <- <- <- <-. destruct Hr as [-> Hl]. exists 0%nat, fs.
    rewrite Z.add_0_r, wrap16_small by done. split_and!; try done; lia.
Qed.
End Bounds.

(** The same for the receive loop: the cursor never runs past the index. *)
Section RxBounds.
Context {M : Type} `{!GuestMem VirtioQueue.QueueError M}.
Context {B : Type} `{!NetworkBackend B}.
Implicit Types (cfg : QueueConfig.t) (mem : M) (b : B) (c : QueueCursor).

Lemma rx_deliver_cursor cfg qsize table frame c mem b r c' mem' b' :
  rx_deliver cfg qsize table frame (c, mem, b) = (r, (c', mem', b')) ->
  b' = b /\
  match r with
  | Ok _ => c' = mk_cursor (wrap16 (last_seen_avail c + 1))
  | Err _ => c' = c
  end.
Proof.
  unfold rx_deliver, mbind, sm_bind, get_cursor, get_mem, sm_lift, mret, sm_ret. cbn [fst snd].
  destruct (net_read_u16 mem _) as [head|e]; cbn [map_err]; [|by intros [= <- <- <- <-]].
  destruct (rx_writable _ _) as [[ws v]|e]; [|by intros [= <- <- <- <-]].
  destruct (negb v || _).
  - unfold lift_mem. destruct (net_push_used _ _ _ _ mem) as [[[]|e] mem1];
      by intros [= <- <- <- <-].
  - unfold lift_mem at 1. destruct (rx_scatter _ _ _ _) as [[w|e] mem1]; [|by intros [= <- <- <- <-]].
    cbn [map_err]. unfold lift_mem. destruct (net_push_used _ _ _ _ mem1) as [[[]|e] mem2];
      by intros [= <- <- <- <-].
Qed.

Lemma rx_loop_bounds n : forall cfg qsize table avail stats c mem b r c' mem' b',
  rx_loop n cfg qsize table avail stats (c, mem, b) = (r, (c', mem', b')) ->
  is_u16 (last_seen_avail c) ->
  exists k, (k <= n)%nat /\ last_seen_avail c' = wrap16 (last_seen_avail c + Z.of_nat k) /\
    match r with
    | Ok s =>
        ProcessStats.completed_chains s = ProcessStats.completed_chains stats + Z.of_nat k /\
        ProcessStats.frames_moved stats <= ProcessStats.frames_moved s
          <= ProcessStats.frames_moved stats + Z.of_nat k
    | Err _ => True
    end.
Proof.
  induction n as [|n IH]; intros cfg qsize table avail stats c mem b r c' mem' b' H Hc.
  { injection H as <- <- <- <-. exists 0%nat. rewrite Z.add_0_r, wrap16_small by done.
    split_and!; done || lia. }
  cbn [rx_loop] in H. unfold mbind, sm_bind, get_cursor in H. cbn [fst snd] in H.
  assert (H0 : forall s : ProcessStats.t, s = stats -> exists k, (k <= S n)%nat /\
    last_seen_avail c = wrap16 (last_seen_avail c + Z.of_nat k) /\
    ProcessStats.completed_chains s = ProcessStats.completed_chains stats + Z.of_nat k /\
    ProcessStats.frames_moved stats <= ProcessStats.frames_moved s
      <= ProcessStats.frames_moved stats + Z.of_nat k).
  { intros s ->. exists 0%nat. rewrite Z.add_0_r, wrap16_small by done. split_and!; done || lia. }
  case_if_in H; [injection H as <- <- <- <-; by apply H0|].
  unfold lift_backend at 1 in H. destruct (read_frame b _) as [[frame|e] b1].
  2: { injection H as <- <- <- <-. exists 0%nat. rewrite Z.add_0_r, wrap16_small by done.
       split_and!; done || lia. }
  case_if_in H; [injection H as <- <- <- <-; by apply H0|].
  destruct (rx_deliver cfg qsize table frame (c, mem, b1)) as [[moved|e] [[c1 mem1] b2]] eqn:Hs;
    apply rx_deliver_cursor in Hs as [-> Hr].
  - subst c1. apply IH in H; simpl; [|apply wrap16_range].
    destruct H as (k & Hk & Hc' & Hr). exists (S k). split_and!; [lia| |].
    + rewrite Hc'. simpl. rewrite wrap16_add_l. f_equal. lia.
    + destruct r; [|done]. simpl in Hr. destruct moved; simpl in Hr; lia.
  - injection H as <- <- <- <-. subst. exists 0%nat. rewrite Z.add_0_r, wrap16_small by done.
    split_and!; done || lia.
Qed.

(** A receive call that succeeds stopped because it caught up with the driver
    or because the backend had nothing more. *)
Lemma rx_loop_stops n : forall cfg qsize table avail stats c mem b s c' mem' b',
  rx_loop n cfg qsize table avail stats (c, mem, b) = (Ok s, (c', mem', b')) ->
  is_u16 (last_seen_avail c) -> is_u16 avail ->
  wrap16 (avail - last_seen_avail c) = Z.of_nat n ->
  last_seen_avail c' = avail \/
  exists b0, read_frame b0 (Z.to_nat MAX_FRAME_LEN) = (Ok [], b').
Proof.
  induction n as [|n IH]; intros cfg qsize table avail stats c mem b s c' mem' b' H Hc Ha Hd.
  { injection H as <- <- <- <-. left. ulia. }
  cbn [rx_loop] in H. unfold mbind, sm_bind, get_cursor in H. cbn [fst snd] in H.
  case_if_in H; [injection H as <- <- <- <-; by left|].
  unfold lift_backend at 1 in H. destruct (read_frame b _) as [[frame|e] b1] eqn:Hf; [|done].
  destruct (length frame =? 0)%nat eqn:Hl.
  { injection H as <- <- <- <-. right. exists b. apply Nat.eqb_eq, nil_length_inv in Hl. by subst. }
  destruct (rx_deliver cfg qsize table frame (c, mem, b1)) as [[moved|e] [[c1 mem1] b2]] eqn:Hs; [|done].
  apply rx_deliver_cursor in Hs as [-> ->].
  eapply IH; [exact H|simpl; apply wrap16_range|done|simpl; ulia].
Qed.
End RxBounds.

Section Prepare.
Context {M : Type} `{!GuestMem VirtioQueue.QueueError M, !GuestMemLaws VirtioQueue.QueueError M}.

Lemma prepare_ok cfg cursor (mem : M) qsize table avail :
  prepare cfg cursor mem = Ok (Some (qsize, table, avail)) ->
  QueueConfig.ready cfg = true /\ qsize = QueueConfig.size cfg /\
  is_power_of_two qsize = true /\ 0 < qsize <= 256 /\
  read_descriptor_table mem (QueueConfig.desc cfg) qsize = Ok table /\
  net_read_u16 mem (wrap64 (QueueConfig.driver cfg + 2)) = Ok avail /\
  is_u16 avail /\ wrap16 (avail - cursor) <= qsize.
Proof.
  unfold prepare. case_if; [done|]. destruct (net_validate_qsize _) as [q|] eqn:Hq; [|done].
  apply net_validate_qsize_ok in Hq as (-> & Hp & Hb).
  destruct (read_descriptor_table _ _ _) as [tb|] eqn:Ht; [|done]. simpl.
  destruct (net_read_u16 _ _) as [i|] eqn:Hi; [|done]. simpl. unfold avail_delta_is_sane.
  case_if; [done|]. intros [= <- <- <-]. split_and!; try done; [lia..|].
  unfold net_read_u16 in Hi. destruct (mem_read mem _ 2) as [bs|] eqn:Hr; [|done].
  injection Hi as <-. apply (from_le_range 2). by eapply mem_read_length.
Qed.
End Prepare.

(** ** Frames of single chains *)

Section Frames.
Context {M : Type} `{!GuestMem VirtioQueue.QueueError M, !GuestMemLaws VirtioQueue.QueueError M}.
Context {B : Type} `{!NetworkBackend B}.
Implicit Types (mem : M) (ds : list VirtioQueue.Descriptor.t).

(** The vsock queue's view of the same memory: its scatter and publication
    lemmas serve both devices. *)
#[local] Instance vsock_view : GuestMem VsockQueue.QueueError M := GuestRamMem.
#[local] Instance vsock_view_laws : GuestMemLaws VsockQueue.QueueError M := GuestRamMem_laws.

Definition seg (d : VirtioQueue.Descriptor.t) : VsockQueue.Descriptor.t :=
  VsockQueue.Descriptor.mk (VirtioQueue.Descriptor.addr d) (VirtioQueue.Descriptor.len d)
    (VirtioQueue.Descriptor.is_writable d).

(** The contents of a list of buffers, in order. *)
Fixpoint read_all mem ds : result VirtioQueue.QueueError bytes :=
  match ds with
  | [] => Ok []
  | d :: ds =>
      s ← mem_read mem (VirtioQueue.Descriptor.addr d) (Z.to_nat (VirtioQueue.Descriptor.len d));
      app s <$> read_all mem ds
  end.

Lemma vsock_read mem a n :
  mem_read (E := VsockQueue.QueueError) mem a n =
    map_err (fun _ => OutOfBounds a n) (mem_read (E := VirtioQueue.QueueError) mem a n).
Proof. done. Qed.

Lemma vsock_read_ok mem a n bs :
  mem_read (E := VsockQueue.QueueError) mem a n = Ok bs <->
  mem_read (E := VirtioQueue.QueueError) mem a n = Ok bs.
Proof. rewrite vsock_read. destruct (mem_read mem a n); simpl; split; by intros [=]; subst. Qed.

Lemma vsock_write mem a bs :
  mem_write (E := VsockQueue.QueueError) mem a bs =
    let (r, mem') := mem_write (E := VirtioQueue.QueueError) mem a bs in
    (map_err (fun _ => OutOfBounds a (length bs)) r, mem').
Proof. done. Qed.

Lemma read_all_gather mem ds bs :
  read_all mem ds = Ok bs <-> DescChain.gather mem (seg <$> ds) [] = Ok bs.
Proof.
  revert bs. induction ds as [|d ds IH]; intros bs; [split; by intros [= <-]|].
  rewrite fmap_cons, gather_cons, vsock_read. cbn [read_all seg VsockQueue.Descriptor.addr
    VsockQueue.Descriptor.len].
  destruct (mem_read mem _ _) as [s|]; cbn; [|by split].
  destruct (read_all mem ds) as [t|] eqn:Ht, (DescChain.gather mem _ []) as [t'|] eqn:Hg; cbn.
  - pose proof (proj1 (IH t) eq_refl) as [= ->]. split; by intros [= <-].
  - pose proof (proj1 (IH t) eq_refl) as [=].
  - pose proof (proj2 (IH t') eq_refl) as [=].
  - by split.
Qed.

(** What was readable and is left alone reads the same. *)
Lemma read_all_keep mem mem' ds bs :
  Forall (fun d => forall x,
    mem_read mem (VirtioQueue.Descriptor.addr d) (Z.to_nat (VirtioQueue.Descriptor.len d)) =
      (Ok x : result VirtioQueue.QueueError bytes) ->
    mem_read mem' (VirtioQueue.Descriptor.addr d) (Z.to_nat (VirtioQueue.Descriptor.len d)) =
      (Ok x : result VirtioQueue.QueueError bytes)) ds ->
  read_all mem ds = Ok bs -> read_all mem' ds = Ok bs.
Proof.
  intros Hds. revert bs. induction Hds as [|d ds Hd _ IH]; intros bs; [done|]. cbn [read_all].
  destruct (mem_read mem _ _) as [s|] eqn:Hr; [|done]. rewrite (Hd s eq_refl). cbn.
  destruct (read_all mem ds) as [t|]; [|done]. by rewrite (IH t eq_refl).
Qed.

(** A chain as the iterator yields it. *)
Lemma items_chain table head ds :
  chain_from table head ds -> DescriptorChain.items table head = Ok <$> ds.
Proof.
  intros Hc. rewrite items_walk. apply chain_walk; [done|]. by eapply chain_from_length.
Qed.

Lemma tx_gather_all mem ds out bs :
  Forall (fun d => VirtioQueue.Descriptor.wf d /\ VirtioQueue.Descriptor.is_indirect d = false /\
                   VirtioQueue.Descriptor.is_writable d = false) ds ->
  read_all mem ds = Ok bs -> zlen (out ++ bs) <= MAX_CHAIN_BYTES ->
  tx_gather mem (Ok <$> ds) out = Ok (out ++ bs, true).
Proof.
  intros Hds. revert out bs. induction Hds as [|d ds (Hwf & Hi & Hw) _ IH]; intros out bs.
  { intros [= <-] _. by rewrite app_nil_r. }
  cbn [read_all]. destruct (mem_read mem _ _) as [s|] eqn:Hr; [|done]. simpl.
  destruct (read_all mem ds) as [t|] eqn:Ht; [|done]. intros [= <-] Hlen.
  rewrite app_assoc in Hlen |- *. rewrite Hi, Hw.
  pose proof (mem_read_length _ _ _ _ Hr) as Hsl. destruct Hwf as (_ & Hl & _).
  assert (Hd : zlen out + VirtioQueue.Descriptor.len d <= MAX_CHAIN_BYTES).
  { unfold zlen, is_u32 in *. rewrite !length_app in Hlen. lia. }
  rewrite (proj2 (Z.ltb_ge _ _) Hd). unfold VirtioQueue.Descriptor.read_from.
  rewrite (proj2 (Z.ltb_ge MAX_DESC_READ_BYTES _)).
  2: { unfold zlen in Hd. change MAX_DESC_READ_BYTES with 16777216.
       change MAX_CHAIN_BYTES with 1530 in Hd. lia. }
  rewrite Hr. simpl. by apply IH.
Qed.

Lemma tx_frame_split hdr frame :
  length hdr = 12%nat -> frame_ok frame -> tx_frame (hdr ++ frame) true = Ok (Some frame).
Proof.
  intros Hh [Hmin Hmax]. unfold tx_frame, zlen in *. rewrite length_app, Hh.
  unfold MIN_FRAME_LEN, MAX_CHAIN_BYTES, MAX_FRAME_LEN, VIRTIO_NET_HDR_LEN in *. simpl.
  rewrite (proj2 (Z.leb_le _ _)), (proj2 (Z.leb_le _ _)) by lia. simpl.
  rewrite <- Hh, take_app_length, drop_app_length.
  unfold VirtioNetHdr.from_bytes, VIRTIO_NET_HDR_LEN, zlen. rewrite Hh. done.
Qed.

(** One transmit iteration on a well-formed chain. *)
Lemma tx_step_frame cfg qsize table c mem (b : B) head ds hdr frame b1 mem1 :
  net_read_u16 mem (wrap64 (QueueConfig.driver cfg + (4 + last_seen_avail c mod qsize * 2))) = Ok head ->
  chain_from table head ds ->
  Forall (fun d => VirtioQueue.Descriptor.wf d /\ VirtioQueue.Descriptor.is_indirect d = false /\
                   VirtioQueue.Descriptor.is_writable d = false) ds ->
  read_all mem ds = Ok (hdr ++ frame) -> length hdr = 12%nat -> frame_ok frame ->
  write_frame b frame = (Ok tt, b1) ->
  net_push_used (QueueConfig.device cfg) qsize head 0 mem = (Ok tt, mem1) ->
  tx_step cfg qsize table (c, mem, b) =
    (Ok true, (mk_cursor (wrap16 (last_seen_avail c + 1)), mem1, b1)).
Proof.
  intros Hhead Hc Hds Hr Hh Hf Hw Hp.
  unfold tx_step, mbind, sm_bind, get_cursor, get_mem, sm_lift. cbn [fst snd].
  rewrite Hhead. cbn [map_err]. rewrite (items_chain _ _ _ Hc).
  rewrite (tx_gather_all mem ds [] (hdr ++ frame)); [|done|done|].
  2: { destruct Hf. unfold zlen, MAX_CHAIN_BYTES, VIRTIO_NET_HDR_LEN in *.
       rewrite app_nil_l, length_app. lia. }
  cbn [fst snd app]. rewrite tx_frame_split by done.
  unfold lift_backend. rewrite Hw. unfold mret, sm_ret, lift_mem. cbv beta iota zeta.
  by rewrite Hp.
Qed.

Lemma rx_writable_all ds out :
  Forall (fun d => VirtioQueue.Descriptor.is_indirect d = false /\
                   VirtioQueue.Descriptor.is_writable d = true) ds ->
  rx_writable (Ok <$> ds) out = Ok (out ++ ds, true).
Proof.
  intros Hds. revert out. induction Hds as [|d ds [Hi Hw] _ IH]; intros out; simpl.
  - by rewrite app_nil_r.
  - rewrite Hi, Hw. simpl. rewrite IH. by rewrite <- app_assoc.
Qed.

Lemma rx_scatter_vsock ds payload : forall w mem n mem',
  Forall (fun d => 0 <= VirtioQueue.Descriptor.len d /\
                   VirtioQueue.Descriptor.is_writable d = true) ds ->
  (w <= length payload)%nat ->
  DescChain.scatter (seg <$> ds) payload w mem = (Ok n, mem') ->
  rx_scatter ds payload w mem = (Ok n, mem').
Proof.
  induction ds as [|d ds IH]; intros w mem n mem' Hds Hw; [by intros [= <- <-]|].
  apply Forall_cons in Hds as [[Hl Hd] Hds]. cbn [DescChain.scatter fmap list_fmap rx_scatter].
  destruct (Nat.leb_spec (length payload) w).
  { rewrite (proj2 (Nat.eqb_eq w (length payload))) by lia. by intros [= <- <-]. }
  rewrite (proj2 (Nat.eqb_neq w (length payload))) by lia.
  unfold mbind, sm_bind, VirtioQueue.Descriptor.write_to_guest. rewrite Hd. cbn [negb].
  set (k := Nat.min (Z.to_nat (VirtioQueue.Descriptor.len d)) (length payload - w)).
  assert (Hk : Z.to_nat (Z.min (VirtioQueue.Descriptor.len d) (zlen (drop w payload))) = k).
  { unfold zlen. rewrite length_drop. lia. }
  rewrite Hk. rewrite vsock_write.
  cbn [seg VsockQueue.Descriptor.addr VsockQueue.Descriptor.len]. fold k.
  rewrite slice_take_drop.
  destruct (mem_write mem _ (take k (drop w payload))) as [[[]|e] mem1]; [|done].
  cbn [map_err]. rewrite Hk. intros Hs. apply IH; [done|lia|done].
Qed.

Lemma net_push_used_vsock (q : SplitQueue.t) mem head len idx q' mem' :
  mem_read (E := VirtioQueue.QueueError) mem (wrap64 (SplitQueue.used q + 2)) 2 = Ok idx ->
  from_le idx = SplitQueue.next_used q ->
  SplitQueue.push_used head len (q, mem) = (Ok tt, (q', mem')) ->
  net_push_used (SplitQueue.used q) (SplitQueue.size q) head len mem = (Ok tt, mem').
Proof.
  intros Hr Hi. unfold net_push_used, mbind, sm_bind, mem_get. rewrite Hr. cbv zeta. rewrite Hi.
  unfold SplitQueue.push_used, SplitQueue.write_u32, SplitQueue.write_u16, USED_ENTRY_LEN, mem_put.
  replace (SplitQueue.used q + (4 + SplitQueue.next_used q mod SplitQueue.size q * 8))
    with (SplitQueue.used q + 4 + 8 * (SplitQueue.next_used q mod SplitQueue.size q)) by lia.
  rewrite vsock_write. destruct (mem_write mem _ _) as [[[]|] m1]; [|done]. cbn [map_err].
  rewrite vsock_write. destruct (mem_write m1 _ _) as [[[]|] m2]; [|done]. cbn [map_err SplitQueue.used SplitQueue.set_next_used SplitQueue.next_used].
  rewrite vsock_write. destruct (mem_write m2 _ _) as [[[]|] m3]; [|done]. by intros [= <- <-].
Qed.
(** A buffer outside the [n] bytes at [base]. *)
Definition clear (base : Z) (n : nat) (d : VsockQueue.Descriptor.t) : Prop :=
  VsockQueue.Descriptor.addr d + VsockQueue.Descriptor.len d <= base \/
  base + Z.of_nat n <= VsockQueue.Descriptor.addr d.

(** The used ring of a net queue lies in guest RAM, without wrapping around,
    and holds [bs]. *)
Record net_used_ready (device qsize : Z) mem (bs : bytes) : Prop := {
  net_pow2 : is_power_of_two qsize = true;
  net_max : qsize <= 256;
  net_base : 0 <= device;
  net_top : device + Z.of_nat (used_len qsize) <= 2 ^ 64;
  net_ring : mem_read mem device (used_len qsize) = (Ok bs : result VirtioQueue.QueueError bytes);
}.

Definition ring_queue (device qsize : Z) (bs : bytes) : SplitQueue.t :=
  SplitQueue.mk qsize 0 0 device 0 (used_idx bs).

Lemma net_ready_vsock device qsize mem bs :
  net_used_ready device qsize mem bs -> used_ready (ring_queue device qsize bs) mem bs.
Proof.
  intros [Hp Hm Hb Ht Hr]. split; simpl; try done.
  - etrans; [exact Hm|by vm_compute].
  - by rewrite Hr.
Qed.

(** Returning a chain shows up as one more completion and nowhere else. *)
Lemma net_push_used_view device qsize mem bs seen head len :
  net_used_ready device qsize mem bs -> is_u16 seen -> is_u32 head -> is_u32 len ->
  wrap16 (used_idx bs - seen) < qsize ->
  exists mem1 bs1, net_push_used device qsize head len mem = (Ok tt, mem1) /\
    mem_read mem1 device (used_len qsize) = (Ok bs1 : result VirtioQueue.QueueError bytes) /\
    used_view bs1 qsize seen = used_view bs qsize seen ++ [(head, len)] /\
    (forall a k x, a + Z.of_nat k <= device \/ device + Z.of_nat (used_len qsize) <= a ->
       mem_read mem a k = (Ok x : result VirtioQueue.QueueError bytes) ->
       mem_read mem1 a k = (Ok x : result VirtioQueue.QueueError bytes)).
Proof.
  intros Hready Hseen Hh Hl Hfree. pose proof (net_ready_vsock _ _ _ _ Hready) as Hv.
  destruct (push_used_stores _ mem bs head len Hv) as (m1 & m2 & m3 & Hpush & _ & _ & _ & _ & _ & H3 & Hf).
  destruct Hready as [Hp Hm Hb Ht Hr].
  cbn [ring_queue SplitQueue.used SplitQueue.size SplitQueue.next_used] in H3, Hf.
  pose proof (mem_read_length _ _ _ _ Hr) as Hlen.
  destruct (used_stores_view bs qsize (used_idx bs) seen head len) as (_ & _ & V3); [done|..|done|done|done|done|done|done|].
  { etrans; [exact Hm|by vm_compute]. }
  rewrite vsock_read in H3.
  destruct (mem_read m3 device (used_len qsize)) as [bs1|] eqn:H3'; [|done]. injection H3 as ->.
  assert (Hi : mem_read (E := VirtioQueue.QueueError) mem (wrap64 (device + 2)) 2 = Ok (slice bs 2 2)).
  { rewrite wrap64_small by (unfold is_u64, used_len in *; lia).
    apply (mem_read_slice _ _ _ _ 2 2 Hr). unfold used_len. lia. }
  pose proof (net_push_used_vsock (ring_queue device qsize bs) mem head len _ _ _ Hi eq_refl Hpush) as Hn.
  eexists m3, _. split_and!; [exact Hn|exact H3'|exact V3|].
  intros a k x Hd Hx. specialize (Hf a k Hd). rewrite !vsock_read, Hx in Hf.
  destruct (mem_read m3 a k); [|done]. by injection Hf as ->.
Qed.
(** One receive iteration on a well-formed chain with room for the frame. *)
Lemma rx_deliver_frame cfg qsize table c mem (b : B) head ds frame old bs seen :
  net_read_u16 mem (wrap64 (QueueConfig.driver cfg + (4 + last_seen_avail c mod qsize * 2))) = Ok head ->
  is_u32 head -> chain_from table head ds ->
  Forall (fun d => VirtioQueue.Descriptor.is_indirect d = false /\
                   VirtioQueue.Descriptor.is_writable d = true) ds ->
  separated (seg <$> ds) -> Forall (clear (QueueConfig.device cfg) (used_len qsize)) (seg <$> ds) ->
  read_all mem ds = Ok old -> VIRTIO_NET_HDR_LEN + zlen frame <= zlen old ->
  zlen frame <= MAX_FRAME_LEN ->
  net_used_ready (QueueConfig.device cfg) qsize mem bs -> is_u16 seen ->
  wrap16 (used_idx bs - seen) < qsize ->
  exists mem1 bs1,
    rx_deliver cfg qsize table frame (c, mem, b) =
      (Ok true, (mk_cursor (wrap16 (last_seen_avail c + 1)), mem1, b)) /\
    read_all mem1 ds =
      Ok (VirtioNetHdr.to_bytes VirtioNetHdr.no_offload ++ frame ++ drop (12 + length frame) old) /\
    mem_read mem1 (QueueConfig.device cfg) (used_len qsize) =
      (Ok bs1 : result VirtioQueue.QueueError bytes) /\
    used_view bs1 qsize seen =
      used_view bs qsize seen ++ [(head, VIRTIO_NET_HDR_LEN + zlen frame)].
Proof.
  intros Hhead Hh Hc Hds Hsep Hclear Hold Hcap Hmax Hready Hseen Hfree.
  set (payload := VirtioNetHdr.to_bytes VirtioNetHdr.no_offload ++ frame).
  assert (Hpl : length payload = (12 + length frame)%nat)
    by (unfold payload; by rewrite length_app, net_hdr_to_bytes, net_hdr_fields_length).
  apply read_all_gather in Hold. unfold VIRTIO_NET_HDR_LEN, zlen in *.
  destruct (scatter_gather _ payload 0 mem old Hsep ltac:(lia) Hold) as (m1 & Hs & Hg & Hf).
  rewrite Nat.sub_0_r, Nat.min_l in Hs by lia.
  rewrite Nat.sub_0_r, slice_from_0, Nat.min_l, take_ge in Hg by lia.
  assert (Hnn : Forall (fun d => 0 <= VirtioQueue.Descriptor.len d) ds)
    by (apply separated_nonneg in Hsep; by rewrite Forall_fmap in Hsep).
  apply rx_scatter_vsock in Hs; [|apply Forall_and; split; [done|by eapply Forall_impl; [exact Hds|]; intros ? []]|lia].
  assert (Hring : net_used_ready (QueueConfig.device cfg) qsize m1 bs).
  { destruct Hready as [? ? ? ? Hr]. split; try done.
    apply vsock_read_ok. rewrite Hf; [by apply vsock_read_ok|].
    eapply Forall_impl; [exact Hclear|]. intros d Hd. unfold clear, apart in *. simpl. lia. }
  destruct (net_push_used_view _ _ m1 bs seen head (12 + Z.of_nat (length frame)) Hring Hseen Hh)
    as (m2 & bs1 & Hp & Hr2 & Hv & Hfr); [unfold MAX_FRAME_LEN, is_u32 in *; lia|done|].
  exists m2, bs1. split_and!; [| |done|done].
  - unfold rx_deliver, mbind, sm_bind, get_cursor, get_mem, sm_lift. cbn [fst snd].
    rewrite Hhead. cbn [map_err]. rewrite (items_chain _ _ _ Hc), rx_writable_all by done.
    cbn [app]. rewrite (proj2 (Z.ltb_ge _ _)).
    2: { apply (gather_zlen mem) in Hold; [|by apply separated_nonneg]. unfold zlen in *.
         rewrite <- list_fmap_compose in Hold.
         change (zsum ((VsockQueue.Descriptor.len ∘ seg) <$> ds))
           with (zsum (VirtioQueue.Descriptor.len <$> ds)) in Hold.
         rewrite <- Hold. exact Hcap. }
    cbn [negb orb]. fold payload. unfold lift_mem at 1. rewrite Hs. cbn [map_err].
    unfold lift_mem. rewrite Nat.add_0_l, Hpl, wrap32_small
      by (unfold MAX_FRAME_LEN, is_u32 in *; lia).
    replace (Z.of_nat (12 + length frame)) with (12 + Z.of_nat (length frame)) by lia.
    by rewrite Hp.
  - rewrite app_assoc. fold payload. rewrite <- Hpl. apply read_all_gather in Hg.
    apply (read_all_keep m1); [|done]. rewrite Forall_fmap in Hclear.
    rewrite Forall_forall in Hclear, Hnn |- *. intros d Hd x. apply Hfr.
    specialize (Hclear d Hd). specialize (Hnn d Hd). unfold clear, seg in Hclear. simpl in Hclear. lia.
Qed.
End Frames.

(** ** Properties *)

(** The 12-byte virtio-net header codec is lossless both ways, with or
    without a frame after it, and [write_to] changes only the header bytes. *)
Theorem net_header_codec h rest buf :
  VirtioNetHdr.wf h -> VIRTIO_NET_HDR_LEN <= zlen buf ->
  VirtioNetHdr.from_bytes (VirtioNetHdr.to_bytes h ++ rest) = Ok h /\
  VirtioNetHdr.write_to h buf = (Ok VIRTIO_NET_HDR_LEN, VirtioNetHdr.to_bytes h ++ drop 12 buf) /\
  (forall h', VirtioNetHdr.from_bytes buf = Ok h' ->
     VirtioNetHdr.wf h' /\ VirtioNetHdr.to_bytes h' = slice buf 0 12).
Proof.
  intros Hwf Hlen. rewrite net_hdr_to_bytes. split_and!.
  - by apply net_hdr_decode_encode.
  - unfold VirtioNetHdr.write_to. case_if; [lia|]. by rewrite net_hdr_put.
  - intros h' Hh. rewrite net_hdr_to_bytes. by apply net_hdr_encode_decode.
Qed.

Lemma net_header_codec_witness :
  VirtioNetHdr.from_bytes (VirtioNetHdr.to_bytes VirtioNetHdr.no_offload ++ [Byte.x61])
  = Ok VirtioNetHdr.no_offload.
Proof.
  apply (net_header_codec _ _ (replicate 12 Byte.x00)).
  - unfold VirtioNetHdr.wf. split_and!; vm_compute; split; discriminate || reflexivity.
  - vm_compute. discriminate.
Defined.

(** C4: One kick of either virtio-net queue does a bounded amount of work
    whatever the guest put in the rings. The cursor advances by at most the size
    the driver gave the queue, and by at most 256, also when the call fails half-way; on
    success the statistics count exactly the chains consumed, a transmit call
    catches up with the driver's index, a receive call does so or stops at a
    backend with no frame left, and every frame offered to the backend has
    between 60 and 1518 bytes. *)
Theorem net_process_bounded {M : Type}
  `{!GuestMem VirtioQueue.QueueError M, !GuestMemLaws VirtioQueue.QueueError M}
  {B : Type} `{!NetworkBackend B} (cfg : QueueConfig.t) c (mem : M) (b : B) :
  is_u16 (last_seen_avail c) -> is_u32 (QueueConfig.size cfg) ->
  let consumed st := wrap16 (last_seen_avail st.1.1 - last_seen_avail c) in
  (let (r, st) := process_tx cfg (c, mem, b) in
   consumed st <= QueueConfig.size cfg /\ consumed st <= 256 /\
   exists fs, sends b fs st.2 /\ Forall frame_ok fs /\ zlen fs <= consumed st + 1 /\
     match r with
     | Ok s => ProcessStats.completed_chains s = consumed st /\
         ProcessStats.frames_moved s = zlen fs /\ zlen fs <= consumed st /\
         (0 < consumed st ->
          net_read_u16 mem (wrap64 (QueueConfig.driver cfg + 2)) = Ok (last_seen_avail st.1.1))
     | Err _ => True
     end) /\
  (let (r, st) := process_rx cfg (c, mem, b) in
   consumed st <= QueueConfig.size cfg /\ consumed st <= 256 /\
   match r with
   | Ok s => ProcessStats.completed_chains s = consumed st /\
       0 <= ProcessStats.frames_moved s <= consumed st /\
       (0 < consumed st ->
        net_read_u16 mem (wrap64 (QueueConfig.driver cfg + 2)) = Ok (last_seen_avail st.1.1) \/
        exists b0, read_frame b0 (Z.to_nat MAX_FRAME_LEN) = (Ok [], st.2))
   | Err _ => True
   end).
Proof.
  intros Hc [Hsz _] consumed.
  assert (Hback : forall k, (Z.of_nat k <= 256) ->
            wrap16 (wrap16 (last_seen_avail c + Z.of_nat k) - last_seen_avail c) = Z.of_nat k)
    by (intros; ulia).
  assert (H0 : wrap16 (last_seen_avail c - last_seen_avail c) = 0) by by rewrite Z.sub_diag.
  split; unfold process_tx, process_rx, mbind, sm_bind, get_cursor, get_mem, sm_lift; cbn [fst snd];
    (destruct (prepare cfg (last_seen_avail c) mem) as [[[[qsize table] avail]|]|e] eqn:Hp;
     cbn [map_err]).
  - apply prepare_ok in Hp as (_ & -> & _ & Hq & _ & Hidx & Ha & Hd).
    destruct (tx_loop _ _ _ _ _ _ _) as [r [[c' mem'] b']] eqn:Hl.
    apply tx_loop_bounds in Hl; [|done|done|pose proof (wrap16_range (avail - last_seen_avail c)); unfold is_u16 in *; lia].
    destruct Hl as (k & fs & Hk & Hck & Hs & Hf & Hlen & Hr). unfold consumed. simpl.
    rewrite Hck, Hback by lia. split; [lia|]. split; [lia|]. exists fs. split_and!; [done..|].
    destruct r; [|done]. destruct Hr as (_ & Hca & -> & -> & Hl). simpl.
    rewrite <- Hck, Hca. split_and!; try done; lia.
  - unfold consumed. simpl. rewrite H0. split; [lia|]. split; [lia|]. exists []. split_and!; try done; constructor.
  - unfold consumed. simpl. rewrite H0. split; [lia|]. split; [lia|]. exists []. split_and!; try done; constructor.
  - apply prepare_ok in Hp as (_ & -> & _ & Hq & _ & Hidx & Ha & Hd).
    destruct (rx_loop _ _ _ _ _ _ _) as [r [[c' mem'] b']] eqn:Hl.
    pose proof Hl as Hstop. apply rx_loop_bounds in Hl as (k & Hk & Hck & Hr); [|done].
    unfold consumed. simpl. rewrite Hck, Hback by lia. split; [lia|]. split; [lia|]. destruct r; [|done].
    simpl in Hr. split_and!; [lia..|]. intros _. rewrite <- Hck, Hidx.
    apply rx_loop_stops in Hstop as [->|?]; [by left|by right|done|done|].
    pose proof (wrap16_range (avail - last_seen_avail c)). unfold is_u16 in *. lia.
  - unfold consumed. simpl. rewrite H0. split_and!; done || lia.
  - unfold consumed. simpl. rewrite H0. split_and!; done || lia.
Qed.

(** Memory of the examples: a queue of one entry with its descriptor table at 0,
    available ring at 16, used ring at 32 and a buffer of 76 bytes at 64. *)
Definition example_cfg : QueueConfig.t := QueueConfig.mk 1 true 0 16 32.
Definition example_mem (flags : Z) (buffer : bytes) : SliceGuestMemory.t :=
  SliceGuestMemory.mk 0
    (to_le 8 64 ++ to_le 4 72 ++ to_le 2 flags ++ to_le 2 0 ++
     to_le 2 0 ++ to_le 2 1 ++ to_le 2 0 ++ replicate 10 Byte.x00 ++
     replicate 32 Byte.x00 ++ buffer).

(** A kick with one published chain: the bounds say one chain at most was
    consumed, and the run shows it was. *)
Lemma net_process_bounded_witness :
  let mem := example_mem 0 (replicate 72 Byte.x2a) in
  let st := (process_tx example_cfg (mk_cursor 0, mem, MockBackend.new)).2 in
  wrap16 (last_seen_avail st.1.1 - 0) <= 1 /\ last_seen_avail st.1.1 = 1.
Proof.
  intros mem st. split; [|vm_compute; reflexivity].
  assert (Hc : is_u16 (last_seen_avail (mk_cursor 0))) by (vm_compute; split; discriminate || reflexivity).
  assert (Hs : is_u32 (QueueConfig.size example_cfg)) by (vm_compute; split; discriminate || reflexivity).
  pose proof (proj1 (net_process_bounded example_cfg (mk_cursor 0) mem MockBackend.new Hc Hs)) as H.
  subst st. destruct (process_tx _ _) as [r st]. exact (proj1 H).
Defined.

(** A transmitted chain reaches the network as the guest wrote it. For one
    published chain of readable, direct descriptors whose buffers hold a
    12-byte header and a frame of 60 to 1518 bytes, [process_tx] offers exactly
    that frame, without the header, to the backend, advances the cursor by one,
    and the driver sees exactly one more completion, of the chain's head with
    length 0. *)
Theorem net_tx_frame {M : Type}
  `{!GuestMem VirtioQueue.QueueError M, !GuestMemLaws VirtioQueue.QueueError M}
  {B : Type} `{!NetworkBackend B} (cfg : QueueConfig.t) qsize table c (mem : M) (b b1 : B)
  head ds hdr frame bs seen :
  is_u16 (last_seen_avail c) ->
  prepare cfg (last_seen_avail c) mem = Ok (Some (qsize, table, wrap16 (last_seen_avail c + 1))) ->
  net_read_u16 mem (wrap64 (QueueConfig.driver cfg + (4 + last_seen_avail c mod qsize * 2))) = Ok head ->
  is_u32 head -> chain_from table head ds ->
  Forall (fun d => VirtioQueue.Descriptor.wf d /\ VirtioQueue.Descriptor.is_indirect d = false /\
                   VirtioQueue.Descriptor.is_writable d = false) ds ->
  read_all mem ds = Ok (hdr ++ frame) -> length hdr = 12%nat -> frame_ok frame ->
  write_frame b frame = (Ok tt, b1) ->
  net_used_ready (QueueConfig.device cfg) qsize mem bs -> is_u16 seen ->
  wrap16 (used_idx bs - seen) < qsize ->
  exists mem1 bs1,
    process_tx cfg (c, mem, b) =
      (Ok (ProcessStats.mk 1 1), (mk_cursor (wrap16 (last_seen_avail c + 1)), mem1, b1)) /\
    mem_read mem1 (QueueConfig.device cfg) (used_len qsize) = Ok bs1 /\
    used_view bs1 qsize seen = used_view bs qsize seen ++ [(head, 0)].
Proof.
  intros Hc Hprep Hhead Hh Hchain Hds Hr Hlen Hf Hw Hready Hseen Hfree.
  destruct (net_push_used_view _ _ mem bs seen head 0 Hready Hseen Hh) as (mem1 & bs1 & Hp & Hr1 & Hv & _);
    [by vm_compute|done|].
  exists mem1, bs1. split_and!; [|done|done].
  unfold process_tx, mbind, sm_bind, get_cursor, get_mem, sm_lift. cbn [fst snd].
  rewrite Hprep. cbn [map_err].
  replace (Z.to_nat (wrap16 (wrap16 (last_seen_avail c + 1) - last_seen_avail c))) with 1%nat by ulia.
  cbn [tx_loop]. unfold mbind, sm_bind, get_cursor. cbn [fst snd].
  rewrite (proj2 (Z.eqb_neq _ _)) by ulia.
  by rewrite (tx_step_frame _ _ _ _ _ _ _ _ _ _ _ _ Hhead Hchain Hds Hr Hlen Hf Hw Hp).
Qed.

(** A 60-byte frame behind its header reaches the mock network. *)
Lemma net_tx_frame_witness :
  let frame := replicate 60 Byte.x2a in
  let mem := example_mem 0 (replicate 12 Byte.x00 ++ frame) in
  exists mem1, process_tx example_cfg (mk_cursor 0, mem, MockBackend.new) =
    (Ok (ProcessStats.mk 1 1), (mk_cursor 1, mem1, MockBackend.mk [] [frame])).
Proof.
  intros frame mem. pose (d := VirtioQueue.Descriptor.mk 64 72 0 0).
  assert (Hready : net_used_ready 32 1 mem (replicate 12 Byte.x00))
    by (split; vm_compute; reflexivity || discriminate).
  assert (Hchain : chain_from [d] 0 [d]) by (apply chain_last; reflexivity).
  destruct (net_tx_frame example_cfg 1 [d] (mk_cursor 0) mem MockBackend.new
    (MockBackend.mk [] [frame]) 0 [d] (replicate 12 Byte.x00) frame (replicate 12 Byte.x00) 0)
    as (mem1 & bs1 & H & _).
  - vm_compute; split; discriminate || reflexivity.
  - vm_compute; reflexivity.
  - vm_compute; reflexivity.
  - vm_compute; split; discriminate || reflexivity.
  - exact Hchain.
  - apply Forall_singleton. split_and!; [|reflexivity|reflexivity].
    unfold VirtioQueue.Descriptor.wf. split_and!; vm_compute; split; discriminate || reflexivity.
  - vm_compute; reflexivity.
  - reflexivity.
  - vm_compute; split; discriminate.
  - reflexivity.
  - exact Hready.
  - vm_compute; split; discriminate || reflexivity.
  - vm_compute; reflexivity.
  - exists mem1. exact H.
Defined.

(** A received frame reaches the guest intact. When the backend has a frame
    and one chain of writable, direct descriptors is published whose buffers
    are in guest memory, disjoint from each other and from the used ring, and
    have room for it, [process_rx] leaves in the buffers the no-offload header,
    the frame, and otherwise their old contents, and the driver sees exactly
    one more completion, of the chain's head with length 12 plus the frame's. *)
Theorem net_rx_delivery {M : Type}
  `{!GuestMem VirtioQueue.QueueError M, !GuestMemLaws VirtioQueue.QueueError M}
  {B : Type} `{!NetworkBackend B, !NetworkBackendLaws B}
  (cfg : QueueConfig.t) qsize table c (mem : M) (b b1 : B) head ds frame old bs seen :
  is_u16 (last_seen_avail c) ->
  prepare cfg (last_seen_avail c) mem = Ok (Some (qsize, table, wrap16 (last_seen_avail c + 1))) ->
  read_frame b (Z.to_nat MAX_FRAME_LEN) = (Ok frame, b1) -> frame <> [] ->
  net_read_u16 mem (wrap64 (QueueConfig.driver cfg + (4 + last_seen_avail c mod qsize * 2))) = Ok head ->
  is_u32 head -> chain_from table head ds ->
  Forall (fun d => VirtioQueue.Descriptor.is_indirect d = false /\
                   VirtioQueue.Descriptor.is_writable d = true) ds ->
  separated (seg <$> ds) -> Forall (clear (QueueConfig.device cfg) (used_len qsize)) (seg <$> ds) ->
  read_all mem ds = Ok old -> VIRTIO_NET_HDR_LEN + zlen frame <= zlen old ->
  net_used_ready (QueueConfig.device cfg) qsize mem bs -> is_u16 seen ->
  wrap16 (used_idx bs - seen) < qsize ->
  exists mem1 bs1,
    process_rx cfg (c, mem, b) =
      (Ok (ProcessStats.mk 1 1), (mk_cursor (wrap16 (last_seen_avail c + 1)), mem1, b1)) /\
    read_all mem1 ds =
      Ok (VirtioNetHdr.to_bytes VirtioNetHdr.no_offload ++ frame ++ drop (12 + length frame) old) /\
    mem_read mem1 (QueueConfig.device cfg) (used_len qsize) = Ok bs1 /\
    used_view bs1 qsize seen =
      used_view bs qsize seen ++ [(head, VIRTIO_NET_HDR_LEN + zlen frame)].
Proof.
  intros Hc Hprep Hrf Hne Hhead Hh Hchain Hds Hsep Hclear Hold Hcap Hready Hseen Hfree.
  assert (Hmax : zlen frame <= MAX_FRAME_LEN)
    by (apply read_frame_length in Hrf; unfold zlen, MAX_FRAME_LEN in *; lia).
  destruct (rx_deliver_frame cfg qsize table c mem b1 head ds frame old bs seen)
    as (mem1 & bs1 & Hd & Hr & Hb & Hv); [done..|].
  exists mem1, bs1. split_and!; [|done..].
  unfold process_rx, mbind, sm_bind, get_cursor, get_mem, sm_lift. cbn [fst snd].
  rewrite Hprep. cbn [map_err].
  replace (Z.to_nat (wrap16 (wrap16 (last_seen_avail c + 1) - last_seen_avail c))) with 1%nat by ulia.
  cbn [rx_loop]. unfold mbind, sm_bind, get_cursor, lift_backend. cbn [fst snd].
  rewrite (proj2 (Z.eqb_neq _ _)) by ulia. rewrite Hrf.
  destruct frame as [|x frame]; [done|]. cbn [length Nat.eqb]. by rewrite Hd.
Qed.

(** A three-byte frame from the mock network lands behind its header. *)
Lemma net_rx_delivery_witness :
  let frame := [Byte.x61; Byte.x62; Byte.x63] in
  let mem := example_mem 2 (replicate 72 Byte.x2e) in
  exists mem1, process_rx example_cfg (mk_cursor 0, mem, MockBackend.inject_rx frame MockBackend.new) =
    (Ok (ProcessStats.mk 1 1), (mk_cursor 1, mem1, MockBackend.new)) /\
    (got ← (mem_read mem1 64 72 : result VirtioQueue.QueueError bytes); Ok (slice got 12 3)) = Ok frame.
Proof.
  intros frame mem. pose (d := VirtioQueue.Descriptor.mk 64 72 2 0).
  assert (Hready : net_used_ready 32 1 mem (replicate 12 Byte.x00))
    by (split; vm_compute; reflexivity || discriminate).
  assert (Hchain : chain_from [d] 0 [d]) by (apply chain_last; reflexivity).
  destruct (net_rx_delivery example_cfg 1 [d] (mk_cursor 0) mem
    (MockBackend.inject_rx frame MockBackend.new) MockBackend.new 0 [d] frame
    (replicate 72 Byte.x2e) (replicate 12 Byte.x00) 0) as (mem1 & bs1 & H & Hr & _).
  - vm_compute; split; discriminate || reflexivity.
  - vm_compute; reflexivity.
  - vm_compute; reflexivity.
  - discriminate.
  - vm_compute; reflexivity.
  - vm_compute; split; discriminate || reflexivity.
  - exact Hchain.
  - apply Forall_singleton. split; reflexivity.
  - split; [vm_compute; discriminate|split; [constructor|exact I]].
  - apply Forall_singleton. right. vm_compute. discriminate.
  - vm_compute; reflexivity.
  - vm_compute; discriminate.
  - exact Hready.
  - vm_compute; split; discriminate || reflexivity.
  - vm_compute; reflexivity.
  - exists mem1. split; [exact H|]. cbn [read_all] in Hr.
    change (VirtioQueue.Descriptor.addr d) with 64 in Hr.
    change (Z.to_nat (VirtioQueue.Descriptor.len d)) with 72%nat in Hr.
    destruct (mem_read mem1 64 72) as [got|e]; [|discriminate Hr].
    cbn in Hr. rewrite app_nil_r in Hr. injection Hr as ->. vm_compute. reflexivity.
Defined.
