(* ===== verification/NetDevice.v ===== *)
(** * virtio-net: transport, device and the VMM's side of it

    Models [crates/virtio-net/src/mmio.rs] (whose register block is the one of
    [Mmio]: the accessors, [read], [write] and the private helpers are the same
    code), [device.rs], and [crates/vm-kvm/src/virtio_net_dev.rs], which routes
    guest accesses to the device, drains kicked queues and pulses the interrupt
    line. The KVM file descriptor is a parameter. *)

From S2P Require Import Prelude GuestMemory VsockQueue VirtioQueue Mmio NetQueue.

Definition VIRTIO_ID_NET : Z := 1.
Definition VIRTIO_NET_F_MAC : Z := Z.shiftl 1 5.
Definition VIRTIO_NET_F_STATUS : Z := Z.shiftl 1 16.
Definition VIRTIO_NET_S_LINK_UP : Z := 1.
Definition VIRTIO_NET_NUM_QUEUES : nat := 2.
Definition RX_QUEUE_INDEX : Z := 0.
Definition TX_QUEUE_INDEX : Z := 1.
Definition VIRTIO_MMIO_INT_CONFIG : Z := 2.
Definition CONFIG_SIZE : nat := 12.

Module NetMmio.

Definition t : Type := MmioTransport.t.

Definition new_net (mac : bytes) : t :=
  let config := replicate CONFIG_SIZE Byte.x00 in
  let config := splice config 0 mac in
  let config := splice config 6 (to_le 2 VIRTIO_NET_S_LINK_UP) in
  let config := splice config 8 (to_le 2 1) in
  let config := splice config 10 (to_le 2 0) in
  {| MmioTransport.device_id := VIRTIO_ID_NET;
     MmioTransport.device_features :=
       Z.lor (Z.lor VIRTIO_F_VERSION_1 VIRTIO_NET_F_MAC) VIRTIO_NET_F_STATUS;
     MmioTransport.config := config;
     MmioTransport.device_features_sel := 0;
     MmioTransport.driver_features := 0;
     MmioTransport.driver_features_sel := 0;
     MmioTransport.status := 0;
     MmioTransport.queue_sel := 0;
     MmioTransport.queues := replicate VIRTIO_NET_NUM_QUEUES QueueConfig.default;
     MmioTransport.interrupt_status := 0;
     MmioTransport.config_generation := 0;
     MmioTransport.pending_notify := None |}.

(** The code shared with virtio-vsock. *)
Definition driver_ok : t -> bool := MmioTransport.driver_ok.
Definition queue : t -> nat -> option QueueConfig.t := MmioTransport.queue.
Definition take_notify : t -> option QueueNotify * t := MmioTransport.take_notify.
Definition interrupt_asserted : t -> bool := MmioTransport.interrupt_asserted.
Definition read : t -> Z -> nat -> Z := MmioTransport.read.
Definition write : Z -> nat -> Z -> t -> t := MmioTransport.write.

Definition negotiated_features (m : t) : Z :=
  Z.land (MmioTransport.device_features m) (MmioTransport.driver_features m).

Definition raise_vring_interrupt (m : t) : t :=
  MmioTransport.set_interrupt_status
    (Z.lor (MmioTransport.interrupt_status m) VIRTIO_MMIO_INT_VRING) m.

Definition raise_config_interrupt (m : t) : t :=
  MmioTransport.set_interrupt_status
    (Z.lor (MmioTransport.interrupt_status m) VIRTIO_MMIO_INT_CONFIG) m.

Definition set_link_status (status : Z) (m : t) : t :=
  MmioTransport.set_config (splice (MmioTransport.config m) 6 (to_le 2 status))
    (wrap32 (MmioTransport.config_generation m + 1)) m.

End NetMmio.

Module VirtioNetDevice.
Section Device.
Context {B : Type}.

Record t : Type := mk { transport : NetMmio.t; backend : B; mac : bytes }.

Definition with_backend_arc (backend : B) (mac : bytes) : t := mk (NetMmio.new_net mac) backend mac.

Definition driver_ok (d : t) : bool := NetMmio.driver_ok (transport d).
Definition negotiated_features (d : t) : Z := NetMmio.negotiated_features (transport d).
Definition interrupt_asserted (d : t) : bool := NetMmio.interrupt_asserted (transport d).
Definition mmio_read (d : t) (offset : Z) (size : nat) : Z := NetMmio.read (transport d) offset size.

Definition mmio_write (offset : Z) (size : nat) (value : Z) (d : t) : option Z * t :=
  let (q, tr) := NetMmio.take_notify (NetMmio.write offset size value (transport d)) in
  (q, mk tr (backend d) (mac d)).

Definition raise_vring_interrupt (d : t) : t :=
  mk (NetMmio.raise_vring_interrupt (transport d)) (backend d) (mac d).

Definition status (d : t) : Z := MmioTransport.status (transport d).
End Device.
Arguments t : clear implicits.
End VirtioNetDevice.

(** ** The VMM side *)

Definition NET_MMIO_BASE : Z := 0xd0001000.
Definition NET_MMIO_SIZE : Z := 0x1000.
Definition NET_MMIO_IRQ : Z := 6.

Definition window_offset (addr : Z) : option Z :=
  if addr <? NET_MMIO_BASE then None
  else
    let off := addr - NET_MMIO_BASE in
    if off <? NET_MMIO_SIZE then Some off else None.

Section KvmNetGuestMemory.
Context {E M : Type} `{!GuestMem E M, !GuestMemLaws E M}.

(** The adapter over the memory map of the [vm-memory] crate. *)
Definition KvmNetGuestMemory : GuestMem VirtioQueue.QueueError M :=
  adapt_mem (fun addr len _ =>
    GuestMemoryOutOfBounds addr (SliceGuestMemory.clamp32 (Z.of_nat len)) 0 0).

Lemma KvmNetGuestMemory_laws : @GuestMemLaws VirtioQueue.QueueError M KvmNetGuestMemory.
Proof. apply adapt_mem_laws. Qed.
End KvmNetGuestMemory.

(** [VmFd::set_irq_line]: the VM's interrupt lines, after the call too. *)
Class IrqLines (V : Type) := set_irq_line : V -> Z -> bool -> result Z unit * V.

Inductive DrainError : Type :=
| ProcessTx (e : VirtioNetError) | ProcessRx (e : VirtioNetError)
| AssertIrq (irq code : Z) | DeassertIrq (irq code : Z).

Module NetBackend.
Section Backend.
Context {B : Type} `{!NetworkBackend B}.
Context {M : Type} `{!GuestMem VirtioQueue.QueueError M}.
Context {V : Type} `{!IrqLines V}.

(** [tx] and [rx] are the [NetQueueCursors]; guest memory and the VM are shared
    handles, so their current state is part of the backend's. *)
Record t : Type := mk {
  device : VirtioNetDevice.t B;
  tx : QueueCursor;
  rx : QueueCursor;
  guest_mem : M;
  vm_fd : V;
  irq : Z;
}.

Definition new (mac : bytes) (device_backend : B) (guest_mem : M) (vm_fd : V) : t :=
  {| device := VirtioNetDevice.with_backend_arc device_backend mac;
     tx := mk_cursor 0; rx := mk_cursor 0; guest_mem := guest_mem; vm_fd := vm_fd;
     irq := NET_MMIO_IRQ |}.

(** The bytes an MMIO read of [n] bytes stores in the exit's buffer. *)
Definition read (nb : t) (offset : Z) (n : nat) : bytes :=
  let bytes := to_le 8 (VirtioNetDevice.mmio_read (device nb) offset n) in
  (fun i => default Byte.x00 (bytes !! i)) <$> seq 0 n.

Definition write (offset : Z) (data : bytes) (nb : t) : option Z * t :=
  let buf := splice (replicate 8 Byte.x00) 0 (take 8 data) in
  let value := from_le buf in
  let (q, d) := VirtioNetDevice.mmio_write offset (length data) value (device nb) in
  (q, mk d (tx nb) (rx nb) (guest_mem nb) (vm_fd nb) (irq nb)).

(** The outcome of draining, put back into the backend. *)
Definition set_backend (b : B) (d : VirtioNetDevice.t B) : VirtioNetDevice.t B :=
  VirtioNetDevice.mk (VirtioNetDevice.transport d) b (VirtioNetDevice.mac d).

(** Steps 2 and 3: drain outside the device lock. *)
Definition drain (queue_idx : Z) (cfg : QueueConfig.t) (nb : t)
  : result DrainError ProcessStats.t * t :=
  let b := VirtioNetDevice.backend (device nb) in
  if queue_idx =? TX_QUEUE_INDEX then
    let '(r, (c, mem, b)) := process_tx cfg (tx nb, guest_mem nb, b) in
    (map_err ProcessTx r, mk (set_backend b (device nb)) c (rx nb) mem (vm_fd nb) (irq nb))
  else
    let '(r, (c, mem, b)) := process_rx cfg (rx nb, guest_mem nb, b) in
    (map_err ProcessRx r, mk (set_backend b (device nb)) (tx nb) c mem (vm_fd nb) (irq nb)).

(** Steps 4 and 5: flag the interrupt and pulse the line. *)
Definition pulse (nb : t) : result DrainError unit * t :=
  let d := VirtioNetDevice.raise_vring_interrupt (device nb) in
  let keep v := mk d (tx nb) (rx nb) (guest_mem nb) v (irq nb) in
  match set_irq_line (vm_fd nb) (irq nb) true with
  | (Err e, v) => (Err (AssertIrq (irq nb) e), keep v)
  | (Ok _, v) =>
      match set_irq_line v (irq nb) false with
      | (Err e, v) => (Err (DeassertIrq (irq nb) e), keep v)
      | (Ok _, v) => (Ok tt, keep v)
      end
  end.

Definition drain_queue (queue_idx : Z) (nb : t) : result DrainError unit * t :=
  match NetMmio.queue (VirtioNetDevice.transport (device nb)) (Z.to_nat queue_idx) with
  | None => (Ok tt, nb)
  | Some cfg =>
      if negb (queue_idx =? TX_QUEUE_INDEX) && negb (queue_idx =? RX_QUEUE_INDEX)
      then (Ok tt, nb)
      else
        match drain queue_idx cfg nb with
        | (Err e, nb) => (Err e, nb)
        | (Ok stats, nb) =>
            if ProcessStats.should_raise_interrupt stats then pulse nb else (Ok tt, nb)
        end
  end.

Definition status (nb : t) : Z := VirtioNetDevice.status (device nb).
Definition driver_ok (nb : t) : bool := VirtioNetDevice.driver_ok (device nb).
End Backend.
Arguments t : clear implicits.
End NetBackend.

(** ** Lemmas *)

Section NetTransport.
Implicit Types (m : NetMmio.t) (mac : bytes).

Lemma new_net_config mac :
  length mac = 6%nat ->
  MmioTransport.config (NetMmio.new_net mac) = mac ++ to_le 2 1 ++ to_le 2 1 ++ to_le 2 0.
Proof.
  intros Hm. unfold NetMmio.new_net. cbn [MmioTransport.config]. unfold CONFIG_SIZE.
  rewrite splice_0. repeat (rewrite splice_app by len).
  rewrite ?to_le_length, ?drop_drop, <- ?app_assoc. rewrite Hm.
  rewrite (drop_ge (replicate 12 _)) by len. by rewrite app_nil_r.
Qed.

Lemma new_net_ok mac : mmio_ok (NetMmio.new_net mac).
Proof. split; try done. apply Forall_replicate. repeat split; done. Qed.

(** The device side may also change the link status. *)
Inductive NetMmioOp : Type :=
| NWrite (offset : Z) (size : nat) (value : Z) | NTake | NRaiseVring | NRaiseConfig
| NLink (status : Z).

Definition net_mmio_exec (o : NetMmioOp) m : NetMmio.t :=
  match o with
  | NWrite off n v => NetMmio.write off n v m
  | NTake => (NetMmio.take_notify m).2
  | NRaiseVring => NetMmio.raise_vring_interrupt m
  | NRaiseConfig => NetMmio.raise_config_interrupt m
  | NLink s => NetMmio.set_link_status s m
  end.

Lemma net_mmio_exec_ok o m :
  mmio_ok m -> length (MmioTransport.config m) = 12%nat ->
  mmio_ok (net_mmio_exec o m) /\ identity (net_mmio_exec o m) = identity m.
Proof.
  intros Hok Hc. destruct o as [off n v| | | |s]; simpl.
  - by apply (mmio_exec_ok (MWrite off n v)).
  - by apply (mmio_exec_ok MTake).
  - by apply (mmio_exec_ok MRaise).
  - destruct Hok. split; [split; try done|done]. apply lor_u32; [done|]. by vm_compute.
  - destruct Hok. split; [split; try done; apply wrap32_range|].
    unfold identity. simpl. by rewrite splice_length by len.
Qed.

Lemma net_mmio_run_ok ops mac :
  length mac = 6%nat ->
  let m := foldl (flip net_mmio_exec) (NetMmio.new_net mac) ops in
  mmio_ok m /\ identity m = identity (NetMmio.new_net mac).
Proof.
  intros Hm. induction ops as [|o ops IH] using rev_ind; cbv zeta in *.
  { split; [apply new_net_ok|done]. }
  rewrite foldl_snoc. destruct IH as [IHok IHid].
  unfold flip at 1 3. rewrite <- IHid. apply net_mmio_exec_ok; [done|].
  etrans; [exact (f_equal (fun x => x.1.2) IHid)|].
  unfold identity. cbn [fst snd]. rewrite new_net_config by done. len.
Qed.
End NetTransport.

Section Draining.
Context {B} `{!NetworkBackend B} {M} `{!GuestMem VirtioQueue.QueueError M} {V} `{!IrqLines V}.
Implicit Types (nb : NetBackend.t B M V).

(** Draining moves frames, memory and one cursor, never the registers. *)
Lemma drain_fixed q cfg nb r nb1 :
  NetBackend.drain q cfg nb = (r, nb1) ->
  VirtioNetDevice.transport (NetBackend.device nb1) = VirtioNetDevice.transport (NetBackend.device nb) /\
  NetBackend.vm_fd nb1 = NetBackend.vm_fd nb /\ NetBackend.irq nb1 = NetBackend.irq nb /\
  (if q =? TX_QUEUE_INDEX then NetBackend.rx nb1 = NetBackend.rx nb
   else NetBackend.tx nb1 = NetBackend.tx nb).
Proof.
  unfold NetBackend.drain. case_if.
  - destruct (process_tx _ _) as [r1 [[c mem] b]]. by intros [= _ <-].
  - destruct (process_rx _ _) as [r1 [[c mem] b]]. by intros [= _ <-].
Qed.

Lemma pulse_spec nb r nb' :
  NetBackend.pulse nb = (r, nb') ->
  VirtioNetDevice.transport (NetBackend.device nb') =
    NetMmio.raise_vring_interrupt (VirtioNetDevice.transport (NetBackend.device nb)) /\
  NetBackend.rx nb' = NetBackend.rx nb /\ NetBackend.tx nb' = NetBackend.tx nb /\
  (r = Ok tt -> exists v,
     set_irq_line (NetBackend.vm_fd nb) (NetBackend.irq nb) true = (Ok tt, v) /\
     set_irq_line v (NetBackend.irq nb) false = (Ok tt, NetBackend.vm_fd nb')).
Proof.
  unfold NetBackend.pulse. destruct (set_irq_line _ _ true) as [[[]|e] v] eqn:H1.
  - destruct (set_irq_line v _ false) as [[[]|e] v2] eqn:H2; intros [= <- <-];
      split_and!; try done. by exists v.
  - intros [= <- <-]. by split_and!.
Qed.
End Draining.

(** ** Properties *)

(** The network device only ever negotiates what it offers. After any use
    of its register window, with the device raising interrupts and changing the
    link status in between, its identity is unchanged and registers keep their
    widths, the negotiated features are a subset of the offered ones
    ([VERSION_1], [MAC], [STATUS]), and a link-status change is what the guest
    then reads at its place in the config space. *)
Theorem net_transport_invariant mac ops status :
  length mac = 6%nat -> is_u16 status ->
  let m := foldl (flip net_mmio_exec) (NetMmio.new_net mac) ops in
  let offered := Z.lor (Z.lor (2 ^ 32) (2 ^ 5)) (2 ^ 16) in
  mmio_ok m /\ identity m = (1, offered, 12%nat, 2%nat) /\
  Z.ldiff (NetMmio.negotiated_features m) offered = 0 /\
  NetMmio.read (NetMmio.set_link_status status m) (reg.CONFIG_SPACE + 6) 2 = status.
Proof.
  intros Hm Hs m offered. destruct (net_mmio_run_ok ops mac Hm) as [Hok Hid]. fold m in Hok, Hid.
  assert (Hid' : identity m = (1, offered, 12%nat, 2%nat)).
  { rewrite Hid. unfold identity. rewrite new_net_config by done. repeat f_equal. len. }
  split_and!; [done|done| |].
  - assert (Hf : MmioTransport.device_features m = offered) by by injection Hid'.
    unfold NetMmio.negotiated_features. rewrite Hf, Z.land_comm, Z.ldiff_land, <- Z.land_assoc.
    by rewrite Z.land_lnot_diag, Z.land_0_r.
  - assert (Hl : length (MmioTransport.config m) = 12%nat) by by injection Hid'.
    unfold NetMmio.read, NetMmio.set_link_status, MmioTransport.read. simpl.
    rewrite read_config_bytes, config_bytes_in by (unfold zlen; simpl; len).
    simpl. change (Z.to_nat 6) with 6%nat. slices. by apply from_to_le16.
Qed.

Lemma net_transport_invariant_witness :
  let mac := replicate 6 Byte.x52 in
  let m := NetMmio.write reg.DRIVER_FEATURES 4 0xff (NetMmio.new_net mac) in
  Z.ldiff (NetMmio.negotiated_features m) (Z.lor (Z.lor (2 ^ 32) (2 ^ 5)) (2 ^ 16)) = 0.
Proof.
  intros mac m.
  refine (proj1 (proj2 (proj2 (net_transport_invariant mac [NWrite reg.DRIVER_FEATURES 4 0xff] 1 _ _)))).
  - reflexivity.
  - vm_compute; split; discriminate || reflexivity.
Defined.

(** Draining a kicked queue touches only that queue's cursor and interrupts
    the guest exactly when it must. A kick for any other index is ignored. For
    the two real queues, if the call succeeds the interrupt bit is set and the
    line pulsed, asserted then deasserted, exactly when at least one chain was
    returned to the driver; if processing the queue fails the interrupt is
    neither flagged nor pulsed. *)
Theorem net_drain_queue {B} `{!NetworkBackend B} {M} `{!GuestMem VirtioQueue.QueueError M}
  {V} `{!IrqLines V} (q : Z) (nb : NetBackend.t B M V) :
  let (r, nb') := NetBackend.drain_queue q nb in
  let tr := VirtioNetDevice.transport (NetBackend.device nb) in
  let tr' := VirtioNetDevice.transport (NetBackend.device nb') in
  (q <> RX_QUEUE_INDEX -> NetBackend.rx nb' = NetBackend.rx nb) /\
  (q <> TX_QUEUE_INDEX -> NetBackend.tx nb' = NetBackend.tx nb) /\
  (q <> RX_QUEUE_INDEX -> q <> TX_QUEUE_INDEX -> r = Ok tt /\ nb' = nb) /\
  (forall cfg stats nb1,
     NetMmio.queue tr (Z.to_nat q) = Some cfg -> q = RX_QUEUE_INDEX \/ q = TX_QUEUE_INDEX ->
     NetBackend.drain q cfg nb = (Ok stats, nb1) ->
     if 0 <? ProcessStats.completed_chains stats then
       tr' = NetMmio.raise_vring_interrupt tr /\
       (r = Ok tt -> exists v,
          set_irq_line (NetBackend.vm_fd nb) (NetBackend.irq nb) true = (Ok tt, v) /\
          set_irq_line v (NetBackend.irq nb) false = (Ok tt, NetBackend.vm_fd nb'))
     else r = Ok tt /\ nb' = nb1 /\ tr' = tr /\ NetBackend.vm_fd nb' = NetBackend.vm_fd nb) /\
  (forall cfg e nb1,
     NetMmio.queue tr (Z.to_nat q) = Some cfg -> q = RX_QUEUE_INDEX \/ q = TX_QUEUE_INDEX ->
     NetBackend.drain q cfg nb = (Err e, nb1) ->
     r = Err e /\ tr' = tr /\ NetBackend.vm_fd nb' = NetBackend.vm_fd nb).
Proof.
  unfold NetBackend.drain_queue.
  destruct (NetMmio.queue _ _) as [cfg|] eqn:Hq; [|by split_and!].
  destruct (negb (q =? TX_QUEUE_INDEX) && negb (q =? RX_QUEUE_INDEX)) eqn:Hk.
  { bool_to_prop. split_and!; try done; by intros ? ? ? _ [|]. }
  assert (Hreal : q = RX_QUEUE_INDEX \/ q = TX_QUEUE_INDEX)
    by (destruct (Z.eqb_spec q TX_QUEUE_INDEX), (Z.eqb_spec q RX_QUEUE_INDEX); auto; done).
  destruct (NetBackend.drain q cfg nb) as [[stats|e] nb1] eqn:Hd;
    pose proof (drain_fixed _ _ _ _ _ Hd) as (Htr & Hv & Hi & Hc).
  - unfold ProcessStats.should_raise_interrupt.
    destruct (0 <? ProcessStats.completed_chains stats) eqn:Hs.
    + destruct (NetBackend.pulse nb1) as [r nb2] eqn:Hp.
      apply pulse_spec in Hp as (Ht & Hrx & Htx & Hirq). rewrite Htr, Hv, Hi in *.
      rewrite Hrx, Htx. destruct Hreal as [->| ->]; simpl in Hc; split_and!; try done;
        intros cfg' x nb' [= <-] _; rewrite Hd; intros [= <- <-]; by rewrite Hs.
    + destruct Hreal as [->| ->]; simpl in Hc; split_and!; try done;
        intros cfg' x nb' [= <-] _; rewrite Hd; intros [= <- <-]; by rewrite Hs.
  - destruct Hreal as [->| ->]; simpl in Hc; split_and!; try done;
      intros cfg' x nb' [= <-] _; rewrite Hd; by intros [= <- <-].
Qed.
