(* ===== verification/Io.v ===== *)
(** * Byte streams and serialisation

    The parts of [std::io] and [tokio::io] the program reads and writes frames
    with, and the interface of [serde_json], which is an external crate.

    A reader is the bytes the peer will send and what happens after them: an
    orderly close, which [read_exact] reports as [UnexpectedEof], or a transport
    error. A writer is what has been written and, if the transport breaks, how
    many more bytes it accepts before it does. *)

From S2P Require Import Prelude.

Inductive IoErrorKind : Type :=
| UnexpectedEof
| BrokenPipe
| InvalidData
| OtherIo (errno : Z).

#[global] Instance IoErrorKind_eq_dec : EqDecision IoErrorKind.
Proof. solve_decision. Defined.

Module Reader.
Record t : Type := mk { data : bytes; at_end : IoErrorKind }.

Definition read_exact (n : nat) : SM t IoErrorKind bytes := fun r =>
  if (n <=? length (data r))%nat
  then (Ok (take n (data r)), mk (drop n (data r)) (at_end r))
  else (Err (at_end r), mk [] (at_end r)).
End Reader.

Module Writer.
Record t : Type := mk { written : bytes; room : option nat }.

Definition fits (bs : bytes) (w : t) : Prop :=
  match room w with None => True | Some n => (length bs <= n)%nat end.

Definition write_all (bs : bytes) : SM t IoErrorKind unit := fun w =>
  match room w with
  | None => (Ok tt, mk (written w ++ bs) None)
  | Some n =>
      if (length bs <=? n)%nat
      then (Ok tt, mk (written w ++ bs) (Some (n - length bs)%nat))
      else (Err BrokenPipe, mk (written w ++ take n bs) (Some 0%nat))
  end.

Definition flush : SM t IoErrorKind unit := mret tt.
End Writer.

(** [serde_json]: what serialising a value emits, with the outcome ([to_writer]
    may fail after having emitted some bytes), and parsing. *)
Class Serde (JE T : Type) := {
  to_json : T -> result JE unit * bytes;
  from_json : bytes -> result JE T;
}.

(** Derived [Serialize] and [Deserialize] are inverse to each other. *)
Class SerdeLaws (JE T : Type) `{!Serde JE T} := {
  json_roundtrip v js : to_json v = (Ok tt, js) -> from_json js = Ok v;
}.

(** [serde_json::to_vec] *)
Definition to_vec {JE T} `{!Serde JE T} (v : T) : result JE bytes :=
  let (r, js) := to_json v in _ ← r; Ok js.

Lemma to_vec_ok {JE T} `{!Serde JE T} (v : T) js :
  to_vec v = Ok js <-> to_json v = (Ok tt, js).
Proof.
  unfold to_vec. destruct (to_json v) as [[[]|e] bs]; simpl; split; try done.
  - by intros [= ->].
  - by intros [= ->].
Qed.

(** A codec that numbers the values of a list: the values it knows are written
    in unary, every other value fails to serialise. It is the instance the
    witnesses of the clients run on. *)
Section TableCodec.
Context {T : Type} `{!EqDecision T} (table : list T).

Definition table_json (v : T) : result unit unit * bytes :=
  match list_find (fun x => x = v) table with
  | Some (i, _) => (Ok tt, replicate i Byte.x61)
  | None => (Err tt, [])
  end.

Definition table_parse (bs : bytes) : result unit T := ok_or tt (table !! length bs).

Definition table_serde : Serde unit T := {| to_json := table_json; from_json := table_parse |}.

Lemma table_serde_laws : @SerdeLaws unit T table_serde.
Proof.
  split. intros v js. unfold to_json, table_serde, table_json.
  destruct (list_find _ table) as [[i x]|] eqn:Hf; [|done]. intros [= <-].
  apply list_find_Some in Hf as (Hl & -> & _).
  unfold from_json, table_parse. by rewrite length_replicate, Hl.
Qed.
End TableCodec.

(** ** Reading and writing *)

Section Streams.
Implicit Types (r : Reader.t) (w : Writer.t).

Lemma read_exact_app n bs rest e :
  length bs = n ->
  Reader.read_exact n (Reader.mk (bs ++ rest) e) = (Ok bs, Reader.mk rest e).
Proof.
  intros <-. unfold Reader.read_exact. simpl.
  rewrite length_app, (proj2 (Nat.leb_le _ _)) by lia.
  by rewrite take_app_length, drop_app_length.
Qed.

Lemma read_exact_short n bs e :
  (length bs < n)%nat -> Reader.read_exact n (Reader.mk bs e) = (Err e, Reader.mk [] e).
Proof. intros. unfold Reader.read_exact. simpl. by rewrite (proj2 (Nat.leb_gt _ _)). Qed.

Lemma read_exact_inv n r bs r' :
  Reader.read_exact n r = (Ok bs, r') ->
  Reader.data r = bs ++ Reader.data r' /\ length bs = n /\ Reader.at_end r' = Reader.at_end r.
Proof.
  unfold Reader.read_exact. destruct (n <=? length (Reader.data r))%nat eqn:Hn; [|done].
  apply Nat.leb_le in Hn. intros [= <- <-]. simpl. rewrite take_drop. split_and!; [done|len|done].
Qed.

(** A computation that emits exactly [bs] on a writer: success appends them,
    failure happens only when they do not fit and leaves a prefix of them. *)
Definition writes {E} (c : SM Writer.t E unit) (bs : bytes) : Prop := forall w,
  match c w with
  | (Ok _, w') => Writer.written w' = Writer.written w ++ bs /\
      (forall bs', Writer.fits (bs ++ bs') w -> Writer.fits bs' w')
  | (Err _, w') => (exists k, Writer.written w' = Writer.written w ++ take k bs) /\
      ~ Writer.fits bs w
  end.

Lemma fits_app_l bs bs' w : Writer.fits (bs ++ bs') w -> Writer.fits bs w.
Proof. unfold Writer.fits. destruct (Writer.room w); [|done]. rewrite length_app. lia. Qed.

Lemma writes_all {E} (f : IoErrorKind -> E) bs :
  writes (fun w => let (r, w) := Writer.write_all bs w in (map_err f r, w)) bs.
Proof.
  intros w. unfold Writer.write_all, Writer.fits. destruct (Writer.room w) as [n|]; [|done].
  destruct (length bs <=? n)%nat eqn:Hn; simpl.
  - apply Nat.leb_le in Hn. split; [done|]. intros bs'. rewrite length_app. lia.
  - apply Nat.leb_gt in Hn. split; [by exists n|lia].
Qed.

Lemma writes_nil {E} : @writes E (mret tt) [].
Proof. intros w. simpl. by rewrite app_nil_r. Qed.

Lemma writes_bind {E} (c d : SM Writer.t E unit) bs bs' :
  writes c bs -> writes d bs' -> writes (_ ← c; d) (bs ++ bs').
Proof.
  intros Hc Hd w. specialize (Hc w). unfold mbind, sm_bind. destruct (c w) as [[[]|e] w1].
  - destruct Hc as [Hw Hf]. specialize (Hd w1). destruct (d w1) as [[[]|e] w2].
    + destruct Hd as [Hw2 Hf2]. split; [by rewrite Hw2, Hw, app_assoc|].
      intros bs''. rewrite <- app_assoc. auto.
    + destruct Hd as [(k & Hk) Hn]. split; [|by intros ?%Hf].
      exists (length bs + k)%nat. by rewrite Hk, Hw, take_app_add, app_assoc.
  - destruct Hc as [(k & Hk) Hn]. split; [|by intros ?%fits_app_l].
    exists (Nat.min k (length bs)). rewrite Hk, take_app_le by lia.
    by rewrite <- take_take, (take_ge bs (length bs)).
Qed.

Lemma writes_unlimited {E} (c : SM Writer.t E unit) bs ws :
  writes c bs -> exists w', c (Writer.mk ws None) = (Ok tt, w') /\ Writer.written w' = ws ++ bs.
Proof.
  intros Hc. specialize (Hc (Writer.mk ws None)). destruct (c _) as [[[]|e] w'].
  - exists w'. by destruct Hc.
  - by destruct Hc as [_ []].
Qed.
End Streams.
