(* ===== verification/Snapshot.v ===== *)
(** * Snapshots: the memory image and copy-on-write paging

    Models the memory-image format of [crates/snapshot/src/lib.rs]
    ([BackingFileHeader] with its validation), the page-fault resolver of
    [crates/snapshot/src/runtime.rs] ([CowPager]), and the writer and reader of
    memory images in [crates/vm-kvm/src/lib.rs] ([dump_memory],
    [cow_guest_memory]). An out-of-range [Vec] index is a panic, written [None].

    [mmap(MAP_PRIVATE)] is external: a parameter that may fail, and that reads as
    the range mapped where a page-aligned, non-empty range of the file was. *)

From S2P Require Import Prelude GuestMemory Io VirtioQueue.

(** ** The backing-file header *)

Definition FORMAT_VERSION : Z := 1.
Definition MEMORY_DATA_OFFSET : Z := 4096.
Definition BACKING_HDR_LEN : Z := 64.
Definition BACKING_MAGIC : bytes :=
  [Byte.x4e; Byte.x41; Byte.x4e; Byte.x4f; Byte.x56; Byte.x4d; Byte.x53; Byte.x31].

(** The errors the header code gives; those of the manifest ([Json], [Io]) are
    with the manifest. *)
Inductive SnapshotError : Type :=
| ShortHeader (have need : Z)
| ShortBuffer (have need : Z)
| BadMagic (found : bytes)
| VersionMismatch (found expected : Z)
| Inconsistent (page_size page_count memory_bytes : Z)
| InvalidGeometry (page_size page_count : Z).

(** [u64::checked_mul] *)
Definition checked_mul64 (a b : Z) : option Z :=
  if a * b <? 2 ^ 64 then Some (a * b) else None.

Definition checked_geometry (page_size page_count : Z) : result SnapshotError Z :=
  if page_size =? 0 then Err (InvalidGeometry page_size page_count)
  else ok_or (InvalidGeometry page_size page_count) (checked_mul64 page_size page_count).

Module BackingFileHeader.
Record t : Type := mk {
  format_version : Z;
  page_size : Z;
  page_count : Z;
  memory_bytes : Z;
  flags : Z;
}.

Definition new (page_size page_count : Z) : result SnapshotError t :=
  memory_bytes ← checked_geometry page_size page_count;
  Ok (mk FORMAT_VERSION page_size page_count memory_bytes 0).

Definition validate (h : t) : result SnapshotError unit :=
  if negb (format_version h =? FORMAT_VERSION)
  then Err (VersionMismatch (format_version h) FORMAT_VERSION)
  else
    derived ← checked_geometry (page_size h) (page_count h);
    if negb (derived =? memory_bytes h)
    then Err (Inconsistent (page_size h) (page_count h) (memory_bytes h))
    else Ok tt.

Definition from_bytes (buf : bytes) : result SnapshotError t :=
  if zlen buf <? BACKING_HDR_LEN then Err (ShortHeader (zlen buf) BACKING_HDR_LEN)
  else
    let magic := slice buf 0 8 in
    if negb (bool_decide (magic = BACKING_MAGIC)) then Err (BadMagic magic)
    else
      let format_version := from_le (slice buf 8 4) in
      if negb (format_version =? FORMAT_VERSION)
      then Err (VersionMismatch format_version FORMAT_VERSION)
      else
        let page_size := from_le (slice buf 12 4) in
        let page_count := from_le (slice buf 16 8) in
        let memory_bytes := from_le (slice buf 24 8) in
        let flags := from_le (slice buf 32 4) in
        derived ← checked_geometry page_size page_count;
        if negb (derived =? memory_bytes)
        then Err (Inconsistent page_size page_count memory_bytes)
        else Ok (mk format_version page_size page_count memory_bytes flags).

(** The field stores of [write_to] and [to_bytes], without the reserved tail. *)
Definition put (h : t) (buf : bytes) : bytes :=
  let buf := splice buf 0 BACKING_MAGIC in
  let buf := splice buf 8 (to_le 4 (format_version h)) in
  let buf := splice buf 12 (to_le 4 (page_size h)) in
  let buf := splice buf 16 (to_le 8 (page_count h)) in
  let buf := splice buf 24 (to_le 8 (memory_bytes h)) in
  splice buf 32 (to_le 4 (flags h)).

Definition write_to (h : t) : SM bytes SnapshotError Z := fun buf =>
  match validate h with
  | Err e => (Err e, buf)
  | Ok _ =>
      if zlen buf <? BACKING_HDR_LEN then (Err (ShortBuffer (zlen buf) BACKING_HDR_LEN), buf)
      else (Ok BACKING_HDR_LEN, splice (put h buf) 36 (replicate 28 Byte.x00))
  end.

Definition to_bytes (h : t) : bytes := put h (replicate 64 Byte.x00).

Definition wf (h : t) : Prop :=
  is_u32 (format_version h) /\ is_u32 (page_size h) /\ is_u64 (page_count h) /\
  is_u64 (memory_bytes h) /\ is_u32 (flags h).
End BackingFileHeader.

(** ** The copy-on-write pager *)

Definition UFFD_PAGEFAULT_FLAG_WRITE : Z := 1.

Module UffdPagefaultEvent.
Record t : Type := new { address : Z; flags : Z }.
Definition is_write (e : t) : bool := has_flag (flags e) UFFD_PAGEFAULT_FLAG_WRITE.
End UffdPagefaultEvent.

Inductive CowFaultAction : Type :=
| PopulateFromBacking (page_index guest_page_addr backing_offset len : Z)
| AlreadyMapped (page_index guest_page_addr : Z).

Inductive RuntimeError : Type :=
| MisalignedBase (base_addr page_size : Z)
| FaultOutOfRange (fault_addr base_addr end_addr : Z)
| PageCountTooLarge (page_count : Z)
| ArithmeticOverflow.

Module CowPager.
Record t : Type := mk {
  base_addr : Z;
  page_size : Z;
  page_count : Z;
  resident : list bool;
}.

(** [u64::is_multiple_of]: only 0 is a multiple of 0. *)
Definition is_multiple_of (a b : Z) : bool := if b =? 0 then a =? 0 else a mod b =? 0.

Definition new (base_addr : Z) (backing : BackingFileHeader.t) : result RuntimeError t :=
  if negb (is_multiple_of base_addr (BackingFileHeader.page_size backing))
  then Err (MisalignedBase base_addr (BackingFileHeader.page_size backing))
  else
    let resident_len := BackingFileHeader.page_count backing in
    Ok (mk base_addr (BackingFileHeader.page_size backing) (BackingFileHeader.page_count backing)
          (replicate (Z.to_nat resident_len) false)).

(** [None] is the panic of [self.resident[idx]]. *)
Definition handle_fault (fault_addr : Z) (p : t)
  : option (result RuntimeError CowFaultAction) * t :=
  let fail e := (Some (Err e), p) in
  match checked_mul64 (page_count p) (page_size p) with
  | None => fail ArithmeticOverflow
  | Some total =>
  match checked_add64 (base_addr p) total with
  | None => fail ArithmeticOverflow
  | Some end_addr =>
  if (fault_addr <? base_addr p) || (end_addr <=? fault_addr)
  then fail (FaultOutOfRange fault_addr (base_addr p) end_addr)
  else
    let rel := fault_addr - base_addr p in
    let page_index := rel / page_size p in
    match checked_add64 (base_addr p) (wrap64 (page_index * page_size p)) with
    | None => fail ArithmeticOverflow
    | Some guest_page_addr =>
    let idx := Z.to_nat page_index in
    match resident p !! idx with
    | None => (None, p)
    | Some true => (Some (Ok (AlreadyMapped page_index guest_page_addr)), p)
    | Some false =>
        let p' := mk (base_addr p) (page_size p) (page_count p) (<[idx := true]> (resident p)) in
        match checked_mul64 page_index (page_size p) with
        | None => (Some (Err ArithmeticOverflow), p')
        | Some data_offset =>
        match checked_add64 BACKING_HDR_LEN data_offset with
        | None => (Some (Err ArithmeticOverflow), p')
        | Some backing_offset =>
            (Some (Ok (PopulateFromBacking page_index guest_page_addr backing_offset (page_size p))),
             p')
        end
        end
    end
    end
  end
  end.

Definition handle_event (event : UffdPagefaultEvent.t) (p : t)
  : option (result RuntimeError CowFaultAction) * t :=
  handle_fault (UffdPagefaultEvent.address event) p.

Definition resident_pages (p : t) : nat := length (filter (fun b => b = true) (resident p)).
End CowPager.

(** ** Memory images *)

Definition PAGE_SIZE : Z := 0x1000.
Definition DUMP_CHUNK : Z := 2 ^ 20.

(** The errors of [dump_memory] and [cow_guest_memory], each a [VmError::Backend]
    with its own message. *)
Inductive ImageError (E : Type) : Type :=
| ImageHeader (e : SnapshotError)
| CreateImage (e : IoErrorKind)
| ImageIo (e : IoErrorKind)
| ReadGuestMemory (e : E)
| SizeMismatch (header manifest : Z)
| MmapFailed.
Arguments ImageHeader {E} e.
Arguments CreateImage {E} e.
Arguments ImageIo {E} e.
Arguments ReadGuestMemory {E} e.
Arguments SizeMismatch {E} header manifest.
Arguments MmapFailed {E}.

Section Images.
Context {E M : Type} `{!GuestMem E M}.
(** [MmapRegion::build] of a private file mapping at an offset, as guest memory
    at address 0. *)
Variable mmap_private : bytes -> Z -> nat -> option M.

Definition file_write (bs : bytes) : SM Writer.t (ImageError E) unit := fun w =>
  let (r, w) := Writer.write_all bs w in (map_err ImageIo r, w).

(** The copy loop, with [n] bounding the number of chunks. *)
Fixpoint dump_loop (n : nat) (guest_mem : M) (mem_bytes off : Z)
  : SM Writer.t (ImageError E) unit :=
  match n with
  | O => mret tt
  | S n =>
      if off <? mem_bytes then
        let k := Z.min (mem_bytes - off) DUMP_CHUNK in
        buf ← sm_lift (map_err ReadGuestMemory (mem_read guest_mem off (Z.to_nat k)));
        _ ← file_write buf;
        dump_loop n guest_mem mem_bytes (off + k)
      else mret tt
  end.

(** [created] is what [File::create] answers; the writer is the new file. *)
Definition dump_memory (created : result IoErrorKind unit) (guest_mem : M) (mem_bytes : Z)
  : SM Writer.t (ImageError E) unit :=
  let page_count := mem_bytes / PAGE_SIZE in
  header ← sm_lift (map_err ImageHeader (BackingFileHeader.new PAGE_SIZE page_count));
  _ ← sm_lift (map_err CreateImage created);
  _ ← file_write (BackingFileHeader.to_bytes header);
  let pad_len := MEMORY_DATA_OFFSET - BACKING_HDR_LEN in
  _ ← file_write (replicate (Z.to_nat pad_len) Byte.x00);
  dump_loop (S (Z.to_nat (mem_bytes / DUMP_CHUNK))) guest_mem mem_bytes 0.

Definition cow_guest_memory (file : bytes) (mem_bytes : Z) : result (ImageError E) M :=
  let (r, _) := Reader.read_exact (Z.to_nat BACKING_HDR_LEN) (Reader.mk file UnexpectedEof) in
  hdr ← map_err ImageIo r;
  header ← map_err ImageHeader (BackingFileHeader.from_bytes hdr);
  _ ← map_err ImageHeader (BackingFileHeader.validate header);
  if negb (BackingFileHeader.memory_bytes header =? mem_bytes)
  then Err (SizeMismatch (BackingFileHeader.memory_bytes header) mem_bytes)
  else ok_or MmapFailed (mmap_private file MEMORY_DATA_OFFSET (Z.to_nat mem_bytes)).
End Images.

(** ** Header lemmas *)

Section HeaderCodec.
Import BackingFileHeader.
Implicit Types (h : t) (buf rest : bytes).

Definition bf_fields h : bytes :=
  BACKING_MAGIC ++ to_le 4 (format_version h) ++ to_le 4 (page_size h) ++
  to_le 8 (page_count h) ++ to_le 8 (memory_bytes h) ++ to_le 4 (flags h).

Lemma bf_fields_length h : length (bf_fields h) = 36%nat.
Proof. unfold bf_fields. len. Qed.

Lemma bf_put h buf : put h buf = bf_fields h ++ drop 36 buf.
Proof. unfold put, bf_fields. by write_fields. Qed.

Lemma bf_to_bytes h : to_bytes h = bf_fields h ++ replicate 28 Byte.x00.
Proof. unfold to_bytes. by rewrite bf_put. Qed.

Lemma bf_to_bytes_length h : length (to_bytes h) = 64%nat.
Proof. rewrite bf_to_bytes, length_app, bf_fields_length. len. Qed.

Lemma checked_geometry_ok ps pc n :
  is_u32 ps -> checked_geometry ps pc = Ok n <-> 0 < ps /\ ps * pc = n /\ n < 2 ^ 64.
Proof.
  intros Hp. unfold checked_geometry, checked_mul64. case_if.
  { subst. split; [done|lia]. }
  case_if; simpl; split.
  - intros [= <-]. unfold is_u32 in Hp. lia.
  - by intros (_ & -> & _).
  - done.
  - lia.
Qed.

Lemma validate_ok h :
  wf h -> validate h = Ok tt <->
  format_version h = FORMAT_VERSION /\ 0 < page_size h /\
  page_size h * page_count h = memory_bytes h.
Proof.
  intros (_ & Hp & _ & Hm & _). unfold validate. case_if; [split; [done|lia]|].
  destruct (checked_geometry (page_size h) (page_count h)) as [d|e] eqn:Hg.
  - apply checked_geometry_ok in Hg; [|done]. simpl. case_if; split; done || lia.
  - simpl. split; [done|]. intros (_ & Hps & Heq).
    rewrite (proj2 (checked_geometry_ok _ _ (memory_bytes h) Hp)) in Hg; [done|].
    unfold is_u64 in Hm. lia.
Qed.

Lemma bf_slices h rest :
  let buf := to_bytes h ++ rest in
  slice buf 0 8 = BACKING_MAGIC /\ slice buf 8 4 = to_le 4 (format_version h) /\
  slice buf 12 4 = to_le 4 (page_size h) /\ slice buf 16 8 = to_le 8 (page_count h) /\
  slice buf 24 8 = to_le 8 (memory_bytes h) /\ slice buf 32 4 = to_le 4 (flags h).
Proof.
  intros buf. subst buf. rewrite bf_to_bytes. unfold bf_fields.
  rewrite <- (to_from_le 8 BACKING_MAGIC) by done. rewrite <- !app_assoc.
  split_and!; by fields.
Qed.

(** The checks of [from_bytes] on an encoded header are those of [validate]. *)
Lemma bf_decode_encode h rest :
  wf h -> from_bytes (to_bytes h ++ rest) = (_ ← validate h; Ok h).
Proof.
  intros (? & ? & ? & ? & ?). unfold from_bytes, BACKING_HDR_LEN, zlen.
  rewrite length_app, bf_to_bytes_length. case_if; [lia|].
  destruct (bf_slices h rest) as (-> & -> & -> & -> & -> & ->).
  rewrite bool_decide_true, !from_to_le32, !from_to_le64 by done. simpl negb. cbv iota.
  unfold validate. case_if; [done|].
  destruct (checked_geometry _ _); [|done]. simpl. case_if; [done|]. by destruct h.
Qed.

Lemma bf_encode_decode buf h :
  from_bytes buf = Ok h -> wf h /\ validate h = Ok tt /\ bf_fields h = slice buf 0 36.
Proof.
  unfold from_bytes, BACKING_HDR_LEN, zlen. case_if; [done|].
  case_if; [done|]. case_if; [done|]. intros Hd.
  destruct (checked_geometry _ _) as [d|] eqn:Hg; [|done]. simpl in Hd. case_if_in Hd; [done|].
  injection Hd as <-.
  match goal with H : bool_decide _ = true |- _ => apply bool_decide_eq_true in H; rename H into Hmagic end.
  assert (Hps : is_u32 (from_le (slice buf 12 4))) by (apply from_le_u32; lia).
  split_and!.
  - unfold wf. simpl. split_and!; first [apply from_le_u32 | apply from_le_u64]; lia.
  - unfold validate. simpl. rewrite (proj2 (Z.eqb_eq _ _)) by done. simpl. rewrite Hg. simpl.
    subst. by rewrite Z.eqb_refl.
  - unfold bf_fields. cbn [format_version page_size page_count memory_bytes flags].
    rewrite !to_le_slice by lia. rewrite <- Hmagic. by cat_slices.
Qed.

Lemma bf_write_to h buf :
  BACKING_HDR_LEN <= zlen buf ->
  write_to h buf =
    match validate h with
    | Ok _ => (Ok BACKING_HDR_LEN, to_bytes h ++ drop 64 buf)
    | Err e => (Err e, buf)
    end.
Proof.
  intros Hl. unfold write_to. destruct (validate h); [|done]. case_if; [lia|]. f_equal.
  rewrite bf_put, bf_to_bytes, splice_app by (by rewrite bf_fields_length).
  by rewrite drop_drop, length_replicate.
Qed.
End HeaderCodec.

(** ** Pager lemmas *)

Section Pager.
Import CowPager.
Implicit Types (p : t) (a i : Z) (addrs : list Z).

Definition last_addr p : Z := base_addr p + page_count p * page_size p.
Definition in_range p a : bool := (base_addr p <=? a) && (a <? last_addr p).
Definition page_of p a : Z := (a - base_addr p) / page_size p.

Record pager_ok p : Prop := {
  po_base : is_u64 (base_addr p);
  po_size : 0 < page_size p;
  po_count : 0 <= page_count p;
  po_end : last_addr p < 2 ^ 64;
  po_file : BACKING_HDR_LEN + page_count p * page_size p < 2 ^ 64;
  po_resident : zlen (resident p) = page_count p;
}.

Definition mark i p : t :=
  mk (base_addr p) (page_size p) (page_count p) (<[Z.to_nat i := true]> (resident p)).

Lemma page_of_bounds p a :
  pager_ok p -> in_range p a = true ->
  0 <= page_of p a < page_count p /\
  page_of p a * page_size p <= a - base_addr p < page_of p a * page_size p + page_size p.
Proof.
  intros [] Hr. unfold in_range, last_addr, page_of in *. bool_to_prop.
  pose proof (Z.div_mod (a - base_addr p) (page_size p) ltac:(lia)).
  pose proof (Z.mod_pos_bound (a - base_addr p) (page_size p) ltac:(lia)).
  assert (0 <= (a - base_addr p) / page_size p) by (apply Z.div_pos; lia).
  assert ((a - base_addr p) / page_size p < page_count p) by (apply Z.div_lt_upper_bound; lia).
  lia.
Qed.

(** [handle_fault] without its arithmetic: no overflow, no panic. *)
Lemma handle_fault_spec p a :
  pager_ok p ->
  handle_fault a p =
    if in_range p a then
      let i := page_of p a in
      let addr := base_addr p + i * page_size p in
      if bool_decide (resident p !! Z.to_nat i = Some true)
      then (Some (Ok (AlreadyMapped i addr)), p)
      else (Some (Ok (PopulateFromBacking i addr (BACKING_HDR_LEN + i * page_size p) (page_size p))),
            mark i p)
    else (Some (Err (FaultOutOfRange a (base_addr p) (last_addr p))), p).
Proof.
  intros Hok. pose proof (page_of_bounds p a Hok) as Hb. destruct Hok.
  unfold handle_fault, checked_mul64, checked_add64, is_u64, in_range, last_addr, BACKING_HDR_LEN in *.
  do 2 (case_if; [|lia]).
  destruct (a <? base_addr p) eqn:Hlo, (base_addr p + page_count p * page_size p <=? a) eqn:Hhi;
    bool_to_prop; simpl;
    try (rewrite (proj2 (Z.leb_gt _ _)) by lia; done);
    try (rewrite (proj2 (Z.ltb_ge _ _)) by lia; rewrite andb_false_r; done).
  rewrite (proj2 (Z.leb_le _ _)), (proj2 (Z.ltb_lt a _)) in Hb |- * by lia. simpl.
  destruct (Hb eq_refl) as [Hi Hd]. fold (page_of p a).
  assert (page_of p a * page_size p < 2 ^ 64) by lia.
  rewrite wrap64_small by (unfold is_u64; nia). case_if; [|lia].
  destruct (lookup_lt_is_Some_2 (resident p) (Z.to_nat (page_of p a))) as [b Hl];
    [unfold zlen in *; lia|].
  rewrite Hl. destruct b; [by rewrite bool_decide_true|].
  rewrite bool_decide_false by done. do 2 (case_if; [|lia]). done.
Qed.

Lemma mark_ok p i : pager_ok p -> pager_ok (mark i p).
Proof. intros []. split; try done. simpl. unfold zlen. by rewrite length_insert. Qed.

(** The pages a sequence of faults has touched. *)
Definition touched p addrs : gset Z := list_to_set (page_of p <$> filter (fun a => in_range p a = true) addrs).

Definition fault_run p addrs : t := foldl (fun p a => (handle_fault a p).2) p addrs.

Record pager_at p0 addrs p : Prop := {
  pa_ok : pager_ok p;
  pa_geometry : base_addr p = base_addr p0 /\ page_size p = page_size p0 /\ page_count p = page_count p0;
  pa_resident i : 0 <= i < page_count p ->
    resident p !! Z.to_nat i = Some (bool_decide (i ∈ touched p0 addrs));
  pa_count : resident_pages p = size (touched p0 addrs);
}.

Lemma touched_snoc p addrs a :
  touched p (addrs ++ [a]) =
    if in_range p a then {[page_of p a]} ∪ touched p addrs else touched p addrs.
Proof.
  unfold touched. rewrite filter_app, fmap_app, list_to_set_app_L.
  destruct (in_range p a) eqn:Hr.
  - rewrite filter_cons_True by done. simpl.
    by rewrite (right_id_L ∅ (∪)), (comm_L (∪)).
  - rewrite filter_cons_False by (by rewrite Hr). simpl. by rewrite (right_id_L ∅ (∪)).
Qed.

Lemma count_insert (l : list bool) (i : nat) :
  l !! i = Some false ->
  length (filter (fun b => b = true) (<[i := true]> l)) = S (length (filter (fun b => b = true) l)).
Proof.
  revert i. induction l as [|b l IH]; intros [|i] Hl; try done; simpl in *.
  - by injection Hl as ->.
  - destruct b; [simpl; by rewrite IH|].
    rewrite !filter_cons_False by done. by apply IH.
Qed.

Lemma pager_step p0 addrs p a :
  pager_at p0 addrs p -> pager_at p0 (addrs ++ [a]) (handle_fault a p).2.
Proof.
  intros [Hok (Hb & Hs & Hc) Hr Hn]. rewrite handle_fault_spec by done.
  assert (Hin : in_range p0 a = in_range p a) by (unfold in_range, last_addr; by rewrite Hb, Hs, Hc).
  assert (Hpg : page_of p0 a = page_of p a) by (unfold page_of; by rewrite Hb, Hs).
  pose proof (touched_snoc p0 addrs a) as Ht. rewrite Hin, Hpg in Ht.
  destruct (in_range p a) eqn:Hi; [|by split; rewrite ?Ht].
  pose proof (page_of_bounds p a Hok Hi) as [Hrng _]. simpl. pose proof (Hr _ Hrng) as Hl.
  rewrite Hl. case_bool_decide as Hin'.
  - rewrite bool_decide_true by done. simpl.
    rewrite (subseteq_union_1_L {[page_of p a]}) in Ht by (by apply singleton_subseteq_l). by split; rewrite ?Ht.
  - rewrite bool_decide_false by done. simpl. split.
    + by apply mark_ok.
    + done.
    + intros i Hii. simpl. rewrite Ht. destruct (decide (i = page_of p a)) as [->|Hne].
      * rewrite list_lookup_insert_eq by (by apply lookup_lt_Some in Hl).
        by rewrite bool_decide_true by (by apply elem_of_union_l, elem_of_singleton).
      * rewrite list_lookup_insert_ne by (simpl in Hii; lia). rewrite Hr by done. f_equal.
        apply bool_decide_ext.
        rewrite elem_of_union, elem_of_singleton. split; [auto|by intros [?|?]].
    + rewrite Ht, size_union by (by apply disjoint_singleton_l). rewrite size_singleton, <- Hn. by apply count_insert.
Qed.

Lemma pager_run p0 addrs :
  pager_ok p0 -> Forall (fun b => b = false) (resident p0) -> pager_at p0 addrs (fault_run p0 addrs).
Proof.
  intros Hok Hf. unfold fault_run. induction addrs as [|a addrs IH] using rev_ind.
  - split; try done.
    + intros i Hi. simpl in *. destruct (lookup_lt_is_Some_2 (resident p0) (Z.to_nat i)) as [b Hl];
        [destruct Hok; unfold zlen in *; lia|].
      rewrite Hl. f_equal. rewrite (proj1 (Forall_lookup _ _) Hf _ _ Hl). by rewrite bool_decide_false by (by apply not_elem_of_empty).
    + unfold resident_pages. simpl. destruct Hok. clear -Hf.
      induction Hf; [done|]. by rewrite filter_cons_False by (by subst).
  - rewrite foldl_app. simpl. by apply pager_step.
Qed.

Lemma pager_new base h p :
  BackingFileHeader.wf h -> BackingFileHeader.validate h = Ok tt -> is_u64 base ->
  base + BackingFileHeader.memory_bytes h < 2 ^ 64 ->
  BACKING_HDR_LEN + BackingFileHeader.memory_bytes h < 2 ^ 64 ->
  new base h = Ok p ->
  pager_ok p /\ base_addr p = base /\ page_size p = BackingFileHeader.page_size h /\
  page_count p * page_size p = BackingFileHeader.memory_bytes h /\
  Forall (fun b => b = false) (resident p).
Proof.
  intros Hwf (_ & Hps & Hm)%validate_ok Hbase Hend Hfile; [|done].
  destruct Hwf as (_ & _ & Hpc & _). unfold new. case_if; [done|]. intros [= <-].
  unfold is_u64 in Hpc. split_and!; try done; [split|..]; simpl; unfold last_addr; simpl;
    try rewrite (Z.mul_comm (BackingFileHeader.page_count h)), Hm; try done; try lia.
  - unfold zlen. rewrite length_replicate. lia.
  - by apply Forall_replicate.
Qed.
End Pager.

(** ** Image lemmas *)

Section ImageLemmas.
Context {E M : Type} `{!GuestMem E M, !GuestMemLaws E M}.
Implicit Types (m : M) (ram : bytes).

Definition image_header (mem_bytes : Z) : BackingFileHeader.t :=
  BackingFileHeader.mk FORMAT_VERSION PAGE_SIZE (mem_bytes / PAGE_SIZE) mem_bytes 0.

(** The file a dump of [ram] produces. *)
Definition image ram : bytes :=
  BackingFileHeader.to_bytes (image_header (zlen ram)) ++ replicate 4032 Byte.x00 ++ ram.

Lemma image_page_data ram : drop (Z.to_nat MEMORY_DATA_OFFSET) (image ram) = ram.
Proof.
  unfold image. rewrite app_assoc. apply drop_app_length'.
  rewrite length_app, bf_to_bytes_length, length_replicate. done.
Qed.

Lemma dump_loop_writes n m ram off :
  mem_read m 0 (length ram) = Ok ram -> 0 <= off <= zlen ram ->
  zlen ram < off + Z.of_nat n * DUMP_CHUNK ->
  writes (dump_loop n m (zlen ram) off) (drop (Z.to_nat off) ram).
Proof.
  intros Hr. revert off. induction n as [|n IH]; intros off Ho Hn; [lia|].
  cbn [dump_loop]. case_if.
  - set (k := Z.min (zlen ram - off) DUMP_CHUNK).
    assert (Hk : 0 <= k <= zlen ram - off) by (unfold k, DUMP_CHUNK in *; lia).
    pose proof (mem_read_slice _ _ _ _ (Z.to_nat off) (Z.to_nat k) Hr) as Hs.
    rewrite Z2Nat.id, Z.add_0_l in Hs by lia. rewrite Hs by (unfold zlen in *; lia).
    change (writes (_ ← file_write (slice ram (Z.to_nat off) (Z.to_nat k));
                    dump_loop n m (zlen ram) (off + k)) (drop (Z.to_nat off) ram)).
    rewrite <- (take_drop (Z.to_nat k) (drop (Z.to_nat off) ram)), drop_drop.
    rewrite <- slice_take_drop, <- Z2Nat.inj_add by lia.
    apply writes_bind; [apply writes_all|]. destruct (Z.eq_dec (off + k) (zlen ram)) as [He|He].
    + clear IH. rewrite He, drop_ge by (unfold zlen; lia). intros w. destruct n; [by apply writes_nil|].
      cbn [dump_loop]. rewrite (proj2 (Z.ltb_ge _ _)) by lia. by apply writes_nil.
    + apply IH; unfold k, DUMP_CHUNK in *; lia.
  - rewrite drop_ge by (unfold zlen in *; lia). apply writes_nil.
Qed.

Lemma image_header_new mem_bytes :
  0 <= mem_bytes < 2 ^ 63 -> mem_bytes mod PAGE_SIZE = 0 ->
  BackingFileHeader.new PAGE_SIZE (mem_bytes / PAGE_SIZE) = Ok (image_header mem_bytes) /\
  BackingFileHeader.wf (image_header mem_bytes) /\
  BackingFileHeader.validate (image_header mem_bytes) = Ok tt.
Proof.
  intros Hb Hm. assert (Hd : PAGE_SIZE * (mem_bytes / PAGE_SIZE) = mem_bytes).
  { pose proof (Z.div_mod mem_bytes PAGE_SIZE ltac:(done)). lia. }
  assert (Hwf : BackingFileHeader.wf (image_header mem_bytes)).
  { unfold BackingFileHeader.wf, image_header, PAGE_SIZE, FORMAT_VERSION in *. simpl. split_and!; ulia. }
  split_and!; [|done|].
  - unfold BackingFileHeader.new, checked_geometry, checked_mul64. rewrite Hd.
    rewrite (proj2 (Z.ltb_lt _ _)) by lia. done.
  - by apply validate_ok.
Qed.

Lemma dump_memory_writes m ram :
  mem_read m 0 (length ram) = Ok ram -> zlen ram < 2 ^ 63 -> zlen ram mod PAGE_SIZE = 0 ->
  writes (dump_memory (Ok tt) m (zlen ram)) (image ram).
Proof.
  intros Hr Hb Hm. destruct (image_header_new (zlen ram)) as (Hh & _ & _); [unfold zlen in *; lia|done|].
  unfold dump_memory. rewrite Hh.
  change (writes (_ ← file_write (BackingFileHeader.to_bytes (image_header (zlen ram)));
                  _ ← file_write (replicate 4032 Byte.x00);
                  dump_loop (S (Z.to_nat (zlen ram / DUMP_CHUNK))) m (zlen ram) 0) (image ram)).
  unfold image. apply writes_bind; [apply writes_all|]. apply writes_bind; [apply writes_all|].
  apply (dump_loop_writes _ m ram 0); [done|unfold zlen; lia|].
  pose proof (Z.div_mod (zlen ram) DUMP_CHUNK ltac:(done)).
  pose proof (Z.mod_pos_bound (zlen ram) DUMP_CHUNK ltac:(done)).
  pose proof (Z.div_pos (zlen ram) DUMP_CHUNK ltac:(unfold zlen; lia) ltac:(done)).
  unfold DUMP_CHUNK in *. lia.
Qed.

Lemma cow_guest_memory_image (mmap : bytes -> Z -> nat -> option M) ram mem_bytes :
  zlen ram < 2 ^ 63 -> zlen ram mod PAGE_SIZE = 0 ->
  (cow_guest_memory mmap (image ram) mem_bytes : result (ImageError E) M) =
    if mem_bytes =? zlen ram
    then ok_or MmapFailed (mmap (image ram) MEMORY_DATA_OFFSET (length ram))
    else Err (SizeMismatch (zlen ram) mem_bytes).
Proof.
  intros Hb Hm. destruct (image_header_new (zlen ram)) as (_ & Hwf & Hv); [unfold zlen in *; lia|done|].
  unfold cow_guest_memory. unfold image at 1. rewrite read_exact_app by apply bf_to_bytes_length.
  simpl. rewrite <- (app_nil_r (BackingFileHeader.to_bytes _)), bf_decode_encode, Hv by done. simpl.
  rewrite Hv. simpl. rewrite (Z.eqb_sym mem_bytes). destruct (Z.eqb_spec (zlen ram) mem_bytes) as [<-|]; [|done].
  replace (Z.to_nat (zlen ram)) with (length ram) by (unfold zlen; lia). done.
Qed.
(** What [mmap] of a file promises where it succeeds: the mapping of a non-empty
    range at a page-aligned offset reads as the range. *)
Definition mmap_reads (mmap : bytes -> Z -> nat -> option M) : Prop := forall file off n m',
  0 <= off -> off mod PAGE_SIZE = 0 -> (0 < n)%nat -> off + Z.of_nat n <= zlen file -> zlen file < 2 ^ 64 ->
  mmap file off n = Some m' -> mem_read m' 0 n = Ok (slice file (Z.to_nat off) n).

Lemma image_length ram : zlen (image ram) = MEMORY_DATA_OFFSET + zlen ram.
Proof.
  unfold image, zlen. rewrite !length_app, bf_to_bytes_length, length_replicate. unfold MEMORY_DATA_OFFSET. lia.
Qed.

(** A mapping of the image reads as the dumped memory. *)
Lemma cow_image_reads (mmap : bytes -> Z -> nat -> option M) ram m' :
  mmap_reads mmap -> ram <> [] -> zlen ram < 2 ^ 63 -> zlen ram mod PAGE_SIZE = 0 ->
  cow_guest_memory mmap (image ram) (zlen ram) = Ok m' :> result (ImageError E) M ->
  mem_read m' 0 (length ram) = Ok ram.
Proof.
  intros Hmap Hne Hb Hm. rewrite cow_guest_memory_image, Z.eqb_refl by done.
  destruct (mmap _ _ _) as [m0|] eqn:Hmm; [|done]. intros [= <-].
  pose proof (image_length ram) as Hl. apply Hmap in Hmm; [|done|done|by destruct ram; simpl; [|lia]|unfold zlen, MEMORY_DATA_OFFSET in *; lia..].
  rewrite Hmm, slice_take_drop, image_page_data. by rewrite take_ge.
Qed.
End ImageLemmas.

(** ** Properties *)

(** Reader and writer of the memory-image header agree exactly. A header is
    valid when its version is current, its page size is not zero and page size
    times page count, without overflow, is its memory size. For a valid header
    the 64 bytes written, followed by anything, are read back as the same
    header; an invalid one is refused by [write_to], which then leaves the
    buffer alone, and its bytes are refused by [from_bytes] with the same
    error; and whatever [from_bytes] accepts is valid and re-encodes to the
    bytes it came from. *)
Theorem backing_header_codec h buf rest :
  BackingFileHeader.wf h -> BACKING_HDR_LEN <= zlen buf ->
  (BackingFileHeader.validate h = Ok tt <->
     BackingFileHeader.format_version h = FORMAT_VERSION /\ 0 < BackingFileHeader.page_size h /\
     BackingFileHeader.page_size h * BackingFileHeader.page_count h = BackingFileHeader.memory_bytes h) /\
  match BackingFileHeader.validate h with
  | Ok _ => BackingFileHeader.from_bytes (BackingFileHeader.to_bytes h ++ rest) = Ok h /\
      BackingFileHeader.write_to h buf = (Ok BACKING_HDR_LEN, BackingFileHeader.to_bytes h ++ drop 64 buf)
  | Err e => BackingFileHeader.from_bytes (BackingFileHeader.to_bytes h ++ rest) = Err e /\
      BackingFileHeader.write_to h buf = (Err e, buf)
  end /\
  (forall h', BackingFileHeader.from_bytes buf = Ok h' ->
     BackingFileHeader.wf h' /\ BackingFileHeader.validate h' = Ok tt /\
     take 36 (BackingFileHeader.to_bytes h') = take 36 buf).
Proof.
  intros Hwf Hl. split_and!.
  - by apply validate_ok.
  - rewrite bf_decode_encode, bf_write_to by done. by destruct (BackingFileHeader.validate h).
  - intros h' (Hw & Hv & Hf)%bf_encode_decode. split_and!; [done..|].
    rewrite bf_to_bytes, (take_app_length' (bf_fields h')) by (by rewrite bf_fields_length).
    by rewrite Hf, slice_from_0.
Qed.

Lemma backing_header_codec_witness :
  BackingFileHeader.from_bytes
    (BackingFileHeader.to_bytes (BackingFileHeader.mk 1 4096 2 8192 0) ++ [Byte.x00]) =
  Ok (BackingFileHeader.mk 1 4096 2 8192 0).
Proof.
  refine (proj1 (proj1 (proj2 (backing_header_codec (BackingFileHeader.mk 1 4096 2 8192 0)
    (replicate 64 Byte.x00) [Byte.x00] _ _)))).
  - unfold BackingFileHeader.wf. split_and!; vm_compute; split; discriminate || reflexivity.
  - vm_compute. discriminate.
Defined.

(** The copy-on-write pager populates every page exactly once. For a pager
    built over a valid header, after any sequence of faults, the next fault
    neither panics nor overflows: outside the guest range it is refused and
    changes nothing; inside it, the page containing the address is populated if
    no earlier fault touched it and reported as mapped otherwise, with that
    page's index and aligned address; and the number of resident pages is the
    number of distinct pages touched. *)
Theorem cow_pager_populates_once base h p0 addrs a :
  BackingFileHeader.wf h -> BackingFileHeader.validate h = Ok tt -> is_u64 base ->
  base + BackingFileHeader.memory_bytes h < 2 ^ 64 ->
  BACKING_HDR_LEN + BackingFileHeader.memory_bytes h < 2 ^ 64 ->
  CowPager.new base h = Ok p0 ->
  let ps := BackingFileHeader.page_size h in
  let stop := base + BackingFileHeader.memory_bytes h in
  let p := fault_run p0 addrs in
  let i := (a - base) / ps in
  CowPager.resident_pages p = size (touched p0 addrs) /\
  ((a < base \/ stop <= a) ->
     CowPager.handle_fault a p = (Some (Err (FaultOutOfRange a base stop)), p)) /\
  (base <= a < stop ->
     (CowPager.handle_fault a p).1 = Some (Ok (
       if bool_decide (i ∈ touched p0 addrs) then AlreadyMapped i (base + i * ps)
       else PopulateFromBacking i (base + i * ps) (BACKING_HDR_LEN + i * ps) ps)) /\
     base + i * ps <= a < base + i * ps + ps).
Proof.
  intros Hwf Hv Hbase Hend Hfile Hnew ps stop p i.
  apply pager_new in Hnew as (Hok & Hb & Hs & Htot & Hf); [|done..].
  destruct (pager_run p0 addrs Hok Hf) as [Hok' (Eb & Es & Ec) Hr Hn]. fold p in Hok', Eb, Es, Ec, Hr, Hn.
  assert (Hlast : last_addr p = stop).
  { unfold last_addr, stop. by rewrite Eb, Es, Ec, Htot, Hb. }
  assert (Hpage : page_of p a = i) by (unfold page_of, i, ps; by rewrite Eb, Es, Hb, Hs).
  split; [done|]. rewrite handle_fault_spec by done. unfold in_range. rewrite Hlast, Eb, Hb. split.
  - intros Ha. replace ((base <=? a) && (a <? stop)) with false; [done|].
    symmetry. apply andb_false_iff. rewrite Z.leb_gt, Z.ltb_ge. lia.
  - intros Ha. pose proof (page_of_bounds p a Hok') as Hpb. unfold in_range in Hpb.
    rewrite Hlast, Eb, Hb in Hpb. rewrite (proj2 (Z.leb_le _ _)), (proj2 (Z.ltb_lt a _)) in * by lia.
    destruct (Hpb eq_refl) as [Hi Hd]. cbv zeta. simpl. rewrite Hpage, Es, Hs in *. fold ps in Hd |- *.
    rewrite Hr by done. split; [|lia]. case_bool_decide as Ht.
    + injection Ht as ->. done.
    + by destruct (bool_decide (i ∈ _)).
Qed.

Lemma cow_pager_populates_once_witness :
  let h := BackingFileHeader.mk 1 4096 4 16384 0 in
  exists p0, CowPager.new 0x40000000 h = Ok p0 /\
    CowPager.resident_pages (fault_run p0 [0x40001234; 0x40001abc]) =
      size (touched p0 [0x40001234; 0x40001abc]).
Proof.
  eexists. split; [reflexivity|].
  refine (proj1 (cow_pager_populates_once 0x40000000 (BackingFileHeader.mk 1 4096 4 16384 0) _ _ 0 _ _ _ _ _ _)).
  - unfold BackingFileHeader.wf. split_and!; vm_compute; split; discriminate || reflexivity.
  - reflexivity.
  - vm_compute; split; discriminate || reflexivity.
  - vm_compute; reflexivity.
  - vm_compute; reflexivity.
  - reflexivity.
Defined.

(** C28: A snapshot's memory image restores the guest's memory. Dumping a
    page-multiple memory emits the header, the padding and every byte of RAM in
    order: a dump that reports success created the file and is complete; one
    whose file cannot be created wrote nothing, and one that fails later leaves a
    proper prefix of the image. Opening a complete image asks for one mapping, of
    the rest of the file from a page-aligned offset on: where [mmap] refuses, the
    error is reported, and where it succeeds the memory reads as the RAM that was
    dumped. A manifest announcing another size is refused before any mapping. *)
Theorem snapshot_image_roundtrip {E M : Type} `{!GuestMem E M, !GuestMemLaws E M}
  (mmap_private : bytes -> Z -> nat -> option M) created (m : M) ram w :
  mmap_reads (E := E) mmap_private -> ram <> [] ->
  mem_read m 0 (length ram) = Ok ram -> zlen ram < 2 ^ 63 -> zlen ram mod PAGE_SIZE = 0 ->
  match dump_memory created m (zlen ram) w with
  | (Ok _, w') => created = Ok tt /\ Writer.written w' = Writer.written w ++ image ram
  | (Err e, w') =>
      match created with
      | Err ce => e = CreateImage ce /\ w' = w
      | Ok _ => ~ Writer.fits (image ram) w /\
          exists k, Writer.written w' = Writer.written w ++ take k (image ram)
      end
  end /\
  (exists off, off mod PAGE_SIZE = 0 /\ off + zlen ram = zlen (image ram) /\
     cow_guest_memory mmap_private (image ram) (zlen ram)
       = ok_or MmapFailed (mmap_private (image ram) off (length ram)) :> result (ImageError E) M) /\
  (forall m', cow_guest_memory mmap_private (image ram) (zlen ram) = Ok m' :> result (ImageError E) M ->
     mem_read m' 0 (length ram) = Ok ram) /\
  (forall size, size <> zlen ram ->
     cow_guest_memory mmap_private (image ram) size =
       Err (SizeMismatch (zlen ram) size) :> result (ImageError E) M).
Proof.
  intros Hmap Hne Hr Hb Hm. split_and!.
  - destruct created as [[]|ce].
    + pose proof (dump_memory_writes m ram Hr Hb Hm w) as Hw.
      destruct (dump_memory (Ok tt) m (zlen ram) w) as [[[]|e] w']; destruct Hw; by split.
    + unfold dump_memory. rewrite (proj1 (image_header_new (zlen ram) ltac:(unfold zlen in *; lia) Hm)). done.
  - exists MEMORY_DATA_OFFSET. rewrite image_length, cow_guest_memory_image, Z.eqb_refl by done. done.
  - intros m'. by apply cow_image_reads.
  - intros size Hs. rewrite cow_guest_memory_image by done. by rewrite (proj2 (Z.eqb_neq _ _)).
Qed.

(** A [mmap] of files held as bytes, with the refusals of the real one. *)
Definition slice_mmap (file : bytes) (off : Z) (n : nat) : option SliceGuestMemory.t :=
  if (off mod PAGE_SIZE =? 0) && (0 <? n)%nat then Some (SliceGuestMemory.mk 0 (slice file (Z.to_nat off) n)) else None.

Lemma slice_mmap_reads : mmap_reads (E := VirtioQueue.QueueError) slice_mmap.
Proof.
  intros file off n m' Ho _ Hn Hf Hl. unfold slice_mmap. destruct (_ && _); [|done]. intros [= <-].
  apply slice_read_ok. unfold in_window, zlen in *. simpl. rewrite slice_length by lia.
  split_and!; [lia..|]. by rewrite slice_all by (apply slice_length; lia).
Qed.

Lemma snapshot_image_roundtrip_witness :
  let ram := replicate 4096 Byte.x2a in
  (dump_memory (Ok tt) (SliceGuestMemory.mk 0 ram) (zlen ram) (Writer.mk [] None)
     : result (ImageError VirtioQueue.QueueError) unit * Writer.t).1 = Ok tt /\
  exists m', cow_guest_memory slice_mmap (image ram) (zlen ram)
    = Ok m' :> result (ImageError VirtioQueue.QueueError) SliceGuestMemory.t /\
    mem_read m' 0 (length ram) = Ok ram.
Proof.
  intros ram. split; [vm_compute; reflexivity|]. eexists. split; [vm_compute; reflexivity|].
  refine (proj1 (proj2 (proj2 (snapshot_image_roundtrip slice_mmap (Ok tt) (SliceGuestMemory.mk 0 ram) ram
    (Writer.mk [] None) slice_mmap_reads _ _ _ _))) _ _); vm_compute; reflexivity || discriminate.
Defined.

(** The pager's source range is not where [dump_memory] puts the page: it
    measures from the end of the 64-byte header, while the page data of an image
    starts at [MEMORY_DATA_OFFSET]. *)
Lemma cow_pager_offset_misses_page_data :
  let ram := replicate 4096 Byte.x2a in
  exists p off len, CowPager.new 0 (image_header 4096) = Ok p /\
    (CowPager.handle_fault 0 p).1 = Some (Ok (PopulateFromBacking 0 0 off len)) /\
    slice (image ram) (Z.to_nat off) (Z.to_nat len) <> ram /\
    slice (image ram) (Z.to_nat MEMORY_DATA_OFFSET) (Z.to_nat len) = ram.
Proof.
  do 3 eexists. split_and!; [reflexivity..| |].
  - intros H. apply (f_equal head) in H. vm_compute in H. discriminate.
  - vm_compute. reflexivity.
Qed.
