(* ===== verification/Str.v ===== *)
(** * Rust strings

    A [&str] is a Rocq [string] of its UTF-8 bytes. The operations of [str] the
    control plane uses, with [trim] over the Unicode white-space characters in
    their encoded form: an encoded character starts with a byte no other
    character continues with, so working on bytes is working on characters. *)

From Stdlib Require Import Ascii String.
From stdpp Require Import strings.
From S2P Require Import Prelude.

Local Open Scope string_scope.
Local Open Scope Z_scope.

(** [std::str::from_utf8]: the well-formed sequences of the standard. *)
Definition between (lo b hi : Z) : bool := (lo <=? b) && (b <=? hi).
Definition cont (b : Z) : bool := between 128 b 191.

Fixpoint utf8_valid (bs : list Z) : bool :=
  match bs with
  | [] => true
  | a :: r =>
      if a <? 128 then utf8_valid r
      else match r with
      | [] => false
      | b :: r =>
          if between 194 a 223 then cont b && utf8_valid r
          else match r with
          | [] => false
          | c :: r =>
              let second3 :=
                if a =? 224 then between 160 b 191
                else if a =? 237 then between 128 b 159
                else between 225 a 239 && cont b in
              if second3 then cont c && utf8_valid r
              else match r with
              | [] => false
              | d :: r =>
                  let second4 :=
                    if a =? 240 then between 144 b 191
                    else if a =? 244 then between 128 b 143
                    else between 241 a 243 && cont b in
                  second4 && cont c && cont d && utf8_valid r
              end
          end
      end
  end.

Definition string_of_bytes (bs : bytes) : string :=
  string_of_list_ascii (ascii_of_byte <$> bs).
Definition bytes_of_string (s : string) : bytes := byte_of_ascii <$> list_ascii_of_string s.

Definition from_utf8 (bs : bytes) : option string :=
  if utf8_valid (u8_of <$> bs) then Some (string_of_bytes bs) else None.

Definition code (c : ascii) : N := N_of_ascii c.

Definition between_n (lo x hi : N) : bool := (lo <=? x)%N && (x <=? hi)%N.

(** White space of one, two and three bytes: U+0009 to U+000D and U+0020;
    U+0085 and U+00A0; U+1680, U+2000 to U+200A, U+2028, U+2029, U+202F, U+205F
    and U+3000. *)
Definition ws1 (a : ascii) : bool := between_n 9 (code a) 13 || (code a =? 32)%N.
Definition ws2 (a b : ascii) : bool :=
  (code a =? 194)%N && ((code b =? 133)%N || (code b =? 160)%N).
Definition ws3 (a b c : ascii) : bool :=
  (code a =? 225)%N && (code b =? 154)%N && (code c =? 128)%N
  || (code a =? 226)%N && (code b =? 128)%N
     && (between_n 128 (code c) 138 || (code c =? 168)%N || (code c =? 169)%N || (code c =? 175)%N)
  || (code a =? 226)%N && (code b =? 129)%N && (code c =? 159)%N
  || (code a =? 227)%N && (code b =? 128)%N && (code c =? 128)%N.

(** [s.trim_start()], [s.trim_end()] and [s.trim()]. *)
Fixpoint trim_start (s : string) : string :=
  match s with
  | "" => ""
  | String a s1 =>
      if ws1 a then trim_start s1
      else match s1 with
      | "" => s
      | String b s2 =>
          if ws2 a b then trim_start s2
          else match s2 with
          | "" => s
          | String c s3 => if ws3 a b c then trim_start s3 else s
          end
      end
  end.

Fixpoint trim_end (s : string) : string :=
  match s with
  | "" => ""
  | String c s' => if String.eqb (trim_start s) "" then "" else String c (trim_end s')
  end.

Definition trim (s : string) : string := trim_end (trim_start s).

(** [s.split(sep)] *)
Fixpoint split (sep : ascii) (s : string) : list string :=
  match s with
  | "" => [""]
  | String c s =>
      if Ascii.eqb c sep then "" :: split sep s
      else match split sep s with
      | [] => [String c ""]
      | x :: xs => String c x :: xs
      end
  end.

(** [s.split_once(p)] for a predicate on ASCII characters. *)
Fixpoint split_once_by (p : ascii -> bool) (s : string) : option (string * string) :=
  match s with
  | "" => None
  | String c s =>
      if p c then Some ("", s)
      else match split_once_by p s with
      | Some (a, b) => Some (String c a, b)
      | None => None
      end
  end.

Definition split_once (sep : ascii) : string -> option (string * string) :=
  split_once_by (fun c => Ascii.eqb c sep).

(** [s.rsplit_once(sep)] *)
Fixpoint rsplit_once (sep : ascii) (s : string) : option (string * string) :=
  match s with
  | "" => None
  | String c s =>
      match rsplit_once sep s with
      | Some (a, b) => Some (String c a, b)
      | None => if Ascii.eqb c sep then Some ("", s) else None
      end
  end.

(** [s.strip_prefix(p)] *)
Fixpoint strip_str_prefix (p s : string) : option string :=
  match p, s with
  | "", _ => Some s
  | String a p, String b s => if Ascii.eqb a b then strip_str_prefix p s else None
  | _, "" => None
  end.

(** [c.to_ascii_lowercase()], [s.to_ascii_lowercase()], [eq_ignore_ascii_case]
    and [char::is_ascii_whitespace]. *)
Definition ascii_lower (c : ascii) : ascii :=
  if between_n 65 (code c) 90 then ascii_of_N (code c + 32) else c.

Fixpoint to_ascii_lowercase (s : string) : string :=
  match s with "" => "" | String c s => String (ascii_lower c) (to_ascii_lowercase s) end.

Definition eq_ignore_ascii_case (a b : string) : bool :=
  String.eqb (to_ascii_lowercase a) (to_ascii_lowercase b).

Definition is_ascii_whitespace (c : ascii) : bool :=
  (code c =? 9)%N || (code c =? 10)%N || (code c =? 12)%N || (code c =? 13)%N || (code c =? 32)%N.

(** [s.chars().take(n).collect::<String>()]: a character starts at every byte
    that is not a continuation byte. *)
Fixpoint take_chars (n : nat) (s : string) : string :=
  match s with
  | "" => ""
  | String c s =>
      if between_n 128 (code c) 191 then String c (take_chars n s)
      else match n with O => "" | S n => String c (take_chars n s) end
  end.

Fixpoint has_char (c : ascii) (s : string) : bool :=
  match s with "" => false | String a s => Ascii.eqb a c || has_char c s end.

Fixpoint join (sep : ascii) (l : list string) : string :=
  match l with
  | [] => ""
  | [x] => x
  | x :: l => x +:+ String sep (join sep l)
  end.

(** ** Splitting what was joined *)

Lemma has_char_app c a b : has_char c (a +:+ b) = has_char c a || has_char c b.
Proof.
  induction a as [|x a IH]; [done|].
  change (String x a +:+ b) with (String x (a +:+ b)). simpl. by rewrite IH, orb_assoc.
Qed.

Lemma split_plain sep a : has_char sep a = false -> split sep a = [a].
Proof.
  induction a as [|x a IH]; simpl; [done|]. intros [-> Ha]%orb_false_iff. by rewrite IH.
Qed.

Lemma split_app sep a b :
  has_char sep a = false -> split sep (a +:+ String sep b) = a :: split sep b.
Proof.
  induction a as [|x a IH]; intros Ha.
  - simpl. by rewrite Ascii.eqb_refl.
  - simpl in Ha. apply orb_false_iff in Ha as [Hx Ha].
    change (String x a +:+ String sep b) with (String x (a +:+ String sep b)). simpl.
    by rewrite Hx, IH.
Qed.

Lemma split_join sep l :
  Forall (fun a => has_char sep a = false) l -> l <> [] -> split sep (join sep l) = l.
Proof.
  induction 1 as [|a l Ha Hl IH]; [done|]. intros _. destruct l as [|b l].
  - by apply split_plain.
  - change (join sep (a :: b :: l)) with (a +:+ String sep (join sep (b :: l))).
    by rewrite split_app, IH.
Qed.

Lemma split_once_app sep a b :
  has_char sep a = false -> split_once sep (a +:+ String sep b) = Some (a, b).
Proof.
  unfold split_once. induction a as [|x a IH]; intros Ha.
  - simpl. by rewrite Ascii.eqb_refl.
  - simpl in Ha. apply orb_false_iff in Ha as [Hx Ha].
    change (String x a +:+ String sep b) with (String x (a +:+ String sep b)). simpl.
    by rewrite Hx, IH.
Qed.

Lemma split_once_none sep a : has_char sep a = false -> split_once sep a = None.
Proof.
  unfold split_once. induction a as [|x a IH]; simpl; [done|].
  intros [-> Ha]%orb_false_iff. by rewrite IH.
Qed.

Lemma rsplit_once_none sep a : has_char sep a = false -> rsplit_once sep a = None.
Proof. induction a as [|x a IH]; simpl; [done|]. intros [-> Ha]%orb_false_iff. by rewrite IH. Qed.

Lemma rsplit_once_app sep a b :
  has_char sep b = false -> rsplit_once sep (a +:+ String sep b) = Some (a, b).
Proof.
  intros Hb. induction a as [|x a IH].
  - simpl. by rewrite rsplit_once_none, Ascii.eqb_refl.
  - change (String x a +:+ String sep b) with (String x (a +:+ String sep b)). simpl.
    by rewrite IH.
Qed.

(** ** Trimming *)

(** One white-space character removed from the front. *)
Definition ws_head (s : string) : option string :=
  match s with
  | String a s1 =>
      if ws1 a then Some s1
      else match s1 with
      | String b s2 =>
          if ws2 a b then Some s2
          else match s2 with String c s3 => if ws3 a b c then Some s3 else None | "" => None end
      | "" => None
      end
  | "" => None
  end.

Lemma trim_start_unfold s :
  trim_start s = match ws_head s with Some s' => trim_start s' | None => s end.
Proof.
  destruct s as [|a s1]; [done|]. simpl. destruct (ws1 a); [done|].
  destruct s1 as [|b s2]; [done|]. destruct (ws2 a b); [done|].
  destruct s2 as [|c s3]; [done|]. by destruct (ws3 a b c).
Qed.

Lemma ws_head_shorter s s' : ws_head s = Some s' -> (String.length s' < String.length s)%nat.
Proof.
  destruct s as [|a [|b [|c s]]]; simpl; repeat case_match; intros; simplify_eq; simpl; lia.
Qed.

(** A byte no white-space character contains: an ASCII character that is not
    itself white space. *)
Definition solid (c : ascii) : bool := (code c <? 128)%N && negb (ws1 c).

Lemma solid_ws c a b :
  solid c = true -> ws1 c = false /\ ws2 c a = false /\ ws2 a c = false
  /\ ws3 c a b = false /\ ws3 a c b = false /\ ws3 a b c = false.
Proof.
  unfold solid, ws2, ws3, between_n. rewrite andb_true_iff, negb_true_iff, N.ltb_lt.
  intros [Hc ->]. split; [done|].
  assert (forall k : N, (128 <= k)%N -> (code c =? k)%N = false) as Hk by (intros; apply N.eqb_neq; lia).
  assert ((128 <=? code c)%N = false) as Hle by (apply N.leb_gt; lia).
  rewrite !Hk, Hle by lia. simpl.
  repeat (rewrite ?andb_false_r, ?andb_false_l, ?orb_false_r; simpl). done.
Qed.

Lemma ws_head_solid c s t :
  solid c = true ->
  ws_head (s +:+ String c t)
  = match ws_head s with Some s' => Some (s' +:+ String c t) | None => None end.
Proof.
  intros Hc. destruct s as [|a [|b [|d s]]].
  - destruct t as [|x [|y t]]; simpl;
      [destruct (solid_ws c c c Hc) as (-> & _)|destruct (solid_ws c x x Hc) as (-> & -> & _)
      |destruct (solid_ws c x y Hc) as (-> & -> & _ & -> & _)]; done.
  - change (String a "" +:+ String c t) with (String a (String c t)). simpl.
    destruct (ws1 a); [done|]. destruct t as [|x t].
    + destruct (solid_ws c a a Hc) as (_ & _ & -> & _). done.
    + destruct (solid_ws c a x Hc) as (_ & _ & -> & _ & -> & _). done.
  - change (String a (String b "") +:+ String c t) with (String a (String b (String c t))). simpl.
    destruct (ws1 a); [done|]. destruct (ws2 a b); [done|].
    destruct (solid_ws c a b Hc) as (_ & _ & _ & _ & _ & ->). done.
  - change (String a (String b (String d s)) +:+ String c t)
      with (String a (String b (String d (s +:+ String c t)))). simpl.
    by destruct (ws1 a), (ws2 a b), (ws3 a b d).
Qed.

(** Trimming stops at a solid character. *)
Lemma trim_start_solid c s t :
  solid c = true -> trim_start (s +:+ String c t) = trim_start s +:+ String c t.
Proof.
  intros Hc. remember (String.length s) as n eqn:Hn. revert s Hn.
  induction (lt_wf n) as [n _ IH]. intros s ->.
  rewrite (trim_start_unfold (s +:+ _)), (trim_start_unfold s), ws_head_solid by done.
  destruct (ws_head s) as [s'|] eqn:Hs; [|done].
  by apply (IH (String.length s')); [apply ws_head_shorter|].
Qed.

Lemma app_not_empty s c t : String.eqb (s +:+ String c t) "" = false.
Proof. by destruct s. Qed.

Lemma trim_end_solid c s t :
  solid c = true -> trim_end (s +:+ String c t) = s +:+ String c (trim_end t).
Proof.
  intros Hc. induction s as [|x s IH].
  - change ("" +:+ String c t) with (String c t). cbn [trim_end].
    pose proof (trim_start_solid c "" t Hc) as Hst.
    change ("" +:+ String c t) with (String c t) in Hst. by rewrite Hst.
  - change (String x s +:+ String c t) with (String x (s +:+ String c t)). cbn [trim_end].
    pose proof (trim_start_solid c (String x s) t Hc) as Hst.
    change (String x s +:+ String c t) with (String x (s +:+ String c t)) in Hst.
    by rewrite Hst, app_not_empty, IH.
Qed.

Lemma trim_solid c s t :
  solid c = true -> trim (s +:+ String c t) = trim_start s +:+ String c (trim_end t).
Proof. intros Hc. unfold trim. by rewrite trim_start_solid, trim_end_solid. Qed.

Lemma trim_end_length s : (String.length (trim_end s) <= String.length s)%nat.
Proof. induction s as [|c s IH]; [done|]. cbn [trim_end]. case_match; simpl; lia. Qed.

Lemma trim_start_length s : (String.length (trim_start s) <= String.length s)%nat.
Proof.
  remember (String.length s) as n eqn:Hn. revert s Hn. induction (lt_wf n) as [n _ IH]. intros s ->.
  rewrite trim_start_unfold. destruct (ws_head s) as [s'|] eqn:Hs; [|done].
  pose proof (ws_head_shorter _ _ Hs). specialize (IH _ H s' eq_refl). lia.
Qed.

(** What a trimmed string is on both sides. *)
Lemma trimmed_parts s : trim s = s -> trim_start s = s /\ trim_end s = s.
Proof.
  intros Hs. assert (Hst : trim_start s = s).
  { rewrite trim_start_unfold. destruct (ws_head s) as [s'|] eqn:Hw; [|done].
    pose proof (ws_head_shorter _ _ Hw). pose proof (trim_start_length s') as H1.
    pose proof (trim_end_length (trim_start s)) as H2.
    unfold trim in Hs. rewrite Hs, (trim_start_unfold s), Hw in H2. lia. }
  split; [done|]. unfold trim in Hs. by rewrite Hst in Hs.
Qed.

(** A string of white space only, and what trimming removes. *)
Definition blank (w : string) : Prop := trim_start w = "".

Lemma ws_head_app w w' s : ws_head w = Some w' -> ws_head (w +:+ s) = Some (w' +:+ s).
Proof.
  destruct w as [|a w]; [done|]. change (String a w +:+ s) with (String a (w +:+ s)). simpl.
  destruct (ws1 a); [by intros [= ->]|]. destruct w as [|b w]; [done|].
  change (String b w +:+ s) with (String b (w +:+ s)). simpl.
  destruct (ws2 a b); [by intros [= ->]|]. destruct w as [|c w]; [done|].
  change (String c w +:+ s) with (String c (w +:+ s)). simpl.
  destruct (ws3 a b c); [by intros [= ->]|done].
Qed.

Lemma trim_start_blank w s : blank w -> trim_start (w +:+ s) = trim_start s.
Proof.
  unfold blank. remember (String.length w) as n eqn:Hn. revert w Hn.
  induction (lt_wf n) as [n _ IH]. intros w ->. rewrite trim_start_unfold.
  destruct (ws_head w) as [w'|] eqn:Hw; [|by intros ->].
  intros Hb. rewrite trim_start_unfold, (ws_head_app w w' s Hw).
  by apply (IH (String.length w')); [apply ws_head_shorter|..].
Qed.

Lemma ws_head_split s s' : ws_head s = Some s' -> exists w, s = w +:+ s' /\ ws_head w = Some "".
Proof.
  destruct s as [|a [|b [|c s]]]; simpl.
  - done.
  - destruct (ws1 a) eqn:H1; [|done]. intros [= <-]. exists (String a ""). simpl. by rewrite H1.
  - destruct (ws1 a) eqn:H1.
    { intros [= <-]. exists (String a ""). simpl. by rewrite H1. }
    destruct (ws2 a b) eqn:H2; [|done]. intros [= <-]. exists (String a (String b "")). simpl.
    by rewrite H1, H2.
  - destruct (ws1 a) eqn:H1.
    { intros [= <-]. exists (String a ""). simpl. by rewrite H1. }
    destruct (ws2 a b) eqn:H2.
    { intros [= <-]. exists (String a (String b "")). simpl. by rewrite H1, H2. }
    destruct (ws3 a b c) eqn:H3; [|done]. intros [= <-].
    exists (String a (String b (String c ""))). simpl. by rewrite H1, H2, H3.
Qed.

Lemma string_app_assoc (a b c : string) : (a +:+ b) +:+ c = a +:+ (b +:+ c).
Proof.
  induction a as [|x a IH]; [done|].
  change ((String x a +:+ b) +:+ c) with (String x ((a +:+ b) +:+ c)). by rewrite IH.
Qed.

Lemma trim_start_split s : exists w, s = w +:+ trim_start s /\ blank w.
Proof.
  remember (String.length s) as n eqn:Hn. revert s Hn. induction (lt_wf n) as [n _ IH]. intros s ->.
  rewrite trim_start_unfold. destruct (ws_head s) as [s'|] eqn:Hs; [|by exists ""].
  destruct (ws_head_split s s' Hs) as (w & -> & Hw).
  destruct (IH (String.length s') ltac:(by apply ws_head_shorter) s' eq_refl) as (w' & Hs' & Hb).
  exists (w +:+ w'). split; [by rewrite string_app_assoc, <- Hs'|].
  unfold blank. rewrite trim_start_unfold, (ws_head_app w "" w' Hw). exact Hb.
Qed.

Lemma trim_start_idem s : trim_start (trim_start s) = trim_start s.
Proof.
  remember (String.length s) as n eqn:Hn. revert s Hn. induction (lt_wf n) as [n _ IH]. intros s ->.
  rewrite (trim_start_unfold s). destruct (ws_head s) as [s'|] eqn:Hs.
  - by apply (IH (String.length s')); [apply ws_head_shorter|].
  - by rewrite trim_start_unfold, Hs.
Qed.

Lemma split_once_by_some p s a b :
  split_once_by p s = Some (a, b) -> exists c, s = a +:+ String c b /\ p c = true.
Proof.
  revert a. induction s as [|x s IH]; intros a; simpl; [done|]. destruct (p x) eqn:Hx.
  - intros [= <- <-]. by exists x.
  - destruct (split_once_by p s) as [[a' b']|] eqn:Hs; [|done]. intros [= <- <-].
    destruct (IH a' eq_refl) as (c & -> & Hc). by exists c.
Qed.

(** ** Numbers

    [s.parse::<uN>()] for an unsigned type whose largest value is [max]: an
    optional plus sign, then at least one decimal digit, without overflow. *)

Definition digit_value (c : ascii) : option Z :=
  if between_n 48 (code c) 57 then Some (Z.of_N (code c) - 48) else None.

Fixpoint parse_digits (max acc : Z) (s : string) : option Z :=
  match s with
  | "" => Some acc
  | String c s =>
      match digit_value c with
      | None => None
      | Some d => let acc := acc * 10 + d in if max <? acc then None else parse_digits max acc s
      end
  end.

Definition parse_uint (max : Z) (s : string) : option Z :=
  match s with
  | "" => None
  | String c rest =>
      if Ascii.eqb c "+" then (if String.eqb rest "" then None else parse_digits max 0 rest)
      else parse_digits max 0 s
  end.

(** [String::from_utf8_lossy]: each maximal ill-formed sequence becomes one
    U+FFFD. *)
Definition REPLACEMENT : list Z := [239; 191; 189].

(** The first two bytes of a three-byte and of a four-byte sequence. *)
Definition lead3 (a b : Z) : bool :=
  if a =? 224 then between 160 b 191
  else if a =? 237 then between 128 b 159
  else between 225 a 239 && cont b.
Definition lead4 (a b : Z) : bool :=
  if a =? 240 then between 144 b 191
  else if a =? 244 then between 128 b 143
  else between 241 a 243 && cont b.

Fixpoint lossy (bs : list Z) : list Z :=
  match bs with
  | [] => []
  | a :: r =>
      if a <? 128 then a :: lossy r
      else match r with
      | [] => REPLACEMENT
      | b :: r2 =>
          if between 194 a 223 then
            (if cont b then a :: b :: lossy r2 else (REPLACEMENT ++ lossy r)%list)
          else if lead3 a b then
            match r2 with
            | [] => REPLACEMENT
            | c :: r3 => if cont c then a :: b :: c :: lossy r3 else (REPLACEMENT ++ lossy r2)%list
            end
          else if lead4 a b then
            match r2 with
            | [] => REPLACEMENT
            | c :: r3 =>
                if cont c then
                  match r3 with
                  | [] => REPLACEMENT
                  | d :: r4 =>
                      if cont d then a :: b :: c :: d :: lossy r4 else (REPLACEMENT ++ lossy r3)%list
                  end
                else (REPLACEMENT ++ lossy r2)%list
            end
          else (REPLACEMENT ++ lossy r)%list
      end
  end.

Definition from_utf8_lossy (bs : bytes) : string :=
  string_of_bytes (byte_of <$> lossy (u8_of <$> bs)).

Example lossy_sample :
  lossy [65; 226; 130; 66; 240; 144; 128] = [65; 239; 191; 189; 66; 239; 191; 189].
Proof. reflexivity. Qed.
