(* ===== verification/Fs.v ===== *)
(** * Paths and the host file system

    Unix paths as [std::path] treats them, and the file-system calls the
    program makes, as an interface: the host's file system is outside the
    program. Errors are the messages they are rendered with. *)

From Stdlib Require Import Ascii String.
From stdpp Require Import strings.
From S2P Require Import Prelude Str.

(** ** Paths *)

Definition slash : Ascii.ascii := "/"%char.

(** The parts of a path between slashes, empty ones included. *)
Fixpoint split_slash (s : string) : list string :=
  match s with
  | EmptyString => [EmptyString]
  | String c s =>
      if bool_decide (c = slash) then EmptyString :: split_slash s
      else match split_slash s with
           | part :: parts => String c part :: parts
           | [] => [String c EmptyString]
           end
  end.

Inductive Component : Type :=
| RootDir
| CurDir
| ParentDir
| Normal (part : string).

Definition is_absolute (s : string) : bool :=
  match s with String c _ => bool_decide (c = slash) | EmptyString => false end.

(** [Path::components]: repeated slashes and inner [.] parts are dropped, a
    leading [.] of a relative path is kept. Unix has no prefix components. *)
Definition part_component (part : string) : option Component :=
  if String.eqb part "" then None
  else if String.eqb part "." then None
  else if String.eqb part ".." then Some ParentDir
  else Some (Normal part).

Definition components (s : string) : list Component :=
  if is_absolute s then RootDir :: omap part_component (split_slash s)
  else match split_slash s with
       | part :: parts =>
           (if String.eqb part "." then [CurDir] else option_list (part_component part)) ++
           omap part_component parts
       | [] => []
       end.

Definition ends_with_slash (s : string) : bool :=
  match last (list_ascii_of_string s) with Some c => bool_decide (c = slash) | None => false end.

(** [PathBuf::push] of a part and [Path::join]. *)
Definition push (p part : string) : string :=
  if is_absolute part then part
  else if String.eqb p "" then part
  else if ends_with_slash p then p +:+ part
  else p +:+ "/" +:+ part.

(** [Path::parent] of a path without a trailing slash: what precedes the last
    slash, the root itself for a top-level entry. *)
Fixpoint parent_rev (cs : list Ascii.ascii) : option (list Ascii.ascii) :=
  match cs with
  | [] => None
  | c :: cs => if bool_decide (c = slash) then Some cs else parent_rev cs
  end.

Definition parent (s : string) : option string :=
  if String.eqb s "" then None
  else if String.eqb s "/" then None
  else match parent_rev (rev (list_ascii_of_string s)) with
       | None => Some ""
       | Some [] => Some "/"
       | Some cs => Some (string_of_list_ascii (rev cs))
       end.

(** ** The file system *)

Class FileSystem (F : Type) := {
  fs_read : F -> string -> result string bytes;
  fs_write : string -> bytes -> SM F string unit;
  fs_create_dir_all : string -> SM F string unit;
  fs_remove_dir_all : string -> SM F string unit;
  fs_set_permissions : string -> Z -> SM F string unit;
}.

(** The owner may read the file. *)
Definition owner_readable (mode : Z) : bool := Z.testbit mode 8.

Class FileSystemLaws (F : Type) `{!FileSystem F} := {
  (** What a successful write stored is read back, also after a change of
      permissions that lets the owner read. *)
  fs_read_write f p bs f' : fs_write p bs f = (Ok tt, f') -> fs_read f' p = Ok bs;
  fs_read_chmod f p mode f' :
    fs_set_permissions p mode f = (Ok tt, f') -> owner_readable mode = true ->
    fs_read f' p = fs_read f p;
}.

(** A file system of flat files: every directory exists, and removing a
    directory removes the files whose name starts with it. *)
Module FlatFs.
Abbreviation t := (gmap string bytes).

Definition under (dir p : string) : bool := String.prefix (dir +:+ "/") p.

#[global] Instance flat_fs : FileSystem t := {
  fs_read f p := ok_or "not found" (f !! p);
  fs_write p bs f := (Ok tt, <[p := bs]> f);
  fs_create_dir_all _ f := (Ok tt, f);
  fs_remove_dir_all dir f := (Ok tt, filter (fun '(p, _) => under dir p = false) f);
  fs_set_permissions _ _ f := (Ok tt, f);
}.

#[global] Instance flat_fs_laws : FileSystemLaws t.
Proof.
  split; simpl.
  - intros f p bs f' [= <-]. by rewrite (lookup_insert_eq f p bs).
  - by intros f p mode f' [= <-].
Qed.
End FlatFs.

(** ** Path lemmas *)

(** A name that is one path component. *)
Definition plain (part : string) : Prop :=
  part <> "" /\ part <> "." /\ part <> ".." /\ slash ∉ list_ascii_of_string part.

Lemma split_slash_no_slash s : Forall (fun p => slash ∉ list_ascii_of_string p) (split_slash s).
Proof.
  induction s as [|c s IH]; simpl.
  - constructor; [simpl; by intros ?%elem_of_nil|constructor].
  - case_bool_decide as Hc.
    + constructor; [by intros ?%elem_of_nil|done].
    + destruct (split_slash s) as [|p ps].
      * constructor; [|constructor]. simpl. intros [?|?%elem_of_nil]%elem_of_cons; congruence.
      * apply Forall_cons in IH as [Hp Hps]. constructor; [|done]. simpl.
        intros [?|?]%elem_of_cons; [congruence|done].
Qed.

Lemma part_component_normal p part :
  slash ∉ list_ascii_of_string p -> part_component p = Some (Normal part) -> part = p /\ plain p.
Proof.
  intros Hs. unfold part_component, plain.
  destruct (String.eqb_spec p ""); [done|]. destruct (String.eqb_spec p "."); [done|].
  destruct (String.eqb_spec p ".."); [done|]. by intros [= <-].
Qed.

(** Every [Normal] component of a path is a plain name. *)
Lemma components_plain s part : Normal part ∈ components s -> plain part.
Proof.
  assert (Ho : forall ps, Forall (fun p => slash ∉ list_ascii_of_string p) ps ->
            Normal part ∈ omap part_component ps -> plain part).
  { intros ps Hps (p & Hp & Hc)%list_elem_of_omap. rewrite Forall_forall in Hps.
    by apply part_component_normal in Hc as [-> ?]; [|auto]. }
  unfold components. pose proof (split_slash_no_slash s) as Hs. destruct (is_absolute s).
  - intros [?|Hin]%elem_of_cons; [done|]. by eapply Ho.
  - destruct (split_slash s) as [|p ps]; [by intros ?%elem_of_nil|].
    apply Forall_cons in Hs as [Hp Hps]. intros [Hin|Hin]%elem_of_app; [|by eapply Ho].
    destruct (String.eqb_spec p "."); [by apply list_elem_of_singleton in Hin|].
    destruct (part_component p) as [c|] eqn:Hc; simpl in Hin; [|by apply elem_of_nil in Hin].
    apply list_elem_of_singleton in Hin as <-. by apply part_component_normal in Hc as [-> ?].
Qed.

(** The components of an absolute path are its root and its parts. *)
Lemma components_absolute s :
  is_absolute s = true -> components s = RootDir :: omap part_component (split_slash s).
Proof. intros H. unfold components. by rewrite H. Qed.

(** A path extended by plain names, one level each. *)
Definition join_parts (root : string) (parts : list string) : string :=
  foldl (fun p part => p +:+ "/" +:+ part) root parts.

Lemma last_ascii_app s s' :
  list_ascii_of_string (s +:+ s') = list_ascii_of_string s ++ list_ascii_of_string s'.
Proof. induction s as [|c s IH]; simpl; [done|]. by rewrite IH. Qed.

Lemma plain_push p part :
  p <> "" -> ends_with_slash p = false -> plain part ->
  push p part = p +:+ "/" +:+ part /\ p +:+ "/" +:+ part <> "" /\
  ends_with_slash (p +:+ "/" +:+ part) = false.
Proof.
  intros Hp Hs (Hne & _ & _ & Hsl). destruct part as [|c part]; [done|]. split_and!.
  - unfold push. simpl. rewrite bool_decide_false.
    + by rewrite (proj2 (String.eqb_neq _ _)), Hs.
    + intros ->. apply Hsl. left.
  - by destruct p.
  - unfold ends_with_slash. rewrite !last_ascii_app. change (list_ascii_of_string "/") with [slash].
    cbn [app]. change (list_ascii_of_string (String c part)) with (c :: list_ascii_of_string part) in *.
    rewrite last_app_cons, last_cons_cons.
    destruct (last (c :: list_ascii_of_string part)) as [c'|] eqn:Hl; [|done].
    apply bool_decide_false. intros ->. by apply last_Some_elem_of in Hl.
Qed.

Lemma push_plain_parts root parts :
  root <> "" -> ends_with_slash root = false -> Forall plain parts ->
  foldl push root parts = join_parts root parts.
Proof.
  intros Hr Hs Hp. revert root Hr Hs. induction Hp as [|part parts Hpl _ IH]; intros root Hr Hs; [done|].
  simpl. destruct (plain_push root part Hr Hs Hpl) as (-> & ? & ?). by apply IH.
Qed.

(** Splitting distributes over a slash. *)
Lemma split_slash_app a b : split_slash (a +:+ "/" +:+ b) = split_slash a ++ split_slash b.
Proof.
  induction a as [|c a IH].
  - change ("" +:+ "/" +:+ b) with (String "/"%char b). cbn [split_slash].
    rewrite bool_decide_true by done. done.
  - change (String c a +:+ "/" +:+ b) with (String c (a +:+ "/" +:+ b)). cbn [split_slash].
    rewrite IH. case_bool_decide; [done|]. destruct (split_slash a) eqn:Ha; [|done].
    destruct a as [|c' a]; simpl in Ha; [done|]. case_bool_decide; [done|].
    by destruct (split_slash a).
Qed.

Lemma split_slash_plain s : slash ∉ list_ascii_of_string s -> split_slash s = [s].
Proof.
  induction s as [|c s IH]; intros Hs; [done|]. simpl in *.
  apply not_elem_of_cons in Hs as [Hc Hs]. rewrite bool_decide_false by congruence.
  by rewrite IH.
Qed.

(** A path that ends with a slash is another path and that slash. *)
Lemma ends_with_slash_split s :
  ends_with_slash s = true -> exists s', s = s' +:+ "/".
Proof.
  induction s as [|c s IH]; [done|]. destruct s as [|c' s].
  - unfold ends_with_slash. simpl. intros Hc%bool_decide_eq_true. subst c. by exists "".
  - intros Hs. destruct IH as [s' Hs']; [done|]. exists (String c s'). simpl. by rewrite Hs'.
Qed.

Lemma part_component_empty : omap part_component [""] = [].
Proof. done. Qed.

(** The components that a relative path adds. *)
Definition added (s : string) : list Component := omap part_component (split_slash s).

Lemma components_push p part :
  is_absolute p = true -> is_absolute part = false ->
  components (push p part) = components p ++ added part /\ is_absolute (push p part) = true.
Proof.
  intros Hp Hpart. destruct p as [|c p]; [done|]. unfold push. rewrite Hpart.
  rewrite (proj2 (String.eqb_neq (String c p) "")) by done.
  destruct (ends_with_slash (String c p)) eqn:He.
  - split; [|done]. rewrite !components_absolute by done. unfold added. cbn [app]. f_equal.
    apply ends_with_slash_split in He as [q ->].
    rewrite string_app_assoc. change (q +:+ "/") with (q +:+ "/" +:+ "").
    rewrite !split_slash_app, !omap_app. change (split_slash "") with [""]. rewrite part_component_empty. by rewrite app_nil_r.
  - split; [|done]. rewrite !components_absolute by done. unfold added. cbn [app]. f_equal.
    by rewrite split_slash_app, omap_app.
Qed.

Lemma added_single name x : components name = [Normal x] -> is_absolute name = false /\ added name = [Normal x].
Proof.
  unfold components, added. destruct (is_absolute name); [done|].
  destruct (split_slash name) as [|part parts]; [done|]. intros Hc. split; [done|].
  destruct (String.eqb part "."); [by destruct (omap part_component parts)|].
  simpl. by destruct (part_component part).
Qed.
