(* ===== verification/VmCore.v ===== *)
(** * vm-core: the hypervisor interface

    The types of [crates/vm-core/src/lib.rs] and its [Hypervisor] trait as a
    type class over the state [H] an implementation owns. Identifiers are 64-bit
    integers; paths and messages are strings. *)

From Stdlib Require Import Ascii String.
From stdpp Require Import strings pretty.
From S2P Require Import Prelude.

Abbreviation VmId := Z.
Abbreviation SnapshotId := Z.

(** ** Rendering *)

Definition hex_digit (d : Z) : ascii :=
  if d <? 10 then ascii_of_nat (48 + Z.to_nat d) else ascii_of_nat (87 + Z.to_nat d).

(** [{:0nx}] *)
Fixpoint hex_fixed (n : nat) (z : Z) : string :=
  match n with
  | O => ""
  | S n => hex_fixed n (z / 16) +:+ String (hex_digit (z mod 16)) ""
  end.

Definition display_vm_id (id : VmId) : string := "vm-" +:+ hex_fixed 16 id.
Definition display_snapshot_id (id : SnapshotId) : string := "snap-" +:+ hex_fixed 16 id.

(** [VmId::next] and [SnapshotId::next]: the counter's value and its successor. *)
Definition fetch_add1 (counter : Z) : Z * Z := (counter, wrap64 (counter + 1)).

(** ** Data *)

Inductive NetBackendChoice : Type := NetMock | NetSmoltcp.

Module VmConfig.
Record t : Type := mk {
  vcpus : Z;
  memory_mib : Z;
  kernel : option string;
  flat_binary : option bytes;
  initrd : option string;
  rootfs : option string;
  cmdline : string;
  vsock_cid : option Z;
  snapshot_dir : option string;
  net_backend : NetBackendChoice;
}.

Definition default : t := mk 1 128 None None None None "" None None NetMock.

(** [VmConfig { vcpus, memory_mib, cmdline, ..cfg }] *)
Definition with_geometry (vcpus memory_mib : Z) (cmdline : string) (cfg : t) : t :=
  mk vcpus memory_mib (kernel cfg) (flat_binary cfg) (initrd cfg) (rootfs cfg) cmdline
    (vsock_cid cfg) (snapshot_dir cfg) (net_backend cfg).
End VmConfig.

Inductive VmState : Type := Created | Running | Stopped.

#[global] Instance VmState_eq_dec : EqDecision VmState.
Proof. solve_decision. Defined.

Module VmHandle.
Record t : Type := mk { id : VmId; state : VmState }.
End VmHandle.

Inductive VmError : Type :=
| Unsupported (what : string)
| UnknownVm (id : VmId)
| UnknownSnapshot (id : SnapshotId)
| InvalidTransition (id : VmId) (from to : VmState)
| Backend (message : string).

Definition debug_vm_state (s : VmState) : string :=
  match s with Created => "Created" | Running => "Running" | Stopped => "Stopped" end.

Definition display_vm_error (e : VmError) : string :=
  match e with
  | Unsupported what => "operation not supported: " +:+ what
  | UnknownVm id => "unknown vm id: " +:+ display_vm_id id
  | UnknownSnapshot id => "unknown snapshot id: " +:+ display_snapshot_id id
  | InvalidTransition id from to =>
      "invalid state transition for " +:+ display_vm_id id +:+ ": " +:+ debug_vm_state from
        +:+ " -> " +:+ debug_vm_state to
  | Backend message => "backend error: " +:+ message
  end.

Module VmMeta.
Record t : Type := mk {
  id : VmId;
  state : VmState;
  vcpus : Z;
  memory_mib : Z;
  kernel_cmdline : string;
  snapshot_dir : option string;
}.
End VmMeta.

Module SnapshotMeta.
Record t : Type := mk {
  id : SnapshotId;
  vcpu_count : Z;
  memory_bytes : Z;
  page_size : Z;
  kernel_cmdline : string;
}.
End SnapshotMeta.

Module GuestExecRequest.
Record t : Type := mk {
  program : string;
  args : list string;
  cwd : option string;
  env : list (string * string);
  timeout_ms : option Z;
}.
End GuestExecRequest.

Module GuestExecResult.
Record t : Type := mk {
  exit_code : option Z;
  signal : option Z;
  stdout : bytes;
  stderr : bytes;
  duration_ms : Z;
}.
End GuestExecResult.

Inductive ExecFrame : Type :=
| Stdout (data : bytes)
| Stderr (data : bytes)
| Exit (exit_code signal : option Z) (duration_ms : Z).

#[global] Instance NetBackendChoice_eq_dec : EqDecision NetBackendChoice.
Proof. solve_decision. Defined.
#[global] Instance VmConfig_eq_dec : EqDecision VmConfig.t.
Proof. solve_decision. Defined.
#[global] Instance VmHandle_eq_dec : EqDecision VmHandle.t.
Proof. solve_decision. Defined.
#[global] Instance VmMeta_eq_dec : EqDecision VmMeta.t.
Proof. solve_decision. Defined.
#[global] Instance SnapshotMeta_eq_dec : EqDecision SnapshotMeta.t.
Proof. solve_decision. Defined.
#[global] Instance GuestExecRequest_eq_dec : EqDecision GuestExecRequest.t.
Proof. solve_decision. Defined.
#[global] Instance GuestExecResult_eq_dec : EqDecision GuestExecResult.t.
Proof. solve_decision. Defined.

(** ** The trait

    Every method but [exec_in_guest_stream], whose result is another object
    with state of its own. *)
Class Hypervisor (H : Type) := {
  create_vm : VmConfig.t -> SM H VmError VmHandle.t;
  start : VmId -> SM H VmError unit;
  stop : VmId -> SM H VmError unit;
  state : VmId -> SM H VmError VmState;
  snapshot : VmId -> SM H VmError SnapshotId;
  restore : SnapshotId -> SM H VmError VmHandle.t;
  destroy : VmId -> SM H VmError unit;
  list_vms : SM H VmError (list VmHandle.t);
  list_snapshots : SM H VmError (list SnapshotId);
  delete_snapshot : SnapshotId -> SM H VmError unit;
  snapshot_meta : SnapshotId -> SM H VmError SnapshotMeta.t;
  snapshot_export_dir : SnapshotId -> SM H VmError (option string);
  snapshot_adopt : string -> SM H VmError SnapshotId;
  vm_meta : VmId -> SM H VmError VmMeta.t;
  exec_in_guest : VmId -> GuestExecRequest.t -> SM H VmError GuestExecResult.t;
  write_file : VmId -> string -> bytes -> Z -> SM H VmError Z;
  read_file : VmId -> string -> SM H VmError bytes;
}.

(** [ExecStream]: one frame, or [None] at the end of the stream. *)
Class ExecStream (S : Type) := next_frame : SM S VmError (option ExecFrame).
