(* ===== verification/VmMock.v ===== *)
(** * vm-mock: the in-memory hypervisor

    Models [crates/vm-mock/src/lib.rs] ([MockHypervisor], every method of the
    [Hypervisor] trait but the streaming exec) and the manifest of
    [crates/snapshot/src/lib.rs] it exchanges through snapshot directories. The
    state is the two maps behind the hypervisor's lock, the process-wide id
    counters, and the host's file system. Running a program on the host is a
    parameter, as are the temporary directory and the process id. *)

From Stdlib Require Import Ascii String.
From stdpp Require Import strings pretty.
From S2P Require Import Prelude Io Fs VmCore.

(** ** The snapshot manifest *)

Definition MANIFEST_VERSION : Z := 1.

(** The errors a manifest can give, with the messages of [SnapshotError]. *)
Inductive ManifestError : Type :=
| ManifestVersion (found expected : Z)
| ManifestJson (message : string)
| ManifestIo (message : string).

Definition display_manifest_error (e : ManifestError) : string :=
  match e with
  | ManifestVersion found expected =>
      "snapshot format version mismatch: found " +:+ pretty found +:+ ", expected " +:+ pretty expected
  | ManifestJson m => "manifest json error: " +:+ m
  | ManifestIo m => "snapshot io error: " +:+ m
  end.

Module Manifest.
Record t : Type := mk {
  format_version : Z;
  snapshot_id : Z;
  created_at_unix_ms : Z;
  memory_bytes : Z;
  page_size : Z;
  vcpu_count : Z;
  kernel_cmdline : string;
  backing_file : string;
  labels : gmap string string;
}.

Definition default_backing_file : string := "memory.cow".
Definition FILE_NAME : string := "manifest.json".

Definition new (snapshot_id memory_bytes page_size vcpu_count : Z) : t :=
  mk MANIFEST_VERSION snapshot_id 0 memory_bytes page_size vcpu_count "" default_backing_file ∅.

(** [manifest.kernel_cmdline = cmdline] *)
Definition set_cmdline (cmdline : string) (m : t) : t :=
  mk (format_version m) (snapshot_id m) (created_at_unix_ms m) (memory_bytes m) (page_size m)
    (vcpu_count m) cmdline (backing_file m) (labels m).

Section Store.
Context {F : Type} `{!FileSystem F, !Serde string t}.

Definition from_json (bs : bytes) : result ManifestError t :=
  parsed ← map_err ManifestJson (Io.from_json bs);
  if negb (format_version parsed =? MANIFEST_VERSION)
  then Err (ManifestVersion (format_version parsed) MANIFEST_VERSION)
  else Ok parsed.

Definition to_json_pretty (m : t) : result ManifestError bytes := map_err ManifestJson (to_vec m).

Definition fs_do {A} (c : SM F string A) : SM F ManifestError A :=
  fun f => let (r, f) := c f in (map_err ManifestIo r, f).

Definition write_to_dir (m : t) (dir : string) : SM F ManifestError unit :=
  _ ← fs_do (fs_create_dir_all dir);
  let path := push dir FILE_NAME in
  js ← sm_lift (to_json_pretty m);
  fs_do (fs_write path js).

Definition read_from_dir (f : F) (dir : string) : result ManifestError t :=
  let path := push dir FILE_NAME in
  bs ← map_err ManifestIo (fs_read f path);
  from_json bs.
End Store.
End Manifest.

(** ** The hypervisor *)

(** What running a program on the host gives: an error of [spawn], an error of
    [wait_with_output], or its exit and output with the time it took. *)
Module Process.
Record output : Type := mk {
  code : option Z;
  signal : option Z;
  stdout : bytes;
  stderr : bytes;
  elapsed_ms : Z;
}.
Definition outcome : Type := result string (result string output).
End Process.

Module MockVm.
Record t : Type := mk { config : VmConfig.t; state : VmState; guest_root : string }.
End MockVm.

Module MockSnapshot.
Record t : Type := mk { config : VmConfig.t; state : VmState }.
End MockSnapshot.

Module MockHypervisor.
Section Mock.
Context {F : Type} `{!FileSystem F, !Serde string Manifest.t}.
Variable run : GuestExecRequest.t -> F -> Process.outcome * F.
Variables temp_dir pid : string.

Record t : Type := mk {
  vms : gmap Z MockVm.t;
  snapshots : gmap Z MockSnapshot.t;
  next_vm : Z;
  next_snapshot : Z;
  fs : F;
}.

Definition new (fs : F) : t := mk ∅ ∅ 1 1 fs.

Definition vm_count (h : t) : nat := size (vms h).
Definition snapshot_count (h : t) : nat := size (snapshots h).

Definition set_vms (m : gmap Z MockVm.t) (h : t) : t :=
  mk m (snapshots h) (next_vm h) (next_snapshot h) (fs h).
Definition set_snapshots (m : gmap Z MockSnapshot.t) (h : t) : t :=
  mk (vms h) m (next_vm h) (next_snapshot h) (fs h).
Definition set_fs (f : F) (h : t) : t := mk (vms h) (snapshots h) (next_vm h) (next_snapshot h) f.

Definition VmId_next : SM t VmError Z := fun h =>
  let (id, c) := fetch_add1 (next_vm h) in (Ok id, mk (vms h) (snapshots h) c (next_snapshot h) (fs h)).
Definition SnapshotId_next : SM t VmError Z := fun h =>
  let (id, c) := fetch_add1 (next_snapshot h) in (Ok id, mk (vms h) (snapshots h) (next_vm h) c (fs h)).

Definition guest_root_dir (id : Z) : string :=
  push temp_dir ("rust-nano-vm-mock-guest-" +:+ pid +:+ "-" +:+ pretty id).

Definition get_vm (id : VmId) : SM t VmError MockVm.t := fun h =>
  (ok_or (UnknownVm id) (vms h !! id), h).

Definition insert_vm (id : VmId) (vm : MockVm.t) : SM t VmError unit :=
  sm_modify (fun h => set_vms (<[id := vm]> (vms h)) h).
Definition insert_snapshot (id : SnapshotId) (s : MockSnapshot.t) : SM t VmError unit :=
  sm_modify (fun h => set_snapshots (<[id := s]> (snapshots h)) h).

(** A file-system call, its error turned into a [Backend] one. *)
Definition fs_call {A} (context : string) (c : SM F string A) : SM t VmError A := fun h =>
  let (r, f) := c (fs h) in (map_err (fun e => Backend (context +:+ e)) r, set_fs f h).

Definition create_vm (cfg : VmConfig.t) : SM t VmError VmHandle.t :=
  f ← sm_gets fs;
  cfg ← sm_lift
    match VmConfig.snapshot_dir cfg with
    | None => Ok cfg
    | Some dir =>
        manifest ← map_err (fun e => Backend ("snapshot manifest: " +:+ display_manifest_error e))
                     (Manifest.read_from_dir f dir);
        let mib := Manifest.memory_bytes manifest / (1024 * 1024) in
        Ok (VmConfig.with_geometry (Manifest.vcpu_count manifest) mib
              (Manifest.kernel_cmdline manifest) cfg)
    end;
  id ← VmId_next;
  _ ← insert_vm id (MockVm.mk cfg Created (guest_root_dir id));
  mret (VmHandle.mk id Created).

Definition set_state (id : VmId) (vm : MockVm.t) (s : VmState) : SM t VmError unit :=
  insert_vm id (MockVm.mk (MockVm.config vm) s (MockVm.guest_root vm)).

Definition start (id : VmId) : SM t VmError unit :=
  vm ← get_vm id;
  match MockVm.state vm with
  | Created | Stopped => set_state id vm Running
  | Running => sm_fail (InvalidTransition id Running Running)
  end.

Definition stop (id : VmId) : SM t VmError unit :=
  vm ← get_vm id;
  match MockVm.state vm with
  | Running => set_state id vm Stopped
  | other => sm_fail (InvalidTransition id other Stopped)
  end.

Definition state (id : VmId) : SM t VmError VmState :=
  vm ← get_vm id; mret (MockVm.state vm).

Definition snapshot (id : VmId) : SM t VmError SnapshotId :=
  vm ← get_vm id;
  snap_id ← SnapshotId_next;
  _ ← insert_snapshot snap_id (MockSnapshot.mk (MockVm.config vm) (MockVm.state vm));
  mret snap_id.

Definition get_snapshot (snap : SnapshotId) : SM t VmError MockSnapshot.t := fun h =>
  (ok_or (UnknownSnapshot snap) (snapshots h !! snap), h).

Definition restore (snap : SnapshotId) : SM t VmError VmHandle.t :=
  s ← get_snapshot snap;
  id ← VmId_next;
  _ ← insert_vm id (MockVm.mk (MockSnapshot.config s) (MockSnapshot.state s) (guest_root_dir id));
  mret (VmHandle.mk id (MockSnapshot.state s)).

(** The result of [remove_dir_all] is discarded. *)
Definition destroy (id : VmId) : SM t VmError unit :=
  vm ← get_vm id;
  _ ← sm_modify (fun h => set_vms (delete id (vms h)) h);
  sm_modify (fun h => set_fs (fs_remove_dir_all (MockVm.guest_root vm) (fs h)).2 h).

Definition list_vms : SM t VmError (list VmHandle.t) :=
  sm_gets (fun h => (fun '(id, vm) => VmHandle.mk id (MockVm.state vm)) <$> map_to_list (vms h)).

Definition list_snapshots : SM t VmError (list SnapshotId) :=
  sm_gets (fun h => (map_to_list (snapshots h)).*1).

Definition delete_snapshot (snap : SnapshotId) : SM t VmError unit :=
  _ ← get_snapshot snap;
  sm_modify (fun h => set_snapshots (delete snap (snapshots h)) h).

Definition vm_meta (id : VmId) : SM t VmError VmMeta.t :=
  vm ← get_vm id;
  let c := MockVm.config vm in
  mret (VmMeta.mk id (MockVm.state vm) (VmConfig.vcpus c) (VmConfig.memory_mib c)
          (VmConfig.cmdline c) (VmConfig.snapshot_dir c)).

Definition snapshot_meta (snap : SnapshotId) : SM t VmError SnapshotMeta.t :=
  s ← get_snapshot snap;
  let c := MockSnapshot.config s in
  mret (SnapshotMeta.mk snap (VmConfig.vcpus c)
          (saturating_mul64 (VmConfig.memory_mib c) (1024 * 1024)) 4096 (VmConfig.cmdline c)).

Definition write_manifest (manifest : Manifest.t) (dir : string) : SM t VmError unit := fun h =>
  let (r, f) := Manifest.write_to_dir manifest dir (fs h) in
  (map_err (fun e => Backend ("mock: write manifest: " +:+ display_manifest_error e)) r, set_fs f h).

Definition snapshot_export_dir (snap : SnapshotId) : SM t VmError (option string) :=
  meta ← snapshot_meta snap;
  let dir := push (push temp_dir "nanovm-mock-snapshots") (pretty snap) in
  _ ← fs_call "mock: snapshot_export_dir mkdir: " (fs_create_dir_all dir);
  let manifest := Manifest.new (SnapshotMeta.id meta) (SnapshotMeta.memory_bytes meta)
                    (SnapshotMeta.page_size meta) (SnapshotMeta.vcpu_count meta) in
  let manifest := Manifest.set_cmdline (SnapshotMeta.kernel_cmdline meta) manifest in
  _ ← write_manifest manifest dir;
  mret (Some dir).

(** [div_ceil(1024 * 1024).max(1)] *)
Definition round_up_mib (n : Z) : Z := Z.max ((n + (1024 * 1024 - 1)) / (1024 * 1024)) 1.

Definition snapshot_adopt (dir : string) : SM t VmError SnapshotId :=
  f ← sm_gets fs;
  manifest ← sm_lift (map_err (fun e => Backend ("mock: adopt: read manifest from " +:+ dir +:+ ": "
                                  +:+ display_manifest_error e))
               (Manifest.read_from_dir f dir));
  let memory_mib := round_up_mib (Manifest.memory_bytes manifest) in
  let cfg := VmConfig.with_geometry (Manifest.vcpu_count manifest) memory_mib
               (Manifest.kernel_cmdline manifest) VmConfig.default in
  snap_id ← SnapshotId_next;
  _ ← insert_snapshot snap_id (MockSnapshot.mk cfg Running);
  mret snap_id.

(** ** Guest operations *)

(** The lifecycle check every guest operation starts with. *)
Definition running_vm (id : VmId) : SM t VmError MockVm.t :=
  vm ← get_vm id;
  if bool_decide (MockVm.state vm = Running) then mret vm
  else sm_fail (InvalidTransition id (MockVm.state vm) Running).

Definition run_program (req : GuestExecRequest.t) : SM t VmError Process.outcome := fun h =>
  let (r, f) := run req (fs h) in (Ok r, set_fs f h).

Definition exec_in_guest (id : VmId) (req : GuestExecRequest.t) : SM t VmError GuestExecResult.t :=
  _ ← running_vm id;
  outcome ← run_program req;
  let program := GuestExecRequest.program req in
  waited ← sm_lift (map_err (fun e => Backend ("exec spawn " +:+ program +:+ ": " +:+ e)) outcome);
  output ← sm_lift (map_err (fun e => Backend ("exec wait " +:+ program +:+ ": " +:+ e)) waited);
  let duration_ms := Process.elapsed_ms output in
  _ ← match GuestExecRequest.timeout_ms req with
      | Some limit =>
          if limit <? duration_ms then
            sm_fail (Backend ("exec exceeded timeout " +:+ pretty limit +:+ " ms (ran "
                              +:+ pretty duration_ms +:+ " ms)"))
          else mret tt
      | None => mret tt
      end;
  mret (GuestExecResult.mk (Process.code output) (Process.signal output) (Process.stdout output)
          (Process.stderr output) duration_ms).

(** The loop of [resolve_guest_path] over the path's components. *)
Fixpoint push_components (guest_path resolved : string) (cs : list Component)
  : result VmError string :=
  match cs with
  | [] => Ok resolved
  | RootDir :: cs => push_components guest_path resolved cs
  | Normal part :: cs => push_components guest_path (push resolved part) cs
  | (CurDir | ParentDir) :: _ =>
      Err (Backend ("guest path must not escape its root: " +:+ guest_path))
  end.

Definition resolve_guest_path (root guest_path : string) : result VmError string :=
  if negb (is_absolute guest_path)
  then Err (Backend ("guest path must be absolute: " +:+ guest_path))
  else push_components guest_path root (components guest_path).

Definition write_file (id : VmId) (path : string) (content : bytes) (mode : Z) : SM t VmError Z :=
  vm ← running_vm id;
  path ← sm_lift (resolve_guest_path (MockVm.guest_root vm) path);
  let bytes := zlen content in
  _ ← match parent path with
      | Some dir => fs_call ("create parent " +:+ dir +:+ ": ") (fs_create_dir_all dir)
      | None => mret tt
      end;
  _ ← fs_call ("write_file " +:+ path +:+ ": ") (fs_write path content);
  _ ← fs_call ("chmod " +:+ path +:+ ": ") (fs_set_permissions path mode);
  mret bytes.

Definition read_file (id : VmId) (path : string) : SM t VmError bytes :=
  vm ← running_vm id;
  path ← sm_lift (resolve_guest_path (MockVm.guest_root vm) path);
  fs_call ("read_file " +:+ path +:+ ": ") (fun f => (fs_read f path, f)).

#[local] Instance mock_hypervisor : Hypervisor t := {
  VmCore.create_vm := create_vm;
  VmCore.start := start;
  VmCore.stop := stop;
  VmCore.state := state;
  VmCore.snapshot := snapshot;
  VmCore.restore := restore;
  VmCore.destroy := destroy;
  VmCore.list_vms := list_vms;
  VmCore.list_snapshots := list_snapshots;
  VmCore.delete_snapshot := delete_snapshot;
  VmCore.snapshot_meta := snapshot_meta;
  VmCore.snapshot_export_dir := snapshot_export_dir;
  VmCore.snapshot_adopt := snapshot_adopt;
  VmCore.vm_meta := vm_meta;
  VmCore.exec_in_guest := exec_in_guest;
  VmCore.write_file := write_file;
  VmCore.read_file := read_file;
}.
End Mock.
Arguments t F : clear implicits.
End MockHypervisor.

(** ** Operations as steps *)

Section Runs.
Import MockHypervisor.
Context {F : Type} `{!FileSystem F, !Serde string Manifest.t}.
Variable run : GuestExecRequest.t -> F -> Process.outcome * F.
Variables temp_dir pid : string.
Abbreviation hv := (MockHypervisor.t F).
Implicit Types (h : hv) (id : VmId) (snap : SnapshotId).

(** The calls that change the hypervisor's state. *)
Inductive MockOp : Type :=
| OCreate (cfg : VmConfig.t)
| OStart (id : VmId)
| OStop (id : VmId)
| OSnapshot (id : VmId)
| ORestore (snap : SnapshotId)
| ODestroy (id : VmId)
| ODeleteSnapshot (snap : SnapshotId)
| OExport (snap : SnapshotId)
| OAdopt (dir : string)
| OExec (id : VmId) (req : GuestExecRequest.t)
| OWrite (id : VmId) (path : string) (content : bytes) (mode : Z).

Definition void {A} (c : SM hv VmError A) : SM hv VmError unit := _ ← c; mret tt.

Definition exec_op (o : MockOp) : SM hv VmError unit :=
  match o with
  | OCreate cfg => void (create_vm temp_dir pid cfg)
  | OStart id => start id
  | OStop id => stop id
  | OSnapshot id => void (snapshot id)
  | ORestore snap => void (restore temp_dir pid snap)
  | ODestroy id => destroy id
  | ODeleteSnapshot snap => delete_snapshot snap
  | OExport snap => void (snapshot_export_dir temp_dir snap)
  | OAdopt dir => void (snapshot_adopt dir)
  | OExec id req => void (exec_in_guest run id req)
  | OWrite id path content mode => void (write_file id path content mode)
  end.

Definition run_ops (ops : list MockOp) h : hv := foldl (fun h o => (exec_op o h).2) h ops.

Definition state_of h id : option VmState := MockVm.state <$> vms h !! id.

(** The lifecycle of the id an operation is about. *)
Inductive lifecycle : MockOp -> option VmState -> option VmState -> Prop :=
| life_same o s : lifecycle o s s
| life_created cfg : lifecycle (OCreate cfg) None (Some Created)
| life_restored snap s : lifecycle (ORestore snap) None (Some s)
| life_started id s : s = Created \/ s = Stopped -> lifecycle (OStart id) (Some s) (Some Running)
| life_stopped id : lifecycle (OStop id) (Some Running) (Some Stopped)
| life_destroyed id s : lifecycle (ODestroy id) (Some s) None.

(** The id an operation is about. *)
Definition target h (o : MockOp) : option VmId :=
  match o with
  | OCreate _ | ORestore _ => Some (next_vm h)
  | OStart id | OStop id | ODestroy id => Some id
  | _ => None
  end.

(** Ids are issued in order and both counters are ahead of every id in use. *)
Record ids_ok (bound : Z) h : Prop := {
  io_vm : 1 <= next_vm h <= bound;
  io_snap : 1 <= next_snapshot h <= bound;
  io_vms id : is_Some (vms h !! id) -> 0 < id < next_vm h;
  io_snaps snap : is_Some (snapshots h !! snap) -> 0 < snap < next_snapshot h;
}.

(** Everything but the two maps and the counters is out of the hypervisor. *)
Definition same_maps h h' : Prop :=
  vms h' = vms h /\ snapshots h' = snapshots h /\ next_vm h' = next_vm h /\
  next_snapshot h' = next_snapshot h.

Lemma same_maps_refl h : same_maps h h.
Proof. done. Qed.

Lemma same_maps_trans h1 h2 h3 : same_maps h1 h2 -> same_maps h2 h3 -> same_maps h1 h3.
Proof. unfold same_maps. intros (? & ? & ? & ?) (? & ? & ? & ?). split_and!; congruence. Qed.

(** Computations that only reach outside the hypervisor. *)
Definition external {A} (c : SM hv VmError A) : Prop := forall h, same_maps h (c h).2.

Lemma external_bind {A B} (c : SM hv VmError A) (f : A -> SM hv VmError B) :
  external c -> (forall a, external (f a)) -> external (a ← c; f a).
Proof.
  intros Hc Hf h. specialize (Hc h). unfold mbind, sm_bind.
  destruct (c h) as [[a|e] h1]; [|done]. simpl in Hc. eapply same_maps_trans; [done|apply Hf].
Qed.

Lemma external_ret {A} (a : A) : external (mret a).
Proof. done. Qed.
Lemma external_lift {A} (r : result VmError A) : external (sm_lift r).
Proof. done. Qed.
Lemma external_fail {A} e : external (sm_fail e : SM hv VmError A).
Proof. done. Qed.
Lemma external_fs {A} ctx (c : SM F string A) : external (fs_call ctx c).
Proof. intros h. unfold fs_call. by destruct (c (fs h)). Qed.
Lemma external_get_vm id : external (get_vm id).
Proof. done. Qed.
Lemma external_get_snapshot snap : external (get_snapshot snap).
Proof. done. Qed.
Lemma external_running_vm id : external (running_vm id).
Proof.
  apply external_bind; [apply external_get_vm|]. intros vm. case_bool_decide; done.
Qed.
Lemma external_manifest m dir : external (write_manifest m dir).
Proof. intros h. unfold write_manifest. by destruct (Manifest.write_to_dir m dir (fs h)). Qed.
Lemma external_run req : external (run_program run req).
Proof. intros h. unfold run_program. by destruct (run req (fs h)). Qed.

Lemma external_void {A} (c : SM hv VmError A) h r h' :
  external c -> void c h = (r, h') -> same_maps h h'.
Proof.
  intros Hc He. assert (Hx : external (void c)) by (apply external_bind; [done|by intros a h0]).
  specialize (Hx h). by rewrite He in Hx.
Qed.
End Runs.

Create HintDb external.
#[export] Hint Resolve external_bind external_ret external_lift external_fail external_fs
  external_get_vm external_get_snapshot external_running_vm external_manifest external_run : external.

Section Externals.
Import MockHypervisor.
Context {F : Type} `{!FileSystem F, !Serde string Manifest.t}.
Variable run : GuestExecRequest.t -> F -> Process.outcome * F.

Lemma external_export temp_dir snap : external (F := F) (snapshot_export_dir temp_dir snap).
Proof.
  unfold snapshot_export_dir, snapshot_meta. apply external_bind; [auto with external|].
  intros meta. apply external_bind; [auto with external|]. intros _. auto with external.
Qed.

Lemma external_exec id req : external (F := F) (exec_in_guest run id req).
Proof.
  unfold exec_in_guest.
  apply external_bind; [auto with external|intros _].
  apply external_bind; [auto with external|intros out].
  apply external_bind; [auto with external|intros w].
  apply external_bind; [auto with external|intros output].
  apply external_bind; [|auto with external].
  destruct (GuestExecRequest.timeout_ms req); [case_if|]; auto with external.
Qed.

Lemma external_write id path content mode : external (F := F) (write_file id path content mode).
Proof.
  unfold write_file.
  apply external_bind; [auto with external|intros vm].
  apply external_bind; [auto with external|intros p].
  apply external_bind; [destruct (parent p); auto with external|intros _].
  apply external_bind; [auto with external|intros _]. auto with external.
Qed.
End Externals.
#[export] Hint Resolve external_export external_exec external_write : external.

Section Lifecycle.
Import MockHypervisor.
Context {F : Type} `{!FileSystem F, !Serde string Manifest.t}.
Variable run : GuestExecRequest.t -> F -> Process.outcome * F.
Variables temp_dir pid : string.
Abbreviation hv := (MockHypervisor.t F).
Abbreviation exec := (exec_op run temp_dir pid).
Implicit Types (h : hv) (id : VmId) (snap : SnapshotId).

(** What one operation does to the ids and the two maps. *)
Record step_ok (b : Z) (o : MockOp) h (r : result VmError unit) h' : Prop := {
  so_ids : ids_ok (b + 1) h';
  so_mono : next_vm h <= next_vm h';
  so_err e : r = Err e -> vms h' = vms h /\ snapshots h' = snapshots h;
  so_frame id : target h o <> Some id -> vms h' !! id = vms h !! id;
  so_target id : target h o = Some id -> lifecycle o (state_of h id) (state_of h' id);
  so_snaps snap s : snapshots h !! snap = Some s -> o <> ODeleteSnapshot snap ->
    snapshots h' !! snap = Some s;
}.

Lemma ids_ok_weaken b b' h : ids_ok b h -> b <= b' -> ids_ok b' h.
Proof. intros [] ?. split; auto; lia. Qed.

Lemma step_same b o h r h' : ids_ok b h -> same_maps h h' -> step_ok b o h r h'.
Proof.
  intros Hok (Hv & Hs & Hn & Hm). assert (ids_ok b h').
  { destruct Hok. split; rewrite ?Hv, ?Hs, ?Hn, ?Hm; auto. }
  split; rewrite ?Hv, ?Hs, ?Hn; try done.
  - eapply ids_ok_weaken; [done|lia].
  - intros id _. unfold state_of. rewrite Hv. constructor.
Qed.

(** A VM appearing under the next id. *)
Lemma step_birth b o h vm r :
  ids_ok b h -> b + 1 < 2 ^ 64 -> target h o = Some (next_vm h) ->
  lifecycle o None (Some (MockVm.state vm)) -> is_ok r = true ->
  step_ok b o h r (mk (<[next_vm h := vm]> (vms h)) (snapshots h) (wrap64 (next_vm h + 1))
                     (next_snapshot h) (fs h)).
Proof.
  intros [Hvm Hsn Hvms Hsnaps] Hb Ht Hl Hr. rewrite wrap64_small by ulia. split; simpl.
  - split; simpl; try lia.
    + intros id. destruct (decide (id = next_vm h)) as [->|]; [lia|].
      rewrite lookup_insert_ne by done. intros ?%Hvms. lia.
    + done.
  - lia.
  - by destruct r.
  - intros id. rewrite Ht. intros Hne. by rewrite lookup_insert_ne by congruence.
  - intros id. rewrite Ht. intros [= <-]. unfold state_of. simpl. rewrite lookup_insert_eq.
    destruct (vms h !! next_vm h) eqn:Hold; [|done].
    assert (0 < next_vm h < next_vm h) by eauto. lia.
  - done.
Qed.

(** A snapshot appearing under the next snapshot id. *)
Lemma step_snapshot b o h s r :
  ids_ok b h -> b + 1 < 2 ^ 64 -> target h o = None -> is_ok r = true ->
  step_ok b o h r (mk (vms h) (<[next_snapshot h := s]> (snapshots h)) (next_vm h)
                     (wrap64 (next_snapshot h + 1)) (fs h)).
Proof.
  intros [Hvm Hsn Hvms Hsnaps] Hb Ht Hr. rewrite wrap64_small by ulia. split; simpl.
  - split; simpl; try lia.
    + done.
    + intros snap. destruct (decide (snap = next_snapshot h)) as [->|]; [lia|].
      rewrite lookup_insert_ne by done. intros ?%Hsnaps. lia.
  - lia.
  - by destruct r.
  - done.
  - intros id. by rewrite Ht.
  - intros snap s' Hs _. rewrite lookup_insert_ne; [done|].
    intros <-. assert (0 < next_snapshot h < next_snapshot h) by eauto. lia.
Qed.

(** A change to the entry of one known VM. *)
Lemma step_change b o h r id vm (m : gmap Z MockVm.t) f :
  ids_ok b h -> vms h !! id = Some vm -> target h o = Some id -> is_ok r = true ->
  (forall id', id' <> id -> m !! id' = vms h !! id') ->
  lifecycle o (Some (MockVm.state vm)) (MockVm.state <$> m !! id) ->
  step_ok b o h r (mk m (snapshots h) (next_vm h) (next_snapshot h) f).
Proof.
  intros [Hvm Hsn Hvms Hsnaps] Hid Ht Hr Hm Hl. split; simpl.
  - split; simpl; try lia; [|done]. intros id'. destruct (decide (id' = id)) as [->|].
    + intros _. apply Hvms. by rewrite Hid.
    + rewrite Hm by done. apply Hvms.
  - lia.
  - by destruct r.
  - intros id'. rewrite Ht. intros Hne. apply Hm. congruence.
  - intros id'. rewrite Ht. intros [= <-]. unfold state_of. rewrite Hid. done.
  - done.
Qed.

Lemma op_step b o h r h' :
  ids_ok b h -> b + 1 < 2 ^ 64 -> exec o h = (r, h') -> step_ok b o h r h'.
Proof.
  intros Hok Hb. destruct o as [cfg|id|id|id|snap|id|snap|snap|dir|id req|id path content mode]; simpl.
  - unfold void, create_vm, mbind, sm_bind, sm_gets, sm_lift.
    set (cfg' := match VmConfig.snapshot_dir cfg with None => _ | _ => _ end).
    destruct cfg' as [c|e]; intros [= <- <-]; [|by apply step_same].
    unfold set_vms. simpl. apply step_birth; try done. constructor.
  - unfold start, mbind, sm_bind, get_vm. destruct (vms h !! id) as [vm|] eqn:Hid; simpl.
    2: { intros [= <- <-]. by apply step_same. }
    destruct (MockVm.state vm) eqn:Hs; intros [= <- <-]; try by apply step_same.
    all: eapply step_change; try done; [by intros; rewrite lookup_insert_ne|].
    all: rewrite lookup_insert_eq, Hs; constructor; auto.
  - unfold stop, mbind, sm_bind, get_vm. destruct (vms h !! id) as [vm|] eqn:Hid; simpl.
    2: { intros [= <- <-]. by apply step_same. }
    destruct (MockVm.state vm) eqn:Hs; intros [= <- <-]; try by apply step_same.
    eapply step_change; try done; [by intros; rewrite lookup_insert_ne|].
    rewrite lookup_insert_eq, Hs. constructor.
  - unfold void, snapshot, mbind, sm_bind, get_vm. destruct (vms h !! id) as [vm|]; simpl;
      intros [= <- <-]; [|by apply step_same]. unfold set_snapshots. simpl. by apply step_snapshot.
  - unfold void, restore, mbind, sm_bind, get_snapshot. destruct (snapshots h !! snap) as [s|]; simpl;
      intros [= <- <-]; [|by apply step_same].
    unfold set_vms. simpl. apply step_birth; try done. constructor.
  - unfold destroy, mbind, sm_bind, get_vm. destruct (vms h !! id) as [vm|] eqn:Hid; simpl;
      intros [= <- <-]; [|by apply step_same].
    unfold set_fs, set_vms. simpl. eapply step_change; try done; [by intros; rewrite lookup_delete_ne|].
    rewrite lookup_delete_eq. constructor.
  - unfold delete_snapshot, mbind, sm_bind, get_snapshot.
    destruct (snapshots h !! snap) as [s|] eqn:Hs; simpl; intros [= <- <-]; [|by apply step_same].
    destruct Hok as [Hvm Hsn Hvms Hsnaps]. split; simpl; try done; try lia.
    + split; simpl; try lia; [done|]. intros snap' [s' [_ ?]%lookup_delete_Some]. eauto.
    + intros snap' s' Hs' Hne. by rewrite lookup_delete_ne by congruence.
  - intros He. apply step_same; [done|]. by eapply external_void, He; eauto with external.
  - unfold void, snapshot_adopt, mbind, sm_bind, sm_gets, sm_lift.
    destruct (Manifest.read_from_dir (fs h) dir) as [man|e]; simpl; intros [= <- <-];
      [unfold set_snapshots; simpl; by apply step_snapshot|by apply step_same].
  - intros He. apply step_same; [done|]. by eapply external_void, He; eauto with external.
  - intros He. apply step_same; [done|]. by eapply external_void, He; eauto with external.
Qed.
End Lifecycle.

Section Reachable.
Import MockHypervisor.
Context {F : Type} `{!FileSystem F, !Serde string Manifest.t}.
Variable run : GuestExecRequest.t -> F -> Process.outcome * F.
Variables temp_dir pid : string.
Implicit Types (h : MockHypervisor.t F) (ops : list MockOp).

Lemma ids_ok_new (f : F) : ids_ok 1 (new f).
Proof. split; simpl; try lia; intros ? [? ?]; done. Qed.

Lemma run_ids b ops h :
  ids_ok b h -> b + zlen ops < 2 ^ 64 -> ids_ok (b + zlen ops) (run_ops run temp_dir pid ops h).
Proof.
  intros Hok. unfold run_ops. induction ops as [|o ops IH] using rev_ind; intros Hb.
  - replace (b + zlen []) with b by (unfold zlen; simpl; lia). done.
  - unfold zlen in *. rewrite length_app, Nat2Z.inj_add in *. rewrite foldl_app. simpl in *.
    destruct (exec_op run temp_dir pid o _) as [r h'] eqn:He.
    apply (op_step run temp_dir pid (b + Z.of_nat (length ops))) in He as [Hi _ _ _ _ _];
      [|apply IH; lia|lia].
    simpl. by rewrite Z.add_assoc.
Qed.

Lemma run_keeps_snapshot b ops h snap s :
  ids_ok b h -> b + zlen ops < 2 ^ 64 -> snapshots h !! snap = Some s ->
  ODeleteSnapshot snap ∉ ops ->
  snapshots (run_ops run temp_dir pid ops h) !! snap = Some s.
Proof.
  intros Hok Hb Hs. unfold run_ops. revert Hb. induction ops as [|o ops IH] using rev_ind; intros Hb Hd; [done|].
  pose proof (run_ids b ops h Hok) as Hids. unfold zlen in *.
  rewrite length_app, Nat2Z.inj_add in Hb. rewrite foldl_app. simpl in *.
  apply not_elem_of_app in Hd as [Hd Ho]. rewrite list_elem_of_singleton in Ho.
  destruct (exec_op run temp_dir pid o _) as [r h'] eqn:He.
  apply (op_step run temp_dir pid (b + Z.of_nat (length ops))) in He as [_ _ _ _ _ Hk];
    [|apply Hids; lia|lia].
  simpl. apply Hk; [apply IH; [lia|done]|congruence].
Qed.

Lemma push_components_spec g root cs :
  match push_components g root cs with
  | Ok q => Forall (fun c => c <> ParentDir /\ c <> CurDir) cs /\
      q = foldl push root (omap (fun c => match c with Normal p => Some p | _ => None end) cs)
  | Err e => (ParentDir ∈ cs \/ CurDir ∈ cs) /\ exists m, e = Backend m
  end.
Proof.
  revert root. induction cs as [|c cs IH]; intros root; simpl; [split; [constructor|done]|].
  destruct c as [| | |part].
  - specialize (IH root). destruct (push_components g root cs).
    + destruct IH. split; [by constructor|done].
    + rewrite !elem_of_cons. destruct IH as [[?|?] ?]; auto.
  - split; [right; left|by eexists].
  - split; [left; left|by eexists].
  - specialize (IH (push root part)). destruct (push_components g (push root part) cs).
    + destruct IH. split; [by constructor|done].
    + rewrite !elem_of_cons. destruct IH as [[?|?] ?]; auto.
Qed.

Lemma absolute_no_curdir g : is_absolute g = true -> CurDir ∉ components g.
Proof.
  intros Hg. rewrite components_absolute by done.
  intros [?|(p & _ & Hc)%list_elem_of_omap]%elem_of_cons; [done|].
  unfold part_component in Hc. repeat case_match; done.
Qed.

(** Guest paths resolve to files below the guest root, or are refused. *)
Lemma resolve_guest_path_spec root g :
  root <> "" -> ends_with_slash root = false ->
  match resolve_guest_path root g with
  | Ok q => is_absolute g = true /\ (ParentDir ∉ components g) /\
      exists parts, Forall plain parts /\ q = join_parts root parts
  | Err e => (is_absolute g = false \/ ParentDir ∈ components g) /\ exists m, e = Backend m
  end.
Proof.
  intros Hr Hs. unfold resolve_guest_path. destruct (is_absolute g) eqn:Hg; simpl.
  - pose proof (push_components_spec g root (components g)) as Hp.
    destruct (push_components g root (components g)) as [q|e].
    + destruct Hp as [Hf ->]. rewrite Forall_forall in Hf. split_and!; [done|by intros [? _]%Hf|].
      eexists. split; [|apply push_plain_parts; [done..|]];
        (apply Forall_forall; intros part (c & Hc & Hpart)%list_elem_of_omap;
         destruct c; simplify_eq; by eapply components_plain).
    + destruct Hp as [[Hp|Hp] ?]; [auto|]. by apply absolute_no_curdir in Hp.
  - split; [by left|by eexists].
Qed.

(** The file-system part of [write_file]. *)
Lemma write_file_stores `{!FileSystemLaws F} q content mode h n h' :
  (_ ← match parent q with
       | Some dir => fs_call ("create parent " +:+ dir +:+ ": ") (fs_create_dir_all dir)
       | None => mret tt
       end;
   _ ← fs_call ("write_file " +:+ q +:+ ": ") (fs_write q content);
   _ ← fs_call ("chmod " +:+ q +:+ ": ") (fs_set_permissions q mode);
   mret (zlen content)) h = (Ok n, h') ->
  n = zlen content /\ vms h' = vms h /\
  (owner_readable mode = true -> fs_read (fs h') q = Ok content).
Proof.
  intros (u & h1 & H1 & (u2 & h2 & H2 & (u3 & h3 & H3 & [= <- <-])%sm_bind_inv)%sm_bind_inv)%sm_bind_inv.
  assert (Hv1 : vms h1 = vms h).
  { destruct (parent q); [|by injection H1 as _ <-]. pose proof (external_fs ("create parent " +:+ s +:+ ": ") (fs_create_dir_all s) h) as Hx.
    rewrite H1 in Hx. apply Hx. }
  unfold fs_call in H2, H3.
  destruct (fs_write q content (fs h1)) as [[[]|] f2] eqn:Hw; [|done]. injection H2 as _ <-.
  destruct (fs_set_permissions q mode _) as [[[]|] f3] eqn:Hc; [|done]. injection H3 as _ <-. simpl in *.
  split_and!; [done|done|]. intros Hm. rewrite (fs_read_chmod _ _ _ _ Hc Hm).
  by eapply fs_read_write.
Qed.
End Reachable.

(** ** Properties *)

(** The mock hypervisor follows the VM lifecycle. After any sequence of
    operations, an operation that fails changes no VM and no snapshot; one that
    succeeds touches only the id it is about and moves it along the state
    machine (created or restored from nothing, started from [Created] or
    [Stopped], stopped from [Running], destroyed); [start] and [stop] report
    exactly the transition that is not allowed; and an id that was issued and is
    gone never comes back. *)
Theorem mock_lifecycle {F : Type} `{!FileSystem F, !Serde string Manifest.t}
  (run : GuestExecRequest.t -> F -> Process.outcome * F) temp_dir pid (f : F) ops o r h' :
  zlen ops + 2 < 2 ^ 64 ->
  let h := run_ops run temp_dir pid ops (MockHypervisor.new f) in
  exec_op run temp_dir pid o h = (r, h') ->
  (forall e, r = Err e ->
     MockHypervisor.vms h' = MockHypervisor.vms h /\
     MockHypervisor.snapshots h' = MockHypervisor.snapshots h) /\
  (forall id, target h o <> Some id ->
     MockHypervisor.vms h' !! id = MockHypervisor.vms h !! id) /\
  (forall id, target h o = Some id -> lifecycle o (state_of h id) (state_of h' id)) /\
  (forall id, (MockHypervisor.start id h).1 =
     match state_of h id with
     | None => Err (UnknownVm id)
     | Some Running => Err (InvalidTransition id Running Running)
     | Some _ => Ok tt
     end) /\
  (forall id, (MockHypervisor.stop id h).1 =
     match state_of h id with
     | None => Err (UnknownVm id)
     | Some Running => Ok tt
     | Some s => Err (InvalidTransition id s Stopped)
     end) /\
  (forall id, 0 < id < MockHypervisor.next_vm h -> state_of h id = None -> state_of h' id = None).
Proof.
  intros Hb h He. pose proof (run_ids run temp_dir pid 1 ops _ (ids_ok_new f) ltac:(lia)) as Hok.
  fold h in Hok. apply (op_step run temp_dir pid (1 + zlen ops)) in He as [Hi Hn Herr Hfr Ht Hs]; [|done|lia].
  split_and!; [done..| | |].
  - intros id. unfold MockHypervisor.start, mbind, sm_bind, MockHypervisor.get_vm, state_of.
    destruct (MockHypervisor.vms h !! id) as [vm|]; [|done]. simpl. by destruct (MockVm.state vm).
  - intros id. unfold MockHypervisor.stop, mbind, sm_bind, MockHypervisor.get_vm, state_of.
    destruct (MockHypervisor.vms h !! id) as [vm|]; [|done]. simpl. by destruct (MockVm.state vm).
  - intros id Hid Hnone. destruct (decide (target h o = Some id)) as [Htar|Htar].
    + specialize (Ht id Htar). rewrite Hnone in Ht. inversion Ht; subst; try done;
        simpl in Htar; injection Htar as <-; lia.
    + unfold state_of in *. by rewrite Hfr.
Qed.

Definition no_run (req : GuestExecRequest.t) (f : FlatFs.t) : Process.outcome * FlatFs.t :=
  (Err "no programs", f).
#[local] Instance no_serde : Serde string Manifest.t :=
  {| to_json _ := (Err "no json", []); from_json _ := Err "no json" |}.

Lemma mock_lifecycle_witness :
  let h := run_ops no_run "/tmp" "7" [OCreate VmConfig.default; OStart 1; ODestroy 1]
             (MockHypervisor.new (∅ : FlatFs.t)) in
  state_of h 1 = None /\ state_of (exec_op no_run "/tmp" "7" (OCreate VmConfig.default) h).2 1 = None.
Proof.
  split; [reflexivity|].
  destruct (exec_op no_run "/tmp" "7" (OCreate VmConfig.default) _) as [r h'] eqn:He.
  refine (proj2 (proj2 (proj2 (proj2 (proj2 (mock_lifecycle no_run "/tmp" "7" ∅ _ _ r h' _ He))))) 1 _ _).
  - vm_compute; reflexivity.
  - vm_compute; split; reflexivity.
  - reflexivity.
Defined.

(** A snapshot is a point-in-time copy that nothing but its deletion can
    disturb. Whatever happens after it was taken (the source VM stopped,
    destroyed, other VMs forked, files written), [restore] yields a VM under a
    fresh id with the configuration and state the source had when the snapshot
    was taken, leaves every other VM untouched, and keeps the snapshot for
    further restores. *)
Theorem mock_snapshot_isolation {F : Type} `{!FileSystem F, !Serde string Manifest.t}
  (run : GuestExecRequest.t -> F -> Process.outcome * F) temp_dir pid (f : F) before id vm after :
  zlen before + zlen after + 3 < 2 ^ 64 ->
  let h := run_ops run temp_dir pid before (MockHypervisor.new f) in
  MockHypervisor.vms h !! id = Some vm ->
  exists snap h1, MockHypervisor.snapshot id h = (Ok snap, h1) /\
  (ODeleteSnapshot snap ∉ after ->
   let h2 := run_ops run temp_dir pid after h1 in
   exists new_id h3,
     MockHypervisor.restore temp_dir pid snap h2 = (Ok (VmHandle.mk new_id (MockVm.state vm)), h3) /\
     MockHypervisor.vms h2 !! new_id = None /\
     MockHypervisor.vms h3 =
       <[new_id := MockVm.mk (MockVm.config vm) (MockVm.state vm)
                     (MockHypervisor.guest_root_dir temp_dir pid new_id)]> (MockHypervisor.vms h2) /\
     MockHypervisor.snapshots h3 = MockHypervisor.snapshots h2).
Proof.
  intros Hb h Hid. unfold zlen in Hb.
  pose proof (run_ids run temp_dir pid 1 before _ (ids_ok_new f) ltac:(unfold zlen; lia)) as Hok.
  fold h in Hok. destruct (exec_op run temp_dir pid (OSnapshot id) h) as [r h1] eqn:He.
  pose proof (op_step run temp_dir pid (1 + zlen before) _ _ _ _ Hok ltac:(unfold zlen; lia) He) as [Hok1 _ _ _ _ _].
  revert He. simpl. unfold void, MockHypervisor.snapshot, mbind, sm_bind, MockHypervisor.get_vm.
  rewrite Hid. simpl. intros [= _ <-]. eexists _, _. split; [done|]. intros Hd.
  set (h2 := run_ops run temp_dir pid after _).
  pose proof (run_ids run temp_dir pid _ after _ Hok1 ltac:(unfold zlen; lia)) as Hok2. fold h2 in Hok2.
  assert (Hs : MockHypervisor.snapshots h2 !! MockHypervisor.next_snapshot h =
                Some (MockSnapshot.mk (MockVm.config vm) (MockVm.state vm))).
  { eapply run_keeps_snapshot; [exact Hok1|unfold zlen; lia| |done]. by simplify_map_eq. }
  unfold MockHypervisor.restore, mbind, sm_bind, MockHypervisor.get_snapshot. rewrite Hs. simpl.
  eexists _, _. split_and!; [done| |done..].
  apply eq_None_not_Some. intros Hsome%(io_vms _ _ Hok2). lia.
Qed.

Lemma mock_snapshot_isolation_witness :
  exists snap h1, MockHypervisor.snapshot 1
    (run_ops no_run "/tmp" "7" [OCreate VmConfig.default; OStart 1] (MockHypervisor.new (∅ : FlatFs.t)))
    = (Ok snap, h1) /\
  exists new_id h3, MockHypervisor.restore "/tmp" "7" snap (run_ops no_run "/tmp" "7" [ODestroy 1] h1)
    = (Ok (VmHandle.mk new_id Running), h3).
Proof.
  destruct (mock_snapshot_isolation no_run "/tmp" "7" (∅ : FlatFs.t)
    [OCreate VmConfig.default; OStart 1] 1
    (MockVm.mk VmConfig.default Running (MockHypervisor.guest_root_dir "/tmp" "7" 1)) [ODestroy 1])
    as (snap & h1 & Hs & Hr).
  - vm_compute. reflexivity.
  - vm_compute. reflexivity.
  - exists snap, h1. split; [exact Hs|].
    destruct Hr as (new_id & h3 & Hr & _); [|exists new_id, h3; exact Hr].
    intros H. apply list_elem_of_singleton in H. discriminate H.
Defined.

(** Guest file operations stay inside the VM's root directory and need a
    running VM. On a VM that is not running they report the invalid transition
    and change nothing. On a running one a path that is not absolute or climbs
    with [..] is refused before the file system is touched; every other path
    names a file below the guest root, one plain name per level; and what
    [write_file] stored is what [read_file] of the same path returns, with the
    number of bytes written reported. *)
Theorem mock_guest_files {F : Type} `{!FileSystem F, !FileSystemLaws F, !Serde string Manifest.t}
  (h : MockHypervisor.t F) id vm path content mode :
  MockHypervisor.vms h !! id = Some vm ->
  MockVm.guest_root vm <> "" -> ends_with_slash (MockVm.guest_root vm) = false ->
  let refused := is_absolute path = false \/ ParentDir ∈ components path in
  (MockVm.state vm <> Running ->
     MockHypervisor.write_file id path content mode h =
       (Err (InvalidTransition id (MockVm.state vm) Running), h) /\
     MockHypervisor.read_file id path h =
       (Err (InvalidTransition id (MockVm.state vm) Running), h)) /\
  (MockVm.state vm = Running -> refused ->
     exists e, MockHypervisor.write_file id path content mode h = (Err (Backend e), h) /\
       MockHypervisor.read_file id path h = (Err (Backend e), h)) /\
  (~ refused -> exists parts, Forall plain parts /\
     MockHypervisor.resolve_guest_path (MockVm.guest_root vm) path =
       Ok (join_parts (MockVm.guest_root vm) parts)) /\
  (forall n h', MockHypervisor.write_file id path content mode h = (Ok n, h') ->
     n = zlen content /\
     (owner_readable mode = true -> MockHypervisor.read_file id path h' = (Ok content, h'))).
Proof.
  intros Hid Hroot Hsl refused.
  pose proof (resolve_guest_path_spec (MockVm.guest_root vm) path Hroot Hsl) as Hres.
  assert (Hrun : MockHypervisor.running_vm id h =
    if bool_decide (MockVm.state vm = Running) then (Ok vm, h)
    else (Err (InvalidTransition id (MockVm.state vm) Running), h)).
  { unfold MockHypervisor.running_vm, mbind, sm_bind, MockHypervisor.get_vm. rewrite Hid. simpl.
    by case_bool_decide. }
  unfold MockHypervisor.write_file, MockHypervisor.read_file. split_and!.
  - intros Hs. rewrite bool_decide_false in Hrun by done. by rewrite !(sm_bind_err _ _ _ _ _ Hrun).
  - intros Hs Hr. rewrite bool_decide_true in Hrun by done. rewrite !(sm_bind_ok _ _ _ _ _ Hrun).
    destruct (MockHypervisor.resolve_guest_path _ path) as [q|e].
    { exfalso. destruct Hres as (Ha & Hp & _), Hr; [congruence|done]. }
    destruct Hres as [_ [m ->]]. by exists m.
  - intros Hr. destruct (MockHypervisor.resolve_guest_path _ path) as [q|e].
    + destruct Hres as (_ & _ & parts & ? & ->). by exists parts.
    + by destruct Hres.
  - intros n h' Hw. apply sm_bind_inv in Hw as (vm' & h0 & Hvm & Hw). rewrite Hrun in Hvm.
    case_bool_decide as Hs; [|done]. injection Hvm as <- <-.
    destruct (MockHypervisor.resolve_guest_path _ path) as [q|e] eqn:Hq; [|done].
    apply sm_bind_inv in Hw as (q' & h0 & [= <- <-] & Hw).
    apply write_file_stores in Hw as (-> & Hv & Hread). split; [done|]. intros Hm.
    assert (Hrun' : MockHypervisor.running_vm id h' = (Ok vm, h')).
    { unfold MockHypervisor.running_vm, mbind, sm_bind, MockHypervisor.get_vm. rewrite Hv, Hid. simpl.
      by rewrite bool_decide_true. }
    rewrite (sm_bind_ok _ _ _ _ _ Hrun'), Hq.
    unfold mbind, sm_bind, sm_lift, MockHypervisor.fs_call. rewrite Hread by done. simpl.
    by destruct h'.
Qed.

Lemma mock_guest_files_witness :
  let h := run_ops no_run "/tmp" "7" [OCreate VmConfig.default; OStart 1]
             (MockHypervisor.new (∅ : FlatFs.t)) in
  exists h', MockHypervisor.write_file 1 "/etc/motd" [Byte.x68; Byte.x69] 420 h = (Ok 2, h') /\
    MockHypervisor.read_file 1 "/etc/motd" h' = (Ok [Byte.x68; Byte.x69], h').
Proof.
  intros h. destruct (MockHypervisor.write_file 1 "/etc/motd" [Byte.x68; Byte.x69] 420 h) as [r h'] eqn:Hw.
  assert (r = Ok 2) as -> by (apply (f_equal fst) in Hw; vm_compute in Hw; congruence).
  exists h'. split; [reflexivity|].
  refine (proj2 (proj2 (proj2 (proj2 (mock_guest_files h 1
    (MockVm.mk VmConfig.default Running (MockHypervisor.guest_root_dir "/tmp" "7" 1))
    "/etc/motd" [Byte.x68; Byte.x69] 420 _ _ _))) 2 h' Hw) _).
  - vm_compute. reflexivity.
  - vm_compute. discriminate.
  - vm_compute. reflexivity.
  - reflexivity.
Defined.
