(* ===== verification/Ipc.v ===== *)
(** * The worker protocol: vmm-ipc framing and the vmm-child server

    Models [crates/vmm-ipc/src/framing.rs] (length-prefixed JSON frames), the
    messages of [crates/vmm-ipc/src/lib.rs], and the request loop of
    [crates/nanovm-vmm-child/src/lib.rs] ([serve], [dispatch]) over any
    [Hypervisor]. The transport is a byte stream in each direction; JSON is the
    [Serde] interface. Every iteration of [serve] that goes on has read at least
    the four bytes of a length prefix, so the number of bytes the peer sends
    bounds the loop. *)

From Stdlib Require Import Ascii String.
From stdpp Require Import strings.
From S2P Require Import Prelude Io Fs VmCore VmMock.

Definition DEFAULT_MAX_FRAME_BYTES : Z := 4 * 1024 * 1024.

(** ** Messages *)

Inductive ErrorCode : Type :=
| CodeUnknownVm | CodeUnknownSnapshot | CodeInvalidTransition
| CodeBackend | CodeUnsupported | CodeBadRequest.

Inductive Request : Type :=
| Ping
| CreateVm (config : VmConfig.t)
| Start (id : VmId)
| Stop (id : VmId)
| Snapshot (id : VmId)
| Restore (id : SnapshotId)
| Destroy (id : VmId)
| State (id : VmId)
| ReqVmMeta (id : VmId)
| ReqSnapshotMeta (id : SnapshotId)
| DeleteSnapshot (id : SnapshotId)
| ListSnapshots
| ExecInGuest (id : VmId) (req : GuestExecRequest.t)
| ReadFile (id : VmId) (path : string)
| WriteFile (id : VmId) (path : string) (content : bytes) (mode : Z)
| Shutdown
| SnapshotExportDir (id : SnapshotId)
| SnapshotAdopt (dir : string).

Inductive Response : Type :=
| Pong
| Empty
| RespVmHandle (handle : VmHandle.t)
| RespState (state : VmState)
| RespVmMeta (meta : VmMeta.t)
| RespSnapshot (id : SnapshotId)
| RespSnapshotMeta (meta : SnapshotMeta.t)
| SnapshotIds (ids : list SnapshotId)
| ExecResult (res : GuestExecResult.t)
| RespBytes (content : bytes)
| Written (n : Z)
| OptPath (path : option string)
| Error (code : ErrorCode) (message : string).

#[global] Instance ErrorCode_eq_dec : EqDecision ErrorCode.
Proof. solve_decision. Defined.
#[global] Instance Request_eq_dec : EqDecision Request.
Proof. solve_decision. Defined.
#[global] Instance Response_eq_dec : EqDecision Response.
Proof. solve_decision. Defined.

Definition is_error (r : Response) : bool := match r with Error _ _ => true | _ => false end.

(** [impl From<&VmError> for Response] *)
Definition error_code (e : VmError) : ErrorCode :=
  match e with
  | UnknownVm _ => CodeUnknownVm
  | UnknownSnapshot _ => CodeUnknownSnapshot
  | InvalidTransition _ _ _ => CodeInvalidTransition
  | Unsupported _ => CodeUnsupported
  | Backend _ => CodeBackend
  end.

Definition response_of_error (e : VmError) : Response := Error (error_code e) (display_vm_error e).

(** ** Framing *)

Inductive FrameError (JE : Type) : Type :=
| FrameIo (e : IoErrorKind)
| FrameTooLarge (announced cap : Z)
| BadJson (e : JE).
Arguments FrameIo {JE} e.
Arguments FrameTooLarge {JE} announced cap.
Arguments BadJson {JE} e.

(** [AsyncWrite] and [AsyncRead]: the two directions of a transport. *)
Class AsyncWrite (W : Type) := {
  write_all : bytes -> SM W IoErrorKind unit;
  flush : SM W IoErrorKind unit;
}.
Class AsyncRead (R : Type) := { read_exact : nat -> SM R IoErrorKind bytes }.

#[global] Instance writer_async : AsyncWrite Writer.t := {| write_all := Writer.write_all; flush := Writer.flush |}.
#[global] Instance reader_async : AsyncRead Reader.t := {| read_exact := Reader.read_exact |}.

(** [?] on an I/O result. *)
Definition io_call {JE S A} (c : SM S IoErrorKind A) : SM S (FrameError JE) A :=
  fun s => let (r, s) := c s in (map_err FrameIo r, s).

Section Framing.
Context {JE T : Type} `{!Serde JE T} {W : Type} `{!AsyncWrite W} {R : Type} `{!AsyncRead R}.

Definition write_frame (value : T) : SM W (FrameError JE) unit :=
  payload ← sm_lift (map_err BadJson (to_vec value));
  len ← sm_lift (if zlen payload <? 2 ^ 32 then Ok (zlen payload)
                 else Err (FrameTooLarge (zlen payload) (2 ^ 32 - 1)));
  _ ← io_call (write_all (to_be 4 len));
  _ ← io_call (write_all payload);
  io_call flush.

Definition read_frame_with_cap (cap : Z) : SM R (FrameError JE) T :=
  len_buf ← io_call (read_exact 4);
  let announced := from_be len_buf in
  if cap <? announced then sm_fail (FrameTooLarge announced cap)
  else
    payload ← io_call (read_exact (Z.to_nat announced));
    sm_lift (map_err BadJson (from_json payload)).

Definition read_frame : SM R (FrameError JE) T := read_frame_with_cap DEFAULT_MAX_FRAME_BYTES.
End Framing.

(** ** The worker *)

Section Worker.
Context {H : Type} `{!Hypervisor H} {JE : Type} `{!Serde JE Request, !Serde JE Response}.

(** [match hv.op(..) { Ok(v) => f(v), Err(e) => (&e).into() }] *)
Definition respond {A} (f : A -> Response) (c : SM H VmError A) (hv : H) : Response * H :=
  match c hv with
  | (Ok a, hv) => (f a, hv)
  | (Err e, hv) => (response_of_error e, hv)
  end.

Definition dispatch (req : Request) (hv : H) : Response * H :=
  match req with
  | Ping => (Pong, hv)
  | Shutdown => (Empty, hv)
  | CreateVm config => respond RespVmHandle (create_vm config) hv
  | Start id => respond (fun _ => Empty) (start id) hv
  | Stop id => respond (fun _ => Empty) (stop id) hv
  | Snapshot id => respond RespSnapshot (snapshot id) hv
  | Restore id => respond RespVmHandle (restore id) hv
  | Destroy id => respond (fun _ => Empty) (destroy id) hv
  | State id => respond RespState (state id) hv
  | ReqVmMeta id => respond RespVmMeta (vm_meta id) hv
  | ReqSnapshotMeta id => respond RespSnapshotMeta (snapshot_meta id) hv
  | DeleteSnapshot id => respond (fun _ => Empty) (delete_snapshot id) hv
  | ListSnapshots => respond SnapshotIds list_snapshots hv
  | ExecInGuest id req => respond ExecResult (exec_in_guest id req) hv
  | ReadFile id path => respond RespBytes (read_file id path) hv
  | WriteFile id path content mode => respond Written (write_file id path content mode) hv
  | SnapshotExportDir id => respond OptPath (snapshot_export_dir id) hv
  | SnapshotAdopt dir => respond RespSnapshot (snapshot_adopt dir) hv
  end.

Definition is_shutdown (req : Request) : bool := match req with Shutdown => true | _ => false end.

(** The loop of [serve]; [None] is an exhausted bound. *)
Fixpoint serve_loop (n : nat) (hv : H) (r : Reader.t) (w : Writer.t)
  : option (result (FrameError JE) unit) * (H * Reader.t * Writer.t) :=
  match n with
  | O => (None, (hv, r, w))
  | S n =>
      match read_frame (T := Request) r with
      | (Ok req, r) =>
          let (resp, hv) := dispatch req hv in
          match write_frame resp w with
          | (Err e, w) => (Some (Err e), (hv, r, w))
          | (Ok _, w) =>
              if is_shutdown req then (Some (Ok tt), (hv, r, w)) else serve_loop n hv r w
          end
      | (Err (FrameIo UnexpectedEof), r) => (Some (Ok tt), (hv, r, w))
      | (Err e, r) => (Some (Err e), (hv, r, w))
      end
  end.

Definition serve (hv : H) (r : Reader.t) (w : Writer.t)
  : option (result (FrameError JE) unit) * (H * Reader.t * Writer.t) :=
  serve_loop (S (length (Reader.data r))) hv r w.
End Worker.

(** ** Frames *)

Definition frame_of (js : bytes) : bytes := to_be 4 (zlen js) ++ js.

Section Frames.
Context {JE T : Type} `{!Serde JE T}.
Implicit Types (v : T) (js : bytes).

Lemma write_frame_writes v js :
  to_json v = (Ok tt, js) -> zlen js < 2 ^ 32 -> writes (write_frame v) (frame_of js).
Proof.
  intros Hv%to_vec_ok Hl. unfold write_frame, frame_of. rewrite Hv.
  change (writes (len ← sm_lift (if zlen js <? 2 ^ 32 then Ok (zlen js)
                                 else Err (FrameTooLarge (zlen js) (2 ^ 32 - 1)));
                  _ ← io_call (JE := JE) (Writer.write_all (to_be 4 len));
                  _ ← io_call (Writer.write_all js);
                  io_call Writer.flush) (to_be 4 (zlen js) ++ js)).
  rewrite (proj2 (Z.ltb_lt _ _) Hl).
  change (writes (_ ← io_call (JE := JE) (Writer.write_all (to_be 4 (zlen js)));
                  _ ← io_call (Writer.write_all js);
                  io_call Writer.flush) (to_be 4 (zlen js) ++ js)).
  apply writes_bind; [apply writes_all|]. rewrite <- (app_nil_r js) at 2.
  apply writes_bind; [apply writes_all|]. intros w. simpl. by rewrite app_nil_r.
Qed.

Lemma write_frame_unlimited v js ws :
  to_json v = (Ok tt, js) -> zlen js < 2 ^ 32 ->
  write_frame v (Writer.mk ws None) = (Ok tt, Writer.mk (ws ++ frame_of js) None).
Proof.
  intros Hv%to_vec_ok Hl. unfold write_frame, frame_of, mbind, sm_bind, sm_lift. rewrite Hv. simpl.
  rewrite (proj2 (Z.ltb_lt _ _) Hl). unfold io_call. simpl. by rewrite app_assoc.
Qed.

Lemma read_frame_app `{!SerdeLaws JE T} cap v js rest e :
  to_json v = (Ok tt, js) -> zlen js <= cap -> zlen js < 2 ^ 32 ->
  read_frame_with_cap cap (Reader.mk (frame_of js ++ rest) e) = (Ok v, Reader.mk rest e).
Proof.
  intros Hv Hc Hl. unfold read_frame_with_cap, mbind, sm_bind, io_call, frame_of.
  cbn [read_exact reader_async].
  rewrite <- app_assoc, read_exact_app by apply to_be_length. simpl.
  rewrite from_to_be, Z.mod_small by (unfold zlen in *; lia). case_if; [lia|].
  rewrite read_exact_app by (unfold zlen; lia). simpl. unfold sm_lift.
  by rewrite (json_roundtrip _ _ Hv).
Qed.

(** A frame announcing more than the cap is refused before its payload. *)
Lemma read_frame_too_large cap prefix rest e :
  length prefix = 4%nat -> cap < from_be prefix ->
  read_frame_with_cap (T := T) cap (Reader.mk (prefix ++ rest) e) =
    (Err (FrameTooLarge (from_be prefix) cap), Reader.mk rest e).
Proof.
  intros Hl Hc. unfold read_frame_with_cap, mbind, sm_bind, io_call. cbn [read_exact reader_async].
  rewrite read_exact_app by done. simpl. by rewrite (proj2 (Z.ltb_lt _ _) Hc).
Qed.

(** Reading a frame consumes its prefix. *)
Lemma read_frame_consumes cap r v r' :
  read_frame_with_cap (T := T) cap r = (Ok v, r') ->
  (length (Reader.data r') < length (Reader.data r))%nat.
Proof.
  intros (lb & r1 & H1 & H2)%sm_bind_inv. unfold io_call in H1. cbn [read_exact reader_async] in H1.
  destruct (Reader.read_exact 4 r) as [[b|] r1'] eqn:Hr; [|done]. injection H1 as -> <-.
  apply read_exact_inv in Hr as (Hd & Hl & _). rewrite Hd, length_app.
  case_if_in H2; [done|]. apply sm_bind_inv in H2 as (p & r2 & H2 & H3).
  injection H3 as _ <-. unfold io_call in H2. cbn [read_exact reader_async] in H2.
  destruct (Reader.read_exact _ r1') as [[b'|] r2'] eqn:Hr2; [|done]. injection H2 as _ <-.
  apply read_exact_inv in Hr2 as (-> & _ & _). rewrite length_app. lia.
Qed.
End Frames.

(** ** The request loop *)

Section Serving.
Context {H : Type} `{!Hypervisor H} {JE : Type} `{!Serde JE Request, !Serde JE Response}.
Implicit Types (hv : H) (reqs : list Request).

(** The requests answered in order, up to a [Shutdown]. *)
Fixpoint answers reqs hv : list Response * H :=
  match reqs with
  | [] => ([], hv)
  | req :: reqs =>
      let (resp, hv) := dispatch req hv in
      if is_shutdown req then ([resp], hv)
      else let (rs, hv) := answers reqs hv in (resp :: rs, hv)
  end.

Definition encoded {T} `{!Serde JE T} (cap : Z) (v : T) (js : bytes) : Prop :=
  to_json v = (Ok tt, js) /\ zlen js <= cap.

Lemma serve_loop_total n hv r w :
  (length (Reader.data r) < n)%nat -> is_Some (serve_loop (JE := JE) n hv r w).1.
Proof.
  revert hv r w. induction n as [|n IH]; intros hv r w Hn; [lia|]. simpl.
  destruct (read_frame r) as [[req|e] r'] eqn:Hr.
  - apply read_frame_consumes in Hr. destruct (dispatch req hv) as [resp hv'].
    destruct (write_frame resp w) as [[]w']; [|by eexists].
    destruct (is_shutdown req); [by eexists|]. apply IH. lia.
  - destruct e as [[]| |]; by eexists.
Qed.

Lemma serve_loop_answers `{!SerdeLaws JE Request} n reqs jss rs rjs hv hv' e ws :
  Forall2 (encoded DEFAULT_MAX_FRAME_BYTES) reqs jss ->
  answers reqs hv = (rs, hv') -> Forall2 (encoded (2 ^ 32 - 1)) rs rjs ->
  (length reqs < n)%nat ->
  exists n' tail,
    serve_loop n hv (Reader.mk (concat (frame_of <$> jss)) e) (Writer.mk ws None) =
      (if bool_decide (Shutdown ∈ reqs) then (Some (Ok tt), tail) else
       serve_loop n' hv' (Reader.mk [] e) (Writer.mk (ws ++ concat (frame_of <$> rjs)) None)) /\
    tail = (hv', Reader.mk (concat (frame_of <$> drop (length rs) jss)) e,
            Writer.mk (ws ++ concat (frame_of <$> rjs)) None) /\ n' <> 0%nat.
Proof.
  intros Hreq. revert n hv rs rjs ws. induction Hreq as [|req js reqs jss [Hj Hl] Hreq IH];
    intros n hv rs rjs ws Ha Hr Hn; destruct n as [|n]; try (simpl in Hn; lia).
  - injection Ha as <- <-. inversion Hr; subst. exists (S n). eexists. split_and!; [|done|done].
    rewrite bool_decide_false by (by intros ?%elem_of_nil). simpl. by rewrite app_nil_r.
  - cbn [answers] in Ha. destruct (dispatch req hv) as [resp hv1] eqn:Hd.
    cbn [serve_loop fmap list_fmap concat]. unfold read_frame.
    rewrite (read_frame_app _ req js) by (done || unfold DEFAULT_MAX_FRAME_BYTES in *; lia).
    cbn [serve_loop]. rewrite Hd. destruct (is_shutdown req) eqn:Hs.
    + destruct req; try done. injection Ha as <- <-.
      inversion Hr as [|? js' ? ? [Hj' Hl'] Hnil]; subst. inversion Hnil; subst.
      rewrite (write_frame_unlimited _ js') by (done || lia).
      rewrite bool_decide_true by left. exists 1%nat. eexists. split_and!; [|done|done].
      cbn. by rewrite app_nil_r.
    + destruct (answers reqs hv1) as [rs' hv2] eqn:Ha'. injection Ha as <- <-.
      inversion Hr as [|? js' ? rjs' [Hj' Hl'] Hr']; subst.
      rewrite (write_frame_unlimited _ js') by (done || lia).
      destruct (IH n hv1 rs' rjs' (ws ++ frame_of js') Ha' Hr') as (n' & tl & Hl1 & Htl & Hn');
        [simpl in Hn; lia|].
      exists n', tl. rewrite Hl1, Htl. cbn [fmap list_fmap concat length drop].
      rewrite <- app_assoc. split_and!; [|done|done].
      rewrite (bool_decide_ext (Shutdown ∈ req :: reqs) (Shutdown ∈ reqs)); [done|].
      rewrite elem_of_cons. split; [|auto]. intros [<-|?]; [done|done].
Qed.
End Serving.

(** A client reading [n] responses. *)
Fixpoint read_frames {JE T} `{!Serde JE T} (n : nat) : SM Reader.t (FrameError JE) (list T) :=
  match n with
  | O => mret []
  | S n => v ← read_frame; vs ← read_frames n; mret (v :: vs)
  end.

Lemma read_frames_all {JE T} `{!Serde JE T, !SerdeLaws JE T} (vs : list T) jss rest e :
  Forall2 (encoded (JE := JE) DEFAULT_MAX_FRAME_BYTES) vs jss ->
  read_frames (length vs) (Reader.mk (concat (frame_of <$> jss) ++ rest) e) = (Ok vs, Reader.mk rest e).
Proof.
  induction 1 as [|v js vs jss [Hj Hl] _ IH]; [done|]. cbn [length read_frames fmap list_fmap concat].
  rewrite <- app_assoc. unfold mbind, sm_bind, read_frame.
  rewrite (read_frame_app _ v js) by (done || unfold DEFAULT_MAX_FRAME_BYTES in *; lia).
  unfold read_frame in IH. by rewrite IH.
Qed.

Lemma frames_length jss : (length jss <= length (concat (frame_of <$> jss)))%nat.
Proof.
  induction jss as [|js jss IH]; [done|]. cbn [fmap list_fmap concat].
  unfold frame_of at 1. rewrite !length_app, to_be_length. simpl. lia.
Qed.

(** ** Properties *)

(** C18: The worker answers every request, in order, exactly once. On a
    connection carrying a sequence of well-formed request frames and then
    closing, [serve] returns success having performed each request on the
    hypervisor and written one response frame per request, operations that fail
    being answered with an error response and not ending the loop; a [Shutdown]
    is answered and ends it with the later frames unread; and reading frames on
    the other side gives back exactly those responses. Whatever bytes arrive,
    [serve] returns; a frame announcing more than the cap ends it at once, with
    only the length prefix consumed and nothing performed. *)
Theorem worker_answers_requests {H : Type} `{!Hypervisor H} {JE : Type}
  `{!Serde JE Request, !Serde JE Response, !SerdeLaws JE Request, !SerdeLaws JE Response}
  (hv hv' : H) reqs jss rs rjs :
  Forall2 (encoded (JE := JE) DEFAULT_MAX_FRAME_BYTES) reqs jss ->
  answers reqs hv = (rs, hv') ->
  Forall2 (encoded (JE := JE) DEFAULT_MAX_FRAME_BYTES) rs rjs ->
  let unread := if bool_decide (Shutdown ∈ reqs) then drop (length rs) jss else [] in
  serve (JE := JE) hv (Reader.mk (concat (frame_of <$> jss)) UnexpectedEof) (Writer.mk [] None) =
    (Some (Ok tt), (hv', Reader.mk (concat (frame_of <$> unread)) UnexpectedEof,
                    Writer.mk (concat (frame_of <$> rjs)) None)) /\
  (forall e, read_frames (JE := JE) (length rs) (Reader.mk (concat (frame_of <$> rjs)) e) =
               (Ok rs, Reader.mk [] e)) /\
  (forall r w, is_Some (serve (JE := JE) hv r w).1) /\
  (forall prefix rest e w, length prefix = 4%nat -> DEFAULT_MAX_FRAME_BYTES < from_be prefix ->
     serve (JE := JE) hv (Reader.mk (prefix ++ rest) e) w =
       (Some (Err (FrameTooLarge (from_be prefix) DEFAULT_MAX_FRAME_BYTES)), (hv, Reader.mk rest e, w))).
Proof.
  intros Hreq Ha Hr unread. split_and!.
  - assert (Hr' : Forall2 (encoded (JE := JE) (2 ^ 32 - 1)) rs rjs).
    { eapply Forall2_impl; [exact Hr|]. intros v js [? ?]. split; [done|].
      unfold DEFAULT_MAX_FRAME_BYTES in *. lia. }
    unfold serve. destruct (serve_loop_answers (JE := JE)
      (S (length (Reader.data (Reader.mk (concat (frame_of <$> jss)) UnexpectedEof))))
      reqs jss rs rjs hv hv' UnexpectedEof [] Hreq Ha Hr') as (n' & tl & -> & -> & Hn).
    { simpl. pose proof (frames_length jss). apply Forall2_length in Hreq. lia. }
    unfold unread. case_bool_decide; [done|]. by destruct n'.
  - intros e. pose proof (read_frames_all (JE := JE) rs rjs [] e Hr) as Hf. by rewrite app_nil_r in Hf.
  - intros r w. apply serve_loop_total. lia.
  - intros prefix rest e w Hp Hc. unfold serve. cbn [serve_loop]. unfold read_frame.
    by rewrite read_frame_too_large.
Qed.

(** The hypervisor and codecs of the example. *)
#[local] Instance example_manifest : Serde string Manifest.t := no_serde.
#[local] Instance example_hv : Hypervisor (MockHypervisor.t FlatFs.t) :=
  MockHypervisor.mock_hypervisor no_run "/tmp" "7".
#[local] Instance example_requests : Serde unit Request :=
  table_serde [Ping; CreateVm VmConfig.default; Start 1; Stop 9; Shutdown].
#[local] Instance example_responses : Serde unit Response :=
  table_serde [Pong; Empty; RespVmHandle (VmHandle.mk 1 Created); response_of_error (UnknownVm 9)].
#[local] Instance example_requests_laws : SerdeLaws unit Request := table_serde_laws _.
#[local] Instance example_responses_laws : SerdeLaws unit Response := table_serde_laws _.

Definition unary (n : nat) : bytes := replicate n Byte.x61.

Lemma worker_answers_requests_witness :
  let reqs := [CreateVm VmConfig.default; Start 1; Stop 9; Shutdown; Ping] in
  exists hv', serve (JE := unit) (MockHypervisor.new (∅ : FlatFs.t))
    (Reader.mk (concat (frame_of <$> [unary 1; unary 2; unary 3; unary 4; unary 0])) UnexpectedEof)
    (Writer.mk [] None)
  = (Some (Ok tt), (hv', Reader.mk (frame_of (unary 0)) UnexpectedEof,
       Writer.mk (concat (frame_of <$> [unary 2; unary 1; unary 3; unary 1])) None)).
Proof.
  intros reqs. eexists. etransitivity; [refine (proj1 (worker_answers_requests (JE := unit)
    (MockHypervisor.new (∅ : FlatFs.t)) _ reqs [unary 1; unary 2; unary 3; unary 4; unary 0]
    _ [unary 2; unary 1; unary 3; unary 1] _ eq_refl _))|].
  - repeat (apply Forall2_cons; split; [split; [vm_compute; reflexivity|vm_compute; discriminate]|]).
    apply Forall2_nil. exact I.
  - repeat (apply Forall2_cons; split; [split; [vm_compute; reflexivity|vm_compute; discriminate]|]).
    apply Forall2_nil. exact I.
  - reflexivity.
Defined.
