(* ===== verification/Proto.v ===== *)
(** * The guest-agent protocol: frames and the host's readers

    Models [crates/proto/src/lib.rs] (messages), [crates/proto/src/frame.rs]
    (length-prefixed frames over an in-memory buffer) and the two loops of
    [crates/vm-kvm/src/lib.rs] that read the agent's answers from the vsock
    stream: the wait for a single response ([exec_over_vsock], [rpc_oneshot])
    and [KvmExecStream::next_frame].

    Bytes arrive when they arrive: an [inbox] lists what each successive
    [drain_inbound] will append, in pieces of any size. A loop whose inbox is
    used up is still polling, which is the outcome [None]. Derived [Debug] and
    [Display] renderings are parameters. *)

From Stdlib Require Import Ascii String.
From stdpp Require Import strings.
From S2P Require Import Prelude Io VmCore.

(** ** Messages *)

Definition PROTOCOL_VERSION : Z := 1.

Inductive RequestBody : Type :=
| Ping
| Exec (program : string) (args : list string) (cwd : option string)
    (env : list (string * string)) (timeout_ms : option Z)
| WriteFile (path : string) (content : bytes) (mode : Z)
| ReadFile (path : string)
| Stat (path : string)
| Signal (pid signum : Z)
| ExecStart (program : string) (args : list string) (cwd : option string)
    (env : list (string * string))
| ExecStdin (pid : Z) (data : bytes) (eof : bool)
| ExecWait (pid : Z).

Inductive StdStream : Type := StreamStdout | StreamStderr.

Inductive ResponseBody : Type :=
| Pong
| ExecResult (exit_code signal : option Z) (stdout stderr : bytes) (duration_ms : Z)
| Written (n : Z)
| FileContent (content : bytes)
| StatResult (size mode : Z) (is_dir : bool)
| SignalSent
| ExecStarted (pid : Z)
| ExecOutput (pid : Z) (stream : StdStream) (data : bytes)
| ExecExited (pid : Z) (exit_code signal : option Z) (duration_ms : Z)
| StdinAccepted (n : Z).

Inductive ErrorCode : Type :=
| VersionMismatch | BadRequest | NotFound | Forbidden | IoFailure | Timeout | Internal
| NoSuchProcess.

Module RpcError.
Record t : Type := mk { code : ErrorCode; message : string }.
End RpcError.

Module Request.
Record t : Type := mk { version : Z; id : Z; body : RequestBody }.
End Request.

Module Response.
Record t : Type := mk { version : Z; id : Z; outcome : result RpcError.t ResponseBody }.
End Response.

#[global] Instance StdStream_eq_dec : EqDecision StdStream.
Proof. solve_decision. Defined.
#[global] Instance ResponseBody_eq_dec : EqDecision ResponseBody.
Proof. solve_decision. Defined.
#[global] Instance ErrorCode_eq_dec : EqDecision ErrorCode.
Proof. solve_decision. Defined.
#[global] Instance RpcError_eq_dec : EqDecision RpcError.t.
Proof. solve_decision. Defined.
#[global] Instance Response_eq_dec : EqDecision Response.t.
Proof. solve_decision. Defined.

(** ** Frames *)

Definition HEADER_BYTES : Z := 4.
Definition MAX_FRAME_BYTES : Z := 16 * 1024 * 1024.

Inductive FrameError (JE : Type) : Type :=
| Incomplete (have need : Z)
| InvalidLength (len : Z)
| BadPayload (e : JE)
| PayloadTooLarge (n : Z).
Arguments Incomplete {JE} have need.
Arguments InvalidLength {JE} len.
Arguments BadPayload {JE} e.
Arguments PayloadTooLarge {JE} n.

Definition is_incomplete {JE} (e : FrameError JE) : bool :=
  match e with Incomplete _ _ => true | _ => false end.

Section Codec.
Context {JE T : Type} `{!Serde JE T}.

Definition encode_value (v : T) : SM bytes (FrameError JE) Z := fun out =>
  let header_start := length out in
  let out := out ++ replicate 4 Byte.x00 in
  let payload_start := length out in
  let (r, js) := to_json v in
  let out := out ++ js in
  match r with
  | Err e => (Err (BadPayload e), out)
  | Ok _ =>
      let payload_len := zlen out - Z.of_nat payload_start in
      if MAX_FRAME_BYTES <? payload_len
      then (Err (PayloadTooLarge payload_len), take header_start out)
      else
        let len_bytes := to_le 4 (wrap32 payload_len) in
        (Ok (HEADER_BYTES + payload_len), splice out header_start len_bytes)
  end.

Definition decode_value (buf : bytes) : result (FrameError JE) (T * Z) :=
  if zlen buf <? HEADER_BYTES then Err (Incomplete (zlen buf) HEADER_BYTES)
  else
    let len := from_le (slice buf 0 4) in
    if MAX_FRAME_BYTES <? len then Err (InvalidLength len)
    else
      let total := HEADER_BYTES + len in
      if zlen buf <? total then Err (Incomplete (zlen buf) total)
      else
        let payload := slice buf 4 (Z.to_nat len) in
        v ← map_err BadPayload (from_json payload);
        Ok (v, total).
End Codec.

Definition encode_request {JE} `{!Serde JE Request.t} : Request.t -> SM bytes (FrameError JE) Z :=
  encode_value.
Definition encode_response {JE} `{!Serde JE Response.t} : Response.t -> SM bytes (FrameError JE) Z :=
  encode_value.
Definition decode_request {JE} `{!Serde JE Request.t} : bytes -> result (FrameError JE) (Request.t * Z) :=
  decode_value.
Definition decode_response {JE} `{!Serde JE Response.t} : bytes -> result (FrameError JE) (Response.t * Z) :=
  decode_value.

(** ** The host's readers *)

Section Readers.
Context {JE : Type} `{!Serde JE Response.t}.
Variable debug_body : ResponseBody -> string.
Variable debug_code : ErrorCode -> string.
Variable display_frame_error : FrameError JE -> string.

Definition rpc_error_message (context : string) (rpc : RpcError.t) : VmError :=
  Backend (context +:+ "[" +:+ debug_code (RpcError.code rpc) +:+ "]: " +:+ RpcError.message rpc).

Definition response_to_exec_result (resp : Response.t) : result VmError GuestExecResult.t :=
  match Response.outcome resp with
  | Ok (ExecResult exit_code signal stdout stderr duration_ms) =>
      Ok (GuestExecResult.mk exit_code signal stdout stderr duration_ms)
  | Ok other => Err (Backend ("vm-kvm: unexpected exec response body: " +:+ debug_body other))
  | Err rpc => Err (rpc_error_message "vm-kvm: agent exec error " rpc)
  end.

Definition rpc_response_body (resp : Response.t) : result VmError ResponseBody :=
  match Response.outcome resp with
  | Ok body => Ok body
  | Err rpc => Err (rpc_error_message "vm-kvm: agent rpc error " rpc)
  end.

(** The reply loop of [exec_over_vsock] and [rpc_oneshot]: each poll appends a
    piece, tries to decode, and gives up if by then the deadline has passed. *)
Fixpoint await_reply {A} (what : string) (finish : Response.t -> result VmError A)
    (polls : list (bytes * bool)) (buf : bytes) : option (result VmError A) :=
  match polls with
  | [] => None
  | (piece, expired) :: polls =>
      let buf := buf ++ piece in
      match decode_response buf with
      | Ok (resp, _) => Some (finish resp)
      | Err e =>
          if is_incomplete e then
            if expired then
              Some (Err (Backend ("vm-kvm: timed out waiting for the agent's " +:+ what +:+ " response")))
            else await_reply what finish polls buf
          else Some (Err (Backend ("vm-kvm: decode " +:+ what +:+ " response: "
                                   +:+ display_frame_error e)))
      end
  end.

End Readers.

Module KvmExecStream.
Section Stream.
Context {JE : Type} `{!Serde JE Response.t}.
Variable debug_body : ResponseBody -> string.
Variable debug_code : ErrorCode -> string.
Variable display_frame_error : FrameError JE -> string.

Record t : Type := mk { inbox : list bytes; buf : bytes; done : bool }.

(** The loop of [next_frame], [n] bounding its iterations. *)
Fixpoint next_loop (n : nat) (s : t) : option (result VmError (option ExecFrame)) * t :=
  match n with
  | O => (None, s)
  | S n =>
      match decode_response (buf s) with
      | Ok (resp, consumed) =>
          let rest := drop (Z.to_nat consumed) (buf s) in
          match Response.outcome resp with
          | Ok (ExecStarted _) => next_loop n (mk (inbox s) rest (done s))
          | Ok (ExecOutput _ stream data) =>
              let frame := match stream with StreamStdout => Stdout data | StreamStderr => Stderr data end in
              (Some (Ok (Some frame)), mk (inbox s) rest (done s))
          | Ok (ExecExited _ exit_code signal duration_ms) =>
              (Some (Ok (Some (Exit exit_code signal duration_ms))), mk (inbox s) rest true)
          | Ok other =>
              (Some (Err (Backend ("vm-kvm: unexpected response on exec stream: " +:+ debug_body other))),
               mk (inbox s) rest true)
          | Err rpc =>
              (Some (Err (rpc_error_message debug_code "vm-kvm: agent exec_stream error " rpc)),
               mk (inbox s) rest true)
          end
      | Err e =>
          if is_incomplete e then
            match inbox s with
            | [] => (None, s)
            | piece :: inbox => next_loop n (mk inbox (buf s ++ piece) (done s))
            end
          else
            (Some (Err (Backend ("vm-kvm: decode exec stream frame: " +:+ display_frame_error e))),
             mk (inbox s) (buf s) true)
      end
  end.

(** Every iteration decodes at least a header or takes a piece. *)
Definition bound (s : t) : nat :=
  S (length (inbox s) + length (buf s) + length (concat (inbox s))).

Definition next_frame (s : t) : option (result VmError (option ExecFrame)) * t :=
  if done s then (Some (Ok None), s) else next_loop (bound s) s.
End Stream.
End KvmExecStream.

(** ** Frame lemmas *)

Definition pframe (js : bytes) : bytes := to_le 4 (zlen js) ++ js.

(** The payload a value is sent as, when it may be sent. *)
Definition payload_of {JE T} `{!Serde JE T} (v : T) (js : bytes) : Prop :=
  to_json v = (Ok tt, js) /\ zlen js <= MAX_FRAME_BYTES.

Lemma pframe_length js : length (pframe js) = (4 + length js)%nat.
Proof. unfold pframe. len. Qed.

Section FrameLemmas.
Context {JE T : Type} `{!Serde JE T}.
Implicit Types (v : T) (js buf out rest : bytes).

Lemma encode_value_ok v js out :
  payload_of v js -> encode_value v out = (Ok (HEADER_BYTES + zlen js), out ++ pframe js).
Proof.
  intros [Hv Hl]. unfold encode_value. rewrite Hv.
  replace (zlen ((out ++ replicate 4 Byte.x00) ++ js) - Z.of_nat (length (out ++ replicate 4 Byte.x00)))
    with (zlen js) by (unfold zlen; rewrite (length_app _ js); lia).
  rewrite (proj2 (Z.ltb_ge _ _)) by done.
  rewrite wrap32_small by (unfold MAX_FRAME_BYTES, is_u32, zlen in *; lia).
  unfold pframe. rewrite <- (app_assoc out), splice_app by done. f_equal. rewrite <- app_assoc. do 2 f_equal.
Qed.

Lemma encode_value_too_large v js out :
  to_json v = (Ok tt, js) -> MAX_FRAME_BYTES < zlen js ->
  encode_value v out = (Err (PayloadTooLarge (zlen js)), out).
Proof.
  intros Hv Hl. unfold encode_value. rewrite Hv.
  replace (zlen ((out ++ replicate 4 Byte.x00) ++ js) - Z.of_nat (length (out ++ replicate 4 Byte.x00)))
    with (zlen js) by (unfold zlen; rewrite (length_app _ js); lia).
  rewrite (proj2 (Z.ltb_lt _ _)) by done. by rewrite <- app_assoc, take_app_length.
Qed.

Lemma decode_value_app `{!SerdeLaws JE T} v js rest :
  payload_of v js -> decode_value (pframe js ++ rest) = Ok (v, HEADER_BYTES + zlen js).
Proof.
  intros [Hv Hl]. unfold decode_value, HEADER_BYTES in *.
  assert (Hz : zlen (pframe js ++ rest) = 4 + zlen js + zlen rest).
  { unfold zlen. rewrite length_app, pframe_length. lia. }
  rewrite Hz. rewrite (proj2 (Z.ltb_ge _ _)) by (unfold zlen; lia).
  unfold pframe. rewrite <- app_assoc, slice_app_l, slice_all by len.
  rewrite from_to_le32 by (unfold is_u32, MAX_FRAME_BYTES, zlen in *; lia).
  rewrite (proj2 (Z.ltb_ge _ _)) by done. rewrite (proj2 (Z.ltb_ge _ _)) by (unfold zlen; lia).
  rewrite slice_app_r by len. rewrite to_le_length. change (4 - 4)%nat with 0%nat.
  rewrite slice_app_l, slice_all by (unfold zlen; lia). by rewrite (json_roundtrip _ _ Hv).
Qed.

(** Every strict prefix of a frame asks for more, and never for more than the
    frame. *)
Lemma decode_value_prefix js k :
  zlen js <= MAX_FRAME_BYTES -> (k < length (pframe js))%nat ->
  exists need, decode_value (T := T) (take k (pframe js)) = Err (Incomplete (Z.of_nat k) need) /\
    Z.of_nat k < need <= HEADER_BYTES + zlen js.
Proof.
  intros Hl Hk. rewrite pframe_length in Hk. unfold decode_value, HEADER_BYTES.
  assert (Hz : zlen (take k (pframe js)) = Z.of_nat k).
  { unfold zlen. rewrite length_take, pframe_length. lia. }
  rewrite Hz. case_if; [eexists; split; [done|unfold zlen; lia]|].
  rewrite slice_take by lia. unfold pframe. rewrite slice_app_l, slice_all by len.
  rewrite from_to_le32 by (unfold is_u32, MAX_FRAME_BYTES, zlen in *; lia).
  rewrite (proj2 (Z.ltb_ge _ _)) by done. rewrite (proj2 (Z.ltb_lt _ _)) by (unfold zlen in *; lia).
  eexists. split; [done|unfold zlen in *; lia].
Qed.

(** A decision, once reached, does not depend on what arrives later. *)
Lemma decode_value_stable buf more :
  match decode_value (T := T) buf with
  | Err (Incomplete have need) => zlen buf = have /\ have < need
  | r => decode_value (buf ++ more) = r
  end.
Proof.
  unfold decode_value, HEADER_BYTES. case_if; [lia|].
  assert (Hz : zlen (buf ++ more) = zlen buf + zlen more) by (unfold zlen; rewrite length_app; lia). rewrite Hz.
  rewrite (proj2 (Z.ltb_ge (zlen buf + zlen more) 4)) by (unfold zlen in *; lia).
  rewrite slice_app_l by (unfold zlen in *; lia).
  pose proof (from_le_u32 buf 0 ltac:(unfold zlen in *; lia)) as Hu. unfold is_u32 in Hu.
  destruct (MAX_FRAME_BYTES <? from_le (slice buf 0 4)); [done|].
  destruct (zlen buf <? 4 + from_le (slice buf 0 4)) eqn:Ht; bool_to_prop; [split; [done|lia]|].
  rewrite (proj2 (Z.ltb_ge (zlen buf + zlen more) _)) by (unfold zlen in *; lia).
  rewrite slice_app_l by (unfold zlen in *; lia).
  by destruct (from_json (slice buf 4 (Z.to_nat (from_le (slice buf 0 4))))).
Qed.

Lemma decode_value_consumed buf v n :
  decode_value buf = Ok (v, n) -> HEADER_BYTES <= n <= zlen buf.
Proof.
  unfold decode_value, HEADER_BYTES. case_if; [done|].
  pose proof (from_le_u32 buf 0 ltac:(unfold zlen in *; lia)) as Hu. unfold is_u32 in Hu.
  do 2 (case_if; [done|]).
  destruct (from_json _); [|done]. simpl. intros [= _ <-]. lia.
Qed.
End FrameLemmas.

(** ** Streams *)

Section Streams.
Context {JE : Type} `{!Serde JE Response.t, !SerdeLaws JE Response.t}.
Variable debug_body : ResponseBody -> string.
Variable debug_code : ErrorCode -> string.
Variable display_frame_error : FrameError JE -> string.
Import KvmExecStream.
Implicit Types (s : t) (rs : list Response.t) (jss : list bytes).

(** What the caller gets for the responses still to come, what is then left,
    and whether the stream is over. *)
Fixpoint next_event rs : option (result VmError (option ExecFrame)) * list Response.t * bool :=
  match rs with
  | [] => (None, [], false)
  | r :: rs =>
      match Response.outcome r with
      | Ok (ExecStarted _) => next_event rs
      | Ok (ExecOutput _ StreamStdout data) => (Some (Ok (Some (Stdout data))), rs, false)
      | Ok (ExecOutput _ StreamStderr data) => (Some (Ok (Some (Stderr data))), rs, false)
      | Ok (ExecExited _ c sg d) => (Some (Ok (Some (Exit c sg d))), rs, true)
      | Ok other =>
          (Some (Err (Backend ("vm-kvm: unexpected response on exec stream: " +:+ debug_body other))), rs, true)
      | Err rpc => (Some (Err (rpc_error_message debug_code "vm-kvm: agent exec_stream error " rpc)), rs, true)
      end
  end.

(** The bytes buffered and on the way are the frames of [rs]. *)
Definition carries s rs : Prop :=
  exists jss, buf s ++ concat (inbox s) = concat (pframe <$> jss) /\
    Forall2 (payload_of (JE := JE)) rs jss.

(** Either the buffer starts with the next frame or it is a strict prefix of it
    and more is on the way. *)
Lemma next_frame_split s js jss :
  buf s ++ concat (inbox s) = concat (pframe <$> js :: jss) ->
  (exists rest, buf s = pframe js ++ rest /\ rest ++ concat (inbox s) = concat (pframe <$> jss)) \/
  (exists k, (k < length (pframe js))%nat /\ buf s = take k (pframe js) /\ inbox s <> []).
Proof.
  cbn [fmap list_fmap concat]. intros Heq. destruct (decide (length (pframe js) <= length (buf s))%nat) as [Hl|Hl].
  - left. exists (drop (length (pframe js)) (buf s)).
    assert (Ht : take (length (pframe js)) (buf s) = pframe js).
    { apply (f_equal (take (length (pframe js)))) in Heq.
      by rewrite take_app_le, take_app_length in Heq. }
    split; [by rewrite <- Ht at 1; rewrite take_drop|].
    apply (f_equal (drop (length (pframe js)))) in Heq.
    by rewrite drop_app_le, drop_app_length in Heq.
  - right. exists (length (buf s)). split_and!; [lia| |].
    + apply (f_equal (take (length (buf s)))) in Heq.
      by rewrite take_app_length, take_app_le in Heq by lia.
    + intros Hi. rewrite Hi in Heq. simpl in Heq. rewrite app_nil_r in Heq.
      apply (f_equal length) in Heq. rewrite length_app in Heq. lia.
Qed.

Lemma next_loop_spec n s rs :
  done s = false -> carries s rs -> (bound s <= n)%nat ->
  exists s', next_loop debug_body debug_code display_frame_error n s = ((next_event rs).1.1, s') /\
    done s' = (next_event rs).2 /\ carries s' (next_event rs).1.2.
Proof.
  revert s rs. induction n as [|n IH]; intros s rs Hd (jss & Heq & Hp) Hb; [unfold bound in Hb; lia|].
  (* taking one more piece *)
  assert (Hmore : forall piece rest, inbox s = piece :: rest ->
    exists s', next_loop debug_body debug_code display_frame_error n
                 (mk rest (buf s ++ piece) (done s)) = ((next_event rs).1.1, s') /\
      done s' = (next_event rs).2 /\ carries s' (next_event rs).1.2).
  { intros piece rest Hi. apply IH; [done| |].
    - exists jss. split; [|done]. simpl. rewrite <- Heq, Hi. simpl. by rewrite app_assoc.
    - unfold bound in *. rewrite Hi in Hb. simpl in *. rewrite length_app in *. lia. }
  cbn [next_loop]. destruct Hp as [|r js rs jss [Hv Hl] Hp].
  - (* nothing more will come *)
    assert (Hbuf : buf s = []) by (by destruct (buf s)).
    destruct (inbox s) as [|piece rest] eqn:Hi.
    + exists s. rewrite Hbuf. simpl. split_and!; [done|done|]. exists []. by rewrite Hbuf, Hi.
    + destruct (Hmore piece rest eq_refl) as (s' & Hs' & Hrest). exists s'.
      rewrite Hbuf in *. done.
  - destruct (next_frame_split _ _ _ Heq) as [(rest & Hbuf & Hrest)|(k & Hk & Hbuf & Hi)].
    + rewrite Hbuf. unfold decode_response.
      rewrite (decode_value_app r js rest) by by split.
      replace (drop (Z.to_nat (HEADER_BYTES + zlen js)) (pframe js ++ rest)) with rest.
      2: { symmetry. apply drop_app_length'. rewrite pframe_length. unfold HEADER_BYTES, zlen. lia. }
      assert (Hc : forall d, carries (mk (inbox s) rest d) rs) by (intros d; by exists jss).
      cbn [next_event]. destruct (Response.outcome r) as [[]|rpc];
        try (eexists; split_and!; [done|done|apply Hc]).
      * apply IH; [done|apply Hc|]. unfold bound in *. rewrite Hbuf, length_app, pframe_length in Hb.
        simpl in *. lia.
      * destruct stream; eexists; split_and!; try done; apply Hc.
    + destruct (decode_value_prefix (JE := JE) (T := Response.t) js k Hl Hk) as (need & Hdec & _).
      unfold decode_response. rewrite Hbuf, Hdec. simpl is_incomplete. cbv iota.
      destruct (inbox s) as [|piece rest] eqn:Hi'; [done|]. rewrite <- Hbuf. by apply Hmore.
Qed.

(** Whatever bytes arrive, a call that does not return has taken in everything
    and holds an incomplete frame. *)
Lemma next_loop_blocks n s s' :
  (bound s <= n)%nat -> next_loop debug_body debug_code display_frame_error n s = (None, s') ->
  inbox s' = [] /\ exists e, decode_response (JE := JE) (buf s') = Err e /\ is_incomplete e = true.
Proof.
  revert s. induction n as [|n IH]; intros s Hb; [unfold bound in Hb; lia|]. cbn [next_loop].
  destruct (decode_response (buf s)) as [[resp consumed]|e] eqn:Hd.
  - apply decode_value_consumed in Hd. unfold HEADER_BYTES, zlen in Hd.
    destruct (Response.outcome resp) as [[]|rpc]; try done.
    intros H. eapply IH, H. unfold bound in *. simpl. rewrite length_drop. lia.
  - destruct (is_incomplete e) eqn:He; [|done]. destruct (inbox s) as [|piece rest] eqn:Hi.
    + intros [= <-]. split; [done|]. by exists e.
    + intros H. eapply IH, H. unfold bound in *. rewrite Hi in Hb. simpl in *.
      rewrite length_app in *. lia.
Qed.

(** ** The whole stream *)

Inductive stream_end : Type := Waiting | Finished | Failed (e : VmError).

(** Calling [next_frame] up to [n] times, until the stream ends or blocks. *)
Fixpoint pull (n : nat) s : list ExecFrame * stream_end :=
  match n with
  | O => ([], Waiting)
  | S n =>
      match next_frame debug_body debug_code display_frame_error s with
      | (None, _) => ([], Waiting)
      | (Some (Ok None), _) => ([], Finished)
      | (Some (Err e), _) => ([], Failed e)
      | (Some (Ok (Some f)), s) => let (fs, e) := pull n s in (f :: fs, e)
      end
  end.

(** What the agent's responses mean to the caller. *)
Fixpoint transcript rs : list ExecFrame * stream_end :=
  match rs with
  | [] => ([], Waiting)
  | r :: rs =>
      match Response.outcome r with
      | Ok (ExecStarted _) => transcript rs
      | Ok (ExecOutput _ StreamStdout data) => let (fs, e) := transcript rs in (Stdout data :: fs, e)
      | Ok (ExecOutput _ StreamStderr data) => let (fs, e) := transcript rs in (Stderr data :: fs, e)
      | Ok (ExecExited _ c sg d) => ([Exit c sg d], Finished)
      | Ok other => ([], Failed (Backend ("vm-kvm: unexpected response on exec stream: " +:+ debug_body other)))
      | Err rpc => ([], Failed (rpc_error_message debug_code "vm-kvm: agent exec_stream error " rpc))
      end
  end.

Lemma transcript_event rs :
  transcript rs =
    match next_event rs with
    | (None, _, _) => ([], Waiting)
    | (Some (Ok None), _, _) => ([], Finished)
    | (Some (Err e), _, _) => ([], Failed e)
    | (Some (Ok (Some f)), _, true) => ([f], Finished)
    | (Some (Ok (Some f)), rest, false) => let (fs, e) := transcript rest in (f :: fs, e)
    end.
Proof.
  induction rs as [|r rs IH]; [done|]. cbn [transcript next_event].
  destruct (Response.outcome r) as [[]|rpc]; try done. by destruct stream.
Qed.

Lemma next_event_shorter rs : (length (next_event rs).1.2 <= length rs - 1)%nat.
Proof.
  induction rs as [|r rs IH]; [done|]. cbn [next_event length].
  destruct (Response.outcome r) as [[]|rpc]; simpl; try lia. destruct stream; simpl; lia.
Qed.

Lemma pull_transcript n s rs :
  done s = false -> carries s rs -> (length rs + 1 < n)%nat -> pull n s = transcript rs.
Proof.
  revert s rs. induction n as [|n IH]; intros s rs Hd Hc Hn; [lia|].
  destruct (next_loop_spec (bound s) s rs Hd Hc ltac:(done)) as (s' & Hs & Hd' & Hc').
  cbn [pull]. unfold next_frame. rewrite Hd, Hs, transcript_event.
  pose proof (next_event_shorter rs) as Hle.
  assert (Hnil : (next_event rs).1.1 <> None -> rs <> []) by (by destruct rs).
  destruct (next_event rs) as [[[[[f|]|e]|] rest] d]; simpl in *; try done.
  destruct d.
  - destruct n as [|n]; [lia|]. cbn [pull]. unfold next_frame. by rewrite Hd'.
  - rewrite (IH s' rest); [done|done|done|]. destruct rs; [by destruct Hnil|]. simpl in *. lia.
Qed.
End Streams.

Section Reply.
Context {JE : Type} `{!Serde JE Response.t, !SerdeLaws JE Response.t}.
Variable display_frame_error : FrameError JE -> string.

Lemma await_reply_step {A} what (finish : Response.t -> result VmError A) polls buf js junk r p expired :
  payload_of (JE := JE) r js -> buf ++ p ++ concat polls.*1 = pframe js ++ junk ->
  await_reply display_frame_error what finish ((p, expired) :: polls) buf =
    if decide (length (pframe js) <= length (buf ++ p))%nat then Some (finish r)
    else if expired then
      Some (Err (Backend ("vm-kvm: timed out waiting for the agent's " +:+ what +:+ " response")))
    else await_reply display_frame_error what finish polls (buf ++ p).
Proof.
  intros Hr Heq. rewrite app_assoc in Heq. cbn [await_reply]. unfold decode_response.
  case_decide as Hl.
  - pose proof (f_equal (take (length (pframe js))) Heq) as Ht.
    rewrite take_app_le, take_app_length in Ht by done.
    rewrite <- (take_drop (length (pframe js)) (buf ++ p)), Ht. by rewrite (decode_value_app r js).
  - pose proof (f_equal (take (length (buf ++ p))) Heq) as Ht.
    rewrite take_app_length, take_app_le in Ht by lia.
    destruct (decode_value_prefix (JE := JE) (T := Response.t) js (length (buf ++ p)))
      as (need & Hdec & _); [by destruct Hr|lia|].
    rewrite <- Ht in Hdec. by rewrite Hdec.
Qed.

(** A response that arrives, in any pieces, before the deadline is the result;
    one still incomplete when the deadline passes is a timeout. *)
Lemma await_reply_spec {A} what (finish : Response.t -> result VmError A) polls buf js junk r :
  payload_of (JE := JE) r js -> (length buf < length (pframe js))%nat ->
  buf ++ concat polls.*1 = pframe js ++ junk -> Forall (fun p => p.2 = false) polls ->
  await_reply display_frame_error what finish polls buf = Some (finish r).
Proof.
  intros Hr. revert buf. induction polls as [|[p expired] polls IH]; intros buf Hl Heq Hex.
  - simpl in Heq. rewrite app_nil_r in Heq. apply (f_equal length) in Heq. rewrite length_app in Heq. lia.
  - apply Forall_cons in Hex as [He Hex]. simpl in He. subst expired.
    rewrite (await_reply_step what finish polls buf js junk r) by done. case_decide as Hd; [done|].
    apply IH; [lia| |done]. rewrite <- Heq. simpl. by rewrite app_assoc.
Qed.

Lemma await_reply_timeout {A} what (finish : Response.t -> result VmError A) polls piece later buf js junk r :
  payload_of (JE := JE) r js -> Forall (fun p => p.2 = false) polls ->
  buf ++ concat polls.*1 ++ piece ++ concat later.*1 = pframe js ++ junk ->
  (length (buf ++ concat polls.*1 ++ piece) < length (pframe js))%nat ->
  await_reply display_frame_error what finish (polls ++ (piece, true) :: later) buf =
    Some (Err (Backend ("vm-kvm: timed out waiting for the agent's " +:+ what +:+ " response"))).
Proof.
  intros Hr Hex. revert buf. induction Hex as [|[p expired] polls He _ IH]; intros buf Heq Hl;
    cbn [fmap list_fmap concat app fst snd] in *.
  - rewrite (await_reply_step what finish later buf js junk r) by done.
    case_decide as Hd; [lia|done].
  - subst expired. rewrite (await_reply_step what finish (polls ++ (piece, true) :: later) buf js junk r).
    + rewrite !length_app in Hl. case_decide as Hd; [rewrite length_app in Hd; lia|].
      apply IH; [by rewrite <- Heq, <- !app_assoc|rewrite !length_app; lia].
    + done.
    + rewrite fmap_app, concat_app. cbn [fmap list_fmap concat fst]. by rewrite <- Heq, <- !app_assoc.
Qed.
End Reply.

(** ** Properties *)

(** The agent protocol's frame codec recovers messages from a byte stream
    however it is cut. A value whose payload is within the cap is appended to
    the output as one frame and decoded from it, followed by anything, to the
    same value with exactly the frame consumed; every strict prefix of the
    frame is reported incomplete, asking for no more than the frame has; a
    payload over the cap is refused and the output left as it was. In general
    a decoder's verdict on a buffer, other than incomplete, is not changed by
    bytes that arrive later, and an announced length over the cap is refused
    from the header alone. *)
Theorem proto_frame_codec {JE T : Type} `{!Serde JE T, !SerdeLaws JE T} (v : T) js out rest :
  to_json v = (Ok tt, js) ->
  (zlen js <= MAX_FRAME_BYTES ->
     encode_value v out = (Ok (HEADER_BYTES + zlen js), out ++ pframe js) /\
     decode_value (pframe js ++ rest) = Ok (v, HEADER_BYTES + zlen js) /\
     (forall k, (k < length (pframe js))%nat ->
        exists need, decode_value (T := T) (take k (pframe js)) = Err (Incomplete (Z.of_nat k) need) /\
          Z.of_nat k < need <= HEADER_BYTES + zlen js)) /\
  (MAX_FRAME_BYTES < zlen js -> encode_value v out = (Err (PayloadTooLarge (zlen js)), out)) /\
  (forall buf more,
     match decode_value (T := T) buf with
     | Err (Incomplete have need) => zlen buf = have /\ have < need
     | r => decode_value (buf ++ more) = r
     end) /\
  (forall len, MAX_FRAME_BYTES < len < 2 ^ 32 ->
     decode_value (T := T) (to_le 4 len ++ rest) = Err (InvalidLength len)).
Proof.
  intros Hv. split_and!.
  - intros Hl. assert (Hp : payload_of v js) by by split. split_and!.
    + by apply encode_value_ok.
    + by apply decode_value_app.
    + intros k. by apply decode_value_prefix.
  - by apply encode_value_too_large.
  - intros buf more. apply decode_value_stable.
  - intros len Hlen. unfold decode_value, HEADER_BYTES.
    rewrite (proj2 (Z.ltb_ge _ _)) by (unfold zlen; rewrite length_app, to_le_length; lia).
    rewrite slice_app_l, slice_all by len. rewrite from_to_le32 by (unfold is_u32, MAX_FRAME_BYTES in *; lia).
    by rewrite (proj2 (Z.ltb_lt _ _)) by lia.
Qed.

Definition example_response (body : ResponseBody) : Response.t := Response.mk PROTOCOL_VERSION 1 (Ok body).
Definition example_table : list Response.t :=
  example_response <$>
    [Pong; ExecStarted 9; ExecOutput 9 StreamStdout [Byte.x68]; ExecExited 9 (Some 0) None 3].
#[local] Instance example_serde : Serde unit Response.t := table_serde example_table.
#[local] Instance example_serde_laws : SerdeLaws unit Response.t := table_serde_laws _.

Lemma proto_frame_codec_witness :
  decode_value (pframe [Byte.x61; Byte.x61] ++ [Byte.x00]) =
    Ok (example_response (ExecOutput 9 StreamStdout [Byte.x68]), 6) :> result (FrameError unit) _.
Proof.
  refine (proj1 (proj2 (proj1 (proto_frame_codec (JE := unit)
    (example_response (ExecOutput 9 StreamStdout [Byte.x68])) [Byte.x61; Byte.x61] [] [Byte.x00] _) _))).
  - vm_compute. reflexivity.
  - vm_compute. discriminate.
Defined.

(** The host reads the agent's answers independently of how the transport
    cut them. Whatever pieces the frames of a sequence of responses arrive in,
    repeated [next_frame] calls give exactly the transcript of that sequence:
    the output chunks in order, then the exit frame once, after which the
    stream is over; an error response or one that does not belong ends it with
    an error, and if no exit has been sent yet the reader is left waiting.
    Whatever bytes arrive, a call waits only with everything taken in and a
    frame still incomplete. The one-shot reader returns the first response if it is complete before the
    deadline, and times out if it is not. *)
Theorem exec_stream_transcript {JE : Type} `{!Serde JE Response.t, !SerdeLaws JE Response.t}
  debug_body debug_code display_frame_error (rs : list Response.t) jss pieces :
  Forall2 (payload_of (JE := JE)) rs jss -> concat pieces = concat (pframe <$> jss) ->
  pull (JE := JE) debug_body debug_code display_frame_error (length rs + 2)
    (KvmExecStream.mk pieces [] false) = transcript debug_body debug_code rs /\
  (forall s s', KvmExecStream.next_frame debug_body debug_code display_frame_error s = (None, s') ->
     KvmExecStream.inbox s' = [] /\
     exists e, decode_response (JE := JE) (KvmExecStream.buf s') = Err e /\ is_incomplete e = true) /\
  (forall A what (finish : Response.t -> result VmError A) r js junk polls,
     payload_of (JE := JE) r js -> concat polls.*1 = pframe js ++ junk ->
     Forall (fun p => p.2 = false) polls ->
     await_reply display_frame_error what finish polls [] = Some (finish r)) /\
  (forall A what (finish : Response.t -> result VmError A) r js junk polls piece later,
     payload_of (JE := JE) r js -> Forall (fun p => p.2 = false) polls ->
     concat polls.*1 ++ piece ++ concat later.*1 = pframe js ++ junk ->
     (length (concat polls.*1 ++ piece) < length (pframe js))%nat ->
     await_reply display_frame_error what finish (polls ++ (piece, true) :: later) [] =
       Some (Err (Backend ("vm-kvm: timed out waiting for the agent's " +:+ what +:+ " response")))).
Proof.
  intros Hp Heq. split_and!.
  - apply pull_transcript; [done| |lia]. by exists jss.
  - intros s s'. unfold KvmExecStream.next_frame. destruct (KvmExecStream.done s); [done|].
    by apply next_loop_blocks.
  - intros A what finish r js junk polls Hr Hpolls Hex.
    apply (await_reply_spec _ what finish polls [] js junk); [done| |done|done].
    rewrite pframe_length. simpl. lia.
  - intros A what finish r js junk polls piece later Hr Hex Hpolls Hl.
    by apply (await_reply_timeout _ what finish polls piece later [] js junk r).
Qed.

Lemma exec_stream_transcript_witness :
  let rs := example_response <$>
    [ExecStarted 9; ExecOutput 9 StreamStdout [Byte.x68]; ExecExited 9 (Some 0) None 3] in
  let jss := [[Byte.x61]; [Byte.x61; Byte.x61]; [Byte.x61; Byte.x61; Byte.x61]] in
  let stream := concat (pframe <$> jss) in
  pull (JE := unit) (fun _ => "") (fun _ => "") (fun _ => "") 5
    (KvmExecStream.mk [take 7 stream; []; drop 7 stream] [] false) =
  ([Stdout [Byte.x68]; Exit (Some 0) None 3], Finished).
Proof.
  intros rs jss stream. etransitivity;
    [refine (proj1 (exec_stream_transcript (JE := unit) (fun _ => "") (fun _ => "") (fun _ => "") rs jss
       [take 7 stream; []; drop 7 stream] _ _))|].
  - repeat (apply Forall2_cons; split; [split; [vm_compute; reflexivity|vm_compute; discriminate]|]).
    apply Forall2_nil. exact I.
  - simpl. rewrite app_nil_r, take_drop. reflexivity.
  - reflexivity.
Defined.
