(* ===== verification/FuseWire.v ===== *)
(** * virtio-fs: FUSE wire format and packet headers

    Models [crates/virtio-fs/src/lib.rs]: the opcodes, the request and response
    headers and the error type, on a theory of fixed layouts that the bodies of
    [FuseBody] share. A body is a record written field by field at consecutive
    offsets; [FuseBody] is the interface its methods implement and
    [FuseBodyLaws] ties them to the layout, from which both directions of the
    round trip follow once for all bodies. *)

From S2P Require Import Prelude.

Definition FUSE_KERNEL_VERSION : Z := 7.
Definition FUSE_KERNEL_MINOR_VERSION : Z := 33.
Definition FUSE_IN_HDR_LEN : Z := 40.
Definition FUSE_OUT_HDR_LEN : Z := 16.

Inductive FuseError : Type :=
| ShortHeader (have need : Z)
| ShortBuffer (have need : Z)
| UnknownOpcode (raw : Z).

#[global] Instance fuse_error_eq_dec : EqDecision FuseError.
Proof. solve_decision. Defined.

(** ** Fixed layouts

    A field is a width in bytes and a value. *)

Abbreviation field := (nat * Z)%type.

Definition fld (off n : nat) (v : Z) : nat * nat * Z := (off, n, v).
Definition wid (n : nat) (v : Z) : field := (n, v).

(** The stores [buf[off..off + n].copy_from_slice(&v.to_le_bytes())], in order. *)
Definition store (buf : bytes) (s : nat * nat * Z) : bytes :=
  let '(off, n, v) := s in splice buf off (to_le n v).

Definition stores (ss : list (nat * nat * Z)) (buf : bytes) : bytes := foldl store buf ss.

(** [uN::from_le_bytes(buf[off..off + n])] *)
Definition get (buf : bytes) (off n : nat) : Z := from_le (slice buf off n).

(** The guards every [from_bytes] and [write_to] starts with. *)
Definition checked_read {A} (need : Z) (k : bytes -> result FuseError A) (buf : bytes) :
    result FuseError A :=
  if zlen buf <? need then Err (ShortHeader (zlen buf) need) else k buf.

Definition checked_write (need : Z) (k : SM bytes FuseError unit) : SM bytes FuseError Z := fun buf =>
  if zlen buf <? need then (Err (ShortBuffer (zlen buf) need), buf)
  else (_ ← k; mret need) buf.

(** What a record with these fields looks like on the wire. *)
Definition encode (fs : list field) : bytes := concat ((fun '(n, v) => to_le n v) <$> fs).

(** The fields of widths [ns] found from offset [off] on. *)
Fixpoint read_fields (off : nat) (ns : list nat) (buf : bytes) : list field :=
  match ns with
  | [] => []
  | n :: ns => (n, get buf off n) :: read_fields (off + n) ns buf
  end.

(** The fields placed at consecutive offsets from [off] on. *)
Fixpoint place (off : nat) (fs : list field) : list (nat * nat * Z) :=
  match fs with
  | [] => []
  | (n, v) :: fs => (off, n, v) :: place (off + n) fs
  end.

(** Every value fits its width. *)
Definition fits (fs : list field) : Prop :=
  Forall (fun '(n, v) => 0 <= v < 2 ^ (Z.of_nat n * 8)) fs.

Lemma encode_cons n v fs : encode ((n, v) :: fs) = to_le n v ++ encode fs.
Proof. done. Qed.

Lemma encode_app fs fs' : encode (fs ++ fs') = encode fs ++ encode fs'.
Proof. unfold encode. by rewrite fmap_app, concat_app. Qed.

Lemma encode_length fs : length (encode fs) = sum_list fs.*1.
Proof.
  induction fs as [|[n v] fs IH]; [done|]. rewrite encode_cons, length_app, to_le_length, IH. done.
Qed.

#[export] Hint Rewrite encode_length : len.

(** Storing a record's fields one after the other writes its encoding and
    leaves the rest of the buffer alone. *)
Lemma stores_place_at fs pre buf :
  stores (place (length pre) fs) (pre ++ buf) = pre ++ encode fs ++ drop (sum_list fs.*1) buf.
Proof.
  revert pre buf. induction fs as [|[n v] fs IH]; intros pre buf; [done|].
  cbn [place stores foldl store]. rewrite splice_app by done. rewrite to_le_length.
  replace (length pre + n)%nat with (length (pre ++ to_le n v)) by len.
  change (foldl store ?b ?l) with (stores l b).
  rewrite IH, encode_cons, drop_drop, <- !app_assoc. done.
Qed.

Lemma stores_place fs buf :
  stores (place 0 fs) buf = encode fs ++ drop (sum_list fs.*1) buf.
Proof. apply (stores_place_at fs []). Qed.

Lemma place_app off fs fs' :
  place off (fs ++ fs') = place off fs ++ place (off + sum_list fs.*1) fs'.
Proof.
  revert off. induction fs as [|[n v] fs IH]; intros off; simpl; [by rewrite Nat.add_0_r|].
  by rewrite IH, Nat.add_assoc.
Qed.

Lemma read_fields_widths off ns buf : (read_fields off ns buf).*1 = ns.
Proof. revert off. induction ns as [|n ns IH]; intros off; simpl; [done|]. by rewrite IH. Qed.

Lemma read_fields_app off ns ns' buf :
  read_fields off (ns ++ ns') buf =
    read_fields off ns buf ++ read_fields (off + sum_list ns) ns' buf.
Proof.
  revert off. induction ns as [|n ns IH]; intros off; simpl; [by rewrite Nat.add_0_r|].
  by rewrite IH, Nat.add_assoc.
Qed.

(** Reading through a window of a buffer. *)
Lemma read_fields_slice off ns buf o n :
  (o + sum_list ns <= n)%nat -> read_fields o ns (slice buf off n) = read_fields (off + o) ns buf.
Proof.
  revert o. induction ns as [|w ns IH]; intros o H; [done|]. cbn [read_fields sum_list_with] in *.
  simpl in H. unfold get. rewrite slice_slice by lia. rewrite IH by lia.
  by rewrite Nat.add_assoc.
Qed.

(** Reading back an encoding yields its fields, provided they fit. *)
Lemma read_fields_encode_at fs pre rest :
  fits fs -> read_fields (length pre) fs.*1 (pre ++ encode fs ++ rest) = fs.
Proof.
  intros Hf. revert pre. induction Hf as [|[n v] fs Hv _ IH]; intros pre; [done|].
  cbn [fmap list_fmap fst read_fields]. rewrite encode_cons. f_equal.
  - unfold get. rewrite <- app_assoc, slice_app_r, Nat.sub_diag by lia.
    rewrite slice_app_l, slice_all, from_to_le_small by len. done.
  - replace (length pre + n)%nat with (length (pre ++ to_le n v)) by len.
    rewrite <- app_assoc, (app_assoc pre). apply IH.
Qed.

Lemma read_fields_encode fs rest :
  fits fs -> read_fields 0 fs.*1 (encode fs ++ rest) = fs.
Proof. apply (read_fields_encode_at fs []). Qed.

(** Encoding what was read yields the bytes read. *)
Lemma encode_read_fields off ns buf :
  (off + sum_list ns <= length buf)%nat ->
  encode (read_fields off ns buf) = slice buf off (sum_list ns).
Proof.
  revert off. induction ns as [|n ns IH]; intros off H; [done|]. simpl in H.
  cbn [read_fields sum_list_with]. rewrite encode_cons, IH by lia.
  unfold get. rewrite to_le_slice by lia. by rewrite slice_cat.
Qed.

Lemma read_fields_fits off ns buf :
  (off + sum_list ns <= length buf)%nat -> fits (read_fields off ns buf).
Proof.
  revert off. induction ns as [|n ns IH]; intros off H; [constructor|]. simpl in H.
  constructor; [by apply from_le_slice_range; lia|]. apply IH. lia.
Qed.

(** ** The interface of a body *)

Class FuseBody (T : Type) := {
  body_len : Z;
  body_from_bytes : bytes -> result FuseError T;
  body_write_to : T -> SM bytes FuseError Z;
  body_to_bytes : T -> bytes;
}.

Class FuseBodyLaws (T : Type) `{!FuseBody T} := {
  layout : list nat;
  body_fields : T -> list field;
  body_len_layout : body_len (T := T) = Z.of_nat (sum_list layout);
  body_fields_layout b : (body_fields b).*1 = layout;
  body_fields_inj b b' : body_fields b = body_fields b' -> b = b';
  body_read_short buf :
    zlen buf < body_len (T := T) ->
    body_from_bytes (T := T) buf = Err (ShortHeader (zlen buf) (body_len (T := T)));
  body_read buf :
    body_len (T := T) <= zlen buf ->
    exists b, body_from_bytes buf = Ok b /\ body_fields b = read_fields 0 layout buf;
  body_write_short b buf :
    zlen buf < body_len (T := T) ->
    body_write_to b buf = (Err (ShortBuffer (zlen buf) (body_len (T := T))), buf);
  body_write b buf :
    body_len (T := T) <= zlen buf ->
    body_write_to b buf =
      (Ok (body_len (T := T)), encode (body_fields b) ++ drop (sum_list layout) buf);
  body_to_bytes_write b :
    body_to_bytes b = snd (body_write_to b (replicate (sum_list layout) Byte.x00));
}.

(** Every field of the record is in range. *)
Definition body_fits {T} `{!FuseBody T, !FuseBodyLaws T} (b : T) : Prop := fits (body_fields b).

Section BodyTheory.
Context {T : Type} `{!FuseBody T, !FuseBodyLaws T}.
Implicit Types b : T.

Lemma body_to_bytes_encode b : body_to_bytes b = encode (body_fields b).
Proof.
  rewrite body_to_bytes_write, body_write.
  - cbn [snd]. rewrite drop_ge by len. apply app_nil_r.
  - rewrite body_len_layout. unfold zlen. rewrite length_replicate. lia.
Qed.

Lemma body_to_bytes_length b : zlen (body_to_bytes b) = body_len (T := T).
Proof.
  rewrite body_to_bytes_encode, body_len_layout. unfold zlen.
  by rewrite encode_length, body_fields_layout.
Qed.

Lemma body_decode_encode b rest :
  body_fits b -> body_from_bytes (body_to_bytes b ++ rest) = Ok b.
Proof.
  intros Hf. destruct (body_read (body_to_bytes b ++ rest)) as (b' & Hr & Hb').
  { rewrite <- (body_to_bytes_length b). unfold zlen. rewrite length_app. lia. }
  rewrite Hr. f_equal. apply body_fields_inj. rewrite Hb', body_to_bytes_encode.
  rewrite <- (body_fields_layout b). by apply read_fields_encode.
Qed.

Lemma body_read_len buf b : body_from_bytes buf = Ok b -> body_len (T := T) <= zlen buf.
Proof.
  intros Hr. destruct (decide (zlen buf < body_len (T := T))) as [Hs|]; [|lia].
  by rewrite body_read_short in Hr.
Qed.

Lemma body_encode_decode buf b :
  body_from_bytes buf = Ok b ->
  body_fits b /\ body_to_bytes b = take (Z.to_nat (body_len (T := T))) buf.
Proof.
  intros Hr. pose proof (body_read_len _ _ Hr) as Hl.
  destruct (body_read buf Hl) as (b' & Hr' & Hb'). rewrite Hr in Hr'. injection Hr' as <-.
  rewrite body_len_layout in *. unfold zlen in Hl. split.
  - unfold body_fits. rewrite Hb'. apply read_fields_fits. lia.
  - rewrite body_to_bytes_encode, Hb', encode_read_fields by lia.
    by rewrite Nat2Z.id, slice_from_0.
Qed.

(** What a body promises: it is read back as it was written, whatever follows
    it; the bytes of a body that was read are those it was read from; short
    inputs and outputs are refused, naming both lengths, and a write touches
    only the body's own bytes. *)
Definition body_codec : Prop :=
  (forall b rest, body_fits b -> body_from_bytes (body_to_bytes b ++ rest) = Ok b) /\
  (forall buf b, body_from_bytes buf = Ok b ->
     body_fits b /\ body_to_bytes b = take (Z.to_nat (body_len (T := T))) buf) /\
  (forall buf, zlen buf < body_len (T := T) ->
     body_from_bytes (T := T) buf = Err (ShortHeader (zlen buf) (body_len (T := T)))) /\
  (forall buf, body_len (T := T) <= zlen buf -> is_ok (body_from_bytes (T := T) buf) = true) /\
  (forall b buf, zlen buf < body_len (T := T) ->
     body_write_to b buf = (Err (ShortBuffer (zlen buf) (body_len (T := T))), buf)) /\
  (forall b buf, body_len (T := T) <= zlen buf ->
     body_write_to b buf =
       (Ok (body_len (T := T)), body_to_bytes b ++ drop (Z.to_nat (body_len (T := T))) buf)).

Lemma body_codec_holds : body_codec.
Proof.
  split_and!.
  - apply body_decode_encode.
  - apply body_encode_decode.
  - apply body_read_short.
  - intros buf Hl. by destruct (body_read buf Hl) as (b & -> & _).
  - apply body_write_short.
  - intros b buf Hl. rewrite body_write, body_to_bytes_encode by done.
    by rewrite body_len_layout, Nat2Z.id.
Qed.
End BodyTheory.

Arguments body_codec T {_ _}.

(** ** Discharging the laws *)

Section PlainBody.
Context {T : Type} `{!FuseBody T}.
Context (lay : list nat) (fields : T -> list field).

(** A body read and written by its fields alone. *)
Definition plain_body_laws (decode : bytes -> T)
    (Hread : forall buf,
       body_from_bytes buf = checked_read (body_len (T := T)) (fun buf => Ok (decode buf)) buf)
    (Hwrite : forall b,
       body_write_to b = checked_write (body_len (T := T)) (sm_modify (stores (place 0 (fields b)))))
    (Hlen : body_len (T := T) = Z.of_nat (sum_list lay))
    (Hto : forall b : T, body_to_bytes b = snd (body_write_to b (replicate (sum_list lay) Byte.x00)))
    (Hlay : forall b, (fields b).*1 = lay)
    (Hdecode : forall buf, fields (decode buf) = read_fields 0 lay buf)
    (Hinj : forall b b', fields b = fields b' -> b = b') : FuseBodyLaws T.
Proof.
  refine {| layout := lay; body_fields := fields |}; try done.
  - intros buf Hs. rewrite Hread. unfold checked_read. case_if; [done|lia].
  - intros buf Hl. rewrite Hread. unfold checked_read. case_if; [lia|eauto].
  - intros b buf Hs. rewrite Hwrite. unfold checked_write. case_if; [done|lia].
  - intros b buf Hl. rewrite Hwrite. unfold checked_write. case_if; [lia|].
    unfold mbind, sm_bind, sm_modify. by rewrite stores_place, Hlay.
Defined.

(** A body that ends with a nested one, read from and written through the
    window it occupies. *)
Context {A : Type} `{!FuseBody A, !FuseBodyLaws A}.

Definition nested_body_laws (head : list nat) (own : T -> list field) (sub : T -> A)
    (build : bytes -> A -> T)
    (Hread : forall buf,
       body_from_bytes buf = checked_read (body_len (T := T)) (fun buf =>
         a ← body_from_bytes (slice buf (sum_list head) (Z.to_nat (body_len (T := A))));
         Ok (build buf a)) buf)
    (Hwrite : forall b,
       body_write_to b = checked_write (body_len (T := T)) (fun buf =>
         let buf := stores (place 0 (own b)) buf in
         let '(r, part) :=
           body_write_to (sub b) (slice buf (sum_list head) (Z.to_nat (body_len (T := A)))) in
         ((fun _ => tt) <$> r, splice buf (sum_list head) part)))
    (Hfields : forall b, fields b = own b ++ body_fields (sub b))
    (Hlay : lay = head ++ layout (T := A))
    (Hlen : body_len (T := T) = Z.of_nat (sum_list lay))
    (Hto : forall b : T, body_to_bytes b = snd (body_write_to b (replicate (sum_list lay) Byte.x00)))
    (Hown : forall b, (own b).*1 = head)
    (Hbuild : forall buf a, own (build buf a) = read_fields 0 head buf /\ sub (build buf a) = a)
    (Hinj : forall b b', own b = own b' -> sub b = sub b' -> b = b') : FuseBodyLaws T.
Proof.
  assert (Hsum : sum_list lay = (sum_list head + Z.to_nat (body_len (T := A)))%nat).
  { rewrite Hlay, sum_list_with_app, body_len_layout, Nat2Z.id. done. }
  assert (Hn : Z.of_nat (Z.to_nat (body_len (T := A))) = body_len (T := A)).
  { rewrite body_len_layout. lia. }
  refine {| layout := lay; body_fields := fields |}; try done.
  - intros b. by rewrite Hfields, fmap_app, Hown, body_fields_layout.
  - intros b b'. rewrite !Hfields. intros Heq.
    apply app_inj_1 in Heq as [Ho Hs].
    + apply Hinj; [done|]. by apply body_fields_inj.
    + apply (f_equal (fmap fst)) in Heq. rewrite <- !(length_fmap fst). by rewrite !Hown.
  - intros buf Hs. rewrite Hread. unfold checked_read. case_if; [done|lia].
  - intros buf Hl. rewrite Hread. unfold checked_read. case_if; [lia|].
    destruct (body_read (T := A) (slice buf (sum_list head) (Z.to_nat (body_len (T := A)))))
      as (a & Ha & Hfa).
    { unfold zlen in *. rewrite slice_length; lia. }
    rewrite Ha. eexists. split; [done|]. destruct (Hbuild buf a) as [Hb1 Hb2].
    rewrite Hfields, Hb1, Hb2, Hfa, Hlay, read_fields_app. f_equal.
    rewrite read_fields_slice; [by rewrite Nat.add_0_r|]. rewrite body_len_layout. lia.
  - intros b buf Hs. rewrite Hwrite. unfold checked_write. case_if; [done|lia].
  - intros b buf Hl. rewrite Hwrite. unfold checked_write. case_if; [lia|].
    unfold mbind, sm_bind. cbn zeta. rewrite stores_place, Hown.
    assert (Hlb : (length (drop (sum_list head) buf) >= Z.to_nat (body_len (T := A)))%nat).
    { unfold zlen in *. rewrite length_drop. lia. }
    rewrite body_write.
    2: { unfold zlen. rewrite slice_length; [lia|]. rewrite length_app, encode_length, Hown. lia. }
    cbn [fst snd fmap result_fmap mret sm_ret]. f_equal. rewrite Hfields, encode_app.
    rewrite slice_app_r, encode_length, Hown, Nat.sub_diag by (by rewrite encode_length, Hown).
    rewrite (drop_ge (slice _ _ _)), app_nil_r.
    2: { rewrite slice_length by lia. rewrite body_len_layout. lia. }
    rewrite splice_app by (by rewrite encode_length, Hown).
    by rewrite encode_length, body_fields_layout, drop_drop, <- sum_list_with_app, <- Hlay, <- app_assoc.
Defined.
End PlainBody.

(** Arrays of words, as the loops over [unused] and [spare] place them. *)
Lemma place_words base (ws : list Z) :
  place base (wid 4 <$> ws) = imap (fun i w => fld (base + 4 * i) 4 w) ws.
Proof.
  revert base. induction ws as [|w ws IH]; intros base; [done|].
  cbn [fmap list_fmap place wid imap]. unfold fld at 1. f_equal; [f_equal; f_equal; lia|].
  rewrite IH. apply imap_ext. intros i x _. simpl. unfold fld. do 2 f_equal. lia.
Qed.

Lemma wid_words_widths (ws : list Z) : (wid 4 <$> ws).*1 = replicate (length ws) 4%nat.
Proof. induction ws as [|w ws IH]; [done|]. simpl. f_equal. apply IH. Qed.

Lemma wid_words_inj (ws ws' : list Z) : wid 4 <$> ws = wid 4 <$> ws' -> ws = ws'.
Proof. apply list_fmap_eq_inj. by intros ? ? [= ->]. Qed.

(** ** Opcodes *)

Module FuseOpcode.
Inductive t : Type :=
| Lookup | Forget | Getattr | Setattr | Readlink | Symlink | Mknod | Mkdir
| Unlink | Rmdir | Rename | Link | Open | Read | Write | Statfs
| Release | Fsync | Flush | Init | Opendir | Readdir | Releasedir | Destroy.

#[global] Instance eq_dec : EqDecision t.
Proof. solve_decision. Defined.

Definition from_raw (raw : Z) : result FuseError t :=
  match raw with
  | 1 => Ok Lookup
  | 2 => Ok Forget
  | 3 => Ok Getattr
  | 4 => Ok Setattr
  | 5 => Ok Readlink
  | 6 => Ok Symlink
  | 8 => Ok Mknod
  | 9 => Ok Mkdir
  | 10 => Ok Unlink
  | 11 => Ok Rmdir
  | 12 => Ok Rename
  | 13 => Ok Link
  | 14 => Ok Open
  | 15 => Ok Read
  | 16 => Ok Write
  | 17 => Ok Statfs
  | 18 => Ok Release
  | 20 => Ok Fsync
  | 25 => Ok Flush
  | 26 => Ok Init
  | 27 => Ok Opendir
  | 28 => Ok Readdir
  | 29 => Ok Releasedir
  | 38 => Ok Destroy
  | other => Err (UnknownOpcode other)
  end.

(** [self as u32]: the discriminants of the enum. *)
Definition as_raw (op : t) : Z :=
  match op with
  | Lookup => 1 | Forget => 2 | Getattr => 3 | Setattr => 4 | Readlink => 5 | Symlink => 6
  | Mknod => 8 | Mkdir => 9 | Unlink => 10 | Rmdir => 11 | Rename => 12 | Link => 13
  | Open => 14 | Read => 15 | Write => 16 | Statfs => 17 | Release => 18 | Fsync => 20
  | Flush => 25 | Init => 26 | Opendir => 27 | Readdir => 28 | Releasedir => 29 | Destroy => 38
  end.

Lemma from_as_raw op : from_raw (as_raw op) = Ok op.
Proof. by destruct op. Qed.

Lemma from_raw_cases raw :
  (exists op, from_raw raw = Ok op /\ as_raw op = raw) \/ from_raw raw = Err (UnknownOpcode raw).
Proof.
  destruct (from_raw raw) as [op|e] eqn:Hr; unfold from_raw in Hr;
    repeat case_match; simplify_eq; eauto.
Qed.
End FuseOpcode.

(** ** The request header *)

Module FuseInHeader.
Record t : Type := mk {
  len : Z;
  opcode : FuseOpcode.t;
  unique : Z;
  nodeid : Z;
  uid : Z;
  gid : Z;
  pid : Z;
  total_extlen : Z;
  padding : Z;
}.

Definition from_bytes : bytes -> result FuseError t :=
  checked_read FUSE_IN_HDR_LEN (fun buf =>
    let len := get buf 0 4 in
    let opcode_raw := get buf 4 4 in
    let unique := get buf 8 8 in
    let nodeid := get buf 16 8 in
    let uid := get buf 24 4 in
    let gid := get buf 28 4 in
    let pid := get buf 32 4 in
    let total_extlen := get buf 36 2 in
    let padding := get buf 38 2 in
    opcode ← FuseOpcode.from_raw opcode_raw;
    Ok (mk len opcode unique nodeid uid gid pid total_extlen padding)).

Definition write_to (h : t) : SM bytes FuseError Z :=
  checked_write FUSE_IN_HDR_LEN (sm_modify (stores
    [ fld 0 4 (len h); fld 4 4 (FuseOpcode.as_raw (opcode h));
      fld 8 8 (unique h); fld 16 8 (nodeid h); fld 24 4 (uid h);
      fld 28 4 (gid h); fld 32 4 (pid h); fld 36 2 (total_extlen h);
      fld 38 2 (padding h) ])).

(** The write into a buffer of the right size cannot fail ([in_write_to_ok]). *)
Definition to_bytes (h : t) : bytes :=
  snd (write_to h (replicate (Z.to_nat FUSE_IN_HDR_LEN) Byte.x00)).

Definition fields (h : t) : list field :=
  [ wid 4 (len h); wid 4 (FuseOpcode.as_raw (opcode h)); wid 8 (unique h);
    wid 8 (nodeid h); wid 4 (uid h); wid 4 (gid h); wid 4 (pid h);
    wid 2 (total_extlen h); wid 2 (padding h) ].

Definition wf (h : t) : Prop := fits (fields h).

Lemma in_write_to_ok h buf :
  FUSE_IN_HDR_LEN <= zlen buf ->
  write_to h buf = (Ok FUSE_IN_HDR_LEN, encode (fields h) ++ drop 40 buf).
Proof.
  intros Hl. unfold write_to, checked_write. case_if; [lia|].
  unfold mbind, sm_bind, sm_modify. by rewrite (stores_place (fields h)).
Qed.

Lemma in_to_bytes_encode h : to_bytes h = encode (fields h).
Proof. unfold to_bytes. rewrite in_write_to_ok; [apply app_nil_r|done]. Qed.

Lemma in_decode_encode h rest : wf h -> from_bytes (to_bytes h ++ rest) = Ok h.
Proof.
  intros Hf. rewrite in_to_bytes_encode. unfold from_bytes, checked_read. case_if.
  { unfold zlen, FUSE_IN_HDR_LEN in *. rewrite length_app, encode_length in *. simpl in *. lia. }
  pose proof (read_fields_encode _ rest Hf) as Hr.
  set (buf := encode (fields h) ++ rest) in *. clearbody buf. cbn in Hr. cbn zeta.
  simplify_eq Hr. intros -> -> -> -> -> -> -> -> ->.
  rewrite FuseOpcode.from_as_raw. by destruct h.
Qed.

Lemma in_encode_decode buf h :
  from_bytes buf = Ok h -> wf h /\ to_bytes h = take 40 buf.
Proof.
  unfold from_bytes, checked_read. case_if; [done|]. cbn zeta.
  destruct (FuseOpcode.from_raw_cases (get buf 4 4)) as [(op & -> & Hop)| ->]; [|done].
  intros [= <-]. unfold zlen, FUSE_IN_HDR_LEN in *.
  assert (Hfs : fields {| len := get buf 0 4; opcode := op; unique := get buf 8 8;
      nodeid := get buf 16 8; uid := get buf 24 4; gid := get buf 28 4; pid := get buf 32 4;
      total_extlen := get buf 36 2; padding := get buf 38 2 |}
    = read_fields 0 [4;4;8;8;4;4;4;2;2]%nat buf).
  { unfold fields. simpl. by rewrite Hop. }
  split; [unfold wf; rewrite Hfs; apply read_fields_fits; simpl; lia|].
  rewrite in_to_bytes_encode, Hfs, encode_read_fields by (simpl; lia). apply slice_from_0.
Qed.
End FuseInHeader.

(** ** The response header *)

Module FuseOutHeader.
Record t : Type := mk { len : Z; error : Z; unique : Z }.

Definition ok (unique body_len : Z) : t := mk (wrap32 (FUSE_OUT_HDR_LEN + body_len)) 0 unique.

(** [-(errno as i32)], which wraps at [i32::MIN]. *)
Definition err (unique errno : Z) : t := mk FUSE_OUT_HDR_LEN (as_i32 (- as_i32 errno)) unique.

Definition from_bytes : bytes -> result FuseError t :=
  checked_read FUSE_OUT_HDR_LEN (fun buf =>
    Ok (mk (get buf 0 4) (as_i32 (get buf 4 4)) (get buf 8 8))).

Definition write_to (h : t) : SM bytes FuseError Z :=
  checked_write FUSE_OUT_HDR_LEN (sm_modify (stores
    [ fld 0 4 (len h); fld 4 4 (error h); fld 8 8 (unique h) ])).

Definition to_bytes (h : t) : bytes :=
  snd (write_to h (replicate (Z.to_nat FUSE_OUT_HDR_LEN) Byte.x00)).

Definition is_error (h : t) : bool := negb (error h =? 0).

Definition wf (h : t) : Prop := is_u32 (len h) /\ is_i32 (error h) /\ is_u64 (unique h).

(** The error field is stored in two's complement. *)
Definition fields (h : t) : list field :=
  [ wid 4 (len h); wid 4 (wrap32 (error h)); wid 8 (unique h) ].

Lemma to_le_wrap32 z : to_le 4 (wrap32 z) = to_le 4 z.
Proof.
  unfold wrap32. change (2 ^ 32) with (2 ^ (Z.of_nat 4 * 8)). rewrite <- from_to_le.
  apply to_from_le, to_le_length.
Qed.

Lemma out_write_to_ok h buf :
  FUSE_OUT_HDR_LEN <= zlen buf ->
  write_to h buf = (Ok FUSE_OUT_HDR_LEN, encode (fields h) ++ drop 16 buf).
Proof.
  intros Hl. unfold write_to, checked_write. case_if; [lia|].
  unfold mbind, sm_bind, sm_modify. rewrite <- (stores_place (fields h)).
  unfold stores. simpl. by rewrite to_le_wrap32.
Qed.

Lemma out_to_bytes_encode h : to_bytes h = encode (fields h).
Proof. unfold to_bytes. rewrite out_write_to_ok; [apply app_nil_r|done]. Qed.

Lemma to_bytes_length h : length (to_bytes h) = 16%nat.
Proof. by rewrite out_to_bytes_encode, encode_length. Qed.

Lemma as_i32_wrap32 z : is_i32 z -> as_i32 (wrap32 z) = z.
Proof. unfold as_i32, is_i32. change (2 ^ 31) with 2147483648. ulia. Qed.

Lemma out_decode_encode h rest : wf h -> from_bytes (to_bytes h ++ rest) = Ok h.
Proof.
  intros (Hl & He & Hu). rewrite out_to_bytes_encode. unfold from_bytes, checked_read. case_if.
  { unfold zlen, FUSE_OUT_HDR_LEN in *. rewrite length_app, encode_length in *. simpl in *. lia. }
  assert (Hf : fits (fields h)).
  { repeat constructor; simpl; ulia. }
  pose proof (read_fields_encode _ rest Hf) as Hr.
  set (buf := encode (fields h) ++ rest) in *. clearbody buf. cbn in Hr.
  simplify_eq Hr. intros -> -> ->. rewrite as_i32_wrap32 by done. by destruct h.
Qed.
End FuseOutHeader.
