(* ===== verification/FuseBody.v ===== *)
(** * virtio-fs: request and response bodies

    Models [crates/virtio-fs/src/body.rs]. One module per body, with the field
    offsets of its [from_bytes] and [write_to]; each is an instance of
    [FuseBodyLaws], which gives its codec theorem. *)

From stdpp Require Import vector.
From S2P Require Import Prelude FuseWire.

(** The laws of a body of plain fields hold by computation. *)
Ltac plain_laws lay fields :=
  eapply (plain_body_laws lay fields);
    [ by intros | by intros | done | done | done | done | by intros [] [] [=]; subst ].

Definition FUSE_INIT_IN_LEN : Z := 16.

Module FuseInitIn.
Record t : Type := mk {
  major : Z;
  minor : Z;
  max_readahead : Z;
  flags : Z;
}.

Definition from_bytes : bytes -> result FuseError t :=
  checked_read FUSE_INIT_IN_LEN (fun buf => Ok {|
      major := get buf 0 4;
      minor := get buf 4 4;
      max_readahead := get buf 8 4;
      flags := get buf 12 4;
  |}).

Definition write_to (h : t) : SM bytes FuseError Z :=
  checked_write FUSE_INIT_IN_LEN (sm_modify (stores
    [ fld 0 4 (major h); fld 4 4 (minor h); fld 8 4 (max_readahead h); fld 12 4 (flags h) ])).

Definition to_bytes (h : t) : bytes :=
  snd (write_to h (replicate (Z.to_nat FUSE_INIT_IN_LEN) Byte.x00)).

Definition fields (h : t) : list field :=
  [ wid 4 (major h); wid 4 (minor h); wid 4 (max_readahead h); wid 4 (flags h) ].

#[global] Instance body : FuseBody t := {|
  body_len := FUSE_INIT_IN_LEN; body_from_bytes := from_bytes; body_write_to := write_to;
  body_to_bytes := to_bytes |}.

#[global] Instance laws : FuseBodyLaws t.
Proof. plain_laws [4; 4; 4; 4]%nat fields. Defined.
End FuseInitIn.

(** A trailing array of words is placed word by word. *)
Ltac words_laws lay fields :=
  eapply (plain_body_laws lay fields);
    [ by intros
    | intros b; unfold fields; rewrite place_app, place_words; reflexivity
    | done | done
    | intros b; unfold fields; rewrite fmap_app, wid_words_widths, length_vec_to_list; done
    | done
    | intros [] []; unfold fields; simpl; intros Heq; simplify_eq Heq; intros;
      repeat match goal with
      | H : wid 4 <$> _ = wid 4 <$> _ |- _ => apply wid_words_inj, vec_to_list_inj2 in H
      end; congruence ].

Definition FUSE_INIT_OUT_LEN : Z := 64.

Module FuseInitOut.
Record t : Type := mk {
  major : Z;
  minor : Z;
  max_readahead : Z;
  flags : Z;
  max_background : Z;
  congestion_threshold : Z;
  max_write : Z;
  time_gran : Z;
  max_pages : Z;
  map_alignment : Z;
  flags2 : Z;
  unused : vec Z 7;
}.

Definition minimal (major_ minor_ max_readahead_ flags_ max_write_ : Z) : t := {|
  major := major_;
  minor := minor_;
  max_readahead := max_readahead_;
  flags := flags_;
  max_background := 0;
  congestion_threshold := 0;
  max_write := max_write_;
  time_gran := 1;
  max_pages := 0;
  map_alignment := 0;
  flags2 := 0;
  unused := vreplicate 7 0;
|}.

Definition from_bytes : bytes -> result FuseError t :=
  checked_read FUSE_INIT_OUT_LEN (fun buf => Ok {|
      major := get buf 0 4;
      minor := get buf 4 4;
      max_readahead := get buf 8 4;
      flags := get buf 12 4;
      max_background := get buf 16 2;
      congestion_threshold := get buf 18 2;
      max_write := get buf 20 4;
      time_gran := get buf 24 4;
      max_pages := get buf 28 2;
      map_alignment := get buf 30 2;
      flags2 := get buf 32 4;
      unused := fun_to_vec (fun i : fin 7 => get buf (36 + 4 * i) 4);
  |}).

Definition write_to (h : t) : SM bytes FuseError Z :=
  checked_write FUSE_INIT_OUT_LEN (sm_modify (stores (
    [ fld 0 4 (major h); fld 4 4 (minor h); fld 8 4 (max_readahead h); fld 12 4 (flags h);
      fld 16 2 (max_background h); fld 18 2 (congestion_threshold h);
      fld 20 4 (max_write h); fld 24 4 (time_gran h); fld 28 2 (max_pages h);
      fld 30 2 (map_alignment h); fld 32 4 (flags2 h) ] ++
    imap (fun i w => fld (36 + 4 * i) 4 w) (unused h)))).

Definition to_bytes (h : t) : bytes :=
  snd (write_to h (replicate (Z.to_nat FUSE_INIT_OUT_LEN) Byte.x00)).

Definition fields (h : t) : list field :=
  [ wid 4 (major h); wid 4 (minor h); wid 4 (max_readahead h); wid 4 (flags h);
    wid 2 (max_background h); wid 2 (congestion_threshold h); wid 4 (max_write h);
    wid 4 (time_gran h); wid 2 (max_pages h); wid 2 (map_alignment h); wid 4 (flags2 h) ] ++
  (wid 4 <$> vec_to_list (unused h)).

#[global] Instance body : FuseBody t := {|
  body_len := FUSE_INIT_OUT_LEN; body_from_bytes := from_bytes; body_write_to := write_to;
  body_to_bytes := to_bytes |}.

#[global] Instance laws : FuseBodyLaws t.
Proof. words_laws ([4; 4; 4; 4; 2; 2; 4; 4; 2; 2; 4]%nat ++ replicate 7 4%nat) fields. Defined.
End FuseInitOut.

Definition FUSE_ATTR_LEN : Z := 88.

Module FuseAttr.
Record t : Type := mk {
  ino : Z;
  size : Z;
  blocks : Z;
  atime : Z;
  mtime : Z;
  ctime : Z;
  atimensec : Z;
  mtimensec : Z;
  ctimensec : Z;
  mode : Z;
  nlink : Z;
  uid : Z;
  gid : Z;
  rdev : Z;
  blksize : Z;
  flags : Z;
}.

Definition from_bytes : bytes -> result FuseError t :=
  checked_read FUSE_ATTR_LEN (fun buf => Ok {|
      ino := get buf 0 8;
      size := get buf 8 8;
      blocks := get buf 16 8;
      atime := get buf 24 8;
      mtime := get buf 32 8;
      ctime := get buf 40 8;
      atimensec := get buf 48 4;
      mtimensec := get buf 52 4;
      ctimensec := get buf 56 4;
      mode := get buf 60 4;
      nlink := get buf 64 4;
      uid := get buf 68 4;
      gid := get buf 72 4;
      rdev := get buf 76 4;
      blksize := get buf 80 4;
      flags := get buf 84 4;
  |}).

Definition write_to (h : t) : SM bytes FuseError Z :=
  checked_write FUSE_ATTR_LEN (sm_modify (stores
    [ fld 0 8 (ino h); fld 8 8 (size h); fld 16 8 (blocks h); fld 24 8 (atime h);
      fld 32 8 (mtime h); fld 40 8 (ctime h); fld 48 4 (atimensec h);
      fld 52 4 (mtimensec h); fld 56 4 (ctimensec h); fld 60 4 (mode h); fld 64 4 (nlink h);
      fld 68 4 (uid h); fld 72 4 (gid h); fld 76 4 (rdev h); fld 80 4 (blksize h);
      fld 84 4 (flags h) ])).

Definition to_bytes (h : t) : bytes :=
  snd (write_to h (replicate (Z.to_nat FUSE_ATTR_LEN) Byte.x00)).

Definition fields (h : t) : list field :=
  [ wid 8 (ino h); wid 8 (size h); wid 8 (blocks h); wid 8 (atime h); wid 8 (mtime h);
    wid 8 (ctime h); wid 4 (atimensec h); wid 4 (mtimensec h); wid 4 (ctimensec h);
    wid 4 (mode h); wid 4 (nlink h); wid 4 (uid h); wid 4 (gid h); wid 4 (rdev h);
    wid 4 (blksize h); wid 4 (flags h) ].

#[global] Instance body : FuseBody t := {|
  body_len := FUSE_ATTR_LEN; body_from_bytes := from_bytes; body_write_to := write_to;
  body_to_bytes := to_bytes |}.

#[global] Instance laws : FuseBodyLaws t.
Proof. plain_laws [8; 8; 8; 8; 8; 8; 4; 4; 4; 4; 4; 4; 4; 4; 4; 4]%nat fields. Defined.
End FuseAttr.

(** A trailing [FuseAttr]. *)
Ltac attr_laws head fields own attr :=
  eapply (nested_body_laws (head ++ layout (T := FuseAttr.t)) fields head own attr);
    [ by intros | by intros | done | done | done | done | done | done
    | by intros [] [] [=]; simpl; intros; subst ].

Definition FUSE_ENTRY_OUT_LEN : Z := 128.

Module FuseEntryOut.
Record t : Type := mk {
  nodeid : Z;
  generation : Z;
  entry_valid : Z;
  attr_valid : Z;
  entry_valid_nsec : Z;
  attr_valid_nsec : Z;
  attr : FuseAttr.t;
}.

Definition from_bytes : bytes -> result FuseError t :=
  checked_read FUSE_ENTRY_OUT_LEN (fun buf =>
    attr ← FuseAttr.from_bytes (slice buf 40 (Z.to_nat FUSE_ATTR_LEN));
    Ok {|
      nodeid := get buf 0 8;
      generation := get buf 8 8;
      entry_valid := get buf 16 8;
      attr_valid := get buf 24 8;
      entry_valid_nsec := get buf 32 4;
      attr_valid_nsec := get buf 36 4;
      attr := attr;
    |}).

Definition write_to (h : t) : SM bytes FuseError Z :=
  checked_write FUSE_ENTRY_OUT_LEN (fun buf =>
    let buf := stores
    [ fld 0 8 (nodeid h); fld 8 8 (generation h); fld 16 8 (entry_valid h);
      fld 24 8 (attr_valid h); fld 32 4 (entry_valid_nsec h); fld 36 4 (attr_valid_nsec h) ] buf in
    let '(r, sub) := FuseAttr.write_to (attr h) (slice buf 40 (Z.to_nat FUSE_ATTR_LEN)) in
    ((fun _ => tt) <$> r, splice buf 40 sub)).

Definition to_bytes (h : t) : bytes :=
  snd (write_to h (replicate (Z.to_nat FUSE_ENTRY_OUT_LEN) Byte.x00)).

Definition own (h : t) : list field :=
  [ wid 8 (nodeid h); wid 8 (generation h); wid 8 (entry_valid h); wid 8 (attr_valid h);
    wid 4 (entry_valid_nsec h); wid 4 (attr_valid_nsec h) ].

Definition fields (h : t) : list field := own h ++ FuseAttr.fields (attr h).

#[global] Instance body : FuseBody t := {|
  body_len := FUSE_ENTRY_OUT_LEN; body_from_bytes := from_bytes; body_write_to := write_to;
  body_to_bytes := to_bytes |}.

#[global] Instance laws : FuseBodyLaws t.
Proof. attr_laws [8; 8; 8; 8; 4; 4]%nat fields own attr. Defined.
End FuseEntryOut.

Definition FUSE_OPEN_IN_LEN : Z := 8.

Module FuseOpenIn.
Record t : Type := mk {
  flags : Z;
  open_flags : Z;
}.

Definition from_bytes : bytes -> result FuseError t :=
  checked_read FUSE_OPEN_IN_LEN (fun buf => Ok {|
      flags := get buf 0 4;
      open_flags := get buf 4 4;
  |}).

Definition write_to (h : t) : SM bytes FuseError Z :=
  checked_write FUSE_OPEN_IN_LEN (sm_modify (stores
    [ fld 0 4 (flags h); fld 4 4 (open_flags h) ])).

Definition to_bytes (h : t) : bytes :=
  snd (write_to h (replicate (Z.to_nat FUSE_OPEN_IN_LEN) Byte.x00)).

Definition fields (h : t) : list field :=
  [ wid 4 (flags h); wid 4 (open_flags h) ].

#[global] Instance body : FuseBody t := {|
  body_len := FUSE_OPEN_IN_LEN; body_from_bytes := from_bytes; body_write_to := write_to;
  body_to_bytes := to_bytes |}.

#[global] Instance laws : FuseBodyLaws t.
Proof. plain_laws [4; 4]%nat fields. Defined.
End FuseOpenIn.

Definition FUSE_OPEN_OUT_LEN : Z := 16.

Module FuseOpenOut.
Record t : Type := mk {
  fh : Z;
  open_flags : Z;
  padding : Z;
}.

Definition from_bytes : bytes -> result FuseError t :=
  checked_read FUSE_OPEN_OUT_LEN (fun buf => Ok {|
      fh := get buf 0 8;
      open_flags := get buf 8 4;
      padding := get buf 12 4;
  |}).

Definition write_to (h : t) : SM bytes FuseError Z :=
  checked_write FUSE_OPEN_OUT_LEN (sm_modify (stores
    [ fld 0 8 (fh h); fld 8 4 (open_flags h); fld 12 4 (padding h) ])).

Definition to_bytes (h : t) : bytes :=
  snd (write_to h (replicate (Z.to_nat FUSE_OPEN_OUT_LEN) Byte.x00)).

Definition fields (h : t) : list field :=
  [ wid 8 (fh h); wid 4 (open_flags h); wid 4 (padding h) ].

#[global] Instance body : FuseBody t := {|
  body_len := FUSE_OPEN_OUT_LEN; body_from_bytes := from_bytes; body_write_to := write_to;
  body_to_bytes := to_bytes |}.

#[global] Instance laws : FuseBodyLaws t.
Proof. plain_laws [8; 4; 4]%nat fields. Defined.
End FuseOpenOut.

Definition FUSE_READ_IN_LEN : Z := 40.

Module FuseReadIn.
Record t : Type := mk {
  fh : Z;
  offset : Z;
  size : Z;
  read_flags : Z;
  lock_owner : Z;
  flags : Z;
  padding : Z;
}.

Definition from_bytes : bytes -> result FuseError t :=
  checked_read FUSE_READ_IN_LEN (fun buf => Ok {|
      fh := get buf 0 8;
      offset := get buf 8 8;
      size := get buf 16 4;
      read_flags := get buf 20 4;
      lock_owner := get buf 24 8;
      flags := get buf 32 4;
      padding := get buf 36 4;
  |}).

Definition write_to (h : t) : SM bytes FuseError Z :=
  checked_write FUSE_READ_IN_LEN (sm_modify (stores
    [ fld 0 8 (fh h); fld 8 8 (offset h); fld 16 4 (size h); fld 20 4 (read_flags h);
      fld 24 8 (lock_owner h); fld 32 4 (flags h); fld 36 4 (padding h) ])).

Definition to_bytes (h : t) : bytes :=
  snd (write_to h (replicate (Z.to_nat FUSE_READ_IN_LEN) Byte.x00)).

Definition fields (h : t) : list field :=
  [ wid 8 (fh h); wid 8 (offset h); wid 4 (size h); wid 4 (read_flags h);
    wid 8 (lock_owner h); wid 4 (flags h); wid 4 (padding h) ].

#[global] Instance body : FuseBody t := {|
  body_len := FUSE_READ_IN_LEN; body_from_bytes := from_bytes; body_write_to := write_to;
  body_to_bytes := to_bytes |}.

#[global] Instance laws : FuseBodyLaws t.
Proof. plain_laws [8; 8; 4; 4; 8; 4; 4]%nat fields. Defined.
End FuseReadIn.

Definition FUSE_WRITE_IN_LEN : Z := 40.

Module FuseWriteIn.
Record t : Type := mk {
  fh : Z;
  offset : Z;
  size : Z;
  write_flags : Z;
  lock_owner : Z;
  flags : Z;
  padding : Z;
}.

Definition from_bytes : bytes -> result FuseError t :=
  checked_read FUSE_WRITE_IN_LEN (fun buf => Ok {|
      fh := get buf 0 8;
      offset := get buf 8 8;
      size := get buf 16 4;
      write_flags := get buf 20 4;
      lock_owner := get buf 24 8;
      flags := get buf 32 4;
      padding := get buf 36 4;
  |}).

Definition write_to (h : t) : SM bytes FuseError Z :=
  checked_write FUSE_WRITE_IN_LEN (sm_modify (stores
    [ fld 0 8 (fh h); fld 8 8 (offset h); fld 16 4 (size h); fld 20 4 (write_flags h);
      fld 24 8 (lock_owner h); fld 32 4 (flags h); fld 36 4 (padding h) ])).

Definition to_bytes (h : t) : bytes :=
  snd (write_to h (replicate (Z.to_nat FUSE_WRITE_IN_LEN) Byte.x00)).

Definition fields (h : t) : list field :=
  [ wid 8 (fh h); wid 8 (offset h); wid 4 (size h); wid 4 (write_flags h);
    wid 8 (lock_owner h); wid 4 (flags h); wid 4 (padding h) ].

#[global] Instance body : FuseBody t := {|
  body_len := FUSE_WRITE_IN_LEN; body_from_bytes := from_bytes; body_write_to := write_to;
  body_to_bytes := to_bytes |}.

#[global] Instance laws : FuseBodyLaws t.
Proof. plain_laws [8; 8; 4; 4; 8; 4; 4]%nat fields. Defined.
End FuseWriteIn.

Definition FUSE_WRITE_OUT_LEN : Z := 8.

Module FuseWriteOut.
Record t : Type := mk {
  size : Z;
  padding : Z;
}.

Definition from_bytes : bytes -> result FuseError t :=
  checked_read FUSE_WRITE_OUT_LEN (fun buf => Ok {|
      size := get buf 0 4;
      padding := get buf 4 4;
  |}).

Definition write_to (h : t) : SM bytes FuseError Z :=
  checked_write FUSE_WRITE_OUT_LEN (sm_modify (stores
    [ fld 0 4 (size h); fld 4 4 (padding h) ])).

Definition to_bytes (h : t) : bytes :=
  snd (write_to h (replicate (Z.to_nat FUSE_WRITE_OUT_LEN) Byte.x00)).

Definition fields (h : t) : list field :=
  [ wid 4 (size h); wid 4 (padding h) ].

#[global] Instance body : FuseBody t := {|
  body_len := FUSE_WRITE_OUT_LEN; body_from_bytes := from_bytes; body_write_to := write_to;
  body_to_bytes := to_bytes |}.

#[global] Instance laws : FuseBodyLaws t.
Proof. plain_laws [4; 4]%nat fields. Defined.
End FuseWriteOut.

Definition FUSE_FLUSH_IN_LEN : Z := 24.

Module FuseFlushIn.
Record t : Type := mk {
  fh : Z;
  unused : Z;
  padding : Z;
  lock_owner : Z;
}.

Definition from_bytes : bytes -> result FuseError t :=
  checked_read FUSE_FLUSH_IN_LEN (fun buf => Ok {|
      fh := get buf 0 8;
      unused := get buf 8 4;
      padding := get buf 12 4;
      lock_owner := get buf 16 8;
  |}).

Definition write_to (h : t) : SM bytes FuseError Z :=
  checked_write FUSE_FLUSH_IN_LEN (sm_modify (stores
    [ fld 0 8 (fh h); fld 8 4 (unused h); fld 12 4 (padding h); fld 16 8 (lock_owner h) ])).

Definition to_bytes (h : t) : bytes :=
  snd (write_to h (replicate (Z.to_nat FUSE_FLUSH_IN_LEN) Byte.x00)).

Definition fields (h : t) : list field :=
  [ wid 8 (fh h); wid 4 (unused h); wid 4 (padding h); wid 8 (lock_owner h) ].

#[global] Instance body : FuseBody t := {|
  body_len := FUSE_FLUSH_IN_LEN; body_from_bytes := from_bytes; body_write_to := write_to;
  body_to_bytes := to_bytes |}.

#[global] Instance laws : FuseBodyLaws t.
Proof. plain_laws [8; 4; 4; 8]%nat fields. Defined.
End FuseFlushIn.

Definition FUSE_RELEASE_IN_LEN : Z := 24.

Module FuseReleaseIn.
Record t : Type := mk {
  fh : Z;
  flags : Z;
  release_flags : Z;
  lock_owner : Z;
}.

Definition from_bytes : bytes -> result FuseError t :=
  checked_read FUSE_RELEASE_IN_LEN (fun buf => Ok {|
      fh := get buf 0 8;
      flags := get buf 8 4;
      release_flags := get buf 12 4;
      lock_owner := get buf 16 8;
  |}).

Definition write_to (h : t) : SM bytes FuseError Z :=
  checked_write FUSE_RELEASE_IN_LEN (sm_modify (stores
    [ fld 0 8 (fh h); fld 8 4 (flags h); fld 12 4 (release_flags h); fld 16 8 (lock_owner h) ])).

Definition to_bytes (h : t) : bytes :=
  snd (write_to h (replicate (Z.to_nat FUSE_RELEASE_IN_LEN) Byte.x00)).

Definition fields (h : t) : list field :=
  [ wid 8 (fh h); wid 4 (flags h); wid 4 (release_flags h); wid 8 (lock_owner h) ].

#[global] Instance body : FuseBody t := {|
  body_len := FUSE_RELEASE_IN_LEN; body_from_bytes := from_bytes; body_write_to := write_to;
  body_to_bytes := to_bytes |}.

#[global] Instance laws : FuseBodyLaws t.
Proof. plain_laws [8; 4; 4; 8]%nat fields. Defined.
End FuseReleaseIn.

Definition FUSE_FORGET_IN_LEN : Z := 8.

Module FuseForgetIn.
Record t : Type := mk {
  nlookup : Z;
}.

Definition from_bytes : bytes -> result FuseError t :=
  checked_read FUSE_FORGET_IN_LEN (fun buf => Ok {|
      nlookup := get buf 0 8;
  |}).

Definition write_to (h : t) : SM bytes FuseError Z :=
  checked_write FUSE_FORGET_IN_LEN (sm_modify (stores
    [ fld 0 8 (nlookup h) ])).

Definition to_bytes (h : t) : bytes :=
  snd (write_to h (replicate (Z.to_nat FUSE_FORGET_IN_LEN) Byte.x00)).

Definition fields (h : t) : list field :=
  [ wid 8 (nlookup h) ].

#[global] Instance body : FuseBody t := {|
  body_len := FUSE_FORGET_IN_LEN; body_from_bytes := from_bytes; body_write_to := write_to;
  body_to_bytes := to_bytes |}.

#[global] Instance laws : FuseBodyLaws t.
Proof. plain_laws [8]%nat fields. Defined.
End FuseForgetIn.

Definition FUSE_GETATTR_IN_LEN : Z := 16.

Module FuseGetattrIn.
Record t : Type := mk {
  getattr_flags : Z;
  dummy : Z;
  fh : Z;
}.

Definition from_bytes : bytes -> result FuseError t :=
  checked_read FUSE_GETATTR_IN_LEN (fun buf => Ok {|
      getattr_flags := get buf 0 4;
      dummy := get buf 4 4;
      fh := get buf 8 8;
  |}).

Definition write_to (h : t) : SM bytes FuseError Z :=
  checked_write FUSE_GETATTR_IN_LEN (sm_modify (stores
    [ fld 0 4 (getattr_flags h); fld 4 4 (dummy h); fld 8 8 (fh h) ])).

Definition to_bytes (h : t) : bytes :=
  snd (write_to h (replicate (Z.to_nat FUSE_GETATTR_IN_LEN) Byte.x00)).

Definition fields (h : t) : list field :=
  [ wid 4 (getattr_flags h); wid 4 (dummy h); wid 8 (fh h) ].

#[global] Instance body : FuseBody t := {|
  body_len := FUSE_GETATTR_IN_LEN; body_from_bytes := from_bytes; body_write_to := write_to;
  body_to_bytes := to_bytes |}.

#[global] Instance laws : FuseBodyLaws t.
Proof. plain_laws [4; 4; 8]%nat fields. Defined.
End FuseGetattrIn.

Definition FUSE_ATTR_OUT_LEN : Z := 16 + FUSE_ATTR_LEN.

Module FuseAttrOut.
Record t : Type := mk {
  attr_valid : Z;
  attr_valid_nsec : Z;
  dummy : Z;
  attr : FuseAttr.t;
}.

Definition from_bytes : bytes -> result FuseError t :=
  checked_read FUSE_ATTR_OUT_LEN (fun buf =>
    attr ← FuseAttr.from_bytes (slice buf 16 (Z.to_nat FUSE_ATTR_LEN));
    Ok {|
      attr_valid := get buf 0 8;
      attr_valid_nsec := get buf 8 4;
      dummy := get buf 12 4;
      attr := attr;
    |}).

Definition write_to (h : t) : SM bytes FuseError Z :=
  checked_write FUSE_ATTR_OUT_LEN (fun buf =>
    let buf := stores
    [ fld 0 8 (attr_valid h); fld 8 4 (attr_valid_nsec h); fld 12 4 (dummy h) ] buf in
    let '(r, sub) := FuseAttr.write_to (attr h) (slice buf 16 (Z.to_nat FUSE_ATTR_LEN)) in
    ((fun _ => tt) <$> r, splice buf 16 sub)).

Definition to_bytes (h : t) : bytes :=
  snd (write_to h (replicate (Z.to_nat FUSE_ATTR_OUT_LEN) Byte.x00)).

Definition own (h : t) : list field :=
  [ wid 8 (attr_valid h); wid 4 (attr_valid_nsec h); wid 4 (dummy h) ].

Definition fields (h : t) : list field := own h ++ FuseAttr.fields (attr h).

#[global] Instance body : FuseBody t := {|
  body_len := FUSE_ATTR_OUT_LEN; body_from_bytes := from_bytes; body_write_to := write_to;
  body_to_bytes := to_bytes |}.

#[global] Instance laws : FuseBodyLaws t.
Proof. attr_laws [8; 4; 4]%nat fields own attr. Defined.
End FuseAttrOut.

Definition FUSE_SETATTR_IN_LEN : Z := 88.

Module FuseSetattrIn.
Record t : Type := mk {
  valid : Z;
  padding : Z;
  fh : Z;
  size : Z;
  lock_owner : Z;
  atime : Z;
  mtime : Z;
  ctime : Z;
  atimensec : Z;
  mtimensec : Z;
  ctimensec : Z;
  mode : Z;
  unused4 : Z;
  uid : Z;
  gid : Z;
  unused5 : Z;
}.

Definition from_bytes : bytes -> result FuseError t :=
  checked_read FUSE_SETATTR_IN_LEN (fun buf => Ok {|
      valid := get buf 0 4;
      padding := get buf 4 4;
      fh := get buf 8 8;
      size := get buf 16 8;
      lock_owner := get buf 24 8;
      atime := get buf 32 8;
      mtime := get buf 40 8;
      ctime := get buf 48 8;
      atimensec := get buf 56 4;
      mtimensec := get buf 60 4;
      ctimensec := get buf 64 4;
      mode := get buf 68 4;
      unused4 := get buf 72 4;
      uid := get buf 76 4;
      gid := get buf 80 4;
      unused5 := get buf 84 4;
  |}).

Definition write_to (h : t) : SM bytes FuseError Z :=
  checked_write FUSE_SETATTR_IN_LEN (sm_modify (stores
    [ fld 0 4 (valid h); fld 4 4 (padding h); fld 8 8 (fh h); fld 16 8 (size h);
      fld 24 8 (lock_owner h); fld 32 8 (atime h); fld 40 8 (mtime h); fld 48 8 (ctime h);
      fld 56 4 (atimensec h); fld 60 4 (mtimensec h); fld 64 4 (ctimensec h);
      fld 68 4 (mode h); fld 72 4 (unused4 h); fld 76 4 (uid h); fld 80 4 (gid h);
      fld 84 4 (unused5 h) ])).

Definition to_bytes (h : t) : bytes :=
  snd (write_to h (replicate (Z.to_nat FUSE_SETATTR_IN_LEN) Byte.x00)).

Definition fields (h : t) : list field :=
  [ wid 4 (valid h); wid 4 (padding h); wid 8 (fh h); wid 8 (size h); wid 8 (lock_owner h);
    wid 8 (atime h); wid 8 (mtime h); wid 8 (ctime h); wid 4 (atimensec h);
    wid 4 (mtimensec h); wid 4 (ctimensec h); wid 4 (mode h); wid 4 (unused4 h);
    wid 4 (uid h); wid 4 (gid h); wid 4 (unused5 h) ].

#[global] Instance body : FuseBody t := {|
  body_len := FUSE_SETATTR_IN_LEN; body_from_bytes := from_bytes; body_write_to := write_to;
  body_to_bytes := to_bytes |}.

#[global] Instance laws : FuseBodyLaws t.
Proof. plain_laws [4; 4; 8; 8; 8; 8; 8; 8; 4; 4; 4; 4; 4; 4; 4; 4]%nat fields. Defined.
End FuseSetattrIn.

Definition FUSE_STATFS_OUT_LEN : Z := 80.

Module FuseStatfsOut.
Record t : Type := mk {
  blocks : Z;
  bfree : Z;
  bavail : Z;
  files : Z;
  ffree : Z;
  bsize : Z;
  namelen : Z;
  frsize : Z;
  padding : Z;
  spare : vec Z 6;
}.

Definition from_bytes : bytes -> result FuseError t :=
  checked_read FUSE_STATFS_OUT_LEN (fun buf => Ok {|
      blocks := get buf 0 8;
      bfree := get buf 8 8;
      bavail := get buf 16 8;
      files := get buf 24 8;
      ffree := get buf 32 8;
      bsize := get buf 40 4;
      namelen := get buf 44 4;
      frsize := get buf 48 4;
      padding := get buf 52 4;
      spare := fun_to_vec (fun i : fin 6 => get buf (56 + 4 * i) 4);
  |}).

Definition write_to (h : t) : SM bytes FuseError Z :=
  checked_write FUSE_STATFS_OUT_LEN (sm_modify (stores (
    [ fld 0 8 (blocks h); fld 8 8 (bfree h); fld 16 8 (bavail h); fld 24 8 (files h);
      fld 32 8 (ffree h); fld 40 4 (bsize h); fld 44 4 (namelen h); fld 48 4 (frsize h);
      fld 52 4 (padding h) ] ++
    imap (fun i w => fld (56 + 4 * i) 4 w) (spare h)))).

Definition to_bytes (h : t) : bytes :=
  snd (write_to h (replicate (Z.to_nat FUSE_STATFS_OUT_LEN) Byte.x00)).

Definition fields (h : t) : list field :=
  [ wid 8 (blocks h); wid 8 (bfree h); wid 8 (bavail h); wid 8 (files h); wid 8 (ffree h);
    wid 4 (bsize h); wid 4 (namelen h); wid 4 (frsize h); wid 4 (padding h) ] ++
  (wid 4 <$> vec_to_list (spare h)).

#[global] Instance body : FuseBody t := {|
  body_len := FUSE_STATFS_OUT_LEN; body_from_bytes := from_bytes; body_write_to := write_to;
  body_to_bytes := to_bytes |}.

#[global] Instance laws : FuseBodyLaws t.
Proof. words_laws ([8; 8; 8; 8; 8; 4; 4; 4; 4]%nat ++ replicate 6 4%nat) fields. Defined.
End FuseStatfsOut.

Definition FUSE_MKNOD_IN_LEN : Z := 16.

Module FuseMknodIn.
Record t : Type := mk {
  mode : Z;
  rdev : Z;
  umask : Z;
  padding : Z;
}.

Definition from_bytes : bytes -> result FuseError t :=
  checked_read FUSE_MKNOD_IN_LEN (fun buf => Ok {|
      mode := get buf 0 4;
      rdev := get buf 4 4;
      umask := get buf 8 4;
      padding := get buf 12 4;
  |}).

Definition write_to (h : t) : SM bytes FuseError Z :=
  checked_write FUSE_MKNOD_IN_LEN (sm_modify (stores
    [ fld 0 4 (mode h); fld 4 4 (rdev h); fld 8 4 (umask h); fld 12 4 (padding h) ])).

Definition to_bytes (h : t) : bytes :=
  snd (write_to h (replicate (Z.to_nat FUSE_MKNOD_IN_LEN) Byte.x00)).

Definition fields (h : t) : list field :=
  [ wid 4 (mode h); wid 4 (rdev h); wid 4 (umask h); wid 4 (padding h) ].

#[global] Instance body : FuseBody t := {|
  body_len := FUSE_MKNOD_IN_LEN; body_from_bytes := from_bytes; body_write_to := write_to;
  body_to_bytes := to_bytes |}.

#[global] Instance laws : FuseBodyLaws t.
Proof. plain_laws [4; 4; 4; 4]%nat fields. Defined.
End FuseMknodIn.

Definition FUSE_MKDIR_IN_LEN : Z := 8.

Module FuseMkdirIn.
Record t : Type := mk {
  mode : Z;
  umask : Z;
}.

Definition from_bytes : bytes -> result FuseError t :=
  checked_read FUSE_MKDIR_IN_LEN (fun buf => Ok {|
      mode := get buf 0 4;
      umask := get buf 4 4;
  |}).

Definition write_to (h : t) : SM bytes FuseError Z :=
  checked_write FUSE_MKDIR_IN_LEN (sm_modify (stores
    [ fld 0 4 (mode h); fld 4 4 (umask h) ])).

Definition to_bytes (h : t) : bytes :=
  snd (write_to h (replicate (Z.to_nat FUSE_MKDIR_IN_LEN) Byte.x00)).

Definition fields (h : t) : list field :=
  [ wid 4 (mode h); wid 4 (umask h) ].

#[global] Instance body : FuseBody t := {|
  body_len := FUSE_MKDIR_IN_LEN; body_from_bytes := from_bytes; body_write_to := write_to;
  body_to_bytes := to_bytes |}.

#[global] Instance laws : FuseBodyLaws t.
Proof. plain_laws [4; 4]%nat fields. Defined.
End FuseMkdirIn.

Definition FUSE_FSYNC_IN_LEN : Z := 16.

Module FuseFsyncIn.
Record t : Type := mk {
  fh : Z;
  fsync_flags : Z;
  padding : Z;
}.

Definition from_bytes : bytes -> result FuseError t :=
  checked_read FUSE_FSYNC_IN_LEN (fun buf => Ok {|
      fh := get buf 0 8;
      fsync_flags := get buf 8 4;
      padding := get buf 12 4;
  |}).

Definition write_to (h : t) : SM bytes FuseError Z :=
  checked_write FUSE_FSYNC_IN_LEN (sm_modify (stores
    [ fld 0 8 (fh h); fld 8 4 (fsync_flags h); fld 12 4 (padding h) ])).

Definition to_bytes (h : t) : bytes :=
  snd (write_to h (replicate (Z.to_nat FUSE_FSYNC_IN_LEN) Byte.x00)).

Definition fields (h : t) : list field :=
  [ wid 8 (fh h); wid 4 (fsync_flags h); wid 4 (padding h) ].

#[global] Instance body : FuseBody t := {|
  body_len := FUSE_FSYNC_IN_LEN; body_from_bytes := from_bytes; body_write_to := write_to;
  body_to_bytes := to_bytes |}.

#[global] Instance laws : FuseBodyLaws t.
Proof. plain_laws [8; 4; 4]%nat fields. Defined.
End FuseFsyncIn.

Definition FUSE_RENAME_IN_LEN : Z := 8.

Module FuseRenameIn.
Record t : Type := mk {
  newdir : Z;
}.

Definition from_bytes : bytes -> result FuseError t :=
  checked_read FUSE_RENAME_IN_LEN (fun buf => Ok {|
      newdir := get buf 0 8;
  |}).

Definition write_to (h : t) : SM bytes FuseError Z :=
  checked_write FUSE_RENAME_IN_LEN (sm_modify (stores
    [ fld 0 8 (newdir h) ])).

Definition to_bytes (h : t) : bytes :=
  snd (write_to h (replicate (Z.to_nat FUSE_RENAME_IN_LEN) Byte.x00)).

Definition fields (h : t) : list field :=
  [ wid 8 (newdir h) ].

#[global] Instance body : FuseBody t := {|
  body_len := FUSE_RENAME_IN_LEN; body_from_bytes := from_bytes; body_write_to := write_to;
  body_to_bytes := to_bytes |}.

#[global] Instance laws : FuseBodyLaws t.
Proof. plain_laws [8]%nat fields. Defined.
End FuseRenameIn.

Definition FUSE_LINK_IN_LEN : Z := 8.

Module FuseLinkIn.
Record t : Type := mk {
  oldnodeid : Z;
}.

Definition from_bytes : bytes -> result FuseError t :=
  checked_read FUSE_LINK_IN_LEN (fun buf => Ok {|
      oldnodeid := get buf 0 8;
  |}).

Definition write_to (h : t) : SM bytes FuseError Z :=
  checked_write FUSE_LINK_IN_LEN (sm_modify (stores
    [ fld 0 8 (oldnodeid h) ])).

Definition to_bytes (h : t) : bytes :=
  snd (write_to h (replicate (Z.to_nat FUSE_LINK_IN_LEN) Byte.x00)).

Definition fields (h : t) : list field :=
  [ wid 8 (oldnodeid h) ].

#[global] Instance body : FuseBody t := {|
  body_len := FUSE_LINK_IN_LEN; body_from_bytes := from_bytes; body_write_to := write_to;
  body_to_bytes := to_bytes |}.

#[global] Instance laws : FuseBodyLaws t.
Proof. plain_laws [8]%nat fields. Defined.
End FuseLinkIn.

Definition FUSE_DIRENT_HDR_LEN : Z := 24.

Module FuseDirentHeader.
Record t : Type := mk {
  ino : Z;
  off : Z;
  namelen : Z;
  ftype : Z;
}.

Definition from_bytes : bytes -> result FuseError t :=
  checked_read FUSE_DIRENT_HDR_LEN (fun buf => Ok {|
      ino := get buf 0 8;
      off := get buf 8 8;
      namelen := get buf 16 4;
      ftype := get buf 20 4;
  |}).

Definition write_to (h : t) : SM bytes FuseError Z :=
  checked_write FUSE_DIRENT_HDR_LEN (sm_modify (stores
    [ fld 0 8 (ino h); fld 8 8 (off h); fld 16 4 (namelen h); fld 20 4 (ftype h) ])).

Definition to_bytes (h : t) : bytes :=
  snd (write_to h (replicate (Z.to_nat FUSE_DIRENT_HDR_LEN) Byte.x00)).

Definition fields (h : t) : list field :=
  [ wid 8 (ino h); wid 8 (off h); wid 4 (namelen h); wid 4 (ftype h) ].

#[global] Instance body : FuseBody t := {|
  body_len := FUSE_DIRENT_HDR_LEN; body_from_bytes := from_bytes; body_write_to := write_to;
  body_to_bytes := to_bytes |}.

#[global] Instance laws : FuseBodyLaws t.
Proof. plain_laws [8; 8; 4; 4]%nat fields. Defined.
End FuseDirentHeader.

(** ** Flag constants *)

Definition FUSE_GETATTR_FH : Z := Z.shiftl 1 0.
Definition FUSE_FSYNC_FDATASYNC : Z := Z.shiftl 1 0.

Module fattr.
Definition MODE : Z := Z.shiftl 1 0.
Definition UID : Z := Z.shiftl 1 1.
Definition GID : Z := Z.shiftl 1 2.
Definition SIZE : Z := Z.shiftl 1 3.
Definition ATIME : Z := Z.shiftl 1 4.
Definition MTIME : Z := Z.shiftl 1 5.
Definition FH : Z := Z.shiftl 1 6.
Definition ATIME_NOW : Z := Z.shiftl 1 7.
Definition MTIME_NOW : Z := Z.shiftl 1 8.
Definition LOCKOWNER : Z := Z.shiftl 1 9.
Definition CTIME : Z := Z.shiftl 1 10.
Definition KILL_SUIDGID : Z := Z.shiftl 1 11.
End fattr.

Module fopen.
Definition DIRECT_IO : Z := Z.shiftl 1 0.
Definition KEEP_CACHE : Z := Z.shiftl 1 1.
Definition NONSEEKABLE : Z := Z.shiftl 1 2.
Definition CACHE_DIR : Z := Z.shiftl 1 3.
Definition STREAM : Z := Z.shiftl 1 4.
Definition NOFLUSH : Z := Z.shiftl 1 5.
End fopen.

Module dt.
Definition UNKNOWN : Z := 0.
Definition FIFO : Z := 1.
Definition CHR : Z := 2.
Definition DIR : Z := 4.
Definition BLK : Z := 6.
Definition REG : Z := 8.
Definition LNK : Z := 10.
Definition SOCK : Z := 12.
End dt.

(** ** The bodies of all operations *)

(** every FUSE body is a lossless codec of its fixed size: a record whose
    fields fit their widths is read back from its bytes whatever follows them,
    the bytes of a record that was read are the bytes it was read from, shorter
    inputs and outputs are refused with both lengths and without a write, and
    a write changes nothing beyond the body. *)
Theorem fuse_bodies_codec :
  body_codec FuseInitIn.t /\ body_codec FuseInitOut.t /\ body_codec FuseAttr.t /\
  body_codec FuseEntryOut.t /\ body_codec FuseOpenIn.t /\ body_codec FuseOpenOut.t /\
  body_codec FuseReadIn.t /\ body_codec FuseWriteIn.t /\ body_codec FuseWriteOut.t /\
  body_codec FuseFlushIn.t /\ body_codec FuseReleaseIn.t /\ body_codec FuseForgetIn.t /\
  body_codec FuseGetattrIn.t /\ body_codec FuseAttrOut.t /\ body_codec FuseSetattrIn.t /\
  body_codec FuseStatfsOut.t /\ body_codec FuseMknodIn.t /\ body_codec FuseMkdirIn.t /\
  body_codec FuseFsyncIn.t /\ body_codec FuseRenameIn.t /\ body_codec FuseLinkIn.t /\
  body_codec FuseDirentHeader.t.
Proof. split_and!; apply body_codec_holds. Qed.

(** The layouts are those of the kernel's header: sizes as the constants say. *)
Example entry_out_bytes :
  FuseEntryOut.from_bytes
    (FuseEntryOut.to_bytes
       {| FuseEntryOut.nodeid := 7; FuseEntryOut.generation := 0; FuseEntryOut.entry_valid := 1;
          FuseEntryOut.attr_valid := 1; FuseEntryOut.entry_valid_nsec := 0;
          FuseEntryOut.attr_valid_nsec := 5;
          FuseEntryOut.attr := FuseAttr.mk 7 10 1 2 3 4 5 6 7 33188 1 0 0 0 4096 0 |}) =
  Ok {| FuseEntryOut.nodeid := 7; FuseEntryOut.generation := 0; FuseEntryOut.entry_valid := 1;
        FuseEntryOut.attr_valid := 1; FuseEntryOut.entry_valid_nsec := 0;
        FuseEntryOut.attr_valid_nsec := 5;
        FuseEntryOut.attr := FuseAttr.mk 7 10 1 2 3 4 5 6 7 33188 1 0 0 0 4096 0 |}.
Proof. vm_compute. reflexivity. Qed.
