(* ===== verification/FuseDirent.v ===== *)
(** * virtio-fs: directory listings

    Models the [fuse_dirent] part of [crates/virtio-fs/src/body.rs]: the writer
    that packs records into the buffer a [READDIR] offers, and the iterator
    that walks such a buffer. *)

From S2P Require Import Prelude FuseWire FuseBody.

Definition FUSE_DIRENT_ALIGN : Z := 8.

(** [!z] of a [usize] *)
Definition not64 (z : Z) : Z := 2 ^ 64 - 1 - z.

Definition fuse_dirent_padded_size (name_len : Z) : Z :=
  let total := FUSE_DIRENT_HDR_LEN + name_len in
  Z.land (total + FUSE_DIRENT_ALIGN - 1) (not64 (FUSE_DIRENT_ALIGN - 1)).

Inductive DirentWriteError : Type :=
| BufferFull (need remaining : Z)
| NameTooLong (len : Z).

Module FuseDirentWriter.
Record t : Type := mk { buf : bytes; cap : Z }.

Definition with_capacity (cap : Z) : t := mk [] cap.

Definition len (w : t) : Z := zlen (buf w).

Definition is_empty (w : t) : bool := bool_decide (buf w = []).

(** [saturating_sub] *)
Definition remaining (w : t) : Z := Z.max 0 (cap w - zlen (buf w)).

Definition push (ino off ftype : Z) (name : bytes) : SM t DirentWriteError unit := fun w =>
  if negb (zlen name <? 2 ^ 32) then (Err (NameTooLong (zlen name)), w)
  else
    let namelen := zlen name in
    let need := fuse_dirent_padded_size (zlen name) in
    if cap w <? zlen (buf w) + need then (Err (BufferFull need (remaining w)), w)
    else
      let header := FuseDirentHeader.mk ino off namelen ftype in
      let buf := buf w ++ FuseDirentHeader.to_bytes header in
      let buf := buf ++ name in
      let pad := need - FUSE_DIRENT_HDR_LEN - zlen name in
      (Ok tt, mk (buf ++ replicate (Z.to_nat pad) Byte.x00) (cap w)).

Definition into_bytes (w : t) : bytes := buf w.
End FuseDirentWriter.

Module FuseDirentIter.
Record t : Type := mk { rest : bytes; failed : bool }.

Definition item : Type := result FuseError (FuseDirentHeader.t * bytes).

Definition new (buf : bytes) : t := mk buf false.

Definition next (it : t) : option item * t :=
  if failed it || bool_decide (rest it = []) then (None, it)
  else if zlen (rest it) <? FUSE_DIRENT_HDR_LEN then
    (Some (Err (ShortHeader (zlen (rest it)) FUSE_DIRENT_HDR_LEN)), mk (rest it) true)
  else
    match FuseDirentHeader.from_bytes (take (Z.to_nat FUSE_DIRENT_HDR_LEN) (rest it)) with
    | Err e => (Some (Err e), mk (rest it) true)
    | Ok hdr =>
        let name_len := FuseDirentHeader.namelen hdr in
        let total := fuse_dirent_padded_size name_len in
        if zlen (rest it) <? total then
          (Some (Err (ShortHeader (zlen (rest it)) total)), mk (rest it) true)
        else
          let name := slice (rest it) (Z.to_nat FUSE_DIRENT_HDR_LEN) (Z.to_nat name_len) in
          (Some (Ok (hdr, name)), mk (drop (Z.to_nat total) (rest it)) false)
    end.

(** The items of a [for] loop over the iterator. *)
Inductive yields : t -> list item -> Prop :=
| yields_end it it' : next it = (None, it') -> yields it []
| yields_item it x it' xs : next it = (Some x, it') -> yields it' xs -> yields it (x :: xs).
End FuseDirentIter.

(** ** Padding *)

Lemma padded_size_spec n :
  0 <= n < 2 ^ 63 ->
  fuse_dirent_padded_size n mod 8 = 0 /\
  FUSE_DIRENT_HDR_LEN + n <= fuse_dirent_padded_size n < FUSE_DIRENT_HDR_LEN + n + 8.
Proof.
  intros Hn. unfold fuse_dirent_padded_size, FUSE_DIRENT_HDR_LEN, FUSE_DIRENT_ALIGN, not64.
  set (x := 24 + n + 8 - 1).
  assert (Hx : Z.land x (2 ^ 64 - 1 - (8 - 1)) = x / 8 * 8).
  { change (2 ^ 64 - 1 - (8 - 1)) with (Z.shiftl (Z.ones 61) 3). apply Z.bits_inj'. intros k Hk.
    rewrite Z.land_spec, Z.shiftl_spec by lia.
    change 8 with (2 ^ 3). rewrite <- Z.shiftl_mul_pow2, <- Z.shiftr_div_pow2 by lia.
    rewrite Z.shiftl_spec by lia. destruct (decide (k < 3)) as [Hk3|Hk3].
    { rewrite !(Z.testbit_neg_r _ (k - 3)) by lia. by rewrite andb_false_r. }
    rewrite Z.shiftr_spec by lia. replace (k - 3 + 3) with k by lia.
    destruct (decide (k < 64)) as [Hk4|Hk4].
    { rewrite Z.ones_spec_low by lia. by rewrite andb_true_r. }
    rewrite (Z.bits_above_log2 x k); [done|lia|].
    apply Z.lt_le_trans with 64; [|lia]. apply Z.log2_lt_pow2; subst x; ulia. }
  rewrite Hx. subst x. Z.to_euclidean_division_equations. lia.
Qed.

(** ** Round trip *)

Module Dirent.
Record t : Type := mk { ino : Z; off : Z; ftype : Z; name : bytes }.

Definition wf (e : t) : Prop := is_u64 (ino e) /\ is_u64 (off e) /\ is_u32 (ftype e).

Definition header (e : t) : FuseDirentHeader.t :=
  FuseDirentHeader.mk (ino e) (off e) (zlen (name e)) (ftype e).

(** A record on the wire. *)
Definition record (e : t) : bytes :=
  FuseDirentHeader.to_bytes (header e) ++ name e ++
  replicate (Z.to_nat (fuse_dirent_padded_size (zlen (name e)) - 24 - zlen (name e))) Byte.x00.

Definition push (e : t) : SM FuseDirentWriter.t DirentWriteError unit :=
  FuseDirentWriter.push (ino e) (off e) (ftype e) (name e).

(** Any sequence of pushes, and the entries that were accepted. *)
Fixpoint push_all (es : list t) (w : FuseDirentWriter.t) : list t * FuseDirentWriter.t :=
  match es with
  | [] => ([], w)
  | e :: es =>
      match push e w with
      | (Ok _, w') => let '(acc, w'') := push_all es w' in (e :: acc, w'')
      | (Err _, w') => push_all es w'
      end
  end.
End Dirent.

Import Dirent.

Lemma hdr_to_bytes_length h : length (FuseDirentHeader.to_bytes h) = 24%nat.
Proof.
  pose proof (body_to_bytes_length (T := FuseDirentHeader.t) h) as H. simpl in H.
  unfold zlen, FUSE_DIRENT_HDR_LEN in H. lia.
Qed.

Lemma header_fits e :
  Dirent.wf e -> zlen (name e) < 2 ^ 32 -> body_fits (T := FuseDirentHeader.t) (header e).
Proof.
  intros (Hi & Ho & Hf) Hn. unfold body_fits. simpl. unfold FuseDirentHeader.fields.
  repeat constructor; simpl; unfold zlen in *; ulia.
Qed.

Lemma record_length e :
  zlen (name e) < 2 ^ 32 -> zlen (record e) = fuse_dirent_padded_size (zlen (name e)).
Proof.
  intros Hn. destruct (padded_size_spec (zlen (name e))) as [_ Hp]; [unfold zlen in *; ulia|].
  unfold FUSE_DIRENT_HDR_LEN in Hp. unfold record, zlen in *.
  rewrite !length_app, hdr_to_bytes_length, length_replicate. lia.
Qed.

(** A push either appends one record, within the capacity, or changes nothing. *)
Lemma push_cases e w :
  (exists err, Dirent.push e w = (Err err, w)) \/
  (Dirent.push e w = (Ok tt, FuseDirentWriter.mk (FuseDirentWriter.buf w ++ record e) (FuseDirentWriter.cap w)) /\
   zlen (name e) < 2 ^ 32 /\
   zlen (FuseDirentWriter.buf w ++ record e) <= FuseDirentWriter.cap w).
Proof.
  unfold Dirent.push, FuseDirentWriter.push. cbn zeta. case_if; [eauto|]. case_if; [eauto|].
  right. split_and!.
  - unfold record, FUSE_DIRENT_HDR_LEN. by rewrite <- !app_assoc.
  - done.
  - unfold zlen at 1. rewrite length_app, Nat2Z.inj_add.
    fold (zlen (FuseDirentWriter.buf w)) (zlen (record e)). rewrite record_length; lia.
Qed.

Lemma next_record e rest :
  Dirent.wf e -> zlen (name e) < 2 ^ 32 ->
  FuseDirentIter.next (FuseDirentIter.mk (record e ++ rest) false) =
    (Some (Ok (header e, name e)), FuseDirentIter.mk rest false).
Proof.
  intros Hwf Hn. pose proof (record_length e Hn) as Hl.
  destruct (padded_size_spec (zlen (name e))) as [_ Hp]; [unfold zlen in *; ulia|].
  unfold FuseDirentIter.next. cbn [FuseDirentIter.failed FuseDirentIter.rest orb].
  assert (Hge : 24 <= zlen (record e ++ rest)).
  { unfold zlen in *. rewrite length_app. unfold FUSE_DIRENT_HDR_LEN in *. lia. }
  case_bool_decide as Hnil; [rewrite Hnil in Hge; by cbn in Hge|].
  case_if; [unfold FUSE_DIRENT_HDR_LEN in *; lia|].
  assert (Ht : take (Z.to_nat FUSE_DIRENT_HDR_LEN) (record e ++ rest)
                = FuseDirentHeader.to_bytes (header e) ++ []).
  { unfold record. rewrite <- app_assoc, app_nil_r.
    by rewrite take_app_length' by by rewrite hdr_to_bytes_length. }
  assert (Hd : FuseDirentHeader.from_bytes (FuseDirentHeader.to_bytes (header e) ++ []) = Ok (header e)).
  { exact (body_decode_encode (T := FuseDirentHeader.t) (header e) [] (header_fits e Hwf Hn)). }
  rewrite Ht, Hd.
  cbn [FuseDirentHeader.namelen header]. rewrite <- Hl.
  case_if; [unfold zlen in *; rewrite length_app in *; lia|]. repeat f_equal.
  - unfold record. rewrite <- !app_assoc, slice_app_r by by rewrite hdr_to_bytes_length.
    rewrite hdr_to_bytes_length. change (Z.to_nat FUSE_DIRENT_HDR_LEN - 24)%nat with 0%nat.
    rewrite slice_app_l by (unfold zlen; lia). apply slice_all. unfold zlen. lia.
  - unfold zlen. rewrite Nat2Z.id. apply drop_app_length.
Qed.

Lemma yields_records es :
  Forall Dirent.wf es -> Forall (fun e => zlen (name e) < 2 ^ 32) es ->
  FuseDirentIter.yields (FuseDirentIter.mk (concat (record <$> es)) false)
    ((fun e => Ok (header e, name e)) <$> es).
Proof.
  induction es as [|e es IH]; intros Hwf Hn.
  { eapply FuseDirentIter.yields_end. reflexivity. }
  apply Forall_cons in Hwf as [? ?], Hn as [? ?]. eapply FuseDirentIter.yields_item.
  - by apply next_record.
  - by apply IH.
Qed.

Lemma push_all_records es w acc w' :
  Dirent.push_all es w = (acc, w') ->
  FuseDirentWriter.buf w' = FuseDirentWriter.buf w ++ concat (record <$> acc) /\
  FuseDirentWriter.cap w' = FuseDirentWriter.cap w /\
  acc `sublist_of` es /\ Forall (fun e => zlen (name e) < 2 ^ 32) acc /\
  (zlen (FuseDirentWriter.buf w) <= FuseDirentWriter.cap w ->
   zlen (FuseDirentWriter.buf w') <= FuseDirentWriter.cap w).
Proof.
  revert w acc. induction es as [|e es IH]; intros w acc; cbn [Dirent.push_all].
  { intros [= <- <-]. by rewrite app_nil_r. }
  destruct (push_cases e w) as [[err ->] | (-> & Hn & Hc)].
  - intros (? & ? & ? & ? & ?)%IH. split_and!; try done. by apply sublist_cons.
  - destruct (Dirent.push_all es _) as [acc' w''] eqn:Hr. intros [= <- <-].
    apply IH in Hr as (Hb & Hcap & Hs & Hf & Hz). cbn [FuseDirentWriter.buf FuseDirentWriter.cap] in *.
    split_and!; try done.
    + by rewrite Hb, fmap_cons, concat_cons, app_assoc.
    + by apply sublist_skip.
    + by constructor.
    + intros _. by apply Hz.
Qed.

(** whatever is pushed into a directory listing, the payload stays within
    the size the kernel asked for and iterating it yields exactly the accepted
    entries, in order and with their names, and then ends without an error. *)
Theorem dirent_listing_roundtrip cap es acc w :
  0 <= cap -> Forall Dirent.wf es ->
  Dirent.push_all es (FuseDirentWriter.with_capacity cap) = (acc, w) ->
  zlen (FuseDirentWriter.into_bytes w) <= cap /\ acc `sublist_of` es /\
  FuseDirentIter.yields (FuseDirentIter.new (FuseDirentWriter.into_bytes w))
    ((fun e => Ok (header e, name e)) <$> acc).
Proof.
  intros Hcap Hwf (Hb & _ & Hs & Hn & Hz)%push_all_records. split_and!; [by apply Hz|done|].
  unfold FuseDirentIter.new, FuseDirentWriter.into_bytes. rewrite Hb. apply yields_records; [|done].
  apply Forall_forall. intros e He. rewrite Forall_forall in Hwf. apply Hwf.
  eapply elem_of_submseteq; [done|]. by apply sublist_submseteq.
Qed.

(** Two entries fit a 64-byte buffer, the third is refused and a shorter name
    still would not fit. *)
Lemma dirent_listing_roundtrip_witness :
  let es := [Dirent.mk 1 1 4 [Byte.x2e]; Dirent.mk 2 2 4 [Byte.x2e; Byte.x2e];
             Dirent.mk 3 3 8 [Byte.x61]] in
  exists acc w, Dirent.push_all es (FuseDirentWriter.with_capacity 64) = (acc, w) /\
    length acc = 2%nat /\ zlen (FuseDirentWriter.into_bytes w) <= 64.
Proof.
  eexists _, _. split; [vm_compute; reflexivity|]. split; [reflexivity|].
  apply (dirent_listing_roundtrip 64
    [Dirent.mk 1 1 4 [Byte.x2e]; Dirent.mk 2 2 4 [Byte.x2e; Byte.x2e]; Dirent.mk 3 3 8 [Byte.x61]]
    [Dirent.mk 1 1 4 [Byte.x2e]; Dirent.mk 2 2 4 [Byte.x2e; Byte.x2e]]).
  - lia.
  - repeat constructor; simpl; lia.
  - vm_compute. reflexivity.
Defined.

(** ** Iterating arbitrary bytes *)

Lemma next_progress it x it' :
  FuseDirentIter.next it = (Some x, it') ->
  (exists h n, x = Ok (h, n) /\ FuseDirentIter.failed it' = false /\
     (length (FuseDirentIter.rest it') + 24 <= length (FuseDirentIter.rest it))%nat) \/
  (exists e, x = Err e /\ FuseDirentIter.failed it' = true).
Proof.
  unfold FuseDirentIter.next. case_if; [done|]. case_if; [intros [= <- <-]; right; eauto|].
  destruct (FuseDirentHeader.from_bytes _) as [h|e] eqn:Hh; [|intros [= <- <-]; right; eauto].
  cbn zeta. case_if; intros [= <- <-]; [right; eauto|]. left. do 2 eexists. split; [done|].
  split; [done|]. cbn [FuseDirentIter.rest].
  set (b := take _ _) in Hh. pose proof (body_encode_decode (T := FuseDirentHeader.t) b h Hh) as [Hf _].
  assert (Hn : 0 <= FuseDirentHeader.namelen h < 2 ^ 32).
  { unfold body_fits in Hf. simpl in Hf. unfold FuseDirentHeader.fields in Hf.
    apply Forall_cons in Hf as [_ Hf]. apply Forall_cons in Hf as [_ Hf].
    apply Forall_cons in Hf as [Hf _]. simpl in Hf. lia. }
  destruct (padded_size_spec (FuseDirentHeader.namelen h)) as [_ Hp]; [ulia|].
  unfold FUSE_DIRENT_HDR_LEN, zlen in *. rewrite length_drop. lia.
Qed.

(** on any bytes the iterator stops, after at most one record per 24 bytes
    and one error, which can only be the last item. *)
Theorem dirent_iter_terminates buf :
  exists oks tail,
    FuseDirentIter.yields (FuseDirentIter.new buf) ((Ok <$> oks) ++ tail) /\
    (length oks * 24 <= length buf)%nat /\
    (tail = [] \/ exists e, tail = [Err e]).
Proof.
  unfold FuseDirentIter.new. revert buf. apply (well_founded_induction (well_founded_ltof _ length)).
  intros buf IH. destruct (FuseDirentIter.next (FuseDirentIter.mk buf false)) as [[x|] it] eqn:Hn.
  - pose proof Hn as Hn'. apply next_progress in Hn' as [(h & n & -> & Hf & Hl) | (e & -> & Hf)];
      cbn [FuseDirentIter.rest] in *.
    + destruct it as [rest failed]. cbn in Hf, Hl. subst failed.
      destruct (IH rest) as (oks & tail & Hy & Hb & Ht); [unfold ltof; lia|].
      exists ((h, n) :: oks), tail. split_and!; [|simpl; lia|done].
      by eapply FuseDirentIter.yields_item.
    + exists [], [Err e]. split_and!; [|simpl; lia|eauto].
      eapply FuseDirentIter.yields_item; [done|]. eapply FuseDirentIter.yields_end.
      unfold FuseDirentIter.next. by rewrite Hf.
  - exists [], []. split_and!; [|simpl; lia|by left]. by eapply FuseDirentIter.yields_end.
Qed.
