(* ===== verification/FuseDispatch.v ===== *)
(** * virtio-fs: request dispatch

    Models [crates/virtio-fs/src/dispatch.rs]: parsing a packet into a request,
    the [FuseHandler] trait as a class over the handler's state, and the
    dispatcher that calls the handler and encodes its answer. *)

From S2P Require Import Prelude FuseWire FuseBody.

Definition ENOSYS : Z := 38.
Definition EINVAL : Z := 22.

(** ** Requests *)

Module FuseRequest.
Inductive t : Type :=
| Init (body : FuseInitIn.t)
| Forget (body : FuseForgetIn.t)
| Getattr (body : FuseGetattrIn.t)
| Setattr (body : FuseSetattrIn.t)
| Lookup (name : bytes)
| Readlink
| Mknod (body : FuseMknodIn.t) (name : bytes)
| Mkdir (body : FuseMkdirIn.t) (name : bytes)
| Unlink (name : bytes)
| Rmdir (name : bytes)
| Symlink (name target : bytes)
| Rename (body : FuseRenameIn.t) (old_name new_name : bytes)
| Link (body : FuseLinkIn.t) (name : bytes)
| Open (body : FuseOpenIn.t)
| Read (body : FuseReadIn.t)
| Write (body : FuseWriteIn.t) (data : bytes)
| Statfs
| Release (body : FuseReleaseIn.t)
| Fsync (body : FuseFsyncIn.t)
| Flush (body : FuseFlushIn.t)
| Opendir (body : FuseOpenIn.t)
| Readdir (body : FuseReadIn.t)
| Releasedir (body : FuseReleaseIn.t)
| Destroy.
End FuseRequest.

(** The position of the first NUL ([iter().position]). *)
Fixpoint nul_position (buf : bytes) : option nat :=
  match buf with
  | [] => None
  | b :: buf => if bool_decide (b = Byte.x00) then Some 0%nat else S <$> nul_position buf
  end.

Definition split_nul (buf : bytes) : result FuseError (bytes * bytes) :=
  ok_or (ShortHeader (zlen buf) (zlen buf + 1))
    ((fun pos => (take pos buf, drop (S pos) buf)) <$> nul_position buf).

Definition split_two_nul_strings (buf : bytes) : result FuseError (bytes * bytes) :=
  '(first, rest) ← split_nul buf;
  '(second, _) ← split_nul rest;
  Ok (first, second).

Definition parse_request (buf : bytes) : result FuseError (FuseInHeader.t * FuseRequest.t) :=
  hdr ← FuseInHeader.from_bytes buf;
  let body := drop (Z.to_nat FUSE_IN_HDR_LEN) buf in
  req ← match FuseInHeader.opcode hdr with
    | FuseOpcode.Init => FuseRequest.Init <$> FuseInitIn.from_bytes body
    | FuseOpcode.Forget => FuseRequest.Forget <$> FuseForgetIn.from_bytes body
    | FuseOpcode.Getattr => FuseRequest.Getattr <$> FuseGetattrIn.from_bytes body
    | FuseOpcode.Setattr => FuseRequest.Setattr <$> FuseSetattrIn.from_bytes body
    | FuseOpcode.Lookup => Ok (FuseRequest.Lookup body)
    | FuseOpcode.Readlink => Ok FuseRequest.Readlink
    | FuseOpcode.Mknod =>
        b ← FuseMknodIn.from_bytes body;
        Ok (FuseRequest.Mknod b (drop (Z.to_nat FUSE_MKNOD_IN_LEN) body))
    | FuseOpcode.Mkdir =>
        b ← FuseMkdirIn.from_bytes body;
        Ok (FuseRequest.Mkdir b (drop (Z.to_nat FUSE_MKDIR_IN_LEN) body))
    | FuseOpcode.Unlink => Ok (FuseRequest.Unlink body)
    | FuseOpcode.Rmdir => Ok (FuseRequest.Rmdir body)
    | FuseOpcode.Symlink =>
        '(name, target) ← split_two_nul_strings body;
        Ok (FuseRequest.Symlink name target)
    | FuseOpcode.Rename =>
        b ← FuseRenameIn.from_bytes body;
        let rest := drop (Z.to_nat FUSE_RENAME_IN_LEN) body in
        '(old_name, new_name) ← split_two_nul_strings rest;
        Ok (FuseRequest.Rename b old_name new_name)
    | FuseOpcode.Link =>
        b ← FuseLinkIn.from_bytes body;
        Ok (FuseRequest.Link b (drop (Z.to_nat FUSE_LINK_IN_LEN) body))
    | FuseOpcode.Open => FuseRequest.Open <$> FuseOpenIn.from_bytes body
    | FuseOpcode.Read => FuseRequest.Read <$> FuseReadIn.from_bytes body
    | FuseOpcode.Write =>
        b ← FuseWriteIn.from_bytes body;
        Ok (FuseRequest.Write b (drop (Z.to_nat FUSE_WRITE_IN_LEN) body))
    | FuseOpcode.Statfs => Ok FuseRequest.Statfs
    | FuseOpcode.Release => FuseRequest.Release <$> FuseReleaseIn.from_bytes body
    | FuseOpcode.Fsync => FuseRequest.Fsync <$> FuseFsyncIn.from_bytes body
    | FuseOpcode.Flush => FuseRequest.Flush <$> FuseFlushIn.from_bytes body
    | FuseOpcode.Opendir => FuseRequest.Opendir <$> FuseOpenIn.from_bytes body
    | FuseOpcode.Readdir => FuseRequest.Readdir <$> FuseReadIn.from_bytes body
    | FuseOpcode.Releasedir => FuseRequest.Releasedir <$> FuseReleaseIn.from_bytes body
    | FuseOpcode.Destroy => Ok FuseRequest.Destroy
    end;
  Ok (hdr, req).

(** ** Handlers *)

(** The trait; a method returns its body or a positive errno, and the handler
    left behind. *)
Class FuseHandler (H : Type) := {
  h_init : FuseInHeader.t -> FuseInitIn.t -> SM H Z FuseInitOut.t;
  h_forget : FuseInHeader.t -> FuseForgetIn.t -> H -> H;
  h_getattr : FuseInHeader.t -> FuseGetattrIn.t -> SM H Z FuseAttrOut.t;
  h_setattr : FuseInHeader.t -> FuseSetattrIn.t -> SM H Z FuseAttrOut.t;
  h_lookup : FuseInHeader.t -> bytes -> SM H Z FuseEntryOut.t;
  h_readlink : FuseInHeader.t -> SM H Z bytes;
  h_mknod : FuseInHeader.t -> FuseMknodIn.t -> bytes -> SM H Z FuseEntryOut.t;
  h_mkdir : FuseInHeader.t -> FuseMkdirIn.t -> bytes -> SM H Z FuseEntryOut.t;
  h_unlink : FuseInHeader.t -> bytes -> SM H Z unit;
  h_rmdir : FuseInHeader.t -> bytes -> SM H Z unit;
  h_symlink : FuseInHeader.t -> bytes -> bytes -> SM H Z FuseEntryOut.t;
  h_rename : FuseInHeader.t -> FuseRenameIn.t -> bytes -> bytes -> SM H Z unit;
  h_link : FuseInHeader.t -> FuseLinkIn.t -> bytes -> SM H Z FuseEntryOut.t;
  h_open : FuseInHeader.t -> FuseOpenIn.t -> SM H Z FuseOpenOut.t;
  h_read : FuseInHeader.t -> FuseReadIn.t -> SM H Z bytes;
  h_write : FuseInHeader.t -> FuseWriteIn.t -> bytes -> SM H Z FuseWriteOut.t;
  h_statfs : FuseInHeader.t -> SM H Z FuseStatfsOut.t;
  h_release : FuseInHeader.t -> FuseReleaseIn.t -> SM H Z unit;
  h_fsync : FuseInHeader.t -> FuseFsyncIn.t -> SM H Z unit;
  h_flush : FuseInHeader.t -> FuseFlushIn.t -> SM H Z unit;
  h_opendir : FuseInHeader.t -> FuseOpenIn.t -> SM H Z FuseOpenOut.t;
  h_readdir : FuseInHeader.t -> FuseReadIn.t -> SM H Z bytes;
  h_releasedir : FuseInHeader.t -> FuseReleaseIn.t -> SM H Z unit;
  h_destroy : FuseInHeader.t -> H -> H;
}.

(** The trait's default method bodies. *)
Definition default_handler (H : Type) : FuseHandler H := {|
  h_init _ _ := sm_fail ENOSYS;
  h_forget _ _ s := s;
  h_getattr _ _ := sm_fail ENOSYS;
  h_setattr _ _ := sm_fail ENOSYS;
  h_lookup _ _ := sm_fail ENOSYS;
  h_readlink _ := sm_fail ENOSYS;
  h_mknod _ _ _ := sm_fail ENOSYS;
  h_mkdir _ _ _ := sm_fail ENOSYS;
  h_unlink _ _ := sm_fail ENOSYS;
  h_rmdir _ _ := sm_fail ENOSYS;
  h_symlink _ _ _ := sm_fail ENOSYS;
  h_rename _ _ _ _ := sm_fail ENOSYS;
  h_link _ _ _ := sm_fail ENOSYS;
  h_open _ _ := sm_fail ENOSYS;
  h_read _ _ := sm_fail ENOSYS;
  h_write _ _ _ := sm_fail ENOSYS;
  h_statfs _ := sm_fail ENOSYS;
  h_release _ _ := sm_fail ENOSYS;
  h_fsync _ _ := sm_fail ENOSYS;
  h_flush _ _ := sm_fail ENOSYS;
  h_opendir _ _ := sm_fail ENOSYS;
  h_readdir _ _ := sm_fail ENOSYS;
  h_releasedir _ _ := sm_fail ENOSYS;
  h_destroy _ s := s;
|}.

(** ** Dispatch *)

(** [errno.unsigned_abs()] and [body.len() as u32] as in the source. *)
Definition encode_result (unique : Z) (r : result Z bytes) : option bytes :=
  match r with
  | Ok body =>
      let hdr := FuseOutHeader.ok unique (wrap32 (zlen body)) in
      Some (FuseOutHeader.to_bytes hdr ++ body)
  | Err errno =>
      let hdr := FuseOutHeader.err unique (Z.abs errno) in
      Some (FuseOutHeader.to_bytes hdr)
  end.

Section Dispatch.
Context {H : Type} `{!FuseHandler H}.

(** [encode_result(hdr.unique, call.map(f))] *)
Definition reply {A} (unique : Z) (f : A -> bytes) (call : SM H Z A) : H -> option bytes * H :=
  fun s => let '(r, s) := call s in (encode_result unique (f <$> r), s).

Definition dispatch (hdr : FuseInHeader.t) (req : FuseRequest.t) : H -> option bytes * H :=
  let u := FuseInHeader.unique hdr in
  match req with
  | FuseRequest.Forget body => fun s => (None, h_forget hdr body s)
  | FuseRequest.Destroy => fun s => (None, h_destroy hdr s)
  | FuseRequest.Init body => reply u FuseInitOut.to_bytes (h_init hdr body)
  | FuseRequest.Getattr body => reply u FuseAttrOut.to_bytes (h_getattr hdr body)
  | FuseRequest.Setattr body => reply u FuseAttrOut.to_bytes (h_setattr hdr body)
  | FuseRequest.Lookup name => reply u FuseEntryOut.to_bytes (h_lookup hdr name)
  | FuseRequest.Readlink => reply u (fun b => b) (h_readlink hdr)
  | FuseRequest.Mknod body name => reply u FuseEntryOut.to_bytes (h_mknod hdr body name)
  | FuseRequest.Mkdir body name => reply u FuseEntryOut.to_bytes (h_mkdir hdr body name)
  | FuseRequest.Unlink name => reply u (fun _ => []) (h_unlink hdr name)
  | FuseRequest.Rmdir name => reply u (fun _ => []) (h_rmdir hdr name)
  | FuseRequest.Symlink name target => reply u FuseEntryOut.to_bytes (h_symlink hdr name target)
  | FuseRequest.Rename body old_name new_name =>
      reply u (fun _ => []) (h_rename hdr body old_name new_name)
  | FuseRequest.Link body name => reply u FuseEntryOut.to_bytes (h_link hdr body name)
  | FuseRequest.Open body => reply u FuseOpenOut.to_bytes (h_open hdr body)
  | FuseRequest.Read body => reply u (fun b => b) (h_read hdr body)
  | FuseRequest.Write body data => reply u FuseWriteOut.to_bytes (h_write hdr body data)
  | FuseRequest.Statfs => reply u FuseStatfsOut.to_bytes (h_statfs hdr)
  | FuseRequest.Release body => reply u (fun _ => []) (h_release hdr body)
  | FuseRequest.Fsync body => reply u (fun _ => []) (h_fsync hdr body)
  | FuseRequest.Flush body => reply u (fun _ => []) (h_flush hdr body)
  | FuseRequest.Opendir body => reply u FuseOpenOut.to_bytes (h_opendir hdr body)
  | FuseRequest.Readdir body => reply u (fun b => b) (h_readdir hdr body)
  | FuseRequest.Releasedir body => reply u (fun _ => []) (h_releasedir hdr body)
  end.
End Dispatch.

(** ** Packets

    The packets a guest sends: the opcode of a request and what follows the
    header. *)

Module Packet.
Definition opcode (req : FuseRequest.t) : FuseOpcode.t :=
  match req with
  | FuseRequest.Init _ => FuseOpcode.Init
  | FuseRequest.Forget _ => FuseOpcode.Forget
  | FuseRequest.Getattr _ => FuseOpcode.Getattr
  | FuseRequest.Setattr _ => FuseOpcode.Setattr
  | FuseRequest.Lookup _ => FuseOpcode.Lookup
  | FuseRequest.Readlink => FuseOpcode.Readlink
  | FuseRequest.Mknod _ _ => FuseOpcode.Mknod
  | FuseRequest.Mkdir _ _ => FuseOpcode.Mkdir
  | FuseRequest.Unlink _ => FuseOpcode.Unlink
  | FuseRequest.Rmdir _ => FuseOpcode.Rmdir
  | FuseRequest.Symlink _ _ => FuseOpcode.Symlink
  | FuseRequest.Rename _ _ _ => FuseOpcode.Rename
  | FuseRequest.Link _ _ => FuseOpcode.Link
  | FuseRequest.Open _ => FuseOpcode.Open
  | FuseRequest.Read _ => FuseOpcode.Read
  | FuseRequest.Write _ _ => FuseOpcode.Write
  | FuseRequest.Statfs => FuseOpcode.Statfs
  | FuseRequest.Release _ => FuseOpcode.Release
  | FuseRequest.Fsync _ => FuseOpcode.Fsync
  | FuseRequest.Flush _ => FuseOpcode.Flush
  | FuseRequest.Opendir _ => FuseOpcode.Opendir
  | FuseRequest.Readdir _ => FuseOpcode.Readdir
  | FuseRequest.Releasedir _ => FuseOpcode.Releasedir
  | FuseRequest.Destroy => FuseOpcode.Destroy
  end.

(** A C string. *)
Definition c_str (s : bytes) : bytes := s ++ [Byte.x00].

Definition payload (req : FuseRequest.t) : bytes :=
  match req with
  | FuseRequest.Init b => FuseInitIn.to_bytes b
  | FuseRequest.Forget b => FuseForgetIn.to_bytes b
  | FuseRequest.Getattr b => FuseGetattrIn.to_bytes b
  | FuseRequest.Setattr b => FuseSetattrIn.to_bytes b
  | FuseRequest.Lookup name => name
  | FuseRequest.Readlink => []
  | FuseRequest.Mknod b name => FuseMknodIn.to_bytes b ++ name
  | FuseRequest.Mkdir b name => FuseMkdirIn.to_bytes b ++ name
  | FuseRequest.Unlink name => name
  | FuseRequest.Rmdir name => name
  | FuseRequest.Symlink name target => c_str name ++ c_str target
  | FuseRequest.Rename b old new => FuseRenameIn.to_bytes b ++ c_str old ++ c_str new
  | FuseRequest.Link b name => FuseLinkIn.to_bytes b ++ name
  | FuseRequest.Open b => FuseOpenIn.to_bytes b
  | FuseRequest.Read b => FuseReadIn.to_bytes b
  | FuseRequest.Write b data => FuseWriteIn.to_bytes b ++ data
  | FuseRequest.Statfs => []
  | FuseRequest.Release b => FuseReleaseIn.to_bytes b
  | FuseRequest.Fsync b => FuseFsyncIn.to_bytes b
  | FuseRequest.Flush b => FuseFlushIn.to_bytes b
  | FuseRequest.Opendir b => FuseOpenIn.to_bytes b
  | FuseRequest.Readdir b => FuseReadIn.to_bytes b
  | FuseRequest.Releasedir b => FuseReleaseIn.to_bytes b
  | FuseRequest.Destroy => []
  end.

Definition no_nul (s : bytes) : Prop := Byte.x00 ∉ s.

Definition wf (req : FuseRequest.t) : Prop :=
  match req with
  | FuseRequest.Init b => body_fits b
  | FuseRequest.Forget b => body_fits b
  | FuseRequest.Getattr b => body_fits b
  | FuseRequest.Setattr b => body_fits b
  | FuseRequest.Mknod b _ => body_fits b
  | FuseRequest.Mkdir b _ => body_fits b
  | FuseRequest.Symlink name target => no_nul name /\ no_nul target
  | FuseRequest.Rename b old new => body_fits b /\ no_nul old /\ no_nul new
  | FuseRequest.Link b _ => body_fits b
  | FuseRequest.Open b => body_fits b
  | FuseRequest.Read b => body_fits b
  | FuseRequest.Write b _ => body_fits b
  | FuseRequest.Release b => body_fits b
  | FuseRequest.Fsync b => body_fits b
  | FuseRequest.Flush b => body_fits b
  | FuseRequest.Opendir b => body_fits b
  | FuseRequest.Readdir b => body_fits b
  | FuseRequest.Releasedir b => body_fits b
  | _ => True
  end.

(** The size of the fixed body each opcode requires. *)
Definition fixed_len (op : FuseOpcode.t) : Z :=
  match op with
  | FuseOpcode.Init => FUSE_INIT_IN_LEN
  | FuseOpcode.Forget => FUSE_FORGET_IN_LEN
  | FuseOpcode.Getattr => FUSE_GETATTR_IN_LEN
  | FuseOpcode.Setattr => FUSE_SETATTR_IN_LEN
  | FuseOpcode.Mknod => FUSE_MKNOD_IN_LEN
  | FuseOpcode.Mkdir => FUSE_MKDIR_IN_LEN
  | FuseOpcode.Rename => FUSE_RENAME_IN_LEN
  | FuseOpcode.Link => FUSE_LINK_IN_LEN
  | FuseOpcode.Open | FuseOpcode.Opendir => FUSE_OPEN_IN_LEN
  | FuseOpcode.Read | FuseOpcode.Readdir => FUSE_READ_IN_LEN
  | FuseOpcode.Write => FUSE_WRITE_IN_LEN
  | FuseOpcode.Release | FuseOpcode.Releasedir => FUSE_RELEASE_IN_LEN
  | FuseOpcode.Fsync => FUSE_FSYNC_IN_LEN
  | FuseOpcode.Flush => FUSE_FLUSH_IN_LEN
  | _ => 0
  end.

(** How many C strings must follow the body. *)
Definition names_needed (op : FuseOpcode.t) : nat :=
  match op with FuseOpcode.Symlink | FuseOpcode.Rename => 2 | _ => 0 end.

Definition nuls (buf : bytes) : nat := length (filter (Byte.x00 =.) buf).

(** The packets the parser accepts. *)
Definition acceptable (buf : bytes) : bool :=
  (FUSE_IN_HDR_LEN <=? zlen buf) &&
  match FuseOpcode.from_raw (get buf 4 4) with
  | Ok op =>
      let body := drop 40 buf in
      (fixed_len op <=? zlen body) &&
      (names_needed op <=? nuls (drop (Z.to_nat (fixed_len op)) body))%nat
  | Err _ => false
  end.
End Packet.

(** ** Parsing *)

Import Packet.

Lemma nul_position_c_str s rest :
  no_nul s -> nul_position (c_str s ++ rest) = Some (length s).
Proof.
  unfold no_nul, c_str. induction s as [|b s IH]; intros Hs; [done|].
  apply not_elem_of_cons in Hs as [Hb Hs]. simpl. rewrite bool_decide_false by congruence.
  by rewrite IH.
Qed.

Lemma split_nul_c_str s rest : no_nul s -> split_nul (c_str s ++ rest) = Ok (s, rest).
Proof.
  intros Hs. unfold split_nul. rewrite nul_position_c_str by done. simpl. unfold c_str.
  rewrite <- app_assoc, take_app_length. repeat f_equal. change ([Byte.x00] ++ rest) with (Byte.x00 :: rest).
  by rewrite drop_app_ge, Nat.sub_succ_l, Nat.sub_diag by lia.
Qed.

Lemma split_two_c_str s s' :
  no_nul s -> no_nul s' -> split_two_nul_strings (c_str s ++ c_str s') = Ok (s, s').
Proof.
  intros Hs Hs'. unfold split_two_nul_strings. rewrite split_nul_c_str by done. simpl.
  rewrite <- (app_nil_r (c_str s')). by rewrite split_nul_c_str.
Qed.

Lemma nul_position_nuls buf :
  match nul_position buf with
  | Some pos => nuls buf = S (nuls (drop (S pos) buf))
  | None => nuls buf = 0%nat
  end.
Proof.
  unfold nuls. induction buf as [|b buf IH]; [done|]. cbn [nul_position].
  rewrite filter_cons. case_bool_decide as Hb.
  - rewrite decide_True by done. done.
  - rewrite decide_False by congruence. by destruct (nul_position buf).
Qed.

Lemma split_nul_nuls buf :
  match split_nul buf with
  | Ok (_, rest) => nuls buf = S (nuls rest)
  | Err e => nuls buf = 0%nat /\ e = ShortHeader (zlen buf) (zlen buf + 1)
  end.
Proof.
  pose proof (nul_position_nuls buf) as Hn. unfold split_nul.
  by destruct (nul_position buf).
Qed.

Lemma split_two_ok buf : is_ok (split_two_nul_strings buf) = (2 <=? nuls buf)%nat.
Proof.
  unfold split_two_nul_strings. pose proof (split_nul_nuls buf) as H1.
  destruct (split_nul buf) as [[first rest]|e]; simpl; [|by destruct H1 as [-> _]].
  pose proof (split_nul_nuls rest) as H2. rewrite H1.
  by destruct (split_nul rest) as [[second rest']|e]; simpl; [rewrite H2|destruct H2 as [-> _]].
Qed.

(** Whether a body is there is a matter of length. *)
Lemma body_ok {T} `{!FuseBody T, !FuseBodyLaws T} buf :
  is_ok (body_from_bytes (T := T) buf) = (body_len (T := T) <=? zlen buf).
Proof.
  destruct (Z.leb_spec (body_len (T := T)) (zlen buf)) as [Hl|Hl].
  - by destruct (body_read (T := T) buf Hl) as (b & -> & _).
  - by rewrite body_read_short.
Qed.

Ltac body_there :=
  lazymatch goal with
  | |- @is_ok _ ?T (?f ?b) = _ => exact (body_ok (T := T) b)
  end.

Lemma is_ok_fmap {E A B} (f : A -> B) (r : result E A) : is_ok (f <$> r) = is_ok r.
Proof. by destruct r. Qed.

Lemma is_ok_bind_ok {E A B} (f : A -> B) (r : result E A) :
  is_ok (a ← r; Ok (f a)) = is_ok r.
Proof. by destruct r. Qed.

Lemma is_ok_pair {E A B} (h : A) (r : result E B) :
  is_ok (req ← r; Ok (h, req)) = is_ok r.
Proof. by destruct r. Qed.

(** the parser accepts exactly the packets that hold a whole header with a
    known opcode, the fixed body of that opcode and, for [Symlink] and
    [Rename], two NUL-terminated names after it. *)
Theorem parse_request_accepts buf : is_ok (parse_request buf) = acceptable buf.
Proof.
  unfold parse_request, acceptable, FuseInHeader.from_bytes, checked_read.
  destruct (Z.ltb_spec (zlen buf) FUSE_IN_HDR_LEN) as [Hs|Hs].
  { by rewrite (proj2 (Z.leb_gt _ _)). }
  rewrite (proj2 (Z.leb_le _ _)) by done. cbn zeta.
  destruct (FuseOpcode.from_raw (get buf 4 4)) as [op|e]; [|done].
  cbn [mbind result_bind andb FuseInHeader.opcode]. rewrite is_ok_pair.
  change (Z.to_nat FUSE_IN_HDR_LEN) with 40%nat.
  assert (H0 : forall b : bytes, (0 <=? zlen b) = true).
  { intros b. apply Z.leb_le. unfold zlen. lia. }
  destruct op; cbn [fixed_len names_needed];
    rewrite ?is_ok_fmap, ?is_ok_bind_ok, ?H0;
    try (rewrite andb_true_r by done; first [reflexivity | body_there]).
  - rewrite drop_0, <- split_two_ok. by destruct (split_two_nul_strings _) as [[]|].
  - set (body := drop 40 buf). change (FuseRenameIn.from_bytes body) with (body_from_bytes (T := FuseRenameIn.t) body).
    pose proof (body_ok (T := FuseRenameIn.t) body) as Hb. cbn [body_len FuseRenameIn.body] in Hb.
    rewrite <- Hb, <- split_two_ok. destruct (body_from_bytes body); [|done].
    cbn [mbind result_bind is_ok andb]. by destruct (split_two_nul_strings _) as [[]|].
Qed.

Lemma body_drop {T} `{!FuseBody T, !FuseBodyLaws T} (b : T) rest :
  drop (Z.to_nat (body_len (T := T))) (body_to_bytes b ++ rest) = rest.
Proof.
  rewrite <- (body_to_bytes_length b). unfold zlen. rewrite Nat2Z.id. apply drop_app_length.
Qed.

(** Reads back the body at the front of a packet, and what follows it. *)
Ltac body_back :=
  repeat match goal with
  | Hf : body_fits (T := ?T) ?b |- context [?f (?g ?b ++ ?r)] =>
      replace (f (g b ++ r)) with (@Ok FuseError T b)
        by (symmetry; exact (body_decode_encode (T := T) b r Hf))
  | Hf : body_fits (T := ?T) ?b |- context [drop ?n (?g ?b ++ ?r)] =>
      replace (drop n (g b ++ r)) with r by (symmetry; exact (body_drop (T := T) b r))
  end.

(** a packet made of a header, the body of its operation and the names or
    data that follow is parsed back as that header and that request. *)
Theorem fuse_packet_roundtrip hdr req :
  FuseInHeader.wf hdr -> Packet.wf req -> FuseInHeader.opcode hdr = Packet.opcode req ->
  parse_request (FuseInHeader.to_bytes hdr ++ payload req) = Ok (hdr, req).
Proof.
  intros Hh Hr Hop. unfold parse_request.
  rewrite FuseInHeader.in_decode_encode by done. cbn [mbind result_bind].
  assert (Hd : drop (Z.to_nat FUSE_IN_HDR_LEN) (FuseInHeader.to_bytes hdr ++ payload req) = payload req).
  { rewrite drop_app_length'; [done|]. by rewrite FuseInHeader.in_to_bytes_encode, encode_length. }
  cbn zeta. rewrite Hd, Hop. clear Hd Hop Hh. rewrite <- (app_nil_r (payload req)).
  destruct req; cbn [Packet.opcode payload Packet.wf] in *;
    rewrite <- ?app_assoc; destruct_and?; body_back; rewrite ?app_nil_r; try done.
  - by rewrite split_two_c_str.
  - cbn [mbind result_bind]. by rewrite split_two_c_str.
Qed.

(** A rename request, encoded by hand and parsed. *)
Lemma fuse_packet_roundtrip_witness :
  let hdr := FuseInHeader.mk 60 FuseOpcode.Rename 9 1 0 0 77 0 0 in
  let req := FuseRequest.Rename (FuseRenameIn.mk 1) [Byte.x61] [Byte.x62; Byte.x63] in
  parse_request (FuseInHeader.to_bytes hdr ++ payload req) = Ok (hdr, req).
Proof.
  apply (fuse_packet_roundtrip (FuseInHeader.mk 60 FuseOpcode.Rename 9 1 0 0 77 0 0)
    (FuseRequest.Rename (FuseRenameIn.mk 1) [Byte.x61] [Byte.x62; Byte.x63])).
  - repeat constructor; simpl; lia.
  - simpl. split_and!; [repeat constructor; simpl; lia|..]; unfold no_nul; by apply (bool_decide_unpack _).
  - reflexivity.
Defined.

(** ** Replies *)

(** What the guest reads in a reply to [unique] whose handler answered [r]. *)
Definition reply_to (unique : Z) (r : result Z bytes) (out : bytes) : Prop :=
  exists h, FuseOutHeader.from_bytes out = Ok h /\ FuseOutHeader.unique h = unique /\
    match r with
    | Ok body =>
        FuseOutHeader.error h = 0 /\ drop 16 out = body /\
        (zlen out < 2 ^ 32 -> FuseOutHeader.len h = zlen out)
    | Err errno =>
        zlen out = 16 /\ FuseOutHeader.len h = 16 /\
        (- 2 ^ 31 < errno < 2 ^ 31 -> FuseOutHeader.error h = - Z.abs errno)
    end.

Lemma as_i32_range z : is_i32 (as_i32 z).
Proof. unfold is_i32, as_i32. change (2 ^ 31) with 2147483648. ulia. Qed.

Lemma encode_result_reply unique r :
  is_u64 unique -> exists out, encode_result unique r = Some out /\ reply_to unique r out.
Proof.
  intros Hu. destruct r as [body|errno]; cbn [encode_result]; cbn zeta; eexists; (split; [done|]).
  - exists (FuseOutHeader.ok unique (wrap32 (zlen body))). rewrite FuseOutHeader.out_decode_encode.
    2: { split_and!; [apply wrap32_range|done|done]. }
    split_and!; try done.
    unfold zlen. rewrite length_app, FuseOutHeader.to_bytes_length. intros Hl.
    unfold FuseOutHeader.ok. cbn [FuseOutHeader.len]. unfold FUSE_OUT_HDR_LEN. ulia.
  - exists (FuseOutHeader.err unique (Z.abs errno)).
    rewrite <- (app_nil_r (FuseOutHeader.to_bytes _)), FuseOutHeader.out_decode_encode.
    2: { split_and!; [done|apply as_i32_range|done]. }
    rewrite app_nil_r. split_and!; try done.
    intros He. unfold FuseOutHeader.err. cbn [FuseOutHeader.error]. unfold as_i32.
    change (2 ^ 31) with 2147483648 in *. ulia.
Qed.

(** What the handler did for a request: the answer [r] is the outcome of the
    method that serves the opcode, a body in the format of its type, and [s'] is
    the handler that method left behind. *)
Section Handled.
Context {H : Type} `{!FuseHandler H}.

Definition returns {A} (shows : A -> bytes -> Prop) (call : SM H Z A) (s : H) (r : result Z bytes) (s' : H) : Prop :=
  match call s with
  | (Ok b, s1) => s1 = s' /\ exists bs, r = Ok bs /\ shows b bs
  | (Err e, s1) => s1 = s' /\ r = Err e
  end.

Definition shows_body {T} `{!FuseBody T, !FuseBodyLaws T} (b : T) (bs : bytes) : Prop :=
  zlen bs = body_len (T := T) /\ (body_fits b -> body_from_bytes bs = Ok b).
Definition shows_bytes (b bs : bytes) : Prop := bs = b.
Definition shows_nothing (_ : unit) (bs : bytes) : Prop := bs = [].

Definition handled (hdr : FuseInHeader.t) (req : FuseRequest.t) : H -> result Z bytes -> H -> Prop :=
  match req with
  | FuseRequest.Init b => returns shows_body (h_init hdr b)
  | FuseRequest.Getattr b => returns shows_body (h_getattr hdr b)
  | FuseRequest.Setattr b => returns shows_body (h_setattr hdr b)
  | FuseRequest.Lookup name => returns shows_body (h_lookup hdr name)
  | FuseRequest.Readlink => returns shows_bytes (h_readlink hdr)
  | FuseRequest.Mknod b name => returns shows_body (h_mknod hdr b name)
  | FuseRequest.Mkdir b name => returns shows_body (h_mkdir hdr b name)
  | FuseRequest.Unlink name => returns shows_nothing (h_unlink hdr name)
  | FuseRequest.Rmdir name => returns shows_nothing (h_rmdir hdr name)
  | FuseRequest.Symlink name target => returns shows_body (h_symlink hdr name target)
  | FuseRequest.Rename b old new => returns shows_nothing (h_rename hdr b old new)
  | FuseRequest.Link b name => returns shows_body (h_link hdr b name)
  | FuseRequest.Open b => returns shows_body (h_open hdr b)
  | FuseRequest.Read b => returns shows_bytes (h_read hdr b)
  | FuseRequest.Write b data => returns shows_body (h_write hdr b data)
  | FuseRequest.Statfs => returns shows_body (h_statfs hdr)
  | FuseRequest.Release b => returns shows_nothing (h_release hdr b)
  | FuseRequest.Fsync b => returns shows_nothing (h_fsync hdr b)
  | FuseRequest.Flush b => returns shows_nothing (h_flush hdr b)
  | FuseRequest.Opendir b => returns shows_body (h_opendir hdr b)
  | FuseRequest.Readdir b => returns shows_bytes (h_readdir hdr b)
  | FuseRequest.Releasedir b => returns shows_nothing (h_releasedir hdr b)
  | FuseRequest.Forget _ | FuseRequest.Destroy => fun _ _ _ => False
  end.

Lemma shows_to_bytes {T} `{!FuseBody T, !FuseBodyLaws T} (b : T) : shows_body b (body_to_bytes b).
Proof.
  split; [apply body_to_bytes_length|]. intros Hf.
  rewrite <- (app_nil_r (body_to_bytes b)). by apply body_decode_encode.
Qed.

Lemma reply_returns {A} unique (shows : A -> bytes -> Prop) f (call : SM H Z A) s :
  is_u64 unique -> (forall b, shows b (f b)) ->
  exists r out s', reply unique f call s = (Some out, s') /\ returns shows call s r s' /\
    reply_to unique r out.
Proof.
  intros Hu Hs. unfold reply, returns. destruct (call s) as [r s'].
  destruct (encode_result_reply unique (f <$> r) Hu) as (out & -> & Hrep).
  exists (f <$> r), out, s'. split_and!; [done| |done]. destruct r; simpl; eauto.
Qed.
End Handled.

(** C34: every request but [Forget] and [Destroy] is answered, whatever the
    handler does: the method serving its opcode runs once, and the reply
    carries the request's id with either a zero status and exactly the body
    that method returned, readable as its type, or its negated errno and no
    body; the length field is the length of the reply (below 4 GiB). [Forget] and
    [Destroy] run their method and are not answered. *)
Theorem dispatch_reply {H} `{!FuseHandler H} hdr req (s : H) :
  is_u64 (FuseInHeader.unique hdr) ->
  match req with
  | FuseRequest.Forget body => dispatch hdr req s = (None, h_forget hdr body s)
  | FuseRequest.Destroy => dispatch hdr req s = (None, h_destroy hdr s)
  | _ => exists r out s', dispatch hdr req s = (Some out, s') /\
      handled hdr req s r s' /\ reply_to (FuseInHeader.unique hdr) r out
  end.
Proof.
  intros Hu. destruct req; try done; cbn [dispatch handled];
    (apply reply_returns; [done|]);
    first [done | intros b; exact (shows_to_bytes b)].
Qed.

Lemma dispatch_reply_witness :
  let hdr := FuseInHeader.mk 40 FuseOpcode.Statfs 7 1 0 0 0 0 0 in
  exists r out s', dispatch (FuseHandler0 := default_handler unit) hdr FuseRequest.Statfs tt = (Some out, s') /\
    handled (FuseHandler0 := default_handler unit) hdr FuseRequest.Statfs tt r s' /\ reply_to 7 r out.
Proof.
  apply (dispatch_reply (FuseHandler0 := default_handler unit)
    (FuseInHeader.mk 40 FuseOpcode.Statfs 7 1 0 0 0 0 0) FuseRequest.Statfs tt).
  vm_compute. split; [discriminate|reflexivity].
Defined.

(** A handler that implements nothing answers [ENOSYS]. *)
Example default_handler_enosys :
  fst (dispatch (FuseHandler0 := default_handler unit)
        (FuseInHeader.mk 40 FuseOpcode.Statfs 7 1 0 0 0 0 0) FuseRequest.Statfs tt) =
  Some (FuseOutHeader.to_bytes (FuseOutHeader.mk 16 (-38) 7)).
Proof. reflexivity. Qed.
