(* ===== verification/StdFs.v ===== *)
(** * virtio-fs: the handler over the host's file system

    Models [crates/virtio-fs/src/std_fs.rs]. The handler gives the guest node
    ids for host paths and file handles for open files; the host's file system
    itself is the interface [HostFs] over its state [W]. A [PathBuf] is a
    string; maps keyed by paths use [Path]'s equality, which is that of the
    components. *)

From Stdlib Require Import Ascii String.
From stdpp Require Import strings vector.
From S2P Require Import Prelude Str FuseWire FuseBody FuseDirent Fs FuseDispatch.

Definition ROOT_NODE_ID : Z := 1.
Definition ATTR_TTL_SECS : Z := 1.
Definition ENOENT : Z := 2.
Definition EIO : Z := 5.
Definition EBADF : Z := 9.
Definition EEXIST : Z := 17.
Definition ENOTDIR : Z := 20.
Definition EISDIR : Z := 21.
Definition ENOTEMPTY : Z := 39.

(** Octal in the source. *)
Definition O_ACCMODE : Z := 3.
Definition O_WRONLY : Z := 1.
Definition O_RDWR : Z := 2.
Definition O_APPEND : Z := 1024.
Definition O_TRUNC : Z := 512.
Definition O_CREAT : Z := 64.
Definition S_IFMT : Z := 61440.
Definition S_IFREG : Z := 32768.
Definition MODE_BITS : Z := 4095.

Definition U64_MAX : Z := 2 ^ 64 - 1.

(** ** Paths as keys *)

#[global] Instance component_eq_dec : EqDecision Component.
Proof. solve_decision. Defined.

#[global] Program Instance component_countable : Countable Component :=
  inj_countable'
    (fun c => match c with
              | RootDir => inl (inl ()) | CurDir => inl (inr ())
              | ParentDir => inr (inl ()) | Normal s => inr (inr s) end)
    (fun x => match x with
              | inl (inl _) => RootDir | inl (inr _) => CurDir
              | inr (inl _) => ParentDir | inr (inr s) => Normal s end) _.
Next Obligation. by intros []. Qed.

Abbreviation key := (list Component).

(** The path of the components left by [strip_prefix]. *)
Definition render_part (c : Component) : string :=
  match c with RootDir => "" | CurDir => "." | ParentDir => ".." | Normal s => s end.

Fixpoint render (cs : key) : string :=
  match cs with
  | [] => ""
  | [c] => render_part c
  | c :: cs => render_part c +:+ "/" +:+ render cs
  end.

Definition render_path (cs : key) : string :=
  match cs with [RootDir] => "/" | _ => render cs end.

(** [Path::parent], whose result is a path with the same components. *)
Definition path_parent (p : string) : option string :=
  match last (components p) with
  | None | Some RootDir => None
  | Some _ => Some (render_path (removelast (components p)))
  end.

(** ** The host *)

Inductive IoErrorKind : Type :=
| NotFound | AlreadyExists | PermissionDenied | InvalidInput
| DirectoryNotEmpty | IsADirectory | NotADirectory | OtherKind.

Definition io_to_errno (kind : IoErrorKind) : Z :=
  match kind with
  | NotFound => ENOENT
  | AlreadyExists => EEXIST
  | PermissionDenied => EIO
  | InvalidInput => EINVAL
  | DirectoryNotEmpty => ENOTEMPTY
  | IsADirectory => EISDIR
  | NotADirectory => ENOTDIR
  | OtherKind => EIO
  end.

Module Metadata.
Record t : Type := mk {
  is_dir : bool;
  size : Z; blocks : Z;
  atime : Z; mtime : Z; ctime : Z;
  atime_nsec : Z; mtime_nsec : Z; ctime_nsec : Z;
  mode : Z; nlink : Z; uid : Z; gid : Z; rdev : Z; blksize : Z;
}.
End Metadata.

Module FileType.
Record t : Type := mk { is_dir : bool; is_symlink : bool; is_file : bool }.
End FileType.

Module DirEntry.
(** [file_name] is the name after [to_string_lossy]. *)
Record t : Type := mk {
  path : string;
  file_type : result IoErrorKind FileType.t;
  file_name : string;
}.
End DirEntry.

Module OpenOptions.
Record t : Type := mk {
  read : bool; write : bool; append : bool; truncate : bool; create : bool; create_new : bool;
}.

Definition new : t := mk false false false false false false.
End OpenOptions.

Class HostFs (W File : Type) := {
  host_metadata : W -> string -> result IoErrorKind Metadata.t;
  host_symlink_metadata : W -> string -> result IoErrorKind Metadata.t;
  host_canonicalize : W -> string -> result IoErrorKind string;
  host_read_link : W -> string -> result IoErrorKind bytes;
  host_read_dir : W -> string -> result IoErrorKind (list (result IoErrorKind DirEntry.t));
  host_open : OpenOptions.t -> string -> SM W IoErrorKind File;
  host_set_permissions : string -> Z -> SM W IoErrorKind unit;
  host_create_dir : string -> SM W IoErrorKind unit;
  host_remove_file : string -> SM W IoErrorKind unit;
  host_remove_dir : string -> SM W IoErrorKind unit;
  host_symlink : string -> string -> SM W IoErrorKind unit;
  host_rename : string -> string -> SM W IoErrorKind unit;
  host_hard_link : string -> string -> SM W IoErrorKind unit;
  file_set_len : File -> Z -> SM W IoErrorKind unit;
  file_seek : File -> Z -> SM W IoErrorKind unit;
  file_read : File -> Z -> SM W IoErrorKind bytes;
  file_write : File -> bytes -> SM W IoErrorKind Z;
  file_sync_data : File -> SM W IoErrorKind unit;
  file_sync_all : File -> SM W IoErrorKind unit;
  file_flush : File -> SM W IoErrorKind unit;
}.

Definition metadata_to_attr (nodeid : Z) (meta : Metadata.t) : FuseAttr.t := {|
  FuseAttr.ino := nodeid;
  FuseAttr.size := Metadata.size meta;
  FuseAttr.blocks := Metadata.blocks meta;
  FuseAttr.atime := wrap64 (Metadata.atime meta);
  FuseAttr.mtime := wrap64 (Metadata.mtime meta);
  FuseAttr.ctime := wrap64 (Metadata.ctime meta);
  FuseAttr.atimensec := wrap32 (Metadata.atime_nsec meta);
  FuseAttr.mtimensec := wrap32 (Metadata.mtime_nsec meta);
  FuseAttr.ctimensec := wrap32 (Metadata.ctime_nsec meta);
  FuseAttr.mode := Metadata.mode meta;
  FuseAttr.nlink := wrap32 (Metadata.nlink meta);
  FuseAttr.uid := Metadata.uid meta;
  FuseAttr.gid := Metadata.gid meta;
  FuseAttr.rdev := wrap32 (Metadata.rdev meta);
  FuseAttr.blksize := wrap32 (Metadata.blksize meta);
  FuseAttr.flags := 0;
|}.

Definition file_type_to_dt (ft : FileType.t) : Z :=
  if FileType.is_dir ft then dt.DIR
  else if FileType.is_symlink ft then dt.LNK
  else if FileType.is_file ft then dt.REG
  else dt.UNKNOWN.

(** ** The handler *)

Module StdFsHandler.
Section StdFsHandler.
Context {W File : Type} `{!HostFs W File}.

Record t : Type := mk {
  host : W;
  nodes : gmap Z string;
  paths : gmap key Z;
  lookup_counts : gmap Z Z;
  next_node : Z;
  next_handle : Z;
  files : gmap Z File;
  dirs : gmap Z string;
}.

Definition set_host (w : W) (s : t) : t :=
  mk w (nodes s) (paths s) (lookup_counts s) (next_node s) (next_handle s) (files s) (dirs s).
Definition set_nodes (m : gmap Z string) (s : t) : t :=
  mk (host s) m (paths s) (lookup_counts s) (next_node s) (next_handle s) (files s) (dirs s).
Definition set_paths (m : gmap key Z) (s : t) : t :=
  mk (host s) (nodes s) m (lookup_counts s) (next_node s) (next_handle s) (files s) (dirs s).
Definition set_lookup_counts (m : gmap Z Z) (s : t) : t :=
  mk (host s) (nodes s) (paths s) m (next_node s) (next_handle s) (files s) (dirs s).
Definition set_next_node (n : Z) (s : t) : t :=
  mk (host s) (nodes s) (paths s) (lookup_counts s) n (next_handle s) (files s) (dirs s).
Definition set_next_handle (n : Z) (s : t) : t :=
  mk (host s) (nodes s) (paths s) (lookup_counts s) (next_node s) n (files s) (dirs s).
Definition set_files (m : gmap Z File) (s : t) : t :=
  mk (host s) (nodes s) (paths s) (lookup_counts s) (next_node s) (next_handle s) m (dirs s).
Definition set_dirs (m : gmap Z string) (s : t) : t :=
  mk (host s) (nodes s) (paths s) (lookup_counts s) (next_node s) (next_handle s) (files s) m.

(** A host call, its error turned into an errno. *)
Definition io {A} (call : SM W IoErrorKind A) : SM t Z A := fun s =>
  let '(r, w) := call (host s) in (map_err io_to_errno r, set_host w s).

Definition query {A} (call : W -> result IoErrorKind A) : SM t Z A := fun s =>
  (map_err io_to_errno (call (host s)), s).

Definition new (root : string) (w : W) : result IoErrorKind t :=
  meta ← host_metadata w root;
  if negb (Metadata.is_dir meta) then Err InvalidInput
  else
    root ← host_canonicalize w root;
    Ok {| host := w;
          nodes := {[ ROOT_NODE_ID := root ]};
          paths := {[ components root := ROOT_NODE_ID ]};
          lookup_counts := {[ ROOT_NODE_ID := U64_MAX ]};
          next_node := ROOT_NODE_ID + 1;
          next_handle := 1;
          files := ∅;
          dirs := ∅ |}.

Definition resolve_node (nodeid : Z) : SM t Z string := fun s =>
  (ok_or ENOENT (nodes s !! nodeid), s).

Definition register_path (path : string) (s : t) : Z * t :=
  match paths s !! components path with
  | Some id => (id, s)
  | None =>
      let id := next_node s in
      let s := set_next_node (wrap64 (next_node s + 1)) s in
      let s := set_nodes (<[id := path]> (nodes s)) s in
      (id, set_paths (<[components path := id]> (paths s)) s)
  end.

Definition forget_path (path : string) (s : t) : t :=
  match paths s !! components path with
  | Some id =>
      let s := set_paths (delete (components path) (paths s)) s in
      let s := set_nodes (delete id (nodes s)) s in
      set_lookup_counts (delete id (lookup_counts s)) s
  | None => s
  end.

(** [strip_prefix] *)
Fixpoint strip_prefix (base k : key) : option key :=
  match base, k with
  | [], _ => Some k
  | b :: base, c :: k => if bool_decide (b = c) then strip_prefix base k else None
  | _ :: _, [] => None
  end.

(** One turn of the loop over the keys under [old_base]. *)
Definition rebase_one (old_base new_base : string) (s : t) (old : key) : t :=
  match paths s !! old with
  | None => s
  | Some id =>
      let s := set_paths (delete old (paths s)) s in
      match strip_prefix (components old_base) old with
      | None => s
      | Some suffix =>
          let new := push new_base (render suffix) in
          let s := set_paths (<[components new := id]> (paths s)) s in
          set_nodes (<[id := new]> (nodes s)) s
      end
  end.

(** The keys are visited in the map's order, which the code leaves open too. *)
Definition rebase_paths (old_base new_base : string) (s : t) : t :=
  let old_paths :=
    filter (fun k => is_Some (strip_prefix (components old_base) k)) (map_to_list (paths s)).*1 in
  foldl (rebase_one old_base new_base) s old_paths.

Definition child_path (parent : Z) (raw_name : bytes) : SM t Z string :=
  let name := match split_nul raw_name with Ok (name, _) => name | Err _ => raw_name end in
  name ← sm_lift (ok_or EINVAL (from_utf8 name));
  match components name with
  | [Normal _] =>
      p ← resolve_node parent;
      mret (push p name)
  | _ => sm_fail EINVAL
  end.

Definition node_attr (path : string) : SM t Z (Z * FuseAttr.t) :=
  meta ← query (fun w => host_symlink_metadata w path);
  id ← (fun s => let '(id, s) := register_path path s in (Ok id, s)) : SM t Z Z;
  mret (id, metadata_to_attr id meta).

(** [entry(id).and_modify(|n| n.saturating_add(1)).or_insert(1)] *)
Definition bump (id : Z) (s : t) : t :=
  if id =? ROOT_NODE_ID then s
  else
    let n := match lookup_counts s !! id with Some n => Z.min (n + 1) U64_MAX | None => 1 end in
    set_lookup_counts (<[id := n]> (lookup_counts s)) s.

Definition entry_for_path (path : string) : SM t Z FuseEntryOut.t :=
  '(id, attr) ← node_attr path;
  _ ← sm_modify (bump id);
  mret {|
    FuseEntryOut.nodeid := id;
    FuseEntryOut.generation := 0;
    FuseEntryOut.entry_valid := ATTR_TTL_SECS;
    FuseEntryOut.attr_valid := ATTR_TTL_SECS;
    FuseEntryOut.entry_valid_nsec := 0;
    FuseEntryOut.attr_valid_nsec := 0;
    FuseEntryOut.attr := attr;
  |}.

Definition attr_out (path : string) : SM t Z FuseAttrOut.t :=
  '(_, attr) ← node_attr path;
  mret {|
    FuseAttrOut.attr_valid := ATTR_TTL_SECS;
    FuseAttrOut.attr_valid_nsec := 0;
    FuseAttrOut.dummy := 0;
    FuseAttrOut.attr := attr;
  |}.

Definition next_fh : SM t Z Z := fun s =>
  (Ok (next_handle s), set_next_handle (wrap64 (next_handle s + 1)) s).

Definition resolve_file (fh : Z) : SM t Z File := fun s => (ok_or EBADF (files s !! fh), s).

Definition resolve_dir (fh : Z) : SM t Z string := fun s => (ok_or EBADF (dirs s !! fh), s).

(** The entries of a listing: the two dots, then what the host returns. *)
Definition dir_entries (dir : string) : SM t Z (list (string * Z * string)) :=
  let dot := (".", dt.DIR, dir) in
  let dotdot := ("..", dt.DIR, default dir (path_parent dir)) in
  read_dir ← query (fun w => host_read_dir w dir);
  entries ← sm_lift (mapM (fun entry =>
    entry ← map_err io_to_errno entry;
    ftype ← file_type_to_dt <$> map_err io_to_errno (DirEntry.file_type entry);
    Ok (DirEntry.file_name entry, ftype, DirEntry.path entry)) read_dir);
  mret (dot :: dotdot :: entries).

(** The loop over [entries.into_iter().enumerate().skip(start)]: every visited
    path is registered, also the one that no longer fits. *)
Fixpoint push_entries (idx : Z) (entries : list (string * Z * string))
    (writer : FuseDirentWriter.t) (s : t) : FuseDirentWriter.t * t :=
  match entries with
  | [] => (writer, s)
  | (name, ftype, path) :: entries =>
      let '(nodeid, s) := register_path path s in
      match FuseDirentWriter.push nodeid (wrap64 (idx + 1)) ftype (bytes_of_string name) writer with
      | (Err _, writer) => (writer, s)
      | (Ok _, writer) => push_entries (idx + 1) entries writer s
      end
  end.

Definition build_dirent_payload (dir : string) (start cap : Z) : SM t Z bytes :=
  entries ← dir_entries dir;
  writer ← (fun s =>
    let '(writer, s) :=
      push_entries start (drop (Z.to_nat start) entries) (FuseDirentWriter.with_capacity cap) s in
    (Ok writer, s)) : SM t Z FuseDirentWriter.t;
  mret (FuseDirentWriter.into_bytes writer).

Definition forget_node (nodeid nlookup : Z) (s : t) : t :=
  if nodeid =? ROOT_NODE_ID then s
  else
    let count := default 0 (lookup_counts s !! nodeid) in
    if count <=? nlookup then
      let s := match nodes s !! nodeid with
               | Some path =>
                   let s := set_nodes (delete nodeid (nodes s)) s in
                   set_paths (delete (components path) (paths s)) s
               | None => s
               end in
      set_lookup_counts (delete nodeid (lookup_counts s)) s
    else set_lookup_counts (<[nodeid := count - nlookup]> (lookup_counts s)) s.

(** ** The trait methods *)

Definition init (_ : FuseInHeader.t) (req : FuseInitIn.t) : SM t Z FuseInitOut.t :=
  mret (FuseInitOut.minimal FUSE_KERNEL_VERSION FUSE_KERNEL_MINOR_VERSION
          (FuseInitIn.max_readahead req) 0 (1024 * 1024)).

Definition forget (hdr : FuseInHeader.t) (req : FuseForgetIn.t) : t -> t :=
  forget_node (FuseInHeader.nodeid hdr) (FuseForgetIn.nlookup req).

Definition destroy (_ : FuseInHeader.t) (s : t) : t :=
  let s' := mk (host s) ∅ ∅ ∅ (next_node s) (next_handle s) (files s) (dirs s) in
  let s' := match nodes s !! ROOT_NODE_ID with
            | Some root_path =>
                let s' := set_nodes (<[ROOT_NODE_ID := root_path]> (nodes s')) s' in
                let s' := set_paths (<[components root_path := ROOT_NODE_ID]> (paths s')) s' in
                set_lookup_counts (<[ROOT_NODE_ID := U64_MAX]> (lookup_counts s')) s'
            | None => s'
            end in
  set_dirs ∅ (set_files ∅ s').

Definition getattr (hdr : FuseInHeader.t) (_ : FuseGetattrIn.t) : SM t Z FuseAttrOut.t :=
  path ← resolve_node (FuseInHeader.nodeid hdr);
  attr_out path.

Definition sm_when {S E} (b : bool) (c : SM S E unit) : SM S E unit := if b then c else mret tt.

Definition setattr (hdr : FuseInHeader.t) (req : FuseSetattrIn.t) : SM t Z FuseAttrOut.t :=
  path ← resolve_node (FuseInHeader.nodeid hdr);
  _ ← sm_when (has_flag (FuseSetattrIn.valid req) fattr.SIZE)
        (file ← io (host_open (OpenOptions.mk false true false false false false) path);
         io (file_set_len file (FuseSetattrIn.size req)));
  _ ← sm_when (has_flag (FuseSetattrIn.valid req) fattr.MODE)
        (io (host_set_permissions path (Z.land (FuseSetattrIn.mode req) MODE_BITS)));
  if negb (Z.land (FuseSetattrIn.valid req)
             (2 ^ 32 - 1 - Z.lor fattr.SIZE fattr.MODE) =? 0)
  then sm_fail ENOSYS
  else attr_out path.

Definition lookup (hdr : FuseInHeader.t) (name : bytes) : SM t Z FuseEntryOut.t :=
  path ← child_path (FuseInHeader.nodeid hdr) name;
  entry_for_path path.

Definition readlink (hdr : FuseInHeader.t) : SM t Z bytes :=
  path ← resolve_node (FuseInHeader.nodeid hdr);
  query (fun w => host_read_link w path).

Definition mknod (hdr : FuseInHeader.t) (req : FuseMknodIn.t) (name : bytes) : SM t Z FuseEntryOut.t :=
  path ← child_path (FuseInHeader.nodeid hdr) name;
  let kind := Z.land (FuseMknodIn.mode req) S_IFMT in
  if negb (kind =? 0) && negb (kind =? S_IFREG) then sm_fail ENOSYS
  else
    _ ← io (host_open (OpenOptions.mk false true false false false true) path);
    _ ← io (host_set_permissions path (Z.land (FuseMknodIn.mode req) MODE_BITS));
    entry_for_path path.

Definition mkdir (hdr : FuseInHeader.t) (req : FuseMkdirIn.t) (name : bytes) : SM t Z FuseEntryOut.t :=
  path ← child_path (FuseInHeader.nodeid hdr) name;
  _ ← io (host_create_dir path);
  _ ← io (host_set_permissions path (Z.land (FuseMkdirIn.mode req) MODE_BITS));
  entry_for_path path.

Definition unlink (hdr : FuseInHeader.t) (name : bytes) : SM t Z unit :=
  path ← child_path (FuseInHeader.nodeid hdr) name;
  _ ← io (host_remove_file path);
  sm_modify (forget_path path).

Definition rmdir (hdr : FuseInHeader.t) (name : bytes) : SM t Z unit :=
  path ← child_path (FuseInHeader.nodeid hdr) name;
  _ ← io (host_remove_dir path);
  sm_modify (forget_path path).

Definition symlink (hdr : FuseInHeader.t) (name target : bytes) : SM t Z FuseEntryOut.t :=
  link ← child_path (FuseInHeader.nodeid hdr) name;
  target ← sm_lift (ok_or EINVAL (from_utf8 target));
  _ ← io (host_symlink target link);
  entry_for_path link.

Definition rename (hdr : FuseInHeader.t) (req : FuseRenameIn.t) (old_name new_name : bytes) :
    SM t Z unit :=
  old_path ← child_path (FuseInHeader.nodeid hdr) old_name;
  new_path ← child_path (FuseRenameIn.newdir req) new_name;
  _ ← io (host_rename old_path new_path);
  sm_modify (rebase_paths old_path new_path).

Definition link (hdr : FuseInHeader.t) (req : FuseLinkIn.t) (name : bytes) : SM t Z FuseEntryOut.t :=
  src ← resolve_node (FuseLinkIn.oldnodeid req);
  dst ← child_path (FuseInHeader.nodeid hdr) name;
  _ ← io (host_hard_link src dst);
  entry_for_path dst.

Definition open_options (flags : Z) : OpenOptions.t :=
  let acc := Z.land flags O_ACCMODE in
  let '(read, write) :=
    if acc =? O_WRONLY then (false, true)
    else if acc =? O_RDWR then (true, true)
    else (true, false) in
  OpenOptions.mk read write (has_flag flags O_APPEND) (has_flag flags O_TRUNC)
    (has_flag flags O_CREAT) false.

Definition open (hdr : FuseInHeader.t) (req : FuseOpenIn.t) : SM t Z FuseOpenOut.t :=
  path ← resolve_node (FuseInHeader.nodeid hdr);
  file ← io (host_open (open_options (FuseOpenIn.flags req)) path);
  fh ← next_fh;
  _ ← sm_modify (fun s => set_files (<[fh := file]> (files s)) s);
  mret {| FuseOpenOut.fh := fh; FuseOpenOut.open_flags := 0; FuseOpenOut.padding := 0 |}.

Definition read (_ : FuseInHeader.t) (req : FuseReadIn.t) : SM t Z bytes :=
  file ← resolve_file (FuseReadIn.fh req);
  _ ← io (file_seek file (FuseReadIn.offset req));
  io (file_read file (FuseReadIn.size req)).

Definition write (_ : FuseInHeader.t) (req : FuseWriteIn.t) (data : bytes) : SM t Z FuseWriteOut.t :=
  file ← resolve_file (FuseWriteIn.fh req);
  _ ← io (file_seek file (FuseWriteIn.offset req));
  written ← io (file_write file data);
  mret {| FuseWriteOut.size := wrap32 written; FuseWriteOut.padding := 0 |}.

Definition statfs (_ : FuseInHeader.t) : SM t Z FuseStatfsOut.t := fun s =>
  (Ok {|
     FuseStatfsOut.blocks := 0;
     FuseStatfsOut.bfree := 0;
     FuseStatfsOut.bavail := 0;
     FuseStatfsOut.files := Z.of_nat (size (paths s));
     FuseStatfsOut.ffree := 0;
     FuseStatfsOut.bsize := 4096;
     FuseStatfsOut.namelen := 255;
     FuseStatfsOut.frsize := 4096;
     FuseStatfsOut.padding := 0;
     FuseStatfsOut.spare := vreplicate 6 0;
   |}, s).

Definition release (_ : FuseInHeader.t) (req : FuseReleaseIn.t) : SM t Z unit :=
  _ ← resolve_file (FuseReleaseIn.fh req);
  sm_modify (fun s => set_files (delete (FuseReleaseIn.fh req) (files s)) s).

Definition fsync (_ : FuseInHeader.t) (req : FuseFsyncIn.t) : SM t Z unit :=
  file ← resolve_file (FuseFsyncIn.fh req);
  if has_flag (FuseFsyncIn.fsync_flags req) FUSE_FSYNC_FDATASYNC
  then io (file_sync_data file) else io (file_sync_all file).

Definition flush (_ : FuseInHeader.t) (req : FuseFlushIn.t) : SM t Z unit :=
  file ← resolve_file (FuseFlushIn.fh req);
  io (file_flush file).

Definition opendir (hdr : FuseInHeader.t) (_ : FuseOpenIn.t) : SM t Z FuseOpenOut.t :=
  path ← resolve_node (FuseInHeader.nodeid hdr);
  meta ← query (fun w => host_metadata w path);
  if negb (Metadata.is_dir meta) then sm_fail ENOTDIR
  else
    fh ← next_fh;
    _ ← sm_modify (fun s => set_dirs (<[fh := path]> (dirs s)) s);
    mret {| FuseOpenOut.fh := fh; FuseOpenOut.open_flags := 0; FuseOpenOut.padding := 0 |}.

Definition readdir (_ : FuseInHeader.t) (req : FuseReadIn.t) : SM t Z bytes :=
  dir ← resolve_dir (FuseReadIn.fh req);
  build_dirent_payload dir (FuseReadIn.offset req) (FuseReadIn.size req).

Definition releasedir (_ : FuseInHeader.t) (req : FuseReleaseIn.t) : SM t Z unit :=
  _ ← resolve_dir (FuseReleaseIn.fh req);
  sm_modify (fun s => set_dirs (delete (FuseReleaseIn.fh req) (dirs s)) s).

#[global] Instance std_fs_handler : FuseHandler t := {|
  h_init := init; h_forget := forget; h_getattr := getattr; h_setattr := setattr;
  h_lookup := lookup; h_readlink := readlink; h_mknod := mknod; h_mkdir := mkdir;
  h_unlink := unlink; h_rmdir := rmdir; h_symlink := symlink; h_rename := rename;
  h_link := link; h_open := open; h_read := read; h_write := write; h_statfs := statfs;
  h_release := release; h_fsync := fsync; h_flush := flush; h_opendir := opendir;
  h_readdir := readdir; h_releasedir := releasedir; h_destroy := destroy;
|}.
End StdFsHandler.
Arguments t W File : clear implicits.
End StdFsHandler.
