(* ===== verification/StdFsTables.v ===== *)
(** * virtio-fs: the node and handle tables of the host-backed handler

    What [StdFs] keeps between requests: node ids and paths are inverse to each
    other, every path lies under the shared root, lookup counts belong to live
    nodes and handles are fresh. The invariant is proved of every request that
    reaches the handler through the dispatcher, apart from the two cases in
    which the code breaks it, which have their examples at the end. *)

From Stdlib Require Import Ascii String.
From stdpp Require Import strings vector.
From S2P Require Import Prelude Str FuseWire FuseBody FuseDirent Fs FuseDispatch StdFs.

(** ** Paths *)

Lemma plain_part n : plain n -> part_component n = Some (Normal n).
Proof.
  intros (He & Hd & Hdd & _). unfold part_component.
  by rewrite !(proj2 (String.eqb_neq _ _)).
Qed.

Lemma plain_not_absolute n s : plain n -> is_absolute (n +:+ s) = false.
Proof.
  intros (He & _ & _ & Hs). destruct n as [|c n]; [done|]. simpl.
  apply bool_decide_false. intros ->. apply Hs. left.
Qed.

Lemma string_app_nil (s : string) : s +:+ "" = s.
Proof.
  induction s as [|c s IH]; [done|]. change (String c (s +:+ "") = String c s). by rewrite IH.
Qed.

(** Plain names joined by slashes are read back as those names. *)
Lemma render_names ns :
  Forall plain ns ->
  is_absolute (render (Normal <$> ns)) = false /\ added (render (Normal <$> ns)) = Normal <$> ns.
Proof.
  unfold added. induction 1 as [|n ns Hn _ IH]; [done|].
  assert (Hs : split_slash n = [n]) by by apply split_slash_plain, Hn.
  destruct ns as [|n' ns].
  - cbn [fmap list_fmap render render_part]. split.
    + rewrite <- (string_app_nil n). by apply plain_not_absolute.
    + rewrite Hs. simpl. by rewrite plain_part.
  - destruct IH as [_ IH]. change (render (Normal <$> n :: n' :: ns))
      with (n +:+ "/" +:+ render (Normal <$> n' :: ns)). split; [by apply plain_not_absolute|].
    rewrite split_slash_app, omap_app, IH, Hs. simpl. by rewrite plain_part.
Qed.

Lemma render_path_absolute ns :
  Forall plain ns ->
  is_absolute (render_path (RootDir :: (Normal <$> ns))) = true /\
  components (render_path (RootDir :: (Normal <$> ns))) = RootDir :: (Normal <$> ns).
Proof.
  intros Hns. destruct ns as [|n ns]; [done|].
  change (render_path (RootDir :: (Normal <$> n :: ns))) with ("" +:+ "/" +:+ render (Normal <$> n :: ns)).
  split; [done|]. rewrite components_absolute by done. f_equal.
  apply render_names in Hns as [_ Hr]. unfold added in Hr. by rewrite split_slash_app, omap_app, Hr.
Qed.

Lemma names_plain p cs ns :
  components p = cs ++ (Normal <$> ns) -> Forall plain ns.
Proof.
  intros Hp. apply Forall_forall. intros n Hn. apply (components_plain p). rewrite Hp.
  apply elem_of_app. right. by apply list_elem_of_fmap_2.
Qed.

Lemma path_parent_child p ns n :
  components p = RootDir :: (Normal <$> ns ++ [n]) ->
  exists q, path_parent p = Some q /\ is_absolute q = true /\
    components q = RootDir :: (Normal <$> ns).
Proof.
  intros Hp. assert (Hns : Forall plain (ns ++ [n])) by by apply (names_plain p [RootDir]).
  apply Forall_app in Hns as [Hns _]. apply render_path_absolute in Hns as [Ha Hc].
  unfold path_parent. rewrite Hp, fmap_app, app_comm_cons. cbn [fmap list_fmap].
  rewrite last_snoc, removelast_last. by eexists.
Qed.

Lemma strip_prefix_spec base k suffix :
  StdFsHandler.strip_prefix base k = Some suffix <-> k = base ++ suffix.
Proof.
  revert k. induction base as [|b base IH]; intros k; simpl.
  - split; [by intros [= ->]|by intros ->].
  - destruct k as [|c k]; [done|]. case_bool_decide as Hb.
    + subst c. rewrite IH. split; [by intros ->|by intros [= ->]].
    + split; [done|]. intros [= <- _]. done.
Qed.

(** What the standard library documents of [DirEntry::path]: the listed
    directory joined with the entry's name. *)
Class HostFsLaws (W File : Type) `{!HostFs W File} := {
  read_dir_entry w d es e :
    host_read_dir w d = Ok es -> Ok e ∈ es -> is_absolute d = true ->
    exists n, is_absolute (DirEntry.path e) = true /\
      components (DirEntry.path e) = components d ++ [Normal n];
  (** "The canonical, absolute form of a path with all intermediate components
      normalized". *)
  canonicalize_absolute w p q :
    host_canonicalize w p = Ok q ->
    is_absolute q = true /\ exists ns, components q = RootDir :: (Normal <$> ns);
}.

Module Tables.
Import StdFsHandler.

Section Tables.
Context {W File : Type} `{!HostFs W File, !HostFsLaws W File}.
Context (rootn : list string).

(** The components of the canonical root. *)
Definition root_key : key := RootDir :: (Normal <$> rootn).

(** A path at [ns] below the root. *)
Definition at_names (p : string) (ns : list string) : Prop :=
  is_absolute p = true /\ components p = root_key ++ (Normal <$> ns).

Definition under_root (p : string) : Prop := exists ns, at_names p ns.
Definition below_root (p : string) : Prop := exists ns n, at_names p (ns ++ [n]).

Implicit Types s : t W File.

(** [n] more paths can be registered, and [n] more handles opened, before a
    64-bit counter wraps. *)
Record inv (n : Z) s : Prop := {
  i_room : 2 <= next_node s /\ next_node s + n < 2 ^ 64 /\
           1 <= next_handle s /\ next_handle s + n < 2 ^ 64;
  i_root : exists p, nodes s !! ROOT_NODE_ID = Some p /\ at_names p [];
  i_nodes id p : nodes s !! id = Some p ->
    under_root p /\ 1 <= id < next_node s /\ paths s !! components p = Some id;
  i_paths k id : paths s !! k = Some id -> exists p, nodes s !! id = Some p /\ components p = k;
  i_counts id c : lookup_counts s !! id = Some c -> is_Some (nodes s !! id) /\ 1 <= c <= U64_MAX;
  i_files fh : is_Some (files s !! fh) -> 1 <= fh < next_handle s /\ dirs s !! fh = None;
  i_dirs fh d : dirs s !! fh = Some d -> 1 <= fh < next_handle s /\ under_root d;
}.

(** A computation keeps the tables, spends at most [n - n'] registrations, and
    its result satisfies [Q]. *)
Definition keeps {A} (n : Z) (c : SM (t W File) Z A) (n' : Z) (Q : A -> t W File -> Prop) : Prop :=
  forall s, inv n s -> let '(r, s') := c s in
    inv n' s' /\ match r with Ok a => Q a s' | Err _ => True end.

Lemma inv_weaken n n' s : n' <= n -> inv n s -> inv n' s.
Proof. intros Hn [? ? ? ? ? ? ?]. split; try done. lia. Qed.

Lemma keeps_bind {A B} n n1 n2 (c : SM _ Z A) (f : A -> SM _ Z B) Q R :
  n2 <= n1 -> keeps n c n1 Q ->
  (forall a s, inv n1 s -> Q a s -> let '(r, s') := f a s in
     inv n2 s' /\ match r with Ok b => R b s' | Err _ => True end) ->
  keeps n (x ← c; f x) n2 R.
Proof.
  intros Hle Hc Hf s Hs. specialize (Hc s Hs). unfold mbind, sm_bind.
  destruct (c s) as [[a|e] s1]; destruct Hc as [Hi Hq]; [by apply Hf|].
  split; [|done]. by eapply inv_weaken.
Qed.

(** The usual case: what was learnt does not depend on the state. *)
Lemma keeps_step {A B} n n1 n2 (c : SM _ Z A) (f : A -> SM _ Z B) (Q : A -> Prop) R :
  n2 <= n1 -> keeps n c n1 (fun a _ => Q a) -> (forall a, Q a -> keeps n1 (f a) n2 R) ->
  keeps n (x ← c; f x) n2 R.
Proof. intros Hle Hc Hf. eapply keeps_bind; [done..|]. intros a s Hs Hq. by apply (Hf a Hq s). Qed.

Lemma keeps_ret {A} n (a : A) (Q : A -> t W File -> Prop) :
  (forall s, Q a s) -> keeps n (mret a) n Q.
Proof. intros HQ s Hs. by split. Qed.

Lemma keeps_fail {A} n e (Q : A -> t W File -> Prop) : keeps n (sm_fail e) n Q.
Proof. intros s Hs. by split. Qed.

Lemma keeps_lift {A} n r (Q : A -> t W File -> Prop) :
  (forall a s, r = Ok a -> Q a s) -> keeps n (sm_lift r) n Q.
Proof. intros HQ s Hs. split; [done|]. destruct r; auto. Qed.

Lemma keeps_query {A} n (call : W -> result IoErrorKind A) :
  keeps n (query call) n (fun _ _ => True).
Proof. intros s Hs. unfold query. split; [done|]. by destruct (map_err _ _). Qed.

Lemma keeps_io {A} n (call : SM W IoErrorKind A) : keeps n (io call) n (fun _ _ => True).
Proof.
  intros s [? ? ? ? ? ? ?]. unfold io. destruct (call (host s)) as [r w].
  split; [by split|]. by destruct (map_err _ _).
Qed.

Lemma keeps_when n b (c : SM _ Z unit) :
  keeps n c n (fun _ _ => True) -> keeps n (sm_when b c) n (fun _ _ => True).
Proof. intros Hc. destruct b; [done|]. by apply keeps_ret. Qed.

Lemma keeps_resolve_node n id : keeps n (resolve_node id) n (fun p _ => under_root p).
Proof.
  intros s Hs. unfold resolve_node. split; [done|].
  destruct (nodes s !! id) as [p|] eqn:Hp; [|done]. by apply (i_nodes n s Hs) in Hp as [? _].
Qed.

(** A child path is one plain name below a known directory: no name leads out
    of the shared tree. *)
Lemma keeps_child_path n parent raw : keeps n (child_path parent raw) n (fun p _ => below_root p).
Proof.
  unfold child_path. cbn zeta. eapply (keeps_step _ n); [lia| |].
  { apply keeps_lift with (Q := fun _ _ => True). done. }
  intros name _. destruct (components name) as [|c cs] eqn:Hc; [apply keeps_fail|].
  destruct c; try apply keeps_fail. destruct cs; [|apply keeps_fail].
  eapply (keeps_step _ n); [lia|apply keeps_resolve_node|].
  intros p [ns [Ha Hp]]. apply keeps_ret. intros _.
  apply added_single in Hc as [Hr Had]. destruct (components_push p name Ha Hr) as [Hcp Hab].
  exists ns, part. split; [done|]. by rewrite Hcp, Had, Hp, fmap_app, app_assoc.
Qed.

Lemma below_under p : below_root p -> under_root p.
Proof. intros (ns & n & H). by exists (ns ++ [n]). Qed.

(** Registering a path under the root. *)
Lemma register_path_inv n s p id s' :
  0 <= n -> inv (n + 1) s -> under_root p -> register_path p s = (id, s') ->
  inv n s' /\ is_Some (nodes s' !! id) /\ 1 <= id.
Proof.
  intros Hn Hs Hp. unfold register_path. destruct (paths s !! components p) as [id0|] eqn:Hl.
  - intros [= <- <-]. destruct (i_paths _ _ Hs _ _ Hl) as (q & Hq & _).
    split_and!; [by eapply inv_weaken; [|done]; lia|by rewrite Hq|].
    apply (i_nodes _ _ Hs) in Hq as (_ & ? & _). lia.
  - cbn zeta. intros [= <- <-]. destruct Hs as [Hroom Hroot Hnodes Hpaths Hcounts Hfiles Hdirs].
    assert (Hfresh : nodes s !! next_node s = None).
    { destruct (nodes s !! next_node s) eqn:Hx; [|done]. apply Hnodes in Hx as (_ & ? & _). lia. }
    assert (Hw : wrap64 (next_node s + 1) = next_node s + 1) by (apply wrap64_small; ulia).
    split_and!; cbn [nodes set_paths set_nodes set_next_node]; [|by rewrite lookup_insert_eq|lia].
    split; cbn [nodes paths lookup_counts files dirs next_node next_handle set_paths set_nodes set_next_node];
      rewrite ?Hw; try done; try lia.
    + destruct Hroot as (r & Hr & ?). exists r. split; [|done].
      rewrite lookup_insert_ne; [done|]. unfold ROOT_NODE_ID. lia.
    + intros id q [[<- <-]|[Hne Hq]]%lookup_insert_Some.
      * rewrite lookup_insert_eq. split_and!; [done|lia|lia|done].
      * apply Hnodes in Hq as (? & ? & Hk). split_and!; [done|lia|lia|].
        rewrite lookup_insert_ne; [done|]. intros Heq. by rewrite Heq, Hk in Hl.
    + intros k id [[<- <-]|[Hne Hk]]%lookup_insert_Some.
      * exists p. by rewrite lookup_insert_eq.
      * apply Hpaths in Hk as (q & Hq & ?). exists q. rewrite lookup_insert_ne; [done|].
        intros <-. by rewrite Hq in Hfresh.
    + intros id c Hc. destruct (Hcounts _ _ Hc) as [[q Hq] ?]. split; [|done].
      rewrite lookup_insert_ne; [by eexists|]. intros <-. by rewrite Hq in Hfresh.
Qed.

Lemma keeps_node_attr n p :
  0 <= n -> under_root p ->
  keeps (n + 1) (node_attr p) n (fun '(id, _) s => is_Some (nodes s !! id) /\ 1 <= id).
Proof.
  intros Hn Hp. unfold node_attr. eapply (keeps_step _ (n + 1)); [lia|apply keeps_query|].
  intros meta _ s Hs. unfold mbind, sm_bind.
  destruct (register_path p s) as [id s'] eqn:Hr. simpl.
  by apply (register_path_inv n) in Hr as [? ?].
Qed.

Lemma bump_inv n s id :
  inv n s -> is_Some (nodes s !! id) -> inv n (bump id s).
Proof.
  intros [Hroom Hroot Hnodes Hpaths Hcounts Hfiles Hdirs] Hid. unfold bump. case_if; [by split|].
  split; cbn; try done. intros id' c [[<- <-]|[Hne Hc]]%lookup_insert_Some; [|eauto].
  split; [done|]. unfold U64_MAX. destruct (lookup_counts s !! id) as [c|] eqn:Hl; [|lia].
  apply Hcounts in Hl as [_ ?]. unfold U64_MAX in *. lia.
Qed.

Lemma keeps_entry n p :
  0 <= n -> under_root p -> keeps (n + 1) (entry_for_path p) n (fun _ _ => True).
Proof.
  intros Hn Hp. unfold entry_for_path. eapply keeps_bind; [|by apply keeps_node_attr|]; [lia|].
  intros [id attr] s Hs [Hid _]. split; [|done]. by apply bump_inv.
Qed.

Lemma keeps_attr_out n p :
  0 <= n -> under_root p -> keeps (n + 1) (attr_out p) n (fun _ _ => True).
Proof.
  intros Hn Hp. unfold attr_out. eapply keeps_bind; [|by apply keeps_node_attr|]; [lia|].
  intros [id attr] s Hs _. by split.
Qed.

(** Dropping a node that is not the root. *)
Lemma drop_node_inv n s id p :
  inv n s -> nodes s !! id = Some p -> id <> ROOT_NODE_ID ->
  inv n (set_lookup_counts (delete id (lookup_counts s))
          (set_paths (delete (components p) (paths s)) (set_nodes (delete id (nodes s)) s))).
Proof.
  intros [Hroom Hroot Hnodes Hpaths Hcounts Hfiles Hdirs] Hid Hne. split; cbn; try done.
  - destruct Hroot as (r & Hr & ?). exists r. by rewrite lookup_delete_ne.
  - intros id' q [Hn' Hq]%lookup_delete_Some. pose proof (Hnodes _ _ Hq) as (? & ? & Hk).
    split_and!; [done|lia|lia|]. rewrite lookup_delete_ne; [done|]. intros Heq.
    apply Hnodes in Hid as (_ & _ & Hk'). rewrite Heq in Hk'. congruence.
  - intros k id' [Hk' Hk]%lookup_delete_Some. destruct (Hpaths _ _ Hk) as (q & Hq & <-).
    exists q. rewrite lookup_delete_ne; [done|]. intros <-. by rewrite Hid in Hq; simplify_eq.
  - intros id' c [Hn' Hc]%lookup_delete_Some. destruct (Hcounts _ _ Hc) as [Hq ?].
    by rewrite lookup_delete_ne.
Qed.

Lemma root_id_path n s p :
  inv n s -> nodes s !! ROOT_NODE_ID = Some p -> components p = root_key.
Proof.
  intros Hs Hp. destruct (i_root _ _ Hs) as (r & Hr & _ & Hk). rewrite Hp in Hr. injection Hr as ->.
  by rewrite Hk, app_nil_r.
Qed.

Lemma below_not_root p : below_root p -> components p <> root_key.
Proof.
  intros (ns & n & _ & Hp) Heq. apply (f_equal length) in Heq. revert Heq.
  rewrite Hp, length_app, length_fmap, length_app. simpl. lia.
Qed.

Lemma forget_path_inv n s p : inv n s -> below_root p -> inv n (forget_path p s).
Proof.
  intros Hs Hp. unfold forget_path. destruct (paths s !! components p) as [id|] eqn:Hl; [|done].
  cbn zeta. destruct (i_paths _ _ Hs _ _ Hl) as (q & Hq & Hk). rewrite <- Hk.
  apply (drop_node_inv n s id q Hs Hq). intros ->.
  apply (root_id_path n) in Hq; [|done]. apply (below_not_root p Hp). congruence.
Qed.

Lemma forget_node_inv n s id nlookup : 0 <= nlookup -> inv n s -> inv n (forget_node id nlookup s).
Proof.
  intros Hnl Hs. unfold forget_node. case_if; [done|]. cbn zeta. case_if.
  - destruct (nodes s !! id) as [p|] eqn:Hp; [exact (drop_node_inv n s id p Hs Hp Heqb)|].
    destruct Hs as [Hroom Hroot Hnodes Hpaths Hcounts Hfiles Hdirs]. split; cbn; try done.
    intros id' c [_ Hc]%lookup_delete_Some. by apply Hcounts in Hc.
  - destruct (lookup_counts s !! id) as [c|] eqn:Hc; simpl in *; [|lia].
    destruct Hs as [Hroom Hroot Hnodes Hpaths Hcounts Hfiles Hdirs]. split; cbn; try done.
    intros id' c' [[<- <-]|[_ Hc']]%lookup_insert_Some; [|by apply Hcounts in Hc'].
    apply Hcounts in Hc as [? ?]. split; [done|]. lia.
Qed.

Lemma destroy_inv n s hdr : inv n s -> inv n (destroy hdr s).
Proof.
  intros [Hroom Hroot Hnodes Hpaths Hcounts Hfiles Hdirs]. unfold destroy.
  destruct Hroot as (r & Hr & Hk). rewrite Hr. cbn zeta.
  split; cbn; unfold ROOT_NODE_ID in *.
  - done.
  - exists r. by rewrite lookup_insert_eq.
  - intros id p [[<- <-]|[_ ?%lookup_empty_Some]]%lookup_insert_Some; [|done].
    split_and!; [by exists []|lia|lia|by rewrite lookup_insert_eq].
  - intros k id [[<- <-]|[_ ?%lookup_empty_Some]]%lookup_insert_Some; [|done].
    exists r. by rewrite lookup_insert_eq.
  - intros id c [[<- <-]|[_ ?%lookup_empty_Some]]%lookup_insert_Some; [|done].
    split; [by rewrite lookup_insert_eq|]. unfold U64_MAX. lia.
  - intros fh [f ?%lookup_empty_Some]. done.
  - intros fh d ?%lookup_empty_Some. done.
Qed.

(** ** Handles *)

Lemma next_fh_inv n s fh s' :
  0 <= n -> inv (n + 1) s -> next_fh s = (Ok fh, s') ->
  inv n s' /\ fh = next_handle s /\ next_handle s' = fh + 1 /\
  files s' = files s /\ dirs s' = dirs s.
Proof.
  intros Hn [Hroom Hroot Hnodes Hpaths Hcounts Hfiles Hdirs]. unfold next_fh. intros [= <- <-].
  assert (Hw : wrap64 (next_handle s + 1) = next_handle s + 1) by (apply wrap64_small; ulia).
  split_and!; try done. split; cbn; rewrite ?Hw; try done; [lia| |].
  - intros fh Hf. apply Hfiles in Hf as [? ?]. split; [lia|done].
  - intros fh d Hd. apply Hdirs in Hd as [? ?]. split; [lia|done].
Qed.

Lemma fresh_handle n s :
  inv n s -> files s !! next_handle s = None /\ dirs s !! next_handle s = None.
Proof.
  intros Hs. split.
  - destruct (files s !! next_handle s) eqn:Hf; [|done].
    destruct (i_files _ _ Hs (next_handle s)) as [? _]; [by eexists|lia].
  - destruct (dirs s !! next_handle s) eqn:Hd; [|done].
    apply (i_dirs _ _ Hs) in Hd as [? _]. lia.
Qed.

Lemma add_file_inv n s f :
  0 <= n -> inv (n + 1) s ->
  inv n (set_files (<[next_handle s := f]> (files s))
           (set_next_handle (wrap64 (next_handle s + 1)) s)).
Proof.
  intros Hn Hs. destruct (fresh_handle _ _ Hs) as [Hff Hfd]. pose proof (i_room _ _ Hs).
  destruct (next_fh_inv n s _ _ Hn Hs eq_refl) as (Hi & _ & Hnh & _).
  destruct Hi as [Hroom Hroot Hnodes Hpaths Hcounts Hfiles Hdirs].
  split; cbn in *; try done. intros fh [f' [[<- <-]|[Hne Hf]]%lookup_insert_Some].
  - split; [lia|done].
  - by apply Hfiles.
Qed.

Lemma add_dir_inv n s d :
  0 <= n -> inv (n + 1) s -> under_root d ->
  inv n (set_dirs (<[next_handle s := d]> (dirs s))
           (set_next_handle (wrap64 (next_handle s + 1)) s)).
Proof.
  intros Hn Hs Hd. destruct (fresh_handle _ _ Hs) as [Hff Hfd]. pose proof (i_room _ _ Hs).
  destruct (next_fh_inv n s _ _ Hn Hs eq_refl) as (Hi & _ & Hnh & _).
  destruct Hi as [Hroom Hroot Hnodes Hpaths Hcounts Hfiles Hdirs].
  split; cbn in *; try done.
  - intros fh Hf. pose proof (Hfiles _ Hf) as [? ?]. split; [lia|].
    rewrite lookup_insert_ne; [done|]. intros <-. destruct Hf as [f Hf]. by rewrite Hf in Hff.
  - intros fh d' [[<- <-]|[Hne Hf]]%lookup_insert_Some; [|by apply Hdirs in Hf].
    split; [lia|done].
Qed.

Lemma keeps_resolve_file n fh : keeps n (resolve_file fh) n (fun _ _ => True).
Proof. intros s Hs. split; [done|]. by destruct (ok_or _ _). Qed.

Lemma keeps_resolve_dir n fh :
  keeps n (resolve_dir fh) n (fun d s => dirs s !! fh = Some d /\ under_root d).
Proof.
  intros s Hs. unfold resolve_dir. split; [done|]. destruct (dirs s !! fh) as [d|] eqn:Hd; [|done].
  split; [done|]. by apply (i_dirs n s Hs) in Hd as [_ ?].
Qed.

Lemma keeps_release n hdr req : keeps n (release hdr req) n (fun _ _ => True).
Proof.
  unfold release. eapply keeps_bind; [|apply keeps_resolve_file|]; [lia|].
  intros f s [Hroom Hroot Hnodes Hpaths Hcounts Hfiles Hdirs] _. split; [|done].
  split; cbn; try done. intros fh [f' [_ Hf]%lookup_delete_Some]. by apply Hfiles.
Qed.

Lemma keeps_releasedir n hdr req : keeps n (releasedir hdr req) n (fun _ _ => True).
Proof.
  unfold releasedir. eapply keeps_bind; [|apply keeps_resolve_dir|]; [lia|].
  intros d s [Hroom Hroot Hnodes Hpaths Hcounts Hfiles Hdirs] _. split; [|done].
  split; cbn; try done.
  - intros fh Hf. apply Hfiles in Hf as [? Hd]. split; [done|]. by rewrite lookup_delete_None; right.
  - intros fh d' [_ Hf]%lookup_delete_Some. by apply Hdirs in Hf.
Qed.

(** ** Renaming *)

(** Moving one node to a free path under the root. *)
Lemma move_node_inv n s id old new :
  inv n s -> paths s !! old = Some id -> old <> root_key -> under_root new ->
  delete old (paths s) !! components new = None ->
  inv n (set_nodes (<[id := new]> (nodes s))
          (set_paths (<[components new := id]> (delete old (paths s))) s)).
Proof.
  intros Hs Hold Hne Hnew Hfree. pose proof (root_id_path n s) as Hrk.
  destruct Hs as [Hroom Hroot Hnodes Hpaths Hcounts Hfiles Hdirs] eqn:HE. clear HE.
  destruct (Hpaths _ _ Hold) as (p & Hp & Hpk).
  assert (Hid : id <> ROOT_NODE_ID).
  { intros ->. apply Hne. rewrite <- Hpk. by apply Hrk. }
  split; cbn; try done.
  - destruct Hroot as (r & Hr & ?). exists r. by rewrite lookup_insert_ne.
  - intros id' q [[<- <-]|[Hn' Hq]]%lookup_insert_Some.
    + apply Hnodes in Hp as (_ & ? & _). by rewrite lookup_insert_eq.
    + pose proof (Hnodes _ _ Hq) as (? & ? & Hk).
      assert (Hqo : components q <> old) by (intros Heq; rewrite Heq in Hk; congruence).
      split_and!; [done|lia|lia|]. rewrite lookup_insert_ne.
      * by rewrite lookup_delete_ne.
      * intros Heq. rewrite Heq in Hfree. by rewrite lookup_delete_ne, Hk in Hfree.
  - intros k id' [[<- <-]|[Hn' Hk]]%lookup_insert_Some; [by exists new; rewrite lookup_insert_eq|].
    apply lookup_delete_Some in Hk as [Hko Hk]. destruct (Hpaths _ _ Hk) as (q & Hq & Hqk).
    exists q. rewrite lookup_insert_ne; [done|]. intros <-. congruence.
  - intros id' c Hc. destruct (Hcounts _ _ Hc) as [Hq ?]. split; [|done].
    destruct (decide (id' = id)) as [->|]; [by rewrite lookup_insert_eq|by rewrite lookup_insert_ne].
Qed.

(** The target of a rename is free: nothing at or below it is registered, and
    it does not lie below the source. *)
Definition rename_free s (old new : string) : Prop :=
  (forall k, is_Some (paths s !! k) -> ~ components new `prefix_of` k) /\
  ~ components old `prefix_of` components new.

Lemma key_names n s k id :
  inv n s -> paths s !! k = Some id -> exists ns, k = root_key ++ (Normal <$> ns) /\ Forall plain ns.
Proof.
  intros Hs Hk. destruct (i_paths _ _ Hs _ _ Hk) as (p & Hp & <-).
  apply (i_nodes _ _ Hs) in Hp as ((ns & _ & Hns) & _). exists ns. split; [done|].
  by apply (names_plain p root_key).
Qed.

Lemma normal_suffix (ms ns : list string) suffix :
  (Normal <$> ms) ++ suffix = Normal <$> ns -> exists ks, suffix = Normal <$> ks /\ ns = ms ++ ks.
Proof.
  intros H. symmetry in H. apply fmap_app_inv in H as (l1 & l2 & H1 & -> & ->).
  exists l2. split; [done|]. f_equal. symmetry. revert H1.
  apply list_fmap_eq_inj. by intros ? ? [= ->].
Qed.

Lemma rebase_one_inv n s oldb newb k :
  inv n s -> below_root oldb -> under_root newb -> components oldb `prefix_of` k ->
  ~ components oldb `prefix_of` components newb ->
  (forall suffix, k = components oldb ++ suffix -> paths s !! (components newb ++ suffix) = None) ->
  inv n (rebase_one oldb newb s k) /\
  (forall k', is_Some (paths (rebase_one oldb newb s k) !! k') ->
     is_Some (paths s !! k') \/ exists suffix, k = components oldb ++ suffix /\ k' = components newb ++ suffix).
Proof.
  intros Hs Hob (nn & Hna & Hnk) [suffix Hk] Hnu Hfree. unfold rebase_one.
  destruct (paths s !! k) as [id|] eqn:Hl; [|by split; auto]. cbn zeta.
  rewrite (proj2 (strip_prefix_spec _ _ _) Hk).
  destruct (key_names n s k id Hs Hl) as (ns & Hns & Hpl).
  destruct Hob as (ms & m & Hoa & Hok).
  assert (Hsuf : exists ks, suffix = Normal <$> ks /\ ns = (ms ++ [m]) ++ ks).
  { apply normal_suffix. rewrite Hk, Hok, <- app_assoc in Hns. by apply app_inv_head in Hns. }
  destruct Hsuf as (ks & -> & ->). apply Forall_app in Hpl as [_ Hpl].
  apply render_names in Hpl as [Hra Hrk].
  destruct (components_push newb _ Hna Hra) as [Hpc Hpa]. rewrite Hrk in Hpc.
  specialize (Hfree _ Hk). rewrite <- Hpc in Hfree. split.
  - apply (move_node_inv n s id k); try done.
    + rewrite Hns. intros Heq. apply (f_equal length) in Heq. revert Heq.
      rewrite length_app, length_fmap, !length_app. simpl. lia.
    + exists (nn ++ ks). split; [done|]. by rewrite Hpc, Hnk, fmap_app, app_assoc.
    + rewrite lookup_delete_None. by right.
  - cbn. intros k' Hk'. destruct (decide (k' = components (push newb (render (Normal <$> ks))))) as [->|Hne].
    + right. exists (Normal <$> ks). by rewrite Hpc.
    + rewrite lookup_insert_ne in Hk' by done. destruct Hk' as [x [_ Hx]%lookup_delete_Some].
      left. by exists x.
Qed.

Lemma rebase_fold_inv n oldb newb ks s :
  NoDup ks -> inv n s -> below_root oldb -> under_root newb ->
  Forall (fun k => components oldb `prefix_of` k) ks ->
  ~ components oldb `prefix_of` components newb ->
  (forall suffix, components oldb ++ suffix ∈ ks -> paths s !! (components newb ++ suffix) = None) ->
  inv n (foldl (rebase_one oldb newb) s ks).
Proof.
  intros Hnd. revert s. induction Hnd as [|k ks Hnin _ IH]; intros s Hs Hob Hnb Hpre Hnu Hfree; [done|].
  apply Forall_cons in Hpre as [Hk Hpre]. cbn [foldl].
  destruct (rebase_one_inv n s oldb newb k) as [Hi Hks]; try done.
  { intros suffix ->. apply Hfree. left. }
  apply IH; try done. intros suffix Hin.
  destruct (paths (rebase_one oldb newb s k) !! (components newb ++ suffix)) eqn:Hl; [|done].
  destruct (Hks (components newb ++ suffix)) as [[x Hx]|(suffix' & Hk' & Heq)]; [by eexists| |].
  - rewrite Hfree in Hx; [done|]. by right.
  - apply app_inv_head in Heq as ->. by rewrite <- Hk' in Hin.
Qed.

Lemma rebase_paths_inv n s oldb newb :
  inv n s -> below_root oldb -> under_root newb -> rename_free s oldb newb ->
  inv n (rebase_paths oldb newb s).
Proof.
  intros Hs Hob Hnb [Hfree Hnu]. unfold rebase_paths. cbn zeta. apply rebase_fold_inv; try done.
  - apply NoDup_filter, NoDup_fst_map_to_list.
  - apply Forall_forall. intros k [[suffix Hk%strip_prefix_spec] _]%list_elem_of_filter.
    by exists suffix.
  - intros suffix _. destruct (paths s !! _) eqn:Hl; [|done].
    destruct (Hfree (components newb ++ suffix)); [by eexists|]. by exists suffix.
Qed.

(** ** Listings *)

Lemma push_entries_inv n entries : forall idx w s,
  0 <= n -> inv (n + Z.of_nat (length entries)) s -> Forall (fun e => under_root e.2) entries ->
  inv n (snd (push_entries idx entries w s)).
Proof.
  induction entries as [|[[name ftype] path] entries IH]; intros idx w s Hn Hs Hp; cbn [push_entries].
  { by rewrite Z.add_0_r in Hs. }
  apply Forall_cons in Hp as [Hp Hps]. rewrite length_cons in Hs.
  destruct (register_path path s) as [nodeid s'] eqn:Hr.
  apply (register_path_inv (n + Z.of_nat (length entries))) in Hr as (Hi & _); [|lia| |done].
  2: { by replace (n + Z.of_nat (length entries) + 1) with (n + Z.of_nat (S (length entries))) by lia. }
  destruct (FuseDirentWriter.push _ _ _ _ _) as [[?|?] w']; [by apply IH|].
  cbn [snd]. eapply inv_weaken; [|done]. lia.
Qed.

Lemma inv_host n s : inv n s -> inv n (set_host (host s) s).
Proof. by destruct s. Qed.

Lemma keeps_readdir n hdr req s r s' :
  0 <= n -> readdir hdr req s = (r, s') ->
  (forall d es, dirs s !! FuseReadIn.fh req = Some d -> host_read_dir (host s) d = Ok es ->
     components d <> root_key /\ inv (n + 2 + Z.of_nat (length es)) s) ->
  inv n s -> inv n s'.
Proof.
  intros Hn Hr Hsafe Hs. unfold readdir, mbind, sm_bind, resolve_dir in Hr.
  destruct (dirs s !! FuseReadIn.fh req) as [d|] eqn:Hd; simpl in Hr; [|by injection Hr as _ <-].
  unfold build_dirent_payload, dir_entries, mbind, sm_bind, query, sm_lift in Hr.
  destruct (host_read_dir (host s) d) as [es|e] eqn:Hes; simpl in Hr; [|by injection Hr as _ <-].
  destruct (mapM _ es) as [entries|e] eqn:Hm; [|by injection Hr as _ <-].
  destruct (Hsafe d es eq_refl Hes) as [Hnr Hbig].
  assert (Hu : under_root d) by by apply (i_dirs n s Hs) in Hd as [_ ?].
  destruct Hu as (ns & Hda & Hdk). destruct ns as [|m ms _] using rev_ind.
  { by rewrite app_nil_r in Hdk. }
  destruct (path_parent_child d (rootn ++ ms) m) as (q & Hq & Hqa & Hqk).
  { rewrite Hdk. unfold root_key. by rewrite <- app_assoc, !fmap_app. }
  assert (Hall : Forall (fun e => under_root e.2)
                   ((".", dt.DIR, d) :: ("..", dt.DIR, default d (path_parent d)) :: entries)).
  { constructor; [by exists (ms ++ [m])|]. constructor.
    { rewrite Hq. exists ms. split; [done|]. simpl. rewrite Hqk. unfold root_key. by rewrite fmap_app. }
    apply Forall_forall. intros [[name ftype] path] Hin.
    apply mapM_ok_inv in Hm. apply list_elem_of_lookup in Hin as [i Hi].
    destruct (Forall2_lookup_r _ _ _ _ _ Hm Hi) as ([e|e] & He & Hf); simpl in Hf; [|done].
    destruct (DirEntry.file_type e) as [ft|]; simpl in Hf; [|done]. injection Hf as _ _ <-.
    destruct (read_dir_entry _ _ _ e Hes) as (nm & Hpa & Hpk); [|done|].
    { by apply list_elem_of_lookup_2 in He. }
    exists ((ms ++ [m]) ++ [nm]). split; [done|]. simpl.
    by rewrite Hpk, Hdk, (fmap_app _ (ms ++ [m])), app_assoc. }
  apply mapM_ok_inv, Forall2_length in Hm.
  set (all := (".", dt.DIR, d) :: _) in *.
  assert (Hlen : (length (drop (Z.to_nat (FuseReadIn.offset req)) all) <= 2 + length es)%nat).
  { rewrite length_drop. subst all. simpl. lia. }
  cbn [mret sm_ret] in Hr. destruct (push_entries _ _ _ s) as [w s1] eqn:Hpe.
  injection Hr as _ <-.
  replace s1 with (snd (push_entries (FuseReadIn.offset req) (drop (Z.to_nat (FuseReadIn.offset req)) all)
    (FuseDirentWriter.with_capacity (FuseReadIn.size req)) s)) by by rewrite Hpe.
  apply push_entries_inv; [done| |].
  - eapply inv_weaken; [|done]. lia.
  - by apply Forall_drop.
Qed.

(** ** Every request *)

(** A method that keeps the tables, whatever it answers. *)
Lemma keeps_inv {A} n (c : SM (t W File) Z A) Q s r s' :
  keeps n c 0 Q -> inv n s -> c s = (r, s') -> inv 0 s'.
Proof. intros Hc Hs Hr. specialize (Hc s Hs). rewrite Hr in Hc. by destruct Hc. Qed.

Lemma keeps_io_step {A B} n n' (call : SM W IoErrorKind A) (f : A -> SM _ Z B) R :
  n' <= n -> (forall a, keeps n (f a) n' R) -> keeps n (x ← io call; f x) n' R.
Proof. intros Hle Hf. eapply (keeps_step _ n); [done|apply keeps_io|]. intros a _. apply Hf. Qed.

Lemma keeps_below_step {B} n n' id raw (f : string -> SM _ Z B) R :
  n' <= n -> (forall p, below_root p -> keeps n (f p) n' R) ->
  keeps n (x ← child_path id raw; f x) n' R.
Proof. intros Hle Hf. eapply (keeps_step _ n); [done|apply keeps_child_path|apply Hf]. Qed.

Lemma keeps_under_step {B} n n' id (f : string -> SM _ Z B) R :
  n' <= n -> (forall p, under_root p -> keeps n (f p) n' R) ->
  keeps n (x ← resolve_node id; f x) n' R.
Proof. intros Hle Hf. eapply (keeps_step _ n); [done|apply keeps_resolve_node|apply Hf]. Qed.

Lemma keeps_weaken {A} n n1 n2 (c : SM (t W File) Z A) Q :
  n2 <= n1 -> keeps n c n1 Q -> keeps n c n2 Q.
Proof.
  intros Hle Hc s Hs. specialize (Hc s Hs). destruct (c s) as [r s']. destruct Hc as [Hi HQ].
  split; [by eapply inv_weaken|done].
Qed.

Definition entry_1 := keeps_entry 0.
Definition attr_1 := keeps_attr_out 0.

Lemma keeps_forget_step n p :
  below_root p -> keeps n (sm_modify (forget_path p)) n (fun _ _ => True).
Proof. intros Hp s Hs. split; [by apply forget_path_inv|done]. Qed.

(** The requests the tables are safe under: a [Readdir] not of the root, a
    [Rename] to a free place; and enough room in the counters. *)
Definition safe_request (hdr : FuseInHeader.t) (req : FuseRequest.t) s : Prop :=
  match req with
  | FuseRequest.Forget b => 0 <= FuseForgetIn.nlookup b
  | FuseRequest.Readdir b => forall d es,
      dirs s !! FuseReadIn.fh b = Some d -> host_read_dir (host s) d = Ok es ->
      components d <> root_key /\ next_node s + 2 + Z.of_nat (length es) < 2 ^ 64 /\
      next_handle s + 2 + Z.of_nat (length es) < 2 ^ 64
  | FuseRequest.Rename b old new => forall oldp newp s1 s2,
      child_path (FuseInHeader.nodeid hdr) old s = (Ok oldp, s1) ->
      child_path (FuseRenameIn.newdir b) new s = (Ok newp, s2) -> rename_free s oldp newp
  | _ => True
  end.

Lemma keeps_open hdr req : keeps 1 (open hdr req) 0 (fun _ _ => True).
Proof.
  unfold open. apply keeps_under_step; [lia|]. intros p _. apply keeps_io_step; [lia|].
  intros f s Hs. split; [|done]. exact (add_file_inv 0 s f (Z.le_refl 0) Hs).
Qed.

Lemma keeps_opendir hdr req : keeps 1 (opendir hdr req) 0 (fun _ _ => True).
Proof.
  unfold opendir. apply keeps_under_step; [lia|]. intros p Hp.
  eapply (keeps_step _ 1); [lia|apply keeps_query|]. intros meta _.
  destruct (negb _); [eapply keeps_weaken, keeps_fail; lia|].
  intros s Hs. split; [|done]. exact (add_dir_inv 0 s p (Z.le_refl 0) Hs Hp).
Qed.

Lemma keeps_setattr hdr req : keeps 1 (setattr hdr req) 0 (fun _ _ => True).
Proof.
  unfold setattr. apply keeps_under_step; [lia|]. intros p Hp.
  eapply (keeps_step _ 1 _ _ _ (fun _ => True)); [lia| |].
  { apply keeps_when, keeps_io_step; [lia|]. intros f. apply keeps_io. }
  intros _ _. eapply (keeps_step _ 1 _ _ _ (fun _ => True)); [lia|apply keeps_when, keeps_io|].
  intros _ _. case_match; [eapply keeps_weaken, keeps_fail; lia|by apply attr_1].
Qed.

Lemma child_path_state id raw s r s' : child_path id raw s = (r, s') -> s' = s.
Proof.
  unfold child_path. cbn zeta. unfold mbind, sm_bind, sm_lift. destruct (ok_or _ _); [|by intros [=]].
  destruct (components _) as [|[] []]; try (by intros [=]). unfold resolve_node.
  destruct (ok_or _ _); by intros [=].
Qed.

Lemma rename_inv hdr req old new s r s' :
  inv 0 s -> safe_request hdr (FuseRequest.Rename req old new) s ->
  rename hdr req old new s = (r, s') -> inv 0 s'.
Proof.
  intros Hs Hsafe. simpl in Hsafe. unfold rename, mbind, sm_bind at 1.
  pose proof (keeps_child_path 0 (FuseInHeader.nodeid hdr) old s Hs) as H1.
  destruct (child_path (FuseInHeader.nodeid hdr) old s) as [[op|e] s1] eqn:H1';
    destruct H1 as [Hi1 Hop]; [|by intros [= _ <-]].
  pose proof (child_path_state _ _ _ _ _ H1') as ->. unfold sm_bind at 1.
  pose proof (keeps_child_path 0 (FuseRenameIn.newdir req) new s Hs) as H2.
  destruct (child_path (FuseRenameIn.newdir req) new s) as [[np|e] s2] eqn:H2';
    destruct H2 as [Hi2 Hnp]; [|by intros [= _ <-]].
  pose proof (child_path_state _ _ _ _ _ H2') as ->. unfold sm_bind, io.
  destruct (host_rename op np (host s)) as [[u|e] w]; intros [= _ <-].
  - specialize (Hsafe op np s s eq_refl eq_refl).
    apply rebase_paths_inv; [by destruct Hs; split|done|by apply below_under|done].
  - by destruct Hs; split.
Qed.

Lemma keeps_lookup n hdr name : 0 <= n -> keeps (n + 1) (lookup hdr name) n (fun _ _ => True).
Proof.
  intros Hn. apply keeps_below_step; [lia|]. intros p Hp. by apply keeps_entry, below_under.
Qed.

(** A new handler satisfies the invariant of its canonical root. *)
Lemma new_inv n root w s :
  0 <= n < 2 ^ 63 ->
  new root w = Ok s -> (forall q, host_canonicalize w root = Ok q -> components q = root_key) ->
  inv n s.
Proof.
  intros Hn Hnew Hq. unfold new in Hnew. destruct (host_metadata w root) as [meta|]; simpl in Hnew; [|done].
  destruct (negb _); [done|]. destruct (host_canonicalize w root) as [q|] eqn:Hc; simpl in Hnew; [|done].
  specialize (Hq q eq_refl). apply canonicalize_absolute in Hc as [Ha _]. injection Hnew as <-.
  assert (Hat : at_names q []) by by split; [done|rewrite app_nil_r].
  split; cbn [nodes paths lookup_counts next_node next_handle files dirs]; unfold ROOT_NODE_ID in *;
    try lia.
  - exists q. by rewrite lookup_singleton_eq.
  - intros id p [<- <-]%lookup_singleton_Some. split_and!; [by exists []|lia|lia|].
    by rewrite lookup_singleton_eq.
  - intros k id [<- <-]%lookup_singleton_Some. exists q. by rewrite lookup_singleton_eq.
  - intros id c [<- <-]%lookup_singleton_Some. rewrite lookup_singleton_eq. split; [by eexists|].
    unfold U64_MAX. lia.
  - by intros fh [f ?%lookup_empty_Some].
  - by intros fh d ?%lookup_empty_Some.
Qed.

(** The requests that create a name, and the ones that work on an open file. *)
Section Creating.
Context (hdr : FuseInHeader.t).

Lemma keeps_mknod req name : keeps 1 (mknod hdr req name) 0 (fun _ _ => True).
Proof.
  apply keeps_below_step; [lia|]. intros p Hp. cbn zeta.
  destruct (negb _ && negb _); [eapply keeps_weaken, keeps_fail; lia|].
  do 2 (apply keeps_io_step; [lia|intros ?]). by apply entry_1, below_under.
Qed.

Lemma keeps_mkdir req name : keeps 1 (mkdir hdr req name) 0 (fun _ _ => True).
Proof.
  apply keeps_below_step; [lia|]. intros p Hp.
  do 2 (apply keeps_io_step; [lia|intros ?]). by apply entry_1, below_under.
Qed.

Lemma keeps_symlink name target : keeps 1 (symlink hdr name target) 0 (fun _ _ => True).
Proof.
  apply keeps_below_step; [lia|]. intros p Hp.
  eapply (keeps_step _ 1 _ _ _ (fun _ => True)); [lia|by apply keeps_lift|]. intros ? _.
  apply keeps_io_step; [lia|intros ?]. by apply entry_1, below_under.
Qed.

Lemma keeps_link req name : keeps 1 (link hdr req name) 0 (fun _ _ => True).
Proof.
  apply keeps_under_step; [lia|]. intros src _.
  apply keeps_below_step; [lia|]. intros p Hp. apply keeps_io_step; [lia|intros ?].
  by apply entry_1, below_under.
Qed.

(** [unlink] and [rmdir]: a host call on the child, then the path is forgotten. *)
Lemma keeps_remove (call : string -> SM W IoErrorKind unit) name :
  keeps 0 (p ← child_path (FuseInHeader.nodeid hdr) name;
           _ ← io (call p);
           sm_modify (forget_path p) : SM (t W File) Z unit) 0 (fun _ _ => True).
Proof.
  apply keeps_below_step; [lia|]. intros p Hp.
  apply keeps_io_step; [lia|]. intros ?. by apply keeps_forget_step.
Qed.

Lemma keeps_on_file {A} fh (k : File -> SM (t W File) Z A) :
  (forall f, keeps 0 (k f) 0 (fun _ _ => True)) ->
  keeps 0 (f ← resolve_file fh; k f) 0 (fun _ _ => True).
Proof.
  intros Hk. eapply (keeps_step _ 0); [lia|apply keeps_resolve_file|]. intros f _. apply Hk.
Qed.
End Creating.

(** C31: the node and handle tables of the host-backed handler stay consistent
    under every request of the guest: node ids and paths are inverse to each
    other, every known path lies under the shared root, the root keeps its id,
    counts belong to live nodes and open handles are below the next one.
    Excepted are a listing of the root itself and a rename onto a path already
    known, where the code breaks this. *)
Theorem stdfs_tables_invariant hdr req s out s' :
  inv 1 s -> safe_request hdr req s -> dispatch hdr req s = (out, s') -> inv 0 s'.
Proof.
  intros Hs Hsafe. assert (Hs0 : inv 0 s) by (eapply inv_weaken; [|done]; lia).
  destruct req; cbn [dispatch]; unfold reply;
    lazymatch goal with
    | |- context [let '(r, s) := ?c in _] => destruct c as [r s1] eqn:Hc; intros [= _ <-]
    | |- _ => intros [= _ <-]
    end; cbn [h_init h_forget h_getattr h_setattr h_lookup h_readlink h_mknod h_mkdir h_unlink h_rmdir
              h_symlink h_rename h_link h_open h_read h_write h_statfs h_release h_fsync h_flush
              h_opendir h_readdir h_releasedir h_destroy std_fs_handler] in *.
  - by injection Hc as _ <-.
  - by apply forget_node_inv.
  - eapply (keeps_inv 1); [|done..]. apply keeps_under_step; [lia|]. intros p Hp. by apply attr_1.
  - eapply (keeps_inv 1); [|done..]. apply keeps_setattr.
  - eapply (keeps_inv 1); [|done..]. by apply (keeps_lookup 0).
  - eapply (keeps_inv 0); [|done..]. apply keeps_under_step; [lia|]. intros p Hp. apply keeps_query.
  - eapply (keeps_inv 1); [|done..]. apply keeps_mknod.
  - eapply (keeps_inv 1); [|done..]. apply keeps_mkdir.
  - eapply (keeps_inv 0); [|done..]. apply keeps_remove.
  - eapply (keeps_inv 0); [|done..]. apply keeps_remove.
  - eapply (keeps_inv 1); [|done..]. apply keeps_symlink.
  - by eapply rename_inv.
  - eapply (keeps_inv 1); [|done..]. apply keeps_link.
  - eapply (keeps_inv 1); [|done..]. apply keeps_open.
  - eapply (keeps_inv 0); [|done..]. apply keeps_on_file. intros f.
    apply keeps_io_step; [lia|intros ?]. apply keeps_io.
  - eapply (keeps_inv 0); [|done..]. apply keeps_on_file. intros f.
    do 2 (apply keeps_io_step; [lia|intros ?]). by apply (keeps_ret 0 _ (fun _ _ => True)).
  - by injection Hc as _ <-.
  - eapply (keeps_inv 0); [|done..]. apply keeps_release.
  - eapply (keeps_inv 0); [|done..]. apply keeps_on_file. intros f. destruct (has_flag _ _); apply keeps_io.
  - eapply (keeps_inv 0); [|done..]. apply keeps_on_file. intros f. apply keeps_io.
  - eapply (keeps_inv 1); [|done..]. apply keeps_opendir.
  - eapply (keeps_readdir 0); [lia|done| |done]. intros d es Hd Hes.
    destruct (Hsafe d es Hd Hes) as (Hnr & Hr1 & Hr2). split; [done|].
    destruct Hs0 as [Hroom Hroot Hnodes Hpaths Hcounts Hfiles Hdirs]. split; try done. lia.
  - eapply (keeps_inv 0); [|done..]. apply keeps_releasedir.
  - by apply destroy_inv.
Qed.
End Tables.
End Tables.

(** ** A host in memory

    A tree of directories, files and links on which the handler runs. Links are
    not followed; a trailing slash asks for a directory, as on the host. *)

Module MemFs.
Inductive node : Type := MDir | MFile (content : bytes) | MLink (target : string).

#[global] Instance node_eq_dec : EqDecision node.
Proof. solve_decision. Defined.

#[global] Instance kind_eq_dec : EqDecision IoErrorKind.
Proof. solve_decision. Defined.

Record t : Type := mk { tree : gmap key node; pos : gmap key Z }.

Definition is_mdir (n : node) : bool := match n with MDir => true | _ => false end.

Definition find (w : t) (p : string) : result IoErrorKind node :=
  match tree w !! components p with
  | None => Err NotFound
  | Some n => if ends_with_slash p && negb (is_mdir n) then Err NotADirectory else Ok n
  end.

Definition meta_of (n : node) : Metadata.t :=
  let size := match n with MFile c => zlen c | _ => 0 end in
  Metadata.mk (is_mdir n) size 0 0 0 0 0 0 0 (if is_mdir n then 16877 else 33188) 1 0 0 0 4096.

Definition put (k : key) (n : node) (w : t) : t := mk (<[k := n]> (tree w)) (pos w).

Definition add (p : string) (n : node) : SM t IoErrorKind unit := fun w =>
  match tree w !! components p with
  | Some _ => (Err AlreadyExists, w)
  | None => (Ok tt, put (components p) n w)
  end.

Definition remove (p : string) : SM t IoErrorKind unit := fun w =>
  match find w p with
  | Ok _ => (Ok tt, mk (delete (components p) (tree w)) (pos w))
  | Err e => (Err e, w)
  end.

Definition move (old new : key) (tr : gmap key node) : gmap key node :=
  list_to_map (map (fun '(k, n) =>
    match StdFsHandler.strip_prefix old k with Some s => (new ++ s, n) | None => (k, n) end)
    (map_to_list (delete new tr))).

Definition content (w : t) (k : key) : bytes :=
  match tree w !! k with Some (MFile c) => c | _ => [] end.

Definition open (opts : OpenOptions.t) (p : string) : SM t IoErrorKind key := fun w =>
  match find w p with
  | Ok MDir => (Err IsADirectory, w)
  | Ok _ =>
      if OpenOptions.create_new opts then (Err AlreadyExists, w)
      else (Ok (components p), if OpenOptions.truncate opts then put (components p) (MFile []) w else w)
  | Err NotFound =>
      if OpenOptions.create opts || OpenOptions.create_new opts
      then (Ok (components p), put (components p) (MFile []) w) else (Err NotFound, w)
  | Err e => (Err e, w)
  end.

Definition list_dir (w : t) (d : string) : list (result IoErrorKind DirEntry.t) :=
  omap (fun '(k, n) =>
    match StdFsHandler.strip_prefix (components d) k with
    | Some [Normal x] =>
        if bool_decide (components x = [Normal x])
        then Some (Ok (DirEntry.mk (push d x)
               (Ok (FileType.mk (is_mdir n) false (negb (is_mdir n)))) x))
        else None
    | _ => None
    end) (map_to_list (tree w)).

Definition write_at (k : key) (data : bytes) (w : t) : t :=
  let off := Z.to_nat (default 0 (pos w !! k)) in
  let c := content w k in
  put k (MFile (take off c ++ replicate (off - length c) Byte.x00 ++ data ++ drop (off + length data) c)) w.

#[global] Instance mem_host : HostFs t key := {
  host_metadata w p := meta_of <$> find w p;
  host_symlink_metadata w p := meta_of <$> find w p;
  host_canonicalize w p :=
    match components p with
    | RootDir :: cs =>
        if forallb (fun c => match c with Normal _ => true | _ => false end) cs then Ok p
        else Err InvalidInput
    | _ => Err InvalidInput
    end;
  host_read_link w p :=
    match find w p with
    | Ok (MLink target) => Ok (bytes_of_string target)
    | Ok _ => Err InvalidInput
    | Err e => Err e
    end;
  host_read_dir w d := if bool_decide (find w d = Ok MDir) then Ok (list_dir w d) else Err NotADirectory;
  host_open := open;
  host_set_permissions p _ w := ((fun _ => tt) <$> find w p, w);
  host_create_dir p := add p MDir;
  host_remove_file := remove;
  host_remove_dir := remove;
  host_symlink target link := add link (MLink target);
  host_rename old new w :=
    match find w old with
    | Ok _ => (Ok tt, mk (move (components old) (components new) (tree w)) (pos w))
    | Err e => (Err e, w)
    end;
  host_hard_link old new w :=
    match find w old with Ok n => add new n w | Err e => (Err e, w) end;
  file_set_len k n w :=
    (Ok tt, put k (MFile (take (Z.to_nat n) (content w k ++ replicate (Z.to_nat n) Byte.x00))) w);
  file_seek k off w := (Ok tt, mk (tree w) (<[k := off]> (pos w)));
  file_read k n w := (Ok (take (Z.to_nat n) (drop (Z.to_nat (default 0 (pos w !! k))) (content w k))), w);
  file_write k data w := (Ok (zlen data), write_at k data w);
  file_sync_data _ w := (Ok tt, w);
  file_sync_all _ w := (Ok tt, w);
  file_flush _ w := (Ok tt, w);
}.

#[global] Instance mem_host_laws : HostFsLaws t key.
Proof.
  split.
  - intros w d es e. simpl. case_bool_decide; [|done]. intros [= <-].
    intros ([k n] & _ & Hk)%list_elem_of_omap Hd.
    destruct (StdFsHandler.strip_prefix _ k) as [[|[] []]|]; try done.
    case_bool_decide as Hx; [|done]. injection Hk as <-. simpl.
    apply added_single in Hx as [Hr Ha]. destruct (components_push d part Hd Hr) as [Hc Hp].
    exists part. by rewrite Hc, Ha.
  - intros w p q. simpl. destruct (components p) as [|[] cs] eqn:Hp; try done.
    destruct (forallb _ cs) eqn:Hn; [|done]. intros [= <-].
    assert (Hns : exists ns, cs = Normal <$> ns).
    { clear Hp. induction cs as [|c cs IH]; [by exists []|]. simpl in Hn.
      apply andb_true_iff in Hn as [Hc Hn]. destruct (IH Hn) as [ns ->].
      destruct c as [| | |x]; try done. by exists (x :: ns). }
    destruct Hns as [ns ->]. split; [|by eauto].
    unfold components in Hp. destruct (is_absolute p); [done|].
    destruct (split_slash p) as [|x xs]; [done|].
    destruct (String.eqb x "."); [done|]. exfalso. clear Hn.
    assert (Hno : forall l : list string, RootDir ∈ omap part_component l -> False).
    { intros l (y & _ & Hy)%list_elem_of_omap. unfold part_component in Hy.
      by repeat case_match. }
    apply (Hno (x :: xs)).
    replace (omap part_component (x :: xs)) with (option_list (part_component x) ++ omap part_component xs)
      by (simpl; by destruct (part_component x)).
    rewrite Hp. left.
Qed.
End MemFs.

(** ** Running the handler *)

Module Sample.
Import StdFsHandler.

Definition tree : gmap key MemFs.node :=
  list_to_map [ (components "/", MemFs.MDir); (components "/srv", MemFs.MDir);
    (components "/srv/secret", MemFs.MFile [Byte.x73]);
    (components "/srv/share", MemFs.MDir);
    (components "/srv/share/a", MemFs.MFile [Byte.x68; Byte.x69]);
    (components "/srv/share/b", MemFs.MFile []) ].

Definition rootn : list string := ["srv"; "share"].

Definition start : t MemFs.t key := {|
  host := MemFs.mk tree ∅;
  nodes := {[ ROOT_NODE_ID := "/srv/share" ]};
  paths := {[ components "/srv/share" := ROOT_NODE_ID ]};
  lookup_counts := {[ ROOT_NODE_ID := U64_MAX ]};
  next_node := 2; next_handle := 1; files := ∅; dirs := ∅ |}.

Lemma start_new : new "/srv/share" (MemFs.mk tree ∅) = Ok start.
Proof. reflexivity. Qed.

Lemma start_inv n : 0 <= n < 2 ^ 63 -> Tables.inv rootn n start.
Proof. intros Hn. by apply (Tables.new_inv _ n _ _ _ Hn start_new); intros q [= <-]. Qed.

Definition hdr (op : FuseOpcode.t) (nodeid : Z) : FuseInHeader.t :=
  FuseInHeader.mk 40 op 1 nodeid 0 0 0 0 0.

Definition c_name (s : string) : bytes := bytes_of_string s ++ [Byte.x00].

Definition node_of (r : result Z FuseEntryOut.t) : option Z :=
  match r with Ok e => Some (FuseEntryOut.nodeid e) | Err _ => None end.
End Sample.

Import Sample StdFsHandler.

(** A lookup of the file [a] in the sample. *)
Lemma stdfs_tables_invariant_witness :
  exists out s', dispatch (hdr FuseOpcode.Lookup 1) (FuseRequest.Lookup (c_name "a")) start = (out, s') /\
    Tables.inv rootn 0 s'.
Proof.
  eexists _, _. split; [reflexivity|].
  apply (Tables.stdfs_tables_invariant rootn (hdr FuseOpcode.Lookup 1)
           (FuseRequest.Lookup (c_name "a")) start
           (fst (dispatch (hdr FuseOpcode.Lookup 1) (FuseRequest.Lookup (c_name "a")) start))).
  - by apply start_inv.
  - exact I.
  - reflexivity.
Defined.

(** Listing the shared root registers its parent: the guest gets a node outside
    the shared tree and reaches its files through it. *)
Example readdir_of_root_escapes :
  let '(_, s1) := opendir (hdr FuseOpcode.Opendir 1) (FuseOpenIn.mk 0 0) start in
  let '(_, s2) := readdir (hdr FuseOpcode.Readdir 1) (FuseReadIn.mk 1 0 4096 0 0 0 0) s1 in
  nodes s2 !! 2 = Some "/srv" /\
  is_ok (fst (lookup (hdr FuseOpcode.Lookup 2) (c_name "secret") s2)) = true.
Proof. vm_compute. split; reflexivity. Qed.

(** After a rename the node's path ends with a slash ([join] of an empty
    suffix), and the host refuses it for anything but a directory. *)
Example rename_breaks_node :
  let '(r, s1) := lookup (hdr FuseOpcode.Lookup 1) (c_name "a") start in
  let '(r', s2) := rename (hdr FuseOpcode.Rename 1) (FuseRenameIn.mk 1) (c_name "a") (c_name "c") s1 in
  node_of r = Some 2 /\ r' = Ok tt /\ nodes s2 !! 2 = Some "/srv/share/c/" /\
  fst (getattr (hdr FuseOpcode.Getattr 2) (FuseGetattrIn.mk 0 0 0) s2) = Err ENOTDIR.
Proof. vm_compute. repeat split; reflexivity. Qed.

(** A rename onto a known path leaves two ids with that path; forgetting the
    overwritten one drops the entry of the other, and the next lookup hands out
    a third id. *)
Example rename_onto_known_path :
  let '(_, s1) := lookup (hdr FuseOpcode.Lookup 1) (c_name "a") start in
  let '(_, s2) := lookup (hdr FuseOpcode.Lookup 1) (c_name "b") s1 in
  let '(_, s3) := rename (hdr FuseOpcode.Rename 1) (FuseRenameIn.mk 1) (c_name "a") (c_name "b") s2 in
  let s4 := forget (hdr FuseOpcode.Forget 3) (FuseForgetIn.mk 1) s3 in
  components <$> nodes s3 !! 2 = components <$> nodes s3 !! 3 /\
  is_Some (nodes s4 !! 2) /\ node_of (fst (lookup (hdr FuseOpcode.Lookup 1) (c_name "b") s4)) = Some 4.
Proof. vm_compute. split; [reflexivity|]. split; [by eexists|reflexivity]. Qed.

(** ** Handles and references *)

Section Lifecycle.
Context {W File : Type} `{!HostFs W File, !HostFsLaws W File}.
Context (rn : list string).
Implicit Types s : t W File.

(** The calls on a file handle. *)
Definition on_handle (fh : Z) s : list (result Z unit) :=
  [ (fun _ => tt) <$> fst (read (hdr FuseOpcode.Read 0) (FuseReadIn.mk fh 0 0 0 0 0 0) s);
    (fun _ => tt) <$> fst (write (hdr FuseOpcode.Write 0) (FuseWriteIn.mk fh 0 0 0 0 0 0) [] s);
    fst (flush (hdr FuseOpcode.Flush 0) (FuseFlushIn.mk fh 0 0 0) s);
    fst (fsync (hdr FuseOpcode.Fsync 0) (FuseFsyncIn.mk fh 0 0) s);
    fst (release (hdr FuseOpcode.Release 0) (FuseReleaseIn.mk fh 0 0 0) s) ].

Lemma on_handle_closed fh s : files s !! fh = None -> on_handle fh s = replicate 5 (Err EBADF).
Proof.
  intros Hf. unfold on_handle, read, write, flush, fsync, release, mbind, sm_bind, resolve_file.
  simpl. by rewrite Hf.
Qed.

(** [open] hands out a handle no file and no directory uses, and touches no
    other handle; [release] closes exactly that handle, after which every call
    on it fails with [EBADF]. *)
Theorem stdfs_handle_lifecycle hd req out s s1 :
  Tables.inv rn 1 s -> open hd req s = (Ok out, s1) ->
  let fh := FuseOpenOut.fh out in
  files s !! fh = None /\ dirs s1 !! fh = None /\
  (exists f, files s1 = <[fh := f]> (files s)) /\ dirs s1 = dirs s /\
  exists s2, release hd (FuseReleaseIn.mk fh 0 0 0) s1 = (Ok tt, s2) /\
    files s2 = files s /\ on_handle fh s2 = replicate 5 (Err EBADF).
Proof.
  intros Hs. destruct (Tables.fresh_handle _ _ _ Hs) as [Hf Hd].
  unfold open, mbind, sm_bind, resolve_node, io, next_fh, sm_modify.
  destruct (nodes s !! FuseInHeader.nodeid hd) as [p|]; simpl; [|done].
  destruct (host_open _ _ _) as [[f|e] w]; simpl; [|done]. intros [= <- <-].
  cbn [FuseOpenOut.fh files dirs set_files set_next_handle set_host next_handle].
  split_and!; [done|done|by eexists|done|].
  eexists. unfold release, mbind, sm_bind, resolve_file, sm_modify.
  cbn [FuseReleaseIn.fh files set_files]. rewrite lookup_insert_eq. simpl. split; [done|].
  split; [by rewrite delete_insert_id|]. apply on_handle_closed. simpl. by rewrite delete_insert_id.
Qed.

(** The references the guest holds on a node. *)
Definition refs s (id : Z) : Z := default 0 (lookup_counts s !! id).

(** a lookup returns the node of the child's path and counts one more
    reference to it; forgetting fewer references than are held keeps the node,
    forgetting them all drops it and its path and nothing else. *)
Theorem stdfs_lookup_references hd name e s s' :
  Tables.inv rn 1 s -> lookup hd name s = (Ok e, s') -> FuseEntryOut.nodeid e <> ROOT_NODE_ID ->
  let id := FuseEntryOut.nodeid e in
  exists p, fst (child_path (FuseInHeader.nodeid hd) name s) = Ok p /\
    paths s' !! components p = Some id /\ refs s' id = Z.min (refs s id + 1) U64_MAX /\
    forall n, 0 <= n ->
      (n < refs s' id -> nodes (forget_node id n s') = nodes s' /\ refs (forget_node id n s') id = refs s' id - n) /\
      (refs s' id <= n -> nodes (forget_node id n s') = delete id (nodes s') /\
         paths (forget_node id n s') = delete (components p) (paths s')).
Proof.
  intros Hs Hl Hne. unfold lookup, mbind, sm_bind in Hl.
  destruct (child_path (FuseInHeader.nodeid hd) name s) as [[p|err] s1] eqn:Hc; [|done].
  pose proof (Tables.keeps_child_path rn 1 (FuseInHeader.nodeid hd) name s Hs) as Hk. rewrite Hc in Hk.
  destruct Hk as [_ Hp%Tables.below_under]. pose proof (Tables.child_path_state _ _ _ _ _ Hc) as ->.
  exists p. split; [done|].
  unfold entry_for_path, node_attr, mbind, sm_bind, query in Hl.
  destruct (host_symlink_metadata _ _) as [meta|]; simpl in Hl; [|done].
  destruct (register_path p s) as [id s2] eqn:Hr. simpl in Hl. injection Hl as <- <-. simpl in Hne.
  assert (Hpaths : paths s2 !! components p = Some id /\ lookup_counts s2 = lookup_counts s).
  { unfold register_path in Hr. destruct (paths s !! components p) eqn:Hx; simplify_eq; [done|].
    cbn. by rewrite lookup_insert_eq. }
  destruct Hpaths as [Hpaths Hcounts].
  pose proof (Tables.register_path_inv rn 0 s p id s2 (Z.le_refl 0) Hs Hp Hr) as (Hi & [q Hq] & _).
  destruct (Tables.i_paths _ _ _ Hi _ _ Hpaths) as (q' & Hq' & Hqk). rewrite Hq in Hq'.
  injection Hq' as <-. cbn [FuseEntryOut.nodeid]. rewrite <- (Z.eqb_neq id ROOT_NODE_ID) in Hne.
  unfold bump, forget_node, refs. rewrite Hne. cbn. rewrite Hcounts, lookup_insert_eq. split_and!.
  - done.
  - cbn. destruct (lookup_counts s !! id); simpl; unfold U64_MAX; lia.
  - intros n Hn. cbn. set (c := match lookup_counts s !! id with Some _ => _ | None => _ end). split.
    + intros Hlt. rewrite (proj2 (Z.leb_gt c n)) by done. cbn. split; [done|].
      by rewrite lookup_insert_eq.
    + intros Hle. rewrite (proj2 (Z.leb_le c n)) by done. rewrite Hq. cbn. by rewrite Hqk.
Qed.

End Lifecycle.

(** The sample after a lookup of [a]: node 2. *)
Definition looked_up : t MemFs.t key := snd (lookup (hdr FuseOpcode.Lookup 1) (c_name "a") start).

Lemma looked_up_inv : Tables.inv rootn 1 looked_up.
Proof.
  assert (Hs : Tables.inv rootn (1 + 1) start) by by apply start_inv.
  pose proof (Tables.keeps_lookup rootn 1 (hdr FuseOpcode.Lookup 1) (c_name "a") ltac:(lia) start Hs) as Hk.
  unfold looked_up. destruct (lookup _ _ start) as [r s']. by destruct Hk.
Qed.

Lemma stdfs_handle_lifecycle_witness :
  exists out s1, open (hdr FuseOpcode.Open 2) (FuseOpenIn.mk 0 0) looked_up = (Ok out, s1) /\
    exists s2, release (hdr FuseOpcode.Open 2) (FuseReleaseIn.mk (FuseOpenOut.fh out) 0 0 0) s1 = (Ok tt, s2) /\
      files s2 = files looked_up /\ on_handle (FuseOpenOut.fh out) s2 = replicate 5 (Err EBADF).
Proof.
  eexists (FuseOpenOut.mk 1 0 0), _. split; [reflexivity|].
  apply (stdfs_handle_lifecycle rootn (hdr FuseOpcode.Open 2) (FuseOpenIn.mk 0 0)
           (FuseOpenOut.mk 1 0 0) looked_up).
  - exact looked_up_inv.
  - reflexivity.
Defined.

Lemma stdfs_lookup_references_witness :
  exists e s', lookup (hdr FuseOpcode.Lookup 1) (c_name "a") looked_up = (Ok e, s') /\
    refs s' 2 = Z.min (refs looked_up 2 + 1) U64_MAX.
Proof.
  assert (Hn : node_of (fst (lookup (hdr FuseOpcode.Lookup 1) (c_name "a") looked_up)) = Some 2)
    by (vm_compute; reflexivity).
  destruct (lookup (hdr FuseOpcode.Lookup 1) (c_name "a") looked_up) as [[e|err] s'] eqn:Hl;
    [|discriminate Hn].
  exists e, s'. split; [reflexivity|]. injection Hn as He.
  destruct (stdfs_lookup_references rootn (hdr FuseOpcode.Lookup 1) (c_name "a") e looked_up s'
              looked_up_inv Hl) as (p & _ & _ & Hr & _).
  - rewrite He. discriminate.
  - rewrite He in Hr. exact Hr.
Defined.
