(* ===== verification/Time.v ===== *)
(** * Calendar dates and timestamps ([crates/control-plane/src/time.rs])

    The civil-date arithmetic behind every timestamp of the control plane, as
    the source computes it, against the Gregorian calendar counted day by day;
    and the RFC 3339 strings, whose order as text the token expiry checks rely
    on. *)

From Stdlib Require Import Ascii String.
From stdpp Require Import strings pretty.
From S2P Require Import Prelude.

Local Open Scope string_scope.
Local Open Scope Z_scope.

(** ** Formatting *)

Definition zeros (n : nat) : string := string_of_list_ascii (replicate n "0"%char).

(** [format!("{x:0w}")]: the sign first, then zeros up to the width. *)
Definition fmt0 (w : nat) (x : Z) : string :=
  if x <? 0 then
    let d := pretty (Z.to_N (- x)) in "-" +:+ zeros (w - 1 - String.length d) +:+ d
  else
    let d := pretty (Z.to_N x) in zeros (w - String.length d) +:+ d.

(** ** The source's algorithm *)

(** [z + 719468] is an [i64] sum in the source. It cannot overflow for the days of
    a 64-bit number of seconds, which is all [rfc3339_offset] passes, and is left
    unbounded here. *)
Definition civil_from_days (z : Z) : Z * Z * Z :=
  let z := z + 719468 in
  let era := Z.quot (if 0 <=? z then z else z - 146096) 146097 in
  let doe := wrap64 (z - era * 146097) in
  let yoe := (doe - doe / 1460 + doe / 36524 - doe / 146096) / 365 in
  let y := yoe + era * 400 in
  let doy := doe - (365 * yoe + yoe / 4 - yoe / 100) in
  let mp := (5 * doy + 2) / 153 in
  let d := doy - (153 * mp + 2) / 5 + 1 in
  let m := if mp <? 10 then mp + 3 else mp - 9 in
  let y := if m <=? 2 then y + 1 else y in
  (as_i32 y, wrap32 m, wrap32 d).

(** [i64::saturating_add] *)
Definition saturating_add_i64 (a b : Z) : Z := Z.max (- 2 ^ 63) (Z.min (2 ^ 63 - 1) (a + b)).

(** The string for a number of seconds since the epoch. *)
Definition rfc3339_at (secs millis : Z) : string :=
  let '(year, month, day) := civil_from_days (secs / 86400) in
  let s_of_day := wrap32 (secs mod 86400) in
  let h := s_of_day / 3600 in
  let m := s_of_day mod 3600 / 60 in
  let s := s_of_day mod 60 in
  fmt0 4 year +:+ "-" +:+ fmt0 2 month +:+ "-" +:+ fmt0 2 day +:+ "T" +:+
  fmt0 2 h +:+ ":" +:+ fmt0 2 m +:+ ":" +:+ fmt0 2 s +:+ "." +:+ fmt0 3 millis +:+ "Z".

(** [now_secs] and [now_millis] are the wall clock's time since the epoch. *)
Definition rfc3339_offset (now_secs now_millis offset_secs : Z) : string :=
  let signed_secs := saturating_add_i64 (as_i64 now_secs) offset_secs in
  if signed_secs <? 0 then rfc3339_at 0 0 else rfc3339_at signed_secs now_millis.

Definition rfc3339_now (now_secs now_millis : Z) : string := rfc3339_offset now_secs now_millis 0.

(** ** The calendar *)

Module Calendar.
Definition leap (y : Z) : bool := (y mod 4 =? 0) && (negb (y mod 100 =? 0) || (y mod 400 =? 0)).

Definition month_length (y m : Z) : Z :=
  if m =? 2 then (if leap y then 29 else 28)
  else if (m =? 4) || (m =? 6) || (m =? 9) || (m =? 11) then 30 else 31.

Definition next_day (date : Z * Z * Z) : Z * Z * Z :=
  let '(y, m, d) := date in
  if d <? month_length y m then (y, m, d + 1)
  else if m <? 12 then (y, m + 1, 1)
  else (y + 1, 1, 1).

(** The date [n] days after 1970-01-01. *)
Definition date_after (n : nat) : Z * Z * Z := Nat.iter n next_day (1970, 1, 1).

Definition valid (date : Z * Z * Z) : Prop :=
  let '(y, m, d) := date in 1 <= m <= 12 /\ 1 <= d <= month_length y m.
End Calendar.
Export Calendar.

Example civil_anchors :
  (civil_from_days 0, civil_from_days 10957, civil_from_days 18321, civil_from_days 18322,
    civil_from_days 18687)
  = ((1970, 1, 1), (2000, 1, 1), (2020, 2, 29), (2020, 3, 1), (2021, 3, 1)).
Proof. reflexivity. Qed.

Example rfc3339_sample :
  (rfc3339_offset 1700000000 7 0, rfc3339_offset 1700000000 7 (-1800000000))
  = ("2023-11-14T22:13:20.007Z", "1970-01-01T00:00:00.000Z").
Proof. vm_compute. reflexivity. Qed.

(** ** The algorithm follows the calendar *)

(** The date within a 400-year era that starts on a first of March, by the day
    of the era: first the year, then month and day by the day of that year. *)
Definition year_of_era (doe : Z) : Z := (doe - doe / 1460 + doe / 36524 - doe / 146096) / 365.

Definition year_start (y : Z) : Z := 365 * y + y / 4 - y / 100.

Definition year_date (y doy : Z) : Z * Z * Z :=
  let mp := (5 * doy + 2) / 153 in
  let d := doy - (153 * mp + 2) / 5 + 1 in
  let m := if mp <? 10 then mp + 3 else mp - 9 in
  (if m <=? 2 then y + 1 else y, m, d).

Definition era_date (doe : Z) : Z * Z * Z :=
  let y := year_of_era doe in year_date y (doe - year_start y).

(** A year counted from March has its leap day at the end. *)
Definition year_length (y : Z) : Z := if leap (y + 1) then 366 else 365.

Lemma year_of_era_mono a b : 0 <= a <= b -> b < 146097 -> year_of_era a <= year_of_era b.
Proof.
  intros Hab Hb. unfold year_of_era. apply Z.div_le_mono; [lia|].
  Z.to_euclidean_division_equations; lia.
Qed.

(** The start of each year and its last day, year by year. *)
Definition year_ok (y : Z) : bool :=
  (year_of_era (year_start y) =? y) && (year_of_era (year_start y + year_length y - 1) =? y)
  && (year_start y + year_length y =? if y =? 399 then 146097 else year_start (y + 1)).

Lemma years_checked : forallb year_ok (seqZ 0 400) = true.
Proof. vm_compute. reflexivity. Qed.

Lemma year_checked y :
  0 <= y < 400 ->
  year_of_era (year_start y) = y /\ year_of_era (year_start y + year_length y - 1) = y
  /\ year_start y + year_length y = if y =? 399 then 146097 else year_start (y + 1).
Proof.
  intros Hy. pose proof years_checked as H. rewrite forallb_forall in H.
  specialize (H y (proj1 (list_elem_of_In _ _) (proj2 (elem_of_seqZ 0 400 y) ltac:(lia)))).
  unfold year_ok in H. rewrite !andb_true_iff, !Z.eqb_eq in H. tauto.
Qed.

Lemma year_length_range y : 365 <= year_length y <= 366.
Proof. unfold year_length. case_if; lia. Qed.

Lemma year_of_era_day y k :
  0 <= y < 400 -> 0 <= k < year_length y -> year_of_era (year_start y + k) = y.
Proof.
  intros Hy Hk. destruct (year_checked y Hy) as (Hs & He & Hn).
  assert (0 <= year_start y) by (unfold year_start; Z.to_euclidean_division_equations; lia).
  assert (year_start y + year_length y <= 146097).
  { rewrite Hn. case_if; [lia|]. unfold year_start. Z.to_euclidean_division_equations; lia. }
  pose proof (year_of_era_mono (year_start y) (year_start y + k)) as H1.
  pose proof (year_of_era_mono (year_start y + k) (year_start y + year_length y - 1)) as H2. lia.
Qed.

(** Every day of the era is a day of some year. *)
Lemma era_day doe :
  0 <= doe < 146097 ->
  exists y k, 0 <= y < 400 /\ 0 <= k < year_length y /\ doe = year_start y + k.
Proof.
  intros [H0 H1]. revert H1. pattern doe. apply natlike_ind; [|clear doe H0..|done].
  - intros _. exists 0, 0. vm_compute. split_and!; congruence.
  - intros doe H0 IH H1. destruct IH as (y & k & Hy & Hk & Hd); [lia|].
    destruct (year_checked y Hy) as (_ & _ & Hn).
    destruct (decide (k + 1 < year_length y)) as [Hlt|Hge]; [exists y, (k + 1); lia|].
    exists (y + 1), 0. pose proof (year_length_range (y + 1)).
    case_if_in Hn; lia.
Qed.

Lemma era_date_day y k :
  0 <= y < 400 -> 0 <= k < year_length y -> era_date (year_start y + k) = year_date y k.
Proof.
  intros Hy Hk. unfold era_date. rewrite year_of_era_day by done. f_equal. lia.
Qed.

Ltac months mp :=
  let go c := (destruct (decide (mp = c)) as [-> |]; [simpl|]) in
  go 0; [|go 1; [|go 2; [|go 3; [|go 4; [|go 5; [|go 6; [|go 7; [|go 8; [|go 9; [|go 10;
    [|go 11; [|lia]]]]]]]]]]]].

(** Within a year and at its end, the next day is the calendar's. *)
Lemma year_date_next y k :
  0 <= k < year_length y ->
  next_day (year_date y k) =
    if k + 1 <? year_length y then year_date y (k + 1) else year_date (y + 1) 0.
Proof.
  intros Hk. unfold year_date. set (mp := (5 * k + 2) / 153). set (mp' := (5 * (k + 1) + 2) / 153).
  assert (Hmp : 153 * mp <= 5 * k + 2 < 153 * mp + 153)
    by (unfold mp; Z.to_euclidean_division_equations; lia).
  assert (Hmp' : 153 * mp' <= 5 * k + 7 < 153 * mp' + 153)
    by (unfold mp'; Z.to_euclidean_division_equations; lia).
  pose proof (year_length_range y). clearbody mp mp'.
  assert (mp' = mp \/ mp' = mp + 1) as [-> | ->] by lia.
  all: months mp; unfold next_day, month_length, year_length in *; simpl in *;
    repeat case_if; try lia; repeat f_equal; Z.to_euclidean_division_equations; lia.
Qed.

(** Adding whole eras shifts the year only. *)
Definition shift_years (k : Z) (date : Z * Z * Z) : Z * Z * Z :=
  let '(y, m, d) := date in (y + 400 * k, m, d).

Lemma leap_shift k y : leap (y + 400 * k) = leap y.
Proof.
  unfold leap.
  replace ((y + 400 * k) mod 4) with (y mod 4) by (Z.to_euclidean_division_equations; lia).
  replace ((y + 400 * k) mod 100) with (y mod 100) by (Z.to_euclidean_division_equations; lia).
  by replace ((y + 400 * k) mod 400) with (y mod 400) by (Z.to_euclidean_division_equations; lia).
Qed.

Lemma next_day_shift k date : next_day (shift_years k date) = shift_years k (next_day date).
Proof.
  destruct date as [[y m] d]. unfold shift_years, next_day, month_length.
  rewrite leap_shift. repeat case_match; try done; f_equal; f_equal; lia.
Qed.

(** The algorithm before its results are narrowed. *)
Definition civil (n : Z) : Z * Z * Z :=
  let z := n + 719468 in shift_years (z / 146097) (era_date (z mod 146097)).

Lemma era_date_next doe :
  0 <= doe < 146097 ->
  next_day (era_date doe) = if doe =? 146096 then shift_years 1 (era_date 0) else era_date (doe + 1).
Proof.
  intros Hdoe. destruct (era_day doe Hdoe) as (y & k & Hy & Hk & ->).
  destruct (year_checked y Hy) as (_ & _ & Hn). pose proof (year_length_range (y + 1)).
  rewrite era_date_day, year_date_next by done. case_if.
  - rewrite <- Z.add_assoc, era_date_day by lia. case_if; [|done].
    case_if_in Hn; [lia|]. destruct (year_checked (y + 1)) as (_ & _ & Hn'); [lia|].
    case_if_in Hn'; [lia|]. unfold year_start in *. Z.to_euclidean_division_equations; lia.
  - replace k with (year_length y - 1) by lia. case_if_in Hn.
    + case_if; [subst y; reflexivity|lia].
    + replace (year_start y + (year_length y - 1) + 1) with (year_start (y + 1) + 0) by lia.
      rewrite era_date_day by lia. case_if; [|done].
      unfold year_start in *. Z.to_euclidean_division_equations; lia.
Qed.

Lemma civil_next n : 0 <= n -> civil (n + 1) = next_day (civil n).
Proof.
  intros Hn. unfold civil. set (z := n + 719468). replace (n + 1 + 719468) with (z + 1) by lia.
  rewrite next_day_shift, era_date_next by (Z.to_euclidean_division_equations; lia). case_if.
  - assert ((z + 1) / 146097 = z / 146097 + 1 /\ (z + 1) mod 146097 = 0) as [-> ->]
      by (Z.to_euclidean_division_equations; lia).
    unfold shift_years. destruct (era_date 0) as [[y m] d]. f_equal. f_equal. lia.
  - by assert ((z + 1) / 146097 = z / 146097 /\ (z + 1) mod 146097 = z mod 146097 + 1) as [-> ->]
      by (Z.to_euclidean_division_equations; lia).
Qed.

Lemma civil_date_after n : civil (Z.of_nat n) = date_after n.
Proof.
  induction n as [|n IH]; [reflexivity|].
  rewrite Nat2Z.inj_succ. unfold Z.succ. rewrite civil_next by lia. rewrite IH. reflexivity.
Qed.

Lemma next_day_valid date : valid date -> valid (next_day date).
Proof.
  destruct date as [[y m] d]. unfold next_day. intros [Hm Hd].
  repeat case_if; unfold valid; (split; [lia|]); try lia;
    unfold month_length; repeat case_if; lia.
Qed.

Lemma date_after_valid n : valid (date_after n).
Proof.
  induction n as [|n IH]; [by vm_compute|]. by apply next_day_valid.
Qed.

Lemma civil_from_days_narrow n :
  0 <= n -> civil_from_days n = let '(y, m, d) := civil n in (as_i32 y, m, d).
Proof.
  intros Hn. pose proof (date_after_valid (Z.to_nat n)) as Hv.
  rewrite <- civil_date_after, Z2Nat.id in Hv by done. revert Hv.
  unfold civil_from_days, civil, shift_years, era_date, year_date, year_of_era, year_start.
  replace (0 <=? n + 719468) with true by (symmetry; apply Z.leb_le; lia).
  rewrite Z.quot_div_nonneg by lia.
  replace (n + 719468 - (n + 719468) / 146097 * 146097) with ((n + 719468) mod 146097)
    by (Z.to_euclidean_division_equations; lia).
  rewrite wrap64_small by ulia. set (doe := (n + 719468) mod 146097).
  set (yoe := (doe - doe / 1460 + doe / 36524 - doe / 146096) / 365).
  set (m := if _ <? 10 then _ else _). set (d := _ - _ / 5 + 1).
  cbn zeta. intros [Hm Hd].
  assert (d <= 31) by (revert Hd; unfold month_length; repeat case_if; lia).
  clearbody m d. rewrite !wrap32_small by ulia. do 3 f_equal. case_if; lia.
Qed.

(** ** Order

    [then_cmp c d] is the comparison of pairs, first components first. *)

Definition then_cmp (c d : comparison) : comparison := match c with Eq => d | Lt => Lt | Gt => Gt end.

Lemma then_cmp_assoc a b c : then_cmp (then_cmp a b) c = then_cmp a (then_cmp b c).
Proof. by destruct a. Qed.

Definition date_compare (a b : Z * Z * Z) : comparison :=
  let '(y, m, d) := a in let '(y', m', d') := b in
  then_cmp (y ?= y') (then_cmp (m ?= m') (d ?= d')).

(** Comparing in a mixed radix is comparing digit by digit. *)
Lemma radix_compare k q q' r r' :
  0 <= r < k -> 0 <= r' < k -> (q * k + r ?= q' * k + r') = then_cmp (q ?= q') (r ?= r').
Proof.
  intros Hr Hr'. destruct (Z.compare_spec q q') as [-> |Hq|Hq]; simpl.
  - by rewrite Zcompare_plus_compat.
  - apply Z.compare_lt_iff. nia.
  - apply Z.compare_gt_iff. nia.
Qed.

Lemma div_mod_compare k a b :
  0 < k -> (a ?= b) = then_cmp (a / k ?= b / k) (a mod k ?= b mod k).
Proof.
  intros Hk. rewrite <- (radix_compare k) by (apply Z.mod_pos_bound; lia).
  f_equal; rewrite Z.mul_comm; apply Z.div_mod; lia.
Qed.

Lemma date_compare_lt a b :
  date_compare a b = Lt <->
  let '(y, m, d) := a in let '(y', m', d') := b in
  y < y' \/ (y = y' /\ (m < m' \/ (m = m' /\ d < d'))).
Proof.
  destruct a as [[y m] d], b as [[y' m'] d']. simpl. unfold then_cmp.
  destruct (Z.compare_spec y y'), (Z.compare_spec m m'), (Z.compare_spec d d');
    split; intros; try done; lia.
Qed.

Lemma next_day_later date : date_compare date (next_day date) = Lt.
Proof.
  apply date_compare_lt. destruct date as [[y m] d]. simpl. repeat case_if; lia.
Qed.

Lemma date_compare_trans a b c :
  date_compare a b = Lt -> date_compare b c = Lt -> date_compare a c = Lt.
Proof.
  rewrite !date_compare_lt. destruct a as [[? ?] ?], b as [[? ?] ?], c as [[? ?] ?]. lia.
Qed.

Lemma date_after_lt n k : date_compare (date_after n) (date_after (S k + n)) = Lt.
Proof.
  induction k as [|k IH]; [apply next_day_later|].
  eapply date_compare_trans; [apply IH|]. apply next_day_later.
Qed.

Lemma date_compare_antisym a b : date_compare b a = CompOpp (date_compare a b).
Proof.
  destruct a as [[y m] d], b as [[y' m'] d']. simpl.
  rewrite (Z.compare_antisym y), (Z.compare_antisym m), (Z.compare_antisym d).
  by destruct (y ?= y'), (m ?= m').
Qed.

(** Days and their dates are ordered alike. *)
Lemma date_after_compare n n' :
  date_compare (date_after n) (date_after n') = (Z.of_nat n ?= Z.of_nat n').
Proof.
  destruct (Z.compare_spec (Z.of_nat n) (Z.of_nat n')) as [->%Nat2Z.inj|Hlt|Hgt].
  - destruct (date_after n') as [[y m] d]. simpl. by rewrite !Z.compare_refl.
  - replace n' with (S (n' - n - 1) + n)%nat by lia. apply date_after_lt.
  - rewrite date_compare_antisym. replace n with (S (n - n' - 1) + n')%nat by lia.
    by rewrite date_after_lt.
Qed.

(** ** Fixed-width decimals *)

Definition digit (i : Z) : ascii := ascii_of_N (48 + Z.to_N i).

Fixpoint digits (w : nat) (x : Z) : string :=
  match w with
  | O => EmptyString
  | S w => String (digit (x / 10 ^ Z.of_nat w)) (digits w (x mod 10 ^ Z.of_nat w))
  end.

(** A width at which every number that fits is printed as its digits. *)
Fixpoint fmt_ok (w k : nat) (x : Z) : bool :=
  match k with
  | O => true
  | S k => String.eqb (fmt0 w x) (digits w x) && fmt_ok w k (x + 1)
  end.

Lemma fmt_ok_at w k a x :
  fmt_ok w k a = true -> a <= x < a + Z.of_nat k -> fmt0 w x = digits w x.
Proof.
  revert a. induction k as [|k IH]; intros a; simpl; [lia|].
  intros [Ha Hk]%andb_true_iff Hx. apply String.eqb_eq in Ha.
  destruct (decide (x = a)) as [-> |]; [done|]. apply (IH (a + 1)); [done|lia].
Qed.

Lemma fmt0_2 x : 0 <= x < 100 -> fmt0 2 x = digits 2 x.
Proof. intros. apply (fmt_ok_at 2 100 0); [vm_compute; reflexivity|lia]. Qed.
Lemma fmt0_3 x : 0 <= x < 1000 -> fmt0 3 x = digits 3 x.
Proof. intros. apply (fmt_ok_at 3 1000 0); [vm_compute; reflexivity|lia]. Qed.
Lemma fmt0_4 x : 0 <= x < 10000 -> fmt0 4 x = digits 4 x.
Proof. intros. apply (fmt_ok_at 4 (Z.to_nat 10000) 0); [vm_compute; reflexivity|lia]. Qed.

Lemma digit_compare i j :
  0 <= i < 10 -> 0 <= j < 10 -> Ascii.compare (digit i) (digit j) = (i ?= j).
Proof.
  intros Hi Hj. unfold digit, Ascii.compare. rewrite !N_ascii_embedding by lia.
  rewrite <- N2Z.inj_compare, !N2Z.inj_add, !Z2N.id by lia. apply Zcompare_plus_compat.
Qed.

Lemma digits_length w x : String.length (digits w x) = w.
Proof. revert x. induction w; intros x; simpl; auto. Qed.

(** Text made of fixed-width numbers compares number by number. *)
Lemma digits_compare w a b r r' :
  0 <= a < 10 ^ Z.of_nat w -> 0 <= b < 10 ^ Z.of_nat w ->
  String.compare (digits w a +:+ r) (digits w b +:+ r')
  = then_cmp (a ?= b) (String.compare r r').
Proof.
  revert a b. induction w as [|w IH]; intros a b Ha Hb.
  { assert (a = b) as -> by (simpl in *; lia). by rewrite Z.compare_refl. }
  set (k := 10 ^ Z.of_nat w) in *. assert (Hk : 0 < k) by (apply Z.pow_pos_nonneg; lia).
  rewrite Nat2Z.inj_succ, Z.pow_succ_r in Ha, Hb by lia. fold k in Ha, Hb.
  trans (then_cmp (Ascii.compare (digit (a / k)) (digit (b / k)))
           (String.compare (digits w (a mod k) +:+ r) (digits w (b mod k) +:+ r'))); [done|].
  rewrite digit_compare by (split; [apply Z.div_pos; lia|apply Z.div_lt_upper_bound; lia]).
  rewrite IH by (apply Z.mod_pos_bound; lia).
  by rewrite <- then_cmp_assoc, <- div_mod_compare.
Qed.

Lemma char_compare c r r' : String.compare (String c r) (String c r') = String.compare r r'.
Proof. simpl. unfold Ascii.compare. by rewrite N.compare_refl. Qed.

(** ** Timestamps *)

(** The last day of year 9999. *)
Definition LAST_DAY : Z := 2932896.

Lemma year_mono n n' y m d y' m' d' :
  (n <= n')%nat -> date_after n = (y, m, d) -> date_after n' = (y', m', d') -> y <= y'.
Proof.
  intros Hle H H'. destruct (decide (n = n')) as [-> |]; [rewrite H in H'; by injection H' as -> -> ->|].
  pose proof (date_after_lt n (n' - n - 1)) as Hc.
  replace (S (n' - n - 1) + n)%nat with n' in Hc by lia.
  rewrite H, H' in Hc. apply date_compare_lt in Hc. lia.
Qed.

Lemma year_range n y m d :
  Z.of_nat n <= LAST_DAY -> date_after n = (y, m, d) -> 1970 <= y <= 9999.
Proof.
  intros Hn Hd. split; [by eapply (year_mono 0 n); [lia| |]|].
  eapply (year_mono n (Z.to_nat LAST_DAY)); [lia|done|].
  rewrite <- civil_date_after, Z2Nat.id by done. reflexivity.
Qed.

(** Moments the formatter prints with a four-digit year. *)
Definition printable (secs millis : Z) : Prop :=
  0 <= secs < (LAST_DAY + 1) * 86400 /\ 0 <= millis < 1000.

Lemma rfc3339_at_digits secs millis :
  printable secs millis ->
  let '(y, m, d) := date_after (Z.to_nat (secs / 86400)) in
  let s := secs mod 86400 in
  rfc3339_at secs millis =
    digits 4 y +:+ String "-" (digits 2 m +:+ String "-" (digits 2 d +:+ String "T" (
    digits 2 (s / 3600) +:+ String ":" (digits 2 (s mod 3600 / 60) +:+ String ":" (
    digits 2 (s mod 60) +:+ String "." (digits 3 millis +:+ "Z"))))))
  /\ 0 <= y < 10 ^ 4 /\ 0 <= m < 10 ^ 2 /\ 0 <= d < 10 ^ 2.
Proof.
  intros [Hs Hm]. set (n := Z.to_nat (secs / 86400)).
  assert (Hn : Z.of_nat n = secs / 86400) by (apply Z2Nat.id, Z.div_pos; lia).
  assert (Hlast : Z.of_nat n <= LAST_DAY) by (unfold LAST_DAY in *; Z.to_euclidean_division_equations; lia).
  destruct (date_after n) as [[y m] d] eqn:Hd. pose proof (year_range n y m d Hlast Hd) as Hy.
  pose proof (date_after_valid n) as Hv. rewrite Hd in Hv. destruct Hv as [Hmr Hdr].
  assert (Hd31 : d <= 31) by (revert Hdr; unfold month_length; repeat case_if; lia).
  assert (Hciv : civil_from_days (secs / 86400) = (y, m, d)).
  { rewrite <- Hn, civil_from_days_narrow, civil_date_after, Hd by lia.
    unfold as_i32. rewrite Z.mod_small by lia. f_equal. f_equal. lia. }
  unfold rfc3339_at. rewrite Hciv. rewrite wrap32_small by ulia.
  rewrite fmt0_4, !fmt0_2, fmt0_3 by (Z.to_euclidean_division_equations; lia).
  split; [done|lia].
Qed.

(** C38: [civil_from_days] agrees with the calendar: counting days one by one
    from 1970-01-01 with the Gregorian leap-year rule and month lengths gives
    the date it computes, as long as the year fits the [i32] it is returned in;
    beyond that only the year is truncated. *)
Theorem civil_from_days_calendar n :
  let '(y, m, d) := date_after n in
  civil_from_days (Z.of_nat n) = (as_i32 y, m, d) /\ (y < 2 ^ 31 -> as_i32 y = y)
  /\ valid (y, m, d).
Proof.
  pose proof (date_after_valid n) as Hv.
  rewrite civil_from_days_narrow, civil_date_after by lia.
  destruct (date_after n) as [[y m] d] eqn:Hd. split; [done|split; [|done]].
  intros Hy. assert (1970 <= y) by (eapply (year_mono 0 n); [lia|done|exact Hd]).
  unfold as_i32. rewrite Z.mod_small by lia. lia.
Qed.

(** timestamps compare as text exactly as the moments they print compare in
    time, up to the end of year 9999, and have 24 characters: the comparison of
    expiry strings is a comparison of times. *)
Theorem rfc3339_text_order secs millis secs' millis' :
  printable secs millis -> printable secs' millis' ->
  String.compare (rfc3339_at secs millis) (rfc3339_at secs' millis')
    = (secs * 1000 + millis ?= secs' * 1000 + millis')
  /\ String.length (rfc3339_at secs millis) = 24%nat.
Proof.
  intros Hp Hp'. pose proof (rfc3339_at_digits secs millis Hp) as Ht.
  pose proof (rfc3339_at_digits secs' millis' Hp') as Ht'.
  pose proof (date_after_compare (Z.to_nat (secs / 86400)) (Z.to_nat (secs' / 86400))) as Hc.
  destruct Hp as [Hs Hm], Hp' as [Hs' Hm'].
  rewrite !Z2Nat.id in Hc by (apply Z.div_pos; lia).
  destruct (date_after (Z.to_nat (secs / 86400))) as [[y m] d].
  destruct (date_after (Z.to_nat (secs' / 86400))) as [[y' m'] d'].
  destruct Ht as (-> & ? & ? & ?), Ht' as (-> & ? & ? & ?). split.
  - repeat first [rewrite char_compare | rewrite digits_compare by
      (simpl Z.of_nat; Z.to_euclidean_division_equations; lia)].
    rewrite (radix_compare 1000), (div_mod_compare 86400 secs secs') by lia. rewrite <- Hc.
    rewrite (div_mod_compare 3600 (secs mod 86400)), (div_mod_compare 60 (_ mod 3600)) by lia.
    replace (secs mod 86400 mod 3600 mod 60) with (secs mod 86400 mod 60)
      by (Z.to_euclidean_division_equations; lia).
    replace (secs' mod 86400 mod 3600 mod 60) with (secs' mod 86400 mod 60)
      by (Z.to_euclidean_division_equations; lia).
    unfold date_compare. rewrite !then_cmp_assoc.
    change (String.compare "Z" "Z") with Eq. by destruct (millis ?= millis').
  - done.
Qed.

Lemma rfc3339_text_order_witness :
  String.compare (rfc3339_at 1700000000 7) (rfc3339_at 1700000000 10) = Lt
  /\ String.length (rfc3339_at 1700000000 7) = 24%nat.
Proof.
  apply (rfc3339_text_order 1700000000 7 1700000000 10); unfold printable, LAST_DAY; lia.
Defined.
