(* ===== verification/ApiError.v ===== *)
(** * The HTTP error envelope ([crates/control-plane/src/error.rs])

    Every failure of a handler as a value, and its rendering as a status, a
    stable code and a message. A rejection of the web framework's extractors is
    the status and text it carries. *)

From Stdlib Require Import Ascii String.
From stdpp Require Import strings pretty.
From S2P Require Import Prelude VmCore.

Local Open Scope string_scope.

(** [axum]'s [JsonRejection] and [PathRejection]. *)
Module Rejection.
Record t : Type := mk { status : Z; body_text : string }.
End Rejection.

Inductive ApiError : Type :=
| ApiVm (e : VmError)
| BadJson (rej : Rejection.t)
| BadPath (rej : Rejection.t)
| Unauthorized (message : string)
| Forbidden (code message : string)
| Internal (message : string)
| Bad (message : string)
| TooManyRequests (code message : string) (retry_after_secs : Z)
| PaymentRequired (code message upgrade_endpoint : string)
| ApiUnsupported (code message : string)
| NotFound (code message : string)
| InternalDyn (message : string).

(** The response: status, [retry-after] header, code, message and the extra
    field of the 402 body. *)
Module ErrorResponse.
Record t : Type := mk {
  status : Z;
  retry_after : option string;
  code : string;
  message : string;
  upgrade_endpoint : option string;
}.
End ErrorResponse.

Definition vm_error_status (e : VmError) : Z * string :=
  match e with
  | UnknownVm _ => (404, "unknown_vm")
  | UnknownSnapshot _ => (404, "unknown_snapshot")
  | InvalidTransition _ _ _ => (409, "invalid_transition")
  | Unsupported _ => (501, "unsupported")
  | Backend _ => (500, "backend")
  end.

Definition into_response (e : ApiError) : ErrorResponse.t :=
  let plain status code message := ErrorResponse.mk status None code message None in
  match e with
  | TooManyRequests code message retry_after_secs =>
      ErrorResponse.mk 429 (Some (pretty retry_after_secs)) code message None
  | PaymentRequired code message upgrade_endpoint =>
      ErrorResponse.mk 402 None code message (Some upgrade_endpoint)
  | ApiVm e => let '(status, code) := vm_error_status e in plain status code (display_vm_error e)
  | BadJson rej => plain (Rejection.status rej) "bad_request" (Rejection.body_text rej)
  | BadPath rej => plain (Rejection.status rej) "bad_request" (Rejection.body_text rej)
  | Unauthorized msg => plain 401 "unauthorized" msg
  | Forbidden code message => plain 403 code message
  | Internal msg => plain 500 "internal" msg
  | InternalDyn msg => plain 500 "internal" msg
  | Bad msg => plain 400 "bad_request" msg
  | ApiUnsupported code message => plain 501 code message
  | NotFound code message => plain 404 code message
  end.
