(* ===== verification/Auth.v ===== *)
(** * Bearer tokens ([crates/control-plane/src/auth.rs] and [keys.rs])

    The accepted tokens and their organisations, the environment format they
    are configured in, the keys issued and revoked at run time with the file
    they are kept in, the middleware that admits a request, and the three
    [/v1/keys] handlers. Random bytes, their base64url encoding, the clock, JSON
    and the disk are arguments. *)

From Stdlib Require Import Ascii String.
From stdpp Require Import strings sorting.
From S2P Require Import Prelude Io Str Fs VmCore ApiError.

Local Open Scope string_scope.
Local Open Scope Z_scope.

(** ** Identities and roles *)

Abbreviation OrgId := string.
Abbreviation TokenId := string.

Definition DEFAULT_ORG : string := "default".
Definition default_org : OrgId := DEFAULT_ORG.

Inductive Role : Type := Viewer | Developer | Admin.

#[global] Instance role_eq_dec : EqDecision Role.
Proof. solve_decision. Defined.

Module RoleOps.
Definition default_for_legacy : Role := Admin.

Definition parse (s : string) : option Role :=
  let l := to_ascii_lowercase (trim s) in
  if String.eqb l "admin" then Some Admin
  else if String.eqb l "developer" || String.eqb l "dev" then Some Developer
  else if String.eqb l "viewer" || String.eqb l "readonly" || String.eqb l "read-only" then Some Viewer
  else None.

Definition as_str (r : Role) : string :=
  match r with Admin => "admin" | Developer => "developer" | Viewer => "viewer" end.

(** The derived order: the ordinal of the constructor. *)
Definition ordinal (r : Role) : Z := match r with Viewer => 0 | Developer => 1 | Admin => 2 end.
Definition le (a b : Role) : bool := ordinal a <=? ordinal b.
End RoleOps.

(** ** The environment format *)

Definition normalize_org (org_str : string) : OrgId :=
  let s := trim org_str in if String.eqb s "" then default_org else s.

Definition split_role_suffix (entry : string) : string * Role :=
  match rsplit_once "@" entry with
  | Some (body, tail) =>
      match RoleOps.parse tail with
      | Some role => (body, role)
      | None => (entry, RoleOps.default_for_legacy)
      end
  | None => (entry, RoleOps.default_for_legacy)
  end.

Definition parse_env_entry (entry : string) : OrgId * string * Role :=
  let entry := trim entry in
  let '(body, role) := split_role_suffix entry in
  let '(org, token) :=
    match split_once ":" body with
    | Some (org, tok) => (normalize_org org, trim tok)
    | None => (default_org, trim body)
    end in
  (org, token, role).

(** ** The store *)

Inductive TokenSource : Type := Env | Runtime (id : TokenId) (created_at : string).

Module TokenEntry.
Record t : Type := mk { org : OrgId; role : Role; source : TokenSource }.
End TokenEntry.

#[global] Instance token_source_eq_dec : EqDecision TokenSource.
Proof. solve_decision. Defined.
#[global] Instance token_entry_eq_dec : EqDecision TokenEntry.t.
Proof. solve_decision. Defined.

Module Store.
Record t : Type := mk { by_token : gmap string TokenEntry.t; id_to_token : gmap TokenId string }.
Definition default : t := mk ∅ ∅.
End Store.

Module PersistedToken.
Record t : Type := mk { token : string; id : string; org : string; created_at : string }.
End PersistedToken.

Module RuntimeTokenInfo.
Record t : Type := mk { id : TokenId; org : OrgId; created_at : string }.
End RuntimeTokenInfo.

Module IssuedToken.
Record t : Type := mk { token : string; id : TokenId; org : OrgId; created_at : string }.
End IssuedToken.

(** The disk as the token file uses it: opening and reading the text of a file,
    creating one with its content synced, and renaming. *)
Inductive DiskError : Type := DiskNotFound | DiskOther (message : string).

Class TokenDisk (W : Type) := {
  disk_read : W -> string -> result DiskError bytes;
  disk_create : string -> bytes -> SM W DiskError unit;
  disk_rename : string -> string -> SM W DiskError unit;
}.

(** [path.with_extension(ext)]: the last name of the path up to its last dot
    (one that does not start it) and the extension. *)
Fixpoint drop_seps (rev : list ascii) : list ascii :=
  match rev with
  | "/"%char :: r => drop_seps r
  | "."%char :: (("/"%char :: _) as r) => drop_seps r
  | _ => rev
  end.

Definition file_stem (name : string) : string :=
  match rsplit_once "." name with
  | Some (before, _) => if String.eqb before "" then name else before
  | None => name
  end.

Definition with_extension (path ext : string) : string :=
  match last (components path) with
  | Some (Normal name) =>
      let p := reverse (drop_seps (reverse (list_ascii_of_string path))) in
      string_of_list_ascii (take (length p - String.length name) p)
        +:+ file_stem name +:+ "." +:+ ext
  | _ => path
  end.

Module ApiTokens.
Record t : Type := mk { store : Store.t; persist_path : option string }.

Definition env_entry (org : OrgId) (role : Role) : TokenEntry.t := TokenEntry.mk org role Env.

Definition insert_token (token : string) (e : TokenEntry.t) (s : Store.t) : Store.t :=
  Store.mk (<[token := e]> (Store.by_token s)) (Store.id_to_token s).

Definition new (tokens : list string) : t :=
  mk (foldl (fun s tok =>
        let tok := trim tok in
        if String.eqb tok "" then s
        else insert_token tok (env_entry default_org RoleOps.default_for_legacy) s)
      Store.default tokens) None.

Definition with_orgs (tokens : list (string * OrgId)) : t :=
  mk (foldl (fun s '(tok, org) =>
        let tok := trim tok in
        if String.eqb tok "" then s
        else insert_token tok (env_entry org RoleOps.default_for_legacy) s)
      Store.default tokens) None.

(** One entry of the comma-separated list. *)
Definition add_csv_entry (s : Store.t) (entry : string) : Store.t :=
  let trimmed := trim entry in
  if String.eqb trimmed "" then s
  else
    let '(org, token, role) := parse_env_entry trimmed in
    if String.eqb token "" then s else insert_token token (env_entry org role) s.

Definition from_csv (s : string) : t := mk (foldl add_csv_entry Store.default (split "," s)) None.

Definition is_empty (ts : t) : bool := bool_decide (Store.by_token (store ts) = ∅).

Definition len (ts : t) : Z := Z.of_nat (size (Store.by_token (store ts))).

Definition accepts (ts : t) (presented : string) : bool :=
  bool_decide (is_Some (Store.by_token (store ts) !! presented)).

Definition org_for (ts : t) (presented : string) : option OrgId :=
  TokenEntry.org <$> Store.by_token (store ts) !! presented.

Definition resolve (ts : t) (presented : string) : option (OrgId * Role) :=
  (fun e => (TokenEntry.org e, TokenEntry.role e)) <$> Store.by_token (store ts) !! presented.

(** The runtime tokens, in the order the map is walked. *)
Definition persisted_tokens (s : Store.t) : list PersistedToken.t :=
  omap (fun '(token, entry) =>
    match TokenEntry.source entry with
    | Runtime id created_at => Some (PersistedToken.mk token id (TokenEntry.org entry) created_at)
    | Env => None
    end) (map_to_list (Store.by_token s)).

Definition list_runtime (ts : t) (org : OrgId) : list RuntimeTokenInfo.t :=
  omap (fun '(_, entry) =>
    if negb (String.eqb (TokenEntry.org entry) org) then None
    else match TokenEntry.source entry with
    | Runtime id created_at => Some (RuntimeTokenInfo.mk id (TokenEntry.org entry) created_at)
    | Env => None
    end) (map_to_list (Store.by_token (store ts))).

(** One entry of the token file. *)
Definition load_entry (s : Store.t) (p : PersistedToken.t) : Store.t :=
  if String.eqb (PersistedToken.token p) "" || String.eqb (PersistedToken.id p) "" then s
  else
    let id := PersistedToken.id p in
    let e := TokenEntry.mk (PersistedToken.org p) RoleOps.default_for_legacy
               (Runtime id (PersistedToken.created_at p)) in
    Store.mk (<[PersistedToken.token p := e]> (Store.by_token s))
      (<[id := PersistedToken.token p]> (Store.id_to_token s)).

Section Persistence.
Context {JE W : Type} `{!TokenDisk W, !Serde JE (list PersistedToken.t)}.

(** The errors are only logged. *)
Definition persist (ts : t) (s : Store.t) (w : W) : W :=
  match persist_path ts with
  | None => w
  | Some path =>
      match to_vec (persisted_tokens s) with
      | Err _ => w
      | Ok payload =>
          let tmp := with_extension path "tmp" in
          snd ((_ ← disk_create tmp payload; disk_rename tmp path) w)
      end
  end.

Definition load_persisted (path : string) (w : W) (ts : t) : result unit t :=
  match disk_read w path with
  | Err DiskNotFound => Ok ts
  | Err (DiskOther _) => Err tt
  | Ok buf =>
      if String.eqb (trim (string_of_bytes buf)) "" then Ok ts
      else match from_json buf with
      | Err _ => Err tt
      | Ok entries => Ok (mk (foldl load_entry (store ts) entries) (persist_path ts))
      end
  end.

(** A file that cannot be loaded is logged and skipped. *)
Definition with_persistence (ts : t) (path : string) (w : W) : t :=
  let ts := mk (store ts) (Some path) in
  match load_persisted path w ts with Ok ts' => ts' | Err _ => ts end.

(** The two environment variables, [None] when unset or not text. *)
Definition from_env (api_tokens token_store_path : option string) (w : W) : t :=
  let tokens := from_csv (default "" api_tokens) in
  match token_store_path with
  | Some path => if String.eqb path "" then tokens else with_persistence tokens path w
  | None => tokens
  end.

(** Tokens and ids from random bytes, [base64_url] being the URL-safe encoding
    without padding. *)
Context (base64_url : bytes -> string).

Definition generate_token (random : bytes) : string := "nv_" +:+ base64_url random.
Definition generate_token_id (random : bytes) : string := "nvk_" +:+ base64_url random.

Definition issue (token_random id_random : bytes) (created_at : string) (org : OrgId) (ts : t) (w : W) :
    IssuedToken.t * t * W :=
  let token := generate_token token_random in
  let id := generate_token_id id_random in
  let e := TokenEntry.mk org RoleOps.default_for_legacy (Runtime id created_at) in
  let s := Store.mk (<[token := e]> (Store.by_token (store ts)))
             (<[id := token]> (Store.id_to_token (store ts))) in
  (IssuedToken.mk token id org created_at, mk s (persist_path ts), persist ts s w).

Definition revoke (id : TokenId) (org : OrgId) (ts : t) (w : W) : bool * t * W :=
  let s := store ts in
  match Store.id_to_token s !! id with
  | None => (false, ts, w)
  | Some token =>
      match Store.by_token s !! token with
      | None =>
          (false, mk (Store.mk (Store.by_token s) (delete id (Store.id_to_token s))) (persist_path ts), w)
      | Some entry =>
          if negb (String.eqb (TokenEntry.org entry) org) then (false, ts, w)
          else match TokenEntry.source entry with
          | Env => (false, ts, w)
          | Runtime _ _ =>
              let s := Store.mk (delete token (Store.by_token s)) (delete id (Store.id_to_token s)) in
              (true, mk s (persist_path ts), persist ts s w)
          end
      end
  end.
End Persistence.
End ApiTokens.
Export ApiTokens.

(** ** The middleware *)

Definition parse_bearer_scheme (header : string) : option string :=
  let header := trim_start header in
  match split_once_by is_ascii_whitespace header with
  | None => None
  | Some (scheme, rest) =>
      if negb (eq_ignore_ascii_case scheme "bearer") then None
      else
        let token := trim_start rest in
        if String.eqb token "" then None else Some token
  end.

(** The organisation and role put into the request's extensions. [tokens] is
    the installed extension, [authorization] the header when it is text. *)
Definition require_token (tokens : option ApiTokens.t) (authorization : option string) :
    result ApiError (OrgId * Role) :=
  match tokens with
  | None => Err (Internal "auth middleware installed but ApiTokens extension is missing — call `.layer(Extension(Arc::new(ApiTokens::from_env())))` on the router before serving")
  | Some tokens =>
      if is_empty tokens then Ok (default_org, RoleOps.default_for_legacy)
      else
        match authorization ≫= parse_bearer_scheme with
        | None => Err (Unauthorized "missing or malformed authorization header")
        | Some bearer =>
            match resolve tokens bearer with
            | None => Err (Unauthorized "invalid api token")
            | Some who => Ok who
            end
        end
  end.

Definition require_role (caller min : Role) : result ApiError unit :=
  if RoleOps.le min caller then Ok tt
  else Err (Forbidden "role_required"
              ("this endpoint requires role >= " +:+ RoleOps.as_str min +:+ "; caller has "
                +:+ RoleOps.as_str caller)).

(** ** The [/v1/keys] handlers *)

Module Keys.
Section Handlers.
Context {JE W : Type} `{!TokenDisk W, !Serde JE (list PersistedToken.t)}.
Context (base64_url : bytes -> string).

(** A handler changes the token set and the disk. *)
Definition issue_key (token_random id_random : bytes) (now : string) (org : OrgId) (role : Role) :
    SM (ApiTokens.t * W) ApiError (Z * IssuedToken.t) := fun '(ts, w) =>
  match require_role role Admin with
  | Err e => (Err e, (ts, w))
  | Ok _ =>
      let '(issued, ts, w) := issue base64_url token_random id_random now org ts w in
      (Ok (201, issued), (ts, w))
  end.

Definition id_le (a b : RuntimeTokenInfo.t) : Prop :=
  String.leb (RuntimeTokenInfo.id a) (RuntimeTokenInfo.id b) = true.

#[global] Instance id_le_dec a b : Decision (id_le a b).
Proof. unfold id_le. apply _. Defined.

Definition list_keys (ts : ApiTokens.t) (org : OrgId) : list RuntimeTokenInfo.t :=
  merge_sort id_le (list_runtime ts org).

Definition revoke_key (org : OrgId) (role : Role) (id : result Rejection.t TokenId) :
    SM (ApiTokens.t * W) ApiError Z := fun '(ts, w) =>
  match require_role role Admin with
  | Err e => (Err e, (ts, w))
  | Ok _ =>
      match id with
      | Err rej => (Err (BadPath rej), (ts, w))
      | Ok id =>
          let '(done, ts, w) := revoke id org ts w in
          if done : bool then (Ok 204, (ts, w))
          else (Err (NotFound "unknown_key" ("key " +:+ id +:+ " not found")), (ts, w))
      end
  end.
End Handlers.
End Keys.

Example env_entries :
  (parse_env_entry "acme:sk-live:abc@viewer", parse_env_entry " tok ", parse_env_entry ":t@nobody")
  = (("acme", "sk-live:abc", Viewer), ("default", "tok", Admin), ("default", "t@nobody", Admin)).
Proof. vm_compute. reflexivity. Qed.

Example tmp_paths :
  (with_extension "/data/tokens.json" "tmp", with_extension "/data/.keys/" "tmp", with_extension "/" "tmp")
  = ("/data/tokens.tmp", "/data/.keys.tmp", "/").
Proof. vm_compute. reflexivity. Qed.
