(* ===== verification/AuthProps.v ===== *)
(** * Bearer tokens: theorems

    The environment format read back, what the middleware admits, the issued
    keys against an abstract key ring, and the token file across restarts. *)

From Stdlib Require Import Ascii String.
From stdpp Require Import strings sorting.
From S2P Require Import Prelude Io Str Fs VmCore ApiError Auth.

Local Open Scope string_scope.
Local Open Scope Z_scope.

(** ** The environment format *)

Module EnvFormat.
(** The three documented shapes of an entry. *)
Inductive entry : Type :=
| Bare (token : string)
| WithOrg (org token : string)
| WithRole (org token : string) (role : Role).

Definition print (e : entry) : string :=
  match e with
  | Bare token => token
  | WithOrg org token => org +:+ String ":" token
  | WithRole org token role => (org +:+ String ":" token) +:+ String "@" (RoleOps.as_str role)
  end.

(** What it configures. *)
Definition meaning (e : entry) : OrgId * string * Role :=
  match e with
  | Bare token => (default_org, token, Admin)
  | WithOrg org token => (org, token, Admin)
  | WithRole org token role => (org, token, role)
  end.

Definition neat (s : string) : Prop := s <> "" /\ trim s = s /\ has_char "," s = false.

(** A token may contain colons once an organisation precedes it, and at-signs
    once a role follows. *)
Definition wf (e : entry) : Prop :=
  match e with
  | Bare token => neat token /\ has_char ":" token = false /\ has_char "@" token = false
  | WithOrg org token =>
      neat org /\ neat token /\ has_char ":" org = false /\ has_char "@" org = false
      /\ has_char "@" token = false
  | WithRole org token _ => neat org /\ neat token /\ has_char ":" org = false
  end.
End EnvFormat.
Export EnvFormat.

Lemma as_str_parse r : RoleOps.parse (RoleOps.as_str r) = Some r.
Proof. by destruct r. Qed.

Lemma as_str_plain r c :
  has_char c (RoleOps.as_str r) = true -> between_n 97 (code c) 122 = true.
Proof.
  destruct r; cbn [RoleOps.as_str has_char]; intros H;
    repeat (apply orb_true_iff in H as [H|H]; [apply Ascii.eqb_eq in H as <-; reflexivity|]); done.
Qed.

Lemma as_str_no c r : between_n 97 (code c) 122 = false -> has_char c (RoleOps.as_str r) = false.
Proof.
  intros Hc. destruct (has_char c (RoleOps.as_str r)) eqn:H; [|done].
  apply as_str_plain in H. congruence.
Qed.

Lemma trim_with_org org token :
  neat org -> neat token -> trim (org +:+ String ":" token) = org +:+ String ":" token.
Proof.
  intros (_ & Ho & _) (_ & Ht & _). rewrite trim_solid by done.
  by destruct (trimmed_parts _ Ho) as [-> _], (trimmed_parts _ Ht) as [_ ->].
Qed.

Lemma trim_print e : wf e -> trim (print e) = print e.
Proof.
  destruct e as [token|org token|org token role]; simpl.
  - by intros [(_ & ? & _) _].
  - intros (Ho & Ht & _). by apply trim_with_org.
  - intros ((Hn & Ho & _) & _). rewrite trim_solid by done. f_equal.
    + rewrite trim_start_solid by done. by destruct (trimmed_parts _ Ho) as [-> _].
    + by destruct role.
Qed.

Lemma parse_body org token :
  neat org -> neat token -> has_char ":" org = false ->
  (match split_once ":" (org +:+ String ":" token) with
   | Some (org, tok) => (normalize_org org, trim tok)
   | None => (default_org, trim (org +:+ String ":" token))
   end) = (org, token).
Proof.
  intros (Hn & Ho & _) (_ & Ht & _) Hc. rewrite split_once_app by done. unfold normalize_org.
  rewrite Ho, Ht. by apply String.eqb_neq in Hn as ->.
Qed.

Lemma parse_print e : wf e -> parse_env_entry (print e) = meaning e.
Proof.
  intros He. unfold parse_env_entry. rewrite trim_print by done.
  destruct e as [token|org token|org token role]; simpl in *.
  - destruct He as ((Hn & Ht & _) & Hc & Ha). unfold split_role_suffix.
    by rewrite rsplit_once_none, split_once_none, Ht by done.
  - destruct He as (Ho & Ht & Hc & Ha & Ha'). unfold split_role_suffix.
    rewrite rsplit_once_none by (rewrite has_char_app; simpl; by rewrite Ha, Ha').
    by rewrite parse_body.
  - destruct He as (Ho & Ht & Hc). unfold split_role_suffix.
    rewrite rsplit_once_app, as_str_parse by by apply as_str_no. by rewrite parse_body.
Qed.

Lemma print_no_comma e : wf e -> has_char "," (print e) = false.
Proof.
  destruct e as [token|org token|org token role]; simpl.
  - by intros [(_ & _ & ?) _].
  - intros ((_ & _ & Ho) & (_ & _ & Ht) & _). rewrite has_char_app. simpl. by rewrite Ho, Ht.
  - intros ((_ & _ & Ho) & (_ & _ & Ht) & _). rewrite !has_char_app. simpl.
    rewrite Ho, Ht. simpl. by apply as_str_no.
Qed.

Lemma print_not_empty e : wf e -> String.eqb (print e) "" = false.
Proof.
  destruct e as [token|org token|org token role]; simpl.
  - intros [(? & _ & _) _]. by apply String.eqb_neq.
  - intros _. apply app_not_empty.
  - intros _. apply app_not_empty.
Qed.

Lemma meaning_token e : wf e -> String.eqb (snd (fst (meaning e))) "" = false.
Proof. intros He. apply String.eqb_neq. destruct e; simpl in *; unfold neat in He; tauto. Qed.

(** What a list of entries configures, a later entry for a token replacing an
    earlier one. *)
Definition configure (es : list entry) : gmap string TokenEntry.t :=
  foldl (fun m e => let '(org, token, role) := meaning e in <[token := env_entry org role]> m) ∅ es.

Lemma add_csv_print e s :
  wf e ->
  add_csv_entry s (print e)
  = let '(org, token, role) := meaning e in insert_token token (env_entry org role) s.
Proof.
  intros He. unfold add_csv_entry. rewrite trim_print, print_not_empty, parse_print by done.
  pose proof (meaning_token e He) as Ht. destruct (meaning e) as [[org token] role]. simpl in Ht.
  by rewrite Ht.
Qed.

Lemma add_csv_prints es : forall s,
  Forall wf es ->
  foldl add_csv_entry s (print <$> es)
  = Store.mk (foldl (fun m e => let '(org, token, role) := meaning e in
                       <[token := env_entry org role]> m) (Store.by_token s) es)
      (Store.id_to_token s).
Proof.
  induction es as [|e es IH]; intros s Hes; [by destruct s|].
  inversion Hes as [|? ? He Hes']; subst. simpl. rewrite add_csv_print, IH by done.
  by destruct (meaning e) as [[org token] role].
Qed.

(** the token list of the environment is read back as it was written: every
    entry of one of the three documented shapes configures exactly its token
    with its organisation and role, tokens containing colons or at-signs
    included, and the last entry for a token wins. *)
Theorem env_tokens_roundtrip es :
  Forall wf es ->
  from_csv (join "," (print <$> es)) = ApiTokens.mk (Store.mk (configure es) ∅) None.
Proof.
  intros Hes. unfold from_csv. f_equal. destruct es as [|e es]; [reflexivity|].
  rewrite split_join.
  - by rewrite add_csv_prints.
  - apply Forall_fmap. eapply Forall_impl; [exact Hes|]. intros. by apply print_no_comma.
  - done.
Qed.

Lemma env_tokens_roundtrip_witness :
  let es := [Bare "tok"; WithOrg "acme" "sk-live:abc"; WithRole "beta" "a@b:c" Viewer] in
  from_csv (join "," (print <$> es)) = ApiTokens.mk (Store.mk (configure es) ∅) None
  /\ from_csv "tok,acme:sk-live:abc,beta:a@b:c@viewer" = from_csv (join "," (print <$> es)).
Proof.
  split; [|reflexivity]. apply env_tokens_roundtrip.
  repeat (constructor; [cbv [wf neat]; split_and!; try reflexivity; discriminate|]). constructor.
Defined.

(** ** The middleware *)

(** A header that presents a bearer token: the scheme in any case, white space,
    the token. *)
Definition presents (header token : string) : Prop :=
  exists lead scheme sep gap,
    header = lead +:+ (scheme +:+ String sep (gap +:+ token))
    /\ blank lead /\ to_ascii_lowercase scheme = "bearer"
    /\ is_ascii_whitespace sep = true /\ blank gap /\ trim_start token = token /\ token <> "".

Lemma letter_solid c lo hi :
  (33 <= lo)%N -> (hi < 128)%N -> between_n lo (code c) hi = true ->
  solid c = true /\ is_ascii_whitespace c = false.
Proof.
  intros Hlo Hhi Hc. unfold between_n in Hc. apply andb_true_iff in Hc as [H1%N.leb_le H2%N.leb_le].
  unfold solid, ws1, is_ascii_whitespace, between_n. split.
  - apply andb_true_iff. split; [apply N.ltb_lt; lia|]. apply negb_true_iff, orb_false_iff.
    split; [apply andb_false_iff; right; apply N.leb_gt; lia|apply N.eqb_neq; lia].
  - rewrite !orb_false_iff. split_and!; apply N.eqb_neq; lia.
Qed.

Lemma lower_letter c :
  between_n 97 (code (ascii_lower c)) 122 = true -> solid c = true /\ is_ascii_whitespace c = false.
Proof.
  unfold ascii_lower. destruct (between_n 65 (code c) 90) eqn:Hup.
  - intros _. by apply (letter_solid c 65 90).
  - by apply (letter_solid c 97 122).
Qed.

(** A word none of whose characters is white space is what precedes the first
    white space. *)
Lemma split_after_word p w c rest :
  (forall x, has_char x w = true -> p x = false) -> p c = true ->
  split_once_by p (w +:+ String c rest) = Some (w, rest).
Proof.
  induction w as [|x w IH]; intros Hw Hc.
  - simpl. by rewrite Hc.
  - change (String x w +:+ String c rest) with (String x (w +:+ String c rest)). cbn [split_once_by].
    rewrite (Hw x) by (simpl; by rewrite Ascii.eqb_refl). rewrite IH; [done| |done].
    intros y Hy. apply Hw. simpl. by rewrite Hy, orb_true_r.
Qed.

Lemma lower_word w x :
  (forall y, has_char y (to_ascii_lowercase w) = true -> between_n 97 (code y) 122 = true) ->
  has_char x w = true -> solid x = true /\ is_ascii_whitespace x = false.
Proof.
  intros Hw. induction w as [|c w IH]; simpl in *; [done|].
  intros [->%Ascii.eqb_eq|Hx]%orb_true_iff.
  - apply lower_letter, Hw. by rewrite Ascii.eqb_refl.
  - apply IH; [|done]. intros y Hy. apply Hw. by rewrite Hy, orb_true_r.
Qed.

Lemma bearer_letters y : has_char y "bearer" = true -> between_n 97 (code y) 122 = true.
Proof.
  cbn [has_char]. intros H.
  repeat (apply orb_true_iff in H as [H|H]; [apply Ascii.eqb_eq in H as <-; reflexivity|]). done.
Qed.

Lemma parse_bearer_spec header token :
  parse_bearer_scheme header = Some token <-> presents header token.
Proof.
  unfold parse_bearer_scheme. split.
  - destruct (trim_start_split header) as (lead & Hh & Hlead).
    destruct (split_once_by _ (trim_start header)) as [[scheme rest]|] eqn:Hs; [|done].
    destruct (split_once_by_some _ _ _ _ Hs) as (sep & Ht & Hsep).
    destruct (negb (eq_ignore_ascii_case scheme "bearer")) eqn:Hb; [done|].
    destruct (String.eqb (trim_start rest) "") eqn:Hr; [done|]. intros [= <-].
    destruct (trim_start_split rest) as (gap & Hrest & Hgap).
    exists lead, scheme, sep, gap. apply negb_false_iff, String.eqb_eq in Hb.
    apply String.eqb_neq in Hr. rewrite Hh, Ht, Hrest at 1.
    split_and!; try done. apply trim_start_idem.
  - intros (lead & scheme & sep & gap & -> & Hlead & Hscheme & Hsep & Hgap & Htok & Hne).
    assert (Hw : forall x, has_char x scheme = true -> solid x = true /\ is_ascii_whitespace x = false).
    { intros x. apply lower_word. rewrite Hscheme. apply bearer_letters. }
    rewrite trim_start_blank by done.
    assert (Hst : trim_start (scheme +:+ String sep (gap +:+ token)) = scheme +:+ String sep (gap +:+ token)).
    { destruct scheme as [|c scheme]; [done|].
      apply (trim_start_solid c "" (scheme +:+ String sep (gap +:+ token))), Hw.
      simpl. by rewrite Ascii.eqb_refl. }
    rewrite Hst, split_after_word; [|intros x Hx; by apply Hw|done].
    unfold eq_ignore_ascii_case. rewrite Hscheme. simpl.
    rewrite trim_start_blank, Htok by done. by apply String.eqb_neq in Hne as ->.
Qed.

(** C39: the middleware admits a request exactly when its header presents, under
    the bearer scheme in any letter case, a token of the configured set, and
    then as that token's organisation and role; any other request is answered
    401. Only an empty set admits every request, as an administrator of the
    default organisation, and a missing set is an internal error. *)
Theorem require_token_spec tokens authorization :
  match tokens with
  | None => exists msg, require_token None authorization = Err (Internal msg)
  | Some ts =>
      if is_empty ts then require_token (Some ts) authorization = Ok (default_org, Admin)
      else
        (forall who, require_token (Some ts) authorization = Ok who <->
           exists header token, authorization = Some header /\ presents header token
             /\ resolve ts token = Some who)
        /\ (forall e, require_token (Some ts) authorization = Err e -> exists msg, e = Unauthorized msg)
  end.
Proof.
  destruct tokens as [ts|]; [|by eexists]. unfold require_token. destruct (is_empty ts); [done|].
  destruct authorization as [header|]; simpl.
  2:{ split; [|intros e [= <-]; by eexists]. intros who. split; [done|]. by intros (? & ? & ? & _). }
  destruct (parse_bearer_scheme header) as [bearer|] eqn:Hb; split.
  - intros who. apply parse_bearer_spec in Hb as Hp. split.
    + destruct (resolve ts bearer) eqn:Hr; [|done]. intros [= ->]. by exists header, bearer.
    + intros (? & token & [= <-] & Hp'%parse_bearer_spec & Hr). rewrite Hb in Hp'.
      injection Hp' as ->. by rewrite Hr.
  - destruct (resolve ts bearer); intros e [= <-]. by eexists.
  - intros who. split; [done|]. intros (? & token & [= <-] & Hp%parse_bearer_spec & _). congruence.
  - intros e [= <-]. by eexists.
Qed.

(** ** Issued keys

    The key ring is an abstract view of the runtime keys: the live ones by
    their public id. The configured tokens never change. *)

Module KeyRing.
Record key : Type := mk { token : string; org : OrgId; created_at : string }.
Abbreviation t := (gmap TokenId key).

(** A call of the [/v1/keys] endpoints, by a caller of an organisation and role,
    and what it answers. *)
Inductive op : Type :=
| Issue (token_random id_random : bytes) (created_at : string) (org : OrgId) (role : Role)
| Revoke (id : TokenId) (org : OrgId) (role : Role)
| List (org : OrgId).
Inductive answer : Type :=
| Issued (status : Z) (i : IssuedToken.t)
| Revoked (status : Z)
| Listed (l : list RuntimeTokenInfo.t).

Definition entry_of (id : TokenId) (k : key) : TokenEntry.t :=
  TokenEntry.mk (org k) Admin (Runtime id (created_at k)).

(** Who a presented token is. *)
Definition who (env : gmap string TokenEntry.t) (live : t) (tok : string) (w : OrgId * Role) : Prop :=
  (exists e, env !! tok = Some e /\ w = (TokenEntry.org e, TokenEntry.role e))
  \/ exists id k, live !! id = Some k /\ token k = tok /\ w = (org k, Admin).

(** The live key of an organisation under an id. *)
Definition owned (live : t) (id : TokenId) (org' : OrgId) : bool :=
  match live !! id with Some k => String.eqb (org k) org' | None => false end.

(** What becomes of the ring: only administrators change it, and a key is
    revoked only by its own organisation. *)
Definition next (token_of id_of : bytes -> string) (o : op) (live : t) : t :=
  match o with
  | Issue tr ir created_at org role =>
      if RoleOps.le Admin role then <[id_of ir := mk (token_of tr) org created_at]> live else live
  | Revoke id org' role => if RoleOps.le Admin role && owned live id org' then delete id live else live
  | List _ => live
  end.

(** What it answers: a new key, whether a key was revoked, or the live keys of
    the caller's organisation, each once and by id. *)
Definition answers (token_of id_of : bytes -> string) (o : op) (live : t) (a : result ApiError answer) : Prop :=
  match o with
  | Issue tr ir created_at org role =>
      a = (_ ← require_role role Admin; Ok (Issued 201 (IssuedToken.mk (token_of tr) (id_of ir) org created_at)))
  | Revoke id org role =>
      a = (_ ← require_role role Admin;
           if owned live id org then Ok (Revoked 204)
           else Err (NotFound "unknown_key" ("key " +:+ id +:+ " not found")))
  | List org' => exists l, a = Ok (Listed l) /\ Sorted Keys.id_le l /\ NoDup (RuntimeTokenInfo.id <$> l) /\
      forall i, i ∈ l <-> exists id k, live !! id = Some k /\ org k = org' /\ i = RuntimeTokenInfo.mk id org' (created_at k)
  end.
End KeyRing.

Section Ring.
Context {JE W : Type} `{!TokenDisk W, !Serde JE (list PersistedToken.t)}.
Context (base64_url : bytes -> string).

Abbreviation token_of := (generate_token base64_url).
Abbreviation id_of := (generate_token_id base64_url).

Abbreviation answer := (result ApiError KeyRing.answer).

Definition exec_op (o : KeyRing.op) (ts : ApiTokens.t) (w : W) : answer * ApiTokens.t * W :=
  match o with
  | KeyRing.Issue tr ir created_at org role =>
      let '(r, (ts, w)) := Keys.issue_key base64_url tr ir created_at org role (ts, w) in
      ('(status, i) ← r; Ok (KeyRing.Issued status i), ts, w)
  | KeyRing.Revoke id org role =>
      let '(r, (ts, w)) := Keys.revoke_key org role (Ok id) (ts, w) in
      (status ← r; Ok (KeyRing.Revoked status), ts, w)
  | KeyRing.List org => (Ok (KeyRing.Listed (Keys.list_keys ts org)), ts, w)
  end.

Fixpoint exec_ops (os : list KeyRing.op) (ts : ApiTokens.t) (w : W) : list answer * ApiTokens.t * W :=
  match os with
  | [] => ([], ts, w)
  | o :: os =>
      let '(b, ts, w) := exec_op o ts w in
      let '(bs, ts, w) := exec_ops os ts w in (b :: bs, ts, w)
  end.

Definition ring_after (os : list KeyRing.op) (live : KeyRing.t) : KeyRing.t :=
  foldl (fun live o => KeyRing.next token_of id_of o live) live os.

Fixpoint ring_answers (os : list KeyRing.op) (live : KeyRing.t) (answers : list answer) : Prop :=
  match os, answers with
  | [], [] => True
  | o :: os, a :: answers =>
      KeyRing.answers token_of id_of o live a /\ ring_answers os (KeyRing.next token_of id_of o live) answers
  | _, _ => False
  end.

(** The tokens and ids a run issues. *)
Definition issued (os : list KeyRing.op) : list (string * TokenId) :=
  omap (fun o => match o with
                 | KeyRing.Issue tr ir _ _ _ => Some (token_of tr, id_of ir)
                 | _ => None end) os.

(** The store holds the configured tokens and the live keys. *)
Record ring_ok (env : gmap string TokenEntry.t) (live : KeyRing.t) (s : Store.t) : Prop := {
  ring_env : forall tok e, env !! tok = Some e -> TokenEntry.source e = Env;
  ring_tokens : forall tok e, Store.by_token s !! tok = Some e <->
    env !! tok = Some e \/
    exists id k, live !! id = Some k /\ KeyRing.token k = tok /\ e = KeyRing.entry_of id k;
  ring_ids : Store.id_to_token s = KeyRing.token <$> live;
  ring_apart : forall id k, live !! id = Some k -> env !! KeyRing.token k = None;
  ring_named : forall id k, live !! id = Some k -> id <> "" /\ KeyRing.token k <> "";
}.

(** The token of a live key belongs to one id. *)
Lemma ring_unique env live s id id' k k' :
  ring_ok env live s -> live !! id = Some k -> live !! id' = Some k' ->
  KeyRing.token k = KeyRing.token k' -> id = id'.
Proof.
  intros Hr Hk Hk' Heq.
  assert (H1 : Store.by_token s !! KeyRing.token k = Some (KeyRing.entry_of id k)).
  { apply (ring_tokens _ _ _ Hr). right. by exists id, k. }
  assert (H2 : Store.by_token s !! KeyRing.token k' = Some (KeyRing.entry_of id' k')).
  { apply (ring_tokens _ _ _ Hr). right. by exists id', k'. }
  rewrite Heq, H2 in H1. unfold KeyRing.entry_of in H1. congruence.
Qed.

Lemma ring_resolve env live ts tok w :
  ring_ok env live (store ts) -> resolve ts tok = Some w <-> KeyRing.who env live tok w.
Proof.
  intros Hr. unfold resolve, KeyRing.who. split.
  - intros (e & He & Hw)%fmap_Some. apply (ring_tokens _ _ _ Hr) in He as [He|(id & k & Hk & Ht & ->)].
    + left. by exists e.
    + right. by exists id, k.
  - intros [(e & He & ->)|(id & k & Hk & Ht & ->)]; apply fmap_Some.
    + exists e. split; [|done]. apply (ring_tokens _ _ _ Hr). by left.
    + exists (KeyRing.entry_of id k). split; [|done]. apply (ring_tokens _ _ _ Hr). right. by exists id, k.
Qed.

Lemma ring_issue env live ts w tr ir created_at org :
  ring_ok env live (store ts) ->
  Store.by_token (store ts) !! token_of tr = None -> live !! id_of ir = None ->
  let '(_, ts', _) := issue base64_url tr ir created_at org ts w in
  ring_ok env (<[id_of ir := KeyRing.mk (token_of tr) org created_at]> live) (store ts').
Proof.
  intros Hr Hfresh Hid. unfold issue. cbn [store].
  set (k := KeyRing.mk (token_of tr) org created_at). set (id := id_of ir) in *.
  split; cbn [Store.by_token Store.id_to_token].
  - apply (ring_env _ _ _ Hr).
  - intros tok e. rewrite lookup_insert_Some, (ring_tokens _ _ _ Hr). split.
    + intros [[<- <-]|[Hne [He|(id' & k' & Hk' & <- & ->)]]].
      * right. exists id, k. by rewrite lookup_insert_eq.
      * by left.
      * right. exists id', k'. split; [|done]. rewrite lookup_insert_ne; [done|congruence].
    + intros [He|(id' & k' & [[<- <-]|[Hne Hk']]%lookup_insert_Some & <- & ->)].
      * right. split; [|by left]. intros <-.
        assert (Store.by_token (store ts) !! token_of tr = Some e)
          by (apply (ring_tokens _ _ _ Hr); by left).
        congruence.
      * by left.
      * right. split; [|right; by exists id', k']. intros Ht.
        assert (Store.by_token (store ts) !! KeyRing.token k' = Some (KeyRing.entry_of id' k'))
          by (apply (ring_tokens _ _ _ Hr); right; by exists id', k').
        congruence.
  - rewrite fmap_insert. f_equal. apply (ring_ids _ _ _ Hr).
  - intros id' k' [[<- <-]|[Hne Hk']]%lookup_insert_Some; [|by eapply ring_apart].
    destruct (env !! KeyRing.token k) as [e|] eqn:He; [|done].
    assert (Store.by_token (store ts) !! token_of tr = Some e) by (apply (ring_tokens _ _ _ Hr); by left).
    congruence.
  - intros id' k' [[<- <-]|[Hne Hk']]%lookup_insert_Some; [by split|by eapply ring_named].
Qed.

Lemma ring_revoke env live ts w id org :
  ring_ok env live (store ts) ->
  let '(b, ts', _) := revoke id org ts w in
  b = KeyRing.owned live id org /\
  ring_ok env (if KeyRing.owned live id org then delete id live else live) (store ts').
Proof.
  intros Hr. unfold revoke, KeyRing.owned. rewrite (ring_ids _ _ _ Hr), lookup_fmap.
  destruct (live !! id) as [k|] eqn:Hk; simpl; [|done].
  assert (He : Store.by_token (store ts) !! KeyRing.token k = Some (KeyRing.entry_of id k)).
  { apply (ring_tokens _ _ _ Hr). right. by exists id, k. }
  rewrite He. simpl. destruct (String.eqb (KeyRing.org k) org); [|done]. simpl. split; [done|].
  split; cbn [store Store.by_token Store.id_to_token].
  - apply (ring_env _ _ _ Hr).
  - intros tok e. rewrite lookup_delete_Some, (ring_tokens _ _ _ Hr). split.
    + intros [Hne [?|(id' & k' & Hk' & <- & ->)]]; [by left|right].
      exists id', k'. split; [|done]. rewrite lookup_delete_ne; [done|congruence].
    + intros [Hv|(id' & k' & [Hne Hk']%lookup_delete_Some & <- & ->)].
      * split; [|by left]. intros <-. pose proof (ring_apart _ _ _ Hr _ _ Hk). congruence.
      * split; [|right; by exists id', k']. intros Heq. apply Hne. by eapply ring_unique.
  - by rewrite fmap_delete.
  - intros id' k' [_ Hk']%lookup_delete_Some. by eapply ring_apart.
  - intros id' k' [_ Hk']%lookup_delete_Some. by eapply ring_named.
Qed.

Lemma list_runtime_elem env live ts org i :
  ring_ok env live (store ts) ->
  i ∈ list_runtime ts org <->
  exists id k, live !! id = Some k /\ KeyRing.org k = org /\ i = RuntimeTokenInfo.mk id org (KeyRing.created_at k).
Proof.
  intros Hr. unfold list_runtime. rewrite list_elem_of_omap. split.
  - intros ([tok e] & He%elem_of_map_to_list & Hi). destruct (String.eqb_spec (TokenEntry.org e) org) as [Ho|]; [|done].
    apply (ring_tokens _ _ _ Hr) in He as [He|(id & k & Hk & _ & ->)].
    + by rewrite (ring_env _ _ _ Hr _ _ He) in Hi.
    + injection Hi as <-. exists id, k. simpl in Ho. by subst.
  - intros (id & k & Hk & <- & ->). exists (KeyRing.token k, KeyRing.entry_of id k). split.
    + apply elem_of_map_to_list, (ring_tokens _ _ _ Hr). right. by exists id, k.
    + simpl. by rewrite String.eqb_refl.
Qed.

Lemma list_runtime_nodup env live ts org :
  ring_ok env live (store ts) -> NoDup (RuntimeTokenInfo.id <$> list_runtime ts org).
Proof.
  intros Hr. unfold list_runtime. pose proof (NoDup_fst_map_to_list (Store.by_token (store ts))) as Hnd.
  assert (Hin : forall x, x ∈ map_to_list (Store.by_token (store ts)) -> Store.by_token (store ts) !! x.1 = Some x.2)
    by (intros [tok e]; apply elem_of_map_to_list).
  induction (map_to_list (Store.by_token (store ts))) as [|[tok e] l IH]; simpl; [constructor|].
  apply NoDup_cons in Hnd as [Hn Hnd]. specialize (IH Hnd ltac:(intros x Hx; apply Hin; by right)).
  destruct (negb (String.eqb (TokenEntry.org e) org)); [done|]. destruct (TokenEntry.source e) as [|id c] eqn:Hs; [done|].
  simpl. constructor; [|done]. intros (i & Hid & ([tok' e'] & Hx & Hi)%list_elem_of_omap)%list_elem_of_fmap.
  pose proof (Hin (tok, e) ltac:(by left)) as H1. pose proof (Hin (tok', e') ltac:(by right)) as H2. simpl in H1, H2.
  destruct (negb _); [done|]. destruct (TokenEntry.source e') as [|id' c'] eqn:Hs'; [done|]. injection Hi as <-. simpl in Hid. subst id'.
  apply (ring_tokens _ _ _ Hr) in H1 as [H1|(i1 & k1 & Hk1 & Ht1 & ->)]; [rewrite (ring_env _ _ _ Hr _ _ H1) in Hs; done|].
  apply (ring_tokens _ _ _ Hr) in H2 as [H2|(i2 & k2 & Hk2 & Ht2 & ->)]; [rewrite (ring_env _ _ _ Hr _ _ H2) in Hs'; done|].
  simpl in Hs, Hs'. assert (i1 = i2) by congruence. subst i2. assert (tok' = tok) as -> by congruence.
  apply Hn. by apply (list_elem_of_fmap_2 fst _ _ Hx).
Qed.

Instance id_le_total : Total Keys.id_le.
Proof. intros a b. apply String.leb_total. Qed.

Lemma ring_list env live ts org :
  ring_ok env live (store ts) ->
  KeyRing.answers token_of id_of (KeyRing.List org) live (Ok (KeyRing.Listed (Keys.list_keys ts org))).
Proof.
  intros Hr. eexists. split; [done|]. unfold Keys.list_keys.
  pose proof (merge_sort_Permutation Keys.id_le (list_runtime ts org)) as Hp. split_and!.
  - by apply Sorted_merge_sort, _.
  - rewrite Hp. by eapply list_runtime_nodup.
  - intros i. rewrite Hp. by eapply list_runtime_elem.
Qed.

(** Random tokens and ids that collide with nothing. *)
Definition fresh_for (env : gmap string TokenEntry.t) (live : KeyRing.t) (os : list KeyRing.op) : Prop :=
  NoDup (issued os).*1 /\ NoDup (issued os).*2
  /\ (forall tok, tok ∈ (issued os).*1 -> env !! tok = None)
  /\ (forall tok id k, tok ∈ (issued os).*1 -> live !! id = Some k -> KeyRing.token k <> tok)
  /\ (forall id, id ∈ (issued os).*2 -> live !! id = None).

Lemma fresh_tail env live o os :
  fresh_for env live (o :: os) -> fresh_for env (KeyRing.next token_of id_of o live) os.
Proof.
  intros (H1 & H2 & H3 & H4 & H5). destruct o as [tr ir created_at org role|id org role|org]; simpl in *; [| |done].
  - apply NoDup_cons in H1 as [H1 H1'], H2 as [H2 H2']. destruct (RoleOps.le Admin role); split_and!; try done.
    + intros tok Ht. apply H3. by right.
    + intros tok id k Ht [[<- <-]|[_ Hk]]%lookup_insert_Some; [by simpl; intros <-|].
      by eapply H4; [right|].
    + intros id Hid. rewrite lookup_insert_ne by (by intros <-). apply H5. by right.
    + intros tok Ht. apply H3. by right.
    + intros tok id k Ht. apply H4. by right.
    + intros id Hid. apply H5. by right.
  - destruct (_ && _); [|done]. split_and!; [done..| |].
    + intros tok id' k' Ht [_ Hk']%lookup_delete_Some. by eapply H4.
    + intros id' Hid. apply lookup_delete_None. right. by apply H5.
Qed.

Lemma ring_step env live o os ts w :
  ring_ok env live (store ts) -> fresh_for env live (o :: os) ->
  let '(a, ts', _) := exec_op o ts w in
  KeyRing.answers token_of id_of o live a /\ ring_ok env (KeyRing.next token_of id_of o live) (store ts').
Proof.
  intros Hr (_ & _ & H3 & H4 & H5). destruct o as [tr ir created_at org role|id org role|org].
  - unfold exec_op, Keys.issue_key. cbn [KeyRing.answers KeyRing.next]. unfold require_role.
    destruct (RoleOps.le Admin role); [|done].
    pose proof (ring_issue env live ts w tr ir created_at org Hr) as Hi. simpl in H3, H4, H5.
    destruct (issue base64_url tr ir created_at org ts w) as [[i ts'] w'] eqn:Hiss. split.
    { unfold issue in Hiss. by injection Hiss as <- _ _. }
    apply Hi; [|apply H5; left]. destruct (Store.by_token (store ts) !! token_of tr) as [e|] eqn:He; [|done].
    apply (ring_tokens _ _ _ Hr) in He as [He|(id & k & Hk & Ht & _)].
    + rewrite H3 in He by left. done.
    + exfalso. by eapply H4; [left|exact Hk|].
  - unfold exec_op, Keys.revoke_key. cbn [KeyRing.answers KeyRing.next]. unfold require_role.
    destruct (RoleOps.le Admin role); [|done]. pose proof (ring_revoke env live ts w id org Hr) as Hv.
    destruct (revoke id org ts w) as [[b ts'] w']. destruct Hv as [-> Hv]. by destruct (KeyRing.owned live id org).
  - split; [by eapply ring_list|done].
Qed.

Lemma ring_run env os : forall live ts w,
  ring_ok env live (store ts) -> fresh_for env live os ->
  let '(answers, ts', _) := exec_ops os ts w in
  ring_answers os live answers /\ ring_ok env (ring_after os live) (store ts').
Proof.
  induction os as [|o os IH]; intros live ts w Hr Hf; [done|]. cbn [exec_ops ring_after foldl].
  pose proof (ring_step env live o os ts w Hr Hf) as Hs. apply fresh_tail in Hf.
  destruct (exec_op o ts w) as [[a ts1] w1]. destruct Hs as [Ha Hr1]. specialize (IH _ ts1 w1 Hr1 Hf).
  destruct (exec_ops os ts1 w1) as [[answers ts2] w2]. destruct IH as [? ?]. by split.
Qed.
End Ring.

Lemma foldl_env_source {A} (f : Store.t -> A -> Store.t) (l : list A) :
  (forall s a, f s a = s \/ exists tok org role, f s a = insert_token tok (env_entry org role) s) ->
  let s := foldl f Store.default l in
  Store.id_to_token s = ∅ /\ forall tok e, Store.by_token s !! tok = Some e -> TokenEntry.source e = Env.
Proof.
  intros Hf. induction l as [|a l IH] using rev_ind; simpl; [by split|]. rewrite foldl_snoc.
  destruct IH as [IH1 IH2]. destruct (Hf (foldl f Store.default l) a) as [-> |(tok & org & role & ->)]; [done|].
  split; [done|]. simpl. intros tok' e [[<- <-]|[_ He]]%lookup_insert_Some; [done|]. by eapply IH2.
Qed.

Lemma from_csv_ring raw : ring_ok (Store.by_token (store (from_csv raw))) ∅ (store (from_csv raw)).
Proof.
  unfold from_csv. cbn [store]. destruct (foldl_env_source add_csv_entry (split "," raw)) as [Hid Hsrc].
  { intros s a. unfold add_csv_entry. case_match; [by left|].
    destruct (parse_env_entry (trim a)) as [[org tok] role]. case_match; [by left|]. right. eauto. }
  split; [done| |by rewrite Hid, fmap_empty|done|done].
  intros tok e. split; [by left|]. intros [?|(id & k & Hk & _)]; [done|]. by rewrite lookup_empty in Hk.
Qed.

(** C17: runtime keys behave as a key ring. Over every sequence of calls that
    issue, revoke and list keys on a configured token set, by callers of any
    organisation and role, and as long as the random tokens and ids collide with
    nothing: each call answers as the ring does. Only an administrator issues, and
    gets the new key; a revocation succeeds exactly for a live key of the
    caller's own organisation; a listing is the live keys of the caller's
    organisation, each once and sorted by id. A token is then accepted exactly
    when it is configured or belongs to a live key, as that organisation's
    administrator. The configured tokens are never affected. *)
Theorem api_keys_refine_ring {JE W : Type} `{!TokenDisk W, !Serde JE (list PersistedToken.t)}
    (base64_url : bytes -> string) raw os w :
  let env := Store.by_token (store (from_csv raw)) in
  fresh_for base64_url env ∅ os ->
  let '(answers, ts, _) := exec_ops base64_url os (from_csv raw) w in
  ring_answers base64_url os ∅ answers /\
  (forall tok who, resolve ts tok = Some who <-> KeyRing.who env (ring_after base64_url os ∅) tok who).
Proof.
  intros env Hf. pose proof (ring_run base64_url env os ∅ (from_csv raw) w (from_csv_ring raw) Hf) as Hrun.
  destruct (exec_ops base64_url os (from_csv raw) w) as [[answers ts] w']. destruct Hrun as [Ha Hr].
  split; [done|]. intros tok who. by apply ring_resolve.
Qed.

(** ** The token file *)

(** What the program relies on of the disk: a file created is read back, a
    rename moves a whole file or does nothing, and other files are untouched;
    and of JSON: it is text that is not blank. *)
Class TokenDiskLaws (W : Type) `{!TokenDisk W} := {
  disk_create_read p bs w w' :
    disk_create p bs w = (Ok tt, w') -> utf8_valid (u8_of <$> bs) = true -> disk_read w' p = Ok bs;
  disk_create_other p bs w r w' q :
    disk_create p bs w = (r, w') -> q <> p -> disk_read w' q = disk_read w q;
  disk_rename_ok src dst w w' :
    disk_rename src dst w = (Ok tt, w') -> disk_read w' dst = disk_read w src;
  disk_rename_err src dst w e w' q :
    disk_rename src dst w = (Err e, w') -> disk_read w' q = disk_read w q;
}.

Class JsonText (JE T : Type) `{!Serde JE T} := {
  json_is_text (v : T) js : to_json v = (Ok tt, js) -> utf8_valid (u8_of <$> js) = true;
  json_not_blank (v : T) js : to_json v = (Ok tt, js) -> trim (string_of_bytes js) <> "";
}.

Definition loaded (p : PersistedToken.t) : TokenEntry.t :=
  TokenEntry.mk (PersistedToken.org p) Admin
    (Runtime (PersistedToken.id p) (PersistedToken.created_at p)).

(** Loading a list without repetitions sets exactly its tokens and ids. *)
Lemma load_entries L s0 :
  NoDup (PersistedToken.token <$> L) -> NoDup (PersistedToken.id <$> L) ->
  Forall (fun p => PersistedToken.token p <> "" /\ PersistedToken.id p <> "") L ->
  let s := foldl load_entry s0 L in
  (forall p, p ∈ L -> Store.by_token s !! PersistedToken.token p = Some (loaded p)
     /\ Store.id_to_token s !! PersistedToken.id p = Some (PersistedToken.token p))
  /\ (forall tok, tok ∉ PersistedToken.token <$> L -> Store.by_token s !! tok = Store.by_token s0 !! tok)
  /\ (forall id, id ∉ PersistedToken.id <$> L -> Store.id_to_token s !! id = Store.id_to_token s0 !! id).
Proof.
  induction L as [|q L IH] using rev_ind; intros H1 H2 H3; simpl; [set_solver|].
  rewrite foldl_snoc. rewrite fmap_app in H1, H2. apply NoDup_app in H1 as (H1 & Hd1 & _), H2 as (H2 & Hd2 & _).
  apply Forall_app in H3 as [H3 [[Ht Hi] _]%Forall_cons].
  destruct (IH H1 H2 H3) as (IH1 & IH2 & IH3). set (s := foldl load_entry s0 L) in *.
  unfold load_entry. apply String.eqb_neq in Ht as ->, Hi as ->. simpl. split_and!.
  - intros p [Hp|Hp%list_elem_of_singleton]%elem_of_app.
    + rewrite !lookup_insert_ne; [by apply IH1| |].
      * intros Heq. apply (Hd2 (PersistedToken.id p)); [by apply list_elem_of_fmap_2|]. rewrite <- Heq. left.
      * intros Heq. apply (Hd1 (PersistedToken.token p)); [by apply list_elem_of_fmap_2|]. rewrite <- Heq. left.
    + subst q. by rewrite !lookup_insert_eq.
  - intros tok Hn. rewrite fmap_app, elem_of_app in Hn. rewrite lookup_insert_ne; [apply IH2; tauto|].
    intros <-. apply Hn. right. left.
  - intros id Hn. rewrite fmap_app, elem_of_app in Hn. rewrite lookup_insert_ne; [apply IH3; tauto|].
    intros <-. apply Hn. right. left.
Qed.

Lemma persisted_elem s p :
  p ∈ persisted_tokens s <->
  exists e, Store.by_token s !! PersistedToken.token p = Some e
    /\ TokenEntry.source e = Runtime (PersistedToken.id p) (PersistedToken.created_at p)
    /\ TokenEntry.org e = PersistedToken.org p.
Proof.
  unfold persisted_tokens. rewrite list_elem_of_omap. split.
  - intros ([tok e] & He%elem_of_map_to_list & Hp). destruct (TokenEntry.source e) eqn:Hs; [done|].
    injection Hp as <-. exists e. by rewrite Hs.
  - intros (e & He & Hs & Ho). exists (PersistedToken.token p, e).
    split; [by apply elem_of_map_to_list|]. rewrite Hs, Ho. by destruct p.
Qed.

Lemma persisted_nodup s : NoDup (PersistedToken.token <$> persisted_tokens s).
Proof.
  unfold persisted_tokens. pose proof (NoDup_fst_map_to_list (Store.by_token s)) as Hn.
  induction (map_to_list (Store.by_token s)) as [|[tok e] l IH]; simpl; [constructor|].
  apply NoDup_cons in Hn as [Hn Hl]. destruct (TokenEntry.source e); [by apply IH|]. simpl.
  constructor; [|by apply IH]. intros (p & Heq & Hp)%list_elem_of_fmap. apply Hn.
  apply list_elem_of_omap in Hp as ([tok' e'] & Hin & Hp). destruct (TokenEntry.source e'); [done|].
  injection Hp as <-. simpl in Heq. subst tok'. by apply (list_elem_of_fmap_2 fst) in Hin.
Qed.

(** The stored list determines the runtime part of the store. *)
Lemma ring_reload env live s :
  ring_ok env live s -> foldl load_entry (Store.mk env ∅) (persisted_tokens s) = s.
Proof.
  intros Hr.
  assert (Hp : forall p, p ∈ persisted_tokens s <-> live !! PersistedToken.id p
    = Some (KeyRing.mk (PersistedToken.token p) (PersistedToken.org p) (PersistedToken.created_at p))).
  { intros p. rewrite persisted_elem. split.
    - intros (e & [He|(id & k & Hk & Ht & ->)]%(ring_tokens _ _ _ Hr) & Hs & Ho).
      + by rewrite (ring_env _ _ _ Hr _ _ He) in Hs.
      + simpl in Hs, Ho. injection Hs as <- <-. rewrite Hk, <- Ht, <- Ho. by destruct k.
    - intros Hk. eexists. split; [apply (ring_tokens _ _ _ Hr); right; by eexists _, _|done]. }
  destruct (load_entries (persisted_tokens s) (Store.mk env ∅)) as (L1 & L2 & L3).
  { apply persisted_nodup. }
  { apply NoDup_fmap_2_strong; [|eapply NoDup_fmap_1, persisted_nodup].
    intros p q Hx%Hp Hy%Hp Heq. rewrite Heq, Hy in Hx. injection Hx as H1 H2 H3.
    destruct p, q; simpl in *; congruence. }
  { apply Forall_forall. intros p Hx%Hp. apply (ring_named _ _ _ Hr) in Hx. tauto. }
  set (s' := foldl load_entry _ _) in *. destruct s as [bt ids]. destruct s' as [bt' ids'] eqn:Hs'.
  simpl in *. f_equal; apply map_eq.
  - intros tok. destruct (decide (tok ∈ PersistedToken.token <$> persisted_tokens (Store.mk bt ids)))
      as [(p & -> & Hin)%list_elem_of_fmap|Hn].
    + destruct (L1 p Hin) as [-> _]. apply Hp in Hin. symmetry.
      apply (ring_tokens _ _ _ Hr). right. by eexists _, _.
    + rewrite (L2 tok Hn). apply option_eq. intros e. rewrite (ring_tokens _ _ _ Hr tok e). split; [by left|].
      intros [?|(id & k & Hk & <- & ->)]; [done|]. exfalso. apply Hn. apply list_elem_of_fmap.
      exists (PersistedToken.mk (KeyRing.token k) id (KeyRing.org k) (KeyRing.created_at k)).
      split; [done|]. apply Hp. simpl. rewrite Hk. by destruct k.
  - pose proof (ring_ids _ _ _ Hr) as Hids. simpl in Hids. subst ids. intros id. rewrite lookup_fmap.
    destruct (live !! id) as [k|] eqn:Hk; simpl.
    + set (p := PersistedToken.mk (KeyRing.token k) id (KeyRing.org k) (KeyRing.created_at k)).
      apply (L1 p), Hp. simpl. rewrite Hk. by destruct k.
    + rewrite L3; [done|]. intros (p & -> & Hin%Hp)%list_elem_of_fmap. congruence.
Qed.

Section Restart.
Context {JE W : Type} `{!TokenDisk W, !TokenDiskLaws W, !Serde JE (list PersistedToken.t)}.
Context `{!SerdeLaws JE (list PersistedToken.t), !JsonText JE (list PersistedToken.t)}.
Context (base64_url : bytes -> string).

(** The write of the token file goes through. *)
Definition saves (path : string) (s : Store.t) (w : W) : Prop :=
  exists js w', to_vec (persisted_tokens s) = Ok js
    /\ (_ ← disk_create (with_extension path "tmp") js; disk_rename (with_extension path "tmp") path) w
       = (Ok tt, w').

Lemma persist_saved raw path live ts s w :
  ring_ok (Store.by_token (store (from_csv raw))) live s ->
  persist_path ts = Some path -> path <> "" -> saves path s w ->
  store (from_env (Some raw) (Some path) (persist ts s w)) = s.
Proof.
  intros Hr Hpath Hne (js & w' & Hjs & Hw). unfold persist. rewrite Hpath, Hjs, Hw. cbn [snd].
  apply sm_bind_inv in Hw as ([] & w1 & Hc & Hren).
  apply to_vec_ok in Hjs.
  assert (Hread : disk_read w' path = Ok js).
  { rewrite (disk_rename_ok _ _ _ _ Hren). eapply disk_create_read; [exact Hc|]. by eapply json_is_text. }
  unfold from_env, with_persistence, load_persisted. cbn [default].
  apply String.eqb_neq in Hne as ->. rewrite Hread.
  pose proof (json_not_blank _ _ Hjs) as Hb. apply String.eqb_neq in Hb as ->.
  rewrite (json_roundtrip _ _ Hjs). cbn [store]. change (id raw) with raw.
  pose proof (ring_reload _ _ _ Hr) as Hre.
  replace (store (from_csv raw)) with (Store.mk (Store.by_token (store (from_csv raw))) ∅); [done|].
  pose proof (ring_ids _ _ _ (from_csv_ring raw)) as Hid. rewrite fmap_empty in Hid.
  destruct (store (from_csv raw)) as [bt ids]. simpl in *. by rewrite Hid.
Qed.

Lemma persist_failed path ts s w :
  persist_path ts = Some path -> with_extension path "tmp" <> path ->
  saves path s w \/ disk_read (persist ts s w) path = disk_read w path.
Proof.
  intros Hpath Htmp. unfold persist, saves. rewrite Hpath.
  destruct (to_vec (persisted_tokens s)) as [js|e] eqn:Hjs; [|by right].
  unfold mbind, sm_bind.
  destruct (disk_create (with_extension path "tmp") js w) as [[[]|e] w1] eqn:Hc.
  - destruct (disk_rename (with_extension path "tmp") path w1) as [[[]|e] w2] eqn:Hren.
    + left. exists js, w2. by rewrite Hc.
    + right. simpl. rewrite (disk_rename_err _ _ _ _ _ _ Hren). by eapply disk_create_other.
  - right. simpl. by eapply disk_create_other.
Qed.

(** The call changed the token set. *)
Definition changed (a : result ApiError KeyRing.answer) : bool :=
  match a with Ok (KeyRing.Issued _ _) | Ok (KeyRing.Revoked _) => true | _ => false end.

Lemma exec_op_persists o ts w a ts' w' :
  exec_op base64_url o ts w = (a, ts', w') -> changed a = true ->
  w' = persist ts (store ts') w /\ persist_path ts' = persist_path ts.
Proof.
  destruct o as [tr ir created_at org role|id org role|org]; unfold exec_op, Keys.issue_key, Keys.revoke_key, require_role.
  - destruct (RoleOps.le Admin role); [|by intros [= <- <- <-]]. unfold issue. by intros [= <- <- <-].
  - destruct (RoleOps.le Admin role); [|by intros [= <- <- <-]]. unfold revoke. repeat case_match; intros; simplify_eq; done.
  - by intros [= <- <- <-].
Qed.

Lemma exec_op_path o ts w b ts' w' :
  exec_op base64_url o ts w = (b, ts', w') -> persist_path ts' = persist_path ts.
Proof.
  destruct o as [tr ir created_at org role|id org role|org]; unfold exec_op, Keys.issue_key, Keys.revoke_key, require_role.
  - destruct (RoleOps.le Admin role); [|by intros [= _ <- _]]. unfold issue. by intros [= _ <- _].
  - destruct (RoleOps.le Admin role); [|by intros [= _ <- _]]. unfold revoke. repeat case_match; intros; simplify_eq; done.
  - by intros [= _ <- _].
Qed.

Lemma exec_ops_snoc os o : forall ts w,
  exec_ops base64_url (os ++ [o]) ts w =
    let '(bs, ts, w) := exec_ops base64_url os ts w in
    let '(b, ts, w) := exec_op base64_url o ts w in ((bs ++ [b])%list, ts, w).
Proof.
  induction os as [|p os IH]; intros ts w; simpl.
  - by destruct (exec_op base64_url o ts w) as [[b ts'] w'].
  - destruct (exec_op base64_url p ts w) as [[b ts1] w1]. rewrite IH.
    destruct (exec_ops base64_url os ts1 w1) as [[bs ts2] w2].
    by destruct (exec_op base64_url o ts2 w2) as [[b' ts3] w3].
Qed.

Lemma exec_ops_path os : forall ts w bs ts' w',
  exec_ops base64_url os ts w = (bs, ts', w') -> persist_path ts' = persist_path ts.
Proof.
  induction os as [|o os IH]; intros ts w bs ts' w'; simpl; [by intros [= _ <- _]|].
  destruct (exec_op base64_url o ts w) as [[b ts1] w1] eqn:Ho.
  destruct (exec_ops base64_url os ts1 w1) as [[bs1 ts2] w2] eqn:Hos. intros [= _ <- _].
  rewrite (IH _ _ _ _ _ Hos). by eapply exec_op_path.
Qed.
End Restart.

(** issued keys survive a restart. After any key operations, a successful
    one either leaves the token file as it was, when a step of the write fails,
    or replaces it by one from which a restarted server, with the same
    environment, rebuilds exactly the running server's token set; and it does
    the latter whenever the disk and the serializer succeed. *)
Theorem token_file_restart {JE W : Type} `{!TokenDisk W, !TokenDiskLaws W}
    `{!Serde JE (list PersistedToken.t), !SerdeLaws JE (list PersistedToken.t)}
    `{!JsonText JE (list PersistedToken.t)} (base64_url : bytes -> string) raw path os o w0 :
  path <> "" -> with_extension path "tmp" <> path ->
  fresh_for base64_url (Store.by_token (store (from_csv raw))) ∅ (os ++ [o]) ->
  let '(_, ts, w) := exec_ops base64_url os (ApiTokens.mk (store (from_csv raw)) (Some path)) w0 in
  let '(done, ts', w') := exec_op base64_url o ts w in
  changed done = true ->
  (saves path (store ts') w -> store (from_env (Some raw) (Some path) w') = store ts')
  /\ (saves path (store ts') w \/ disk_read w' path = disk_read w path).
Proof.
  intros Hne Htmp Hf.
  pose proof (ring_run base64_url _ (os ++ [o]) ∅ (ApiTokens.mk (store (from_csv raw)) (Some path)) w0
                (from_csv_ring raw) Hf) as Hrun.
  rewrite exec_ops_snoc in Hrun.
  destruct (exec_ops base64_url os _ w0) as [[bs ts] w] eqn:Hos.
  destruct (exec_op base64_url o ts w) as [[done ts'] w'] eqn:Ho. intros Hch.
  destruct Hrun as [_ Hr].
  apply exec_ops_path in Hos. apply exec_op_persists in Ho as [-> _]; [|done].
  split; [|by apply persist_failed]. intros Hs. by eapply persist_saved.
Qed.

(** ** A disk in memory *)

Module MemDisk.
Abbreviation t := (gmap string bytes).

#[global] Instance mem_disk : TokenDisk t := {|
  disk_read w p :=
    match w !! p with
    | None => Err DiskNotFound
    | Some bs => if utf8_valid (u8_of <$> bs) then Ok bs else Err (DiskOther "not text")
    end;
  disk_create p bs w := (Ok tt, <[p := bs]> w);
  disk_rename src dst w :=
    match w !! src with
    | None => (Err DiskNotFound, w)
    | Some bs => (Ok tt, <[dst := bs]> (delete src w))
    end |}.

#[global] Instance mem_disk_laws : TokenDiskLaws t.
Proof.
  split.
  - intros p bs w w' [= <-] Hu. unfold disk_read, mem_disk. by rewrite lookup_insert_eq, Hu.
  - intros p bs w r w' q [= _ <-] Hq. unfold disk_read, mem_disk. by rewrite lookup_insert_ne by congruence.
  - intros src dst w w'. unfold disk_rename, disk_read, mem_disk. destruct (w !! src) as [bs|] eqn:Hs; [|done].
    intros [= <-]. by rewrite lookup_insert_eq.
  - intros src dst w e w' q. unfold disk_rename, mem_disk. by destruct (w !! src); intros [= _ <-].
Qed.
End MemDisk.

(** A run on it: one configured token, two keys issued and one revoked. *)
Module KeySample.
Definition enc (bs : bytes) : string := string_of_bytes bs.
Definition os : list KeyRing.op :=
  [KeyRing.Issue [Byte.x61] [Byte.x41] "t1" "acme" Admin; KeyRing.Issue [Byte.x62] [Byte.x42] "t2" "beta" Admin].
Definition o : KeyRing.op := KeyRing.Revoke "nvk_A" "acme" Admin.
Definition raw : string := "root".
Definition path : string := "/data/tokens.json".

#[global] Instance persisted_eq_dec : EqDecision PersistedToken.t.
Proof. solve_decision. Defined.

(** The lists written along the run. *)
Definition k1 : PersistedToken.t := PersistedToken.mk "nv_a" "nvk_A" "acme" "t1".
Definition k2 : PersistedToken.t := PersistedToken.mk "nv_b" "nvk_B" "beta" "t2".
Definition table : list (list PersistedToken.t) := [[k1]; [k1; k2]; [k2; k1]; [k2]].

(** A bracket and the number of the list. *)
#[global] Instance serde : Serde unit (list PersistedToken.t) := {|
  to_json v := let (r, js) := table_json table v in (r, Byte.x5b :: js);
  from_json bs := match bs with [] => Err tt | _ :: js => table_parse table js end |}.

#[global] Instance serde_laws : SerdeLaws unit (list PersistedToken.t).
Proof.
  split. intros v js. unfold to_json, serde. destruct (table_json table v) as [r js'] eqn:Hj.
  intros [= -> <-]. by apply (json_roundtrip (SerdeLaws := table_serde_laws table)).
Qed.

Lemma table_bytes v r js : table_json table v = (r, js) -> exists i, js = replicate i Byte.x61.
Proof.
  unfold table_json. destruct (list_find _ _) as [[i x]|]; intros [= _ <-]; [by exists i|by exists 0%nat].
Qed.

#[global] Instance serde_text : JsonText unit (list PersistedToken.t).
Proof.
  split; intros v js; unfold to_json, serde; destruct (table_json table v) as [r js'] eqn:Hj;
    intros [= -> <-]; destruct (table_bytes _ _ _ Hj) as [i ->].
  - clear Hj. induction i as [|i IH]; [done|exact IH].
  - pose proof (trim_solid "[" "" (string_of_bytes (replicate i Byte.x61)) eq_refl) as Ht.
    change ("" +:+ String "[" (string_of_bytes (replicate i Byte.x61)))
      with (string_of_bytes (Byte.x5b :: replicate i Byte.x61)) in Ht. by rewrite Ht.
Qed.

Lemma fresh : fresh_for enc (Store.by_token (store (from_csv raw))) ∅ (os ++ [o]).
Proof.
  split_and!.
  - by apply (bool_decide_eq_true_1 _); vm_compute.
  - by apply (bool_decide_eq_true_1 _); vm_compute.
  - intros tok [->|[->|[]%not_elem_of_nil]%elem_of_cons]%elem_of_cons; reflexivity.
  - intros tok id k _. by rewrite lookup_empty.
  - intros id _. apply lookup_empty.
Qed.
End KeySample.

Lemma api_keys_refine_ring_witness :
  let os := (KeySample.os ++ [KeyRing.List "acme"; KeySample.o; KeyRing.List "acme"])%list in
  let '(answers, ts, _) := exec_ops KeySample.enc os (from_csv KeySample.raw) (∅ : MemDisk.t) in
  answers !! 2%nat = Some (Ok (KeyRing.Listed [RuntimeTokenInfo.mk "nvk_A" "acme" "t1"])) /\
  answers !! 4%nat = Some (Ok (KeyRing.Listed [])) /\
  ring_answers KeySample.enc os ∅ answers
  /\ (forall tok who, resolve ts tok = Some who <->
       KeyRing.who (Store.by_token (store (from_csv KeySample.raw))) (ring_after KeySample.enc os ∅) tok who).
Proof.
  intros os. pose proof (api_keys_refine_ring KeySample.enc KeySample.raw os (∅ : MemDisk.t) KeySample.fresh) as H.
  destruct (exec_ops _ _ _ _) as [[answers ts] w] eqn:He.
  assert (Ha : answers !! 2%nat = Some (Ok (KeyRing.Listed [RuntimeTokenInfo.mk "nvk_A" "acme" "t1"])) /\
    answers !! 4%nat = Some (Ok (KeyRing.Listed [])))
    by (change answers with (answers, ts, w).1.1; rewrite <- He; vm_compute; split; reflexivity).
  destruct Ha. by split_and!; try apply H.
Defined.

Module RestartSample.
Import KeySample.
Definition before : list (result ApiError KeyRing.answer) * ApiTokens.t * MemDisk.t :=
  Eval vm_compute in exec_ops enc os (ApiTokens.mk (store (from_csv raw)) (Some path)) ∅.
Definition after : result ApiError KeyRing.answer * ApiTokens.t * MemDisk.t :=
  Eval vm_compute in exec_op enc o (snd (fst before)) (snd before).
End RestartSample.

Lemma token_file_restart_witness :
  saves KeySample.path (store (snd (fst RestartSample.after))) (snd RestartSample.before)
  /\ store (from_env (Some KeySample.raw) (Some KeySample.path) (snd RestartSample.after))
     = store (snd (fst RestartSample.after)).
Proof.
  assert (Hs : saves KeySample.path (store (snd (fst RestartSample.after))) (snd RestartSample.before)).
  { eexists _, _. split; vm_compute; reflexivity. }
  split; [exact Hs|].
  pose proof (token_file_restart KeySample.enc KeySample.raw KeySample.path KeySample.os KeySample.o
                (∅ : MemDisk.t) ltac:(discriminate) ltac:(vm_compute; discriminate) KeySample.fresh) as H.
  destruct (exec_ops _ KeySample.os _ _) as [[bs ts] w] eqn:E1.
  assert (Hb : RestartSample.before = (bs, ts, w)) by (rewrite <- E1; vm_compute; reflexivity).
  destruct (exec_op _ KeySample.o ts w) as [[b ts'] w'] eqn:E2.
  assert (Ha : RestartSample.after = (b, ts', w')).
  { rewrite <- E2. change ts with (snd (fst (bs, ts, w))). change w with (snd (bs, ts, w)) at 2.
    rewrite <- Hb. vm_compute. reflexivity. }
  assert (changed b = true) by (change b with (fst (fst (b, ts', w'))); rewrite <- Ha; reflexivity).
  rewrite Ha, Hb in Hs. rewrite Ha. by apply H.
Defined.

(** Revoking the last token of a server without configured ones turns
    authentication off: the next request, with any header or none, is an
    administrator's. *)
Example revoking_the_last_key_admits_everyone :
  let '(_, ts, w) := issue KeySample.enc [Byte.x61] [Byte.x41] "t" "default" (from_csv "") (∅ : MemDisk.t) in
  let '(revoked, ts', _) := revoke "nvk_A" "default" ts w in
  require_token (Some ts) None = Err (Unauthorized "missing or malformed authorization header")
  /\ revoked = true /\ require_token (Some ts') None = Ok (default_org, Admin).
Proof. vm_compute. split_and!; reflexivity. Qed.
