(* ===== verification/WarmPool.v ===== *)
(** * The warm pool ([crates/control-plane/src/warm_pool.rs])

    The pool of pre-restored VMs behind the fork endpoint, one definition per
    locked section, and the machine that interleaves the sections of concurrent
    takes, refill tasks and drains. *)

From Stdlib Require Import Ascii String.
From stdpp Require Import strings.
From S2P Require Import Prelude Str VmCore.

Local Open Scope Z_scope.

Definition DEFAULT_WARM_PER_SNAPSHOT : Z := 0.

Module WarmPool.
Record t : Type := mk {
  per_snapshot : Z;
  queues : gmap SnapshotId (list VmHandle.t);
  in_flight : gmap SnapshotId Z;
}.

Definition new (per_snapshot : Z) : t := mk per_snapshot ∅ ∅.

Definition disabled : t := new 0.

(** [value] is the environment variable, when it is set to text. *)
Definition from_env (value : option string) : t :=
  new (default DEFAULT_WARM_PER_SNAPSHOT (value ≫= parse_uint (2 ^ 64 - 1))).

Definition is_disabled (p : t) : bool := per_snapshot p =? 0.

Definition depth (snap : SnapshotId) (p : t) : Z :=
  match queues p !! snap with Some q => zlen q | None => 0 end.

Definition flying (snap : SnapshotId) (p : t) : Z := default 0 (in_flight p !! snap).

(** The locked section of [take]. *)
Definition pop (snap : SnapshotId) (p : t) : option VmHandle.t * t :=
  match queues p !! snap with
  | Some (h :: q) => (Some h, mk (per_snapshot p) (<[snap := q]> (queues p)) (in_flight p))
  | _ => (None, p)
  end.

(** The locked section of [kick_refill]: how many refills to spawn. *)
Definition reserve (snap : SnapshotId) (p : t) : Z * t :=
  let need := Z.max 0 (per_snapshot p - (depth snap p + flying snap p)) in
  if 0 <? need then
    (need, mk (per_snapshot p) (queues p) (<[snap := flying snap p + need]> (in_flight p)))
  else (need, p).

Definition kick_refill (snap : SnapshotId) (p : t) : Z * t :=
  if is_disabled p then (0, p) else reserve snap p.

(** The handle, and the number of refill tasks spawned. *)
Definition take (snap : SnapshotId) (p : t) : option VmHandle.t * Z * t :=
  if is_disabled p then (None, 0, p)
  else
    let (handle, p) := pop snap p in
    let (needed, p) := kick_refill snap p in
    (handle, needed, p).

(** The locked section of [drain]; the handles are destroyed after it. *)
Definition take_queue (snap : SnapshotId) (p : t) : list VmHandle.t * t :=
  (default [] (queues p !! snap),
   mk (per_snapshot p) (delete snap (queues p)) (delete snap (in_flight p))).

Fixpoint destroy_all {H} `{!Hypervisor H} (handles : list VmHandle.t) (hv : H) : H :=
  match handles with
  | [] => hv
  | h :: hs => destroy_all hs (destroy (VmHandle.id h) hv).2
  end.

Definition drain {H} `{!Hypervisor H} (snap : SnapshotId) (p : t) (hv : H) : t * H :=
  let (handles, p) := take_queue snap p in (p, destroy_all handles hv).

(** The two locked sections at the end of a refill task. *)
Definition release (snap : SnapshotId) (p : t) : t :=
  let count := Z.max 0 (flying snap p - 1) in
  mk (per_snapshot p) (queues p)
    (if count =? 0 then delete snap (in_flight p) else <[snap := count]> (in_flight p)).

Definition push_back (snap : SnapshotId) (h : VmHandle.t) (p : t) : t :=
  mk (per_snapshot p) (<[snap := default [] (queues p !! snap) ++ [h]]> (queues p)) (in_flight p).
End WarmPool.

(** ** The machine

    A refill task restores a VM, releases its reservation and queues the VM,
    each under its own lock; takes and drains run in between. *)

Inductive RefillTask : Type :=
| Spawned (snap : SnapshotId)
| Restored (snap : SnapshotId) (result : option VmHandle.t)
| Released (snap : SnapshotId) (handle : VmHandle.t).

Module PoolMachine.
Record t : Type := mk {
  pool : WarmPool.t;
  tasks : list RefillTask;
  (** What left the pool, to callers and to drains. *)
  handed : list (SnapshotId * VmHandle.t);
  reaped : list (SnapshotId * VmHandle.t);
}.

Inductive event : Type :=
| Pop (snap : SnapshotId)
| Kick (snap : SnapshotId)
| Restore (task : nat) (result : option VmHandle.t)
| Release (task : nat)
| Push (task : nat)
| Drain (snap : SnapshotId).

Definition start (per_snapshot : Z) : t := mk (WarmPool.new per_snapshot) [] [] [].

Definition remove_task (i : nat) (ts : list RefillTask) : list RefillTask := delete i ts.

(** One locked section of one thread; [None] when the section is not enabled. *)
Definition step (m : t) (e : event) : option t :=
  let p := pool m in
  match e with
  | Pop snap =>
      if WarmPool.is_disabled p then None
      else
        let (h, p) := WarmPool.pop snap p in
        Some (mk p (tasks m) (match h with Some h => handed m ++ [(snap, h)] | None => handed m end)
                (reaped m))
  | Kick snap =>
      let (needed, p) := WarmPool.kick_refill snap p in
      Some (mk p (tasks m ++ replicate (Z.to_nat needed) (Spawned snap)) (handed m) (reaped m))
  | Restore i result =>
      match tasks m !! i with
      | Some (Spawned snap) => Some (mk p (<[i := Restored snap result]> (tasks m)) (handed m) (reaped m))
      | _ => None
      end
  | Release i =>
      match tasks m !! i with
      | Some (Restored snap (Some h)) =>
          Some (mk (WarmPool.release snap p) (<[i := Released snap h]> (tasks m)) (handed m) (reaped m))
      | Some (Restored snap None) =>
          Some (mk (WarmPool.release snap p) (remove_task i (tasks m)) (handed m) (reaped m))
      | _ => None
      end
  | Push i =>
      match tasks m !! i with
      | Some (Released snap h) =>
          Some (mk (WarmPool.push_back snap h p) (remove_task i (tasks m)) (handed m) (reaped m))
      | _ => None
      end
  | Drain snap =>
      let (hs, p) := WarmPool.take_queue snap p in
      Some (mk p (tasks m) (handed m) (reaped m ++ ((fun h => (snap, h)) <$> hs)))
  end.

Fixpoint run (m : t) (es : list event) : option t :=
  match es with
  | [] => Some m
  | e :: es => match step m e with Some m => run m es | None => None end
  end.
End PoolMachine.
Export PoolMachine.

(** A task between its two locked sections is not counted anywhere: a take in
    that moment reserves again, and the queue grows beyond its target. *)
Example pool_overshoots :
  let h1 := VmHandle.mk 1 Created in let h2 := VmHandle.mk 2 Created in
  match run (start 1) [Pop 7; Kick 7; Restore 0 (Some h1); Release 0; Kick 7; Push 0;
                       Restore 0 (Some h2); Release 0; Push 0] with
  | Some m => WarmPool.depth 7 (pool m) = 2
  | None => False
  end.
Proof. reflexivity. Qed.

(** A drain does not see the refills in progress: the VM of one that finishes
    later is queued for a snapshot that is gone. *)
Example pool_leaks_after_drain :
  match run (start 1) [Pop 7; Kick 7; Restore 0 (Some (VmHandle.mk 1 Created)); Drain 7; Release 0; Push 0] with
  | Some m => WarmPool.depth 7 (pool m) = 1 /\ reaped m = []
  | None => False
  end.
Proof. by split. Qed.

(** ** Where the VMs are *)

Definition pairs (snap : SnapshotId) (q : list VmHandle.t) : list (SnapshotId * VmHandle.t) :=
  (fun h => (snap, h)) <$> q.

Definition queued_in (m : gmap SnapshotId (list VmHandle.t)) : list (SnapshotId * VmHandle.t) :=
  concat ((fun '(s, q) => pairs s q) <$> map_to_list m).

Definition queued (p : WarmPool.t) : list (SnapshotId * VmHandle.t) := queued_in (WarmPool.queues p).

Definition task_vm (t : RefillTask) : option (SnapshotId * VmHandle.t) :=
  match t with
  | Restored s (Some h) | Released s h => Some (s, h)
  | _ => None
  end.

Definition held (ts : list RefillTask) : list (SnapshotId * VmHandle.t) := omap task_vm ts.

(** The VMs restored by refill tasks along a run. *)
Definition births (m : PoolMachine.t) (e : event) : list (SnapshotId * VmHandle.t) :=
  match e with
  | Restore i (Some h) =>
      match tasks m !! i with Some (Spawned s) => [(s, h)] | _ => [] end
  | _ => []
  end.

Fixpoint restored (m : PoolMachine.t) (es : list event) : list (SnapshotId * VmHandle.t) :=
  match es with
  | [] => []
  | e :: es => births m e ++ match step m e with Some m => restored m es | None => [] end
  end.

Lemma queued_take m s q :
  m !! s = Some q -> queued_in m ≡ₚ pairs s q ++ queued_in (delete s m).
Proof. intros Hq. unfold queued_in. by rewrite <- (map_to_list_delete m s q Hq). Qed.

Lemma queued_put m s q : queued_in (<[s := q]> m) ≡ₚ pairs s q ++ queued_in (delete s m).
Proof.
  rewrite (queued_take _ s q) by apply lookup_insert_eq. by rewrite delete_insert_eq.
Qed.

Lemma queued_default m s : queued_in m ≡ₚ pairs s (default [] (m !! s)) ++ queued_in (delete s m).
Proof.
  destruct (m !! s) as [q|] eqn:Hq; [by apply queued_take|]. simpl. by rewrite delete_id.
Qed.

Lemma held_split ts i t :
  ts !! i = Some t -> held ts ≡ₚ option_list (task_vm t) ++ held (delete i ts).
Proof.
  intros Hi. unfold held. rewrite <- (take_drop_middle ts i t Hi) at 1. rewrite delete_take_drop.
  rewrite !omap_app. simpl. destruct (task_vm t); simpl; [|done].
  by rewrite Permutation_middle.
Qed.

Lemma held_insert ts i t t' :
  ts !! i = Some t -> held (<[i := t']> ts) ≡ₚ option_list (task_vm t') ++ held (delete i ts).
Proof.
  intros Hi. assert (Hlt : (i < length ts)%nat) by by eapply lookup_lt_Some.
  rewrite (held_split (<[i := t']> ts) i t') by by apply list_lookup_insert_eq.
  f_equiv. unfold held. f_equiv. rewrite !delete_take_drop, insert_take_drop by done.
  rewrite take_app_length' by (rewrite length_take; lia).
  rewrite drop_app_ge by (rewrite length_take; lia). rewrite length_take.
  by replace (S i - i `min` length ts)%nat with 1%nat by lia.
Qed.

Lemma held_spawned n s : held (replicate n (Spawned s)) = [].
Proof. by induction n. Qed.

(** What the machine holds, everywhere. *)
Definition everywhere (m : PoolMachine.t) : list (SnapshotId * VmHandle.t) :=
  handed m ++ reaped m ++ queued (pool m) ++ held (tasks m).

Lemma step_conserves m e m' : step m e = Some m' -> births m e ++ everywhere m ≡ₚ everywhere m'.
Proof.
  destruct e as [s|s|i r|i|i|s]; unfold step, everywhere, births.
  - destruct (WarmPool.is_disabled (pool m)); [done|]. unfold WarmPool.pop, queued.
    destruct (WarmPool.queues (pool m) !! s) as [[|h q]|] eqn:Hq; intros [= <-]; simpl; [done| |done].
    rewrite queued_put, (queued_take _ s (h :: q)) by done. simpl. solve_Permutation.
  - unfold WarmPool.kick_refill, WarmPool.reserve. intros Hs.
    assert (queued (pool m') = queued (pool m) /\ held (tasks m') = held (tasks m)
      /\ handed m' = handed m /\ reaped m' = reaped m) as (-> & -> & -> & ->); [|done].
    repeat case_match; simplify_eq; simpl; split_and!; try done;
      unfold held; rewrite omap_app; fold (held (tasks m)); fold (held (replicate 0 (Spawned s)));
      try (rewrite app_nil_r; done); rewrite (held_spawned _ s); apply app_nil_r.
  - destruct (tasks m !! i) as [[s| |]|] eqn:Hi; [|by destruct r..]. intros [= <-]. simpl.
    rewrite (held_split (tasks m) i (Spawned s)), (held_insert _ _ _ _ Hi) by done.
    destruct r; simpl; solve_Permutation.
  - destruct (tasks m !! i) as [[|s [h|]|]|] eqn:Hi; try done; intros [= <-]; simpl.
    + rewrite (held_split (tasks m) i _ Hi), (held_insert _ _ _ _ Hi). done.
    + rewrite (held_split (tasks m) i _ Hi). done.
  - destruct (tasks m !! i) as [[| |s h]|] eqn:Hi; try done. intros [= <-]. simpl.
    unfold queued, WarmPool.push_back, remove_task. simpl.
    rewrite queued_put, (queued_default (WarmPool.queues (pool m)) s), (held_split (tasks m) i _ Hi).
    unfold pairs. rewrite fmap_app. simpl. solve_Permutation.
  - intros [= <-]. simpl. unfold queued. simpl.
    rewrite (queued_default (WarmPool.queues (pool m)) s). unfold pairs. solve_Permutation.
Qed.

Lemma run_conserves es : forall m m',
  run m es = Some m' -> restored m es ++ everywhere m ≡ₚ everywhere m'.
Proof.
  induction es as [|e es IH]; intros m m'; simpl; [by intros [= ->]|].
  destruct (step m e) as [m1|] eqn:Hs; [|done]. intros Hr. rewrite <- (IH m1 m' Hr).
  rewrite <- (step_conserves m e m1 Hs). solve_Permutation.
Qed.

(** ** Counting tasks *)

Definition b2z (b : bool) : Z := if b then 1 else 0.

Definition count (f : RefillTask -> bool) (ts : list RefillTask) : Z := zsum (b2z ∘ f <$> ts).

(** Tasks of a snapshot, and those that still hold their reservation. *)
Definition task_snap (t : RefillTask) : SnapshotId :=
  match t with Spawned s | Restored s _ | Released s _ => s end.
Definition of_snap (s : SnapshotId) (t : RefillTask) : bool := task_snap t =? s.
Definition reserving (s : SnapshotId) (t : RefillTask) : bool :=
  match t with Spawned s' | Restored s' _ => s' =? s | Released _ _ => false end.

Lemma zsum_app l l' : zsum (l ++ l') = zsum l + zsum l'.
Proof. induction l as [|x l IH]; simpl; [done|]. rewrite IH. lia. Qed.

Lemma count_app f ts ts' : count f (ts ++ ts') = count f ts + count f ts'.
Proof. unfold count. by rewrite fmap_app, zsum_app. Qed.

Lemma count_cons f t ts : count f (t :: ts) = b2z (f t) + count f ts.
Proof. done. Qed.

Lemma count_delete f ts i t : ts !! i = Some t -> count f (delete i ts) = count f ts - b2z (f t).
Proof.
  intros Hi. rewrite <- (take_drop_middle ts i t Hi) at 2. rewrite delete_take_drop.
  rewrite !count_app, count_cons. lia.
Qed.

Lemma task_count_insert f ts i t t' :
  ts !! i = Some t -> count f (<[i := t']> ts) = count f ts - b2z (f t) + b2z (f t').
Proof.
  intros Hi. rewrite <- (take_drop_middle ts i t Hi) at 2.
  rewrite insert_take_drop by by eapply lookup_lt_Some. rewrite !count_app, !count_cons. lia.
Qed.

Lemma count_replicate f n t : count f (replicate n t) = Z.of_nat n * b2z (f t).
Proof. induction n as [|n IH]; [done|]. simpl replicate. rewrite count_cons, IH. lia. Qed.

Lemma count_nonneg f ts : 0 <= count f ts.
Proof. induction ts as [|t ts IH]; [done|]. rewrite count_cons. unfold b2z. case_if; lia. Qed.

Lemma count_le f g ts : (forall t, f t = true -> g t = true) -> count f ts <= count g ts.
Proof.
  intros Hfg. induction ts as [|t ts IH]; [done|]. rewrite !count_cons.
  specialize (Hfg t). unfold b2z. destruct (f t), (g t); lia.
Qed.

(** ** The sections' effect on the counters *)

Section Counters.
Implicit Types (p : WarmPool.t) (s : SnapshotId).
Import WarmPool.

Lemma pop_flying s s' p : flying s' (pop s p).2 = flying s' p.
Proof. unfold pop. by destruct (queues p !! s) as [[|? ?]|]. Qed.

Lemma release_flying s s' p :
  0 <= flying s' p ->
  flying s' (release s p) = if s =? s' then Z.max 0 (flying s' p - 1) else flying s' p.
Proof.
  intros H0. unfold release, flying. simpl. destruct (Z.eqb_spec s s') as [<-|Hne].
  - set (c := Z.max 0 _). destruct (Z.eqb_spec c 0) as [Hc|Hc].
    + by rewrite lookup_delete_eq.
    + by rewrite lookup_insert_eq.
  - case_if; [by rewrite lookup_delete_ne|by rewrite lookup_insert_ne].
Qed.

Lemma kick_flying s s' p :
  flying s' (kick_refill s p).2 = flying s' p + if s =? s' then (kick_refill s p).1 else 0.
Proof.
  unfold kick_refill, reserve. destruct (is_disabled p); simpl; [case_if; lia|].
  set (need := Z.max 0 _). destruct (Z.ltb_spec 0 need); simpl; [|case_if; lia].
  unfold flying at 1. simpl. destruct (Z.eqb_spec s s') as [<-|Hne].
  - by rewrite lookup_insert_eq.
  - rewrite lookup_insert_ne by done. unfold flying. lia.
Qed.

Lemma kick_need s p :
  0 <= (kick_refill s p).1 /\ (kick_refill s p).1 <= Z.max 0 (per_snapshot p - (depth s p + flying s p)).
Proof.
  unfold kick_refill, reserve. destruct (is_disabled p); simpl; [lia|].
  set (need := Z.max 0 _). destruct (Z.ltb_spec 0 need); simpl; lia.
Qed.

Lemma depth_nonneg s p : 0 <= depth s p.
Proof. unfold depth, zlen. case_match; lia. Qed.

Lemma push_depth s s' h p :
  depth s' (push_back s h p) = depth s' p + if s =? s' then 1 else 0.
Proof.
  unfold depth, push_back. simpl. destruct (Z.eqb_spec s s') as [<-|Hne].
  - rewrite lookup_insert_eq. destruct (queues p !! s); simpl; unfold zlen; rewrite ?length_app; simpl; lia.
  - rewrite lookup_insert_ne by done. lia.
Qed.

Lemma drain_flying s s' p : flying s' (take_queue s p).2 = if s =? s' then 0 else flying s' p.
Proof.
  unfold flying. simpl. destruct (Z.eqb_spec s s') as [<-|Hne].
  - by rewrite lookup_delete_eq.
  - by rewrite lookup_delete_ne.
Qed.
End Counters.

(** ** Reservations *)

(** A reservation count is a number of tasks, unless a drain discarded it. *)
Record counted (drained : SnapshotId -> bool) (m : PoolMachine.t) : Prop := {
  cnt_range : forall s, 0 <= WarmPool.flying s (pool m) <= Z.max 0 (WarmPool.per_snapshot (pool m));
  cnt_tasks : forall s, drained s = false -> WarmPool.flying s (pool m) = count (reserving s) (tasks m);
}.

Definition drains (s : SnapshotId) (es : list event) : bool :=
  existsb (fun e => match e with Drain s' => s' =? s | _ => false end) es.

Lemma step_counted d m e m' :
  counted d m -> step m e = Some m' ->
  counted (fun s => d s || drains s [e]) m'
  /\ WarmPool.per_snapshot (pool m') = WarmPool.per_snapshot (pool m).
Proof.
  intros [Hr Hc]. destruct e as [s|s|i r|i|i|s]; unfold step.
  - destruct (WarmPool.is_disabled (pool m)); [done|].
    pose proof (fun s' => pop_flying s s' (pool m)) as Hp.
    assert (WarmPool.per_snapshot (WarmPool.pop s (pool m)).2 = WarmPool.per_snapshot (pool m)) as Hper
      by (unfold WarmPool.pop; by destruct (WarmPool.queues (pool m) !! s) as [[|? ?]|]).
    destruct (WarmPool.pop s (pool m)) as [h p]. intros [= <-]. simpl in *. split; [|done].
    split; intros s'; simpl; rewrite Hp; [rewrite Hper; apply Hr|]. rewrite orb_false_r. apply Hc.
  - pose proof (fun s' => kick_flying s s' (pool m)) as Hf. pose proof (kick_need s (pool m)) as Hn.
    assert (WarmPool.per_snapshot (WarmPool.kick_refill s (pool m)).2 = WarmPool.per_snapshot (pool m)) as Hper
      by (unfold WarmPool.kick_refill, WarmPool.reserve; repeat case_if; done).
    destruct (WarmPool.kick_refill s (pool m)) as [need p]. intros [= <-]. simpl in *. split; [|done].
    pose proof (depth_nonneg s (pool m)).
    split; intros s'; simpl; rewrite Hf; [rewrite Hper|].
    + specialize (Hr s'). destruct (Z.eqb_spec s s') as [<-|]; lia.
    + rewrite orb_false_r. intros Hd. rewrite count_app, count_replicate, (Hc s' Hd). simpl.
      destruct (s =? s'); simpl; lia.
  - destruct (tasks m !! i) as [[s| |]|] eqn:Hi; try done. intros [= <-]. split; [|done].
    split; intros s'; simpl; [apply Hr|]. rewrite orb_false_r. intros Hd.
    rewrite (task_count_insert _ _ _ _ _ Hi), (Hc s' Hd). simpl. lia.
  - destruct (tasks m !! i) as [[|s r|]|] eqn:Hi; try done. intros Hs.
    assert (Hm : pool m' = WarmPool.release s (pool m)
      /\ forall s', count (reserving s') (tasks m') = count (reserving s') (tasks m) - b2z (s =? s')).
    { destruct r; injection Hs as <-; (split; [done|]); intros s'; simpl; unfold remove_task.
      - rewrite (task_count_insert _ _ _ _ _ Hi). simpl. lia.
      - rewrite (count_delete _ _ _ _ Hi). simpl. lia. }
    destruct Hm as [Hp Ht]. rewrite Hp. split; [|done].
    assert (Hfl := fun s' => release_flying s s' (pool m) ltac:(apply Hr)).
    split; intros s'; rewrite Hp, Hfl; [specialize (Hr s'); simpl; case_if; lia|].
    simpl. rewrite orb_false_r, Ht. intros Hd. specialize (Hr s'). rewrite <- (Hc s' Hd).
    assert (0 <= count (reserving s') (tasks m')) by apply count_nonneg.
    rewrite Ht, <- (Hc s' Hd) in *. unfold b2z in *. destruct (s =? s'); lia.
  - destruct (tasks m !! i) as [[| |s h]|] eqn:Hi; try done. intros [= <-]. split; [|done].
    split; intros s'; simpl; [apply Hr|]. rewrite orb_false_r. intros Hd. unfold remove_task.
    rewrite (count_delete _ _ _ _ Hi). simpl. rewrite <- (Hc s' Hd).
    unfold WarmPool.flying, WarmPool.push_back. simpl. lia.
  - intros [= <-]. split; [|done]. pose proof (fun s' => drain_flying s s' (pool m)) as Hf. simpl in Hf.
    split; intros s'; simpl; rewrite Hf.
    + specialize (Hr s'). case_if; lia.
    + rewrite orb_false_r. intros [Hd Hs]%orb_false_iff. rewrite Hs. by apply Hc.
Qed.

Lemma run_counted es : forall d m m',
  counted d m -> run m es = Some m' ->
  counted (fun s => d s || drains s es) m'
  /\ WarmPool.per_snapshot (pool m') = WarmPool.per_snapshot (pool m).
Proof.
  induction es as [|e es IH]; intros d m m' Hc; simpl.
  - intros [= <-]. split; [|done]. destruct Hc as [Hr Hc]. split; [done|].
    intros s. rewrite orb_false_r. apply Hc.
  - destruct (step m e) as [m1|] eqn:Hs; [|done]. intros Hr.
    destruct (step_counted d m e m1 Hc Hs) as [Hc1 Hper].
    destruct (IH _ m1 m' Hc1 Hr) as [[Hr' Hc'] Hper']. split; [|congruence]. split; [done|].
    intros s Hd. apply Hc'. unfold drains in *. simpl in *. by rewrite orb_false_r, <- orb_assoc.
Qed.

Lemma start_counted per : counted (fun _ => false) (start per).
Proof.
  split; intros s; simpl; [|done]. change (WarmPool.flying s (WarmPool.new per)) with 0. lia.
Qed.

(** refills are bounded. In every interleaving the reservations of a
    snapshot never exceed the configured depth, and as long as it has not been
    drained they are exactly its refill tasks that have not finished restoring,
    so no more than that many restores of one snapshot are in progress. *)
Theorem pool_refills_bounded per es m s :
  0 <= per -> run (start per) es = Some m ->
  0 <= WarmPool.flying s (pool m) <= per
  /\ (drains s es = false -> count (reserving s) (tasks m) = WarmPool.flying s (pool m)).
Proof.
  intros Hper Hr. destruct (run_counted es _ _ _ (start_counted per) Hr) as [[Hrange Hc] Hp].
  simpl in Hp. specialize (Hrange s). rewrite Hp in Hrange. split; [lia|].
  intros Hd. symmetry. by apply Hc.
Qed.

Lemma pool_refills_bounded_witness :
  let es := [Pop 7; Kick 7; Restore 0 (Some (VmHandle.mk 1 Created))] in
  match run (start 2) es with
  | Some m => 0 <= WarmPool.flying 7 (pool m) <= 2 /\ WarmPool.flying 7 (pool m) = 2
  | None => False
  end.
Proof.
  intros es. destruct (run (start 2) es) as [m|] eqn:Hr; [|discriminate].
  split; [apply (pool_refills_bounded 2 es m 7 ltac:(lia) Hr)|]. injection Hr as <-. reflexivity.
Defined.

(** ** Filling up *)

(** A section of a refill task, its restore successful. *)
Definition refill_event (e : event) : bool :=
  match e with
  | Restore _ (Some _) | Release _ | Push _ => true
  | _ => false
  end.

Definition no_failure (e : event) : bool := match e with Restore _ None => false | _ => true end.

(** No task has failed. *)
Definition healthy (m : PoolMachine.t) : Prop := Forall (fun t => forall s, t <> Restored s None) (tasks m).

(** Sections a task still has before it. *)
Definition left_to_do (t : RefillTask) : nat :=
  match t with Spawned _ => 3 | Restored _ _ => 2 | Released _ _ => 1 end.

Definition work (ts : list RefillTask) : nat := sum_list_with left_to_do ts.

Lemma work_delete ts i t : ts !! i = Some t -> (work (delete i ts) + left_to_do t = work ts)%nat.
Proof.
  intros Hi. unfold work. rewrite <- (take_drop_middle ts i t Hi) at 2. rewrite delete_take_drop.
  rewrite !sum_list_with_app. simpl. lia.
Qed.

Lemma work_insert ts i t t' :
  ts !! i = Some t -> (work (<[i := t']> ts) + left_to_do t = work ts + left_to_do t')%nat.
Proof.
  intros Hi. unfold work. rewrite <- (take_drop_middle ts i t Hi) at 2.
  rewrite insert_take_drop by by eapply lookup_lt_Some. rewrite !sum_list_with_app. simpl. lia.
Qed.

Lemma step_healthy m e m' : healthy m -> no_failure e = true -> step m e = Some m' -> healthy m'.
Proof.
  unfold healthy. intros Hh Hn. destruct e as [s|s|i r|i|i|s]; unfold step; simpl in Hn.
  - destruct (WarmPool.is_disabled (pool m)); [done|]. destruct (WarmPool.pop s (pool m)). by intros [= <-].
  - destruct (WarmPool.kick_refill s (pool m)). intros [= <-]. simpl. apply Forall_app. split; [done|].
    apply Forall_forall. by intros t [-> _]%elem_of_replicate.
  - destruct r as [h|]; [|done]. destruct (tasks m !! i) as [[s| |]|]; try done. intros [= <-]. simpl.
    by apply Forall_insert.
  - destruct (tasks m !! i) as [[|s [h|]|]|] eqn:Hi; try done; intros [= <-]; simpl.
    + by apply Forall_insert.
    + by apply Forall_delete.
  - destruct (tasks m !! i) as [[| |s h]|]; try done. intros [= <-]. simpl. by apply Forall_delete.
  - intros [= <-]. done.
Qed.

Lemma run_healthy es : forall m m',
  healthy m -> forallb no_failure es = true -> run m es = Some m' -> healthy m'.
Proof.
  induction es as [|e es IH]; intros m m' Hh; simpl; [by intros _ [= <-]|].
  intros [He Hes]%andb_true_iff. destruct (step m e) as [m1|] eqn:Hs; [|done].
  apply IH; [by eapply step_healthy|done].
Qed.

(** A refill section moves one VM along and loses none on the way. *)
Lemma refill_step m e m' s :
  healthy m -> refill_event e = true -> step m e = Some m' ->
  healthy m' /\ (S (work (tasks m')) = work (tasks m))%nat
  /\ WarmPool.depth s (pool m') + count (of_snap s) (tasks m')
     = WarmPool.depth s (pool m) + count (of_snap s) (tasks m)
  /\ WarmPool.per_snapshot (pool m') = WarmPool.per_snapshot (pool m).
Proof.
  intros Hh He Hs. split; [apply (step_healthy m e); [done|by destruct e as [| |? []| | |]|done]|].
  revert Hs. destruct e as [|?|i [h|]|i|i|?]; try done; unfold step.
  - destruct (tasks m !! i) as [[s'| |]|] eqn:Hi; try done. intros [= <-]. simpl.
    pose proof (work_insert _ _ _ (Restored s' (Some h)) Hi). simpl in *.
    rewrite (task_count_insert _ _ _ _ _ Hi). unfold of_snap. simpl. lia.
  - destruct (tasks m !! i) as [[|s' [h|]|]|] eqn:Hi; try done; intros [= <-]; simpl.
    + pose proof (work_insert _ _ _ (Released s' h) Hi). simpl in *.
      rewrite (task_count_insert _ _ _ _ _ Hi). unfold of_snap, WarmPool.depth, WarmPool.release. simpl. lia.
    + unfold healthy in Hh. rewrite Forall_lookup in Hh. by destruct (Hh _ _ Hi s').
  - destruct (tasks m !! i) as [[| |s' h]|] eqn:Hi; try done. intros [= <-]. simpl. unfold remove_task.
    pose proof (work_delete _ _ _ Hi). simpl in *.
    rewrite push_depth, (count_delete _ _ _ _ Hi). unfold of_snap, b2z. simpl. case_if; lia.
Qed.

Lemma refill_run s es : forall m m',
  healthy m -> forallb refill_event es = true -> run m es = Some m' ->
  healthy m' /\ (length es + work (tasks m') = work (tasks m))%nat
  /\ WarmPool.depth s (pool m') + count (of_snap s) (tasks m')
     = WarmPool.depth s (pool m) + count (of_snap s) (tasks m)
  /\ WarmPool.per_snapshot (pool m') = WarmPool.per_snapshot (pool m).
Proof.
  induction es as [|e es IH]; intros m m' Hh; simpl; [by intros _ [= <-]|].
  intros [He Hes]%andb_true_iff. destruct (step m e) as [m1|] eqn:Hs; [|done]. intros Hr.
  destruct (refill_step m e m1 s Hh He Hs) as (Hh1 & Hw1 & Hd1 & Hp1).
  destruct (IH m1 m' Hh1 Hes Hr) as (Hh2 & Hw2 & Hd2 & Hp2). split_and!; [done|lia|lia|congruence].
Qed.

Lemma refill_progress m : healthy m -> tasks m <> [] -> exists e, refill_event e = true /\ is_Some (step m e).
Proof.
  intros Hh Hne. destruct (tasks m) as [|t ts] eqn:Ht; [done|].
  assert (Hi : tasks m !! 0%nat = Some t) by by rewrite Ht. destruct t as [s|s [h|]|s h].
  - exists (Restore 0 (Some (VmHandle.mk 0 Created))). split; [done|]. unfold step. rewrite Hi. by eexists.
  - exists (Release 0). split; [done|]. unfold step. rewrite Hi. by eexists.
  - unfold healthy in Hh. rewrite Forall_lookup in Hh. by destruct (Hh _ _ Hi s).
  - exists (Push 0). split; [done|]. unfold step. rewrite Hi. by eexists.
Qed.

(** the pool fills up. After a take has kicked a refill of an undrained
    snapshot, and while restores succeed, the refill tasks always can move on,
    finish after a bounded number of sections in whatever order they are
    scheduled, and leave at least the configured number of VMs ready, so that
    the next take is served from the pool. *)
Theorem pool_fills_up per es m s m1 es' m2 :
  0 < per -> run (start per) es = Some m -> forallb no_failure es = true -> drains s es = false ->
  step m (Kick s) = Some m1 -> forallb refill_event es' = true -> run m1 es' = Some m2 ->
  (length es' <= work (tasks m1))%nat
  /\ (tasks m2 <> [] -> exists e, refill_event e = true /\ is_Some (step m2 e))
  /\ (tasks m2 = [] -> per <= WarmPool.depth s (pool m2) /\
      exists h m3, step m2 (Pop s) = Some m3 /\ handed m3 = handed m2 ++ [(s, h)]).
Proof.
  intros Hper Hr Hnf Hd Hk Hes Hr2.
  destruct (run_counted es _ _ _ (start_counted per) Hr) as [Hcnt Hp]. simpl in Hp.
  assert (Hh0 : healthy m) by (apply (run_healthy es (start per)); [constructor|done|done]).
  assert (Hh1 : healthy m1) by by apply (step_healthy m (Kick s)).
  destruct (step_counted _ m (Kick s) m1 Hcnt Hk) as [[_ Hc1] Hp1]. simpl in Hc1.
  specialize (Hc1 s ltac:(by rewrite orb_false_r)).
  destruct (refill_run s es' m1 m2 Hh1 Hes Hr2) as (Hh2 & Hw & Hdep & Hp2).
  split_and!; [lia|by apply refill_progress|]. intros Hnil. rewrite Hnil in Hdep.
  assert (Hcov : per <= WarmPool.depth s (pool m1) + WarmPool.flying s (pool m1)).
  { revert Hk. unfold step, WarmPool.kick_refill, WarmPool.reserve, WarmPool.is_disabled. rewrite Hp.
    destruct (Z.eqb_spec per 0); [lia|]. set (need := Z.max 0 _).
    destruct (Z.ltb_spec 0 need); intros [= <-]; simpl; [|lia].
    unfold WarmPool.flying, WarmPool.depth. simpl. rewrite lookup_insert_eq. simpl.
    unfold need, WarmPool.flying, WarmPool.depth. lia. }
  assert (Hle : count (reserving s) (tasks m1) <= count (of_snap s) (tasks m1)).
  { apply count_le. by intros [| |]. }
  assert (Hge : per <= WarmPool.depth s (pool m2)) by (change (count (of_snap s) []) with 0 in Hdep; lia).
  split; [done|]. unfold step, WarmPool.is_disabled, WarmPool.pop. rewrite Hp2, Hp1, Hp.
  destruct (Z.eqb_spec per 0); [lia|]. unfold WarmPool.depth in Hge.
  destruct (WarmPool.queues (pool m2) !! s) as [[|h q]|]; [unfold zlen in Hge; simpl in Hge; lia| |lia].
  by eexists h, _.
Qed.

Lemma pool_fills_up_witness :
  let es' := [Restore 0 (Some (VmHandle.mk 1 Created)); Release 0; Push 0] in
  match run (start 1) [Pop 7] with
  | None => False
  | Some m =>
      match step m (Kick 7) with
      | None => False
      | Some m1 =>
          match run m1 es' with
          | Some m2 => tasks m2 = [] /\ 1 <= WarmPool.depth 7 (pool m2)
          | None => False
          end
      end
  end.
Proof.
  intros es'. destruct (run (start 1) [Pop 7]) as [m|] eqn:Hr; [|discriminate].
  destruct (step m (Kick 7)) as [m1|] eqn:Hk; [|injection Hr as <-; discriminate].
  destruct (run m1 es') as [m2|] eqn:Hr2.
  2:{ injection Hr as <-. injection Hk as <-. discriminate. }
  assert (Ht : tasks m2 = []).
  { injection Hr as <-. injection Hk as <-. injection Hr2 as <-. reflexivity. }
  split; [exact Ht|].
  exact (proj1 (proj2 (proj2 (pool_fills_up 1 [Pop 7] m 7 m1 es' m2 ltac:(lia) Hr eq_refl eq_refl Hk eq_refl Hr2)) Ht)).
Defined.
