(* ===== verification/PoolCalls.v ===== *)
(** * The warm pool's calls ([crates/control-plane/src/warm_pool.rs])

    [take] and [drain] as they run among each other and among the refill tasks:
    a call holds the lock only for its sections, calls the hypervisor outside of
    it, and other threads run in between. A take returns the handle it popped; a
    drain destroys, one by one, the handles it took. *)

From Stdlib Require Import String.
From stdpp Require Import strings.
From S2P Require Import Prelude Io Str Fs VmCore VmMock WarmPool.

Local Open Scope Z_scope.

(** Where a call is. *)
Inductive TakeCall : Type :=
| TakeStart (snap : SnapshotId)
| TakePopped (snap : SnapshotId) (handle : option VmHandle.t)
| TakeReturned (snap : SnapshotId) (handle : option VmHandle.t).

Inductive DrainCall : Type :=
| DrainStart (snap : SnapshotId)
| Draining (snap : SnapshotId) (queue : list VmHandle.t)
| DrainReturned.

Module PoolCalls.
Section Calls.
Context {H : Type} `{!Hypervisor H}.

(** [destroyed] records the VMs [Hypervisor::destroy] was called for. *)
Record t : Type := mk {
  pool : WarmPool.t;
  hv : H;
  refills : list RefillTask;
  takes : list TakeCall;
  drains : list DrainCall;
  destroyed : list (SnapshotId * VmHandle.t);
}.

Definition start (per_snapshot : Z) (hv : H) : t := mk (WarmPool.new per_snapshot) hv [] [] [] [].

(** A section of [take], and the number of refill tasks it spawns. *)
Definition take_step (c : TakeCall) (p : WarmPool.t) : TakeCall * Z * WarmPool.t :=
  match c with
  | TakeStart snap =>
      if WarmPool.is_disabled p then (TakeReturned snap None, 0, p)
      else let (h, p) := WarmPool.pop snap p in (TakePopped snap h, 0, p)
  | TakePopped snap h =>
      let (needed, p) := WarmPool.kick_refill snap p in (TakeReturned snap h, needed, p)
  | TakeReturned _ _ => (c, 0, p)
  end.

(** A section of [drain], and the VM it calls [destroy] for. *)
Definition drain_step (c : DrainCall) (p : WarmPool.t) (hv : H)
  : DrainCall * list (SnapshotId * VmHandle.t) * WarmPool.t * H :=
  match c with
  | DrainStart snap => let (queue, p) := WarmPool.take_queue snap p in (Draining snap queue, [], p, hv)
  | Draining snap (h :: queue) => (Draining snap queue, [(snap, h)], p, (destroy (VmHandle.id h) hv).2)
  | Draining snap [] => (DrainReturned, [], p, hv)
  | DrainReturned => (c, [], p, hv)
  end.

(** A section of a refill task; [None] when the task has ended. *)
Definition refill_step (c : RefillTask) (p : WarmPool.t) (hv : H) : option RefillTask * WarmPool.t * H :=
  match c with
  | Spawned snap =>
      let (r, hv) := restore snap hv in
      (Some (Restored snap (match r with Ok h => Some h | Err _ => None end)), p, hv)
  | Restored snap (Some h) => (Some (Released snap h), WarmPool.release snap p, hv)
  | Restored snap None => (None, WarmPool.release snap p, hv)
  | Released snap h => (None, WarmPool.push_back snap h p, hv)
  end.

(** A call arrives, a call or a refill task takes a step, a restore panics, or
    something else changes the hypervisor. *)
Inductive event : Type :=
| Take (snap : SnapshotId)
| Drain (snap : SnapshotId)
| StepTake (i : nat)
| StepDrain (i : nat)
| StepRefill (i : nat)
| RestorePanics (i : nat)
| Outside (hv : H).

Definition replace (i : nat) (c : option RefillTask) (ts : list RefillTask) : list RefillTask :=
  match c with Some c => <[i := c]> ts | None => delete i ts end.

Definition step (m : t) (e : event) : option t :=
  match e with
  | Take snap => Some (mk (pool m) (hv m) (refills m) (takes m ++ [TakeStart snap]) (drains m) (destroyed m))
  | Drain snap => Some (mk (pool m) (hv m) (refills m) (takes m) (drains m ++ [DrainStart snap]) (destroyed m))
  | StepTake i =>
      c ← takes m !! i;
      let '(c', needed, p) := take_step c (pool m) in
      let snap := match c with TakeStart s | TakePopped s _ | TakeReturned s _ => s end in
      Some (mk p (hv m) (refills m ++ replicate (Z.to_nat needed) (Spawned snap)) (<[i := c']> (takes m)) (drains m) (destroyed m))
  | StepDrain i =>
      c ← drains m !! i;
      let '(c, gone, p, h) := drain_step c (pool m) (hv m) in
      Some (mk p h (refills m) (takes m) (<[i := c]> (drains m)) (destroyed m ++ gone))
  | StepRefill i =>
      c ← refills m !! i;
      let '(c, p, h) := refill_step c (pool m) (hv m) in
      Some (mk p h (replace i c (refills m)) (takes m) (drains m) (destroyed m))
  | RestorePanics i =>
      match refills m !! i with
      | Some (Spawned snap) =>
          Some (mk (pool m) (hv m) (<[i := Restored snap None]> (refills m)) (takes m) (drains m) (destroyed m))
      | _ => None
      end
  | Outside h => Some (mk (pool m) h (refills m) (takes m) (drains m) (destroyed m))
  end.

Fixpoint run (m : t) (es : list event) : option t :=
  match es with
  | [] => Some m
  | e :: es => m ← step m e; run m es
  end.

(** The VMs the refill tasks' restores gave along a run. *)
Definition births (m : t) (e : event) : list (SnapshotId * VmHandle.t) :=
  match e with
  | StepRefill i =>
      match refills m !! i with
      | Some (Spawned snap) => match (restore snap (hv m)).1 with Ok h => [(snap, h)] | Err _ => [] end
      | _ => []
      end
  | _ => []
  end.

Fixpoint restored (m : t) (es : list event) : list (SnapshotId * VmHandle.t) :=
  match es with
  | [] => []
  | e :: es => births m e ++ match step m e with Some m => restored m es | None => [] end
  end.
End Calls.
Arguments t : clear implicits.
End PoolCalls.

(** ** Where the VMs are *)

Section Conservation.
Context {H : Type} `{!Hypervisor H}.
Import PoolCalls.
Implicit Types (m : PoolCalls.t H) (e : event (H := H)).
Abbreviation vms := (list (SnapshotId * VmHandle.t)).

(** The handles takes have returned, those popped and not yet returned, and
    those drains have taken and not yet destroyed. *)
Definition returned_vm (c : TakeCall) : vms := match c with TakeReturned s (Some h) => [(s, h)] | _ => [] end.
Definition popped_vm (c : TakeCall) : vms := match c with TakePopped s (Some h) => [(s, h)] | _ => [] end.
Definition draining_vms (c : DrainCall) : vms := match c with Draining s q => pairs s q | _ => [] end.

Definition returned m : vms := concat (returned_vm <$> takes m).
Definition popped m : vms := concat (popped_vm <$> takes m).
Definition draining m : vms := concat (draining_vms <$> drains m).

Definition places m : vms :=
  returned m ++ popped m ++ destroyed m ++ draining m ++ queued (pool m) ++ held (refills m).

Lemma concat_insert {A B} (f : A -> list B) l i x x' :
  l !! i = Some x -> f x ++ concat (f <$> <[i := x']> l) ≡ₚ f x' ++ concat (f <$> l).
Proof.
  intros Hi. rewrite <- (take_drop_middle l i x Hi) at 2. rewrite insert_take_drop by (by eapply lookup_lt_Some).
  rewrite !fmap_app, !concat_app. simpl. solve_Permutation.
Qed.

Lemma concat_snoc_nil {A B} (f : A -> list B) l x : f x = [] -> concat (f <$> l ++ [x]) = concat (f <$> l).
Proof. intros Hx. rewrite fmap_app, concat_app. simpl. by rewrite Hx, !app_nil_r. Qed.

(** The sections of the pool, from the machine of its locked sections. *)
Lemma section_vms p ts ev p' ts' hd rp :
  PoolMachine.step (PoolMachine.mk p ts [] []) ev = Some (PoolMachine.mk p' ts' hd rp) ->
  WarmPool.births (PoolMachine.mk p ts [] []) ev ++ queued p ++ held ts ≡ₚ hd ++ rp ++ queued p' ++ held ts'.
Proof. intros Hs%step_conserves. exact Hs. Qed.

Lemma take_step_vms c p ts c' needed p' s :
  s = (match c with TakeStart s | TakePopped s _ | TakeReturned s _ => s end) -> take_step c p = (c', needed, p') ->
  returned_vm c ++ popped_vm c ++ queued p ++ held ts ≡ₚ
  returned_vm c' ++ popped_vm c' ++ queued p' ++ held (ts ++ replicate (Z.to_nat needed) (Spawned s)).
Proof.
  intros -> Hs. destruct c as [s|s h|s h]; simpl in Hs.
  - destruct (WarmPool.is_disabled p) eqn:Hd; [injection Hs as <- <- <-; simpl; by rewrite app_nil_r|].
    destruct (WarmPool.pop s p) as [h p1] eqn:Hp. injection Hs as <- <- <-. simpl. rewrite app_nil_r.
    rewrite (section_vms p ts (Pop s) p1 ts (option_list ((fun h => (s, h)) <$> h)) []); [by destruct h|].
    simpl. rewrite Hd, Hp. by destruct h.
  - destruct (WarmPool.kick_refill s p) as [n p1] eqn:Hk. injection Hs as <- <- <-. simpl.
    rewrite (section_vms p ts (Kick s) p1 (ts ++ replicate (Z.to_nat n) (Spawned s)) [] []); [by destruct h|].
    simpl. by rewrite Hk.
  - injection Hs as <- <- <-. simpl. by rewrite app_nil_r.
Qed.

Lemma drain_step_vms c p hv c' gone p' hv' :
  drain_step c p hv = (c', gone, p', hv') -> draining_vms c ++ queued p ≡ₚ gone ++ draining_vms c' ++ queued p'.
Proof.
  destruct c as [s|s [|h q]|]; simpl; try (intros [= <- <- <- <-]; done). intros [= <- <- <- <-]. simpl.
  unfold queued. simpl. by rewrite <- queued_default.
Qed.

Lemma refill_step_vms c i p ts hv c' p' hv' :
  ts !! i = Some c -> refill_step c p hv = (c', p', hv') ->
  (match c with Spawned s => match (restore s hv).1 with Ok h => [(s, h)] | Err _ => [] end | _ => [] end)
    ++ queued p ++ held ts ≡ₚ queued p' ++ held (replace i c' ts).
Proof.
  intros Hi Hs. destruct c as [s|s [h|]|s h]; simpl in Hs.
  - destruct (restore s hv) as [r hv1]. injection Hs as <- <- <-. cbn [fst].
    set (o := match r with Ok h => Some h | Err _ => None end).
    assert (Hst : PoolMachine.step (PoolMachine.mk p ts [] []) (Restore i o)
      = Some (PoolMachine.mk p (<[i := Restored s o]> ts) [] [])) by (unfold PoolMachine.step; cbn [tasks PoolMachine.pool]; by rewrite Hi).
    apply section_vms in Hst. simpl in Hst. rewrite Hi in Hst. by destruct r.
  - injection Hs as <- <- <-. apply (section_vms p ts (Release i) _ (<[i := Released s h]> ts) [] []). unfold PoolMachine.step. simpl. by rewrite Hi.
  - injection Hs as <- <- <-. apply (section_vms p ts (Release i) _ (delete i ts) [] []). unfold PoolMachine.step. simpl. by rewrite Hi.
  - injection Hs as <- <- <-. apply (section_vms p ts (Push i) _ (delete i ts) [] []). unfold PoolMachine.step. simpl. by rewrite Hi.
Qed.

(** Two lists that trade elements with a third. *)
Lemma trade {A} (r r' R R' p p' P P' Q Q' D : list A) :
  r ++ R' ≡ₚ r' ++ R -> p ++ P' ≡ₚ p' ++ P -> r ++ p ++ Q ≡ₚ r' ++ p' ++ Q' -> R ++ P ++ D ++ Q ≡ₚ R' ++ P' ++ D ++ Q'.
Proof.
  intros HR HP HQ. apply (Permutation_app_inv_l (r ++ p)).
  transitivity ((R ++ P ++ D) ++ (r ++ p ++ Q)); [solve_Permutation|]. rewrite HQ.
  transitivity ((r' ++ R) ++ (p' ++ P) ++ D ++ Q'); [solve_Permutation|]. rewrite <- HR, <- HP. solve_Permutation.
Qed.

Lemma call_step_conserves m e m' : step m e = Some m' -> births m e ++ places m ≡ₚ places m'.
Proof.
  unfold places, returned, popped, draining. destruct e as [s|s|i|i|i|i|h]; unfold step, births.
  - intros [= <-]. simpl. by rewrite !concat_snoc_nil.
  - intros [= <-]. simpl. by rewrite concat_snoc_nil.
  - destruct (takes m !! i) as [c|] eqn:Hi; [|done]. cbn [mbind option_bind].
    destruct (take_step c (pool m)) as [[c' n] p] eqn:Hs. intros [= <-]. simpl. rewrite !(app_assoc (destroyed m)).
    eapply trade; [exact (concat_insert returned_vm _ _ _ c' Hi)|exact (concat_insert popped_vm _ _ _ c' Hi)|].
    by apply take_step_vms.
  - destruct (drains m !! i) as [c|] eqn:Hi; [|done]. cbn [mbind option_bind].
    destruct (drain_step c (pool m) (hv m)) as [[[c' gone] p] h'] eqn:Hs. intros [= <-]. simpl.
    apply drain_step_vms in Hs. do 2 f_equiv. rewrite <- !app_assoc. f_equiv.
    rewrite !(app_assoc (concat _)). rewrite !(app_assoc gone). f_equiv.
    apply (Permutation_app_inv_l (draining_vms c)).
    transitivity (concat (draining_vms <$> drains m) ++ (draining_vms c ++ queued (pool m))); [solve_Permutation|]. rewrite Hs.
    transitivity (gone ++ (draining_vms c' ++ concat (draining_vms <$> drains m)) ++ queued p); [solve_Permutation|].
    rewrite <- (concat_insert draining_vms _ _ _ c' Hi). solve_Permutation.
  - destruct (refills m !! i) as [c|] eqn:Hi; [|done]. cbn [mbind option_bind].
    destruct (refill_step c (pool m) (hv m)) as [[c' p] h'] eqn:Hs. intros [= <-]. simpl.
    apply (refill_step_vms _ i _ (refills m)) in Hs; [|done]. rewrite <- Hs. solve_Permutation.
  - destruct (refills m !! i) as [[s| |]|] eqn:Hi; try done. intros [= <-]. simpl. do 5 f_equiv.
    by rewrite (held_split _ _ _ Hi), (held_insert _ _ _ _ Hi).
  - intros [= <-]. done.
Qed.

Lemma call_run_conserves es : forall m m', run m es = Some m' -> restored m es ++ places m ≡ₚ places m'.
Proof.
  induction es as [|e es IH]; intros m m'; simpl; [by intros [= ->]|].
  destruct (step m e) as [m1|] eqn:Hs; [|done]. simpl. intros Hr. rewrite <- (IH m1 m' Hr).
  rewrite <- (call_step_conserves m e m1 Hs). solve_Permutation.
Qed.

(** A call that runs alone is the function. *)
Lemma take_alone snap p :
  let '(c1, n1, p1) := take_step (TakeStart snap) p in
  let '(c2, n2, p2) := take_step c1 p1 in
  let '(h, needed, p') := WarmPool.take snap p in
  c2 = TakeReturned snap h /\ n1 + n2 = needed /\ p2 = p'.
Proof.
  simpl. unfold WarmPool.take. destruct (WarmPool.is_disabled p) eqn:Hd; [done|].
  destruct (WarmPool.pop snap p) as [h p1]. simpl. by destruct (WarmPool.kick_refill snap p1) as [n p2].
Qed.

(** The rest of a drain, run to its end: the VMs destroyed, the pool and the
    hypervisor. *)
Fixpoint finish_drain (n : nat) (c : DrainCall) (p : WarmPool.t) (hv : H) : DrainCall * vms * WarmPool.t * H :=
  match n with
  | O => (c, [], p, hv)
  | S n =>
      let '(c, gone, p, hv) := drain_step c p hv in
      let '(c, gone', p, hv) := finish_drain n c p hv in (c, gone ++ gone', p, hv)
  end.

Lemma drain_loop_alone snap q p : forall hv,
  finish_drain (S (length q)) (Draining snap q) p hv = (DrainReturned, pairs snap q, p, WarmPool.destroy_all q hv).
Proof.
  induction q as [|h q IH]; intros hv; [done|]. cbn [length finish_drain drain_step].
  change (match q with [] => _ | _ => _ end) with (drain_step (Draining snap q) p (destroy (VmHandle.id h) hv).2).
  specialize (IH (destroy (VmHandle.id h) hv).2). cbn [finish_drain] in IH.
  destruct (drain_step (Draining snap q) p _) as [[[c gone] p1] hv1].
  destruct (finish_drain (length q) c p1 hv1) as [[[c2 gone2] p2] hv2]. injection IH as -> Hg -> ->. simpl. by rewrite Hg.
Qed.

Lemma drain_alone snap p hv :
  let queue := default [] (WarmPool.queues p !! snap) in
  let (p', hv') := WarmPool.drain snap p hv in
  finish_drain (S (S (length queue))) (DrainStart snap) p hv = (DrainReturned, pairs snap queue, p', hv').
Proof.
  intros queue. unfold WarmPool.drain. cbn [WarmPool.take_queue]. fold queue.
  remember (S (length queue)) as n eqn:Hn. cbn [finish_drain drain_step WarmPool.take_queue]. fold queue.
  by rewrite Hn, drain_loop_alone.
Qed.
End Conservation.

(** C30: no pre-warmed VM is lost or handed out twice. Over every interleaving
    of takes, drains and refill tasks, each holding the lock only for its
    sections and calling the hypervisor in between, with anything else happening
    to the hypervisor: the VMs the refills restored are exactly those the takes
    have returned or are about to return, those the drains have called [destroy]
    for or are about to, those queued and those held by unfinished refills, each
    in one place; so none is returned twice, or returned and destroyed. A take
    whose sections run without a gap is [take], and a drain's are [drain]: it
    destroys every VM it found queued, and leaves the hypervisor as these calls
    do. *)
Theorem pool_conserves_vms {H : Type} `{!Hypervisor H} per (hv0 : H) es (m : PoolCalls.t H) :
  PoolCalls.run (PoolCalls.start per hv0) es = Some m ->
  (PoolCalls.restored (PoolCalls.start per hv0) es ≡ₚ
     returned m ++ popped m ++ PoolCalls.destroyed m ++ draining m ++ queued (PoolCalls.pool m) ++ held (PoolCalls.refills m)) /\
  (NoDup (snd <$> PoolCalls.restored (PoolCalls.start per hv0) es) ->
     NoDup (snd <$> returned m ++ PoolCalls.destroyed m)) /\
  (forall snap p,
     let '(c1, n1, p1) := PoolCalls.take_step (TakeStart snap) p in
     let '(c2, n2, p2) := PoolCalls.take_step c1 p1 in
     let '(h, needed, p') := WarmPool.take snap p in
     c2 = TakeReturned snap h /\ n1 + n2 = needed /\ p2 = p') /\
  (forall snap p hv,
     let queue := default [] (WarmPool.queues p !! snap) in
     let (p', hv') := WarmPool.drain snap p hv in
     finish_drain (S (S (length queue))) (DrainStart snap) p hv = (DrainReturned, pairs snap queue, p', hv')).
Proof.
  intros Hr. pose proof (call_run_conserves es _ m Hr) as Hp. unfold places at 1 in Hp. simpl in Hp.
  rewrite app_nil_r in Hp. unfold places in Hp. split_and!.
  - exact Hp.
  - rewrite Hp. intros Hnd. assert (Hc : snd <$> returned m ++ popped m ++ PoolCalls.destroyed m ++ draining m
        ++ queued (PoolCalls.pool m) ++ held (PoolCalls.refills m) ≡ₚ
      (snd <$> returned m ++ PoolCalls.destroyed m) ++ (snd <$> popped m ++ draining m
        ++ queued (PoolCalls.pool m) ++ held (PoolCalls.refills m))).
    { rewrite <- fmap_app. apply fmap_Permutation. solve_Permutation. }
    rewrite Hc in Hnd. by apply NoDup_app in Hnd as [? _].
  - apply take_alone.
  - apply drain_alone.
Qed.

(** One VM is kept warm: the first take misses and starts a refill, the second
    gets its VM, and a drain destroys the next one. *)
Module PoolSample.
Import PoolCalls.
#[local] Instance manifests : Serde string Manifest.t := no_serde.
#[local] Instance mock : Hypervisor (MockHypervisor.t FlatFs.t) := MockHypervisor.mock_hypervisor no_run "/tmp" "7".
Definition hv0 : MockHypervisor.t FlatFs.t :=
  MockHypervisor.mk ∅ {[7 := MockSnapshot.mk VmConfig.default Running]} 1 8 ∅.
Definition refill : list (event (H := MockHypervisor.t FlatFs.t)) := [StepRefill 0; StepRefill 0; StepRefill 0].
Definition es : list (event (H := MockHypervisor.t FlatFs.t)) :=
  [Take 7; StepTake 0; StepTake 0] ++ refill ++ [Take 7; StepTake 1; StepTake 1] ++ refill
    ++ [Drain 7; StepDrain 0; StepDrain 0; StepDrain 0].

Lemma pool_conserves_vms_witness :
  match run (start 1 hv0) es with
  | Some m => restored (start 1 hv0) es ≡ₚ
      returned m ++ popped m ++ destroyed m ++ draining m ++ queued (pool m) ++ held (refills m)
      /\ VmHandle.id <$> (returned m).*2 = [1] /\ VmHandle.id <$> (destroyed m).*2 = [2]
      /\ MockHypervisor.vms (hv m) !! 2 = None
  | None => False
  end.
Proof.
  destruct (run (start 1 hv0) es) as [m|] eqn:Hr; [|vm_compute in Hr; discriminate Hr].
  split; [apply (pool_conserves_vms 1 hv0 es m Hr)|].
  assert (Hm : Some m = run (start 1 hv0) es) by (by symmetry). vm_compute in Hm. injection Hm as ->.
  vm_compute. split_and!; reflexivity.
Defined.
End PoolSample.
