(* ===== verification/Api.v ===== *)
(** * Requests and responses of the REST interface
    ([crates/control-plane/src/api.rs])

    The bodies as records after and before JSON, their defaults and their
    conversions to and from the types of [vm-core]. *)

From Stdlib Require Import Ascii String.
From stdpp Require Import strings pretty.
From S2P Require Import Prelude Str VmCore ApiError.

Local Open Scope string_scope.
Local Open Scope Z_scope.

Inductive NetBackendRequest : Type := ReqMock | ReqSmoltcp.

Definition net_backend_choice (r : NetBackendRequest) : NetBackendChoice :=
  match r with ReqMock => NetMock | ReqSmoltcp => NetSmoltcp end.

Definition default_vcpus : Z := 1.
Definition default_memory_mib : Z := 128.
Definition default_file_mode : Z := 420.

Module CreateVmRequest.
Record t : Type := mk {
  vcpus : Z;
  memory_mib : Z;
  kernel : option string;
  rootfs : option string;
  cmdline : string;
  vsock_cid : option Z;
  snapshot_dir : option string;
  net_backend : option NetBackendRequest;
}.

Definition into_config (r : t) : VmConfig.t := {|
  VmConfig.vcpus := vcpus r;
  VmConfig.memory_mib := memory_mib r;
  VmConfig.kernel := kernel r;
  VmConfig.flat_binary := None;
  VmConfig.initrd := None;
  VmConfig.rootfs := rootfs r;
  VmConfig.cmdline := cmdline r;
  VmConfig.vsock_cid := vsock_cid r;
  VmConfig.snapshot_dir := snapshot_dir r;
  VmConfig.net_backend := default NetMock (net_backend_choice <$> net_backend r);
|}.
End CreateVmRequest.

Module VmConfigDefaults.
Record t : Type := mk { kernel : option string; rootfs : option string; cmdline : option string }.

Definition non_empty (v : option string) : option string :=
  s ← v; if String.eqb s "" then None else Some s.

Definition from_env (kernel rootfs cmdline : option string) : t :=
  mk (non_empty kernel) (non_empty rootfs) (non_empty cmdline).

Definition apply_to (d : t) (cfg : VmConfig.t) : VmConfig.t := {|
  VmConfig.vcpus := VmConfig.vcpus cfg;
  VmConfig.memory_mib := VmConfig.memory_mib cfg;
  VmConfig.kernel := match VmConfig.kernel cfg with None => kernel d | k => k end;
  VmConfig.flat_binary := VmConfig.flat_binary cfg;
  VmConfig.initrd := VmConfig.initrd cfg;
  VmConfig.rootfs := match VmConfig.rootfs cfg with None => rootfs d | r => r end;
  VmConfig.cmdline :=
    if String.eqb (VmConfig.cmdline cfg) "" then default (VmConfig.cmdline cfg) (cmdline d)
    else VmConfig.cmdline cfg;
  VmConfig.vsock_cid := VmConfig.vsock_cid cfg;
  VmConfig.snapshot_dir := VmConfig.snapshot_dir cfg;
  VmConfig.net_backend := VmConfig.net_backend cfg;
|}.
End VmConfigDefaults.

Module VmHandleDto.
Record t : Type := mk { id : Z; display : string; state : VmState }.
Definition from (h : VmHandle.t) : t := mk (VmHandle.id h) (display_vm_id (VmHandle.id h)) (VmHandle.state h).
End VmHandleDto.

Module ForkResponseDto.
Record t : Type := mk { vm : VmHandleDto.t; fork_ms : Z; fork_count : Z; fork_total_ms : Z }.
End ForkResponseDto.

Module UsageResponseDto.
Record t : Type := mk { token : string; fork_count : Z; fork_total_ms : Z }.
End UsageResponseDto.

Module VmListEntry.
Record t : Type := mk {
  id : Z;
  display : string;
  state : VmState;
  vcpus : option Z;
  memory_mib : option Z;
  kernel_cmdline : option string;
  snapshot_dir : option string;
}.

Definition id_only (h : VmHandle.t) : t :=
  mk (VmHandle.id h) (display_vm_id (VmHandle.id h)) (VmHandle.state h) None None None None.

Definition from_meta (m : VmMeta.t) : t :=
  mk (VmMeta.id m) (display_vm_id (VmMeta.id m)) (VmMeta.state m) (Some (VmMeta.vcpus m))
    (Some (VmMeta.memory_mib m)) (Some (VmMeta.kernel_cmdline m)) (VmMeta.snapshot_dir m).
End VmListEntry.

Module VmListResponse.
Record t : Type := mk { vms : list VmListEntry.t; next : option Z }.
End VmListResponse.

Module VmStateResponse.
Record t : Type := mk { id : Z; display : string; state : VmState }.
Definition new (id : VmId) (state : VmState) : t := mk id (display_vm_id id) state.
End VmStateResponse.

Definition DEFAULT_LIST_LIMIT : Z := 100.
Definition MAX_LIST_LIMIT : Z := 1000.

Module ListQuery.
Record t : Type := mk { limit : option Z; after : option Z }.

Definition validated_limit (q : t) : result ApiError Z :=
  match limit q with
  | None => Ok DEFAULT_LIST_LIMIT
  | Some n =>
      if n =? 0 then Err (Bad "limit must be >= 1")
      else if MAX_LIST_LIMIT <? n then Err (Bad ("limit must be <= " +:+ pretty MAX_LIST_LIMIT))
      else Ok n
  end.
End ListQuery.

Module SnapshotRequest.
Record t : Type := mk { to_dir : option string }.
Definition default : t := mk None.
End SnapshotRequest.

Module SnapshotDto.
Record t : Type := mk { id : Z; display : string; dir : option string }.
Definition from (s : SnapshotId) : t := mk s (display_snapshot_id s) None.
End SnapshotDto.

Module SnapshotListEntry.
Record t : Type := mk {
  id : Z;
  display : string;
  vcpu_count : option Z;
  memory_bytes : option Z;
  page_size : option Z;
  kernel_cmdline : option string;
}.

Definition id_only (s : SnapshotId) : t := mk s (display_snapshot_id s) None None None None.

Definition from_meta (m : SnapshotMeta.t) : t :=
  mk (SnapshotMeta.id m) (display_snapshot_id (SnapshotMeta.id m)) (Some (SnapshotMeta.vcpu_count m))
    (Some (SnapshotMeta.memory_bytes m)) (Some (SnapshotMeta.page_size m))
    (Some (SnapshotMeta.kernel_cmdline m)).
End SnapshotListEntry.

Module SnapshotListResponse.
Record t : Type := mk { snapshots : list SnapshotListEntry.t; next : option Z }.
End SnapshotListResponse.

Module ExecRequest.
Record t : Type := mk {
  program : string;
  args : list string;
  cwd : option string;
  env : list (string * string);
  timeout_ms : option Z;
}.

Definition into_guest (r : t) : GuestExecRequest.t :=
  GuestExecRequest.mk (program r) (args r) (cwd r) (env r) (timeout_ms r).
End ExecRequest.

Module ExecResponse.
Record t : Type := mk {
  exit_code : option Z;
  signal : option Z;
  stdout : string;
  stderr : string;
  duration_ms : Z;
}.

Definition from (r : GuestExecResult.t) : t :=
  mk (GuestExecResult.exit_code r) (GuestExecResult.signal r)
    (from_utf8_lossy (GuestExecResult.stdout r)) (from_utf8_lossy (GuestExecResult.stderr r))
    (GuestExecResult.duration_ms r).
End ExecResponse.

Module FileWriteRequest.
Record t : Type := mk { path : string; content : bytes; mode : Z }.
End FileWriteRequest.
