(* ===== verification/Ownership.v ===== *)
(** * Ownership of VMs and snapshots ([crates/control-plane/src/ownership.rs])

    The storage interface with its laws, the in-memory store that meets them,
    and the facade the handlers use. The other shipped store is a database. *)

From Stdlib Require Import Ascii String.
From stdpp Require Import strings pretty.
From S2P Require Import Prelude Io Str Fs VmCore ApiError Auth.

Local Open Scope string_scope.
Local Open Scope Z_scope.

Inductive OwnershipStoreError : Type := StoreBackend (message : string).

Class OwnershipStore (O : Type) := {
  record_vm : VmId -> OrgId -> SM O OwnershipStoreError unit;
  record_snapshot : SnapshotId -> OrgId -> SM O OwnershipStoreError unit;
  forget_vm : VmId -> SM O OwnershipStoreError unit;
  forget_snapshot : SnapshotId -> SM O OwnershipStoreError unit;
  vm_owner : O -> VmId -> option OrgId;
  snapshot_owner : O -> SnapshotId -> option OrgId;
  vms_owned_by : O -> OrgId -> gset VmId;
  snapshots_owned_by : O -> OrgId -> gset SnapshotId;
}.

(** The documented contract: recording inserts or overwrites one owner,
    forgetting removes one, a call that fails changes nothing. *)
Class OwnershipStoreLaws (O : Type) `{!OwnershipStore O} := {
  record_vm_owner vm org s r s' v :
    record_vm vm org s = (r, s') ->
    vm_owner s' v = (if is_ok r && (v =? vm) then Some org else vm_owner s v)
    /\ forall p, snapshot_owner s' p = snapshot_owner s p;
  record_snapshot_owner snap org s r s' p :
    record_snapshot snap org s = (r, s') ->
    snapshot_owner s' p = (if is_ok r && (p =? snap) then Some org else snapshot_owner s p)
    /\ forall v, vm_owner s' v = vm_owner s v;
  forget_vm_owner vm s r s' v :
    forget_vm vm s = (r, s') ->
    vm_owner s' v = (if is_ok r && (v =? vm) then None else vm_owner s v)
    /\ forall p, snapshot_owner s' p = snapshot_owner s p;
  forget_snapshot_owner snap s r s' p :
    forget_snapshot snap s = (r, s') ->
    snapshot_owner s' p = (if is_ok r && (p =? snap) then None else snapshot_owner s p)
    /\ forall v, vm_owner s' v = vm_owner s v;
  vms_owned_spec s org v : v ∈ vms_owned_by s org <-> vm_owner s v = Some org;
  snapshots_owned_spec s org p : p ∈ snapshots_owned_by s org <-> snapshot_owner s p = Some org;
}.

Module InMemoryStore.
Record t : Type := mk { vms : gmap VmId OrgId; snapshots : gmap SnapshotId OrgId }.

Definition default : t := mk ∅ ∅.

Definition record_vm (vm : VmId) (org : OrgId) : SM t OwnershipStoreError unit :=
  sm_modify (fun s => mk (<[vm := org]> (vms s)) (snapshots s)).
Definition record_snapshot (snap : SnapshotId) (org : OrgId) : SM t OwnershipStoreError unit :=
  sm_modify (fun s => mk (vms s) (<[snap := org]> (snapshots s))).
Definition forget_vm (vm : VmId) : SM t OwnershipStoreError unit :=
  sm_modify (fun s => mk (delete vm (vms s)) (snapshots s)).
Definition forget_snapshot (snap : SnapshotId) : SM t OwnershipStoreError unit :=
  sm_modify (fun s => mk (vms s) (delete snap (snapshots s))).
Definition vm_owner (s : t) (vm : VmId) : option OrgId := vms s !! vm.
Definition snapshot_owner (s : t) (snap : SnapshotId) : option OrgId := snapshots s !! snap.
Definition vms_owned_by (s : t) (org : OrgId) : gset VmId :=
  dom (filter (fun '(_, o) => o = org) (vms s)).
Definition snapshots_owned_by (s : t) (org : OrgId) : gset SnapshotId :=
  dom (filter (fun '(_, o) => o = org) (snapshots s)).

#[global] Instance in_memory_store : OwnershipStore t := {|
  Ownership.record_vm := record_vm;
  Ownership.record_snapshot := record_snapshot;
  Ownership.forget_vm := forget_vm;
  Ownership.forget_snapshot := forget_snapshot;
  Ownership.vm_owner := vm_owner;
  Ownership.snapshot_owner := snapshot_owner;
  Ownership.vms_owned_by := vms_owned_by;
  Ownership.snapshots_owned_by := snapshots_owned_by |}.

Lemma owned_spec (m : gmap Z OrgId) org (v : Z) :
  v ∈ (dom (filter (fun '(_, o) => o = org) m) : gset Z) <-> m !! v = Some org.
Proof.
  rewrite elem_of_dom. split.
  - intros [o [Hl ->]%map_lookup_filter_Some]. done.
  - intros Hl. exists org. by apply map_lookup_filter_Some.
Qed.

#[global] Instance in_memory_store_laws : OwnershipStoreLaws t.
Proof.
  split.
  - intros vm org s r s' v [= <- <-]. split; [|done]. cbn. unfold vm_owner. cbn [vms].
    destruct (Z.eqb_spec v vm) as [-> |]; [by rewrite lookup_insert_eq|by rewrite lookup_insert_ne].
  - intros snap org s r s' p [= <- <-]. split; [|done]. cbn. unfold snapshot_owner. cbn [snapshots].
    destruct (Z.eqb_spec p snap) as [-> |]; [by rewrite lookup_insert_eq|by rewrite lookup_insert_ne].
  - intros vm s r s' v [= <- <-]. split; [|done]. cbn. unfold vm_owner. cbn [vms].
    destruct (Z.eqb_spec v vm) as [-> |]; [by rewrite lookup_delete_eq|by rewrite lookup_delete_ne].
  - intros snap s r s' p [= <- <-]. split; [|done]. cbn. unfold snapshot_owner. cbn [snapshots].
    destruct (Z.eqb_spec p snap) as [-> |]; [by rewrite lookup_delete_eq|by rewrite lookup_delete_ne].
  - intros s org v. apply owned_spec.
  - intros s org p. apply owned_spec.
Qed.
End InMemoryStore.

(** The facade: a failing backend is logged and the call counts as done; an
    unrecorded resource belongs to the default organisation. *)
Module OwnershipMap.
Section Facade.
Context {O : Type} `{!OwnershipStore O}.

Definition record_vm (vm : VmId) (org : OrgId) (s : O) : O := (Ownership.record_vm vm org s).2.
Definition record_snapshot (snap : SnapshotId) (org : OrgId) (s : O) : O :=
  (Ownership.record_snapshot snap org s).2.
Definition forget_vm (vm : VmId) (s : O) : O := (Ownership.forget_vm vm s).2.
Definition forget_snapshot (snap : SnapshotId) (s : O) : O := (Ownership.forget_snapshot snap s).2.

Definition vm_owner (s : O) (vm : VmId) : OrgId := default default_org (Ownership.vm_owner s vm).
Definition snapshot_owner (s : O) (snap : SnapshotId) : OrgId :=
  default default_org (Ownership.snapshot_owner s snap).

Definition require_vm_access (s : O) (vm : VmId) (caller : OrgId) : result ApiError unit :=
  if String.eqb (vm_owner s vm) caller then Ok tt
  else Err (Forbidden "cross_org"
              ("vm " +:+ pretty vm +:+ " is owned by a different org; refusing cross-org access")).

Definition require_snapshot_access (s : O) (snap : SnapshotId) (caller : OrgId) : result ApiError unit :=
  if String.eqb (snapshot_owner s snap) caller then Ok tt
  else Err (Forbidden "cross_org"
              ("snapshot " +:+ pretty snap +:+ " is owned by a different org; refusing cross-org access")).
End Facade.

(** The environment variable that selects the store; this is the build without
    the database, where setting it is an error. *)
Inductive EnvVar : Type := EnvNotPresent | EnvNotUnicode (debug : string) | EnvValue (spec : string).

Definition from_env (var : EnvVar) : result OwnershipStoreError InMemoryStore.t :=
  match var with
  | EnvNotPresent => Ok InMemoryStore.default
  | EnvNotUnicode debug =>
      Err (StoreBackend ("NANOVM_OWNERSHIP_STORE is not valid UTF-8: " +:+ debug))
  | EnvValue spec =>
      if String.eqb spec "" then Ok InMemoryStore.default
      else Err (StoreBackend "NANOVM_OWNERSHIP_STORE is set but this binary was built without the `sqlite` feature. Rebuild `control-plane` with `--features sqlite`, or unset the env var to fall back to the in-memory store.")
  end.

Definition caller_is_default (caller : OrgId) : bool := String.eqb caller default_org.
End OwnershipMap.
