(* ===== verification/HvCalls.v ===== *)
(** * What a hypervisor call may touch

    The calls of the [Hypervisor] trait as data, the resource each one is about,
    and the contract the handlers rely on: a call changes no VM and no snapshot
    but the one it is about, and the ids it gives out are new. The in-memory
    hypervisor meets the contract. *)

From Stdlib Require Import Ascii String.
From stdpp Require Import strings.
From S2P Require Import Prelude Io Fs VmCore VmMock.

Local Open Scope Z_scope.

Inductive HvCall : Type -> Type :=
| CCreate (cfg : VmConfig.t) : HvCall VmHandle.t
| CStart (id : VmId) : HvCall unit
| CStop (id : VmId) : HvCall unit
| CState (id : VmId) : HvCall VmState
| CSnapshot (id : VmId) : HvCall SnapshotId
| CRestore (snap : SnapshotId) : HvCall VmHandle.t
| CDestroy (id : VmId) : HvCall unit
| CListVms : HvCall (list VmHandle.t)
| CListSnapshots : HvCall (list SnapshotId)
| CDeleteSnapshot (snap : SnapshotId) : HvCall unit
| CSnapshotMeta (snap : SnapshotId) : HvCall SnapshotMeta.t
| CExportDir (snap : SnapshotId) : HvCall (option string)
| CAdopt (dir : string) : HvCall SnapshotId
| CVmMeta (id : VmId) : HvCall VmMeta.t
| CExec (id : VmId) (req : GuestExecRequest.t) : HvCall GuestExecResult.t
| CWrite (id : VmId) (path : string) (content : bytes) (mode : Z) : HvCall Z
| CRead (id : VmId) (path : string) : HvCall bytes.

Definition call {H} `{!Hypervisor H} {A} (c : HvCall A) : SM H VmError A :=
  match c in HvCall A return SM H VmError A with
  | CCreate cfg => create_vm cfg
  | CStart id => start id
  | CStop id => stop id
  | CState id => state id
  | CSnapshot id => snapshot id
  | CRestore snap => restore snap
  | CDestroy id => destroy id
  | CListVms => list_vms
  | CListSnapshots => list_snapshots
  | CDeleteSnapshot snap => delete_snapshot snap
  | CSnapshotMeta snap => snapshot_meta snap
  | CExportDir snap => snapshot_export_dir snap
  | CAdopt dir => snapshot_adopt dir
  | CVmMeta id => vm_meta id
  | CExec id req => exec_in_guest id req
  | CWrite id path content mode => write_file id path content mode
  | CRead id path => read_file id path
  end.

(** The existing VM, or snapshot, a call may change; restoring leaves the
    snapshot as it is. *)
Definition vm_target {A} (c : HvCall A) : option VmId :=
  match c with
  | CStart id | CStop id | CState id | CSnapshot id | CDestroy id | CVmMeta id
  | CExec id _ | CWrite id _ _ _ | CRead id _ => Some id
  | _ => None
  end.

Definition snap_target {A} (c : HvCall A) : option SnapshotId :=
  match c with
  | CDeleteSnapshot p | CSnapshotMeta p | CExportDir p => Some p
  | _ => None
  end.

(** The id a call gives out with its answer. *)
Definition born_vm {A} (c : HvCall A) : A -> option VmId :=
  match c in HvCall A return A -> option VmId with
  | CCreate _ | CRestore _ => fun h => Some (VmHandle.id h)
  | _ => fun _ => None
  end.

Definition born_snapshot {A} (c : HvCall A) : A -> option SnapshotId :=
  match c in HvCall A return A -> option SnapshotId with
  | CSnapshot _ | CAdopt _ => fun p => Some p
  | _ => fun _ => None
  end.

(** How many ids a call may use up. *)
Definition cost {A} (c : HvCall A) : Z :=
  match c with CCreate _ | CSnapshot _ | CRestore _ | CAdopt _ => 1 | _ => 0 end.

(** What a call did: [h] and [h'] are the states around it. *)
Record touched {H V P : Type} (vm_view : H -> VmId -> option V) (snap_view : H -> SnapshotId -> option P)
    (vm_issued : H -> VmId -> Prop) (snap_issued : H -> SnapshotId -> Prop)
    (vm : option VmId) (snap : option SnapshotId) (new_vm : option VmId) (new_snap : option SnapshotId)
    (h h' : H) : Prop := {
  t_vm_issued v : vm_issued h v -> vm_issued h' v;
  t_snap_issued p : snap_issued h p -> snap_issued h' p;
  t_vm v : vm <> Some v -> new_vm <> Some v -> vm_view h' v = vm_view h v;
  t_snap p : snap <> Some p -> new_snap <> Some p -> snap_view h' p = snap_view h p;
  t_new_vm v : new_vm = Some v -> ~ vm_issued h v /\ vm_issued h' v;
  t_new_snap p : new_snap = Some p -> ~ snap_issued h p /\ snap_issued h' p;
}.

(** The host's disk, which the hypervisor's process shares. *)
Class HostDisk (H F : Type) := {
  host_fs : H -> F;
  set_host_fs : F -> H -> H;
}.

(** The contract. [hv_inv n] holds when [n] more ids can be given out. *)
Class HypervisorFrame (H V P F : Type) `{!Hypervisor H, !HostDisk H F} := {
  vm_view : H -> VmId -> option V;
  snap_view : H -> SnapshotId -> option P;
  vm_issued : H -> VmId -> Prop;
  snap_issued : H -> SnapshotId -> Prop;
  hv_inv : Z -> H -> Prop;
  hv_inv_weaken n m h : hv_inv n h -> m <= n -> hv_inv m h;
  hv_call {A} (c : HvCall A) n h r h' :
    0 <= n -> hv_inv (n + cost c) h -> call c h = (r, h') ->
    hv_inv n h'
    /\ touched vm_view snap_view vm_issued snap_issued (vm_target c) (snap_target c)
         (match r with Ok a => born_vm c a | Err _ => None end)
         (match r with Ok a => born_snapshot c a | Err _ => None end) h h';
  (** The view of a snapshot is the hypervisor's entry for it (its directory and
      metadata, or the mock's copy), not the files in that directory: a write to
      the host's disk changes no entry. Whether the files a KVM restore reads are
      intact is not part of this contract. *)
  hv_disk f n h : hv_inv n h -> hv_inv n (set_host_fs f h)
    /\ touched vm_view snap_view vm_issued snap_issued None None None None h (set_host_fs f h);
}.

(** A destroy that answers [Ok] has removed the VM ([Hypervisor::destroy]). One
    that answers an error may have left it: the KVM hypervisor reaps the threads
    of every VM first, and gives up when one of them failed. *)
Class DestroyReaps (H V P F : Type) `{HypervisorFrame H V P F} :=
  destroy_reaps v h h' : call (CDestroy v) h = (Ok tt, h') -> vm_view h' v = None.

(** ** The in-memory hypervisor *)

Section Mock.
Import MockHypervisor.
Context {F : Type} `{!FileSystem F, !Serde string Manifest.t}.
Variable run : GuestExecRequest.t -> F -> Process.outcome * F.
Variables temp_dir pid : string.
Abbreviation mock := (MockHypervisor.t F).
Implicit Types h : mock.

#[local] Instance mock_hv : Hypervisor mock := MockHypervisor.mock_hypervisor run temp_dir pid.

#[local] Instance mock_disk : HostDisk mock F := {| host_fs := fs; set_host_fs := set_fs |}.

Record mock_inv (n : Z) h : Prop := {
  mi_vm : 0 < next_vm h /\ next_vm h + n < 2 ^ 64;
  mi_snap : 0 < next_snapshot h /\ next_snapshot h + n < 2 ^ 64;
  mi_vms v : next_vm h <= v -> vms h !! v = None;
  mi_snaps p : next_snapshot h <= p -> snapshots h !! p = None;
}.

Definition mock_vm h (v : VmId) : option MockVm.t := vms h !! v.
Definition mock_snap h (p : SnapshotId) : option MockSnapshot.t := snapshots h !! p.
Definition mock_vm_issued h (v : VmId) : Prop := v < next_vm h.
Definition mock_snap_issued h (p : SnapshotId) : Prop := p < next_snapshot h.

Abbreviation mock_touched := (touched mock_vm mock_snap mock_vm_issued mock_snap_issued).

Lemma mock_same n vm snap h h' :
  mock_inv n h -> same_maps h h' -> mock_inv n h' /\ mock_touched vm snap None None h h'.
Proof.
  intros Hi (Hv & Hs & Hn & Hm). split.
  - destruct Hi. split; rewrite ?Hv, ?Hs, ?Hn, ?Hm; auto.
  - split; unfold mock_vm, mock_snap, mock_vm_issued, mock_snap_issued;
      rewrite ?Hv, ?Hs, ?Hn, ?Hm; auto; done.
Qed.

(** A change to the entry of one issued VM, or its removal. *)
Lemma mock_update n v vm' snap h (m : gmap Z MockVm.t) f :
  mock_inv n h -> vms h !! v = Some vm' -> (forall w, w <> v -> m !! w = vms h !! w) ->
  let h' := mk m (snapshots h) (next_vm h) (next_snapshot h) f in
  mock_inv n h' /\ mock_touched (Some v) snap None None h h'.
Proof.
  intros [Hv Hs Hvs Hss] Hl Hm. split; split; simpl; auto; try done.
  - intros w Hw. destruct (decide (w = v)) as [-> |]; [|by rewrite Hm; auto].
    rewrite Hvs in Hl by done. done.
  - intros w Hne _. unfold mock_vm. simpl. apply Hm. congruence.
Qed.

Lemma mock_birth n h vm snap :
  0 <= n -> mock_inv (n + 1) h ->
  let h' := mk (<[next_vm h := vm]> (vms h)) (snapshots h) (wrap64 (next_vm h + 1)) (next_snapshot h) (fs h) in
  mock_inv n h' /\ mock_touched None snap (Some (next_vm h)) None h h'.
Proof.
  intros Hn [Hv Hs Hvs Hss]. rewrite wrap64_small by ulia. split; split; simpl; auto; try lia; try done.
  - intros w Hw. rewrite lookup_insert_ne by lia. apply Hvs. lia.
  - intros w. unfold mock_vm_issued. simpl. lia.
  - intros w _ Hw. unfold mock_vm. simpl. by rewrite lookup_insert_ne by congruence.
  - intros w [= <-]. unfold mock_vm_issued. simpl. lia.
Qed.

Lemma mock_snapshot_birth n h s vm :
  0 <= n -> mock_inv (n + 1) h ->
  let h' := mk (vms h) (<[next_snapshot h := s]> (snapshots h)) (next_vm h) (wrap64 (next_snapshot h + 1)) (fs h) in
  mock_inv n h' /\ mock_touched vm None None (Some (next_snapshot h)) h h'.
Proof.
  intros Hn [Hv Hs Hvs Hss]. rewrite wrap64_small by ulia. split; split; simpl; auto; try lia; try done.
  - intros w Hw. rewrite lookup_insert_ne by lia. apply Hss. lia.
  - intros w. unfold mock_snap_issued. simpl. lia.
  - intros w _ Hw. unfold mock_snap. simpl. by rewrite lookup_insert_ne by congruence.
  - intros w [= <-]. unfold mock_snap_issued. simpl. lia.
Qed.

Lemma mock_inv_weaken n m h : mock_inv n h -> m <= n -> mock_inv m h.
Proof. intros [] ?. split; auto; lia. Qed.

(** A call that only reads or reaches outside, with its result. *)
Lemma mock_external {A} (c : SM mock VmError A) n vm snap h r h' :
  external c -> mock_inv n h -> c h = (r, h') -> mock_inv n h' /\ mock_touched vm snap None None h h'.
Proof.
  intros Hc Hi He. specialize (Hc h). rewrite He in Hc. by apply mock_same.
Qed.

Lemma mock_external_read id path : external (read_file (F := F) id path).
Proof.
  unfold read_file. apply external_bind; [auto with external|intros vm].
  apply external_bind; [auto with external|intros q]. auto with external.
Qed.

Ltac mock_external_tac :=
  simpl; unfold MockHypervisor.state, MockHypervisor.list_vms, MockHypervisor.list_snapshots,
    MockHypervisor.vm_meta, MockHypervisor.snapshot_meta;
  first [apply external_export|apply external_exec|apply external_write|apply mock_external_read
        |apply external_bind; [auto with external|intros ?; auto with external]|done].

Lemma mock_delete_snapshot n h snap s vm :
  mock_inv n h -> snapshots h !! snap = Some s ->
  let h' := mk (vms h) (delete snap (snapshots h)) (next_vm h) (next_snapshot h) (fs h) in
  mock_inv n h' /\ mock_touched vm (Some snap) None None h h'.
Proof.
  intros [Hv Hsn Hvs Hss] Hs. split; split; simpl; auto; try done.
  - intros p Hp. rewrite lookup_delete_None. auto.
  - intros p Hne _. unfold mock_snap. simpl. by rewrite lookup_delete_ne by congruence.
Qed.

(** The calls that change nothing the hypervisor keeps. *)
Lemma mock_quiet {A} (c : HvCall A) n h r h' :
  external (call c) -> cost c = 0 -> (forall a, born_vm c a = None) -> (forall a, born_snapshot c a = None) ->
  mock_inv (n + cost c) h -> call c h = (r, h') ->
  mock_inv n h'
  /\ mock_touched (vm_target c) (snap_target c)
       (match r with Ok a => born_vm c a | Err _ => None end)
       (match r with Ok a => born_snapshot c a | Err _ => None end) h h'.
Proof.
  intros Hx Hc Hv Hs Hi He. rewrite Hc, Z.add_0_r in Hi.
  destruct (mock_external _ n (vm_target c) (snap_target c) _ _ _ Hx Hi He) as [Hi' Ht].
  split; [done|]. destruct r as [a|e]; [by rewrite Hv, Hs|done].
Qed.

Lemma mock_call {A} (c : HvCall A) n h r h' :
  0 <= n -> mock_inv (n + cost c) h -> call c h = (r, h') ->
  mock_inv n h'
  /\ mock_touched (vm_target c) (snap_target c)
       (match r with Ok a => born_vm c a | Err _ => None end)
       (match r with Ok a => born_snapshot c a | Err _ => None end) h h'.
Proof.
  intros Hn Hi He.
  assert (Hq : forall vm snap, h' = h -> mock_inv n h' /\ mock_touched vm snap None None h h').
  { intros vm snap ->. apply mock_same; [|done]. eapply mock_inv_weaken; [done|]. destruct c; simpl; lia. }
  destruct c; try (by eapply mock_quiet; try exact He; [mock_external_tac|..]);
    simpl in *; rewrite ?Z.add_0_r in Hi.
  - unfold create_vm, mbind, sm_bind, sm_gets, sm_lift in He.
    match type of He with context [match ?x with Ok _ => _ | Err _ => _ end] => destruct x as [c|e] end;
      injection He as <- <-; [exact (mock_birth n h _ _ Hn Hi)|by apply Hq].
  - unfold start, mbind, sm_bind, MockHypervisor.get_vm in He. destruct (vms h !! id) as [vm|] eqn:Hid; simpl in He.
    2: { injection He as <- <-. by apply Hq. }
    destruct (MockVm.state vm); injection He as <- <-; try by apply Hq.
    all: eapply mock_update; try done; intros; by rewrite lookup_insert_ne.
  - unfold stop, mbind, sm_bind, MockHypervisor.get_vm in He. destruct (vms h !! id) as [vm|] eqn:Hid; simpl in He.
    2: { injection He as <- <-. by apply Hq. }
    destruct (MockVm.state vm); injection He as <- <-; try by apply Hq.
    eapply mock_update; try done; intros; by rewrite lookup_insert_ne.
  - unfold snapshot, mbind, sm_bind, MockHypervisor.get_vm in He. destruct (vms h !! id) as [vm|]; simpl in He;
      injection He as <- <-; [exact (mock_snapshot_birth n h _ _ Hn Hi)|by apply Hq].
  - unfold restore, mbind, sm_bind, get_snapshot in He. destruct (snapshots h !! snap) as [s|]; simpl in He;
      injection He as <- <-; [exact (mock_birth n h _ _ Hn Hi)|by apply Hq].
  - unfold destroy, mbind, sm_bind, MockHypervisor.get_vm in He. destruct (vms h !! id) as [vm|] eqn:Hid; simpl in He;
      injection He as <- <-; [|by apply Hq].
    apply (mock_update n id vm None h (delete id (vms h)) _ Hi Hid). intros. by rewrite lookup_delete_ne.
  - unfold delete_snapshot, mbind, sm_bind, get_snapshot in He.
    destruct (snapshots h !! snap) as [s|] eqn:Hs; simpl in He; injection He as <- <-; [|by apply Hq].
    by eapply (mock_delete_snapshot n h).
  - unfold snapshot_adopt, mbind, sm_bind, sm_gets, sm_lift in He.
    destruct (Manifest.read_from_dir (fs h) dir) as [man|e]; simpl in He; injection He as <- <-;
      [exact (mock_snapshot_birth n h _ _ Hn Hi)|by apply Hq].
Qed.

#[local] Instance mock_frame : HypervisorFrame mock MockVm.t MockSnapshot.t F.
Proof.
  refine {| vm_view := mock_vm; snap_view := mock_snap; vm_issued := mock_vm_issued;
            snap_issued := mock_snap_issued; hv_inv := mock_inv |}.
  - intros n m h Hi Hle. by eapply mock_inv_weaken.
  - intros A c n h r h'. apply mock_call.
  - intros f n h Hi. by apply mock_same.
Defined.

#[local] Instance mock_destroy_reaps : DestroyReaps mock MockVm.t MockSnapshot.t F.
Proof.
  intros v h h'. unfold vm_view, mock_frame, mock_vm. simpl.
  unfold destroy, mbind, sm_bind, MockHypervisor.get_vm.
  destruct (vms h !! v) as [vm|] eqn:Hv; simpl; [|done]. intros [= <-]. simpl. by rewrite lookup_delete_eq.
Qed.

Lemma mock_inv_new (f : F) n : 1 + n < 2 ^ 64 -> mock_inv n (MockHypervisor.new f).
Proof. intros Hn. split; simpl; try lia; done. Qed.
End Mock.
