(* ===== verification/Store.v ===== *)
(** * Durable snapshot stores ([crates/snapshot/src/store.rs])

    The store interface, the built-in store over a directory, the URI that
    selects a store ([parse_store_uri]) and the control plane's choice
    ([crates/control-plane/src/snapshot_store.rs], in the build without S3). *)

From Stdlib Require Import Ascii String.
From stdpp Require Import strings pretty sorting.
From S2P Require Import Prelude Io Str Fs VmCore VmMock.

Local Open Scope string_scope.
Local Open Scope Z_scope.

Inductive StoreError : Type :=
| StoreNotFound (id : Z)
| StoreIo (message : string)
| StoreFormat (e : ManifestError)
| StoreBadUri (message : string)
| StoreNetwork (message : string)
| StoreAuth (message : string).

Definition display_store_error (e : StoreError) : string :=
  match e with
  | StoreNotFound id => "snapshot id " +:+ pretty id +:+ " not found in store"
  | StoreIo m => "snapshot store io: " +:+ m
  | StoreFormat e => "snapshot store format: " +:+ display_manifest_error e
  | StoreBadUri m => "bad snapshot store URI: " +:+ m
  | StoreNetwork m => "snapshot store network: " +:+ m
  | StoreAuth m => "snapshot store auth: " +:+ m
  end.

(** [SnapshotStore]: the calls move a snapshot directory of the host's disk [F]
    to and from the store [S]. *)
Class SnapshotStore (S F : Type) := {
  store_put : Z -> string -> SM (S * F) StoreError unit;
  store_get : Z -> string -> SM (S * F) StoreError unit;
  store_list : SM (S * F) StoreError (list Z);
  store_delete : Z -> SM (S * F) StoreError unit;
  store_display : S -> string;
}.

(** What the directory store uses of the disk besides [FileSystem]: a directory
    entry is its name and whether it is a directory. *)
Class DirFs (F : Type) := {
  fs_exists : F -> string -> bool;
  fs_copy : string -> string -> SM F string unit;
  fs_read_dir : F -> string -> result string (list (result string (bytes * result string bool)));
}.

Module FsSnapshotStore.
Record t : Type := mk { root : string }.

Definition new (root : string) : t := mk root.

Definition snap_dir (st : t) (snap_id : Z) : string := push (root st) ("snap-" +:+ pretty snap_id).

(** [Manifest::backing_file_path] *)
Definition backing_file_path (m : Manifest.t) (dir : string) : string := push dir (Manifest.backing_file m).

Section Store.
Context {F : Type} `{!FileSystem F, !DirFs F, !Serde string Manifest.t}.

Definition io {A} (c : SM F string A) : SM F StoreError A := fun f =>
  let (r, f) := c f in (map_err StoreIo r, f).
Definition manifest_io {A} (c : SM F ManifestError A) : SM F StoreError A := fun f =>
  let (r, f) := c f in (map_err StoreFormat r, f).

(** The copy of a snapshot directory both [put] and [get] make. *)
Definition copy_snapshot (src dst : string) : SM F StoreError unit :=
  manifest ← manifest_io (fun f => (Manifest.read_from_dir f src, f));
  _ ← manifest_io (Manifest.write_to_dir manifest dst);
  let src_backing := backing_file_path manifest src in
  exists_ ← sm_gets (fun f => fs_exists f src_backing);
  if exists_ : bool then io (fs_copy src_backing (backing_file_path manifest dst)) else mret tt.

Definition put (st : t) (snap_id : Z) (src_dir : string) : SM F StoreError unit :=
  let dst := snap_dir st snap_id in
  _ ← io (fs_create_dir_all dst);
  copy_snapshot src_dir dst.

Definition get (st : t) (snap_id : Z) (dst_dir : string) : SM F StoreError unit :=
  let src := snap_dir st snap_id in
  exists_ ← sm_gets (fun f => fs_exists f src);
  if negb exists_ then sm_fail (StoreNotFound snap_id)
  else
    _ ← io (fs_create_dir_all dst_dir);
    copy_snapshot src dst_dir.

(** The loop of [list] over the directory's entries. *)
Fixpoint collect_ids (entries : list (result string (bytes * result string bool))) :
    result StoreError (list Z) :=
  match entries with
  | [] => Ok []
  | entry :: entries =>
      '(name, kind) ← map_err StoreIo entry;
      is_dir ← map_err StoreIo kind;
      ids ← collect_ids entries;
      if negb is_dir then Ok ids
      else
        match strip_str_prefix "snap-" (from_utf8_lossy name) ≫= parse_uint (2 ^ 64 - 1) with
        | Some id => Ok (id :: ids)
        | None => Ok ids
        end
  end.

Definition list_ (st : t) : SM F StoreError (list Z) := fun f =>
  if negb (fs_exists f (root st)) then (Ok [], f)
  else
    (entries ← map_err StoreIo (fs_read_dir f (root st));
     ids ← collect_ids entries;
     Ok (merge_sort Z.le ids), f).

Definition delete (st : t) (snap_id : Z) : SM F StoreError unit :=
  let dir := snap_dir st snap_id in
  exists_ ← sm_gets (fun f => fs_exists f dir);
  if negb exists_ then mret tt else io (fs_remove_dir_all dir).

Definition display (st : t) : string := "file://" +:+ root st.

(** The store itself never changes: it is a path. *)
Definition on_disk {A} (c : SM F StoreError A) : SM (t * F) StoreError A := fun '(st, f) =>
  let (r, f) := c f in (r, (st, f)).

#[global] Instance fs_snapshot_store : SnapshotStore t F := {|
  store_put snap_id dir := fun x => on_disk (put x.1 snap_id dir) x;
  store_get snap_id dir := fun x => on_disk (get x.1 snap_id dir) x;
  store_list := fun x => on_disk (list_ x.1) x;
  store_delete snap_id := fun x => on_disk (delete x.1 snap_id) x;
  store_display := display |}.
End Store.
End FsSnapshotStore.

(** ** Store URIs *)

Inductive StoreLocation : Type :=
| File (root : string)
| S3 (bucket prefix : string).

Definition starts_with_slash (s : string) : bool :=
  match s with String c _ => Ascii.eqb c "/" | "" => false end.

(** [s.trim_end_matches('/')] *)
Fixpoint trim_end_slashes (s : string) : string :=
  match s with
  | "" => ""
  | String c s =>
      let s := trim_end_slashes s in
      if Ascii.eqb c "/" && String.eqb s "" then "" else String c s
  end.

(** [{uri:?}] is an argument. *)
Definition parse_store_uri (debug : string -> string) (uri : string) : result StoreError StoreLocation :=
  match strip_str_prefix "file://" uri with
  | Some rest =>
      if negb (starts_with_slash rest)
      then Err (StoreBadUri ("file:// URI must be absolute (file:///path/...), got " +:+ debug uri))
      else Ok (File rest)
  | None =>
      match strip_str_prefix "s3://" uri with
      | Some rest =>
          if String.eqb rest "" then Err (StoreBadUri ("s3:// URI has no bucket: " +:+ debug uri))
          else
            let '(bucket, prefix) :=
              match split_once "/" rest with
              | Some (b, p) => (b, trim_end_slashes p)
              | None => (rest, "")
              end in
            if String.eqb bucket "" then Err (StoreBadUri ("s3:// URI has empty bucket: " +:+ debug uri))
            else Ok (S3 bucket prefix)
      | None =>
          Err (StoreBadUri ("unknown snapshot-store URI scheme; want file:// or s3://, got " +:+ debug uri))
      end
  end.

Definition ENV_STORE_URI : string := "NANOVM_SNAPSHOT_STORE".

(** [construct], in the build without the [s3] feature. *)
Definition construct (location : StoreLocation) (uri : string) : result string FsSnapshotStore.t :=
  match location with
  | File root => Ok (FsSnapshotStore.new root)
  | S3 _ _ =>
      Err (uri +:+ ": s3:// requires a binary built with `--features s3` (nanovm-control-plane was built without it)")
  end.

(** [var] is the environment variable, when it is set to text. *)
Definition from_env (debug : string -> string) (var : option string) : result string (option FsSnapshotStore.t) :=
  match var with
  | None => Ok None
  | Some uri =>
      if String.eqb uri "" then Ok None
      else
        location ← map_err (fun e => ENV_STORE_URI +:+ ": " +:+ display_store_error e) (parse_store_uri debug uri);
        store ← construct location uri;
        Ok (Some store)
  end.

(** ** What the store keeps *)

(** Writing or copying to a path changes the file of that path only, making
    directories changes no file. Paths with different components are different
    files (no links among them). *)
Class DirFsLaws (F : Type) `{!FileSystem F, !DirFs F} := {
  write_reads p bs f f' q : fs_write p bs f = (Ok tt, f') ->
    fs_read f' p = Ok bs /\ (components q <> components p -> fs_read f' q = fs_read f q);
  mkdir_reads d f r f' q : fs_create_dir_all d f = (r, f') -> fs_read f' q = fs_read f q;
  copy_reads a b f f' q : fs_copy a b f = (Ok tt, f') ->
    fs_read f' b = fs_read f a /\ (components q <> components b -> fs_read f' q = fs_read f q);
  exists_reads f p bs : fs_read f p = Ok bs -> fs_exists f p = true;
}.

Section RoundTrip.
Import FsSnapshotStore.
Context {F : Type} `{!FileSystem F, !DirFs F, !DirFsLaws F, !Serde string Manifest.t, !SerdeLaws string Manifest.t}.
Implicit Types f : F.

Definition manifest_path (dir : string) : string := push dir Manifest.FILE_NAME.

(** The two files of a snapshot directory hold [m] and [bs]. *)
Definition holds (dir : string) (m : Manifest.t) (bs : bytes) f : Prop :=
  Manifest.read_from_dir f dir = Ok m /\ fs_read f (backing_file_path m dir) = Ok bs.

Lemma read_manifest_same f f' dir :
  fs_read f' (manifest_path dir) = fs_read f (manifest_path dir) ->
  Manifest.read_from_dir f' dir = Manifest.read_from_dir f dir.
Proof. unfold manifest_path. intros He. unfold Manifest.read_from_dir. by rewrite He. Qed.

Lemma write_manifest_reads m dir f f' :
  Manifest.format_version m = MANIFEST_VERSION ->
  Manifest.write_to_dir m dir f = (Ok tt, f') ->
  Manifest.read_from_dir f' dir = Ok m
  /\ forall q, components q <> components (manifest_path dir) -> fs_read f' q = fs_read f q.
Proof.
  intros Hv. unfold Manifest.write_to_dir, mbind, sm_bind, Manifest.fs_do, sm_lift, Manifest.to_json_pretty.
  destruct (fs_create_dir_all dir f) as [[[]|e] f1] eqn:H1; [|done]. simpl.
  destruct (to_vec m) as [js|e] eqn:Hj; [|done]. simpl.
  destruct (fs_write (push dir Manifest.FILE_NAME) js f1) as [[[]|e] f2] eqn:H2; [|done].
  intros [= <-]. split.
  - unfold Manifest.read_from_dir. destruct (write_reads _ _ _ _ "" H2) as [-> _]. simpl.
    unfold Manifest.from_json. apply to_vec_ok, json_roundtrip in Hj. rewrite Hj. simpl. by rewrite Hv.
  - intros q Hq. destruct (write_reads _ _ _ _ q H2) as [_ ->]; [|done]. by eapply mkdir_reads.
Qed.

Lemma read_manifest_version f dir m :
  Manifest.read_from_dir f dir = Ok m -> Manifest.format_version m = MANIFEST_VERSION.
Proof.
  unfold Manifest.read_from_dir. destruct (map_err ManifestIo _) as [bs|]; [|done]. simpl.
  unfold Manifest.from_json. destruct (map_err ManifestJson _) as [p|]; [|done]. simpl.
  destruct (Z.eqb_spec (Manifest.format_version p) MANIFEST_VERSION); [|done]. by intros [= <-].
Qed.

(** The files a copy reads and writes are four different ones. *)
Definition apart (m : Manifest.t) (dirs : list string) : Prop :=
  NoDup (components <$> (dirs ≫= fun d => [manifest_path d; backing_file_path m d])).

Lemma copy_snapshot_holds m bs src dst f f' :
  apart m [src; dst] -> holds src m bs f -> copy_snapshot src dst f = (Ok tt, f') ->
  holds dst m bs f'
  /\ forall q, components q <> components (manifest_path dst) ->
       components q <> components (backing_file_path m dst) -> fs_read f' q = fs_read f q.
Proof.
  intros Hap [Hm Hb]. unfold copy_snapshot, mbind, sm_bind, manifest_io, sm_gets, io. rewrite Hm. simpl.
  destruct (Manifest.write_to_dir m dst f) as [[[]|e] f1] eqn:H1; [|done]. simpl.
  destruct (write_manifest_reads m dst f f1 (read_manifest_version _ _ _ Hm) H1) as [Hm1 Hq1].
  unfold apart in Hap. simpl in Hap. rewrite !NoDup_cons, !elem_of_cons in Hap.
  destruct Hap as (Ha & Hbk & Hc & _).
  assert (Hb1 : fs_read f1 (backing_file_path m src) = Ok bs). { rewrite Hq1; [done|]. intros He. apply Hbk. by left. }
  rewrite (exists_reads _ _ _ Hb1).
  destruct (fs_copy (backing_file_path m src) (backing_file_path m dst) f1) as [[[]|e] f2] eqn:H2; [|done].
  intros [= <-]. split; [split|].
  - rewrite <- Hm1. apply read_manifest_same.
    apply (copy_reads _ _ _ _ (manifest_path dst) H2). intros He. apply Hc. by left.
  - destruct (copy_reads _ _ _ _ "" H2) as [-> _]. done.
  - intros q Hqm Hqb. destruct (copy_reads _ _ _ _ q H2) as [_ ->]; [|done]. by apply Hq1.
Qed.

Lemma holds_same dir m bs f f' :
  (forall q, q = manifest_path dir \/ q = backing_file_path m dir -> fs_read f' q = fs_read f q) ->
  holds dir m bs f -> holds dir m bs f'.
Proof.
  intros Hq [Hm Hb]. split; [|rewrite Hq; auto].
  rewrite <- Hm. apply read_manifest_same, Hq. by left.
Qed.

(** [fs::create_dir_all(..)?] and then the copy, from a directory that holds a
    snapshot. *)
Lemma mkdir_copy_holds m bs src dst f f' :
  apart m [src; dst] -> holds src m bs f ->
  (_ ← io (fs_create_dir_all dst); copy_snapshot src dst) f = (Ok tt, f') ->
  holds dst m bs f'
  /\ forall q, components q <> components (manifest_path dst) ->
       components q <> components (backing_file_path m dst) -> fs_read f' q = fs_read f q.
Proof.
  intros Hap Hh. unfold mbind, sm_bind, io. destruct (fs_create_dir_all dst f) as [[[]|e] f1] eqn:H1; [|done].
  simpl. intros Hc. destruct (copy_snapshot_holds m bs src dst f1 f' Hap) as [Hd Hq]; [|done|].
  - eapply holds_same; [|done]. intros q _. by eapply mkdir_reads.
  - split; [done|]. intros q Hm Hb. rewrite Hq by done. by eapply mkdir_reads.
Qed.

Lemma apart_front m a b c : apart m [a; b; c] -> apart m [a; b].
Proof. unfold apart. simpl. intros Hn. by apply (NoDup_app [_; _; _; _] [_; _]) in Hn as (? & _ & _). Qed.
Lemma apart_back m a b c : apart m [a; b; c] -> apart m [b; c].
Proof. unfold apart. simpl. intros Hn. by apply (NoDup_app [_; _] [_; _; _; _]) in Hn as (_ & _ & ?). Qed.

(** The directory store gives back what was put into it. When the source,
    the store's directory and the destination are different files, [put] and a
    later [get] of the same id leave the destination with exactly the source's
    manifest and backing file; the source and the stored copy still hold them,
    and no file but the four written ones has changed. *)
Theorem store_roundtrip st id src dst m bs f f1 f2 :
  apart m [src; snap_dir st id; dst] -> holds src m bs f ->
  put st id src f = (Ok tt, f1) -> get st id dst f1 = (Ok tt, f2) ->
  holds dst m bs f2 /\ holds (snap_dir st id) m bs f2 /\ holds src m bs f2
  /\ forall q, components q ∉ (components <$> ([snap_dir st id; dst] ≫= fun d => [manifest_path d; backing_file_path m d])) ->
       fs_read f2 q = fs_read f q.
Proof.
  intros Hap Hh Hput Hget. set (sd := snap_dir st id) in *.
  destruct (mkdir_copy_holds m bs src sd f f1) as [Hs Hq1]; [by eapply apart_front|done|done|].
  unfold get, mbind, sm_bind, sm_gets in Hget. fold sd in Hget.
  destruct (fs_exists f1 sd); [|done]. simpl in Hget.
  destruct (mkdir_copy_holds m bs sd dst f1 f2) as [Hd Hq2]; [by eapply apart_back|done|done|].
  unfold apart in Hap. simpl in Hap. rewrite !NoDup_cons, !elem_of_cons in Hap.
  destruct Hap as (Ha & Hb & Hc & He & _).
  split_and!; [done|..].
  - eapply holds_same; [|exact Hs]. intros q [-> | ->]; apply Hq2; intros Heq; [apply Hc|apply Hc|apply He|apply He]; rewrite Heq; auto.
  - eapply holds_same; [|exact Hh]. intros q Hq. rewrite Hq2, Hq1; [done|..];
      destruct Hq as [-> | ->]; intros Heq; first [apply Ha; rewrite Heq; by auto 7|apply Hb; rewrite Heq; by auto 7].
  - intros q. simpl. rewrite !not_elem_of_cons. intros (? & ? & ? & ? & _). by rewrite Hq2, Hq1.
Qed.
End RoundTrip.

(** ** A concrete store *)

(** The flat file system as a [DirFs]. *)
Definition flat_entry (dir path : string) : option (result string (bytes * result string bool)) :=
  rest ← strip_str_prefix (dir +:+ "/") path;
  match split_once "/" rest with
  | Some (name, _) => Some (Ok (bytes_of_string name, Ok true))
  | None => Some (Ok (bytes_of_string rest, Ok false))
  end.

#[global] Instance flat_dir_fs : DirFs FlatFs.t := {|
  fs_exists f p := bool_decide (is_Some (f !! p)) || existsb (FlatFs.under p) (map_to_list f).*1;
  fs_copy a b f := match f !! a with Some bs => (Ok tt, <[b := bs]> f) | None => (Err "not found", f) end;
  fs_read_dir f d := Ok (omap (flat_entry d) (map_to_list f).*1) |}.

#[global] Instance flat_dir_fs_laws : DirFsLaws FlatFs.t.
Proof.
  split; simpl.
  - intros p bs f f' q [= <-]. rewrite (lookup_insert_eq f p bs). split; [done|]. intros Hne.
    rewrite lookup_insert_ne; [done|]. congruence.
  - by intros d f r f' q [= _ <-].
  - intros a b f f' q. destruct (f !! a) as [bs|] eqn:Ha; [|done]. intros [= <-].
    rewrite (lookup_insert_eq f b bs). split; [done|]. intros Hne. rewrite lookup_insert_ne; [done|]. congruence.
  - intros f p bs. destruct (f !! p); [|done]. intros _. done.
Qed.

#[global] Instance component_eq_dec : EqDecision Component.
Proof. solve_decision. Defined.
#[global] Instance manifest_eq_dec : EqDecision Manifest.t.
Proof. solve_decision. Defined.

(** A codec that knows one manifest. *)
Definition one_manifest (m : Manifest.t) : Serde string Manifest.t := {|
  to_json v := if decide (v = m) then (Ok tt, []) else (Err "unknown manifest", []);
  from_json _ := Ok m |}.

Lemma one_manifest_laws m : @SerdeLaws string Manifest.t (one_manifest m).
Proof. split. intros v js. simpl. case_decide as Hd; [|done]. intros _. by rewrite Hd. Qed.

Definition sample_manifest : Manifest.t := Manifest.new 7 4096 4096 1.
Definition sample_disk : FlatFs.t :=
  {[ "/src/manifest.json" := []; "/src/memory.cow" := [Byte.x68; Byte.x69] ]}.

Lemma store_roundtrip_witness :
  let st := FsSnapshotStore.new "/var/store" in
  let put_get f := let (r, f) := @FsSnapshotStore.put _ _ _ (one_manifest sample_manifest) st 7 "/src" f in
                   @FsSnapshotStore.get _ _ _ (one_manifest sample_manifest) st 7 "/dst" f in
  exists f, put_get sample_disk = (Ok tt, f)
    /\ @holds _ _ (one_manifest sample_manifest) "/dst" sample_manifest [Byte.x68; Byte.x69] f.
Proof.
  intros st put_get. unfold put_get.
  destruct (@FsSnapshotStore.put _ _ _ (one_manifest sample_manifest) st 7 "/src" sample_disk) as [r1 f1] eqn:H1.
  destruct (@FsSnapshotStore.get _ _ _ (one_manifest sample_manifest) st 7 "/dst" f1) as [r2 f2] eqn:H2.
  assert (r1 = Ok tt) as -> by (apply (f_equal fst) in H1; vm_compute in H1; congruence).
  assert (r2 = Ok tt) as ->.
  { apply (f_equal snd) in H1. simpl in H1. subst f1. apply (f_equal fst) in H2. vm_compute in H2. congruence. }
  exists f2. split; [done|].
  refine (proj1 (@store_roundtrip _ _ _ _ (one_manifest sample_manifest) (one_manifest_laws sample_manifest)
    st 7 "/src" "/dst" sample_manifest [Byte.x68; Byte.x69] sample_disk f1 f2 _ _ H1 H2)).
  - unfold apart. apply (bool_decide_unpack _). vm_compute. reflexivity.
  - split; vm_compute; reflexivity.
Defined.
