(* ===== verification/Metrics.v ===== *)
(** * Fork metrics ([crates/control-plane/src/metrics.rs])

    The counters the fork endpoints keep and their Prometheus text. Map entries
    and atomics are 64-bit and wrap, as in a release build. *)

From Stdlib Require Import Ascii String.
From stdpp Require Import strings pretty sorting.
From S2P Require Import Prelude Str.

Local Open Scope string_scope.
Local Open Scope Z_scope.

Definition NL : ascii := "010".
Definition CR : ascii := "013".
Definition QUOTE : ascii := "034".
Definition BACKSLASH : ascii := "092".

(** [str::replace] of a one-byte character. *)
Fixpoint replace_char (c : ascii) (by_ : string) (s : string) : string :=
  match s with
  | "" => ""
  | String a s => (if Ascii.eqb a c then by_ else String a "") +:+ replace_char c by_ s
  end.

Definition needs_escape (c : ascii) : bool :=
  Ascii.eqb c BACKSLASH || Ascii.eqb c QUOTE || Ascii.eqb c NL || Ascii.eqb c CR.

Fixpoint any_char (p : ascii -> bool) (s : string) : bool :=
  match s with "" => false | String c s => p c || any_char p s end.

Definition escape_label (v : string) : string :=
  if any_char needs_escape v then
    let v := replace_char BACKSLASH (String BACKSLASH (String BACKSLASH "")) v in
    let v := replace_char QUOTE (String BACKSLASH (String QUOTE "")) v in
    let v := replace_char NL (String BACKSLASH "n") v in
    replace_char CR (String BACKSLASH "r") v
  else v.

Module Metrics.
Record t : Type := mk {
  forks_total : gmap string Z;
  forks_total_by_org : gmap string Z;
  fork_latency_ms_sum_by_org : gmap string Z;
  throttled_total : gmap string Z;
  throttled_total_by_org : gmap string Z;
  fork_latency_ms_sum : Z;
  fork_latency_ms_count : Z;
  warm_pool_hits : Z;
  warm_pool_misses : Z;
  stripe_events_total : gmap string Z;
  dunning_blocked_total : gmap (string * string) Z;
}.

Definition new : t := mk ∅ ∅ ∅ ∅ ∅ 0 0 0 0 ∅ ∅.

(** [*map.entry(k).or_insert(0) += n] *)
Definition bump {K} `{Countable K} (k : K) (n : Z) (m : gmap K Z) : gmap K Z :=
  <[k := wrap64 (default 0 (m !! k) + n)]> m.

Definition record_fork (token_fp org : string) (latency_ms : Z) (m : t) : t := {|
  forks_total := bump token_fp 1 (forks_total m);
  forks_total_by_org := bump org 1 (forks_total_by_org m);
  fork_latency_ms_sum_by_org := bump org latency_ms (fork_latency_ms_sum_by_org m);
  throttled_total := throttled_total m;
  throttled_total_by_org := throttled_total_by_org m;
  fork_latency_ms_sum := wrap64 (fork_latency_ms_sum m + latency_ms);
  fork_latency_ms_count := wrap64 (fork_latency_ms_count m + 1);
  warm_pool_hits := warm_pool_hits m;
  warm_pool_misses := warm_pool_misses m;
  stripe_events_total := stripe_events_total m;
  dunning_blocked_total := dunning_blocked_total m;
|}.

Definition record_dunning_block (org status : string) (m : t) : t :=
  mk (forks_total m) (forks_total_by_org m) (fork_latency_ms_sum_by_org m) (throttled_total m)
    (throttled_total_by_org m) (fork_latency_ms_sum m) (fork_latency_ms_count m) (warm_pool_hits m)
    (warm_pool_misses m) (stripe_events_total m) (bump (org, status) 1 (dunning_blocked_total m)).

Definition record_throttled (token_fp org : string) (m : t) : t :=
  mk (forks_total m) (forks_total_by_org m) (fork_latency_ms_sum_by_org m)
    (bump token_fp 1 (throttled_total m)) (bump org 1 (throttled_total_by_org m))
    (fork_latency_ms_sum m) (fork_latency_ms_count m) (warm_pool_hits m) (warm_pool_misses m)
    (stripe_events_total m) (dunning_blocked_total m).

Definition record_warm_hit (m : t) : t :=
  mk (forks_total m) (forks_total_by_org m) (fork_latency_ms_sum_by_org m) (throttled_total m)
    (throttled_total_by_org m) (fork_latency_ms_sum m) (fork_latency_ms_count m)
    (wrap64 (warm_pool_hits m + 1)) (warm_pool_misses m) (stripe_events_total m)
    (dunning_blocked_total m).

Definition record_warm_miss (m : t) : t :=
  mk (forks_total m) (forks_total_by_org m) (fork_latency_ms_sum_by_org m) (throttled_total m)
    (throttled_total_by_org m) (fork_latency_ms_sum m) (fork_latency_ms_count m)
    (warm_pool_hits m) (wrap64 (warm_pool_misses m + 1)) (stripe_events_total m)
    (dunning_blocked_total m).

Definition record_stripe_event (event_type : string) (m : t) : t :=
  mk (forks_total m) (forks_total_by_org m) (fork_latency_ms_sum_by_org m) (throttled_total m)
    (throttled_total_by_org m) (fork_latency_ms_sum m) (fork_latency_ms_count m) (warm_pool_hits m)
    (warm_pool_misses m) (bump event_type 1 (stripe_events_total m)) (dunning_blocked_total m).

(** The key order of [BTreeSet<String>] and of the sorted expositions. *)
Definition str_le (a b : string) : Prop := String.leb a b = true.
#[global] Instance str_le_dec a b : Decision (str_le a b).
Proof. unfold str_le. apply _. Defined.

Definition forks_by_org_snapshot (m : t) : list (string * Z * Z) :=
  let counts := forks_total_by_org m in
  let sums := fork_latency_ms_sum_by_org m in
  let keys : gset string := dom counts ∪ dom sums in
  (fun k => (k, default 0 (counts !! k), default 0 (sums !! k))) <$> merge_sort str_le (elements keys).

Definition pair_le (a b : string * Z) : Prop := str_le a.1 b.1.
#[global] Instance pair_le_dec a b : Decision (pair_le a b).
Proof. unfold pair_le. apply _. Defined.

Definition sorted_pairs (m : gmap string Z) : list (string * Z) := merge_sort pair_le (map_to_list m).

(** [rows.sort_by(|a, b| a.0.cmp(b.0))] on (org, status) keys. *)
Definition row_le (a b : string * string * Z) : Prop :=
  match String.compare a.1.1 b.1.1 with
  | Lt => True
  | Gt => False
  | Eq => str_le a.1.2 b.1.2
  end.
#[global] Instance row_le_dec a b : Decision (row_le a b).
Proof. unfold row_le. destruct (String.compare _ _); apply _. Defined.

Definition line (s : string) : string := s +:+ String NL "".
Definition quoted (s : string) : string := String QUOTE "" +:+ s +:+ String QUOTE "".

(** One labelled series: a line per key, in key order. *)
Definition series (name label : string) (m : gmap string Z) : string :=
  foldr (fun '(k, n) out =>
           line (name +:+ "{" +:+ label +:+ "=" +:+ quoted (escape_label k) +:+ "} " +:+ pretty n) +:+ out)
    "" (sorted_pairs m).

Definition dunning_series (m : gmap (string * string) Z) : string :=
  foldr (fun '(org, status, n) out =>
           line ("nanovm_dunning_blocked_total{org=" +:+ quoted (escape_label org) +:+ ",status="
                 +:+ quoted (escape_label status) +:+ "} " +:+ pretty n) +:+ out)
    "" (merge_sort row_le (map_to_list m)).

Definition head (name help kind : string) : string :=
  line ("# HELP " +:+ name +:+ " " +:+ help) +:+ line ("# TYPE " +:+ name +:+ " " +:+ kind).

Definition plain (name : string) (n : Z) : string := line (name +:+ " " +:+ pretty n).

Definition render_text (m : t) : string :=
  head "nanovm_up" "Always 1 — process is alive." "gauge" +:+
  line "nanovm_up 1" +:+
  head "nanovm_forks_total" "Successful forks (POST /v1/snapshots/:id/fork)." "counter" +:+
  series "nanovm_forks_total" "token" (forks_total m) +:+
  head "nanovm_forks_total_by_org" "Successful forks, rolled up per org (billing dimension)." "counter" +:+
  series "nanovm_forks_total_by_org" "org" (forks_total_by_org m) +:+
  head "nanovm_fork_latency_ms_sum_by_org" "Cumulative fork wall-time (ms), per org." "counter" +:+
  series "nanovm_fork_latency_ms_sum_by_org" "org" (fork_latency_ms_sum_by_org m) +:+
  head "nanovm_fork_quota_throttled_total" "Fork attempts rejected by per-token quota." "counter" +:+
  series "nanovm_fork_quota_throttled_total" "token" (throttled_total m) +:+
  head "nanovm_fork_quota_throttled_total_by_org" "Quota-rejected forks, per org." "counter" +:+
  series "nanovm_fork_quota_throttled_total_by_org" "org" (throttled_total_by_org m) +:+
  head "nanovm_fork_latency_ms_sum" "Sum of fork wall-time (ms)." "counter" +:+
  plain "nanovm_fork_latency_ms_sum" (fork_latency_ms_sum m) +:+
  head "nanovm_fork_latency_ms_count" "Number of latency observations." "counter" +:+
  plain "nanovm_fork_latency_ms_count" (fork_latency_ms_count m) +:+
  head "nanovm_warm_pool_hits_total" "Forks served from the warm pool." "counter" +:+
  plain "nanovm_warm_pool_hits_total" (warm_pool_hits m) +:+
  head "nanovm_warm_pool_misses_total" "Forks that fell through to a cold restore." "counter" +:+
  plain "nanovm_warm_pool_misses_total" (warm_pool_misses m) +:+
  head "nanovm_stripe_webhook_events_total" "Stripe webhook events observed, by type." "counter" +:+
  series "nanovm_stripe_webhook_events_total" "event_type" (stripe_events_total m) +:+
  head "nanovm_dunning_blocked_total" "Fork attempts denied by dunning enforcement (402)." "counter" +:+
  dunning_series (dunning_blocked_total m).
End Metrics.
