(* ===== verification/Routes.v ===== *)
(** * The REST handlers ([crates/control-plane/src/routes.rs], [sandbox.rs] and
    [snapshot_export.rs])

    Every handler behind the bearer check that reaches the hypervisor, as a
    state transformer on the application state, over the interfaces of the
    hypervisor, the ownership store, the fork quota and the durable snapshot
    store. This is the build without the [billing] feature: there the tier
    limits are absent and dunning never blocks. Clock readings and environment
    variables are arguments, and so are extractor rejections. *)

From Stdlib Require Import Ascii String.
From stdpp Require Import strings pretty sorting.
From S2P Require Import Prelude Io Str Fs VmCore VmMock HvCalls Store ApiError Auth WarmPool Api Ownership Metrics.

Local Open Scope string_scope.
Local Open Scope Z_scope.

(** ** Interfaces *)

(** [ForkQuota]: one fork of a bearer token, one of an organisation (without
    the tier's limits, which need the [billing] feature); an error is the number
    of seconds to wait. *)
Class ForkQuota (Q : Type) := {
  try_acquire : option string -> SM Q Z unit;
  try_acquire_org : OrgId -> SM Q Z unit;
}.

(** ** State *)

Module ForkUsage.
Record t : Type := mk { count : Z; total_ms : Z }.
Definition default : t := mk 0 0.
End ForkUsage.

(** What a call reads of its surroundings: the elapsed milliseconds it
    measures and [NANOVM_SANDBOX_SNAPSHOT_ID]. *)
Module Env.
Record t : Type := mk { elapsed_ms : Z; sandbox_snapshot : option string }.
End Env.

Module AppState.
Record t (H Q S O : Type) : Type := mk {
  hypervisor : H;
  fork_usage : gmap string ForkUsage.t;
  fork_quota : Q;
  metrics : Metrics.t;
  warm_pool : WarmPool.t;
  (** The pool's refill tasks that have not finished. *)
  refills : list RefillTask;
  snapshot_store : option S;
  ownership : O;
  vm_defaults : VmConfigDefaults.t;
  (** The counter of [uniq_nonce]. *)
  nonce : Z;
}.
Arguments mk {H Q S O}.
Arguments hypervisor {H Q S O}.
Arguments fork_usage {H Q S O}.
Arguments fork_quota {H Q S O}.
Arguments metrics {H Q S O}.
Arguments warm_pool {H Q S O}.
Arguments refills {H Q S O}.
Arguments snapshot_store {H Q S O}.
Arguments ownership {H Q S O}.
Arguments vm_defaults {H Q S O}.
Arguments nonce {H Q S O}.

Section Updates.
Context {H Q S O : Type}.
Implicit Types s : t H Q S O.

(** [AppState::with_fork_quota]; the in-memory ownership map is the caller's. *)
Definition with_fork_quota (hv : H) (q : Q) (o : O) : t H Q S O :=
  mk hv ∅ q Metrics.new WarmPool.disabled [] None o (VmConfigDefaults.mk None None None) 0.

Definition with_vm_defaults (d : VmConfigDefaults.t) s : t H Q S O :=
  mk (hypervisor s) (fork_usage s) (fork_quota s) (metrics s) (warm_pool s) (refills s)
    (snapshot_store s) (ownership s) d (nonce s).
Definition with_snapshot_store (st : option S) s : t H Q S O :=
  mk (hypervisor s) (fork_usage s) (fork_quota s) (metrics s) (warm_pool s) (refills s)
    st (ownership s) (vm_defaults s) (nonce s).
Definition with_ownership_map (o : O) s : t H Q S O :=
  mk (hypervisor s) (fork_usage s) (fork_quota s) (metrics s) (warm_pool s) (refills s)
    (snapshot_store s) o (vm_defaults s) (nonce s).
Definition with_pool (p : WarmPool.t) (ts : list RefillTask) s : t H Q S O :=
  mk (hypervisor s) (fork_usage s) (fork_quota s) (metrics s) p ts
    (snapshot_store s) (ownership s) (vm_defaults s) (nonce s).
Definition with_warm_pool_size (per_snapshot : Z) s : t H Q S O :=
  if 0 <? per_snapshot then with_pool (WarmPool.new per_snapshot) (refills s) s else s.
Definition with_hypervisor (hv : H) s : t H Q S O :=
  mk hv (fork_usage s) (fork_quota s) (metrics s) (warm_pool s) (refills s)
    (snapshot_store s) (ownership s) (vm_defaults s) (nonce s).
Definition with_usage (u : gmap string ForkUsage.t) s : t H Q S O :=
  mk (hypervisor s) u (fork_quota s) (metrics s) (warm_pool s) (refills s)
    (snapshot_store s) (ownership s) (vm_defaults s) (nonce s).
Definition with_quota (q : Q) s : t H Q S O :=
  mk (hypervisor s) (fork_usage s) q (metrics s) (warm_pool s) (refills s)
    (snapshot_store s) (ownership s) (vm_defaults s) (nonce s).
Definition with_metrics (m : Metrics.t) s : t H Q S O :=
  mk (hypervisor s) (fork_usage s) (fork_quota s) m (warm_pool s) (refills s)
    (snapshot_store s) (ownership s) (vm_defaults s) (nonce s).
Definition with_nonce (n : Z) s : t H Q S O :=
  mk (hypervisor s) (fork_usage s) (fork_quota s) (metrics s) (warm_pool s) (refills s)
    (snapshot_store s) (ownership s) (vm_defaults s) n.
End Updates.
End AppState.

(** ** Small helpers of the handlers *)

(** [header] is the authorization header, when it is text. *)
Definition extract_bearer (header : option string) : option string :=
  h ← header; strip_str_prefix "Bearer " h.

Definition token_fingerprint (token : string) : string :=
  "tok-" +:+ take_chars 4 token +:+ "-" +:+ pretty (Z.of_nat (String.length token)).

(** [bearer.map(token_fingerprint).unwrap_or("anonymous")] *)
Definition fingerprint_or_anonymous (bearer : option string) : string :=
  match bearer with Some t => token_fingerprint t | None => "anonymous" end.

(** [u64::saturating_add] *)
Definition saturating_add64 (a b : Z) : Z := Z.min (a + b) (2 ^ 64 - 1).

Module SandboxAction.
Inductive t : Type :=
| ExecutePython (code : string) (timeout_ms : option Z)
| ExecuteShell (command : string) (timeout_ms : option Z)
| ReadFile (path : string)
| WriteFile (path : string) (content : string) (mode : option Z)
| ListFiles (path : string).
End SandboxAction.

Module SandboxInvokeRequest.
Record t : Type := mk { snapshot : option Z; action : SandboxAction.t }.
End SandboxInvokeRequest.

Module SandboxResult.
Record t : Type := mk {
  stdout : string;
  stderr : string;
  exit_code : Z;
  duration_ms : Z;
  cold_start : bool;
}.
End SandboxResult.

Module DispatchOutcome.
Record t : Type := mk { stdout : string; stderr : string; exit_code : Z }.

Definition from_exec (r : GuestExecResult.t) : t :=
  let exit_code :=
    match GuestExecResult.exit_code r, GuestExecResult.signal r with
    | Some code, _ => code
    | None, Some sig => as_i32 (128 + sig)
    | None, None => -1
    end in
  mk (from_utf8_lossy (GuestExecResult.stdout r)) (from_utf8_lossy (GuestExecResult.stderr r)) exit_code.
End DispatchOutcome.

Definition DEFAULT_SNAPSHOT_ENV : string := "NANOVM_SANDBOX_SNAPSHOT_ID".

(** [{s:?}] of the environment value is an argument. *)
Definition resolve_snapshot_with (debug : string -> string) (req_snapshot : option Z)
    (env_value : option string) : result ApiError SnapshotId :=
  match req_snapshot with
  | Some id => Ok id
  | None =>
      match env_value with
      | Some s =>
          match parse_uint (2 ^ 64 - 1) s with
          | Some id => Ok id
          | None => Err (Bad (DEFAULT_SNAPSHOT_ENV +:+ " must be a u64; got " +:+ debug s))
          end
      | None => Err (Bad ("no snapshot id: pass `snapshot` in body or set " +:+ DEFAULT_SNAPSHOT_ENV))
      end
  end.

Module ExportRequest.
Record t : Type := mk { as_snapshot_id : option Z }.
Definition default : t := mk None.
End ExportRequest.
Module ExportResponse.
Record t : Type := mk { uri : string; snapshot_id : Z }.
End ExportResponse.
Module ImportRequest.
Record t : Type := mk { snapshot_id : Z }.
End ImportRequest.
Module ImportResponse.
Record t : Type := mk { snapshot_id : Z; source_uri : string }.
End ImportResponse.
Module OrgUsageEntry.
Record t : Type := mk { org_id : string; fork_count : Z; fork_total_ms : Z }.
End OrgUsageEntry.

Definition store_err_to_api (err : StoreError) (uri : string) : ApiError :=
  match err with
  | StoreNotFound id =>
      NotFound "snapshot_not_in_store" (uri +:+ ": snapshot id " +:+ pretty id +:+ " not found")
  | StoreAuth msg => Unauthorized ("snapshot store auth: " +:+ msg)
  | StoreBadUri msg => Bad ("snapshot store uri: " +:+ msg)
  | StoreFormat e => Bad ("snapshot store format: " +:+ display_manifest_error e)
  | StoreNetwork msg => InternalDyn ("snapshot store network: " +:+ msg)
  | StoreIo e => InternalDyn ("snapshot store io: " +:+ e)
  end.

(** Sorting by id. *)
Definition handle_le (a b : VmHandle.t) : Prop := VmHandle.id a <= VmHandle.id b.
#[global] Instance handle_le_dec a b : Decision (handle_le a b).
Proof. unfold handle_le. apply _. Defined.

#[global] Instance sm_fmap S E : FMap (SM S E) := fun A B f c => a ← c; mret (f a).

(** ** Handlers *)

Section Handlers.
Context {H Q S O F : Type}.
Context `{!Hypervisor H, !ForkQuota Q, !OwnershipStore O, !FileSystem F, !HostDisk H F,
          !SnapshotStore S F, !Serde string Manifest.t, !Serde string SnapshotRequest.t}.
Context (debug_str : string -> string) (temp_dir pid : string).
Abbreviation state := (AppState.t H Q S O).
Abbreviation handler := (SM state ApiError).

(** A hypervisor call, its error turned into the [Vm] variant. *)
Definition hv {A} (c : SM H VmError A) : handler A := fun s =>
  let (r, h) := c (AppState.hypervisor s) in (map_err ApiVm r, AppState.with_hypervisor h s).

Definition own (f : O -> O) : handler unit :=
  sm_modify (fun s => AppState.with_ownership_map (f (AppState.ownership s)) s).

Definition meter (f : Metrics.t -> Metrics.t) : handler unit :=
  sm_modify (fun s => AppState.with_metrics (f (AppState.metrics s)) s).

Definition require_vm (vm : VmId) (org : OrgId) : handler unit := fun s =>
  (OwnershipMap.require_vm_access (AppState.ownership s) vm org, s).
Definition require_snapshot (snap : SnapshotId) (org : OrgId) : handler unit := fun s =>
  (OwnershipMap.require_snapshot_access (AppState.ownership s) snap org, s).

(** [let Path(id) = id?] and [let Json(req) = body?] *)
Definition path_id (id : result Rejection.t Z) : handler Z := sm_lift (map_err BadPath id).
Definition json_body {A} (body : result Rejection.t A) : handler A := sm_lift (map_err BadJson body).

Definition create_vm (org : OrgId) (body : result Rejection.t CreateVmRequest.t) :
    handler (Z * VmHandleDto.t) :=
  req ← json_body body;
  defaults ← sm_gets AppState.vm_defaults;
  let cfg := VmConfigDefaults.apply_to defaults (CreateVmRequest.into_config req) in
  handle ← hv (VmCore.create_vm cfg);
  _ ← own (OwnershipMap.record_vm (VmHandle.id handle) org);
  mret (201, VmHandleDto.from handle).

(** The enrichment loop of [list_vms]. *)
Fixpoint vm_entries (handles : list VmHandle.t) : handler (list VmListEntry.t) :=
  match handles with
  | [] => mret []
  | handle :: handles =>
      entry ← fun s =>
        let (r, h) := VmCore.vm_meta (VmHandle.id handle) (AppState.hypervisor s) in
        (match r with
         | Ok meta => Ok (VmListEntry.from_meta meta)
         | Err (Unsupported _ | UnknownVm _) => Ok (VmListEntry.id_only handle)
         | Err e => Err (ApiVm e)
         end, AppState.with_hypervisor h s);
      entries ← vm_entries handles;
      mret (entry :: entries)
  end.

Definition list_vms (org : OrgId) (query : ListQuery.t) : handler VmListResponse.t :=
  limit ← sm_lift (ListQuery.validated_limit query);
  let after := default 0 (ListQuery.after query) in
  handles ← hv VmCore.list_vms;
  own ← sm_gets AppState.ownership;
  let handles := filter (fun h => OwnershipMap.vm_owner own (VmHandle.id h) = org) handles in
  let handles := merge_sort handle_le handles in
  let filtered := filter (fun h => after < VmHandle.id h) handles in
  let has_more := limit <? zlen filtered in
  vms ← vm_entries (take (Z.to_nat limit) filtered);
  let next := if has_more then VmListEntry.id <$> last vms else None in
  mret (VmListResponse.mk vms next).

Definition get_vm (org : OrgId) (id : result Rejection.t Z) : handler VmStateResponse.t :=
  vm_id ← path_id id;
  _ ← require_vm vm_id org;
  vm_state ← hv (VmCore.state vm_id);
  mret (VmStateResponse.new vm_id vm_state).

Definition start_vm (org : OrgId) (id : result Rejection.t Z) : handler Z :=
  vm_id ← path_id id;
  _ ← require_vm vm_id org;
  _ ← hv (VmCore.start vm_id);
  mret 204.

Definition stop_vm (org : OrgId) (id : result Rejection.t Z) : handler Z :=
  vm_id ← path_id id;
  _ ← require_vm vm_id org;
  _ ← hv (VmCore.stop vm_id);
  mret 204.

Definition destroy_vm (org : OrgId) (role : Role) (id : result Rejection.t Z) : handler Z :=
  _ ← sm_lift (require_role role Developer);
  vm_id ← path_id id;
  _ ← require_vm vm_id org;
  _ ← hv (VmCore.destroy vm_id);
  _ ← own (OwnershipMap.forget_vm vm_id);
  mret 204.

(** [manifest.write_to_dir(&dir)], on the host's disk. *)
Definition persist_manifest (manifest : Manifest.t) (dir : string) : handler unit := fun s =>
  let h := AppState.hypervisor s in
  let (r, f) := Manifest.write_to_dir manifest dir (host_fs h) in
  (map_err (fun e => ApiVm (Backend ("snapshot persist: " +:+ display_manifest_error e))) r,
   AppState.with_hypervisor (set_host_fs f h) s).

(** The part of [snapshot_vm] that writes the manifest. *)
Definition persist_to (snap : SnapshotId) (to_dir : option string) : handler (option string) :=
  match to_dir with
  | None => mret None
  | Some dir =>
      meta ← hv (VmCore.snapshot_meta snap);
      let manifest := Manifest.new (SnapshotMeta.id meta) (SnapshotMeta.memory_bytes meta)
                        (SnapshotMeta.page_size meta) (SnapshotMeta.vcpu_count meta) in
      let manifest := Manifest.set_cmdline (SnapshotMeta.kernel_cmdline meta) manifest in
      _ ← persist_manifest manifest dir;
      mret (Some dir)
  end.

Definition snapshot_vm (org : OrgId) (id : result Rejection.t Z) (body : bytes) :
    handler (Z * SnapshotDto.t) :=
  vm_id ← path_id id;
  _ ← require_vm vm_id org;
  req ← sm_lift (match body with
                 | [] => Ok SnapshotRequest.default
                 | _ => map_err (fun e => Bad ("snapshot body: " +:+ e)) (Io.from_json body)
                 end);
  snap ← hv (VmCore.snapshot vm_id);
  _ ← own (OwnershipMap.record_snapshot snap org);
  dir ← persist_to snap (SnapshotRequest.to_dir req);
  let dto := SnapshotDto.from snap in
  mret (201, SnapshotDto.mk (SnapshotDto.id dto) (SnapshotDto.display dto) dir).

Definition restore_snapshot (org : OrgId) (id : result Rejection.t Z) : handler (Z * VmHandleDto.t) :=
  snap_id ← path_id id;
  _ ← require_snapshot snap_id org;
  handle ← hv (VmCore.restore snap_id);
  _ ← own (OwnershipMap.record_vm (VmHandle.id handle) org);
  mret (201, VmHandleDto.from handle).

(** A quota call; a refusal is metered and becomes a 429. *)
Definition quota_gate (call : SM Q Z unit) (what fp : string) (org : OrgId) : handler unit := fun s =>
  let (r, q) := call (AppState.fork_quota s) in
  let s := AppState.with_quota q s in
  match r with
  | Ok _ => (Ok tt, s)
  | Err retry_after_secs =>
      (_ ← meter (Metrics.record_throttled fp org);
       sm_fail (TooManyRequests "fork_quota_exceeded"
                  (what +:+ pretty retry_after_secs +:+ " second(s)") retry_after_secs)) s
  end.

(** [warm_pool.take(snap)]: the handle, and the refill tasks it spawned. *)
Definition pool_take (snap : SnapshotId) : handler (option VmHandle.t) := fun s =>
  let '(handle, needed, p) := WarmPool.take snap (AppState.warm_pool s) in
  (Ok handle,
   AppState.with_pool p (AppState.refills s ++ replicate (Z.to_nat needed) (Spawned snap)) s).

(** A VM of the snapshot from the pool, or a cold restore; whether it was cold. *)
Definition take_or_restore (snap : SnapshotId) : handler (VmHandle.t * bool) :=
  warm ← pool_take snap;
  match warm with
  | Some h => _ ← meter Metrics.record_warm_hit; mret (h, false)
  | None =>
      _ ← meter Metrics.record_warm_miss;
      h ← hv (VmCore.restore snap);
      mret (h, true)
  end.

(** The usage entry of a bearer token after one more fork. *)
Definition charge (token : string) (fork_ms : Z) : handler ForkUsage.t := fun s =>
  let old := default ForkUsage.default (AppState.fork_usage s !! token) in
  let entry := ForkUsage.mk (saturating_add64 (ForkUsage.count old) 1)
                 (saturating_add64 (ForkUsage.total_ms old) fork_ms) in
  (Ok entry, AppState.with_usage (<[token := entry]> (AppState.fork_usage s)) s).

Definition fork_snapshot (env : Env.t) (org : OrgId) (id : result Rejection.t Z)
    (authorization : option string) : handler (Z * ForkResponseDto.t) :=
  snap_id ← path_id id;
  _ ← require_snapshot snap_id org;
  let bearer := extract_bearer authorization in
  let fp := fingerprint_or_anonymous bearer in
  _ ← quota_gate (try_acquire bearer) "fork quota exceeded; retry after " fp org;
  _ ← quota_gate (try_acquire_org org) "org fork quota exceeded; retry after " fp org;
  '(handle, _) ← take_or_restore snap_id;
  _ ← own (OwnershipMap.record_vm (VmHandle.id handle) org);
  let fork_ms := wrap64 (Env.elapsed_ms env) in
  _ ← meter (Metrics.record_fork fp org fork_ms);
  usage ← match bearer with
          | Some token => charge token fork_ms
          | None => mret (ForkUsage.mk 1 fork_ms)
          end;
  mret (201, ForkResponseDto.mk (VmHandleDto.from handle) fork_ms (ForkUsage.count usage)
               (ForkUsage.total_ms usage)).

Definition usage (authorization : option string) : handler UsageResponseDto.t :=
  token ← sm_lift (ok_or (Unauthorized "missing bearer for usage query") (extract_bearer authorization));
  used ← sm_gets AppState.fork_usage;
  let entry := default ForkUsage.default (used !! token) in
  mret (UsageResponseDto.mk (token_fingerprint token) (ForkUsage.count entry) (ForkUsage.total_ms entry)).

Definition usage_by_org (org : OrgId) (all : option bool) : handler (list OrgUsageEntry.t) :=
  m ← sm_gets AppState.metrics;
  let want_all := default false all in
  let is_operator := String.eqb org default_org in
  mret (omap (fun '(org_id, fork_count, fork_total_ms) =>
                if want_all && is_operator || String.eqb org_id org
                then Some (OrgUsageEntry.mk org_id fork_count fork_total_ms) else None)
          (Metrics.forks_by_org_snapshot m)).

(** The enrichment loop of [list_snapshots]. *)
Fixpoint snapshot_entries (ids : list SnapshotId) : handler (list SnapshotListEntry.t) :=
  match ids with
  | [] => mret []
  | id :: ids =>
      entry ← fun s =>
        let (r, h) := VmCore.snapshot_meta id (AppState.hypervisor s) in
        (match r with
         | Ok meta => Ok (SnapshotListEntry.from_meta meta)
         | Err (Unsupported _ | UnknownSnapshot _) => Ok (SnapshotListEntry.id_only id)
         | Err e => Err (ApiVm e)
         end, AppState.with_hypervisor h s);
      entries ← snapshot_entries ids;
      mret (entry :: entries)
  end.

Definition list_snapshots (org : OrgId) (query : ListQuery.t) : handler SnapshotListResponse.t :=
  limit ← sm_lift (ListQuery.validated_limit query);
  let after := default 0 (ListQuery.after query) in
  ids ← hv VmCore.list_snapshots;
  own ← sm_gets AppState.ownership;
  let ids := filter (fun s => OwnershipMap.snapshot_owner own s = org) ids in
  let ids := merge_sort Z.le ids in
  let filtered := filter (fun s => after < s) ids in
  let has_more := limit <? zlen filtered in
  snapshots ← snapshot_entries (take (Z.to_nat limit) filtered);
  let next := if has_more then SnapshotListEntry.id <$> last snapshots else None in
  mret (SnapshotListResponse.mk snapshots next).

Definition pool_drain (snap : SnapshotId) : handler unit := fun s =>
  let (p, h) := WarmPool.drain snap (AppState.warm_pool s) (AppState.hypervisor s) in
  (Ok tt, AppState.with_hypervisor h (AppState.with_pool p (AppState.refills s) s)).

Definition delete_snapshot (org : OrgId) (role : Role) (id : result Rejection.t Z) : handler Z :=
  _ ← sm_lift (require_role role Developer);
  snap_id ← path_id id;
  _ ← require_snapshot snap_id org;
  _ ← pool_drain snap_id;
  _ ← hv (VmCore.delete_snapshot snap_id);
  _ ← own (OwnershipMap.forget_snapshot snap_id);
  mret 204.

Definition exec_vm (org : OrgId) (id : result Rejection.t Z) (body : result Rejection.t ExecRequest.t) :
    handler ExecResponse.t :=
  vm_id ← path_id id;
  _ ← require_vm vm_id org;
  req ← json_body body;
  result ← hv (VmCore.exec_in_guest vm_id (ExecRequest.into_guest req));
  mret (ExecResponse.from result).

Definition write_file (org : OrgId) (id : result Rejection.t Z)
    (body : result Rejection.t FileWriteRequest.t) : handler Z :=
  vm_id ← path_id id;
  _ ← require_vm vm_id org;
  req ← json_body body;
  hv (VmCore.write_file vm_id (FileWriteRequest.path req) (FileWriteRequest.content req)
        (FileWriteRequest.mode req)).

(** [query] is the path, or the text of the rejected query string. *)
Definition read_file (org : OrgId) (id : result Rejection.t Z) (query : result string string) :
    handler bytes :=
  vm_id ← path_id id;
  _ ← require_vm vm_id org;
  path ← sm_lift (map_err Bad query);
  hv (VmCore.read_file vm_id path).

(** ** The sandbox *)

Definition guest_exec (vm : VmId) (program : string) (args : list string) (timeout_ms : option Z) :
    handler DispatchOutcome.t :=
  r ← hv (VmCore.exec_in_guest vm (GuestExecRequest.mk program args None [] timeout_ms));
  mret (DispatchOutcome.from_exec r).

Definition dispatch (vm : VmId) (action : SandboxAction.t) : handler DispatchOutcome.t :=
  match action with
  | SandboxAction.ExecutePython code timeout_ms => guest_exec vm "python3" ["-c"; code] timeout_ms
  | SandboxAction.ExecuteShell command timeout_ms => guest_exec vm "sh" ["-c"; command] timeout_ms
  | SandboxAction.ReadFile path =>
      bs ← hv (VmCore.read_file vm path);
      mret (DispatchOutcome.mk (from_utf8_lossy bs) "" 0)
  | SandboxAction.WriteFile path content mode =>
      n ← hv (VmCore.write_file vm path (bytes_of_string content) (default 420 mode));
      mret (DispatchOutcome.mk ("bytes_written=" +:+ pretty n) "" 0)
  | SandboxAction.ListFiles path => guest_exec vm "ls" ["-1"; "--"; path] None
  end.

(** [let outcome = dispatch(..)]: the error is kept for later. *)
Definition attempt {A} (c : handler A) : handler (result ApiError A) := fun s =>
  let (r, s) := c s in (Ok r, s).

Definition sandbox_invoke (env : Env.t) (org : OrgId)
    (body : result Rejection.t SandboxInvokeRequest.t) : handler SandboxResult.t :=
  req ← json_body body;
  snapshot_id ← sm_lift (resolve_snapshot_with debug_str (SandboxInvokeRequest.snapshot req)
                           (Env.sandbox_snapshot env));
  _ ← require_snapshot snapshot_id org;
  '(handle, cold_start) ← take_or_restore snapshot_id;
  let vm_id := VmHandle.id handle in
  _ ← own (OwnershipMap.record_vm vm_id org);
  outcome ← attempt (dispatch vm_id (SandboxInvokeRequest.action req));
  _ ← attempt (hv (VmCore.destroy vm_id));
  _ ← own (OwnershipMap.forget_vm vm_id);
  outcome ← sm_lift outcome;
  mret (SandboxResult.mk (DispatchOutcome.stdout outcome) (DispatchOutcome.stderr outcome)
          (DispatchOutcome.exit_code outcome) (wrap64 (Env.elapsed_ms env)) cold_start).

(** ** Export and import *)

Definition storage_unsupported : ApiError :=
  ApiUnsupported "storage_unsupported"
    "no durable snapshot store configured (set NANOVM_SNAPSHOT_STORE before starting the control plane)".

(** A store call on the host's disk, its error mapped for [uri]. *)
Definition store_call {A} (store : S) (uri : string) (c : SM (S * F) StoreError A) : handler A := fun s =>
  let h := AppState.hypervisor s in
  let '(r, (store, f)) := c (store, host_fs h) in
  (map_err (fun e => store_err_to_api e uri) r,
   AppState.with_snapshot_store (Some store) (AppState.with_hypervisor (set_host_fs f h) s)).

Definition snapshot_uri (store : S) (id : Z) : string := store_display store +:+ "/snap-" +:+ pretty id.

Definition export_snapshot (org : OrgId) (id : result Rejection.t Z)
    (body : result Rejection.t ExportRequest.t) : handler (Z * ExportResponse.t) :=
  snap ← path_id id;
  _ ← require_snapshot snap org;
  let req := match body with Ok req => req | Err _ => ExportRequest.default end in
  store ← sm_gets AppState.snapshot_store;
  store ← sm_lift (ok_or storage_unsupported store);
  dir ← hv (VmCore.snapshot_export_dir snap);
  dir ← sm_lift (ok_or (ApiUnsupported "snapshot_export_unsupported"
                          ("snapshot id " +:+ pretty snap +:+ " has no on-disk representation on this backend"))
                   dir);
  let target_id := default snap (ExportRequest.as_snapshot_id req) in
  let display_uri := snapshot_uri store target_id in
  _ ← store_call store display_uri (store_put target_id dir);
  mret (200, ExportResponse.mk display_uri target_id).

(** [uniq_nonce] *)
Definition uniq_nonce : handler Z := fun s =>
  let (n, next) := fetch_add1 (AppState.nonce s) in (Ok n, AppState.with_nonce next s).

Definition remove_dir_all (dir : string) : handler unit :=
  sm_modify (fun s =>
    let h := AppState.hypervisor s in
    AppState.with_hypervisor (set_host_fs (fs_remove_dir_all dir (host_fs h)).2 h) s).

Definition import_snapshot (org : OrgId) (body : result Rejection.t ImportRequest.t) :
    handler (Z * ImportResponse.t) :=
  req ← json_body body;
  store ← sm_gets AppState.snapshot_store;
  store ← sm_lift (ok_or storage_unsupported store);
  let src := ImportRequest.snapshot_id req in
  let display_uri := snapshot_uri store src in
  nonce ← uniq_nonce;
  let target_dir := push temp_dir ("nanovm-snapshot-import-" +:+ pid +:+ "-" +:+ pretty src +:+ "-"
                                   +:+ pretty nonce) in
  _ ← store_call store display_uri (store_get src target_dir);
  local_id ← hv (VmCore.snapshot_adopt target_dir);
  _ ← own (OwnershipMap.record_snapshot local_id org);
  _ ← remove_dir_all target_dir;
  mret (201, ImportResponse.mk local_id display_uri).

(** ** The router

    The routes under [/v1] that reach the application state, and what each
    extractor hands to its handler. The streaming exec route answers a stream
    instead of a body; its handler is [exec_vm_stream] of [ExecSse]. *)
Inductive Request : Type :=
| RCreateVm (body : result Rejection.t CreateVmRequest.t)
| RListVms (query : ListQuery.t)
| RGetVm (id : result Rejection.t Z)
| RStartVm (id : result Rejection.t Z)
| RStopVm (id : result Rejection.t Z)
| RDestroyVm (id : result Rejection.t Z)
| RSnapshotVm (id : result Rejection.t Z) (body : bytes)
| RExecVm (id : result Rejection.t Z) (body : result Rejection.t ExecRequest.t)
| RWriteFile (id : result Rejection.t Z) (body : result Rejection.t FileWriteRequest.t)
| RReadFile (id : result Rejection.t Z) (query : result string string)
| RSandbox (body : result Rejection.t SandboxInvokeRequest.t)
| RListSnapshots (query : ListQuery.t)
| RDeleteSnapshot (id : result Rejection.t Z)
| RRestore (id : result Rejection.t Z)
| RFork (id : result Rejection.t Z)
| RExport (id : result Rejection.t Z) (body : result Rejection.t ExportRequest.t)
| RImport (body : result Rejection.t ImportRequest.t)
| RUsage
| RUsageByOrg (all : option bool).

Inductive Response : Type :=
| AVm (r : Z * VmHandleDto.t)
| AVms (r : VmListResponse.t)
| AState (r : VmStateResponse.t)
| AStatus (status : Z)
| ASnapshot (r : Z * SnapshotDto.t)
| AExec (r : ExecResponse.t)
| AWritten (bytes : Z)
| ARead (content : bytes)
| ASandbox (r : SandboxResult.t)
| ASnapshots (r : SnapshotListResponse.t)
| AFork (r : Z * ForkResponseDto.t)
| AExported (r : Z * ExportResponse.t)
| AImported (r : Z * ImportResponse.t)
| AUsage (r : UsageResponseDto.t)
| AUsageByOrg (orgs : list OrgUsageEntry.t).

(** The handler of a route, for the caller the bearer check admitted. *)
Definition route (env : Env.t) (authorization : option string) (org : OrgId) (role : Role)
    (req : Request) : handler Response :=
  match req with
  | RCreateVm body => AVm <$> create_vm org body
  | RListVms query => AVms <$> list_vms org query
  | RGetVm id => AState <$> get_vm org id
  | RStartVm id => AStatus <$> start_vm org id
  | RStopVm id => AStatus <$> stop_vm org id
  | RDestroyVm id => AStatus <$> destroy_vm org role id
  | RSnapshotVm id body => ASnapshot <$> snapshot_vm org id body
  | RExecVm id body => AExec <$> exec_vm org id body
  | RWriteFile id body => AWritten <$> write_file org id body
  | RReadFile id query => ARead <$> read_file org id query
  | RSandbox body => ASandbox <$> sandbox_invoke env org body
  | RListSnapshots query => ASnapshots <$> list_snapshots org query
  | RDeleteSnapshot id => AStatus <$> delete_snapshot org role id
  | RRestore id => AVm <$> restore_snapshot org id
  | RFork id => AFork <$> fork_snapshot env org id authorization
  | RExport id body => AExported <$> export_snapshot org id body
  | RImport body => AImported <$> import_snapshot org body
  | RUsage => AUsage <$> usage authorization
  | RUsageByOrg all => AUsageByOrg <$> usage_by_org org all
  end.

(** A request through the bearer check. *)
Definition serve (tokens : option ApiTokens.t) (env : Env.t) (authorization : option string)
    (req : Request) : handler Response :=
  '(org, role) ← sm_lift (require_token tokens authorization);
  route env authorization org role req.

(** One locked section (or the restore) of refill task [i]. *)
Definition refill (i : nat) (s : state) : state :=
  let p := AppState.warm_pool s in
  let ts := AppState.refills s in
  match ts !! i with
  | Some (Spawned snap) =>
      let (r, h) := VmCore.restore snap (AppState.hypervisor s) in
      let result := match r with Ok handle => Some handle | Err _ => None end in
      AppState.with_hypervisor h (AppState.with_pool p (<[i := Restored snap result]> ts) s)
  | Some (Restored snap (Some handle)) =>
      AppState.with_pool (WarmPool.release snap p) (<[i := Released snap handle]> ts) s
  | Some (Restored snap None) => AppState.with_pool (WarmPool.release snap p) (delete i ts) s
  | Some (Released snap handle) =>
      AppState.with_pool (WarmPool.push_back snap handle p) (delete i ts) s
  | None => s
  end.

(** What happens to the server: a request of an admitted caller, or a section
    of a refill task. *)
Inductive Event : Type :=
| Http (env : Env.t) (authorization : option string) (org : OrgId) (role : Role) (req : Request)
| Refill (i : nat).

Definition step (s : state) (e : Event) : state :=
  match e with
  | Http env authorization org role req => (route env authorization org role req s).2
  | Refill i => refill i s
  end.

Definition run (es : list Event) (s : state) : state := foldl step s es.
End Handlers.
