(* ===== verification/Tenancy.v ===== *)
(** * Tenant isolation

    What one organisation's requests can do to the VMs and snapshots recorded
    for another, for the handlers of [Routes] over any hypervisor and ownership
    store that meet their contracts, with the warm pool's background refills
    interleaved. *)

From Stdlib Require Import Ascii String.
From stdpp Require Import strings pretty sorting.
From S2P Require Import Prelude Io Str Fs VmCore VmMock HvCalls Store ApiError Auth WarmPool Api Ownership.
From S2P Require Import Metrics Routes.

Local Open Scope string_scope.
Local Open Scope Z_scope.

(** ** The pool's VMs *)

(** The VMs the pool and its refill tasks hold. *)
Definition pool_vms (p : WarmPool.t) (ts : list RefillTask) : list (SnapshotId * VmHandle.t) :=
  queued p ++ held ts.

Definition vm_ids (l : list (SnapshotId * VmHandle.t)) : list VmId := (fun x => VmHandle.id x.2) <$> l.

Lemma machine_vms p ts e p' ts' hd rp :
  PoolMachine.step (PoolMachine.mk p ts [] []) e = Some (PoolMachine.mk p' ts' hd rp) ->
  births (PoolMachine.mk p ts [] []) e ++ pool_vms p ts ≡ₚ hd ++ rp ++ pool_vms p' ts'.
Proof. intros Hs%step_conserves. exact Hs. Qed.

Lemma take_vms snap p ts h needed p' :
  WarmPool.take snap p = (h, needed, p') ->
  pool_vms p ts ≡ₚ option_list ((fun h => (snap, h)) <$> h)
                     ++ pool_vms p' (ts ++ replicate (Z.to_nat needed) (Spawned snap)).
Proof.
  unfold WarmPool.take. destruct (WarmPool.is_disabled p) eqn:Hd.
  { intros [= <- <- <-]. simpl. by rewrite app_nil_r. }
  destruct (WarmPool.pop snap p) as [h1 p1] eqn:Hp, (WarmPool.kick_refill snap p1) as [n p2] eqn:Hk.
  intros [= <- <- <-].
  rewrite (machine_vms p ts (Pop snap) p1 ts (option_list ((fun h => (snap, h)) <$> h1)) []).
  2: { simpl. rewrite Hd, Hp. by destruct h1. }
  simpl. f_equiv.
  apply (machine_vms p1 ts (Kick snap) p2 (ts ++ replicate (Z.to_nat n) (Spawned snap)) [] []).
  simpl. by rewrite Hk.
Qed.

Lemma drain_vms snap p ts hs p' :
  WarmPool.take_queue snap p = (hs, p') -> pool_vms p ts ≡ₚ pairs snap hs ++ pool_vms p' ts.
Proof.
  intros Ht. apply (machine_vms p ts (Drain snap) p' ts [] (pairs snap hs)). simpl.
  by injection Ht as <- <-.
Qed.

Lemma vm_ids_pairs snap hs : vm_ids (pairs snap hs) = VmHandle.id <$> hs.
Proof. unfold vm_ids, pairs. rewrite <- list_fmap_compose. done. Qed.

(** ** The invariant and what a caller may touch *)

Section Isolation.
Context {H V P Q S O F : Type}.
Context `{!Hypervisor H, !HostDisk H F, !HypervisorFrame H V P F, !ForkQuota Q, !OwnershipStore O,
          !OwnershipStoreLaws O, !FileSystem F, !SnapshotStore S F, !Serde string Manifest.t,
          !Serde string SnapshotRequest.t}.
Context (debug_str : string -> string) (temp_dir pid : string).
Abbreviation state := (AppState.t H Q S O).
Abbreviation handler := (SM state ApiError).
Implicit Types (s : state) (who : option OrgId).

Definition owner_vm s (v : VmId) : option OrgId := Ownership.vm_owner (AppState.ownership s) v.
Definition owner_snap s (p : SnapshotId) : option OrgId := Ownership.snapshot_owner (AppState.ownership s) p.
Definition see_vm s (v : VmId) : option V := vm_view (AppState.hypervisor s) v.
Definition see_snap s (p : SnapshotId) : option P := snap_view (AppState.hypervisor s) p.
Definition pool_ids s : list VmId := vm_ids (pool_vms (AppState.warm_pool s) (AppState.refills s)).

(** Recorded resources were given out by the hypervisor; so were the pool's
    VMs, which are distinct and not recorded for anybody. [n] more ids can be
    given out. *)
Record app_inv (n : Z) s : Prop := {
  ai_hv : hv_inv n (AppState.hypervisor s);
  ai_vm v A : owner_vm s v = Some A -> vm_issued (AppState.hypervisor s) v;
  ai_snap p A : owner_snap s p = Some A -> snap_issued (AppState.hypervisor s) p;
  ai_pool v : v ∈ pool_ids s -> vm_issued (AppState.hypervisor s) v /\ owner_vm s v = None;
  ai_distinct : NoDup (pool_ids s);
}.

(** [s'] has the resources of [s] that are recorded for others than [who]. *)
Definition untouched who s s' : Prop :=
  (forall v A, owner_vm s v = Some A -> who <> Some A ->
     owner_vm s' v = Some A /\ see_vm s' v = see_vm s v)
  /\ (forall p A, owner_snap s p = Some A -> who <> Some A ->
     owner_snap s' p = Some A /\ see_snap s' p = see_snap s p).

Lemma untouched_refl who s : untouched who s s.
Proof. by split. Qed.

Lemma untouched_trans who s1 s2 s3 : untouched who s1 s2 -> untouched who s2 s3 -> untouched who s1 s3.
Proof.
  intros [Hv1 Hp1] [Hv2 Hp2]. split; intros x A Hx Hne.
  - destruct (Hv1 _ _ Hx Hne) as [Ho He]. destruct (Hv2 _ _ Ho Hne) as [? He2].
    split; [done|by rewrite He2].
  - destruct (Hp1 _ _ Hx Hne) as [Ho He]. destruct (Hp2 _ _ Ho Hne) as [? He2].
    split; [done|by rewrite He2].
Qed.

Lemma app_inv_weaken n m s : app_inv n s -> m <= n -> app_inv m s.
Proof. intros [] ?. split; auto. by eapply hv_inv_weaken. Qed.

(** A handler step using up at most [k] ids: from [pre] it keeps the invariant
    and the others' resources, and a success establishes [post]. *)
Definition safe who (k : Z) {A} (pre : state -> Prop) (c : handler A) (post : A -> state -> Prop) : Prop :=
  forall n s r s', 0 <= n -> app_inv (n + k) s -> pre s -> c s = (r, s') ->
    app_inv n s' /\ untouched who s s' /\ (forall a, r = Ok a -> post a s').

Definition any : state -> Prop := fun _ => True.
Definition anything {A} : A -> state -> Prop := fun _ _ => True.

Lemma safe_bind who k1 k2 {A B} pre (c : handler A) mid (f : A -> handler B) post :
  0 <= k2 -> safe who k1 pre c mid -> (forall a, safe who k2 (mid a) (f a) post) ->
  safe who (k1 + k2) pre (a ← c; f a) post.
Proof.
  intros Hk Hc Hf n s r s' Hn Hi Hp. unfold mbind, sm_bind.
  destruct (c s) as [r1 s1] eqn:He.
  destruct (Hc (n + k2) s r1 s1) as (Hi1 & Hu1 & Hm); [lia|by replace (n + k2 + k1) with (n + (k1 + k2)) by lia|done..|].
  destruct r1 as [a|e].
  - intros Hr. destruct (Hf a n s1 r s' Hn Hi1 (Hm a eq_refl) Hr) as (Hi2 & Hu2 & Hq).
    split_and!; [done| |done]. by eapply untouched_trans.
  - intros [= <- <-]. split_and!; [eapply app_inv_weaken; [done|lia]|done|done].
Qed.

(** The two ways a sequence uses up its ids. *)
Lemma safe_then who k {A B} pre (c : handler A) mid (f : A -> handler B) post :
  0 <= k -> safe who 0 pre c mid -> (forall a, safe who k (mid a) (f a) post) ->
  safe who k pre (a ← c; f a) post.
Proof. intros. replace k with (0 + k) by lia. by eapply safe_bind. Qed.

Lemma safe_first who k {A B} pre (c : handler A) mid (f : A -> handler B) post :
  safe who k pre c mid -> (forall a, safe who 0 (mid a) (f a) post) ->
  safe who k pre (a ← c; f a) post.
Proof. intros. replace k with (k + 0) by lia. by eapply safe_bind. Qed.

Lemma safe_weaken who k k' {A} (pre pre' : state -> Prop) (c : handler A) (post post' : A -> state -> Prop) :
  safe who k pre c post -> k <= k' -> (forall s, pre' s -> pre s) -> (forall a s, post a s -> post' a s) ->
  safe who k' pre' c post'.
Proof.
  intros Hc Hk Hp Hq n s r s' Hn Hi Hpre He.
  destruct (Hc n s r s') as (? & ? & Hpost); [done|eapply app_inv_weaken; [done|lia]|auto|done|].
  split_and!; auto.
Qed.

(** Steps that change nothing. *)
Lemma safe_lift who {A} pre (r : result ApiError A) :
  safe who 0 pre (sm_lift r) (fun a s => pre s /\ r = Ok a).
Proof.
  intros n s r1 s' Hn Hi Hp [= <- <-]. rewrite Z.add_0_r in Hi. split_and!; auto using untouched_refl.
Qed.

Lemma safe_pure who {A} (pre : state -> Prop) (a : A) (post : A -> state -> Prop) :
  (forall s, pre s -> post a s) -> safe who 0 pre (mret a) post.
Proof.
  intros Hq n s r s' Hn Hi Hp [= <- <-]. rewrite Z.add_0_r in Hi.
  split_and!; [done|apply untouched_refl|]. intros ? [= <-]. auto.
Qed.

Lemma safe_gets who {A} pre (f : state -> A) : safe who 0 pre (sm_gets f) (fun a s => pre s /\ a = f s).
Proof.
  intros n s r s' Hn Hi Hp [= <- <-]. rewrite Z.add_0_r in Hi.
  split_and!; [done|apply untouched_refl|]. by intros ? [= <-].
Qed.

(** Steps outside the hypervisor, the ownership store and the pool. *)
Definition same_core s s' : Prop :=
  AppState.hypervisor s' = AppState.hypervisor s /\ AppState.ownership s' = AppState.ownership s
  /\ AppState.warm_pool s' = AppState.warm_pool s /\ AppState.refills s' = AppState.refills s.

Lemma safe_quiet who {A} (pre : state -> Prop) (c : handler A) :
  (forall s, same_core s (c s).2) -> (forall s s', same_core s s' -> pre s -> pre s') ->
  safe who 0 pre c (fun _ => pre).
Proof.
  intros Hc Hp n s r s' Hn Hi Hpre He. rewrite Z.add_0_r in Hi. specialize (Hc s). rewrite He in Hc.
  pose proof Hc as (Hh & Ho & Hw & Ht). simpl in *. split_and!.
  - destruct Hi. split; unfold owner_vm, owner_snap, pool_ids in *; rewrite ?Hh, ?Ho, ?Hw, ?Ht; auto.
  - split; unfold owner_vm, owner_snap, see_vm, see_snap; by rewrite ?Hh, ?Ho.
  - intros _ _. by eapply Hp.
Qed.

(** *** Hypervisor calls *)

Definition mine_vm who (v : VmId) s : Prop := forall A, owner_vm s v = Some A -> who = Some A.
Definition mine_snap who (p : SnapshotId) s : Prop := forall A, owner_snap s p = Some A -> who = Some A.

(** An id the hypervisor gave out that nobody holds yet. *)
Definition fresh_vm (v : VmId) s : Prop :=
  vm_issued (AppState.hypervisor s) v /\ owner_vm s v = None /\ v ∉ pool_ids s.
Definition fresh_snap (p : SnapshotId) s : Prop :=
  snap_issued (AppState.hypervisor s) p /\ owner_snap s p = None.

(** The targets of a call belong to the caller. *)
Definition allowed who {A} (c : HvCall A) s : Prop :=
  (forall v, vm_target c = Some v -> mine_vm who v s)
  /\ (forall p, snap_target c = Some p -> mine_snap who p s).

Lemma touched_step who n s h' vm snap new_vm new_snap :
  app_inv n s -> hv_inv n h' ->
  touched vm_view snap_view vm_issued snap_issued vm snap new_vm new_snap (AppState.hypervisor s) h' ->
  (forall v, vm = Some v -> mine_vm who v s) -> (forall p, snap = Some p -> mine_snap who p s) ->
  app_inv n (AppState.with_hypervisor h' s) /\ untouched who s (AppState.with_hypervisor h' s)
  /\ (forall v, new_vm = Some v -> fresh_vm v (AppState.with_hypervisor h' s))
  /\ (forall p, new_snap = Some p -> fresh_snap p (AppState.with_hypervisor h' s)).
Proof.
  intros [_ Hvm Hsn Hpool Hd] Hh' [Hvi Hpi Hv Hp Hnv Hnp] Hmv Hmp. split_and!.
  - split; simpl; [done|by eauto|by eauto| |done].
    intros v Hin. destruct (Hpool v Hin). eauto.
  - split; intros x A Ho Hne; (split; [done|]).
    + apply Hv; [intros ->; by apply Hne, (Hmv x eq_refl)|]. intros Hx. destruct (Hnv x Hx) as [[] _]. by eapply Hvm.
    + apply Hp; [intros ->; by apply Hne, (Hmp x eq_refl)|]. intros Hx. destruct (Hnp x Hx) as [[] _]. by eapply Hsn.
  - intros v Hb. destruct (Hnv v Hb) as [Hni Hi]. split_and!; [done| |].
    + destruct (owner_vm s v) eqn:Ho; [|done]. by apply Hvm in Ho.
    + intros Hin. by destruct (Hpool v Hin).
  - intros p Hb. destruct (Hnp p Hb) as [Hni Hi]. split; [done|].
    change (owner_snap s p = None). destruct (owner_snap s p) eqn:Ho; [|done]. by apply Hsn in Ho.
Qed.

Definition born {A} (c : HvCall A) (a : A) s : Prop :=
  (forall v, born_vm c a = Some v -> fresh_vm v s) /\ (forall p, born_snapshot c a = Some p -> fresh_snap p s).

Lemma call_step who {A} (c : HvCall A) n s r h' :
  0 <= n -> app_inv (n + cost c) s -> allowed who c s -> call c (AppState.hypervisor s) = (r, h') ->
  let s' := AppState.with_hypervisor h' s in
  app_inv n s' /\ untouched who s s' /\ (forall a, r = Ok a -> born c a s').
Proof.
  intros Hn Hi [Hav Hap] He. destruct (hv_call c n _ r h' Hn (ai_hv _ _ Hi) He) as [Hh Ht].
  assert (Hi' : app_inv n s). { eapply app_inv_weaken; [done|]. destruct c; simpl; lia. }
  destruct (touched_step who n s h' _ _ _ _ Hi' Hh Ht Hav Hap) as (? & ? & Hfv & Hfp).
  split_and!; [done..|]. intros a ->. by split.
Qed.

Lemma safe_hv who {A} (c : HvCall A) (own : O -> Prop) :
  safe who (cost c) (fun s => allowed who c s /\ own (AppState.ownership s)) (hv (call c))
    (fun a s => born c a s /\ own (AppState.ownership s)).
Proof.
  intros n s r s' Hn Hi [Ha Ho] He. unfold hv in He.
  destruct (call c (AppState.hypervisor s)) as [r1 h1] eqn:Hc. injection He as <- <-.
  destruct (call_step who c n s r1 h1 Hn Hi Ha Hc) as (? & ? & Hb). split_and!; [done..|].
  intros a Hr. split; [|done]. apply Hb. by destruct r1; simplify_eq/=.
Qed.

(** *** The ownership map *)

(** A change of owners: only of the caller's resources, and only to none or of
    resources nobody holds yet. *)
Lemma own_step who n s o :
  app_inv n s ->
  (forall v, Ownership.vm_owner o v = owner_vm s v
     \/ mine_vm who v s /\ (Ownership.vm_owner o v = None \/ fresh_vm v s)) ->
  (forall p, Ownership.snapshot_owner o p = owner_snap s p
     \/ mine_snap who p s /\ (Ownership.snapshot_owner o p = None \/ fresh_snap p s)) ->
  app_inv n (AppState.with_ownership_map o s) /\ untouched who s (AppState.with_ownership_map o s).
Proof.
  intros [Hh Hvm Hsn Hpool Hd] Hv Hp. split.
  - split; [done| | | |done]; unfold owner_vm, owner_snap; simpl.
    + intros v A Ho. destruct (Hv v) as [He|[_ [He|Hf]]]; [|congruence|apply Hf].
      apply (Hvm v A). congruence.
    + intros p A Ho. destruct (Hp p) as [He|[_ [He|Hf]]]; [|congruence|apply Hf].
      apply (Hsn p A). congruence.
    + intros v Hin. destruct (Hpool v Hin) as [Hi Hno]. split; [done|].
      destruct (Hv v) as [He|[_ [He|Hf]]]; [congruence|done|]. by destruct Hf as (_ & _ & []).
  - split; intros x A Ho Hne; (split; [|done]); unfold owner_vm, owner_snap; simpl.
    + destruct (Hv x) as [He|[Hm _]]; [congruence|]. by destruct Hne; apply Hm.
    + destruct (Hp x) as [He|[Hm _]]; [congruence|]. by destruct Hne; apply Hm.
Qed.

Lemma fresh_mine_vm who v s : fresh_vm v s -> mine_vm who v s.
Proof. intros (_ & Hno & _) A. by rewrite Hno. Qed.
Lemma fresh_mine_snap who p s : fresh_snap p s -> mine_snap who p s.
Proof. intros (_ & Hno) A. by rewrite Hno. Qed.

(** [own] with a map operation that meets the conditions above. *)
Lemma safe_own who (f : O -> O) (pre : state -> Prop) (post : unit -> state -> Prop) :
  (forall s, pre s ->
     (forall v, Ownership.vm_owner (f (AppState.ownership s)) v = owner_vm s v
        \/ mine_vm who v s /\ (Ownership.vm_owner (f (AppState.ownership s)) v = None \/ fresh_vm v s))
     /\ (forall p, Ownership.snapshot_owner (f (AppState.ownership s)) p = owner_snap s p
        \/ mine_snap who p s /\ (Ownership.snapshot_owner (f (AppState.ownership s)) p = None \/ fresh_snap p s))
     /\ post tt (AppState.with_ownership_map (f (AppState.ownership s)) s)) ->
  safe who 0 pre (own f) post.
Proof.
  intros Hf n s r s' Hn Hi Hp [= <- <-]. rewrite Z.add_0_r in Hi. destruct (Hf s Hp) as (Hv & Hs & Hq).
  destruct (own_step who n s _ Hi Hv Hs). split_and!; [done..|]. by intros [] _.
Qed.

Lemma safe_record_vm who v org :
  who = Some org ->
  safe who 0 (fresh_vm v) (own (OwnershipMap.record_vm v org)) (fun _ => mine_vm who v).
Proof.
  intros ->. apply safe_own. intros s Hf. unfold OwnershipMap.record_vm.
  destruct (Ownership.record_vm v org (AppState.ownership s)) as [r1 o1] eqn:He.
  pose proof (fun w => record_vm_owner v org _ r1 o1 w He) as Hl. simpl. split_and!.
  - intros w. destruct (Hl w) as [-> _]. destruct (is_ok r1 && (w =? v)) eqn:Hw; [|by left].
    apply andb_prop in Hw as [_ ->%Z.eqb_eq]. right. auto using fresh_mine_vm.
  - intros p. left. apply (Hl v).
  - intros A. unfold owner_vm. simpl. destruct (Hl v) as [-> _]. rewrite Z.eqb_refl.
    destruct (is_ok r1); simpl; [by intros [= ->]|]. destruct Hf as (_ & Ho & _). unfold owner_vm in Ho. congruence.
Qed.

Lemma safe_record_snapshot who p org :
  who = Some org ->
  safe who 0 (fresh_snap p) (own (OwnershipMap.record_snapshot p org)) (fun _ => mine_snap who p).
Proof.
  intros ->. apply safe_own. intros s Hf. unfold OwnershipMap.record_snapshot.
  destruct (Ownership.record_snapshot p org (AppState.ownership s)) as [r1 o1] eqn:He.
  pose proof (fun w => record_snapshot_owner p org _ r1 o1 w He) as Hl. simpl. split_and!.
  - intros v. left. apply (Hl p).
  - intros w. destruct (Hl w) as [-> _]. destruct (is_ok r1 && (w =? p)) eqn:Hw; [|by left].
    apply andb_prop in Hw as [_ ->%Z.eqb_eq]. right. auto using fresh_mine_snap.
  - intros A. unfold owner_snap. simpl. destruct (Hl p) as [-> _]. rewrite Z.eqb_refl.
    destruct (is_ok r1); simpl; [by intros [= ->]|]. destruct Hf as (_ & Ho). unfold owner_snap in Ho. congruence.
Qed.

Lemma safe_forget_vm who v : safe who 0 (mine_vm who v) (own (OwnershipMap.forget_vm v)) (fun _ => any).
Proof.
  apply safe_own. intros s Hm. unfold OwnershipMap.forget_vm.
  destruct (Ownership.forget_vm v (AppState.ownership s)) as [r1 o1] eqn:He.
  pose proof (fun w => forget_vm_owner v _ r1 o1 w He) as Hl. simpl. split_and!; [|intros p; left; apply (Hl v)|done].
  intros w. destruct (Hl w) as [-> _]. destruct (is_ok r1 && (w =? v)) eqn:Hw; [|by left].
  apply andb_prop in Hw as [_ ->%Z.eqb_eq]. auto.
Qed.

Lemma safe_forget_snapshot who p :
  safe who 0 (mine_snap who p) (own (OwnershipMap.forget_snapshot p)) (fun _ => any).
Proof.
  apply safe_own. intros s Hm. unfold OwnershipMap.forget_snapshot.
  destruct (Ownership.forget_snapshot p (AppState.ownership s)) as [r1 o1] eqn:He.
  pose proof (fun w => forget_snapshot_owner p _ r1 o1 w He) as Hl. simpl. split_and!; [intros v; left; apply (Hl p)| |done].
  intros w. destruct (Hl w) as [-> _]. destruct (is_ok r1 && (w =? p)) eqn:Hw; [|by left].
  apply andb_prop in Hw as [_ ->%Z.eqb_eq]. auto.
Qed.

(** *** Checks *)

Lemma safe_require_vm who v org :
  who = Some org -> safe who 0 any (require_vm v org) (fun _ => mine_vm who v).
Proof.
  intros -> n s r s' Hn Hi _ [= <- <-]. rewrite Z.add_0_r in Hi.
  split_and!; [done|apply untouched_refl|]. intros [] Hok A Ho.
  unfold OwnershipMap.require_vm_access, OwnershipMap.vm_owner in Hok. unfold owner_vm in Ho.
  rewrite Ho in Hok. simpl in Hok. destruct (String.eqb_spec A org); [by subst|done].
Qed.

Lemma safe_require_snapshot who p org :
  who = Some org -> safe who 0 any (require_snapshot p org) (fun _ => mine_snap who p).
Proof.
  intros -> n s r s' Hn Hi _ [= <- <-]. rewrite Z.add_0_r in Hi.
  split_and!; [done|apply untouched_refl|]. intros [] Hok A Ho.
  unfold OwnershipMap.require_snapshot_access, OwnershipMap.snapshot_owner in Hok. unfold owner_snap in Ho.
  rewrite Ho in Hok. simpl in Hok. destruct (String.eqb_spec A org); [by subst|done].
Qed.

(** A call about a VM, or a snapshot, of the caller. *)
Lemma safe_vm_call who {A} (c : HvCall A) v :
  vm_target c = Some v -> snap_target c = None ->
  safe who (cost c) (mine_vm who v) (hv (call c)) (fun a s => born c a s /\ mine_vm who v s).
Proof.
  intros Hv Hs.
  eapply safe_weaken; [apply (safe_hv who c (fun o => forall A, Ownership.vm_owner o v = Some A -> who = Some A))|lia| |].
  - intros s Hm. split; [|done]. split; intros x; rewrite ?Hv, ?Hs; [by intros [= <-]|done].
  - done.
Qed.

Lemma safe_snap_call who {A} (c : HvCall A) p :
  vm_target c = None -> (forall x, snap_target c = Some x -> x = p) ->
  safe who (cost c) (mine_snap who p) (hv (call c)) (fun a s => born c a s /\ mine_snap who p s).
Proof.
  intros Hv Hs.
  eapply safe_weaken; [apply (safe_hv who c (fun o => forall A, Ownership.snapshot_owner o p = Some A -> who = Some A))|lia| |].
  - intros s Hm. split; [|done]. split; intros x; rewrite ?Hv; [done|by intros ->%Hs].
  - done.
Qed.

Lemma safe_free_call who {A} (c : HvCall A) :
  vm_target c = None -> snap_target c = None ->
  safe who (cost c) any (hv (call c)) (fun a s => born c a s).
Proof.
  intros Hv Hs. eapply safe_weaken; [apply (safe_hv who c (fun _ => True))|lia| |].
  - intros s _. split; [|done]. split; intros x; by rewrite ?Hv, ?Hs.
  - by intros a s [? _].
Qed.

(** *** The pool *)

Lemma pool_step who n s l p ts :
  app_inv n s -> pool_vms (AppState.warm_pool s) (AppState.refills s) ≡ₚ l ++ pool_vms p ts ->
  app_inv n (AppState.with_pool p ts s) /\ untouched who s (AppState.with_pool p ts s)
  /\ (forall v, v ∈ vm_ids l -> fresh_vm v (AppState.with_pool p ts s)).
Proof.
  intros [Hh Hvm Hsn Hpool Hd] Hl. unfold pool_ids in *.
  assert (Hp : vm_ids (pool_vms (AppState.warm_pool s) (AppState.refills s))
               ≡ₚ vm_ids l ++ vm_ids (pool_vms p ts)).
  { unfold vm_ids at 1. rewrite Hl, fmap_app. done. }
  rewrite Hp in Hd. apply NoDup_app in Hd as (Hd1 & Hdis & Hd2).
  assert (Hin : forall v, v ∈ (vm_ids l ++ vm_ids (pool_vms p ts))%list ->
            vm_issued (AppState.hypervisor s) v /\ owner_vm s v = None).
  { intros v Hv. apply Hpool. by rewrite Hp. }
  split_and!; [|done|].
  - split; [exact Hh|exact Hvm|exact Hsn| |exact Hd2]. intros v Hv. apply Hin, elem_of_app. by right.
  - intros v Hv. destruct (Hin v) as [? ?]; [apply elem_of_app; by left|]. split_and!; [done..|].
    by apply Hdis.
Qed.

Lemma safe_pool_take who p :
  safe who 0 (mine_snap who p) (pool_take p)
    (fun h s => mine_snap who p s /\ match h with Some h => fresh_vm (VmHandle.id h) s | None => True end).
Proof.
  intros n s r s' Hn Hi Hm He. rewrite Z.add_0_r in Hi. unfold pool_take in He.
  destruct (WarmPool.take p (AppState.warm_pool s)) as [[h needed] p'] eqn:Ht.
  injection He as <- <-.
  destruct (pool_step who n s _ _ _ Hi (take_vms p _ (AppState.refills s) h needed p' Ht)) as (? & ? & Hf).
  split_and!; [done..|]. intros a [= <-]. split; [done|]. destruct h as [h|]; [|done].
  apply Hf. simpl. apply list_elem_of_singleton. done.
Qed.

Lemma destroy_all_step who n handles : forall s,
  app_inv n s -> 0 <= n -> (forall h, h ∈ handles -> owner_vm s (VmHandle.id h) = None) ->
  let s' := AppState.with_hypervisor (WarmPool.destroy_all handles (AppState.hypervisor s)) s in
  app_inv n s' /\ untouched who s s'.
Proof.
  induction handles as [|h hs IH]; intros s Hi Hn Hno; simpl.
  { destruct s. split; [done|apply untouched_refl]. }
  destruct (call (CDestroy (VmHandle.id h)) (AppState.hypervisor s)) as [r h1] eqn:Hc.
  destruct (call_step who (CDestroy (VmHandle.id h)) n s r h1 Hn) as (Hi1 & Hu1 & _); [by rewrite Z.add_0_r| |done|].
  { split; [|done]. intros v [= <-] A. rewrite Hno; [done|left]. }
  simpl in Hc. rewrite Hc. simpl.
  destruct (IH (AppState.with_hypervisor h1 s) Hi1 Hn) as [Hi2 Hu2]; [intros x Hx; apply Hno; by right|].
  split; [done|]. by eapply untouched_trans.
Qed.

Lemma safe_pool_drain who p : safe who 0 (mine_snap who p) (pool_drain p) (fun _ => mine_snap who p).
Proof.
  intros n s r s' Hn Hi Hm He. rewrite Z.add_0_r in Hi. unfold pool_drain, WarmPool.drain in He.
  destruct (WarmPool.take_queue p (AppState.warm_pool s)) as [hs p'] eqn:Ht. injection He as <- <-.
  destruct (pool_step who n s _ _ _ Hi (drain_vms p _ (AppState.refills s) hs p' Ht)) as (Hi1 & Hu1 & Hf).
  destruct (destroy_all_step who n hs _ Hi1 Hn) as [Hi2 Hu2].
  { intros h Hh. destruct (Hf (VmHandle.id h)) as (_ & ? & _); [|done].
    rewrite vm_ids_pairs. by apply list_elem_of_fmap_2. }
  split_and!; [done|by eapply untouched_trans|done].
Qed.

(** *** The disk and the store *)

Lemma disk_step who n s f :
  app_inv n s ->
  let s' := AppState.with_hypervisor (set_host_fs f (AppState.hypervisor s)) s in
  app_inv n s' /\ untouched who s s'.
Proof.
  intros Hi. destruct (hv_disk f n _ (ai_hv _ _ Hi)) as [Hh Ht].
  destruct (touched_step who n s _ _ _ _ _ Hi Hh Ht) as (? & ? & _); done.
Qed.

Lemma safe_persist_manifest who m dir : safe who 0 any (persist_manifest m dir) (fun _ => any).
Proof.
  intros n s r s' Hn Hi _ He. rewrite Z.add_0_r in Hi. unfold persist_manifest in He.
  destruct (Manifest.write_to_dir m dir (host_fs (AppState.hypervisor s))) as [r1 f]. injection He as <- <-.
  by destruct (disk_step who n s f Hi).
Qed.

Lemma safe_remove_dir_all who dir : safe who 0 any (remove_dir_all dir) (fun _ => any).
Proof.
  intros n s r s' Hn Hi _ [= <- <-]. rewrite Z.add_0_r in Hi. by destruct (disk_step who n s (fs_remove_dir_all dir (host_fs (AppState.hypervisor s))).2 Hi).
Qed.

Lemma with_store_step who n s st :
  app_inv n s -> app_inv n (AppState.with_snapshot_store st s) /\ untouched who s (AppState.with_snapshot_store st s).
Proof. intros [Hh Hvm Hsn Hpool Hd]. split; [by split|done]. Qed.

Lemma safe_store_call who {A} st uri (c : SM (S * F) StoreError A) : safe who 0 any (store_call st uri c) (fun _ => any).
Proof.
  intros n s r s' Hn Hi _ He. rewrite Z.add_0_r in Hi. unfold store_call in He.
  destruct (c (st, host_fs (AppState.hypervisor s))) as [r1 [st1 f]]. injection He as <- <-.
  destruct (disk_step who n s f Hi) as [Hi1 Hu1].
  destruct (with_store_step who n _ (Some st1) Hi1) as [Hi2 Hu2].
  split_and!; [done|by eapply untouched_trans|done].
Qed.

(** *** Handlers *)

Lemma safe_path who (id : result Rejection.t Z) : safe who 0 any (path_id id) (fun _ => any).
Proof. eapply safe_weaken; [apply safe_lift|lia|done|done]. Qed.

Lemma safe_body who {A} pre (body : result Rejection.t A) : safe who 0 pre (json_body body) (fun _ => pre).
Proof. eapply safe_weaken; [apply safe_lift|lia|done|]. by intros a s [? _]. Qed.

Lemma safe_result who {A} pre (r : result ApiError A) : safe who 0 pre (sm_lift r) (fun _ => pre).
Proof. eapply safe_weaken; [apply safe_lift|lia|done|]. by intros a s [? _]. Qed.

Lemma safe_done who {A} pre (a : A) : safe who 0 pre (mret a) (fun _ => any).
Proof. by apply safe_pure. Qed.

Lemma safe_map who k {A B} pre (c : handler A) (f : A -> B) :
  safe who k pre c (fun _ => any) -> safe who k pre (f <$> c) (fun _ => any).
Proof. intros Hc. eapply safe_first; [exact Hc|intros a; apply safe_done]. Qed.

Lemma safe_forget_post who k {A} pre (c : handler A) post : safe who k pre c post -> safe who k pre c (fun _ => any).
Proof. intros Hc. by eapply safe_weaken. Qed.

Lemma safe_more who k {A} pre (c : handler A) post : 0 <= k -> safe who 0 pre c post -> safe who k pre c post.
Proof. intros Hk Hc. by eapply safe_weaken. Qed.

Lemma safe_pre who k {A} (pre pre' : state -> Prop) (c : handler A) post :
  (forall s, pre' s -> pre s) -> safe who k pre c post -> safe who k pre' c post.
Proof. intros Hp Hc. by eapply safe_weaken. Qed.

(** A call about one VM of the caller that gives out nothing. *)
Lemma safe_on_vm who {A} (c : HvCall A) v pre :
  vm_target c = Some v -> snap_target c = None -> cost c = 0 -> (forall s, pre s -> mine_vm who v s) ->
  safe who 0 pre (hv (call c)) (fun _ => mine_vm who v).
Proof.
  intros Hv Hs Hc Hp. rewrite <- Hc. eapply safe_weaken; [by apply (safe_vm_call who c v)|lia|done|].
  by intros a s [_ ?].
Qed.

(** The prefix of the handlers about one VM. *)
Lemma safe_at_vm who org k {A} (id : result Rejection.t Z) (f : Z -> handler A) :
  who = Some org -> 0 <= k -> (forall v, safe who k (mine_vm who v) (f v) (fun _ => any)) ->
  safe who k any (v ← path_id id; _ ← require_vm v org; f v) (fun _ => any).
Proof.
  intros Hw Hk Hf. eapply safe_then; [done|apply safe_path|intros v].
  eapply safe_then; [done|by apply safe_require_vm|intros []]. apply Hf.
Qed.

Lemma safe_at_snapshot who org k {A} (id : result Rejection.t Z) (f : Z -> handler A) :
  who = Some org -> 0 <= k -> (forall p, safe who k (mine_snap who p) (f p) (fun _ => any)) ->
  safe who k any (p ← path_id id; _ ← require_snapshot p org; f p) (fun _ => any).
Proof.
  intros Hw Hk Hf. eapply safe_then; [done|apply safe_path|intros p].
  eapply safe_then; [done|by apply safe_require_snapshot|intros []]. apply Hf.
Qed.

Lemma safe_meter who (pre : state -> Prop) f :
  (forall s s', same_core s s' -> pre s -> pre s') -> safe who 0 pre (meter f) (fun _ => pre).
Proof. intros Hp. by apply safe_quiet. Qed.

Lemma mine_snap_core who p s s' : same_core s s' -> mine_snap who p s -> mine_snap who p s'.
Proof. intros (_ & Ho & _). unfold mine_snap, owner_snap. by rewrite Ho. Qed.

Lemma fresh_vm_core v s s' : same_core s s' -> fresh_vm v s -> fresh_vm v s'.
Proof. intros (Hh & Ho & Hw & Ht). unfold fresh_vm, owner_vm, pool_ids. by rewrite Hh, Ho, Hw, Ht. Qed.

Lemma safe_take_or_restore who p :
  safe who 1 (mine_snap who p) (take_or_restore p) (fun x => fresh_vm (VmHandle.id x.1)).
Proof.
  unfold take_or_restore. eapply safe_then; [done|apply safe_pool_take|]. intros [h|].
  - apply safe_more; [done|]. apply (safe_pre _ _ (fresh_vm (VmHandle.id h))); [by intros s [_ ?]|].
    eapply safe_then; [done|apply (safe_meter _ (fresh_vm (VmHandle.id h)))|].
    + intros s s'. apply fresh_vm_core.
    + intros []. by apply safe_pure.
  - apply (safe_pre _ _ (mine_snap who p)); [by intros s [? _]|].
    eapply safe_then; [done|apply (safe_meter _ (mine_snap who p))|].
    + intros s s'. apply mine_snap_core.
    + intros []. eapply safe_first; [by apply (safe_snap_call who (CRestore p) p); [|intros ? [= <-]]|].
      intros h. apply safe_pure. intros s [[Hb _] _]. by apply Hb.
Qed.

Lemma safe_create_vm org body : safe (Some org) 1 any (Routes.create_vm org body) (fun _ => any).
Proof.
  eapply safe_then; [done|apply safe_body|intros req].
  eapply safe_then; [done|apply safe_gets|intros d].
  apply (safe_pre _ _ any); [done|].
  eapply safe_first; [by apply (safe_free_call _ (CCreate _))|intros h].
  apply (safe_pre _ _ (fresh_vm (VmHandle.id h))); [intros s [Hb _]; by apply Hb|].
  eapply safe_then; [done|by apply safe_record_vm|intros []]. apply safe_done.
Qed.

Lemma safe_vm_entries who handles :
  safe who 0 (fun s => Forall (fun h => mine_vm who (VmHandle.id h) s) handles) (vm_entries handles) (fun _ => any).
Proof.
  induction handles as [|h hs IH]; simpl; [apply safe_done|].
  eapply (safe_then _ _ _ _ (fun _ s => Forall (fun h => mine_vm who (VmHandle.id h) s) hs)); [done| |].
  - intros n s r s' Hn Hi Hm He. apply Forall_cons in Hm as [Hh Hhs].
    destruct (VmCore.vm_meta (VmHandle.id h) (AppState.hypervisor s)) as [r1 h1] eqn:Hc.
    injection He as <- <-.
    destruct (call_step who (CVmMeta (VmHandle.id h)) n s r1 h1 Hn Hi) as (? & ? & _); [|done|done].
    split; [|done]. by intros v [= <-].
  - intros e. eapply safe_then; [done|exact IH|intros es]. apply safe_done.
Qed.

Lemma safe_list_vms org q : safe (Some org) 0 any (Routes.list_vms org q) (fun _ => any).
Proof.
  eapply safe_then; [done|apply safe_result|intros limit].
  eapply safe_then; [done|by apply (safe_free_call _ CListVms)|intros handles].
  eapply safe_then; [done|apply safe_gets|intros o].
  eapply safe_then; [done| |intros vms; apply safe_done].
  eapply safe_pre; [|apply safe_vm_entries]. intros s [_ ->].
  apply Forall_forall. intros h Hh A Ho. apply elem_of_take in Hh as (i & Hi & _).
  apply list_elem_of_lookup_2, list_elem_of_filter in Hi as [_ Hi].
  rewrite merge_sort_Permutation in Hi. apply list_elem_of_filter in Hi as [Hi _].
  unfold OwnershipMap.vm_owner in Hi. unfold owner_vm in Ho. rewrite Ho in Hi. simpl in Hi. by subst.
Qed.

Lemma safe_destroy_vm org role id : safe (Some org) 0 any (Routes.destroy_vm org role id) (fun _ => any).
Proof.
  eapply safe_then; [done|apply safe_result|intros []]. apply safe_at_vm; [done..|]. intros v.
  eapply safe_then; [done|by apply (safe_on_vm _ (CDestroy v) v)|intros []].
  eapply safe_then; [done|apply safe_forget_vm|intros []]. apply safe_done.
Qed.

Lemma safe_persist_to org p dir :
  safe (Some org) 0 (mine_snap (Some org) p) (persist_to p dir) (fun _ => any).
Proof.
  destruct dir as [dir|]; simpl; [|apply safe_done].
  eapply safe_then; [done|by apply (safe_snap_call _ (CSnapshotMeta p) p); [|intros ? [= <-]]|intros meta].
  apply (safe_pre _ _ any); [done|].
  eapply safe_then; [done|apply safe_persist_manifest|intros []]. apply safe_done.
Qed.

Lemma safe_snapshot_vm org id body : safe (Some org) 1 any (Routes.snapshot_vm org id body) (fun _ => any).
Proof.
  apply safe_at_vm; [done..|]. intros v.
  eapply safe_then; [done|apply safe_result|intros req].
  eapply safe_first; [by apply (safe_vm_call _ (CSnapshot v) v)|intros p].
  apply (safe_pre _ _ (fresh_snap p)); [intros s [[_ Hb] _]; by apply Hb|].
  eapply safe_then; [done|by apply safe_record_snapshot|intros []].
  eapply safe_then; [done|apply safe_persist_to|intros d]. apply safe_done.
Qed.

Lemma safe_restore org id : safe (Some org) 1 any (restore_snapshot org id) (fun _ => any).
Proof.
  apply safe_at_snapshot; [done..|]. intros p.
  eapply safe_first; [by apply (safe_snap_call _ (CRestore p) p); [|intros ? [= <-]]|intros h].
  apply (safe_pre _ _ (fresh_vm (VmHandle.id h))); [intros s [[Hb _] _]; by apply Hb|].
  eapply safe_then; [done|by apply safe_record_vm|intros []]. apply safe_done.
Qed.

Lemma safe_quota who p c what fp org :
  safe who 0 (mine_snap who p) (quota_gate c what fp org) (fun _ => mine_snap who p).
Proof.
  apply safe_quiet; [|by intros ??; apply mine_snap_core]. intros s. unfold quota_gate.
  destruct (c (AppState.fork_quota s)) as [[]?]; done.
Qed.

Lemma safe_fork env org id auth : safe (Some org) 1 any (fork_snapshot env org id auth) (fun _ => any).
Proof.
  apply safe_at_snapshot; [done..|]. intros p.
  eapply safe_then; [done|apply safe_quota|intros []].
  eapply safe_then; [done|apply safe_quota|intros []].
  eapply safe_first; [apply safe_take_or_restore|intros [h cold]].
  eapply safe_then; [done|by apply safe_record_vm|intros []].
  apply (safe_pre _ _ any); [done|].
  eapply safe_then; [done|by apply safe_meter|intros []].
  eapply safe_then; [done| |intros u; apply safe_done].
  destruct (extract_bearer auth); [by apply safe_quiet|apply safe_done].
Qed.

Lemma safe_snapshot_entries who ids :
  safe who 0 (fun s => Forall (fun p => mine_snap who p s) ids) (snapshot_entries ids) (fun _ => any).
Proof.
  induction ids as [|p ps IH]; simpl; [apply safe_done|].
  eapply (safe_then _ _ _ _ (fun _ s => Forall (fun p => mine_snap who p s) ps)); [done| |].
  - intros n s r s' Hn Hi Hm He. apply Forall_cons in Hm as [Hh Hhs].
    destruct (VmCore.snapshot_meta p (AppState.hypervisor s)) as [r1 h1] eqn:Hc.
    injection He as <- <-.
    destruct (call_step who (CSnapshotMeta p) n s r1 h1 Hn Hi) as (? & ? & _); [|done|done].
    split; [done|]. by intros x [= <-].
  - intros e. eapply safe_then; [done|exact IH|intros es]. apply safe_done.
Qed.

Lemma safe_list_snapshots org q : safe (Some org) 0 any (Routes.list_snapshots org q) (fun _ => any).
Proof.
  eapply safe_then; [done|apply safe_result|intros limit].
  eapply safe_then; [done|by apply (safe_free_call _ CListSnapshots)|intros ids].
  eapply safe_then; [done|apply safe_gets|intros o].
  eapply safe_then; [done| |intros vms; apply safe_done].
  eapply safe_pre; [|apply safe_snapshot_entries]. intros s [_ ->].
  apply Forall_forall. intros p Hp A Ho. apply elem_of_take in Hp as (i & Hi & _).
  apply list_elem_of_lookup_2, list_elem_of_filter in Hi as [_ Hi].
  rewrite merge_sort_Permutation in Hi. apply list_elem_of_filter in Hi as [Hi _].
  unfold OwnershipMap.snapshot_owner in Hi. unfold owner_snap in Ho. rewrite Ho in Hi. simpl in Hi. by subst.
Qed.

Lemma safe_delete_snapshot org role id :
  safe (Some org) 0 any (Routes.delete_snapshot org role id) (fun _ => any).
Proof.
  eapply safe_then; [done|apply safe_result|intros []]. apply safe_at_snapshot; [done..|]. intros p.
  eapply safe_then; [done|apply safe_pool_drain|intros []].
  eapply safe_then; [done|by apply (safe_snap_call _ (CDeleteSnapshot p) p); [|intros ? [= <-]]|intros []].
  apply (safe_pre _ _ (mine_snap (Some org) p)); [by intros s [_ ?]|].
  eapply safe_then; [done|apply safe_forget_snapshot|intros []]. apply safe_done.
Qed.

(** Handlers that make one call about a VM. *)
Lemma safe_get_vm org id : safe (Some org) 0 any (Routes.get_vm org id) (fun _ => any).
Proof.
  apply safe_at_vm; [done..|]. intros v.
  eapply safe_then; [done|by apply (safe_on_vm _ (CState v) v)|intros st]. apply safe_done.
Qed.

Lemma safe_start_vm org id : safe (Some org) 0 any (start_vm org id) (fun _ => any).
Proof.
  apply safe_at_vm; [done..|]. intros v.
  eapply safe_then; [done|by apply (safe_on_vm _ (CStart v) v)|intros st]. apply safe_done.
Qed.

Lemma safe_stop_vm org id : safe (Some org) 0 any (stop_vm org id) (fun _ => any).
Proof.
  apply safe_at_vm; [done..|]. intros v.
  eapply safe_then; [done|by apply (safe_on_vm _ (CStop v) v)|intros st]. apply safe_done.
Qed.

Lemma safe_exec_vm org id body : safe (Some org) 0 any (exec_vm org id body) (fun _ => any).
Proof.
  apply safe_at_vm; [done..|]. intros v. eapply safe_then; [done|apply safe_body|intros req].
  eapply safe_then; [done|by apply (safe_on_vm _ (CExec v _) v)|intros st]. apply safe_done.
Qed.

Lemma safe_write_file org id body : safe (Some org) 0 any (Routes.write_file org id body) (fun _ => any).
Proof.
  apply safe_at_vm; [done..|]. intros v. eapply safe_then; [done|apply safe_body|intros req].
  eapply safe_forget_post. by apply (safe_on_vm _ (CWrite v _ _ _) v).
Qed.

Lemma safe_read_file org id query : safe (Some org) 0 any (Routes.read_file org id query) (fun _ => any).
Proof.
  apply safe_at_vm; [done..|]. intros v. eapply safe_then; [done|apply safe_result|intros path].
  eapply safe_forget_post. by apply (safe_on_vm _ (CRead v _) v).
Qed.

(** *** The sandbox *)

Lemma safe_dispatch who v action : safe who 0 (mine_vm who v) (dispatch v action) (fun _ => any).
Proof.
  assert (Hx : forall program args timeout,
    safe who 0 (mine_vm who v) (guest_exec v program args timeout) (fun _ => any)).
  { intros. eapply safe_then; [done|by apply (safe_on_vm _ (CExec v _) v)|intros r]. apply safe_done. }
  destruct action; simpl; try apply Hx.
  - eapply safe_then; [done|by apply (safe_on_vm _ (CRead v _) v)|intros r]. apply safe_done.
  - eapply safe_then; [done|by apply (safe_on_vm _ (CWrite v _ _ _) v)|intros r]. apply safe_done.
Qed.

(** Computations that leave the ownership map alone, also when they fail. *)
Definition keeps_owners {A} (c : handler A) : Prop := forall s, AppState.ownership (c s).2 = AppState.ownership s.

Lemma keeps_owners_hv {A} (c : SM H VmError A) : keeps_owners (hv c).
Proof. intros s. unfold hv. by destruct (c _). Qed.

Lemma keeps_owners_bind {A B} (c : handler A) (f : A -> handler B) :
  keeps_owners c -> (forall a, keeps_owners (f a)) -> keeps_owners (a ← c; f a).
Proof.
  intros Hc Hf s. unfold mbind, sm_bind. specialize (Hc s). destruct (c s) as [[a|e] s1]; [|done].
  simpl in Hc. by rewrite Hf.
Qed.

Lemma keeps_owners_ret {A} (a : A) : keeps_owners (mret a).
Proof. done. Qed.

Lemma dispatch_owners v action : keeps_owners (dispatch v action).
Proof.
  destruct action; simpl; unfold guest_exec;
    (apply keeps_owners_bind; [apply keeps_owners_hv|intros ?; apply keeps_owners_ret]).
Qed.

Lemma safe_attempt who v {A} (c : handler A) :
  safe who 0 (mine_vm who v) c (fun _ => any) -> keeps_owners c ->
  safe who 0 (mine_vm who v) (attempt c) (fun _ => mine_vm who v).
Proof.
  intros Hc Ho n s r s' Hn Hi Hm He. unfold attempt in He. destruct (c s) as [r1 s1] eqn:Hs.
  injection He as <- <-. destruct (Hc n s r1 s1 Hn Hi Hm Hs) as (? & ? & _). split_and!; [done..|].
  intros a _ B. specialize (Ho s). rewrite Hs in Ho. unfold owner_vm. simpl in Ho. rewrite Ho. apply Hm.
Qed.

Lemma safe_sandbox env org body :
  safe (Some org) 1 any (sandbox_invoke debug_str env org body) (fun _ => any).
Proof.
  eapply safe_then; [done|apply safe_body|intros req].
  eapply safe_then; [done|apply safe_result|intros p].
  eapply safe_then; [done|by apply safe_require_snapshot|intros []].
  eapply safe_first; [apply safe_take_or_restore|intros [h cold]].
  eapply safe_then; [done|by apply safe_record_vm|intros []].
  eapply safe_then; [done|apply safe_attempt; [apply safe_dispatch|apply dispatch_owners]|intros outcome].
  eapply safe_then; [done|apply safe_attempt|intros r].
  { eapply safe_forget_post. by apply (safe_on_vm _ (CDestroy (VmHandle.id h)) (VmHandle.id h)). }
  { apply keeps_owners_hv. }
  eapply safe_then; [done|apply safe_forget_vm|intros []].
  eapply safe_then; [done|apply safe_result|intros o]. apply safe_done.
Qed.

(** *** Export and import *)

Lemma safe_export org id body : safe (Some org) 0 any (export_snapshot org id body) (fun _ => any).
Proof.
  apply safe_at_snapshot; [done..|]. intros p.
  eapply safe_then; [done|apply safe_gets|intros st].
  eapply safe_then; [done|apply safe_result|intros store].
  apply (safe_pre _ _ (mine_snap (Some org) p)); [by intros s [? _]|].
  eapply safe_then; [done|by apply (safe_snap_call _ (CExportDir p) p); [|intros ? [= <-]]|intros dir].
  apply (safe_pre _ _ any); [done|].
  eapply safe_then; [done|apply safe_result|intros d].
  eapply safe_then; [done|apply safe_store_call|intros []]. apply safe_done.
Qed.

Lemma safe_import org body : safe (Some org) 1 any (import_snapshot temp_dir pid org body) (fun _ => any).
Proof.
  eapply safe_then; [done|apply safe_body|intros req].
  eapply safe_then; [done|apply safe_gets|intros st].
  apply (safe_pre _ _ any); [done|].
  eapply safe_then; [done|apply safe_result|intros store].
  eapply safe_then; [done|by apply safe_quiet|intros nonce].
  eapply safe_then; [done|apply safe_store_call|intros []].
  eapply safe_first; [by apply (safe_free_call _ (CAdopt _))|intros p].
  apply (safe_pre _ _ (fresh_snap p)); [intros s [_ Hb]; by apply Hb|].
  eapply safe_then; [done|by apply safe_record_snapshot|intros []].
  apply (safe_pre _ _ any); [done|].
  eapply safe_then; [done|apply safe_remove_dir_all|intros []]. apply safe_done.
Qed.

Lemma safe_route env auth org role req :
  safe (Some org) 1 any (route debug_str temp_dir pid env auth org role req) (fun _ => any).
Proof.
  destruct req; simpl; apply safe_map;
    first [apply safe_create_vm|apply safe_snapshot_vm|apply safe_restore|apply safe_fork|apply safe_import
          |apply safe_sandbox|apply safe_more; [done|]].
  - apply safe_list_vms.
  - apply safe_get_vm.
  - apply safe_start_vm.
  - apply safe_stop_vm.
  - apply safe_destroy_vm.
  - apply safe_exec_vm.
  - apply safe_write_file.
  - apply safe_read_file.
  - apply safe_list_snapshots.
  - apply safe_delete_snapshot.
  - apply safe_export.
  - eapply safe_then; [done|apply safe_result|intros t].
    eapply safe_then; [done|apply safe_gets|intros u]. apply safe_done.
  - eapply safe_then; [done|apply safe_gets|intros m]. apply safe_done.
Qed.

(** *** Background refills *)

Lemma pool_grow n s h p ts l :
  app_inv n s -> fresh_vm (VmHandle.id h) s ->
  (l, h) :: pool_vms (AppState.warm_pool s) (AppState.refills s) ≡ₚ pool_vms p ts ->
  app_inv n (AppState.with_pool p ts s).
Proof.
  intros [Hh Hvm Hsn Hpool Hd] (Hiss & Hno & Hnin) Hl.
  assert (Hp : VmHandle.id h :: pool_ids s ≡ₚ vm_ids (pool_vms p ts)).
  { unfold pool_ids, vm_ids at 2. by rewrite <- Hl. }
  split; [exact Hh|exact Hvm|exact Hsn| |].
  - unfold pool_ids. simpl. intros v. rewrite <- Hp. intros [-> |Hv]%elem_of_cons; [done|by apply Hpool].
  - unfold pool_ids. simpl. rewrite <- Hp. by constructor.
Qed.

Lemma app_refill_step n s i : 0 <= n -> app_inv (n + 1) s -> app_inv n (refill i s) /\ untouched None s (refill i s).
Proof.
  intros Hn Hi. assert (Hi' : app_inv n s) by (eapply app_inv_weaken; [done|lia]).
  assert (Hq : forall p ts, pool_vms (AppState.warm_pool s) (AppState.refills s) ≡ₚ pool_vms p ts ->
            app_inv n (AppState.with_pool p ts s) /\ untouched None s (AppState.with_pool p ts s)).
  { intros p ts Hp. by destruct (pool_step None n s [] p ts Hi' Hp) as (? & ? & _). }
  unfold refill. destruct (AppState.refills s !! i) as [[snap|snap [h|]|snap h]|] eqn:Ht; [..|by split].
  - destruct (VmCore.restore snap (AppState.hypervisor s)) as [r h1] eqn:Hc.
    destruct (call_step None (CRestore snap) n s r h1 Hn Hi) as (Hi1 & Hu1 & Hb); [done|done|].
    set (t := Restored snap _).
    pose proof (machine_vms (AppState.warm_pool s) (AppState.refills s) (Restore i (match r with Ok h => Some h | Err _ => None end))
      (AppState.warm_pool s) (<[i := t]> (AppState.refills s)) [] []) as Hm.
    unfold births in Hm. simpl in Hm. rewrite Ht in Hm. specialize (Hm eq_refl). split; [|exact Hu1].
    destruct r as [h|e].
    + apply (pool_grow n _ h (AppState.warm_pool s) _ snap Hi1); [by apply (Hb h)|exact Hm].
    + destruct (pool_step None n _ [] (AppState.warm_pool s) (<[i := t]> (AppState.refills s)) Hi1) as (? & _); [exact Hm|done].
  - apply Hq, (machine_vms _ _ (Release i) _ _ [] []). simpl. by rewrite Ht.
  - apply Hq, (machine_vms _ _ (Release i) _ _ [] []). simpl. by rewrite Ht.
  - apply Hq, (machine_vms _ _ (Push i) _ _ [] []). simpl. by rewrite Ht.
Qed.

(** ** Runs *)

(** The organisation an event acts for. *)
Definition actor (e : Event) : option OrgId :=
  match e with Http _ _ org _ _ => Some org | Refill _ => None end.

Lemma step_isolated n s e :
  0 <= n -> app_inv (n + 1) s ->
  let s' := step debug_str temp_dir pid s e in app_inv n s' /\ untouched (actor e) s s'.
Proof.
  intros Hn Hi. destruct e as [env auth org role req|i]; simpl; [|by apply app_refill_step].
  destruct (route debug_str temp_dir pid env auth org role req s) as [r s'] eqn:He.
  by destruct (safe_route env auth org role req n s r s' Hn Hi I He) as (? & ? & _).
Qed.

Lemma run_isolated A es : forall n s,
  0 <= n -> app_inv (n + zlen es) s -> Forall (fun e => actor e <> Some A) es ->
  let s' := run debug_str temp_dir pid es s in
  app_inv n s'
  /\ (forall v, owner_vm s v = Some A -> owner_vm s' v = Some A /\ see_vm s' v = see_vm s v)
  /\ (forall p, owner_snap s p = Some A -> owner_snap s' p = Some A /\ see_snap s' p = see_snap s p).
Proof.
  induction es as [|e es IH]; intros n s Hn Hi Hes; simpl.
  { unfold zlen in Hi. simpl in Hi. by rewrite Z.add_0_r in Hi. }
  apply Forall_cons in Hes as [He Hes]. unfold zlen in *. simpl length in Hi. rewrite Nat2Z.inj_succ in Hi.
  destruct (step_isolated (n + Z.of_nat (length es)) s e) as [Hi1 [Hv1 Hp1]]; [lia|by replace (n + _ + 1) with (n + Z.succ (Z.of_nat (length es))) by lia|].
  destruct (IH n _ Hn Hi1 Hes) as (Hi2 & Hv2 & Hp2). split_and!; [done|..].
  - intros v Ho. destruct (Hv1 v A Ho He) as [Ho1 Hs1]. destruct (Hv2 v Ho1) as [Ho2 Hs2].
    split; [exact Ho2|]. by rewrite <- Hs1, <- Hs2.
  - intros p Ho. destruct (Hp1 p A Ho He) as [Ho1 Hs1]. destruct (Hp2 p Ho1) as [Ho2 Hs2].
    split; [exact Ho2|]. by rewrite <- Hs1, <- Hs2.
Qed.

(** C1: Tenant isolation. From a state that satisfies the invariant, any
    interleaving of requests of other organisations (with any bodies, roles and
    bearer headers) and of the warm pool's background refills leaves every VM
    and every snapshot recorded for an organisation recorded for it and exactly
    as it was, and keeps the invariant; each event uses up at most one id. *)
Theorem tenant_isolation A es s :
  app_inv (zlen es) s -> Forall (fun e => actor e <> Some A) es ->
  let s' := run debug_str temp_dir pid es s in
  app_inv 0 s'
  /\ (forall v, owner_vm s v = Some A -> owner_vm s' v = Some A /\ see_vm s' v = see_vm s v)
  /\ (forall p, owner_snap s p = Some A -> owner_snap s' p = Some A /\ see_snap s' p = see_snap s p).
Proof. intros Hi Hes. apply run_isolated; [done|by rewrite Z.add_0_l|done]. Qed.

(** ** Refused requests *)

(** The VM, or the snapshot, a well-formed request names. *)
Definition vm_of (req : Request) : option VmId :=
  match req with
  | RGetVm (Ok v) | RStartVm (Ok v) | RStopVm (Ok v) | RDestroyVm (Ok v) | RSnapshotVm (Ok v) _
  | RExecVm (Ok v) _ | RWriteFile (Ok v) _ | RReadFile (Ok v) _ => Some v
  | _ => None
  end.

Definition snapshot_of (env : Env.t) (req : Request) : option SnapshotId :=
  match req with
  | RDeleteSnapshot (Ok p) | RRestore (Ok p) | RFork (Ok p) | RExport (Ok p) _ => Some p
  | RSandbox (Ok r) =>
      match resolve_snapshot_with debug_str (SandboxInvokeRequest.snapshot r) (Env.sandbox_snapshot env) with
      | Ok p => Some p
      | Err _ => None
      end
  | _ => None
  end.

(** The request names a resource that belongs to another organisation. *)
Definition foreign (env : Env.t) (org : OrgId) (req : Request) s : Prop :=
  (exists v, vm_of req = Some v /\ OwnershipMap.vm_owner (AppState.ownership s) v <> org)
  \/ (exists p, snapshot_of env req = Some p /\ OwnershipMap.snapshot_owner (AppState.ownership s) p <> org).

(** What a refused handler gives. *)
Definition refused (role : Role) {A} (c : handler A) s : Prop :=
  exists code message, c s = (Err (Forbidden code message), s)
    /\ (RoleOps.le Developer role = true -> code = "cross_org").

Lemma refused_bind role {A B} (c : handler A) (f : A -> handler B) s :
  refused role c s -> refused role (a ← c; f a) s.
Proof.
  intros (code & m & He & Hc). exists code, m. split; [|done]. unfold mbind, sm_bind. by rewrite He.
Qed.

Lemma refused_after role {A B} (a : A) (f : A -> handler B) s :
  refused role (f a) s -> refused role (a ← sm_lift (Ok a); f a) s.
Proof. done. Qed.

Lemma refused_role role {A} (f : unit -> handler A) s :
  refused role (f tt) s -> refused role (u ← sm_lift (require_role role Developer); f u) s.
Proof.
  intros Hf. unfold require_role. destruct (RoleOps.le Developer role) eqn:Hr; [done|].
  eexists _, _. split; [reflexivity|congruence].
Qed.

Lemma refused_vm role v org s :
  OwnershipMap.vm_owner (AppState.ownership s) v <> org -> refused role (require_vm v org) s.
Proof.
  intros Hne%String.eqb_neq. unfold require_vm, OwnershipMap.require_vm_access.
  eexists _, _. rewrite Hne. done.
Qed.

Lemma refused_snapshot role p org s :
  OwnershipMap.snapshot_owner (AppState.ownership s) p <> org -> refused role (require_snapshot p org) s.
Proof.
  intros Hne%String.eqb_neq. unfold require_snapshot, OwnershipMap.require_snapshot_access.
  eexists _, _. rewrite Hne. done.
Qed.

(** C33: Cross-organisation access. A request that names a VM or a snapshot of
    another organisation (recorded for it, or unrecorded and so the default
    organisation's) is answered 403, with the code [cross_org] whenever the
    caller's role admits the endpoint, and changes nothing at all: not the
    hypervisor, the ownership map, the pool, the quota or a counter. *)
Theorem cross_org_refused env auth org role req s :
  foreign env org req s ->
  exists code message,
    route debug_str temp_dir pid env auth org role req s = (Err (Forbidden code message), s)
    /\ ErrorResponse.status (into_response (Forbidden code message)) = 403
    /\ (RoleOps.le Developer role = true -> code = "cross_org").
Proof.
  intros Hf. cut (refused role (route debug_str temp_dir pid env auth org role req) s).
  { intros (code & m & He & Hc). by exists code, m. }
  destruct Hf as [(v & Hv & Hne)|(p & Hp & Hne)]; destruct req as
    [body|q|[v1|]|[v1|]|[v1|]|[v1|]|[v1|] body|[v1|] body|[v1|] body|[v1|] q|[r1|]|q|[p1|]|[p1|]|[p1|]|[p1|] body|body| |all];
    simpl in *; simplify_eq; cbn [route]; apply refused_bind.
  all: try (apply refused_after, refused_bind; by first [apply refused_vm|apply refused_snapshot]).
  - apply refused_role, refused_after, refused_bind. by apply refused_vm.
  - apply refused_after. unfold sandbox_invoke.
    destruct (resolve_snapshot_with _ _ _) as [p1|]; [|done]. simplify_eq.
    apply refused_after, refused_bind. by apply refused_snapshot.
  - apply refused_role, refused_after, refused_bind. by apply refused_snapshot.
Qed.
End Isolation.
