(* ===== verification/SandboxProps.v ===== *)
(** * Sandboxes leave nothing behind

    The lifecycle of the VM behind [POST /v1/sandbox/invoke], over any
    hypervisor that meets its contract and whose successful destroys remove the VM. *)

From Stdlib Require Import Ascii String.
From stdpp Require Import strings pretty sorting.
From S2P Require Import Prelude Io Str Fs VmCore VmMock HvCalls Store ApiError Auth WarmPool Api Ownership.
From S2P Require Import Metrics Routes Tenancy.

Local Open Scope string_scope.
Local Open Scope Z_scope.

Section Sandbox.
Context {H V P Q S O F : Type}.
Context `{!Hypervisor H, !HostDisk H F, !HypervisorFrame H V P F, !DestroyReaps H V P F, !ForkQuota Q,
          !OwnershipStore O, !OwnershipStoreLaws O}.
Context (debug_str : string -> string).
Abbreviation state := (AppState.t H Q S O).
Abbreviation handler := (SM state ApiError).
Implicit Types s : state.

(** What a sandbox call has no business with. *)
Definition books s := (AppState.fork_usage s, AppState.fork_quota s, AppState.snapshot_store s, AppState.vm_defaults s, AppState.nonce s).

(** [s'] differs from [s] in the VM [used] at most, seen from the hypervisor and
    from the ownership map; the pool and the counters of the metrics apart. *)
Record only_vm (used : option VmId) s s' : Prop := {
  ov_vm v : used <> Some v -> see_vm s' v = see_vm s v;
  ov_owner v : used <> Some v -> owner_vm s' v = owner_vm s v;
  ov_snap p : see_snap s' p = see_snap s p;
  ov_snap_owner p : owner_snap s' p = owner_snap s p;
  ov_books : books s' = books s;
}.

(** The pool as one [take] leaves it, or as it was; [warm] is the VM it gave. *)
Definition pool_gave (warm : option VmId) s s' : Prop :=
  (warm = None /\ AppState.warm_pool s' = AppState.warm_pool s /\ AppState.refills s' = AppState.refills s)
  \/ exists snap h needed,
       WarmPool.take snap (AppState.warm_pool s) = (h, needed, AppState.warm_pool s')
       /\ AppState.refills s' = (AppState.refills s ++ replicate (Z.to_nat needed) (Spawned snap))%list
       /\ warm = VmHandle.id <$> h.

(** No change to the pool. *)
Definition pool_kept s s' : Prop :=
  AppState.warm_pool s' = AppState.warm_pool s /\ AppState.refills s' = AppState.refills s.

Lemma pool_gave_kept warm s1 s2 s3 : pool_gave warm s1 s2 -> pool_kept s2 s3 -> pool_gave warm s1 s3.
Proof. intros Hg [Hp Hr]. unfold pool_gave. by rewrite Hp, Hr. Qed.

Lemma only_vm_refl u s : only_vm u s s.
Proof. by split. Qed.

Lemma only_vm_trans u s1 s2 s3 : only_vm u s1 s2 -> only_vm u s2 s3 -> only_vm u s1 s3.
Proof.
  intros [A1 A2 A3 A4 A5] [B1 B2 B3 B4 B5]. split; [| | | |congruence].
  - intros v Hne. by rewrite B1, A1.
  - intros v Hne. by rewrite B2, A2.
  - intros p. by rewrite B3, A3.
  - intros p. by rewrite B4, A4.
Qed.

Lemma only_vm_none u s s' : only_vm None s s' -> only_vm u s s'.
Proof. intros [A1 A2 A3 A4 A5]. split; auto. Qed.

(** One hypervisor call without snapshots. *)
Lemma hv_only {A} (c : HvCall A) n s r s' :
  0 <= n -> app_inv (n + cost c) s -> snap_target c = None -> (forall a, born_snapshot c a = None) ->
  hv (call c) s = (r, s') ->
  (forall u, vm_target c = Some u ->
     (forall a, r = Ok a -> born_vm c a = None) -> only_vm (Some u) s s')
  /\ (vm_target c = None -> only_vm (match r with Ok a => born_vm c a | Err _ => None end) s s')
  /\ pool_kept s s'.
Proof.
  intros Hn Hi Hst Hbs He. unfold hv in He.
  destruct (call c (AppState.hypervisor s)) as [r1 h1] eqn:Hc. injection He as <- <-.
  destruct (hv_call c n _ r1 h1 Hn (ai_hv _ _ Hi) Hc) as [_ [_ _ Hv Hp _ _]].
  assert (Hs : forall p, snap_view h1 p = snap_view (AppState.hypervisor s) p).
  { intros p. apply Hp; [by rewrite Hst|]. destruct r1; [by rewrite Hbs|done]. }
  split_and!; [intros u Hu Hb|intros Hu|done].
  - split; [|done|exact Hs|done..]. intros v Hne. apply Hv; [by rewrite Hu|].
    destruct r1 as [a|e]; [by rewrite (Hb a)|done].
  - split; [|done|exact Hs|done..]. intros v Hne. apply Hv; [by rewrite Hu|]. by destruct r1.
Qed.

Lemma meter_only f s : only_vm None s (meter f s).2.
Proof. done. Qed.

(** Where the sandbox's VM comes from. *)
Definition came_from (used : VmId * bool) s : Prop :=
  if used.2 then ~ vm_issued (AppState.hypervisor s) used.1 else used.1 ∈ pool_ids s.

(** The VM the pool gave up for [used]. *)
Definition warm_of (used : option (VmId * bool)) : option VmId :=
  match used with Some (u, false) => Some u | _ => None end.

Lemma take_or_restore_only p n s r s' :
  0 <= n -> app_inv (n + 1) s -> take_or_restore p s = (r, s') ->
  let used := match r with Ok (h, cold) => Some (VmHandle.id h, cold) | Err _ => None end in
  only_vm (fst <$> used) s s' /\ pool_gave (warm_of used) s s' /\ (forall x, used = Some x -> came_from x s).
Proof.
  intros Hn Hi. unfold take_or_restore, mbind, sm_bind, pool_take.
  destruct (WarmPool.take p (AppState.warm_pool s)) as [[w needed] p'] eqn:Ht.
  pose proof (take_vms p _ (AppState.refills s) w needed p' Ht) as Hp. destruct w as [h|].
  - intros [= <- <-]. cbn. split_and!; [done|right; by exists p, (Some h), needed|].
    intros x [= <-]. unfold came_from, pool_ids, vm_ids. simpl. rewrite Hp. left.
  - unfold meter, sm_modify. set (s1 := AppState.with_metrics _ _).
    assert (Hg : pool_gave None s s1) by (right; by exists p, None, needed).
    destruct (hv (VmCore.restore p) s1) as [r1 s2] eqn:Hc.
    destruct (hv_only (CRestore p) n s1 r1 s2 Hn) as (_ & Ho & Hk); [|done|done|exact Hc|].
    { destruct (pool_step None (n + 1) s _ _ _ Hi Hp) as ([] & _). by split. }
    specialize (Ho eq_refl). pose proof (pool_gave_kept _ _ _ _ Hg Hk) as Hg'.
    destruct r1 as [h|e]; intros [= <- <-]; simpl in *; (split_and!; [destruct Ho; by split|exact Hg'|]); [|done].
    intros x [= <-]. unfold came_from. simpl. unfold hv in Hc. simpl in Hc.
    destruct (VmCore.restore p (AppState.hypervisor s)) as [r2 h2] eqn:Hr. injection Hc as Hr2 _.
    destruct (hv_call (CRestore p) n _ r2 h2 Hn (ai_hv _ _ Hi) Hr) as [_ [_ _ _ _ Hnew _]].
    destruct r2 as [h'|]; [|done]. simpl in Hr2. injection Hr2 as ->. by apply (Hnew (VmHandle.id h)).
Qed.

Lemma on_vm_only {A B} (c : HvCall A) (f : A -> B) u n s r s' :
  0 <= n -> app_inv n s -> vm_target c = Some u -> snap_target c = None -> cost c = 0 ->
  (forall a, born_vm c a = None) -> (forall a, born_snapshot c a = None) ->
  (a ← hv (call c); mret (f a)) s = (r, s') -> only_vm (Some u) s s' /\ pool_kept s s'.
Proof.
  intros Hn Hi Hu Hs Hc Hbv Hbs He. unfold mbind, sm_bind in He.
  destruct (hv (call c) s) as [r1 s1] eqn:Hh.
  destruct (hv_only c n s r1 s1 Hn) as (Ho & _ & Hk); [by rewrite Hc, Z.add_0_r|done..|].
  specialize (Ho u Hu (fun a _ => Hbv a)). by destruct r1; injection He as _ <-.
Qed.

Lemma dispatch_only u action n s r s' :
  0 <= n -> app_inv n s -> dispatch u action s = (r, s') -> only_vm (Some u) s s' /\ pool_kept s s'.
Proof.
  intros Hn Hi. destruct action; simpl; unfold guest_exec; intros He.
  - by eapply (on_vm_only (CExec u _)) in He.
  - by eapply (on_vm_only (CExec u _)) in He.
  - by eapply (on_vm_only (CRead u _)) in He.
  - by eapply (on_vm_only (CWrite u _ _ _)) in He.
  - by eapply (on_vm_only (CExec u _)) in He.
Qed.

Lemma own_only (f : O -> O) u s :
  (forall v, v <> u -> Ownership.vm_owner (f (AppState.ownership s)) v = owner_vm s v) ->
  (forall p, Ownership.snapshot_owner (f (AppState.ownership s)) p = owner_snap s p) ->
  only_vm (Some u) s (own f s).2.
Proof. intros Hf Hp. split; try done. intros v Hne. apply Hf. congruence. Qed.

Lemma record_only u org s : only_vm (Some u) s (own (OwnershipMap.record_vm u org) s).2.
Proof.
  apply own_only; unfold OwnershipMap.record_vm;
    destruct (Ownership.record_vm u org (AppState.ownership s)) as [r o] eqn:He; simpl.
  - intros v Hne. destruct (record_vm_owner u org _ r o v He) as [-> _].
    apply Z.eqb_neq in Hne. by rewrite Hne, andb_false_r.
  - apply (record_vm_owner u org _ r o u He).
Qed.

Lemma forget_only u s : only_vm (Some u) s (own (OwnershipMap.forget_vm u) s).2.
Proof.
  apply own_only; unfold OwnershipMap.forget_vm;
    destruct (Ownership.forget_vm u (AppState.ownership s)) as [r o] eqn:He; simpl.
  - intros v Hne. destruct (forget_vm_owner u _ r o v He) as [-> _].
    apply Z.eqb_neq in Hne. by rewrite Hne, andb_false_r.
  - apply (forget_vm_owner u _ r o u He).
Qed.

(** Nobody owns the VM [u], or the ownership store refused to forget it. *)
Definition disowned (u : VmId) s' : Prop :=
  owner_vm s' u = None \/ exists o e, Ownership.forget_vm u o = (Err e, AppState.ownership s').

Lemma forget_disowns u s : disowned u (own (OwnershipMap.forget_vm u) s).2.
Proof.
  unfold disowned, owner_vm, own, sm_modify, OwnershipMap.forget_vm. simpl.
  destruct (Ownership.forget_vm u (AppState.ownership s)) as [[[]|e] o] eqn:He; [left|right; eauto].
  destruct (forget_vm_owner u _ _ o u He) as [Ho _]. simpl in *. by rewrite Ho, Z.eqb_refl.
Qed.

(** The VM [u] is gone, or the destroy the handler made of it, in the state [s2]
    the action left, answered an error. *)
Definition reaped (u : VmId) s2 s' : Prop :=
  see_vm s' u = None
  \/ exists e, VmCore.destroy u (AppState.hypervisor s2) = (Err e, AppState.hypervisor s').

Lemma destroy_attempted u s2 r s3 : hv (VmCore.destroy u) s2 = (r, s3) -> reaped u s2 s3.
Proof.
  unfold hv. destruct (VmCore.destroy u (AppState.hypervisor s2)) as [[[]|e] h] eqn:He; intros [= _ <-].
  - left. exact (destroy_reaps (V := V) (P := P) (F := F) u _ _ He).
  - right. by exists e.
Qed.

(** The sandbox after it has its VM: the action, the destruction, the clean-up. *)
Definition after_take (org : OrgId) (u : VmId) (action : SandboxAction.t) : handler (result ApiError DispatchOutcome.t) :=
  _ ← own (OwnershipMap.record_vm u org);
  outcome ← attempt (dispatch u action);
  _ ← attempt (hv (VmCore.destroy u));
  _ ← own (OwnershipMap.forget_vm u);
  mret outcome.

Lemma after_take_only org u action n s r s' :
  0 <= n -> app_inv n s -> fresh_vm u s -> after_take org u action s = (r, s') ->
  only_vm (Some u) s s' /\ pool_kept s s' /\ disowned u s'
  /\ exists s1 outcome s2, dispatch u action s1 = (outcome, s2) /\ r = Ok outcome /\ reaped u s2 s'.
Proof.
  intros Hn Hi Hf. unfold after_take, mbind, sm_bind. rewrite <- (Z.add_0_r n) in Hi.
  destruct (own (OwnershipMap.record_vm u org) s) as [r1 s1] eqn:H1.
  destruct (safe_record_vm (Some org) u org eq_refl n s r1 s1 Hn Hi Hf H1) as (Hi1 & _ & Hm1).
  pose proof (record_only u org s) as O1. rewrite H1 in O1.
  assert (K1 : pool_kept s s1) by (by injection H1 as _ <-). injection H1 as <- _. specialize (Hm1 tt eq_refl).
  destruct (attempt (dispatch u action) s1) as [r2 s2] eqn:H2. unfold attempt in H2.
  destruct (dispatch u action s1) as [outcome s2'] eqn:Hd. injection H2 as <- <-.
  rewrite <- (Z.add_0_r n) in Hi1.
  destruct (safe_dispatch (Some org) u action n s1 outcome s2' Hn Hi1 Hm1 Hd) as (Hi2 & _ & _).
  rewrite Z.add_0_r in Hi1. destruct (dispatch_only u action n s1 outcome s2' Hn Hi1 Hd) as [O2 K2].
  unfold attempt. destruct (hv (VmCore.destroy u) s2') as [r3 s3] eqn:H3.
  destruct (hv_only (CDestroy u) n s2' r3 s3 Hn) as (O3 & _ & K3); [by rewrite Z.add_0_r|done|done|exact H3|].
  specialize (O3 u eq_refl (fun _ _ => eq_refl)). apply destroy_attempted in H3.
  pose proof (forget_only u s3) as O4. pose proof (forget_disowns u s3) as D4.
  destruct (own (OwnershipMap.forget_vm u) s3) as [r4 s4] eqn:H4. assert (K4 : pool_kept s3 s4) by (by injection H4 as _ <-).
  injection H4 as <- <-. intros [= <- <-]. split_and!; [..|exists s1, outcome, s2'; by split_and!].
  - by eapply only_vm_trans, only_vm_trans, only_vm_trans.
  - unfold pool_kept in *. destruct K1, K2, K3, K4. split; congruence.
  - exact D4.
Qed.

(** The handler in terms of its parts. *)
Lemma sandbox_invoke_parts env org req s :
  sandbox_invoke debug_str env org (Ok req) s =
  (p ← sm_lift (resolve_snapshot_with debug_str (SandboxInvokeRequest.snapshot req) (Env.sandbox_snapshot env));
   _ ← require_snapshot p org;
   x ← take_or_restore p;
   outcome ← after_take org (VmHandle.id x.1) (SandboxInvokeRequest.action req);
   o ← sm_lift outcome;
   mret (SandboxResult.mk (DispatchOutcome.stdout o) (DispatchOutcome.stderr o)
           (DispatchOutcome.exit_code o) (wrap64 (Env.elapsed_ms env)) x.2)) s.
Proof.
  unfold sandbox_invoke, after_take, mbind, sm_bind, json_body, own, sm_modify, attempt, sm_lift, map_err. cbv beta iota zeta.
  destruct (resolve_snapshot_with _ _ _) as [p|e]; [|reflexivity].
  destruct (require_snapshot p org s) as [[[]|e] s1]; [|reflexivity].
  destruct (take_or_restore p s1) as [[[h cold]|e] s2]; [|reflexivity]. cbv beta iota zeta.
  change ((h, cold).1) with h.
  destruct (dispatch _ _ _) as [outcome s3]. destruct (hv _ s3) as [r s4]. by destruct outcome.
Qed.

(** The answer of the handler for what the action answered. *)
Definition sandbox_answer env (cold : bool) (o : DispatchOutcome.t) : SandboxResult.t :=
  SandboxResult.mk (DispatchOutcome.stdout o) (DispatchOutcome.stderr o) (DispatchOutcome.exit_code o)
    (wrap64 (Env.elapsed_ms env)) cold.

(** What became of the VM the call used, and of the answer. *)
Definition sandbox_ran env (body : result Rejection.t SandboxInvokeRequest.t) (r : result ApiError SandboxResult.t) s s' (used : option (VmId * bool)) : Prop :=
  match used with
  | None => exists e, r = Err e
  | Some (u, cold) =>
      came_from (u, cold) s /\ disowned u s'
      /\ exists req s1 outcome s2,
           body = Ok req /\ dispatch u (SandboxInvokeRequest.action req) s1 = (outcome, s2)
           /\ reaped u s2 s' /\ r = sandbox_answer env cold <$> outcome
  end.

Lemma sandbox_unused env (body : result Rejection.t SandboxInvokeRequest.t) e s s1 r s' :
  only_vm None s s1 -> pool_gave None s s1 -> (Err e, s1) = (r, s') ->
  exists used, only_vm (fst <$> used) s s' /\ pool_gave (warm_of used) s s' /\ sandbox_ran env body r s s' used.
Proof. intros Ho Hg [= <- <-]. exists None. split_and!; eauto. by exists e. Qed.

(** C32: A sandbox call leaves nothing of its own behind. Whether it succeeds,
    is refused or fails at any point (also inside the action), at most one VM is
    involved, and it comes from the warm pool or was not given out before. With
    no VM the answer is an error. With one, the action ran on it, the answer is
    the action's (an error as the error, a success with [cold_start] exactly when
    the VM was not a pooled one), and afterwards the VM is gone unless the destroy
    made in the state the action left answered an error, and nobody owns it unless
    the ownership store refused to forget it. Every other VM and every snapshot
    is as before with its owner, as are the fork usage, the quota, the store, the
    defaults and the counter of nonces; the pool is as one [take] leaves it, and
    gave up no VM but the one used. *)
Theorem sandbox_leaves_no_vm env org body n s r s' :
  0 <= n -> app_inv (n + 1) s -> sandbox_invoke debug_str env org body s = (r, s') ->
  exists used, only_vm (fst <$> used) s s' /\ pool_gave (warm_of used) s s' /\ sandbox_ran env body r s s' used.
Proof.
  intros Hn Hi. pose proof (fun e => sandbox_unused env body e s s r s' (only_vm_refl None s)
    (or_introl (conj eq_refl (conj eq_refl eq_refl)))) as Hsame.
  destruct body as [req|rej]; [|exact (Hsame _)].
  rewrite sandbox_invoke_parts. unfold mbind, sm_bind, sm_lift.
  destruct (resolve_snapshot_with _ _ _) as [p|e]; [|exact (Hsame _)].
  destruct (require_snapshot p org s) as [[[]|e] s0] eqn:Hr; pose proof Hr as [= Hr1 <-]; [|exact (Hsame _)].
  destruct (safe_require_snapshot (Some org) p org eq_refl (n + 1) s _ s ltac:(lia) ltac:(by rewrite Z.add_0_r) I Hr)
    as (_ & _ & Hm).
  destruct (take_or_restore p s) as [r1 s1] eqn:Ht.
  destruct (take_or_restore_only p n s r1 s1 Hn Hi Ht) as (O1 & G1 & Hfrom).
  destruct (safe_take_or_restore (Some org) p n s r1 s1 Hn Hi (Hm tt eq_refl) Ht) as (Hi1 & _ & Hf).
  destruct r1 as [[h cold]|e]; [|by eapply sandbox_unused]. specialize (Hf _ eq_refl).
  destruct (after_take org (VmHandle.id (h, cold).1) (SandboxInvokeRequest.action req) s1) as [r2 s2] eqn:Ha.
  destruct (after_take_only org _ _ n s1 r2 s2 Hn Hi1 Hf Ha) as (O2 & K2 & D2 & sa & outcome & sb & Hd & -> & Hg).
  intros He. assert (s' = s2) as -> by (destruct outcome; by injection He as _ <-).
  exists (Some (VmHandle.id h, cold)). split_and!.
  - by eapply only_vm_trans.
  - by eapply pool_gave_kept.
  - split; [by apply Hfrom|]. split; [exact D2|]. exists req, sa, outcome, sb. split_and!; [done..|]. destruct outcome; by injection He as <-.
Qed.
End Sandbox.
