(* ===== verification/Listing.v ===== *)
(** * Paginated listings

    Following the [next] cursors of [GET /v1/vms] and [GET /v1/snapshots] to the
    end gives the caller's resources, all of them, once, in id order. *)

From Stdlib Require Import Ascii String.
From stdpp Require Import strings pretty sorting.
From S2P Require Import Prelude Io Str Fs VmCore VmMock HvCalls Store ApiError Auth WarmPool Api Ownership.
From S2P Require Import Metrics Routes.

Local Open Scope string_scope.
Local Open Scope Z_scope.

(** ** Pages of a sorted list *)

Section Pages.
Context {X R : Type} (key : X -> Z) (row : X -> R) (rid : R -> Z).

(** One page after a cursor: its rows and the next cursor. *)
Definition page (limit after : Z) (l : list X) : list R * option Z :=
  let filtered := filter (fun x => after < key x) l in
  let rows := row <$> take (Z.to_nat limit) filtered in
  (rows, if limit <? zlen filtered then rid <$> last rows else None).

(** All pages from a cursor on, by [fuel] requests at most. *)
Fixpoint walk (fetch : option Z -> option (list R * option Z)) (fuel : nat) (after : option Z) :
    option (list R) :=
  match fuel with
  | O => None
  | S fuel =>
      match fetch after with
      | Some (rows, None) => Some rows
      | Some (rows, Some next) => app rows <$> walk fetch fuel (Some next)
      | None => None
      end
  end.

Context (Hrid : forall x, rid (row x) = key x).

Lemma filter_suffix after (l1 l2 : list X) :
  Forall (fun x => key x <= after) l1 -> Forall (fun x => after < key x) l2 ->
  filter (fun x => after < key x) (l1 ++ l2)%list = l2.
Proof.
  intros H1 H2. induction H1 as [|x l1 Hx _ IH]; simpl.
  - induction H2 as [|x l2 Hx _ IH]; [done|]. rewrite filter_cons_True by done. by rewrite IH.
  - rewrite filter_cons_False by lia. done.
Qed.

(** From a cursor between [l1] and [l2], the pages give the rows of [l2]. *)
Lemma walk_suffix fetch limit : forall fuel l1 l2 cursor,
  0 < limit -> StronglySorted (fun x y => key x < key y) (l1 ++ l2)%list ->
  (forall after, fetch after = Some (page limit (default 0 after) (l1 ++ l2)%list)) ->
  Forall (fun x => key x <= default 0 cursor) l1 -> Forall (fun x => default 0 cursor < key x) l2 ->
  (length l2 < fuel)%nat ->
  walk fetch fuel cursor = Some (row <$> l2).
Proof.
  induction fuel as [|fuel IH]; intros l1 l2 cursor Hlim Hs Hf H1 H2 Hfuel; [lia|]. simpl.
  rewrite Hf. unfold page. rewrite filter_suffix by done. unfold zlen.
  destruct (Z.ltb_spec limit (Z.of_nat (length l2))) as [Hlt|Hge]; simpl.
  2: { rewrite take_ge by lia. done. }
  set (k := Z.to_nat limit). assert (Hk : (0 < k < length l2)%nat) by lia.
  destruct (lookup_lt_is_Some_2 l2 (pred k)) as [x Hx]; [lia|].
  assert (Hlast : last (row <$> take k l2) = Some (row x)).
  { rewrite last_lookup, list_lookup_fmap, length_fmap, length_take, lookup_take_lt by lia.
    replace (pred (k `min` length l2)) with (pred k) by lia. by rewrite Hx. }
  rewrite Hlast. simpl. rewrite Hrid.
  assert (Hsplit : (l1 ++ l2)%list = ((l1 ++ take k l2) ++ drop k l2)%list).
  { by rewrite <- (assoc_L app), take_drop. }
  assert (Htk : take k l2 = (take (pred k) l2 ++ [x])%list).
  { replace k with (S (pred k)) at 1 by lia. by apply take_S_r. }
  pose proof Hs as Hs'. rewrite Hsplit, StronglySorted_app in Hs'. destruct Hs' as (Hcross & Hleft & _).
  rewrite (IH (l1 ++ take k l2)%list (drop k l2) (Some (key x))); [|done|by rewrite <- Hsplit| | | |].
  - simpl. by rewrite <- fmap_app, take_drop.
  - intros after. by rewrite <- Hsplit.
  - rewrite Htk in Hleft |- *. rewrite (assoc_L app) in Hleft |- *. simpl. apply Forall_app. split.
    + apply Forall_forall. intros y Hy. apply Z.lt_le_incl.
      eapply (StronglySorted_app_1_elem_of _ _ [x] y x Hleft Hy). left.
    + repeat constructor. lia.
  - apply Forall_forall. intros y Hy. simpl. apply (Hcross x y); [|done].
    rewrite Htk. rewrite !elem_of_app, list_elem_of_singleton. auto.
  - rewrite length_drop. lia.
Qed.
End Pages.

Lemma strictly_sorted {X} (key : X -> Z) (l : list X) :
  StronglySorted (fun x y => key x <= key y) l -> NoDup (key <$> l) ->
  StronglySorted (fun x y => key x < key y) l.
Proof.
  induction 1 as [|x l Hs IH Hx]; simpl; [constructor|]. intros [Hni Hnd]%NoDup_cons.
  constructor; [by apply IH|]. apply Forall_forall. intros y Hy. rewrite Forall_forall in Hx.
  apply Hx in Hy as Hle. assert (key x <> key y); [|lia]. intros He. apply Hni. rewrite He.
  by apply list_elem_of_fmap_2.
Qed.

(** The resources kept by a filter, in id order. *)
Lemma filtered_sorted {X} (key : X -> Z) (le : relation X) `{!forall x y, Decision (le x y), !Transitive le, !Total le}
    (f : X -> Prop) `{!forall x, Decision (f x)} (l : list X) :
  (forall x y, le x y -> key x <= key y) -> NoDup (key <$> l) -> Forall (fun x => 0 < key x) l ->
  StronglySorted (fun x y => key x < key y) (merge_sort le (filter f l))
  /\ Forall (fun x => 0 < key x) (merge_sort le (filter f l)).
Proof.
  intros Hle Hnd Hpos. split.
  - apply strictly_sorted.
    + pose proof (StronglySorted_merge_sort le (filter f l)) as Hs.
      induction Hs as [|x l' Hs IH Hx]; constructor; [done|]. eapply Forall_impl; [exact Hx|apply Hle].
    + rewrite merge_sort_Permutation. clear Hpos.
      induction l as [|x l IH]; [done|]. apply NoDup_cons in Hnd as [Hni Hnd].
      rewrite filter_cons. case_decide; [|by apply IH]. simpl. apply NoDup_cons. split; [|by apply IH].
      intros (y & Hy & Hin)%list_elem_of_fmap. apply Hni. rewrite Hy. apply list_elem_of_filter in Hin as [_ ?].
      by apply list_elem_of_fmap_2.
  - rewrite merge_sort_Permutation. rewrite Forall_forall in Hpos |- *.
    intros x [_ Hx]%list_elem_of_filter. by apply Hpos.
Qed.

#[global] Instance handle_le_trans : Transitive handle_le.
Proof. intros x y z. unfold handle_le. lia. Qed.
#[global] Instance handle_le_total : Total handle_le.
Proof. intros x y. unfold handle_le. lia. Qed.

(** What the listings rely on: reading changes nothing, ids are distinct and
    positive, and the metadata of a resource, when there is any, is its own. *)
Class HypervisorReads (H : Type) `{!Hypervisor H} := {
  reads_inv : H -> Prop;
  the_vms : H -> list VmHandle.t;
  the_snapshots : H -> list SnapshotId;
  list_vms_reads h : VmCore.list_vms h = (Ok (the_vms h), h);
  list_snapshots_reads h : VmCore.list_snapshots h = (Ok (the_snapshots h), h);
  the_vms_distinct h : reads_inv h -> NoDup (VmHandle.id <$> the_vms h);
  the_vms_positive h : reads_inv h -> Forall (fun v => 0 < VmHandle.id v) (the_vms h);
  the_snapshots_distinct h : reads_inv h -> NoDup (the_snapshots h);
  the_snapshots_positive h : reads_inv h -> Forall (fun p => 0 < p) (the_snapshots h);
  vm_meta_reads v h : exists r, VmCore.vm_meta v h = (r, h)
    /\ match r with Ok m => VmMeta.id m = v | Err (Unsupported _ | UnknownVm _) => True | Err _ => False end;
  snapshot_meta_reads p h : exists r, VmCore.snapshot_meta p h = (r, h)
    /\ match r with Ok m => SnapshotMeta.id m = p | Err (Unsupported _ | UnknownSnapshot _) => True | Err _ => False end;
}.

Section Listings.
Context {H Q S O : Type}.
Context `{!Hypervisor H, !HypervisorReads H, !OwnershipStore O}.
Abbreviation state := (AppState.t H Q S O).
Implicit Types s : state.

(** The rows of the listings, and the caller's resources in id order. *)
Definition vm_row s (h : VmHandle.t) : VmListEntry.t :=
  match (VmCore.vm_meta (VmHandle.id h) (AppState.hypervisor s)).1 with
  | Ok m => VmListEntry.from_meta m
  | Err _ => VmListEntry.id_only h
  end.

Definition snapshot_row s (p : SnapshotId) : SnapshotListEntry.t :=
  match (VmCore.snapshot_meta p (AppState.hypervisor s)).1 with
  | Ok m => SnapshotListEntry.from_meta m
  | Err _ => SnapshotListEntry.id_only p
  end.

Definition owned_vms (org : OrgId) s : list VmHandle.t :=
  merge_sort handle_le
    (filter (fun h => OwnershipMap.vm_owner (AppState.ownership s) (VmHandle.id h) = org)
       (the_vms (AppState.hypervisor s))).

Definition owned_snapshots (org : OrgId) s : list SnapshotId :=
  merge_sort Z.le
    (filter (fun p => OwnershipMap.snapshot_owner (AppState.ownership s) p = org)
       (the_snapshots (AppState.hypervisor s))).

(** A client's request for a page. *)
Definition vm_fetch (org : OrgId) (limit : option Z) s (after : option Z) :
    option (list VmListEntry.t * option Z) :=
  match (list_vms org (ListQuery.mk limit after) s).1 with
  | Ok r => Some (VmListResponse.vms r, VmListResponse.next r)
  | Err _ => None
  end.

Definition snapshot_fetch (org : OrgId) (limit : option Z) s (after : option Z) :
    option (list SnapshotListEntry.t * option Z) :=
  match (list_snapshots org (ListQuery.mk limit after) s).1 with
  | Ok r => Some (SnapshotListResponse.snapshots r, SnapshotListResponse.next r)
  | Err _ => None
  end.

Lemma with_hypervisor_id s : AppState.with_hypervisor (AppState.hypervisor s) s = s.
Proof. by destruct s. Qed.

Lemma vm_entries_rows s handles : vm_entries handles s = (Ok (vm_row s <$> handles), s).
Proof.
  induction handles as [|h hs IH]; [done|]. simpl. unfold mbind, sm_bind, vm_row at 1.
  destruct (vm_meta_reads (VmHandle.id h) (AppState.hypervisor s)) as (r & -> & Hr).
  rewrite with_hypervisor_id. destruct r as [m|[]]; simpl; try done; by rewrite IH.
Qed.

Lemma snapshot_entries_rows s ids : snapshot_entries ids s = (Ok (snapshot_row s <$> ids), s).
Proof.
  induction ids as [|p ps IH]; [done|]. simpl. unfold mbind, sm_bind, snapshot_row at 1.
  destruct (snapshot_meta_reads p (AppState.hypervisor s)) as (r & -> & Hr).
  rewrite with_hypervisor_id. destruct r as [m|[]]; simpl; try done; by rewrite IH.
Qed.

Lemma vm_row_id s h : VmListEntry.id (vm_row s h) = VmHandle.id h.
Proof.
  unfold vm_row. destruct (vm_meta_reads (VmHandle.id h) (AppState.hypervisor s)) as (r & -> & Hr).
  by destruct r.
Qed.

Lemma snapshot_row_id s p : SnapshotListEntry.id (snapshot_row s p) = p.
Proof.
  unfold snapshot_row. destruct (snapshot_meta_reads p (AppState.hypervisor s)) as (r & -> & Hr).
  by destruct r.
Qed.

Lemma list_vms_page org limit l after s :
  ListQuery.validated_limit (ListQuery.mk limit after) = Ok l ->
  list_vms org (ListQuery.mk limit after) s =
    (let '(rows, next) := page VmHandle.id (vm_row s) VmListEntry.id l (default 0 after) (owned_vms org s) in
     Ok (VmListResponse.mk rows next), s).
Proof.
  intros Hl. unfold list_vms, mbind, sm_bind, sm_lift. rewrite Hl. unfold hv.
  rewrite list_vms_reads. simpl. rewrite with_hypervisor_id, vm_entries_rows. done.
Qed.

Lemma list_snapshots_page org limit l after s :
  ListQuery.validated_limit (ListQuery.mk limit after) = Ok l ->
  list_snapshots org (ListQuery.mk limit after) s =
    (let '(rows, next) := page id (snapshot_row s) SnapshotListEntry.id l (default 0 after)
                            (owned_snapshots org s) in
     Ok (SnapshotListResponse.mk rows next), s).
Proof.
  intros Hl. unfold list_snapshots, mbind, sm_bind, sm_lift. rewrite Hl. unfold hv.
  rewrite list_snapshots_reads. simpl. rewrite with_hypervisor_id, snapshot_entries_rows. done.
Qed.

(** C40: Pagination is complete. For every valid page size, a client that follows
    the [next] cursors from the first page gets the rows of exactly the VMs, and
    of exactly the snapshots, its organisation owns: none twice, none missing, in
    increasing id order; the walk takes no more requests than there are rows
    plus one, no page is longer than the limit, and listing changes nothing. *)
Theorem listing_complete org limit l s fuel :
  reads_inv (AppState.hypervisor s) ->
  ListQuery.validated_limit (ListQuery.mk limit None) = Ok l -> 0 <= l ->
  (length (the_vms (AppState.hypervisor s)) < fuel)%nat ->
  (length (the_snapshots (AppState.hypervisor s)) < fuel)%nat ->
  walk (vm_fetch org limit s) fuel None = Some (vm_row s <$> owned_vms org s)
  /\ walk (snapshot_fetch org limit s) fuel None = Some (snapshot_row s <$> owned_snapshots org s)
  /\ forall after,
       (list_vms org (ListQuery.mk limit after) s).2 = s
       /\ (list_snapshots org (ListQuery.mk limit after) s).2 = s
       /\ match vm_fetch org limit s after, snapshot_fetch org limit s after with
          | Some (vms, _), Some (snaps, _) => zlen vms <= l /\ zlen snaps <= l
          | _, _ => False
          end.
Proof.
  intros Hi Hl Hu Hfv Hfp.
  assert (Hl0 : 0 < l).
  { unfold ListQuery.validated_limit in Hl. simpl in Hl. unfold DEFAULT_LIST_LIMIT, MAX_LIST_LIMIT in Hl.
    destruct limit as [n|]; [|injection Hl as <-; lia].
    destruct (Z.eqb_spec n 0); [done|]. destruct (Z.ltb_spec 1000 n); [done|]. injection Hl as <-. lia. }
  assert (Hq : forall after, ListQuery.validated_limit (ListQuery.mk limit after) = Ok l) by done.
  assert (Hev : forall after, vm_fetch org limit s after = Some (page VmHandle.id (vm_row s) VmListEntry.id l (default 0 after) (owned_vms org s))).
  { intros after. unfold vm_fetch. by rewrite (list_vms_page org limit l after s (Hq after)). }
  assert (Hep : forall after, snapshot_fetch org limit s after = Some (page id (snapshot_row s) SnapshotListEntry.id l (default 0 after) (owned_snapshots org s))).
  { intros after. unfold snapshot_fetch. by rewrite (list_snapshots_page org limit l after s (Hq after)). }
  destruct (filtered_sorted VmHandle.id handle_le (fun h => OwnershipMap.vm_owner (AppState.ownership s) (VmHandle.id h) = org)
    (the_vms (AppState.hypervisor s))) as [Hsv Hpv]; [done|by apply the_vms_distinct|by apply the_vms_positive|].
  destruct (filtered_sorted id Z.le (fun p => OwnershipMap.snapshot_owner (AppState.ownership s) p = org)
    (the_snapshots (AppState.hypervisor s))) as [Hsp Hpp]; [done|rewrite list_fmap_id; by apply the_snapshots_distinct|by apply the_snapshots_positive|].
  assert (Hpage : forall X R (key : X -> Z) (row : X -> R) rid after (l' : list X), zlen (page key row rid l after l').1 <= l).
  { intros. unfold page, zlen. simpl. rewrite length_fmap, length_take. lia. }
  split_and!.
  - apply (walk_suffix VmHandle.id (vm_row s) VmListEntry.id (vm_row_id s) _ l fuel [] (owned_vms org s) None);
      [done|exact Hsv|exact Hev|done|exact Hpv|].
    unfold owned_vms. rewrite merge_sort_Permutation. eapply Nat.le_lt_trans; [apply length_filter|done].
  - apply (walk_suffix id (snapshot_row s) SnapshotListEntry.id (snapshot_row_id s) _ l fuel [] (owned_snapshots org s) None);
      [done|exact Hsp|exact Hep|done|exact Hpp|].
    unfold owned_snapshots. rewrite merge_sort_Permutation. eapply Nat.le_lt_trans; [apply length_filter|done].
  - intros after. rewrite (list_vms_page org limit l after s (Hq after)), (list_snapshots_page org limit l after s (Hq after)).
    rewrite Hev, Hep. split_and!; [done..|].
    pose proof (Hpage _ _ VmHandle.id (vm_row s) VmListEntry.id (default 0 after) (owned_vms org s)) as Hv.
    pose proof (Hpage _ _ id (snapshot_row s) SnapshotListEntry.id (default 0 after) (owned_snapshots org s)) as Hp.
    by destruct (page VmHandle.id _ _ _ _ _), (page id _ _ _ _ _).
Qed.
End Listings.
