(* ===== verification/UsageProps.v ===== *)
(** * Fork accounting

    The counters behind [GET /v1/usage], [GET /v1/usage/by-org] and the metrics
    that bills are computed from: over any history of requests and background
    refills they are exactly the successful forks, charged to the bearer token
    and the organisation that made them. *)

From Stdlib Require Import Ascii String.
From stdpp Require Import strings pretty sorting.
From S2P Require Import Prelude Io Str Fs VmCore VmMock HvCalls Store ApiError Auth WarmPool Api Ownership.
From S2P Require Import Metrics Routes.

Local Open Scope string_scope.
Local Open Scope Z_scope.

Section Usage.
Context {H Q S O F : Type}.
Context `{!Hypervisor H, !HostDisk H F, !ForkQuota Q, !OwnershipStore O, !FileSystem F,
          !SnapshotStore S F, !Serde string Manifest.t, !Serde string SnapshotRequest.t}.
Context (debug_str : string -> string) (temp_dir pid : string).
Abbreviation state := (AppState.t H Q S O).
Abbreviation handler := (SM state ApiError).
Implicit Types s : state.

(** The counters a bill is made of. *)
Record Ledger : Type := mk_ledger {
  by_token : gmap string ForkUsage.t;
  by_org : gmap string Z;
  ms_by_org : gmap string Z;
}.

Definition ledger s : Ledger :=
  mk_ledger (AppState.fork_usage s) (Metrics.forks_total_by_org (AppState.metrics s))
    (Metrics.fork_latency_ms_sum_by_org (AppState.metrics s)).

(** Computations that charge nobody. *)
Definition free {A} (c : handler A) : Prop := forall s, ledger (c s).2 = ledger s.

Lemma free_bind {A B} (c : handler A) (f : A -> handler B) :
  free c -> (forall a, free (f a)) -> free (a ← c; f a).
Proof.
  intros Hc Hf s. unfold mbind, sm_bind. specialize (Hc s). destruct (c s) as [[a|e] s1]; [|done].
  simpl in Hc. by rewrite Hf.
Qed.

Lemma free_ret {A} (a : A) : free (mret a).
Proof. done. Qed.
Lemma free_lift {A} (r : result ApiError A) : free (sm_lift r).
Proof. done. Qed.
Lemma free_gets {A} (f : state -> A) : free (sm_gets f).
Proof. done. Qed.
Lemma free_fail {A} e : free (sm_fail e : handler A).
Proof. done. Qed.
Lemma free_hv {A} (c : SM H VmError A) : free (hv c).
Proof. intros s. unfold hv. by destruct (c _). Qed.
Lemma free_own f : free (own f).
Proof. done. Qed.
Lemma free_require_vm v org : free (require_vm v org).
Proof. done. Qed.
Lemma free_require_snapshot p org : free (require_snapshot p org).
Proof. done. Qed.
Lemma free_path id : free (path_id id).
Proof. done. Qed.
Lemma free_body {A} (body : result Rejection.t A) : free (json_body body).
Proof. done. Qed.
Lemma free_map {A B} (f : A -> B) (c : handler A) : free c -> free (f <$> c).
Proof. intros Hc. by apply free_bind. Qed.
Lemma free_attempt {A} (c : handler A) : free c -> free (attempt c).
Proof. intros Hc s. unfold attempt. specialize (Hc s). by destruct (c s). Qed.
Lemma free_pool_take p : free (pool_take p).
Proof. intros s. unfold pool_take. by destruct (WarmPool.take p _) as [[??]?]. Qed.
Lemma free_pool_drain p : free (pool_drain p).
Proof. intros s. unfold pool_drain. by destruct (WarmPool.drain p _ _). Qed.
Lemma free_persist m dir : free (persist_manifest m dir).
Proof. intros s. unfold persist_manifest. by destruct (Manifest.write_to_dir _ _ _). Qed.
Lemma free_store {A} st uri (c : SM (S * F) StoreError A) : free (store_call st uri c).
Proof. intros s. unfold store_call. by destruct (c _) as [?[??]]. Qed.
Lemma free_nonce : free uniq_nonce.
Proof. done. Qed.
Lemma free_remove_dir dir : free (remove_dir_all dir).
Proof. done. Qed.
Lemma free_warm_hit : free (meter Metrics.record_warm_hit).
Proof. done. Qed.
Lemma free_warm_miss : free (meter Metrics.record_warm_miss).
Proof. done. Qed.
Lemma free_throttled fp org : free (meter (Metrics.record_throttled fp org)).
Proof. done. Qed.
End Usage.

Create HintDb free.
#[export] Hint Resolve free_ret free_lift free_gets free_fail free_hv free_own free_require_vm
  free_require_snapshot free_path free_body free_map free_attempt free_pool_take free_pool_drain free_persist
  free_store free_nonce free_remove_dir free_warm_hit free_warm_miss free_throttled : free.

(** Goes through the binds of a handler. *)
Ltac free_steps :=
  repeat match goal with
  | |- free (mbind _ _) => apply free_bind; [|intros ?]
  | |- free (let '(_, _) := ?x in _) => destruct x
  | |- free (match ?x with _ => _ end) => destruct x
  | |- _ => solve [auto with free]
  end.

Section Accounting.
Context {H Q S O F : Type}.
Context `{!Hypervisor H, !HostDisk H F, !ForkQuota Q, !OwnershipStore O, !FileSystem F,
          !SnapshotStore S F, !Serde string Manifest.t, !Serde string SnapshotRequest.t}.
Context (debug_str : string -> string) (temp_dir pid : string).
Abbreviation state := (AppState.t H Q S O).
Abbreviation handler := (SM state ApiError).
Implicit Types s : state.

Lemma free_vm_entries handles : free (S := S) (Q := Q) (O := O) (vm_entries handles).
Proof.
  induction handles as [|h hs IH]; simpl; free_steps.
  intros s. by destruct (VmCore.vm_meta _ _).
Qed.

Lemma free_snapshot_entries ids : free (S := S) (Q := Q) (O := O) (snapshot_entries ids).
Proof.
  induction ids as [|h hs IH]; simpl; free_steps.
  intros s. by destruct (VmCore.snapshot_meta _ _).
Qed.

Lemma free_persist_to p dir : free (S := S) (Q := Q) (O := O) (persist_to p dir).
Proof. unfold persist_to. free_steps. Qed.

Lemma free_take_or_restore p : free (S := S) (Q := Q) (O := O) (take_or_restore p).
Proof. unfold take_or_restore. free_steps. Qed.

Lemma free_quota c what fp org : free (S := S) (O := O) (H := H) (Q := Q) (quota_gate c what fp org).
Proof. intros s. unfold quota_gate. by destruct (c (AppState.fork_quota s)) as [[]?]. Qed.

Lemma free_dispatch u action : free (S := S) (Q := Q) (O := O) (dispatch u action).
Proof. destruct action; simpl; unfold guest_exec; free_steps. Qed.

#[local] Hint Resolve free_vm_entries free_snapshot_entries free_persist_to free_take_or_restore free_quota
  free_dispatch : free.

(** Every route but the fork charges nobody. *)
Lemma free_route env auth org role req :
  (forall id, req <> RFork id) -> free (route debug_str temp_dir pid env auth org role req).
Proof.
  intros Hnf. destruct req; simpl; try (by destruct (Hnf id)); apply free_map.
  - unfold create_vm. free_steps.
  - unfold list_vms. free_steps.
  - unfold get_vm. free_steps.
  - unfold start_vm. free_steps.
  - unfold stop_vm. free_steps.
  - unfold destroy_vm. free_steps.
  - unfold snapshot_vm. free_steps.
  - unfold exec_vm. free_steps.
  - unfold write_file. free_steps.
  - unfold read_file. free_steps.
  - unfold sandbox_invoke. free_steps.
  - unfold list_snapshots. free_steps.
  - unfold delete_snapshot. free_steps.
  - unfold restore_snapshot. free_steps.
  - unfold export_snapshot. free_steps.
  - unfold import_snapshot. free_steps.
  - unfold usage. free_steps.
  - unfold usage_by_org. free_steps.
Qed.

(** A successful fork: who made it, with which token, in how many ms. *)
Record Fork : Type := mk_fork { f_org : OrgId; f_bearer : option string; f_ms : Z }.

Definition charged (l : Ledger) (f : Fork) : Ledger := {|
  by_token := match f_bearer f with
              | Some token =>
                  let old := default ForkUsage.default (by_token l !! token) in
                  <[token := ForkUsage.mk (saturating_add64 (ForkUsage.count old) 1)
                               (saturating_add64 (ForkUsage.total_ms old) (f_ms f))]> (by_token l)
              | None => by_token l
              end;
  by_org := Metrics.bump (f_org f) 1 (by_org l);
  ms_by_org := Metrics.bump (f_org f) (f_ms f) (ms_by_org l);
|}.

Definition fork_of (env : Env.t) (auth : option string) (org : OrgId) : Fork :=
  mk_fork org (extract_bearer auth) (wrap64 (Env.elapsed_ms env)).

Lemma fork_ledger env org id auth s r s' :
  fork_snapshot env org id auth s = (r, s') ->
  ledger s' = match r with Ok _ => charged (ledger s) (fork_of env auth org) | Err _ => ledger s end.
Proof.
  unfold fork_snapshot. intros He. revert He.
  assert (Hstep : forall A B (c : handler A) (f : A -> handler B) s (r : result ApiError B) s',
    free c -> (a ← c; f a) s = (r, s') ->
    (exists e, r = Err e /\ ledger s' = ledger s)
    \/ (exists a s1, ledger s1 = ledger s /\ f a s1 = (r, s'))).
  { intros A B c f s0 r0 s0' Hc. unfold mbind, sm_bind. specialize (Hc s0).
    destruct (c s0) as [[a|e] s1]; intros Hf; [right; by exists a, s1|left]. exists e. by injection Hf as <- <-. }
  intros [(e & -> & Hl)|(p & s1 & Hl1 & He)]%Hstep; [exact Hl| |apply free_path].
  apply Hstep in He as [(e & -> & Hl)|([] & s2 & Hl2 & He)]; [congruence| |apply free_require_snapshot].
  apply Hstep in He as [(e & -> & Hl)|([] & s3 & Hl3 & He)]; [congruence| |apply free_quota].
  apply Hstep in He as [(e & -> & Hl)|([] & s4 & Hl4 & He)]; [congruence| |apply free_quota].
  apply Hstep in He as [(e & -> & Hl)|([h cold] & s5 & Hl5 & He)]; [congruence| |apply free_take_or_restore].
  apply Hstep in He as [(e & -> & Hl)|([] & s6 & Hl6 & He)]; [congruence| |apply free_own].
  assert (Hs6 : ledger s6 = ledger s) by congruence. rewrite <- Hs6.
  unfold mbind, sm_bind, meter, sm_modify, charge in He. unfold fork_of, charged. simpl.
  destruct (extract_bearer auth) as [token|]; by injection He as <- <-.
Qed.

(** The successful forks along a history. *)
Definition forks_of (e : Event) s : list Fork :=
  match e with
  | Http env auth org role (RFork id) =>
      match (route debug_str temp_dir pid env auth org role (RFork id) s).1 with
      | Ok _ => [fork_of env auth org]
      | Err _ => []
      end
  | _ => []
  end.

Fixpoint forks (es : list Event) s : list Fork :=
  match es with
  | [] => []
  | e :: es => (forks_of e s ++ forks es (step debug_str temp_dir pid s e))%list
  end.

Lemma step_ledger e s : ledger (step debug_str temp_dir pid s e) = foldl charged (ledger s) (forks_of e s).
Proof.
  destruct e as [env auth org role req|i]; simpl.
  - destruct req as [| | | | | | | | | | | | | |id| | | |]; try (by apply free_route). simpl.
    unfold fmap, sm_fmap, mbind, sm_bind.
    destruct (fork_snapshot env org id auth s) as [r s'] eqn:He. apply fork_ledger in He. by destruct r.
  - unfold refill. destruct (AppState.refills s !! i) as [[snap|snap [h|]|snap h]|]; try done.
    by destruct (VmCore.restore snap _).
Qed.

Lemma run_ledger es : forall s,
  ledger (run debug_str temp_dir pid es s) = foldl charged (ledger s) (forks es s).
Proof.
  induction es as [|e es IH]; intros s; [done|]. simpl. rewrite foldl_app, <- step_ledger. apply IH.
Qed.

(** ** Totals *)

(** The sum of [w] over the forks that satisfy [p]. *)
Fixpoint total (p : Fork -> bool) (w : Fork -> Z) (fs : list Fork) : Z :=
  match fs with
  | [] => 0
  | f :: fs => (if p f then w f else 0) + total p w fs
  end.

Definition of_org (org : OrgId) (f : Fork) : bool := String.eqb (f_org f) org.
Definition of_token (token : string) (f : Fork) : bool :=
  match f_bearer f with Some t => String.eqb t token | None => false end.

Lemma bump_lookup k n (m : gmap string Z) k' :
  default 0 (Metrics.bump k n m !! k')
  = if String.eqb k k' then wrap64 (default 0 (m !! k') + n) else default 0 (m !! k').
Proof.
  unfold Metrics.bump. destruct (String.eqb_spec k k') as [-> |Hne].
  - by rewrite lookup_insert_eq.
  - by rewrite lookup_insert_ne.
Qed.

Lemma wrap64_add_l a b : wrap64 (wrap64 a + b) = wrap64 (a + b).
Proof. unfold wrap64. apply Zplus_mod_idemp_l. Qed.

Lemma wrap64_idem a : wrap64 (wrap64 a) = wrap64 a.
Proof. apply wrap64_small, wrap64_range. Qed.

Lemma org_totals org fs : forall l,
  wrap64 (default 0 (by_org l !! org)) = default 0 (by_org l !! org) ->
  wrap64 (default 0 (ms_by_org l !! org)) = default 0 (ms_by_org l !! org) ->
  default 0 (by_org (foldl charged l fs) !! org)
    = wrap64 (default 0 (by_org l !! org) + total (of_org org) (fun _ => 1) fs)
  /\ default 0 (ms_by_org (foldl charged l fs) !! org)
    = wrap64 (default 0 (ms_by_org l !! org) + total (of_org org) f_ms fs).
Proof.
  induction fs as [|f fs IH]; intros l Hc Hm; simpl; [by rewrite !Z.add_0_r|].
  destruct (IH (charged l f)) as [-> ->]; simpl; rewrite !bump_lookup; unfold of_org;
    destruct (String.eqb (f_org f) org); by rewrite ?Z.add_0_l, ?wrap64_add_l, ?wrap64_idem, ?Z.add_assoc.
Qed.

(** The organisations that have a row are those that forked. *)
Lemma org_keys fs : forall l,
  dom (by_org (foldl charged l fs)) ∪ dom (ms_by_org (foldl charged l fs))
    = dom (by_org l) ∪ dom (ms_by_org l) ∪ list_to_set (C := gset string) (f_org <$> fs).
Proof.
  induction fs as [|f fs IH]; intros l; simpl; [set_solver|]. rewrite IH. simpl. unfold Metrics.bump.
  rewrite !dom_insert_L. set_solver.
Qed.

(** The row of an organisation after the forks [fs]. *)
Definition org_row (fs : list Fork) (org : OrgId) : OrgUsageEntry.t :=
  OrgUsageEntry.mk org (wrap64 (total (of_org org) (fun _ => 1) fs)) (wrap64 (total (of_org org) f_ms fs)).

Definition u64_max : Z := 2 ^ 64 - 1.

Lemma total_nonneg p w fs : Forall (fun f => 0 <= w f) fs -> 0 <= total p w fs.
Proof. induction 1 as [|f fs Hf _ IH]; simpl; [lia|]. destruct (p f); lia. Qed.

Lemma token_totals token fs : forall l,
  Forall (fun f => 0 <= f_ms f) fs ->
  let old := default ForkUsage.default (by_token l !! token) in
  ForkUsage.count old <= u64_max -> ForkUsage.total_ms old <= u64_max ->
  default ForkUsage.default (by_token (foldl charged l fs) !! token)
    = ForkUsage.mk (Z.min (ForkUsage.count old + total (of_token token) (fun _ => 1) fs) u64_max)
        (Z.min (ForkUsage.total_ms old + total (of_token token) f_ms fs) u64_max).
Proof.
  induction fs as [|f fs IH]; intros l Hfs old Hc Ht; simpl.
  { fold old. rewrite !Z.add_0_r, !Z.min_l by done. by destruct old. }
  apply Forall_cons in Hfs as [Hf Hfs].
  assert (Hn : 0 <= total (of_token token) (fun _ => 1) fs).
  { apply total_nonneg. by apply Forall_true. }
  pose proof (total_nonneg (of_token token) f_ms fs Hfs) as Hm.
  specialize (IH (charged l f) Hfs). simpl in IH. unfold saturating_add64 in IH. fold u64_max in IH.
  destruct (of_token token f) eqn:Hof; unfold of_token in Hof; destruct (f_bearer f) as [t|]; try done;
    rewrite ?Z.add_0_l.
  - apply String.eqb_eq in Hof as ->. rewrite lookup_insert_eq in IH. simpl in IH. fold old in IH.
    rewrite IH by lia. f_equal; lia.
  - apply String.eqb_neq in Hof. rewrite lookup_insert_ne in IH by done. by apply IH.
  - by apply IH.
Qed.

Lemma strip_str_prefix_app a b : strip_str_prefix a (a +:+ b) = Some b.
Proof.
  induction a as [|c a IH]; [done|]. change (String c a +:+ b) with (String c (a +:+ b)). simpl.
  by rewrite Ascii.eqb_refl.
Qed.

Lemma forks_ms_nonneg es : forall s, Forall (fun f => 0 <= f_ms f) (forks es s).
Proof.
  induction es as [|e es IH]; intros s; simpl; [constructor|]. apply Forall_app. split; [|apply IH].
  destruct e as [env auth org role []|]; simpl; try constructor.
  destruct ((AFork <$> fork_snapshot env org id auth) s).1; repeat constructor. apply wrap64_range.
Qed.

Lemma omap_fmap_filter {A B C} (p : A -> bool) (g : A -> B) (h : B -> option C) (k : A -> C) (l : list A) :
  (forall a, h (g a) = if p a then Some (k a) else None) ->
  omap h (g <$> l) = k <$> filter (fun a => p a = true) l.
Proof.
  intros Hh. induction l as [|a l IH]; [done|]. rewrite filter_cons. csimpl. rewrite Hh, IH.
  by destruct (p a).
Qed.

(** The answer of [GET /v1/usage/by-org] from counters that hold the forks [fs]. *)
Lemma by_org_rows m fs org all s :
  AppState.metrics s = m ->
  (forall o, default 0 (Metrics.forks_total_by_org m !! o) = wrap64 (total (of_org o) (fun _ => 1) fs) /\
     default 0 (Metrics.fork_latency_ms_sum_by_org m !! o) = wrap64 (total (of_org o) f_ms fs)) ->
  dom (Metrics.forks_total_by_org m) ∪ dom (Metrics.fork_latency_ms_sum_by_org m)
    = list_to_set (C := gset string) (f_org <$> fs) ->
  exists rows, usage_by_org org all s = (Ok rows, s) /\ NoDup (OrgUsageEntry.org_id <$> rows) /\
    forall e, e ∈ rows <-> exists f, f ∈ fs /\
      (f_org f = org \/ all = Some true /\ org = default_org) /\ e = org_row fs (f_org f).
Proof.
  intros Hms Htot Hdom. unfold usage_by_org, mbind, sm_bind, sm_gets. rewrite Hms. eexists. split; [done|].
  unfold Metrics.forks_by_org_snapshot. rewrite Hdom.
  set (keys := merge_sort Metrics.str_le (elements (list_to_set (C := gset string) (f_org <$> fs)))).
  assert (Hperm : keys ≡ₚ elements (list_to_set (C := gset string) (f_org <$> fs))) by apply merge_sort_Permutation.
  set (p := fun o => default false all && String.eqb org default_org || String.eqb o org).
  erewrite (omap_fmap_filter p _ _ (org_row fs)); last first.
  { intros o. cbn beta iota. destruct (Htot o) as [-> ->]. done. }
  split.
  - rewrite <- list_fmap_compose. erewrite list_fmap_ext; [rewrite list_fmap_id|done].
    apply NoDup_filter. rewrite Hperm. apply NoDup_elements.
  - intros e. rewrite list_elem_of_fmap. setoid_rewrite list_elem_of_filter. setoid_rewrite Hperm.
    setoid_rewrite elem_of_elements. setoid_rewrite elem_of_list_to_set. setoid_rewrite list_elem_of_fmap.
    assert (Hp : forall o, p o = true <-> o = org \/ all = Some true /\ org = default_org).
    { intros o. unfold p. rewrite orb_true_iff, andb_true_iff, !String.eqb_eq. destruct all as [[]|]; simpl; naive_solver. }
    setoid_rewrite Hp. naive_solver.
Qed.

(** C15: Fork accounting. Over any history of requests and background refills of
    a fresh server, the counters are exactly the successful forks: the entry of
    a bearer token is their number and total time (saturating at 2^64 - 1), the
    per-organisation metrics are theirs modulo 2^64, [GET /v1/usage] answers the
    token's entry, and [GET /v1/usage/by-org] answers exactly one row with these
    totals for the caller's own organisation if it has forked, and for every
    organisation that has when the operator asks for all. Refused and failed forks
    are never charged. *)
Theorem fork_accounting es s :
  ledger s = mk_ledger ∅ ∅ ∅ ->
  let s' := run debug_str temp_dir pid es s in
  let fs := forks es s in
  (forall token,
     let entry := ForkUsage.mk (Z.min (total (of_token token) (fun _ => 1) fs) u64_max)
                    (Z.min (total (of_token token) f_ms fs) u64_max) in
     default ForkUsage.default (AppState.fork_usage s' !! token) = entry
     /\ usage (Some ("Bearer " +:+ token)) s'
        = (Ok (UsageResponseDto.mk (token_fingerprint token) (ForkUsage.count entry) (ForkUsage.total_ms entry)), s'))
  /\ (forall org,
     let count := wrap64 (total (of_org org) (fun _ => 1) fs) in
     let ms := wrap64 (total (of_org org) f_ms fs) in
     default 0 (Metrics.forks_total_by_org (AppState.metrics s') !! org) = count
     /\ default 0 (Metrics.fork_latency_ms_sum_by_org (AppState.metrics s') !! org) = ms
     /\ forall all, exists rows, usage_by_org org all s' = (Ok rows, s') /\
          NoDup (OrgUsageEntry.org_id <$> rows) /\
          forall e, e ∈ rows <-> exists f, f ∈ fs /\
            (f_org f = org \/ all = Some true /\ org = default_org) /\ e = org_row fs (f_org f)).
Proof.
  intros Hs s' fs. pose proof (run_ledger es s) as Hl. fold s' fs in Hl. split.
  - intros token entry.
    assert (He : default ForkUsage.default (AppState.fork_usage s' !! token) = entry).
    { change (AppState.fork_usage s') with (by_token (ledger s')). rewrite Hl, (token_totals token fs _ (forks_ms_nonneg es s));
        rewrite Hs; done. }
    split; [done|].
    assert (Hb : extract_bearer (Some ("Bearer " +:+ token)) = Some token) by exact (strip_str_prefix_app "Bearer " token).
    unfold usage. rewrite Hb. unfold mbind, sm_bind, sm_lift, sm_gets. simpl. by rewrite He.
  - intros org count ms.
    assert (Htot : forall o, default 0 (Metrics.forks_total_by_org (AppState.metrics s') !! o)
        = wrap64 (total (of_org o) (fun _ => 1) fs) /\
      default 0 (Metrics.fork_latency_ms_sum_by_org (AppState.metrics s') !! o) = wrap64 (total (of_org o) f_ms fs)).
    { intros o. destruct (org_totals o fs (ledger s)) as [Hc Hm]; [by rewrite Hs..|].
      rewrite <- Hl, Hs in Hc, Hm. done. }
    destruct (Htot org) as [Hc Hm]. split_and!; [exact Hc|exact Hm|]. intros all.
    apply (by_org_rows (AppState.metrics s') fs org all s'); [done|done|].
    pose proof (org_keys fs (ledger s)) as Hk. rewrite <- Hl, Hs in Hk. simpl in Hk. clear -Hk. set_solver.
Qed.
End Accounting.
