(* ===== verification/Server.v ===== *)
(** * A server over the in-memory hypervisor

    The control plane put together: the handlers over the in-memory hypervisor,
    the in-memory ownership map and the directory store. The contracts the
    theorems of [Tenancy], [SandboxProps] and [Listing] ask for hold here, and
    the theorems are applied to a small history. *)

From Stdlib Require Import Ascii String.
From stdpp Require Import strings pretty sorting.
From S2P Require Import Prelude Io Str Fs VmCore VmMock HvCalls Store ApiError Auth WarmPool Api Ownership.
From S2P Require Import Metrics Routes Tenancy SandboxProps Listing UsageProps.

Local Open Scope string_scope.
Local Open Scope Z_scope.

(** ** Reading from the in-memory hypervisor *)

Section MockReads.
Import MockHypervisor.
Context {F : Type} `{!FileSystem F, !Serde string Manifest.t}.
Variable run : GuestExecRequest.t -> F -> Process.outcome * F.
Variables temp_dir pid : string.
Abbreviation mock := (MockHypervisor.t F).

#[local] Existing Instance mock_hv.

Definition mock_handles (h : mock) : list VmHandle.t :=
  (fun '(id, vm) => VmHandle.mk id (MockVm.state vm)) <$> map_to_list (vms h).

Definition mock_positive (h : mock) : Prop :=
  (forall v vm, vms h !! v = Some vm -> 0 < v) /\ (forall p sn, snapshots h !! p = Some sn -> 0 < p).

Lemma mock_handles_ids h : VmHandle.id <$> mock_handles h = (map_to_list (vms h)).*1.
Proof.
  unfold mock_handles. rewrite <- list_fmap_compose. apply list_fmap_ext. by intros i [id vm].
Qed.

#[local] Instance mock_reads : @HypervisorReads mock (mock_hv run temp_dir pid).
Proof.
  refine {| reads_inv := mock_positive; the_vms := mock_handles;
            the_snapshots h := (map_to_list (snapshots h)).*1 |}.
  - done.
  - done.
  - intros h _. rewrite mock_handles_ids. apply NoDup_fst_map_to_list.
  - intros h [Hv _]. apply Forall_forall. intros x ([id vm] & -> & Hin)%list_elem_of_fmap.
    apply elem_of_map_to_list in Hin. by eapply Hv.
  - intros h _. apply NoDup_fst_map_to_list.
  - intros h [_ Hp]. apply Forall_forall. intros x ([id sn] & -> & Hin)%list_elem_of_fmap.
    apply elem_of_map_to_list in Hin. by eapply Hp.
  - intros v h. simpl. unfold vm_meta, mbind, sm_bind, MockHypervisor.get_vm.
    by destruct (vms h !! v); eexists; split.
  - intros p h. simpl. unfold snapshot_meta, mbind, sm_bind, get_snapshot.
    by destruct (snapshots h !! p); eexists; split.
Defined.
End MockReads.

(** ** The initial state *)

Section Start.
Context {H V P Q S O F : Type}.
Context `{!Hypervisor H, !HostDisk H F, !HypervisorFrame H V P F, !OwnershipStore O}.

(** A server with an empty ownership map and an empty pool satisfies the
    invariant for as many events as the hypervisor has ids. *)
Lemma app_inv_start n per_snapshot (h : H) (q : Q) (o : O) :
  hv_inv n h -> (forall v, Ownership.vm_owner o v = None) -> (forall p, Ownership.snapshot_owner o p = None) ->
  app_inv (S := S) n (AppState.with_warm_pool_size per_snapshot (AppState.with_fork_quota h q o)).
Proof.
  intros Hh Hv Hp. unfold AppState.with_warm_pool_size.
  destruct (0 <? per_snapshot); split; simpl; unfold owner_vm, owner_snap; simpl;
    try done; try (intros x A; by rewrite ?Hv, ?Hp); try (intros x Hx; by apply elem_of_nil in Hx); constructor.
Qed.
End Start.

(** ** A sample history *)

Module Sample.
(** Programs do not run, and every fork passes the quota. *)
Definition no_run (req : GuestExecRequest.t) (f : FlatFs.t) : Process.outcome * FlatFs.t :=
  (Ok (Ok (Process.mk (Some 0) None [Byte.x68; Byte.x69] [] 3)), f).

#[global] Instance open_quota : ForkQuota unit := {|
  try_acquire _ := mret tt;
  try_acquire_org _ := mret tt |}.

#[global] Instance json_manifest : Serde string Manifest.t := one_manifest sample_manifest.
#[global] Instance json_snapshot_request : Serde string SnapshotRequest.t := {|
  to_json _ := (Ok tt, []);
  from_json _ := Ok SnapshotRequest.default |}.

Abbreviation hyp := (MockHypervisor.t FlatFs.t).
#[global] Instance sample_hv : Hypervisor hyp := mock_hv no_run "/tmp" "7".
#[global] Instance sample_disk_of : HostDisk hyp FlatFs.t := mock_disk.
#[global] Instance sample_frame : HypervisorFrame hyp MockVm.t MockSnapshot.t FlatFs.t :=
  mock_frame no_run "/tmp" "7".
#[global] Instance sample_reaps : DestroyReaps hyp MockVm.t MockSnapshot.t FlatFs.t :=
  mock_destroy_reaps no_run "/tmp" "7".
#[global] Instance sample_reads : HypervisorReads hyp := mock_reads no_run "/tmp" "7".

Abbreviation server := (AppState.t hyp unit FsSnapshotStore.t InMemoryStore.t).

Definition fresh : server :=
  AppState.with_warm_pool_size 1
    (AppState.with_fork_quota (MockHypervisor.new (∅ : FlatFs.t)) tt InMemoryStore.default).

Definition quote (s : string) : string := s.
Definition go : list Event -> server -> server := Routes.run quote "/tmp" "7".

Definition env : Env.t := Env.mk 5 None.
Definition vm_body : result Rejection.t CreateVmRequest.t :=
  Ok (CreateVmRequest.mk 1 128 None None "" None None None).
Definition by_ (org : OrgId) (req : Request) : Event :=
  Http env (Some ("Bearer " +:+ org)) org Developer req.

(** Acme creates, starts and snapshots a VM; the snapshot is forked, which also
    fills the warm pool. *)
Definition acme_setup : list Event :=
  [by_ "acme" (RCreateVm vm_body); by_ "acme" (RStartVm (Ok 1)); by_ "acme" (RSnapshotVm (Ok 1) []);
   by_ "acme" (RFork (Ok 1)); Refill 0; Refill 0; Refill 0].

(** Globex tries to destroy what acme has, forks it, and makes its own VM. *)
Definition globex_acts : list Event :=
  [by_ "globex" (RDestroyVm (Ok 1)); by_ "globex" (RDeleteSnapshot (Ok 1)); by_ "globex" (RFork (Ok 1));
   by_ "globex" (RCreateVm vm_body); by_ "globex" (RListVms (ListQuery.mk None None)); Refill 0].

Definition ready : server := go acme_setup fresh.

Lemma fresh_inv n : 1 + n < 2 ^ 64 -> app_inv n fresh.
Proof. intros Hn. apply app_inv_start; [|done|done]. by apply mock_inv_new. Qed.

Lemma reachable_inv es n s :
  0 <= n -> app_inv (n + zlen es) s -> Forall (fun e => actor e <> Some "nobody") es -> app_inv n (go es s).
Proof. intros Hn Hi Hes. exact (proj1 (run_isolated quote "/tmp" "7" "nobody" es n s Hn Hi Hes)). Qed.

Lemma ready_inv n : 0 <= n -> 8 + n < 2 ^ 64 -> app_inv n ready.
Proof.
  intros Hn Hb. apply reachable_inv; [done| |by repeat constructor].
  apply fresh_inv. change (zlen acme_setup) with 7. lia.
Qed.
End Sample.

Import Sample.

Lemma tenant_isolation_witness :
  let s' := Routes.run quote "/tmp" "7" globex_acts ready in
  owner_vm ready 1 = Some "acme" /\ is_Some (see_vm ready 1)
  /\ owner_vm s' 1 = Some "acme" /\ see_vm s' 1 = see_vm ready 1
  /\ owner_snap s' 1 = Some "acme" /\ see_snap s' 1 = see_snap ready 1.
Proof.
  intros s'.
  assert (Hi : app_inv (zlen globex_acts) ready) by (apply ready_inv; reflexivity || (intro; discriminate)).
  assert (Ha : Forall (fun e => actor e <> Some "acme") globex_acts) by (repeat constructor; discriminate).
  pose proof (tenant_isolation quote "/tmp" "7" "acme" globex_acts ready Hi Ha) as (_ & Hv & Hp).
  assert (H1 : owner_vm ready 1 = Some "acme") by (vm_compute; reflexivity).
  assert (H2 : owner_snap ready 1 = Some "acme") by (vm_compute; reflexivity).
  destruct (Hv 1 H1) as [H3 H4]. destruct (Hp 1 H2) as [H5 H6].
  split; [exact H1|]. split; [|auto]. vm_compute. eexists. reflexivity.
Defined.

Lemma cross_org_refused_witness :
  exists code message,
    route quote "/tmp" "7" env None "globex" Developer (RDestroyVm (Ok 1)) ready
      = (Err (Forbidden code message), ready) /\ code = "cross_org".
Proof.
  destruct (cross_org_refused quote "/tmp" "7" env None "globex" Developer (RDestroyVm (Ok 1)) ready)
    as (code & message & He & _ & Hc).
  - left. exists 1. split; [reflexivity|]. vm_compute. discriminate.
  - exists code, message. split; [exact He|]. apply Hc. reflexivity.
Defined.

Definition list_root : result Rejection.t SandboxInvokeRequest.t :=
  Ok (SandboxInvokeRequest.mk (Some 1) (SandboxAction.ListFiles "/")).

(** The mock's destroy fails for unknown VMs only. *)
Lemma sample_destroy_fails v e (h h' : hyp) : VmCore.destroy v h = (Err e, h') -> vm_view h' v = None.
Proof.
  intros He. unfold VmCore.destroy in He. simpl in He. unfold MockHypervisor.destroy, mbind, sm_bind, MockHypervisor.get_vm in He.
  unfold vm_view, sample_frame, mock_frame, mock_vm. destruct (MockHypervisor.vms h !! v) eqn:Hv; [done|]. by injection He as _ <-.
Qed.

Lemma sandbox_leaves_no_vm_witness :
  let (r, s') := sandbox_invoke quote env "acme" list_root ready in
  r = Ok (SandboxResult.mk "hi" "" 0 5 false)
  /\ is_Some (see_vm ready 3) /\ see_vm s' 3 = None /\ owner_snap s' 1 = Some "acme".
Proof.
  destruct (sandbox_invoke quote env "acme" list_root ready) as [r s'] eqn:He.
  assert (Hr : r = Ok (SandboxResult.mk "hi" "" 0 5 false)) by (apply (f_equal fst) in He; vm_compute in He; congruence).
  split; [exact Hr|]. split; [vm_compute; eexists; reflexivity|].
  assert (Hi : app_inv (0 + 1) ready) by (apply ready_inv; reflexivity || (intro; discriminate)).
  destruct (sandbox_leaves_no_vm quote env "acme" list_root 0 ready r s' ltac:(reflexivity || (intro; discriminate)) Hi He)
    as (used & [_ _ _ Hso _] & _ & Hran).
  split; [|rewrite Hso; vm_compute; reflexivity].
  rewrite Hr in Hran. destruct used as [[u cold]|]; [|destruct Hran; discriminate].
  destruct Hran as (Hfrom & _ & req & s1 & outcome & s2 & _ & _ & Hgone & Ha).
  destruct outcome as [o|]; [|discriminate]. injection Ha as _ _ _ Hcold. subst cold.
  assert (Hl : pool_ids ready = [3]) by (vm_compute; reflexivity).
  unfold came_from in Hfrom. simpl in Hfrom. rewrite Hl in Hfrom. apply list_elem_of_singleton in Hfrom. subst u.
  destruct Hgone as [Hgone|[e Hd]]; [exact Hgone|]. by eapply sample_destroy_fails.
Defined.

Lemma listing_complete_witness :
  walk (vm_fetch "acme" (Some 1) ready) 5 None = Some (vm_row ready <$> owned_vms "acme" ready)
  /\ VmHandle.id <$> owned_vms "acme" ready = [1; 2].
Proof.
  split; [|vm_compute; reflexivity].
  refine (proj1 (listing_complete "acme" (Some 1) 1 ready 5 _ _ _ _ _)).
  - pose proof (ai_hv _ _ (ready_inv 0 ltac:(reflexivity || (intro; discriminate)) ltac:(reflexivity))) as _.
    split.
    + intros v vm Hv. apply elem_of_map_to_list in Hv. vm_compute in Hv. 
      repeat (apply elem_of_cons in Hv as [Hv|Hv]; [congruence || (injection Hv as -> _; reflexivity)|]). by apply elem_of_nil in Hv.
    + intros p sn Hp. apply elem_of_map_to_list in Hp. vm_compute in Hp.
      repeat (apply elem_of_cons in Hp as [Hp|Hp]; [injection Hp as -> _; reflexivity|]). by apply elem_of_nil in Hp.
  - reflexivity.
  - discriminate.
  - apply Nat.ltb_lt. vm_compute. reflexivity.
  - apply Nat.ltb_lt. vm_compute. reflexivity.
Defined.

Lemma fork_accounting_witness :
  default ForkUsage.default (AppState.fork_usage ready !! "acme") = ForkUsage.mk 1 5
  /\ exists rows, usage_by_org "acme" None ready = (Ok rows, ready)
     /\ OrgUsageEntry.mk "acme" 1 5 ∈ rows.
Proof.
  destruct (fork_accounting quote "/tmp" "7" acme_setup fresh eq_refl) as [Ht Ho].
  assert (Hf : forks quote "/tmp" "7" acme_setup fresh = [mk_fork "acme" (Some "acme") 5]) by (vm_compute; reflexivity).
  rewrite Hf in Ht, Ho. split; [exact (proj1 (Ht "acme"))|].
  destruct (proj2 (proj2 (Ho "acme")) None) as (rows & Hr & _ & Hin). exists rows. split; [exact Hr|].
  apply Hin. exists (mk_fork "acme" (Some "acme") 5). split_and!; [by left|by left|reflexivity].
Defined.
