(* ===== verification/GuestAgent.v ===== *)
(** * The guest agent ([crates/guest-agent/src/main.rs])

    The process that runs inside a VM and answers the host's requests: the
    request handlers, the two session loops (one JSON value per line, and
    length-prefixed frames), the choice of transport from the environment and
    the connection attempts of the vsock mode.

    The guest's operating system (processes, files, the monotonic clock) is the
    interface [GuestOs]; a child process that never exits would keep
    [os_wait] from returning, and the agent with it. What the agent logs is not
    modelled, except for the connection attempts. *)

From Stdlib Require Import Ascii String.
From stdpp Require Import strings pretty.
From S2P Require Import Prelude Io Str VmCore Proto.

Local Open Scope string_scope.
Local Open Scope Z_scope.

(** ** The operating system *)

Module IoError.
Record t : Type := mk { not_found : bool; text : string }.
End IoError.

Inductive Stdio : Type := Piped | Null.

(** [std::process::Command]: what has been configured so far. [envs] holds the
    variables set or removed, every other variable is inherited; a stream that
    is [None] has not been configured. *)
Module Command.
Record t : Type := mk {
  program : string;
  args : list string;
  current_dir : option string;
  envs : gmap string (option string);
  stdin : option Stdio;
  stdout : option Stdio;
  stderr : option Stdio;
}.

Definition new (program : string) : t := mk program [] None ∅ None None None.
Definition with_args (a : list string) (c : t) : t :=
  mk (program c) (args c ++ a)%list (current_dir c) (envs c) (stdin c) (stdout c) (stderr c).
Definition with_dir (dir : string) (c : t) : t :=
  mk (program c) (args c) (Some dir) (envs c) (stdin c) (stdout c) (stderr c).
Definition with_stdio (i o e : option Stdio) (c : t) : t :=
  mk (program c) (args c) (current_dir c) (envs c) i o e.
Definition env (k v : string) (c : t) : t :=
  mk (program c) (args c) (current_dir c) (<[k := Some v]> (envs c)) (stdin c) (stdout c) (stderr c).
Definition env_remove (k : string) (c : t) : t :=
  mk (program c) (args c) (current_dir c) (<[k := None]> (envs c)) (stdin c) (stdout c) (stderr c).

(** The environment the child starts with. *)
Definition child_env (inherited : gmap string string) (c : t) : gmap string string :=
  merge (fun set inh => match set with Some v => v | None => inh end) (envs c) inherited.
End Command.

Module Output.
Record t : Type := mk { code : option Z; signal : option Z; stdout : bytes; stderr : bytes }.
End Output.

Module Metadata.
Record t : Type := mk { len : Z; mode : Z; is_dir : bool }.
End Metadata.

Class GuestOs (W : Type) := {
  (** [Command::spawn], giving the child's pid, and [Child::wait_with_output] *)
  os_spawn : Command.t -> SM W IoError.t Z;
  os_wait : Z -> SM W IoError.t Output.t;
  (** [Command::output], which captures the streams that were not configured *)
  os_output : Command.t -> SM W IoError.t Output.t;
  (** [Instant::now], in nanoseconds *)
  os_now : W -> Z * W;
  (** [fs::write], [fs::set_permissions], [fs::read], [fs::metadata] *)
  os_write : string -> bytes -> SM W IoError.t unit;
  os_chmod : string -> Z -> SM W IoError.t unit;
  os_read : string -> SM W IoError.t bytes;
  os_metadata : string -> SM W IoError.t Metadata.t;
}.

(** ** Agent state *)

Module ExitInfo.
Record t : Type := mk { exit_code : option Z; signal : option Z; duration_ms : Z }.
End ExitInfo.

Module AgentState.
Record t : Type := mk { exited : gmap Z ExitInfo.t }.
Definition new : t := mk ∅.
End AgentState.

(** ** Helpers *)

Definition strip_agent_transport_env (c : Command.t) : Command.t :=
  Command.env_remove "NANOVM_AGENT_FRAMED" (Command.env_remove "NANOVM_AGENT_VSOCK" c).

Definition error_response (id : Z) (code : ErrorCode) (message : string) : Response.t :=
  Response.mk PROTOCOL_VERSION id (Err (RpcError.mk code message)).

Definition ok_response (id : Z) (body : ResponseBody) : Response.t :=
  Response.mk PROTOCOL_VERSION id (Ok body).

Definition newline : Init.Byte.byte := Byte.x0a.

Definition u64_max : Z := 2 ^ 64 - 1.

(** [start.elapsed().as_millis().min(u64::MAX as u128) as u64] *)
Definition elapsed_ms (start now : Z) : Z := Z.min (Z.max 0 (now - start) / 1000000) u64_max.

(** The command both exec handlers build. *)
Definition command (program : string) (args : list string) (cwd : option string)
    (env : list (string * string)) (out err : option Stdio) : Command.t :=
  let cmd := Command.with_stdio (Some Null) out err (Command.with_args args (Command.new program)) in
  let cmd := strip_agent_transport_env cmd in
  let cmd := match cwd with Some dir => Command.with_dir dir cmd | None => cmd end in
  foldl (fun cmd '(k, v) => Command.env k v cmd) cmd env.

(** ** One-shot handlers *)

Section Handlers.
Context {W : Type} `{!GuestOs W}.

Definition now {E} : SM W E Z := fun w => let (t, w) := os_now w in (Ok t, w).

(** [r.map_err(f)?] on a call of the operating system. *)
Definition mapping_err {E F A} (f : E -> F) (c : SM W E A) : SM W F A := fun w =>
  let (r, w) := c w in (map_err f r, w).

Definition io_failure (what : string) (e : IoError.t) : RpcError.t :=
  RpcError.mk IoFailure (what +:+ ": " +:+ IoError.text e).

Definition not_found_or_io (what : string) (e : IoError.t) : RpcError.t :=
  RpcError.mk (if IoError.not_found e then NotFound else IoFailure) (what +:+ ": " +:+ IoError.text e).

Definition handle_exec (program : string) (args : list string) (cwd : option string)
    (env : list (string * string)) (timeout_ms : option Z) : SM W RpcError.t ResponseBody :=
  start ← now;
  let cmd := command program args cwd env None None in
  output ← mapping_err (io_failure ("failed to spawn " +:+ program)) (os_output cmd);
  finish ← now;
  let duration_ms := elapsed_ms start finish in
  let result := ExecResult (Output.code output) None (Output.stdout output) (Output.stderr output)
                  duration_ms in
  match timeout_ms with
  | Some limit =>
      if limit <? duration_ms
      then sm_fail (RpcError.mk Timeout ("process exceeded " +:+ pretty limit +:+ "ms"))
      else mret result
  | None => mret result
  end.

Definition handle_write_file (path : string) (content : bytes) (mode : Z) : SM W RpcError.t ResponseBody :=
  let n := zlen content in
  _ ← mapping_err (io_failure ("write " +:+ path)) (os_write path content);
  _ ← mapping_err (io_failure ("chmod " +:+ path)) (os_chmod path mode);
  mret (Written n).

Definition handle_read_file (path : string) : SM W RpcError.t ResponseBody :=
  content ← mapping_err (not_found_or_io ("read " +:+ path)) (os_read path);
  mret (FileContent content).

Definition handle_stat (path : string) : SM W RpcError.t ResponseBody :=
  meta ← mapping_err (not_found_or_io ("stat " +:+ path)) (os_metadata path);
  mret (StatResult (Metadata.len meta) (Metadata.mode meta) (Metadata.is_dir meta)).

Definition dispatch_oneshot (body : RequestBody) : SM W RpcError.t ResponseBody :=
  match body with
  | Ping => mret Pong
  | Exec program args cwd env timeout_ms => handle_exec program args cwd env timeout_ms
  | WriteFile path content mode => handle_write_file path content mode
  | ReadFile path => handle_read_file path
  | Stat path => handle_stat path
  | _ => sm_fail (RpcError.mk BadRequest "unexpected streaming op in one-shot path")
  end.
End Handlers.

(** ** Streaming handlers *)

(** What a handler works on: the world outside the agent, the stream it answers
    on and the agent's own state. *)
Module Session.
Record t (W : Type) : Type := mk { world : W; out : Writer.t; agent : AgentState.t }.
Arguments mk {W} world out agent.
Arguments world {W} _.
Arguments out {W} _.
Arguments agent {W} _.
End Session.

Section Sessions.
Context {JE W : Type} `{!Serde JE Request.t, !Serde JE Response.t, !GuestOs W}.
Variable display_json : JE -> string.
Abbreviation HM := (SM (Session.t W) unit).

Definition on_world {E A} (c : SM W E A) : SM (Session.t W) unit (result E A) := fun s =>
  let (r, w) := c (Session.world s) in (Ok r, Session.mk w (Session.out s) (Session.agent s)).

Definition instant_now : HM Z := fun s =>
  let (t, w) := os_now (Session.world s) in (Ok t, Session.mk w (Session.out s) (Session.agent s)).

Definition write_response (resp : Response.t) : HM unit := fun s =>
  match to_vec (JE := JE) resp with
  | Err _ => (Err tt, s)
  | Ok json =>
      let (r, w) := (_ ← Writer.write_all json; _ ← Writer.write_all [newline]; Writer.flush) (Session.out s) in
      (map_err (fun _ => tt) r, Session.mk (Session.world s) w (Session.agent s))
  end.

Definition remember (pid : Z) (info : ExitInfo.t) (s : Session.t W) : Session.t W :=
  Session.mk (Session.world s) (Session.out s)
    (AgentState.mk (<[pid := info]> (AgentState.exited (Session.agent s)))).

Definition handle_exec_start (req_id : Z) (program : string) (args : list string) (cwd : option string)
    (env : list (string * string)) : HM unit :=
  let cmd := command program args cwd env (Some Piped) (Some Piped) in
  child ← on_world (os_spawn cmd);
  match child with
  | Err e =>
      write_response (error_response req_id IoFailure
        ("failed to spawn " +:+ program +:+ ": " +:+ IoError.text e))
  | Ok pid =>
      start ← instant_now;
      _ ← write_response (ok_response req_id (ExecStarted pid));
      waited ← on_world (os_wait pid);
      match waited with
      | Err e =>
          write_response (error_response req_id IoFailure
            ("wait_with_output for " +:+ program +:+ ": " +:+ IoError.text e))
      | Ok output =>
          finish ← instant_now;
          let duration_ms := elapsed_ms start finish in
          _ ← (if bool_decide (Output.stdout output = []) then mret tt
               else write_response (ok_response req_id (ExecOutput pid StreamStdout (Output.stdout output))));
          _ ← (if bool_decide (Output.stderr output = []) then mret tt
               else write_response (ok_response req_id (ExecOutput pid StreamStderr (Output.stderr output))));
          let exit_code := Output.code output in
          let signal := Output.signal output in
          _ ← sm_modify (remember pid (ExitInfo.mk exit_code signal duration_ms));
          write_response (ok_response req_id (ExecExited pid exit_code signal duration_ms))
      end
  end.

Definition handle_exec_wait (req_id pid : Z) : HM unit :=
  st ← sm_gets Session.agent;
  match AgentState.exited st !! pid with
  | Some info =>
      write_response (ok_response req_id
        (ExecExited pid (ExitInfo.exit_code info) (ExitInfo.signal info) (ExitInfo.duration_ms info)))
  | None =>
      write_response (error_response req_id NoSuchProcess
        ("pid " +:+ pretty pid +:+ " not found — it was never started or already reaped"))
  end.

Definition no_active_process (pid : Z) (op : string) : string :=
  "no active process " +:+ pretty pid +:+ ": " +:+ op +:+ " is not supported in sequential stdin/stdout mode".

(** ** Request dispatch *)

Definition handle_request (req : Request.t) : HM unit :=
  let id := Request.id req in
  match Request.body req with
  | ExecStart program args cwd env => handle_exec_start id program args cwd env
  | ExecStdin pid _ _ =>
      write_response (error_response id NoSuchProcess (no_active_process pid "ExecStdin"))
  | ExecWait pid => handle_exec_wait id pid
  | Signal pid _ =>
      write_response (error_response id NoSuchProcess (no_active_process pid "Signal"))
  | body =>
      outcome ← on_world (dispatch_oneshot body);
      write_response (Response.mk PROTOCOL_VERSION id outcome)
  end.

Definition version_mismatch (req : Request.t) : Response.t :=
  error_response (Request.id req) VersionMismatch
    ("expected protocol version " +:+ pretty PROTOCOL_VERSION +:+ ", got " +:+ pretty (Request.version req)).

Definition process_request (req : Request.t) : HM unit :=
  if negb (Request.version req =? PROTOCOL_VERSION) then write_response (version_mismatch req)
  else handle_request req.

Definition malformed (e : JE) : Response.t :=
  error_response 0 BadRequest ("malformed request: " +:+ display_json e).

(** ** Framed sessions *)

Definition MAX_FRAME_LEN : Z := 16 * 1024 * 1024.

Definition read_frame : SM Reader.t IoErrorKind (option bytes) := fun r =>
  match Reader.read_exact 4 r with
  | (Err e, r) => if bool_decide (e = UnexpectedEof) then (Ok None, r) else (Err e, r)
  | (Ok len_buf, r) =>
      let len := from_le len_buf in
      if MAX_FRAME_LEN <? len then (Err InvalidData, r)
      else
        match Reader.read_exact (Z.to_nat len) r with
        | (Err e, r) => (Err e, r)
        | (Ok frame, r) => (Ok (Some frame), r)
        end
  end.

Definition write_frame (resp : Response.t) : SM Writer.t unit unit :=
  match to_vec (JE := JE) resp with
  | Err _ => sm_fail tt
  | Ok json =>
      if 2 ^ 32 <=? zlen json then sm_fail tt
      else fun w =>
        let (r, w) := (_ ← Writer.write_all (to_le 4 (zlen json)); _ ← Writer.write_all json;
                       Writer.flush) w in
        (map_err (fun _ => tt) r, w)
  end.

(** [output_bytes.split(|b| *b == b'\n')] *)
Fixpoint split_lines (bs : bytes) : list bytes :=
  match bs with
  | [] => [[]]
  | b :: bs =>
      if bool_decide (b = newline) then [] :: split_lines bs
      else match split_lines bs with
           | part :: parts => (b :: part) :: parts
           | [] => [[b]]
           end
  end.

(** Each line of the buffered answers, decoded again and sent as a frame. *)
Fixpoint forward_frames (frames : list bytes) : SM Writer.t unit unit :=
  match frames with
  | [] => mret tt
  | frame :: frames =>
      resp ← sm_lift (map_err (fun _ : JE => tt) (from_json frame));
      _ ← write_frame resp;
      forward_frames frames
  end.

Definition nonempty (part : bytes) : bool := negb (bool_decide (part = [])).

(** One iteration: [false] when the session is over. *)
Definition framed_step (r : Reader.t) (s : Session.t W) : bool * Reader.t * Session.t W :=
  match read_frame r with
  | (Err _, r) | (Ok None, r) => (false, r, s)
  | (Ok (Some frame), r) =>
      match from_json frame with
      | Err e =>
          let (sent, w) := write_frame (malformed e) (Session.out s) in
          (is_ok sent, r, Session.mk (Session.world s) w (Session.agent s))
      | Ok req =>
          let (done, s') := process_request req
            (Session.mk (Session.world s) (Writer.mk [] None) (Session.agent s)) in
          match done with
          | Err _ => (false, r, Session.mk (Session.world s') (Session.out s) (Session.agent s'))
          | Ok _ =>
              let (sent, w) :=
                forward_frames (List.filter nonempty (split_lines (Writer.written (Session.out s'))))
                  (Session.out s) in
              (is_ok sent, r, Session.mk (Session.world s') w (Session.agent s'))
          end
      end
  end.

(** [n] bounds the iterations; [None] when it is used up. *)
Fixpoint framed_loop (n : nat) (r : Reader.t) (s : Session.t W) : option (Session.t W) :=
  match n with
  | O => None
  | S n =>
      match framed_step r s with
      | (true, r, s) => framed_loop n r s
      | (false, _, s) => Some s
      end
  end.

(** Every iteration that goes on has consumed a header. *)
Definition run_length_prefixed_session (input : Reader.t) (world : W) (out : Writer.t) : option (Session.t W) :=
  framed_loop (S (length (Reader.data input))) input (Session.mk world out AgentState.new).

(** ** Line sessions *)

(** [read_until(b'\n')]: the bytes up to and including the newline, what is
    left, and whether a newline was found. *)
Fixpoint read_until (bs : bytes) : bytes * bytes * bool :=
  match bs with
  | [] => ([], [], false)
  | b :: bs =>
      if bool_decide (b = newline) then ([b], bs, true)
      else let '(line, rest, found) := read_until bs in (b :: line, rest, found)
  end.

(** The line without its terminator, [\n] or [\r\n]. *)
Definition chomp (line : bytes) : bytes :=
  match rev line with
  | b :: line' =>
      if bool_decide (b = newline) then
        match line' with
        | c :: line'' => if bool_decide (c = Byte.x0d) then rev line'' else rev line'
        | [] => []
        end
      else line
  | [] => []
  end.

(** [Lines::next] *)
Definition next_line (r : Reader.t) : option (result IoErrorKind bytes) * Reader.t :=
  let '(line, rest, found) := read_until (Reader.data r) in
  let r' := Reader.mk rest (Reader.at_end r) in
  if negb found && negb (bool_decide (Reader.at_end r = UnexpectedEof)) then (Some (Err (Reader.at_end r)), r')
  else if bool_decide (line = []) then (None, r')
  else if utf8_valid (u8_of <$> line) then (Some (Ok (chomp line)), r')
  else (Some (Err InvalidData), r').

Definition line_step (r : Reader.t) (s : Session.t W) : bool * Reader.t * Session.t W :=
  match next_line r with
  | (None, r) | (Some (Err _), r) => (false, r, s)
  | (Some (Ok l), r) =>
      if String.eqb (trim (string_of_bytes l)) "" then (true, r, s)
      else
        let (done, s) :=
          match from_json l with
          | Err e => write_response (malformed e) s
          | Ok req => process_request req s
          end in
        (is_ok done, r, s)
  end.

Fixpoint line_loop (n : nat) (r : Reader.t) (s : Session.t W) : option (Session.t W) :=
  match n with
  | O => None
  | S n =>
      match line_step r s with
      | (true, r, s) => line_loop n r s
      | (false, _, s) => Some s
      end
  end.

Definition run_line_delimited_session (input : Reader.t) (world : W) (out : Writer.t) : option (Session.t W) :=
  line_loop (S (length (Reader.data input))) input (Session.mk world out AgentState.new).
End Sessions.

(** ** The vsock mode *)

Definition VMADDR_CID_HOST : Z := 2.
Definition DEFAULT_VSOCK_PORT : Z := 1024.

(** The variable's value, when it is set and valid UTF-8. *)
Definition vsock_port_from_env (var : option string) : option Z :=
  val ← var;
  Some (default DEFAULT_VSOCK_PORT (parse_uint (2 ^ 32 - 1) (trim val))).

Definition CONNECT_ATTEMPTS : nat := 50.

(** Attempts [attempt], [attempt + 1], ... ([n] of them): the connection, if one
    succeeds, the failures logged and the milliseconds slept. *)
Fixpoint connect_loop {C} (connect : Z -> result string C) (n : nat) (attempt : Z) :
    option C * list string * Z :=
  match n with
  | O => (None, [], 0)
  | S n =>
      match connect attempt with
      | Ok s => (Some s, [], 0)
      | Err e =>
          let '(stream, log, slept) := connect_loop connect n (attempt + 1) in
          (stream,
           (if (attempt =? 1) || (attempt mod 10 =? 0)
            then ["nanovm-agent: vsock connect attempt " +:+ pretty attempt +:+ " failed: " +:+ e]
            else []) ++ log,
           200 + slept)%list
      end
  end.

(** The log and, if a session was served, what it left; the process then parks. *)
Definition run_vsock_session {JE W} `{!Serde JE Request.t, !Serde JE Response.t, !GuestOs W}
    (display_json : JE -> string) (pid port : Z)
    (connect : Z -> Z -> Z -> result string (Reader.t * Writer.t)) (try_clone : result string unit)
    (world : W) : list string * option (Session.t W) :=
  let banner := "nanovm-agent: vsock mode (proto v" +:+ pretty PROTOCOL_VERSION +:+ ", host_cid=" +:+
    pretty VMADDR_CID_HOST +:+ ", port=" +:+ pretty port +:+ ", pid=" +:+ pretty pid +:+ ")" in
  let '(stream, log, _) := connect_loop (connect VMADDR_CID_HOST port) CONNECT_ATTEMPTS 1 in
  match stream with
  | None => ([banner] ++ log ++ ["nanovm-agent: vsock connect gave up; parking"], None)%list
  | Some (reader, out) =>
      let served :=
        match try_clone with
        | Ok _ => ([], run_length_prefixed_session display_json reader world out)
        | Err e => (["nanovm-agent: vsock try_clone failed: " +:+ e], None)
        end in
      ([banner] ++ log ++ ["nanovm-agent: vsock connected; serving requests"] ++ served.1 ++
       ["nanovm-agent: vsock session ended; parking"], served.2)%list
  end.
