(* ===== verification/AgentProps.v ===== *)
(** * The guest agent answers its host

    Theorems about [GuestAgent]: what the two session loops write for a stream
    of requests, that both modes give the same answers, what the agent
    remembers, the environment its children get, and the exec stream from the
    host's request to the host's reader. *)

From Stdlib Require Import Ascii String.
From stdpp Require Import strings pretty.
From S2P Require Import Prelude Io Str VmCore Proto GuestAgent.

(** [serde_json] writes a struct compactly, as one object: UTF-8 text from [{]
    to [}] with no newline in it. *)
Definition object_text (js : bytes) : Prop :=
  (exists mid, js = ([Byte.x7b] ++ mid ++ [Byte.x7d])%list) /\ (newline ∉ js) /\
  utf8_valid (u8_of <$> js) = true.

Class SerdeObject (JE T : Type) `{!Serde JE T} := {
  json_object (v : T) js : to_json v = (Ok tt, js) -> object_text js;
}.

(** ** What a request is answered with *)

Section Answers.
Context {JE W : Type} `{!Serde JE Request.t, !GuestOs W}.
Variable display_json : JE -> string.

Definition output_chunk (id pid : Z) (stream : StdStream) (data : bytes) : list Response.t :=
  if bool_decide (data = []) then [] else [ok_response id (ExecOutput pid stream data)].

Definition exited_body (pid : Z) (i : ExitInfo.t) : ResponseBody :=
  ExecExited pid (ExitInfo.exit_code i) (ExitInfo.signal i) (ExitInfo.duration_ms i).

(** The answers to [ExecStart] once the child has run. *)
Definition run_answers (id pid : Z) (o : Output.t) (info : ExitInfo.t) : list Response.t :=
  (ok_response id (ExecStarted pid) :: output_chunk id pid StreamStdout (Output.stdout o) ++
   output_chunk id pid StreamStderr (Output.stderr o) ++ [ok_response id (exited_body pid info)])%list.

Definition start_answers (id : Z) (program : string) args cwd env (w : W) (st : AgentState.t) :
    list Response.t * W * AgentState.t :=
  match os_spawn (command program args cwd env (Some Piped) (Some Piped)) w with
  | (Err e, w) =>
      ([error_response id IoFailure ("failed to spawn " +:+ program +:+ ": " +:+ IoError.text e)], w, st)
  | (Ok pid, w) =>
      let (start, w) := os_now w in
      match os_wait pid w with
      | (Err e, w) =>
          ([ok_response id (ExecStarted pid);
            error_response id IoFailure ("wait_with_output for " +:+ program +:+ ": " +:+ IoError.text e)], w, st)
      | (Ok o, w) =>
          let (finish, w) := os_now w in
          let info := ExitInfo.mk (Output.code o) (Output.signal o) (elapsed_ms start finish) in
          (run_answers id pid o info, w, AgentState.mk (<[pid := info]> (AgentState.exited st)))
      end
  end.

Definition answers (req : Request.t) (w : W) (st : AgentState.t) : list Response.t * W * AgentState.t :=
  let id := Request.id req in
  if negb (Request.version req =? PROTOCOL_VERSION) then ([version_mismatch req], w, st)
  else match Request.body req with
  | ExecStart program args cwd env => start_answers id program args cwd env w st
  | ExecWait pid =>
      ([match AgentState.exited st !! pid with
        | Some info => ok_response id (exited_body pid info)
        | None => error_response id NoSuchProcess
            ("pid " +:+ pretty pid +:+ " not found — it was never started or already reaped")
        end], w, st)
  | ExecStdin pid _ _ => ([error_response id NoSuchProcess (no_active_process pid "ExecStdin")], w, st)
  | Signal pid _ => ([error_response id NoSuchProcess (no_active_process pid "Signal")], w, st)
  | body => let (r, w) := dispatch_oneshot body w in ([Response.mk PROTOCOL_VERSION id r], w, st)
  end.

(** The answers to a payload, which may not be a request, and to a sequence of
    them. *)
Definition answer_payload (p : bytes) (w : W) (st : AgentState.t) : list Response.t * W * AgentState.t :=
  match from_json p with
  | Err e => ([malformed display_json e], w, st)
  | Ok req => answers req w st
  end.

Fixpoint answer_all (ps : list bytes) (w : W) (st : AgentState.t) : list Response.t * W * AgentState.t :=
  match ps with
  | [] => ([], w, st)
  | p :: ps =>
      let '(rs, w, st) := answer_payload p w st in
      let '(rs', w, st) := answer_all ps w st in
      ((rs ++ rs')%list, w, st)
  end.
End Answers.

(** ** Handlers *)

Definition line_of (js : bytes) : bytes := (js ++ [newline])%list.

Section Lines.
Context {JE W : Type} `{!Serde JE Request.t, !Serde JE Response.t, !GuestOs W}.
Variable display_json : JE -> string.
Abbreviation sends := (fun (r : Response.t) js => to_json (JE := JE) r = (Ok tt, js)).
Implicit Types (s : Session.t W) (w : W) (st : AgentState.t) (rs : list Response.t) (jss : list bytes).

Lemma write_response_ok r js w ws st :
  sends r js ->
  write_response (JE := JE) r (Session.mk w (Writer.mk ws None) st) =
    (Ok tt, Session.mk w (Writer.mk (ws ++ line_of js) None) st).
Proof.
  intros Hr%to_vec_ok. unfold write_response. rewrite Hr. simpl. unfold line_of. by rewrite app_assoc.
Qed.

Lemma chunk_ok id pid stream data w ws st jss :
  Forall2 sends (output_chunk id pid stream data) jss ->
  (if bool_decide (data = []) then mret tt
   else write_response (JE := JE) (ok_response id (ExecOutput pid stream data)))
    (Session.mk w (Writer.mk ws None) st) =
  (Ok tt, Session.mk w (Writer.mk (ws ++ concat (line_of <$> jss)) None) st).
Proof.
  unfold output_chunk. case_bool_decide.
  - intros ->%Forall2_nil_inv_l. simpl. by rewrite app_nil_r.
  - intros (js & jss' & Hjs & ->%Forall2_nil_inv_l & ->)%Forall2_cons_inv_l.
    rewrite (write_response_ok _ js) by done. simpl. by rewrite app_nil_r.
Qed.

Ltac send Hs :=
  let js := fresh "js" in let jss := fresh "jss" in let H := fresh "H" in
  apply Forall2_cons_inv_l in Hs as (js & jss & H & Hs & ->);
  first [ erewrite sm_bind_ok by (by apply write_response_ok) | erewrite write_response_ok by done ].

(** One answer, the last one. *)
Lemma single_ok r w ws st jss :
  Forall2 sends [r] jss ->
  write_response (JE := JE) r (Session.mk w (Writer.mk ws None) st) =
    (Ok tt, Session.mk w (Writer.mk (ws ++ concat (line_of <$> jss)) None) st).
Proof.
  intros (js & jss' & Hjs & ->%Forall2_nil_inv_l & ->)%Forall2_cons_inv_l.
  rewrite (write_response_ok _ js) by done. simpl. by rewrite app_nil_r.
Qed.

Lemma handle_exec_start_answers id program args cwd env w st ws rs w' st' jss :
  start_answers id program args cwd env w st = (rs, w', st') -> Forall2 sends rs jss ->
  handle_exec_start (JE := JE) id program args cwd env (Session.mk w (Writer.mk ws None) st) =
    (Ok tt, Session.mk w' (Writer.mk (ws ++ concat (line_of <$> jss)) None) st').
Proof.
  unfold start_answers, handle_exec_start. intros Ha Hs.
  destruct (os_spawn _ w) as [[pid|e] w1] eqn:Hspawn.
  2: { injection Ha as <- <- <-. erewrite sm_bind_ok by (unfold on_world; simpl; by rewrite Hspawn).
       by apply single_ok. }
  erewrite sm_bind_ok by (unfold on_world; simpl; by rewrite Hspawn). cbv beta iota.
  destruct (os_now w1) as [start w2] eqn:Hstart.
  erewrite sm_bind_ok by (unfold instant_now; simpl; by rewrite Hstart).
  destruct (os_wait pid w2) as [[o|e] w3] eqn:Hwait.
  2: { injection Ha as <- <- <-. send Hs. erewrite sm_bind_ok by (unfold on_world; simpl; by rewrite Hwait).
       cbv beta iota. rewrite (single_ok _ _ _ _ _ Hs). cbn [fmap list_fmap concat]. by rewrite app_assoc. }
  destruct (os_now w3) as [finish w4] eqn:Hfin. injection Ha as <- <- <-. send Hs.
  erewrite sm_bind_ok by (unfold on_world; simpl; by rewrite Hwait). cbv beta iota.
  erewrite sm_bind_ok by (unfold instant_now; simpl; by rewrite Hfin).
  apply Forall2_app_inv_l in Hs as (jo & jrest & Ho & Hs & ->).
  apply Forall2_app_inv_l in Hs as (je & jx & He & Hs & ->).
  erewrite sm_bind_ok by (by apply chunk_ok). erewrite sm_bind_ok by (by apply chunk_ok).
  erewrite sm_bind_ok by done. unfold remember. cbn [Session.world Session.out Session.agent].
  rewrite (single_ok _ _ _ _ _ Hs). cbn [fmap list_fmap concat].
  by rewrite !fmap_app, !concat_app, !app_assoc.
Qed.

Lemma process_request_answers req w st ws rs w' st' jss :
  answers req w st = (rs, w', st') -> Forall2 sends rs jss ->
  process_request (JE := JE) req (Session.mk w (Writer.mk ws None) st) =
    (Ok tt, Session.mk w' (Writer.mk (ws ++ concat (line_of <$> jss)) None) st').
Proof.
  unfold answers, process_request. destruct (negb _).
  { intros [= <- <- <-]. apply single_ok. }
  unfold handle_request. destruct (Request.body req) as [| | | | | |program args cwd env| |pid].
  all: try (intros [= <- <- <-]; apply single_ok).
  all: try (destruct (dispatch_oneshot _ w) as [r w1] eqn:Hd; intros [= <- <- <-] Hs;
            erewrite sm_bind_ok by (unfold on_world; simpl; simpl in Hd; by rewrite ?Hd);
            by apply single_ok).
  - apply handle_exec_start_answers.
  - unfold handle_exec_wait. intros [= <- <- <-]. erewrite sm_bind_ok by done. simpl.
    destruct (AgentState.exited st !! pid); apply single_ok.
Qed.
End Lines.

(** ** Frames *)

Lemma split_lines_app js bs :
  newline ∉ js -> split_lines (js ++ newline :: bs) = js :: split_lines bs.
Proof.
  induction js as [|b js IH]; intros Hn; [done|]. apply not_elem_of_cons in Hn as [Hb Hn].
  cbn [app split_lines]. rewrite bool_decide_false by congruence. by rewrite (IH Hn).
Qed.

Lemma object_nonempty js : object_text js -> nonempty js = true.
Proof. by intros [[mid ->] _]. Qed.

(** The buffered answers are cut into the answers again. *)
Lemma split_answers jss :
  Forall object_text jss -> List.filter nonempty (split_lines (concat (line_of <$> jss))) = jss.
Proof.
  induction 1 as [|js jss Hjs _ IH]; [done|]. cbn [fmap list_fmap concat]. unfold line_of at 1.
  rewrite <- app_assoc. cbn [app]. rewrite split_lines_app by apply Hjs. simpl.
  rewrite object_nonempty by done. by f_equal.
Qed.

Lemma agent_read_frame_app p rest e :
  zlen p <= MAX_FRAME_LEN ->
  read_frame (Reader.mk (pframe p ++ rest) e) = (Ok (Some p), Reader.mk rest e).
Proof.
  intros Hp. unfold read_frame, pframe. rewrite <- app_assoc.
  rewrite read_exact_app by apply to_le_length.
  rewrite from_to_le32 by (unfold is_u32, MAX_FRAME_LEN, zlen in *; lia).
  rewrite (proj2 (Z.ltb_ge _ _)) by done. rewrite read_exact_app by (unfold zlen; lia). done.
Qed.

(** A frame that is read was at the front of the stream. *)
Lemma read_frame_inv r p r' :
  read_frame r = (Ok (Some p), r') ->
  Reader.data r = pframe p ++ Reader.data r' /\ Reader.at_end r' = Reader.at_end r /\
  zlen p <= MAX_FRAME_LEN.
Proof.
  unfold read_frame. destruct (Reader.read_exact 4 r) as [[lb|e] r1] eqn:H1; [|by case_bool_decide].
  destruct (MAX_FRAME_LEN <? from_le lb) eqn:Hl; [done|]. apply Z.ltb_ge in Hl.
  destruct (Reader.read_exact _ r1) as [[f|e] r2] eqn:H2; [|done]. intros [= <- <-].
  apply read_exact_inv in H1 as (Hd1 & Hl1 & He1). apply read_exact_inv in H2 as (Hd2 & Hl2 & He2).
  pose proof (from_le_range 4 lb Hl1) as Hr.
  assert (Hz : zlen f = from_le lb) by (unfold zlen; rewrite Hl2; lia).
  split_and!; [|congruence|lia]. unfold pframe.
  rewrite Hz, to_from_le by done. by rewrite Hd1, Hd2, <- app_assoc.
Qed.

Lemma writes_write_all bs : writes (Writer.write_all bs) bs.
Proof.
  pose proof (writes_all (fun e : IoErrorKind => e) bs) as H. intros w. specialize (H w). simpl in H.
  by destruct (Writer.write_all bs w) as [[[]|] ?].
Qed.

Lemma writes_map_err {E F} (f : E -> F) (c : SM Writer.t E unit) bs :
  writes c bs -> writes (fun w => let (r, w) := c w in (map_err f r, w)) bs.
Proof. intros Hc w. specialize (Hc w). by destruct (c w) as [[[]|e] w']. Qed.

Section Frames.
Context {JE W : Type} `{!Serde JE Request.t, !Serde JE Response.t, !GuestOs W}.
Context `{!SerdeLaws JE Response.t, !SerdeObject JE Response.t}.
Variable display_json : JE -> string.
Implicit Types (s : Session.t W) (w : W) (st : AgentState.t) (rs : list Response.t) (jss : list bytes).

(** A response and the payload it is framed as. *)
Definition framed_as (r : Response.t) (js : bytes) : Prop :=
  to_json (JE := JE) r = (Ok tt, js) /\ zlen js < 2 ^ 32.

Lemma agent_write_frame_writes r js : framed_as r js -> writes (write_frame (JE := JE) r) (pframe js).
Proof.
  intros [Hr%to_vec_ok Hl]. unfold write_frame. rewrite Hr, (proj2 (Z.leb_gt _ _)) by done.
  apply (writes_map_err (fun _ => tt)). unfold pframe. apply writes_bind; [apply writes_write_all|].
  rewrite <- (app_nil_r js) at 2. apply writes_bind; [apply writes_write_all|apply writes_nil].
Qed.

Lemma forward_frames_writes rs jss :
  Forall2 framed_as rs jss -> writes (forward_frames (JE := JE) jss) (concat (pframe <$> jss)).
Proof.
  induction 1 as [|r js rs jss Hr Hs IH]; [apply writes_nil|]. cbn [forward_frames fmap list_fmap concat].
  intros w. unfold mbind at 1, sm_bind, sm_lift. rewrite (json_roundtrip _ _ (proj1 Hr)). simpl.
  by apply writes_bind; [apply agent_write_frame_writes|].
Qed.

Definition no_frame (r : Reader.t) : Prop := forall p r', read_frame r <> (Ok (Some p), r').

(** One request: its answers are framed onto the output, and the loop goes on
    unless the output broke. *)
Lemma framed_step_answers p rest e w out st rs w' st' jss :
  zlen p <= MAX_FRAME_LEN -> answer_payload display_json p w st = (rs, w', st') ->
  Forall2 framed_as rs jss ->
  exists c : SM Writer.t unit unit, writes c (concat (pframe <$> jss)) /\
    framed_step display_json (Reader.mk (pframe p ++ rest) e) (Session.mk w out st) =
      (let (r, out') := c out in (is_ok r, Reader.mk rest e, Session.mk w' out' st')).
Proof.
  intros Hp Ha Hs. unfold framed_step. rewrite agent_read_frame_app by done.
  unfold answer_payload in Ha. destruct (from_json p) as [req|je].
  - assert (Hl : Forall2 (fun r js => to_json (JE := JE) r = (Ok tt, js)) rs jss)
      by (eapply Forall2_impl; [exact Hs|by intros ? ? []]).
    assert (Ho : Forall object_text jss).
    { clear -Hl SerdeObject0. induction Hl; constructor; [|done]. by eapply json_object. }
    exists (forward_frames (JE := JE) jss). split; [by eapply forward_frames_writes|].
    simpl. rewrite (process_request_answers req w st [] rs w' st' jss Ha Hl). simpl.
    by rewrite split_answers.
  - injection Ha as <- <- <-. apply Forall2_cons_inv_l in Hs as (js & jss' & Hjs & ->%Forall2_nil_inv_l & ->).
    eexists. split; [|done]. simpl. rewrite app_nil_r. by apply agent_write_frame_writes.
Qed.

Lemma framed_loop_answers ps tail e n w out st rs w' st' jss :
  Forall (fun p => zlen p <= MAX_FRAME_LEN) ps -> no_frame (Reader.mk tail e) ->
  answer_all display_json ps w st = (rs, w', st') -> Forall2 framed_as rs jss -> (length ps < n)%nat ->
  exists s, framed_loop display_json n (Reader.mk (concat (pframe <$> ps) ++ tail) e) (Session.mk w out st) = Some s /\
    (exists k, Writer.written (Session.out s) = Writer.written out ++ take k (concat (pframe <$> jss))) /\
    (Writer.fits (concat (pframe <$> jss)) out ->
       Session.world s = w' /\ Session.agent s = st' /\
       Writer.written (Session.out s) = Writer.written out ++ concat (pframe <$> jss)).
Proof.
  intros Hps Ht. revert n w out st rs jss. induction Hps as [|p ps Hp _ IH]; intros n w out st rs jss Ha Hs Hn;
    (destruct n as [|n]; [lia|]); cbn [framed_loop].
  - injection Ha as <- <- <-. apply Forall2_nil_inv_l in Hs as ->. cbn [fmap list_fmap concat app].
    exists (Session.mk w out st). unfold framed_step. destruct (read_frame _) as [[[f|]|] r'] eqn:Hf; [by destruct (Ht _ _ Hf)| |];
      (split; [done|]; split; [by exists 0%nat; simpl; rewrite app_nil_r|]; intros _; simpl; by rewrite app_nil_r).
  - cbn [answer_all] in Ha. destruct (answer_payload display_json p w st) as [[rs1 w1] st1] eqn:Ha1.
    destruct (answer_all display_json ps w1 st1) as [[rs2 w2] st2] eqn:Ha2. injection Ha as <- <- <-.
    apply Forall2_app_inv_l in Hs as (js1 & js2 & Hs1 & Hs2 & ->).
    cbn [fmap list_fmap concat]. rewrite <- app_assoc.
    destruct (framed_step_answers p (concat (pframe <$> ps) ++ tail) e w out st rs1 w1 st1 js1) as (c & Hc & ->);
      [done|done|done|]. rewrite fmap_app, concat_app.
    specialize (Hc out). destruct (c out) as [[[]|err] out1]; simpl.
    + destruct Hc as [Hw Hf]. simpl in Hn.
      destruct (IH n w1 out1 st1 rs2 js2) as (s & Hs & (k & Hk) & Hfit); [done|done|lia|].
      exists s. split; [done|]. split.
      * exists (length (concat (pframe <$> js1)) + k)%nat. by rewrite take_app_add, Hk, Hw, app_assoc.
      * intros (? & ? & Hk')%Hf%Hfit. split_and!; [done|done|]. by rewrite Hk', Hw, app_assoc.
    + destruct Hc as [(k & Hk) Hn']. eexists. split; [done|]. simpl. split; [|by intros ?%fits_app_l].
      exists (Nat.min k (length (concat (pframe <$> js1)))). rewrite Hk, take_app_le by lia.
      by rewrite <- take_take, (take_ge _ (length _)).
Qed.
End Frames.

(** Every input is a sequence of frames and a rest that holds no frame. *)
Lemma stream_frames data e :
  exists ps tail, data = concat (pframe <$> ps) ++ tail /\
    Forall (fun p => zlen p <= MAX_FRAME_LEN) ps /\ no_frame (Reader.mk tail e).
Proof.
  induction data as [data IH] using (induction_ltof1 _ (@length _)). unfold ltof in IH.
  destruct (read_frame (Reader.mk data e)) as [[[p|]|] r'] eqn:Hr.
  - apply read_frame_inv in Hr as (Hd & He & Hl). simpl in Hd, He. destruct r' as [rest e']. simpl in *. subst e'.
    destruct (IH rest) as (ps & tail & -> & Hps & Ht).
    { rewrite Hd, length_app, pframe_length. lia. }
    exists (p :: ps), tail. split_and!; [|by constructor|done]. cbn [fmap list_fmap concat]. by rewrite <- app_assoc.
  - exists [], data. split_and!; [done|done|]. intros p' r2. by rewrite Hr.
  - exists [], data. split_and!; [done|done|]. intros p' r2. by rewrite Hr.
Qed.

Lemma frames_count ps tail : (length ps <= length (concat (pframe <$> ps) ++ tail))%nat.
Proof.
  induction ps as [|p ps IH]; cbn [fmap list_fmap concat length]; [lia|].
  rewrite <- app_assoc, length_app, pframe_length. lia.
Qed.

Lemma lines_count ps : (length ps <= length (concat (line_of <$> ps)))%nat.
Proof.
  induction ps as [|p ps IH]; cbn [fmap list_fmap concat length]; [lia|].
  unfold line_of at 1. rewrite !length_app. simpl. lia.
Qed.

(** ** What the agent remembers *)

(** The exit statuses a host that has seen [rs] knows of. *)
Definition note (st : AgentState.t) (r : Response.t) : AgentState.t :=
  match Response.outcome r with
  | Ok (ExecExited pid c sg d) => AgentState.mk (<[pid := ExitInfo.mk c sg d]> (AgentState.exited st))
  | _ => st
  end.

Section Memory.
Context {JE W : Type} `{!Serde JE Request.t, !GuestOs W}.
Variable display_json : JE -> string.
Implicit Types (w : W) (st : AgentState.t).

Lemma dispatch_not_exited body w pid c sg d :
  (dispatch_oneshot body w).1 <> Ok (ExecExited pid c sg d).
Proof.
  destruct body; simpl; try done.
  - unfold handle_exec. unfold mbind, sm_bind, now, mapping_err. destruct (os_now w) as [t w1].
    destruct (os_output _ w1) as [[o|e] w2]; simpl; [|done]. destruct (os_now w2) as [t' w3].
    destruct timeout_ms as [lim|]; [|done]. by destruct (lim <? _).
  - unfold handle_write_file, mbind, sm_bind, mapping_err. destruct (os_write _ _ w) as [[[]|e] w1]; simpl; [|done].
    by destruct (os_chmod _ _ w1) as [[[]|e] w2].
  - unfold handle_read_file, mbind, sm_bind, mapping_err. by destruct (os_read _ w) as [[o|e] w1].
  - unfold handle_stat, mbind, sm_bind, mapping_err. by destruct (os_metadata _ w) as [[o|e] w1].
Qed.

Lemma note_chunk st id pid stream data : foldl note st (output_chunk id pid stream data) = st.
Proof. unfold output_chunk. by case_bool_decide. Qed.

Lemma answers_noted req w st rs w' st' :
  answers req w st = (rs, w', st') -> st' = foldl note st rs.
Proof.
  unfold answers. destruct (negb _); [by intros [= <- <- <-]|].
  assert (Hone : forall body, (let (r, w1) := dispatch_oneshot body w in
      ([Response.mk PROTOCOL_VERSION (Request.id req) r], w1, st)) = (rs, w', st') -> st' = foldl note st rs).
  { intros body. pose proof (dispatch_not_exited body w) as Hn. destruct (dispatch_oneshot body w) as [r w1].
    intros [= <- <- <-]. simpl in *. unfold note. simpl. destruct r as [[]|]; try done. by destruct (Hn pid exit_code signal duration_ms). }
  destruct (Request.body req) as [| | | | | |program args cwd env| |pid] eqn:Hb.
  all: try apply Hone.
  all: try (by intros [= <- <- <-]).
  - unfold start_answers. destruct (os_spawn _ w) as [[pid|e] w1]; [|by intros [= <- <- <-]].
    destruct (os_now w1) as [t w2]. destruct (os_wait pid w2) as [[o|e] w3]; [|by intros [= <- <- <-]].
    destruct (os_now w3) as [t' w4]. intros [= <- <- <-]. unfold run_answers. cbn [foldl].
    rewrite !foldl_app, !note_chunk. done.
  - intros [= <- <- <-]. destruct (AgentState.exited st !! pid) as [info|] eqn:He; [|done]. cbn [foldl].
    unfold note. simpl. destruct st as [m], info. simpl in *. by rewrite insert_id.
Qed.

Lemma answer_all_noted ps w st rs w' st' :
  answer_all display_json ps w st = (rs, w', st') -> st' = foldl note st rs.
Proof.
  revert w st rs. induction ps as [|p ps IH]; intros w st rs; simpl; [by intros [= <- <- <-]|].
  destruct (answer_payload display_json p w st) as [[rs1 w1] st1] eqn:Ha1.
  destruct (answer_all display_json ps w1 st1) as [[rs2 w2] st2] eqn:Ha2. intros [= <- <- <-].
  rewrite foldl_app. apply IH in Ha2 as ->. f_equal. unfold answer_payload in Ha1.
  destruct (from_json p); [by eapply answers_noted|by injection Ha1 as <- <- <-].
Qed.
End Memory.

(** ** Line sessions *)

Lemma utf8_valid_app a b : utf8_valid a = true -> utf8_valid (a ++ b) = utf8_valid b.
Proof.
  induction a as [a IH] using (induction_ltof1 _ (@length _)). unfold ltof in IH.
  assert (Hrec : forall l, (length l < length a)%nat -> utf8_valid l = true -> utf8_valid (l ++ b) = utf8_valid b) by auto.
  destruct a as [|a1 a]; [done|]. cbn [utf8_valid app]. destruct (a1 <? 128); [apply Hrec; simpl; lia|].
  destruct a as [|a2 a]; [done|]. cbn [app]. destruct (between 194 a1 223).
  { intros [-> H]%andb_prop. cbn [andb]. apply Hrec; [simpl; lia|done]. }
  destruct a as [|a3 a]; [done|]. cbn [app].
  destruct (if a1 =? 224 then _ else _).
  { intros [-> H]%andb_prop. cbn [andb]. apply Hrec; [simpl; lia|done]. }
  destruct a as [|a4 a]; [done|]. cbn [app]. intros [H1 H]%andb_prop. rewrite H1. cbn [andb].
  apply Hrec; [simpl; lia|done].
Qed.

Lemma read_until_app js rest :
  newline ∉ js -> read_until (js ++ newline :: rest) = (line_of js, rest, true).
Proof.
  induction js as [|b js IH]; intros Hn; [done|]. apply not_elem_of_cons in Hn as [Hb Hn].
  cbn [app read_until]. rewrite bool_decide_false by congruence. by rewrite (IH Hn).
Qed.

Lemma chomp_line mid : chomp (line_of ([Byte.x7b] ++ mid ++ [Byte.x7d])) = [Byte.x7b] ++ mid ++ [Byte.x7d].
Proof.
  unfold chomp, line_of.
  replace (rev _) with ([newline; Byte.x7d] ++ rev mid ++ [Byte.x7b])
    by (by rewrite !rev_app_distr).
  cbn [app]. rewrite bool_decide_true, bool_decide_false by done.
  change (Byte.x7d :: rev mid ++ [Byte.x7b]) with ([Byte.x7d] ++ rev mid ++ [Byte.x7b]).
  by rewrite !rev_app_distr, rev_involutive.
Qed.

Lemma next_line_object js rest e :
  object_text js -> next_line (Reader.mk (line_of js ++ rest) e) = (Some (Ok js), Reader.mk rest e).
Proof.
  intros ([mid Hmid] & Hn & Hu). unfold next_line, line_of. rewrite <- app_assoc. cbn [Reader.data app].
  rewrite read_until_app by done. cbn [negb andb Reader.at_end].
  rewrite bool_decide_false by (unfold line_of; by destruct js).
  unfold line_of at 1. rewrite fmap_app, utf8_valid_app by done. cbn [fmap list_fmap utf8_valid].
  change (u8_of newline <? 128) with true. cbv iota. by rewrite Hmid, chomp_line.
Qed.

Lemma object_not_blank js : object_text js -> String.eqb (trim (string_of_bytes js)) "" = false.
Proof.
  intros ([mid ->] & _ & _). unfold string_of_bytes. cbn [app fmap list_fmap string_of_list_ascii].
  match goal with |- context [trim (String ?c ?t)] => change (String c t) with ("" +:+ String c t) end.
  by rewrite trim_solid.
Qed.

Section LineSessions.
Context {JE W : Type} `{!Serde JE Request.t, !Serde JE Response.t, !GuestOs W}.
Variable display_json : JE -> string.
Implicit Types (w : W) (st : AgentState.t).

Lemma line_loop_answers ps n w ws st rs w' st' jss :
  Forall object_text ps -> answer_all display_json ps w st = (rs, w', st') ->
  Forall2 (fun r js => to_json (JE := JE) r = (Ok tt, js)) rs jss -> (length ps < n)%nat ->
  line_loop display_json n (Reader.mk (concat (line_of <$> ps)) UnexpectedEof) (Session.mk w (Writer.mk ws None) st) =
    Some (Session.mk w' (Writer.mk (ws ++ concat (line_of <$> jss)) None) st').
Proof.
  intros Hps. revert n w ws st rs jss. induction Hps as [|p ps Hp _ IH]; intros n w ws st rs jss Ha Hs Hn;
    (destruct n as [|n]; [lia|]); cbn [line_loop].
  - injection Ha as <- <- <-. apply Forall2_nil_inv_l in Hs as ->. simpl. by rewrite app_nil_r.
  - cbn [answer_all] in Ha. destruct (answer_payload display_json p w st) as [[rs1 w1] st1] eqn:Ha1.
    destruct (answer_all display_json ps w1 st1) as [[rs2 w2] st2] eqn:Ha2. injection Ha as <- <- <-.
    apply Forall2_app_inv_l in Hs as (js1 & js2 & Hs1 & Hs2 & ->).
    unfold line_step. cbn [fmap list_fmap concat]. rewrite next_line_object, object_not_blank by done.
    assert (Hstep : (match from_json p with
      | Ok req => process_request (JE := JE) req (Session.mk w (Writer.mk ws None) st)
      | Err e => write_response (malformed display_json e) (Session.mk w (Writer.mk ws None) st)
      end) = (Ok tt, Session.mk w1 (Writer.mk (ws ++ concat (line_of <$> js1)) None) st1)).
    { unfold answer_payload in Ha1. destruct (from_json p) as [req|e]; [by eapply process_request_answers|].
      injection Ha1 as <- <- <-. by apply single_ok. }
    rewrite Hstep. cbn [is_ok]. simpl in Hn. rewrite (IH n w1 _ st1 rs2 js2) by (done || lia).
    by rewrite fmap_app, concat_app, app_assoc.
Qed.

(** Each line takes at least its newline. *)
Lemma next_line_consumes r l r' :
  next_line r = (Some (Ok l), r') -> (length (Reader.data r') < length (Reader.data r))%nat.
Proof.
  assert (Hru : forall bs line rest found, read_until bs = (line, rest, found) ->
    length bs = (length line + length rest)%nat).
  { induction bs as [|b bs IH]; intros line rest found; simpl; [by intros [= <- <- <-]|].
    case_bool_decide; [by intros [= <- <- <-]|]. destruct (read_until bs) as [[l1 r1] f1].
    intros [= <- <- <-]. simpl. by rewrite (IH _ _ _ eq_refl). }
  unfold next_line. destruct (read_until (Reader.data r)) as [[line rest] found] eqn:Hr. apply Hru in Hr.
  destruct (negb found && _); [done|]. case_bool_decide as Hl; [done|]. destruct (utf8_valid _); [|done].
  intros [= _ <-]. simpl. destruct line; [done|]. simpl in Hr. lia.
Qed.

Lemma framed_loop_returns n r s :
  (length (Reader.data r) < n)%nat -> is_Some (framed_loop (W := W) display_json n r s).
Proof.
  revert r s. induction n as [|n IH]; intros r s Hn; [lia|]. cbn [framed_loop].
  destruct (framed_step display_json r s) as [[[] r'] s'] eqn:Hs; [|by eexists]. apply IH.
  unfold framed_step in Hs. destruct (read_frame r) as [[[p|]|] r1] eqn:Hr; [|done|done].
  apply read_frame_inv in Hr as (Hd & _ & _). rewrite Hd, length_app, pframe_length in Hn.
  assert (r' = r1) as ->; [|lia]. repeat (case_match; simplify_eq; try done).
Qed.

Lemma line_loop_returns n r s :
  (length (Reader.data r) < n)%nat -> is_Some (line_loop (W := W) display_json n r s).
Proof.
  revert r s. induction n as [|n IH]; intros r s Hn; [lia|]. cbn [line_loop].
  destruct (line_step display_json r s) as [[[] r'] s'] eqn:Hs; [|by eexists]. apply IH.
  unfold line_step in Hs. destruct (next_line r) as [[[l|]|] r1] eqn:Hr; [|done|done].
  apply next_line_consumes in Hr. assert (r' = r1) as ->; [|lia].
  destruct (String.eqb _ _); [by simplify_eq|].
  destruct (from_json l); [destruct (process_request _ s)|destruct (write_response _ s)]; by simplify_eq.
Qed.
End LineSessions.

(** ** Environment of the children *)

Lemma env_fold_lookup env cmd k :
  Command.envs (foldl (fun cmd '(k, v) => Command.env k v cmd) cmd env) !! k =
  match list_find_val (fun '(k', _) => bool_decide (k' = k)) (reverse env) with
  | Some (_, v) => Some (Some v)
  | None => Command.envs cmd !! k
  end.
Proof.
  revert cmd. induction env as [|[k' v] env IH] using rev_ind; intros cmd; [done|].
  rewrite foldl_app, reverse_app. simpl. case_bool_decide as Hk.
  - subst. apply lookup_insert_eq.
  - rewrite lookup_insert_ne by done. apply IH.
Qed.

Definition transport_vars : list string := ["NANOVM_AGENT_VSOCK"; "NANOVM_AGENT_FRAMED"].

Lemma command_envs program args cwd env out err k :
  Command.envs (command program args cwd env out err) !! k =
  match list_find_val (fun '(k', _) => bool_decide (k' = k)) (reverse env) with
  | Some (_, v) => Some (Some v)
  | None => if bool_decide (k ∈ transport_vars) then Some None else None
  end.
Proof.
  unfold command. rewrite env_fold_lookup. case_match; [done|].
  assert (He : forall c : Command.t, Command.envs (match cwd with Some dir => Command.with_dir dir c | None => c end)
             = Command.envs c) by (by destruct cwd). rewrite He. simpl.
  destruct (decide (k = "NANOVM_AGENT_FRAMED")) as [->|Hf]; [by rewrite lookup_insert_eq|].
  rewrite lookup_insert_ne by done.
  destruct (decide (k = "NANOVM_AGENT_VSOCK")) as [->|Hv]; [by rewrite lookup_insert_eq|].
  rewrite lookup_insert_ne, lookup_empty by done. rewrite bool_decide_false; [done|].
  by intros [?|[?|?%elem_of_nil]%elem_of_cons]%elem_of_cons.
Qed.

(** ** Exec streams end to end *)

Definition exit_frames (o : Output.t) (info : ExitInfo.t) : list ExecFrame :=
  (if bool_decide (Output.stdout o = []) then [] else [Stdout (Output.stdout o)]) ++
  (if bool_decide (Output.stderr o = []) then [] else [Stderr (Output.stderr o)]) ++
  [Exit (ExitInfo.exit_code info) (ExitInfo.signal info) (ExitInfo.duration_ms info)].

Section EndToEnd.
Variable debug_body : ResponseBody -> string.
Variable debug_code : ErrorCode -> string.

Lemma transcript_run id pid o info later :
  transcript debug_body debug_code (run_answers id pid o info ++ later) = (exit_frames o info, Finished).
Proof.
  unfold run_answers, exit_frames, output_chunk.
  by destruct (bool_decide (Output.stdout o = [])), (bool_decide (Output.stderr o = [])).
Qed.
End EndToEnd.

(** The agent frames an answer of up to 4 GiB; the host's reader gives up on one
    over 16 MiB. *)
Lemma oversized_answer_ends_stream {JE : Type} `{!Serde JE Response.t} debug_body debug_code
    display_frame_error (r : Response.t) js w :
  framed_as (JE := JE) r js -> MAX_FRAME_BYTES < zlen js ->
  writes (write_frame (JE := JE) r) (pframe js) /\
  pull (JE := JE) debug_body debug_code display_frame_error 1 (KvmExecStream.mk (pframe js :: w) [] false) =
    ([], Failed (Backend ("vm-kvm: decode exec stream frame: " +:+ display_frame_error (InvalidLength (zlen js))))).
Proof.
  intros Hr Hl. split; [by apply agent_write_frame_writes|]. cbn [pull]. unfold KvmExecStream.next_frame. cbn [KvmExecStream.done].
  assert (Hb : exists b, KvmExecStream.bound (KvmExecStream.mk (pframe js :: w) [] false) = S (S b))
    by (by eexists). destruct Hb as [b ->]. cbn [KvmExecStream.next_loop KvmExecStream.buf KvmExecStream.inbox].
  cbn [app]. unfold decode_response.
  assert (Hd : decode_value (JE := JE) (T := Response.t) (pframe js) = Err (InvalidLength (zlen js))).
  { unfold decode_value, HEADER_BYTES, pframe.
    rewrite (proj2 (Z.ltb_ge _ _)) by (unfold zlen; rewrite length_app, to_le_length; lia).
    rewrite slice_app_l, slice_all by len. destruct Hr as [_ Hr].
    rewrite from_to_le32 by (unfold is_u32, zlen in *; lia). by rewrite (proj2 (Z.ltb_lt _ _)). }
  by rewrite Hd.
Qed.

(** ** Properties *)

(** C20: The agent answers every request of a framed session, in order and
    completely. An input of any bytes is a sequence of complete frames and a
    rest that holds none, and the session always ends. If the answers to those
    frames (one error answer to a payload that is not a request or speaks
    another version; for [ExecStart] the pid, the output that is not empty, the
    exit) serialise, then what is written is the frames of these answers, cut
    short only when the output breaks, and everything if it does not. The exit
    statuses the agent then knows are exactly those it has reported. *)
Theorem agent_session_answers {JE W : Type} `{!Serde JE Request.t, !Serde JE Response.t, !GuestOs W,
    !SerdeLaws JE Response.t, !SerdeObject JE Response.t} (display_json : JE -> string)
    (data : bytes) (e : IoErrorKind) (w : W) (out : Writer.t) :
  is_Some (run_length_prefixed_session display_json (Reader.mk data e) w out) /\
  (exists ps tail, data = concat (pframe <$> ps) ++ tail /\
     Forall (fun p => zlen p <= MAX_FRAME_LEN) ps /\ no_frame (Reader.mk tail e)) /\
  (forall ps tail rs w' st' jss,
     data = concat (pframe <$> ps) ++ tail -> Forall (fun p => zlen p <= MAX_FRAME_LEN) ps ->
     no_frame (Reader.mk tail e) ->
     answer_all display_json ps w AgentState.new = (rs, w', st') -> Forall2 (framed_as (JE := JE)) rs jss ->
     st' = foldl note AgentState.new rs /\
     exists s, run_length_prefixed_session display_json (Reader.mk data e) w out = Some s /\
       (exists k, Writer.written (Session.out s) = Writer.written out ++ take k (concat (pframe <$> jss))) /\
       (Writer.fits (concat (pframe <$> jss)) out ->
          Session.world s = w' /\ Session.agent s = st' /\
          Writer.written (Session.out s) = Writer.written out ++ concat (pframe <$> jss))).
Proof.
  split_and!.
  - apply framed_loop_returns. simpl. lia.
  - apply stream_frames.
  - intros ps tail rs w' st' jss -> Hps Ht Ha Hs. split; [by eapply answer_all_noted|].
    eapply framed_loop_answers; [done..|]. simpl. pose proof (frames_count ps tail). lia.
Qed.

(** The two transports of the agent agree. The requests of a host, sent one
    per line or one per frame, get the same answers, one per line or one per
    frame, and leave the guest and the agent in the same state. *)
Theorem agent_modes_agree {JE W : Type} `{!Serde JE Request.t, !Serde JE Response.t, !GuestOs W,
    !SerdeLaws JE Response.t, !SerdeObject JE Request.t, !SerdeObject JE Response.t}
    (display_json : JE -> string) (reqs : list Request.t) (ps : list bytes) (w : W) rs w' st' jss :
  Forall2 (payload_of (JE := JE)) reqs ps ->
  answer_all display_json ps w AgentState.new = (rs, w', st') -> Forall2 (framed_as (JE := JE)) rs jss ->
  run_line_delimited_session display_json (Reader.mk (concat (line_of <$> ps)) UnexpectedEof) w
    (Writer.mk [] None) = Some (Session.mk w' (Writer.mk (concat (line_of <$> jss)) None) st') /\
  exists s, run_length_prefixed_session display_json (Reader.mk (concat (pframe <$> ps)) UnexpectedEof) w
      (Writer.mk [] None) = Some s /\
    Session.world s = w' /\ Session.agent s = st' /\
    Writer.written (Session.out s) = concat (pframe <$> jss).
Proof.
  intros Hreq Ha Hs. split.
  - unfold run_line_delimited_session.
    rewrite (line_loop_answers display_json ps _ w [] AgentState.new rs w' st' jss); [done| |done| |].
    + clear -Hreq SerdeObject0. induction Hreq as [|r p reqs ps [Hr _]]; constructor; [|done].
      by eapply json_object.
    + eapply Forall2_impl; [exact Hs|by intros ? ? []].
    + pose proof (lines_count ps). simpl. lia.
  - destruct (framed_loop_answers display_json ps [] UnexpectedEof
      (S (length (concat (pframe <$> ps)))) w (Writer.mk [] None) AgentState.new rs w' st' jss)
      as (s & Hrun & _ & Hfit); [| |done|done| |].
    + clear -Hreq. induction Hreq as [|r p reqs ps [_ Hl]]; by constructor.
    + intros p r'. by unfold read_frame.
    + pose proof (frames_count ps []) as Hc. rewrite app_nil_r in Hc. lia.
    + rewrite app_nil_r in Hrun. exists s. split; [done|]. by apply Hfit.
Qed.

(** C21: A streamed exec, from the host's request to the host's reader. The
    host frames an [ExecStart] request (more requests may follow); the agent
    runs the program. As long as every response, the child's output included,
    fits a frame of 16 MiB (a larger one ends the session, as
    [oversized_answer_ends_stream] shows), then however the transport cuts the
    agent's bytes, the host's stream gives the child's standard output, if any,
    its standard error, if any, and its exit status with the time it took, and is
    then over. The agent keeps the status for [ExecWait]. *)
Theorem exec_stream_end_to_end {JE W : Type} `{!Serde JE Request.t, !Serde JE Response.t, !GuestOs W,
    !SerdeLaws JE Request.t, !SerdeLaws JE Response.t, !SerdeObject JE Response.t}
    (display_json : JE -> string) debug_body debug_code display_frame_error
    id program args cwd env (w w1 w2 w3 w4 : W) pid o t0 t1 js later rs w' st' jss frame n :
  let req := Request.mk PROTOCOL_VERSION id (ExecStart program args cwd env) in
  let info := ExitInfo.mk (Output.code o) (Output.signal o) (elapsed_ms t0 t1) in
  os_spawn (command program args cwd env (Some Piped) (Some Piped)) w = (Ok pid, w1) ->
  os_now w1 = (t0, w2) -> os_wait pid w2 = (Ok o, w3) -> os_now w3 = (t1, w4) ->
  encode_request (JE := JE) req [] = (Ok n, frame) -> to_json (JE := JE) req = (Ok tt, js) ->
  Forall (fun p => zlen p <= MAX_FRAME_LEN) later ->
  answer_all display_json later w4 (AgentState.mk {[pid := info]}) = (rs, w', st') ->
  Forall2 (payload_of (JE := JE)) (run_answers id pid o info ++ rs) jss ->
  exists s,
    run_length_prefixed_session display_json
      (Reader.mk (frame ++ concat (pframe <$> later)) UnexpectedEof) w (Writer.mk [] None) = Some s /\
    Session.agent s = st' /\
    forall pieces, concat pieces = Writer.written (Session.out s) ->
      pull debug_body debug_code display_frame_error (length jss + 2) (KvmExecStream.mk pieces [] false) =
        (exit_frames o info, Finished).
Proof.
  intros req info Hspawn Ht0 Hwait Ht1 Henc Hjs Hlater Hall Hpay.
  assert (Hl : zlen js <= MAX_FRAME_BYTES).
  { destruct (decide (zlen js <= MAX_FRAME_BYTES)) as [|Hbig]; [done|]. exfalso.
    unfold encode_request in Henc. by rewrite (encode_value_too_large req js) in Henc by (done || lia). }
  unfold encode_request in Henc. rewrite (encode_value_ok req js) in Henc by by split.
  injection Henc as _ <-. cbn [app].
  assert (Ha : answer_all display_json (js :: later) w AgentState.new = (run_answers id pid o info ++ rs, w', st')).
  { cbn [answer_all]. unfold answer_payload. rewrite (json_roundtrip _ _ Hjs). unfold answers, req. simpl.
    unfold start_answers. rewrite Hspawn, Ht0, Hwait, Ht1. fold info. rewrite <- insert_empty in Hall.
    change (AgentState.exited AgentState.new) with (∅ : gmap Z ExitInfo.t). by rewrite Hall. }
  destruct (framed_loop_answers display_json (js :: later) [] UnexpectedEof
    (S (length (pframe js ++ concat (pframe <$> later)))) w (Writer.mk [] None) AgentState.new
    (run_answers id pid o info ++ rs) w' st' jss) as (s & Hrun & _ & Hfit); [by constructor| |done| | |].
  - intros p r'. by unfold read_frame.
  - eapply Forall2_impl; [exact Hpay|]. intros r p [Hr Hp]. split; [done|].
    unfold MAX_FRAME_BYTES in Hp. lia.
  - pose proof (frames_count (js :: later) []) as Hc. rewrite app_nil_r in Hc.
    cbn [fmap list_fmap concat] in Hc. lia.
  - rewrite app_nil_r in Hrun. exists s. destruct Hfit as (Hw & Hst & Hout); [done|]. split_and!; [done|done|].
    intros pieces Hp. rewrite <- (Forall2_length _ _ _ Hpay).
    rewrite (pull_transcript debug_body debug_code display_frame_error _ _ (run_answers id pid o info ++ rs));
      [apply transcript_run|done| |lia].
    exists jss. split; [|done]. simpl. by rewrite Hp, Hout.
Qed.

(** A child process gets the variables its request sets, the last value of
    each; it inherits every other variable, but not the two that select the
    agent's own transport. *)
Theorem agent_child_environment program args cwd env out err inherited k :
  Command.child_env inherited (command program args cwd env out err) !! k =
  match list_find_val (fun '(k', _) => bool_decide (k' = k)) (reverse env) with
  | Some (_, v) => Some v
  | None => if bool_decide (k ∈ transport_vars) then None else inherited !! k
  end.
Proof.
  unfold Command.child_env. rewrite lookup_merge, command_envs.
  destruct (list_find_val _ _) as [[k' v]|]; [by destruct (inherited !! k)|].
  case_bool_decide; by destruct (inherited !! k).
Qed.

(** ** A guest *)

(** Values numbered by a table, each written as one JSON-like object. *)
Section ObjectCodec.
Context {T : Type} `{!EqDecision T} (table : list T).

Definition object_of (i : nat) : bytes := [Byte.x7b] ++ replicate i Byte.x61 ++ [Byte.x7d].

Definition object_serde : Serde unit T := {|
  to_json v := match list_find (fun x => x = v) table with
               | Some (i, _) => (Ok tt, object_of i)
               | None => (Err tt, [])
               end;
  from_json bs := ok_or tt (table !! (length bs - 2)%nat);
|}.

Lemma object_of_text i : object_text (object_of i).
Proof.
  unfold object_of. split_and!; [by eexists| |].
  - rewrite !not_elem_of_app, elem_of_replicate, !list_elem_of_singleton. split_and!; [done|by intros []|done].
  - cbn [app fmap list_fmap utf8_valid]. change (u8_of Byte.x7b <? 128) with true. cbv iota.
    induction i as [|i IH]; [done|]. cbn [replicate app fmap list_fmap utf8_valid].
    by change (u8_of Byte.x61 <? 128) with true.
Qed.

Lemma object_serde_laws : @SerdeLaws unit T object_serde.
Proof.
  split. intros v js. simpl. destruct (list_find _ table) as [[i x]|] eqn:Hf; [|done]. intros [= <-].
  apply list_find_Some in Hf as (Hl & -> & _).
  replace (length (object_of i) - 2)%nat with i; [by rewrite Hl|].
  unfold object_of. rewrite !length_app, length_replicate. simpl. lia.
Qed.

Lemma object_serde_object : @SerdeObject unit T object_serde.
Proof.
  split. intros v js. simpl. destruct (list_find _ table) as [[i x]|]; [|done]. intros [= <-]. apply object_of_text.
Qed.
End ObjectCodec.

(** A guest whose every program prints [hi] and exits; its clock counts
    milliseconds. *)
#[local] Instance sample_os : GuestOs Z := {
  os_spawn _ t := (Ok 7, t);
  os_wait _ t := (Ok (Output.mk (Some 0) None [Byte.x68; Byte.x69] []), t + 5000000);
  os_output _ t := (Ok (Output.mk (Some 0) None [Byte.x68; Byte.x69] []), t + 5000000);
  os_now t := (t, t);
  os_write _ _ t := (Ok tt, t);
  os_chmod _ _ t := (Ok tt, t);
  os_read _ t := (Err (IoError.mk true "no such file"), t);
  os_metadata _ t := (Err (IoError.mk true "no such file"), t);
}.

Definition sample_start : Request.t := Request.mk PROTOCOL_VERSION 1 (ExecStart "/bin/hi" [] None []).
Definition sample_wait : Request.t := Request.mk PROTOCOL_VERSION 2 (ExecWait 7).
Definition sample_info : ExitInfo.t := ExitInfo.mk (Some 0) None 5.
Definition sample_output : Output.t := Output.mk (Some 0) None [Byte.x68; Byte.x69] [].
Definition sample_requests : list Request.t := [sample_start; sample_wait].
Definition sample_responses : list Response.t :=
  run_answers 1 7 sample_output sample_info ++ [ok_response 2 (exited_body 7 sample_info)].

#[global] Instance RequestBody_eq_dec : EqDecision RequestBody.
Proof. solve_decision. Defined.
#[global] Instance Request_eq_dec : EqDecision Request.t.
Proof. solve_decision. Defined.

#[local] Instance sample_request_serde : Serde unit Request.t := object_serde sample_requests.
#[local] Instance sample_response_serde : Serde unit Response.t := object_serde sample_responses.
#[local] Instance sample_request_laws : SerdeLaws unit Request.t := object_serde_laws _.
#[local] Instance sample_response_laws : SerdeLaws unit Response.t := object_serde_laws _.
#[local] Instance sample_request_object : SerdeObject unit Request.t := object_serde_object _.
#[local] Instance sample_response_object : SerdeObject unit Response.t := object_serde_object _.

Definition sample_payloads : list bytes := [object_of 0; object_of 1].
Definition sample_answers : list bytes := [object_of 0; object_of 1; object_of 2; object_of 3].

Lemma agent_session_answers_witness :
  exists s, run_length_prefixed_session (JE := unit) (fun _ => "") 
      (Reader.mk (concat (pframe <$> sample_payloads) ++ [Byte.x01]) UnexpectedEof) 0 (Writer.mk [] None) = Some s /\
    Writer.written (Session.out s) = concat (pframe <$> sample_answers).
Proof.
  destruct (proj2 (proj2 (proj2 (agent_session_answers (JE := unit) (fun _ => "")
    (concat (pframe <$> sample_payloads) ++ [Byte.x01]) UnexpectedEof (0 : Z) (Writer.mk [] None)))
    sample_payloads [Byte.x01] sample_responses 5000000 (AgentState.mk {[7 := sample_info]}) sample_answers
    eq_refl ltac:(repeat (constructor; [vm_compute; discriminate|]); constructor)
    ltac:(intros p r'; vm_compute; discriminate) ltac:(vm_compute; reflexivity)
    ltac:(repeat (constructor; [split; vm_compute; reflexivity|]); constructor)))
    as (s & Hrun & _ & Hfit).
  exists s. split; [exact Hrun|]. apply (Hfit I).
Defined.

Lemma agent_modes_agree_witness :
  run_line_delimited_session (JE := unit) (fun _ => "") 
    (Reader.mk (concat (line_of <$> sample_payloads)) UnexpectedEof) 0 (Writer.mk [] None) =
  Some (Session.mk 5000000 (Writer.mk (concat (line_of <$> sample_answers)) None) (AgentState.mk {[7 := sample_info]})).
Proof.
  refine (proj1 (agent_modes_agree (JE := unit) (fun _ => "") sample_requests sample_payloads (0 : Z)
    sample_responses 5000000 (AgentState.mk {[7 := sample_info]}) sample_answers _ _ _)).
  - repeat (constructor; [split; [vm_compute; reflexivity|vm_compute; discriminate]|]). constructor.
  - vm_compute. reflexivity.
  - repeat (constructor; [split; vm_compute; reflexivity|]). constructor.
Defined.

Lemma exec_stream_end_to_end_witness :
  exists s, run_length_prefixed_session (JE := unit) (fun _ => "")
      (Reader.mk (concat (pframe <$> sample_payloads)) UnexpectedEof) 0 (Writer.mk [] None) = Some s /\
    forall pieces, concat pieces = Writer.written (Session.out s) ->
      pull (JE := unit) (fun _ => "") (fun _ => "") (fun _ => "") 6 (KvmExecStream.mk pieces [] false) =
        ([Stdout [Byte.x68; Byte.x69]; Exit (Some 0) None 5], Finished).
Proof.
  destruct (exec_stream_end_to_end (JE := unit) (GuestOs0 := sample_os) (fun _ => "") (fun _ => "") (fun _ => "") (fun _ => "")
    1 "/bin/hi" [] None [] (0 : Z) 0 0 5000000 5000000 7 sample_output 0 5000000 (object_of 0) [object_of 1]
    [ok_response 2 (exited_body 7 sample_info)] 5000000 (AgentState.mk {[7 := sample_info]}) sample_answers
    (pframe (object_of 0)) 6 ltac:(reflexivity) ltac:(reflexivity) ltac:(reflexivity) ltac:(reflexivity) ltac:(vm_compute; reflexivity)
    ltac:(vm_compute; reflexivity) ltac:(constructor; [vm_compute; discriminate|constructor])
    ltac:(vm_compute; reflexivity)
    ltac:(repeat (constructor; [split; [vm_compute; reflexivity|vm_compute; discriminate]|]); constructor))
    as (s & Hrun & _ & Hpull).
  exists s. split; [exact Hrun|exact Hpull].
Defined.
