(* ===== verification/F64.v ===== *)
(** * 64-bit floats

    Rust's [f64] is IEEE 754 binary64: the Standard Library's [SpecFloat] at
    precision 53 and exponent bound 1024, with the operations the program uses.
    The lemmas give what the clients need of rounding: results are canonical,
    values that fit are exact, and comparison is comparison of values. *)

From Stdlib Require Import SpecFloat.
From S2P Require Import Prelude.

Local Open Scope Z_scope.

Module F64.
Abbreviation t := spec_float.

Definition PREC : Z := 53.
Definition EMAX : Z := 1024.

Definition add : t -> t -> t := SFadd PREC EMAX.
Definition sub : t -> t -> t := SFsub PREC EMAX.
Definition mul : t -> t -> t := SFmul PREC EMAX.
Definition div : t -> t -> t := SFdiv PREC EMAX.

(** An integer converted with [as f64] or [f64::from]. *)
Definition of_Z (z : Z) : t := binary_normalize PREC EMAX z 0 false.

Definition zero : t := S754_zero false.
Definition one : t := S754_finite false 4503599627370496 (-52).

Definition le (a b : t) : bool := SFleb a b.
Definition lt (a b : t) : bool := SFltb a b.

Definition is_nan (a : t) : bool := match a with S754_nan => true | _ => false end.
Definition is_finite (a : t) : bool := match a with S754_zero _ | S754_finite _ _ _ => true | _ => false end.

(** [f64::min] and [f64::max]: a NaN is ignored. *)
Definition min (a b : t) : t := if is_nan a then b else if is_nan b then a else if lt b a then b else a.
Definition max (a b : t) : t := if is_nan a then b else if is_nan b then a else if lt a b then b else a.

Definition ceil (a : t) : t :=
  match a with
  | S754_finite s m e =>
      if 0 <=? e then a
      else
        let q := Z.pos m / 2 ^ (- e) in
        let r := Z.pos m mod 2 ^ (- e) in
        if s then (if q =? 0 then S754_zero true else of_Z (- q))
        else of_Z (if r =? 0 then q else q + 1)
  | _ => a
  end.

Definition u64_max : Z := 2 ^ 64 - 1.

(** [a as uN]: truncated and saturated; a NaN is 0. *)
Definition as_uint (max : Z) (a : t) : Z :=
  match a with
  | S754_infinity false => max
  | S754_finite false m e => Z.min max (if 0 <=? e then Z.pos m * 2 ^ e else Z.pos m / 2 ^ (- e))
  | _ => 0
  end.

(** [Duration::as_secs_f64] of a number of nanoseconds. *)
Definition secs_of_nanos (nanos : Z) : t :=
  add (of_Z (nanos / 1000000000)) (div (of_Z (nanos mod 1000000000)) (of_Z 1000000000)).
End F64.

Example f64_examples :
  F64.of_Z 1 = F64.one /\ F64.add (F64.of_Z 3) (F64.of_Z 4) = F64.of_Z 7 /\
  F64.as_uint F64.u64_max (F64.ceil (F64.div F64.one (F64.of_Z 3))) = 1 /\
  F64.lt (F64.secs_of_nanos 1500000000) (F64.of_Z 2) = true /\
  F64.mul (F64.of_Z 2) (F64.secs_of_nanos 1500000000) = F64.of_Z 3.
Proof. vm_compute. done. Qed.

(** ** Digits *)

Section Digits.
Implicit Types (m : positive) (e : Z).

Lemma digits_log m : Z.pos (digits2_pos m) = Z.log2 (Z.pos m) + 1.
Proof.
  induction m as [m IH|m IH|]; simpl digits2_pos; [| |done].
  - rewrite Pos2Z.inj_succ, IH. change (Z.pos m~1) with (2 * Z.pos m + 1).
    rewrite Z.log2_succ_double by lia. lia.
  - rewrite Pos2Z.inj_succ, IH. change (Z.pos m~0) with (2 * Z.pos m).
    rewrite Z.log2_double by lia. lia.
Qed.

(** The number of digits, and what it says about the size. *)
Definition digits m : Z := Z.pos (digits2_pos m).

Lemma digits_spec m : 2 ^ (digits m - 1) <= Z.pos m < 2 ^ digits m.
Proof.
  unfold digits. rewrite digits_log. pose proof (Z.log2_spec (Z.pos m) ltac:(lia)).
  replace (Z.log2 (Z.pos m) + 1 - 1) with (Z.log2 (Z.pos m)) by lia. by rewrite Z.add_1_r.
Qed.

Lemma digits_pos m : 1 <= digits m.
Proof. unfold digits. lia. Qed.

Lemma digits_unique m d : 0 < d -> 2 ^ (d - 1) <= Z.pos m < 2 ^ d -> digits m = d.
Proof.
  intros Hd Hm. unfold digits. rewrite digits_log.
  rewrite (Z.log2_unique (Z.pos m) (d - 1)); [lia|lia|]. replace (Z.succ (d - 1)) with d by lia. done.
Qed.

Lemma digits_le m d : 0 <= d -> Z.pos m < 2 ^ d -> digits m <= d.
Proof.
  intros Hd Hm. pose proof (digits_spec m) as [Hs _]. destruct (Z.le_gt_cases (digits m) d) as [|Hgt]; [done|].
  assert (2 ^ d <= 2 ^ (digits m - 1)) by (apply Z.pow_le_mono_r; lia). lia.
Qed.

Lemma digits_ge m d : 2 ^ d <= Z.pos m -> d < digits m.
Proof.
  intros Hm. pose proof (digits_spec m) as [_ Hs]. pose proof (digits_pos m).
  destruct (Z.le_gt_cases (digits m) d) as [Hle|]; [|done].
  assert (2 ^ digits m <= 2 ^ d) by (apply Z.pow_le_mono_r; lia). lia.
Qed.

Lemma digits_shift m k m' : 0 <= k -> Z.pos m' = Z.pos m * 2 ^ k -> digits m' = digits m + k.
Proof.
  intros Hk Hm'. pose proof (digits_pos m). apply digits_unique; [lia|].
  pose proof (digits_spec m) as [? ?]. rewrite Hm', Z.pow_add_r by lia.
  replace (digits m + k - 1) with (digits m - 1 + k) by lia. rewrite Z.pow_add_r by lia.
  assert (0 < 2 ^ k) by (apply Z.pow_pos_nonneg; lia). nia.
Qed.
End Digits.

(** ** Shifting *)

Section Shifts.
Implicit Types (m e n : Z) (mrs : shr_record).

Lemma iter_pos_nat {A} (f : A -> A) p x : SpecFloat.iter_pos f p x = Nat.iter (Pos.to_nat p) f x.
Proof.
  revert x. induction p as [p IH|p IH|]; intros x; cbn [SpecFloat.iter_pos]; [| |done].
  - replace (Pos.to_nat p~1) with (Pos.to_nat p + (Pos.to_nat p + 1))%nat by lia. by rewrite !IH, !Nat.iter_add.
  - replace (Pos.to_nat p~0) with (Pos.to_nat p + Pos.to_nat p)%nat by lia. by rewrite !IH, !Nat.iter_add.
Qed.

Lemma shr_1_m mrs : 0 <= shr_m mrs -> shr_m (shr_1 mrs) = shr_m mrs / 2 /\ 0 <= shr_m (shr_1 mrs).
Proof.
  destruct mrs as [[|[p|p|]|p] r s]; simpl; intros H; try done; try lia.
  - change (Z.pos p~1) with (2 * Z.pos p + 1). split; [|done]. Z.to_euclidean_division_equations; lia.
  - change (Z.pos p~0) with (2 * Z.pos p). split; [|done]. Z.to_euclidean_division_equations; lia.
Qed.

Lemma iter_shr_m k mrs :
  0 <= shr_m mrs -> shr_m (Nat.iter k shr_1 mrs) = shr_m mrs / 2 ^ Z.of_nat k /\ 0 <= shr_m (Nat.iter k shr_1 mrs).
Proof.
  intros H. induction k as [|k [IH IH0]]; simpl Nat.iter; [rewrite Z.div_1_r; done|].
  destruct (shr_1_m _ IH0) as [H1 H2]. split; [|done]. rewrite H1, IH.
  rewrite Z.div_div by lia. f_equal. replace (Z.of_nat (S k)) with (Z.of_nat k + 1) by lia.
  rewrite Z.pow_add_r by lia. lia.
Qed.

Lemma shr_spec mrs e n :
  0 <= shr_m mrs ->
  shr_m (shr mrs e n).1 = shr_m mrs / 2 ^ Z.max 0 n /\ 0 <= shr_m (shr mrs e n).1 /\
  (shr mrs e n).2 = e + Z.max 0 n.
Proof.
  intros H. unfold shr. destruct n as [|p|p]; simpl Z.max; simpl fst; simpl snd.
  - rewrite Z.div_1_r. split_and!; [done|done|lia].
  - rewrite iter_pos_nat. destruct (iter_shr_m (Pos.to_nat p) mrs H) as [H1 H2].
    split_and!; [|done|lia]. rewrite H1. by rewrite positive_nat_Z.
  - rewrite Z.div_1_r. split_and!; [done|done|lia].
Qed.

(** Shifting out zeros is exact. *)
Lemma shr_1_exact m : 0 <= m -> shr_1 (Build_shr_record (2 * m) false false) = Build_shr_record m false false.
Proof. by destruct m. Qed.

Lemma shr_exact m e n :
  0 <= m -> 0 <= n ->
  shr (Build_shr_record (m * 2 ^ n) false false) e n = (Build_shr_record m false false, e + n).
Proof.
  intros Hm Hn. unfold shr. destruct n as [|p|p]; [by rewrite Z.mul_1_r, Z.add_0_r| |lia].
  rewrite iter_pos_nat, <- (positive_nat_Z p) at 1. f_equal. generalize (Pos.to_nat p) as k. intros k.
  induction k as [|k IH]; simpl Nat.iter; [by rewrite Z.mul_1_r|].
  rewrite <- Nat.iter_succ, Nat.iter_succ_r.
  replace (m * 2 ^ Z.of_nat (S k)) with (2 * (m * 2 ^ Z.of_nat k))
    by (replace (Z.of_nat (S k)) with (1 + Z.of_nat k) by lia; rewrite Z.pow_add_r by lia; lia).
  rewrite shr_1_exact; [done|]. apply Z.mul_nonneg_nonneg; [done|apply Z.pow_nonneg; lia].
Qed.

Lemma shl_align_spec (m : positive) e e' :
  let '(m', e'') := shl_align m e e' in
  Z.pos m' * 2 ^ (e'' - Z.min e e') = Z.pos m * 2 ^ (e - Z.min e e') /\ e'' = Z.min e e'.
Proof.
  unfold shl_align. destruct (e' - e) as [|d|d] eqn:Hd.
  - rewrite Z.min_l by lia. done.
  - rewrite Z.min_l by lia. done.
  - rewrite Z.min_r by lia. split; [|done]. rewrite Z.sub_diag, Z.mul_1_r.
    replace (e - e') with (Z.pos d) by lia.
    clear. rewrite <- (positive_nat_Z d). rewrite Pos2Nat.inj_iter.
    generalize (Pos.to_nat d) as k. intros k. induction k as [|k IH]; simpl; [lia|].
    replace (Z.of_nat (S k)) with (1 + Z.of_nat k) by lia. rewrite Z.pow_add_r by lia.
    change (Z.pos (nat_rect (fun _ => positive) m (fun _ => xO) k)~0)
      with (2 * Z.pos (nat_rect (fun _ => positive) m (fun _ => xO) k)). lia.
Qed.
End Shifts.

(** ** Rounding *)

(** Finite floats with the mantissa and exponent of their value. *)
Definition canonical (m : positive) (e : Z) : Prop := Z.max (digits m + e - 53) (-1074) = e /\ e <= 971.

Definition valid (x : F64.t) : Prop :=
  match x with S754_finite _ m e => canonical m e | _ => True end.

(** The sign bit is clear, or there is no sign. *)
Definition nonneg (x : F64.t) : Prop :=
  match x with S754_finite s _ _ => s = false | S754_infinity s => s = false | _ => True end.

Section Rounding.
Implicit Types (e : Z) (l : location).

Lemma shr_m_of_loc m l : shr_m (shr_record_of_loc m l) = m.
Proof. by destruct l as [|[]]. Qed.

Lemma round_nearest_bounds m l : m <= round_nearest_even m l <= m + 1.
Proof. destruct l as [|[]]; simpl; try lia. destruct (Z.even m); lia. Qed.

(** The mantissa after the first shift has at most 53 digits, and 53 unless the
    exponent is the least. *)
Lemma shift_to_precision (m : positive) e e' :
  e' = Z.max (digits m + e - 53) (-1074) -> e <= e' ->
  let m' := Z.pos m / 2 ^ (e' - e) in
  0 <= m' < 2 ^ 53 /\ (-1074 < e' -> 2 ^ 52 <= m').
Proof.
  intros He' Hle m'. pose proof (digits_spec m) as [Hlo Hhi]. pose proof (digits_pos m) as Hd.
  assert (Hp : 0 < 2 ^ (e' - e)) by (apply Z.pow_pos_nonneg; lia). unfold m'. split; [split|].
  - apply Z.div_pos; lia.
  - apply Z.div_lt_upper_bound; [done|]. rewrite <- Z.pow_add_r by lia.
    eapply Z.lt_le_trans; [exact Hhi|]. apply Z.pow_le_mono_r; lia.
  - intros Hgt. apply Z.div_le_lower_bound; [done|]. rewrite <- Z.pow_add_r by lia.
    replace (e' - e + 52) with (digits m - 1) by lia. done.
Qed.

(** Normalising a rounded mantissa. *)
Lemma renormalise (m : positive) e :
  Z.pos m <= 2 ^ 53 -> -1074 <= e -> (-1074 < e -> 2 ^ 52 <= Z.pos m) ->
  let '(mrs, e') := shr_fexp F64.PREC F64.EMAX (Z.pos m) e loc_Exact in
  exists m', shr_m mrs = Z.pos m' /\ Z.max (digits m' + e' - 53) (-1074) = e' /\ e <= e'.
Proof.
  intros Hm He Hlow. unfold shr_fexp. change (Zdigits2 (Z.pos m)) with (digits m).
  change (fexp F64.PREC F64.EMAX (digits m + e)) with (Z.max (digits m + e - 53) (-1074)).
  pose proof (digits_pos m). destruct (Z.eq_dec (Z.pos m) (2 ^ 53)) as [Heq|Hne].
  - assert (Hd : digits m = 54) by (apply digits_unique; [lia|]; rewrite Heq; split; [done|vm_compute; done]).
    rewrite Hd. replace (Z.max (54 + e - 53) (-1074) - e) with 1 by lia.
    assert (Hm2 : Z.pos m = 2 ^ 52 * 2 ^ 1) by (rewrite Heq; reflexivity).
    cbn [shr_record_of_loc]. rewrite Hm2, shr_exact by lia. exists (2 ^ 52)%positive. split; [done|].
    assert (digits (2 ^ 52)%positive = 53) as -> by reflexivity. lia.
  - assert (Hd : digits m <= 53) by (apply digits_le; lia).
    destruct (shr_spec (shr_record_of_loc (Z.pos m) loc_Exact) e (Z.max (digits m + e - 53) (-1074) - e))
      as (Hs & _ & He'); [done|]. destruct (shr _ _ _) as [mrs e'] eqn:Hshr. simpl in Hs, He'.
    rewrite Z.max_l in Hs, He' by lia. rewrite Z.div_1_r in Hs. exists m. split_and!; [done| |lia].
    destruct (Z.eq_dec e (-1074)) as [|Hgt]; [lia|].
    assert (52 < digits m) by (apply digits_ge, Hlow; lia). lia.
Qed.

(** Rounding keeps the sign and gives a canonical float. *)
Lemma binary_round_aux_valid s (m : positive) e l :
  e <= Z.max (digits m + e - 53) (-1074) ->
  match binary_round_aux F64.PREC F64.EMAX s (Z.pos m) e l with
  | S754_finite s' m' e' => s' = s /\ canonical m' e' /\ Z.max (digits m + e - 53) (-1074) <= e'
  | S754_zero s' => s' = s
  | S754_infinity s' => s' = s
  | S754_nan => False
  end.
Proof.
  intros He. unfold binary_round_aux, shr_fexp at 1. change (Zdigits2 (Z.pos m)) with (digits m).
  change (fexp F64.PREC F64.EMAX (digits m + e)) with (Z.max (digits m + e - 53) (-1074)).
  set (c := Z.max (digits m + e - 53) (-1074)) in *.
  destruct (shr_spec (shr_record_of_loc (Z.pos m) l) e (c - e)) as (Hs & Hs0 & He'); [by rewrite shr_m_of_loc|].
  destruct (shr _ _ _) as [mrs e'] eqn:Hshr. simpl in Hs, Hs0, He'. rewrite shr_m_of_loc in Hs.
  rewrite Z.max_r in Hs, He' by lia. replace e' with c in * by lia. clear He'.
  destruct (shift_to_precision m e c eq_refl He) as [Hr Hlow]. rewrite <- Hs in Hr, Hlow.
  pose proof (round_nearest_bounds (shr_m mrs) (loc_of_shr_record mrs)) as Hb.
  destruct (round_nearest_even _ _) as [|r|r] eqn:Hround; [| |lia].
  { unfold shr_fexp. match goal with |- context [shr ?a ?b ?n] => pose proof (shr_spec a b n) as Hz; destruct (shr a b n) as [mrs'' e''] end.
    destruct Hz as (Hz & _); [done|]. cbn [fst shr_m shr_record_of_loc] in Hz.
    rewrite Z.div_0_l in Hz by (apply Z.pow_nonzero; lia). by rewrite Hz. }
  pose proof (renormalise r c ltac:(lia) ltac:(lia) ltac:(lia)) as Hn.
  destruct (shr_fexp F64.PREC F64.EMAX (Z.pos r) c loc_Exact) as [mrs'' e''].
  destruct Hn as (m' & -> & Hc & Hle). change (F64.EMAX - F64.PREC) with 971.
  destruct (e'' <=? 971) eqn:Hmax; bool_to_prop; done.
Qed.
End Rounding.

Section Exact.
Implicit Types (m : positive) (e : Z).

(** A mantissa whose surplus digits are zeros is not rounded. *)
Lemma binary_round_aux_exact m m' e c :
  c = Z.max (digits m + e - 53) (-1074) -> e <= c -> c <= 971 -> Z.pos m = Z.pos m' * 2 ^ (c - e) ->
  binary_round_aux F64.PREC F64.EMAX false (Z.pos m) e loc_Exact = S754_finite false m' c.
Proof.
  intros Hc Hle Hmax Hm. unfold binary_round_aux, shr_fexp at 1. change (Zdigits2 (Z.pos m)) with (digits m).
  change (fexp F64.PREC F64.EMAX (digits m + e)) with (Z.max (digits m + e - 53) (-1074)).
  rewrite <- Hc. cbn [shr_record_of_loc]. rewrite Hm, shr_exact by lia. cbn [shr_m loc_of_shr_record round_nearest_even].
  unfold shr_fexp. change (Zdigits2 (Z.pos m')) with (digits m').
  pose proof (digits_shift m' (c - e) m ltac:(lia) Hm) as Hd.
  change (fexp F64.PREC F64.EMAX (digits m' + (e + (c - e)))) with (Z.max (digits m' + (e + (c - e)) - 53) (-1074)).
  replace (Z.max (digits m' + (e + (c - e)) - 53) (-1074) - (e + (c - e))) with 0 by lia.
  cbn [shr shr_record_of_loc shr_m]. change (F64.EMAX - F64.PREC) with 971.
  rewrite (proj2 (Z.leb_le _ _)) by lia. f_equal. lia.
Qed.

Lemma binary_round_aligned s m e :
  exists m' e', shl_align m e (fexp F64.PREC F64.EMAX (digits m + e)) = (m', e') /\
    binary_round F64.PREC F64.EMAX s m e = binary_round_aux F64.PREC F64.EMAX s (Z.pos m') e' loc_Exact /\
    e' = Z.min e (Z.max (digits m + e - 53) (-1074)) /\
    Z.pos m' = Z.pos m * 2 ^ (e - e') /\ digits m' + e' = digits m + e.
Proof.
  unfold binary_round. fold (digits m).
  change (fexp F64.PREC F64.EMAX (digits m + e)) with (Z.max (digits m + e - 53) (-1074)).
  set (c := Z.max _ _). pose proof (shl_align_spec m e c) as Ha.
  destruct (shl_align m e c) as [m' e']. destruct Ha as [Hv He']. exists m', e'.
  rewrite He', Z.sub_diag, Z.mul_1_r in Hv. rewrite <- He' in Hv. split_and!; [done|done|done|done|].
  rewrite (digits_shift m (e - e') m') by lia. lia.
Qed.

Lemma binary_round_valid s m e :
  match binary_round F64.PREC F64.EMAX s m e with
  | S754_finite s' m' e' => s' = s /\ canonical m' e' /\ Z.max (digits m + e - 53) (-1074) <= e'
  | S754_zero s' => s' = s
  | S754_infinity s' => s' = s
  | S754_nan => False
  end.
Proof.
  destruct (binary_round_aligned s m e) as (m' & e' & _ & -> & He' & _ & Hd).
  pose proof (binary_round_aux_valid s m' e' loc_Exact) as Hv. rewrite Hd in Hv. apply Hv. lia.
Qed.

Lemma binary_round_exact m e c :
  c = Z.max (digits m + e - 53) (-1074) -> c <= 971 -> (c <= e \/ exists k, Z.pos m = k * 2 ^ (c - e)) ->
  exists m', binary_round F64.PREC F64.EMAX false m e = S754_finite false m' c /\ canonical m' c /\
    Z.pos m' * 2 ^ (c - Z.min c e) = Z.pos m * 2 ^ (e - Z.min c e).
Proof.
  intros Hc Hmax Hex. destruct (binary_round_aligned false m e) as (m' & e' & _ & -> & He' & Hm' & Hd).
  rewrite <- Hc in He'. destruct (Z.le_gt_cases c e) as [Hle|Hgt].
  - assert (e' = c) as -> by lia. exists m'.
    rewrite (binary_round_aux_exact m' m' c c) by (rewrite ?Z.sub_diag; lia).
    split_and!; [done|by split; lia|]. rewrite Z.min_l by lia. rewrite Z.sub_diag, Z.mul_1_r. done.
  - destruct Hex as [?|[k Hk]]; [lia|]. assert (e' = e) as -> by lia. rewrite Z.sub_diag, Z.mul_1_r in Hm'.
    assert (m' = m) as -> by lia. assert (0 < 2 ^ (c - e)) by (apply Z.pow_pos_nonneg; lia).
    destruct k as [|k|k]; [lia| |lia]. exists k.
    pose proof (digits_shift k (c - e) m ltac:(lia) Hk).
    rewrite (binary_round_aux_exact m k e c) by (done || lia).
    split_and!; [done|by split; lia|]. rewrite Z.min_r, Z.sub_diag by lia. lia.
Qed.
End Exact.

(** ** Values *)

(** The value of a finite non-negative float, in units of its least step. *)
Definition units (x : F64.t) : Z :=
  match x with S754_finite false m e => Z.pos m * 2 ^ (e + 1074) | _ => 0 end.

Lemma units_nonneg x : 0 <= units x.
Proof.
  destruct x as [?|?| |[] m e]; try done. cbn [units]. apply Z.mul_nonneg_nonneg; [done|]. apply Z.pow_nonneg; lia.
Qed.

Definition unit_one : Z := 2 ^ 1074.

(** Finite, canonical and not negative. *)
Definition proper (x : F64.t) : Prop := F64.is_finite x = true /\ nonneg x /\ valid x.

Lemma canonical_low m e : canonical m e -> -1074 <= e /\ Z.pos m < 2 ^ 53 /\ (-1074 < e -> 2 ^ 52 <= Z.pos m).
Proof.
  intros [Hc Hm]. pose proof (digits_spec m) as [Hlo Hhi]. split_and!; [lia| |].
  - eapply Z.lt_le_trans; [exact Hhi|]. apply Z.pow_le_mono_r; lia.
  - intros. replace 52 with (digits m - 1) by lia. done.
Qed.

Lemma units_exponent m1 e1 m2 e2 :
  canonical m1 e1 -> canonical m2 e2 -> e1 < e2 -> Z.pos m1 * 2 ^ (e1 + 1074) < Z.pos m2 * 2 ^ (e2 + 1074).
Proof.
  intros (H1 & Hm1 & _)%canonical_low (H2 & _ & Hm2)%canonical_low He. specialize (Hm2 ltac:(lia)).
  assert (Hp : 0 < 2 ^ (e1 + 1074)) by (apply Z.pow_pos_nonneg; lia).
  assert (Hq : 2 * 2 ^ (e1 + 1074) <= 2 ^ (e2 + 1074)).
  { rewrite <- Z.pow_succ_r by lia. apply Z.pow_le_mono_r; lia. }
  assert (E : 2 ^ 53 = 2 * 2 ^ 52) by reflexivity. rewrite E in Hm1.
  generalize dependent (2 ^ 52). generalize dependent (2 ^ (e1 + 1074)). generalize dependent (2 ^ (e2 + 1074)).
  intros. nia.
Qed.

Lemma compare_units x y :
  proper x -> proper y -> SFcompare x y = Some (units x ?= units y).
Proof.
  intros (Fx & Nx & Vx) (Fy & Ny & Vy).
  assert (Hpos : forall m e, canonical m e -> 0 < Z.pos m * 2 ^ (e + 1074)).
  { intros m e (He & _)%canonical_low. apply Z.mul_pos_pos; [lia|apply Z.pow_pos_nonneg; lia]. }
  destruct x as [sx|sx| |sx mx ex]; try done; destruct y as [sy|sy| |sy my ey]; try done; simpl in Nx, Ny, Vx, Vy; subst;
    cbn [SFcompare units].
  - f_equal. symmetry. apply Z.compare_lt_iff. by apply Hpos.
  - f_equal. symmetry. apply Z.compare_gt_iff. by apply Hpos.
  - f_equal. destruct (Z.compare_spec ex ey) as [->|Hlt|Hgt].
    + rewrite <- Zmult_compare_compat_r; [done|]. apply Z.lt_gt, Z.pow_pos_nonneg; [lia|].
      apply canonical_low in Vy. lia.
    + symmetry. apply Z.compare_lt_iff. by apply units_exponent.
    + symmetry. apply Z.compare_gt_iff. by apply units_exponent.
Qed.

Lemma le_units x y : proper x -> proper y -> F64.le x y = (units x <=? units y).
Proof.
  intros Hx Hy. unfold F64.le, SFleb. rewrite compare_units by done.
  destruct (Z.compare_spec (units x) (units y)); symmetry; bool_to_prop; lia.
Qed.

Lemma lt_units x y : proper x -> proper y -> F64.lt x y = (units x <? units y).
Proof.
  intros Hx Hy. unfold F64.lt, SFltb. rewrite compare_units by done.
  destruct (Z.compare_spec (units x) (units y)); symmetry; bool_to_prop; lia.
Qed.

(** ** Arithmetic on non-negative floats *)

Lemma round_nonneg m e :
  nonneg (binary_round F64.PREC F64.EMAX false m e) /\ valid (binary_round F64.PREC F64.EMAX false m e).
Proof.
  pose proof (binary_round_valid false m e) as H. destruct (binary_round _ _ _ _ _); try done.
  destruct H as (-> & ? & _). done.
Qed.

Lemma add_nonneg x y : nonneg x -> nonneg y -> valid x -> valid y -> nonneg (F64.add x y) /\ valid (F64.add x y).
Proof.
  unfold F64.add. destruct x as [[]|sx| |sx mx ex], y as [[]|sy| |sy my ey]; simpl; intros; subst; try done.
  apply round_nonneg.
Qed.

Lemma mul_exponent mx ex my ey :
  canonical mx ex -> canonical my ey ->
  ex + ey <= Z.max (digits (mx * my) + (ex + ey) - 53) (-1074).
Proof.
  intros [Hx _] [Hy _]. destruct (Z.le_gt_cases 53 (digits (mx * my))) as [|Hd]; [lia|].
  pose proof (digits_spec mx) as [Hlx _]. pose proof (digits_spec my) as [Hly _].
  assert (H1 : digits mx - 1 < digits (mx * my)) by (apply digits_ge; nia).
  assert (H2 : digits my - 1 < digits (mx * my)) by (apply digits_ge; nia). lia.
Qed.

Lemma mul_nonneg x y : nonneg x -> nonneg y -> valid x -> valid y -> nonneg (F64.mul x y) /\ valid (F64.mul x y).
Proof.
  unfold F64.mul. destruct x as [sx|sx| |sx mx ex], y as [sy|sy| |sy my ey]; simpl; intros Nx Ny Vx Vy; subst; try done.
  pose proof (binary_round_aux_valid false (mx * my) (ex + ey) loc_Exact (mul_exponent _ _ _ _ Vx Vy)) as H.
  destruct (binary_round_aux _ _ _ _ _ _); try done. destruct H as (-> & ? & _). done.
Qed.

(** The quotient of two floats, away from underflow. *)
Lemma div_nonneg mx ex my ey :
  -1074 < digits mx + ex - (digits my + ey) - 53 ->
  nonneg (F64.div (S754_finite false mx ex) (S754_finite false my ey)) /\
  valid (F64.div (S754_finite false mx ex) (S754_finite false my ey)).
Proof.
  intros Hn. unfold F64.div, SFdiv, SFdiv_core_binary.
  change (Zdigits2 (Z.pos mx)) with (digits mx). change (Zdigits2 (Z.pos my)) with (digits my).
  set (d := digits mx + ex - (digits my + ey)) in *.
  change (fexp F64.PREC F64.EMAX d) with (Z.max (d - 53) (-1074)). rewrite Z.max_l by lia.
  set (e := Z.min (d - 53) (ex - ey)). set (s := ex - ey - e).
  assert (Hs : 0 <= s) by lia.
  replace (match s with Z0 => Z.pos mx | Z.pos _ => Z.shiftl (Z.pos mx) s | Z.neg _ => 0 end)
    with (Z.pos mx * 2 ^ s) by (destruct s; [lia|by rewrite Z.shiftl_mul_pow2|lia]).
  pose proof (digits_spec mx) as [Hx _]. pose proof (digits_spec my) as [_ Hy].
  pose proof (digits_pos mx) as Hdx. pose proof (digits_pos my) as Hdy.
  assert (Hq : 2 ^ 52 <= Z.pos mx * 2 ^ s / Z.pos my).
  { apply Z.div_le_lower_bound; [lia|]. transitivity (2 ^ digits my * 2 ^ 52); [nia|].
    transitivity (2 ^ (digits mx - 1) * 2 ^ s); [|apply Z.mul_le_mono_nonneg_r; [apply Z.pow_nonneg; lia|done]].
    rewrite <- !Z.pow_add_r by lia. apply Z.pow_le_mono_r; lia. }
  pose proof (Z_div_mod_full (Z.pos mx * 2 ^ s) (Z.pos my) ltac:(lia)) as Hdm.
  unfold Z.div in Hq. destruct (Z.div_eucl _ _) as [q r]. clear Hdm.
  destruct q as [|q|q]; [vm_compute in Hq; done| |lia].
  assert (Hdq : 52 < digits q) by (by apply digits_ge).
  pose proof (binary_round_aux_valid false q e (new_location (Z.pos my) r) ltac:(lia)) as H.
  simpl xorb. destruct (binary_round_aux _ _ _ _ _ _); try done. destruct H as (-> & ? & _). done.
Qed.

Lemma of_Z_exact z : 0 <= z < 2 ^ 53 -> proper (F64.of_Z z) /\ units (F64.of_Z z) = z * unit_one.
Proof.
  intros Hz. destruct z as [|m|m]; [done| |lia]. unfold F64.of_Z, binary_normalize.
  assert (Hd : digits m <= 53) by (apply digits_le; lia). pose proof (digits_pos m).
  destruct (binary_round_exact m 0 (Z.max (digits m + 0 - 53) (-1074))) as (m' & -> & Hc & Hv); [done|lia|left; lia|].
  split; [done|]. cbn [units]. rewrite Z.max_l in * by lia. rewrite Z.min_l, Z.sub_diag, Z.mul_1_r in Hv by lia.
  rewrite Hv, <- Z.mul_assoc, <- Z.pow_add_r by lia. unfold unit_one. do 2 f_equal. lia.
Qed.

(** A float between one and [2 ^ 53] has an exponent between those of the two. *)
Lemma units_range m e :
  canonical m e -> unit_one <= Z.pos m * 2 ^ (e + 1074) < 2 ^ 53 * unit_one -> -52 <= e <= 0 /\ 2 ^ 52 <= Z.pos m.
Proof.
  intros (He & Hm & Hm52)%canonical_low [Hlo Hhi]. unfold unit_one in *.
  assert (Hp : 0 < 2 ^ (e + 1074)) by (apply Z.pow_pos_nonneg; lia).
  assert (-52 <= e).
  { destruct (Z.le_gt_cases (-52) e) as [|Hlt]; [done|]. exfalso.
    assert (2 ^ 53 * 2 ^ (e + 1074) <= 2 ^ 1074) by (rewrite <- Z.pow_add_r by lia; apply Z.pow_le_mono_r; lia). nia. }
  specialize (Hm52 ltac:(lia)). split; [|done]. split; [done|].
  destruct (Z.le_gt_cases e 0) as [|Hgt]; [done|]. exfalso.
  assert (2 ^ 53 * 2 ^ 1074 <= 2 ^ 52 * 2 ^ (e + 1074)) by (rewrite <- !Z.pow_add_r by lia; apply Z.pow_le_mono_r; lia).
  nia.
Qed.

(** A difference with one is rounded to itself. *)
Lemma round_difference (m M : positive) e :
  -52 <= e <= 0 -> Z.pos m < 2 ^ 53 -> Z.pos M = Z.pos m * 2 ^ (e + 52) - 2 ^ 52 ->
  proper (binary_round F64.PREC F64.EMAX false M (-52)) /\
  units (binary_round F64.PREC F64.EMAX false M (-52)) = Z.pos M * 2 ^ 1022.
Proof.
  intros He Hm HM. pose proof (digits_pos M) as Hd0.
  assert (Hd : digits M <= e + 105).
  { apply digits_le; [lia|]. replace (e + 105) with (53 + (e + 52)) by lia. rewrite Z.pow_add_r by lia.
    assert (0 < 2 ^ (e + 52)) by (apply Z.pow_pos_nonneg; lia). nia. }
  destruct (binary_round_exact M (-52) (digits M - 105)) as (m' & -> & Hc & Hv); [lia|lia| |].
  - destruct (Z.le_gt_cases (digits M - 105) (-52)) as [|Hgt]; [by left|right].
    exists (Z.pos m * 2 ^ (e - (digits M - 105)) - 2 ^ (- (digits M - 105))).
    rewrite Z.mul_sub_distr_r, <- Z.mul_assoc, <- !Z.pow_add_r by lia. rewrite HM.
    do 2 f_equal; f_equal; lia.
  - split; [done|]. cbn [units]. set (c := digits M - 105) in *.
    apply (f_equal (fun v => v * 2 ^ (Z.min c (-52) + 1074))) in Hv.
    rewrite <- !Z.mul_assoc, <- !Z.pow_add_r in Hv by lia.
    replace (c - Z.min c (-52) + (Z.min c (-52) + 1074)) with (c + 1074) in Hv by lia.
    replace (-52 - Z.min c (-52) + (Z.min c (-52) + 1074)) with 1022 in Hv by lia. done.
Qed.

(** Subtracting one, exactly. *)
Lemma sub_one x :
  proper x -> unit_one <= units x < 2 ^ 53 * unit_one ->
  proper (F64.sub x F64.one) /\ units (F64.sub x F64.one) = units x - unit_one.
Proof.
  intros (Fx & Nx & Vx) Hr. destruct x as [?|?| |s m e]; try done.
  { exfalso. destruct Hr as [Hr _]. by vm_compute in Hr. }
  simpl in Nx, Vx. subst s. cbn [units] in Hr.
  destruct (units_range _ _ Vx Hr) as [He Hm52]. destruct (canonical_low _ _ Vx) as (_ & Hm & _).
  unfold F64.sub, F64.one, SFsub. rewrite Z.min_r by lia.
  pose proof (shl_align_spec m e (-52)) as Ha. destruct (shl_align m e (-52)) as [mx ex].
  destruct Ha as [Hmx ->]. rewrite Z.min_r, Z.sub_diag, Z.mul_1_r in Hmx by lia.
  change (shl_align 4503599627370496 (-52) (-52)) with (4503599627370496%positive, -52). cbn [fst cond_Zopp].
  replace (e - -52) with (e + 52) in Hmx by lia. change (Z.pos 4503599627370496) with (2 ^ 52).
  assert (Hu : units (S754_finite false m e) = Z.pos mx * 2 ^ 1022).
  { cbn [units]. rewrite Hmx, <- Z.mul_assoc, <- Z.pow_add_r by lia. do 2 f_equal. lia. }
  rewrite Hu. assert (Hone : unit_one = 2 ^ 52 * 2 ^ 1022) by reflexivity. rewrite Hone, <- Z.mul_sub_distr_r.
  assert (Hge : 2 ^ 52 <= Z.pos mx).
  { rewrite Hmx. assert (0 < 2 ^ (e + 52)) by (apply Z.pow_pos_nonneg; lia). nia. }
  destruct (Z.pos mx - 2 ^ 52) as [|M|M] eqn:HM; [done| |lia]. cbn [binary_normalize].
  apply (round_difference m M e); lia.
Qed.

(** ** Minimum, durations and waiting times *)

(** The lesser of a non-negative float, possibly none or infinite, and a proper
    one. *)
Lemma min_proper x b :
  nonneg x -> valid x -> proper b -> proper (F64.min x b) /\ units (F64.min x b) <= units b.
Proof.
  intros Nx Vx Hb. unfold F64.min. destruct (F64.is_nan x) eqn:Hn; [done|].
  assert (F64.is_nan b = false) as -> by (destruct Hb as [Hb _]; by destruct b).
  destruct (F64.is_finite x) eqn:Hf.
  - assert (Hx : proper x) by done. rewrite lt_units by done.
    destruct (units b <? units x) eqn:Hlt; bool_to_prop; split; done || lia.
  - destruct x as [?|s| |? ? ?]; try done. simpl in Nx. subst s.
    assert (F64.lt b (S754_infinity false) = true) as -> by (destruct Hb as [Hb _]; by destruct b as [[]|?| |[] ? ?]).
    done.
Qed.

Lemma min_id x b : proper x -> proper b -> units x <= units b -> F64.min x b = x.
Proof.
  intros Hx Hb Hle. unfold F64.min. assert (F64.is_nan x = false) as -> by (destruct Hx as [Hx _]; by destruct x).
  assert (F64.is_nan b = false) as -> by (destruct Hb as [Hb _]; by destruct b).
  by rewrite lt_units, (proj2 (Z.ltb_ge _ _)).
Qed.

Lemma digits_of_Z z : 0 < z < 2 ^ 53 -> exists m e, F64.of_Z z = S754_finite false m e /\ canonical m e /\
  digits m + e = Z.log2 z + 1.
Proof.
  intros Hz. destruct z as [|m|m]; [lia| |lia]. unfold F64.of_Z, binary_normalize.
  assert (Hd : digits m <= 53) by (apply digits_le; lia). pose proof (digits_pos m).
  destruct (binary_round_exact m 0 (Z.max (digits m + 0 - 53) (-1074))) as (m' & -> & Hc & Hv); [done|lia|left; lia|].
  eexists _, _. split; [done|]. split; [done|]. rewrite Z.max_l in * by lia.
  rewrite Z.min_l, Z.sub_diag, Z.mul_1_r in Hv by lia.
  rewrite (digits_shift m (0 - (digits m + 0 - 53)) m') by lia. unfold digits in *. rewrite digits_log in *. lia.
Qed.

Lemma secs_of_nanos_nonneg n : 0 <= n -> nonneg (F64.secs_of_nanos n) /\ valid (F64.secs_of_nanos n).
Proof.
  intros Hn. unfold F64.secs_of_nanos.
  assert (Hs : nonneg (F64.of_Z (n / 1000000000)) /\ valid (F64.of_Z (n / 1000000000))).
  { pose proof (Z.div_pos n 1000000000 Hn ltac:(lia)). destruct (n / 1000000000) as [|q|q]; [done|apply round_nonneg|lia]. }
  assert (Hd : nonneg (F64.div (F64.of_Z (n mod 1000000000)) (F64.of_Z 1000000000)) /\
               valid (F64.div (F64.of_Z (n mod 1000000000)) (F64.of_Z 1000000000))).
  { pose proof (Z.mod_pos_bound n 1000000000 ltac:(lia)) as Hr.
    destruct (decide (n mod 1000000000 = 0)) as [->|Hz]; [by vm_compute|].
    destruct (digits_of_Z (n mod 1000000000)) as (m & e & -> & _ & Hd); [lia|].
    destruct (digits_of_Z 1000000000) as (m' & e' & -> & _ & Hd'); [lia|]. apply div_nonneg.
    change (Z.log2 1000000000) with 29 in Hd'. pose proof (Z.log2_nonneg (n mod 1000000000)). lia. }
  destruct Hs, Hd. by apply add_nonneg.
Qed.

Lemma secs_of_nanos_0 : F64.secs_of_nanos 0 = F64.zero.
Proof. by vm_compute. Qed.

Lemma as_uint_of_Z max z : 1 <= max -> 1 <= z -> F64.lt (F64.of_Z z) F64.one = true \/ 1 <= F64.as_uint max (F64.of_Z z).
Proof.
  intros Hmax Hz. destruct z as [|m|m]; [lia| |lia]. unfold F64.of_Z, binary_normalize.
  destruct (Z.le_gt_cases (digits m) 53) as [Hd|Hd].
  - pose proof (digits_pos m).
    destruct (binary_round_exact m 0 (Z.max (digits m + 0 - 53) (-1074))) as (m' & -> & Hc & Hv); [done|lia|left; lia|].
    right. rewrite Z.max_l in * by lia. rewrite Z.min_l, Z.sub_diag, Z.mul_1_r in Hv by lia.
    cbn [F64.as_uint]. apply Z.min_glb; [done|]. destruct (0 <=? digits m + 0 - 53) eqn:He; bool_to_prop.
    + assert (0 < 2 ^ (digits m + 0 - 53)) by (apply Z.pow_pos_nonneg; lia). nia.
    + rewrite Hv. replace (0 - (digits m + 0 - 53)) with (- (digits m + 0 - 53)) by lia.
      rewrite Z.div_mul; [lia|]. apply Z.pow_nonzero; lia.
  - pose proof (binary_round_valid false m 0) as H. destruct (binary_round _ _ _ _ _) as [s|s| |s m' e']; try done.
    + by left.
    + subst s. by right.
    + right. destruct H as (-> & _ & He). cbn [F64.as_uint]. apply Z.min_glb; [done|].
      rewrite (proj2 (Z.leb_le 0 e')) by lia. assert (0 < 2 ^ e') by (apply Z.pow_pos_nonneg; lia). nia.
Qed.

(** A wait is never rounded to nothing. *)
Lemma ceil_at_least_one max y : 1 <= max -> 1 <= F64.as_uint max (F64.max (F64.ceil y) F64.one).
Proof.
  intros Hmax. assert (Hone : 1 <= F64.as_uint max F64.one).
  { cbn [F64.as_uint F64.one]. apply Z.min_glb; [done|]. by vm_compute. }
  assert (H : forall c, F64.lt c F64.one = true \/ F64.is_nan c = true \/ 1 <= F64.as_uint max c ->
            1 <= F64.as_uint max (F64.max c F64.one)).
  { intros c Hc. unfold F64.max. destruct (F64.is_nan c) eqn:Hn; [done|]. cbn [F64.is_nan F64.one].
    destruct (F64.lt c F64.one) eqn:Hl; [done|]. by destruct Hc as [?|[?|?]]. }
  apply H. destruct y as [s|[]| |s m e]; cbn [F64.ceil]; try (by left); try (by right; left); [by right; right|].
  destruct (0 <=? e) eqn:He; bool_to_prop.
  - destruct s; [by left|]. right. right. cbn [F64.as_uint]. apply Z.min_glb; [done|].
    rewrite (proj2 (Z.leb_le 0 e)) by done. assert (0 < 2 ^ e) by (apply Z.pow_pos_nonneg; lia). nia.
  - assert (Hp : 0 < 2 ^ (- e)) by (apply Z.pow_pos_nonneg; lia).
    assert (Hq : 0 <= Z.pos m / 2 ^ (- e)) by (apply Z.div_pos; lia). destruct s.
    + destruct (Z.pos m / 2 ^ (- e)) as [|q|q]; [by left| |lia]. left.
      change (F64.of_Z (- Z.pos q)) with (binary_round F64.PREC F64.EMAX true q 0).
      pose proof (binary_round_valid true q 0) as Hv.
      destruct (binary_round _ _ _ _ _) as [s|s| |s ? ?]; [by subst|by subst|done|]. by destruct Hv as [-> _].
    + destruct (Z.eqb_spec (Z.pos m mod 2 ^ (- e)) 0) as [Hz|Hz].
      * destruct (as_uint_of_Z max (Z.pos m / 2 ^ (- e))); [done| |by left|by right; right].
        pose proof (Z.div_mod (Z.pos m) (2 ^ (- e)) ltac:(lia)). nia.
      * destruct (as_uint_of_Z max (Z.pos m / 2 ^ (- e) + 1)); [done|lia|by left|by right; right].
Qed.

Lemma as_uint_range max x : 0 <= max -> 0 <= F64.as_uint max x <= max.
Proof.
  intros Hm. destruct x as [?|[]| |[] m e]; cbn [F64.as_uint]; try lia.
  assert (0 <= (if 0 <=? e then Z.pos m * 2 ^ e else Z.pos m / 2 ^ (- e))); [|lia].
  destruct (0 <=? e) eqn:He; bool_to_prop.
  - apply Z.mul_nonneg_nonneg; [lia|apply Z.pow_nonneg; lia].
  - apply Z.div_pos; [lia|apply Z.pow_pos_nonneg; lia].
Qed.
