(* ===== verification/Billing.v ===== *)
(** * Billing ([crates/control-plane/src/billing.rs])

    Plan tiers, dunning, the billing store with its in-memory implementation,
    the Stripe client over an HTTP transport, magic-link signup, and the Stripe
    webhook with its signature check. SHA-256, HMAC, JSON, HTTP, random bytes,
    clock readings and the environment are arguments; log output is not
    modelled. A handler's [await]s are not visible in its definition: it runs
    from beginning to end. *)

From Stdlib Require Import Ascii String.
From stdpp Require Import strings pretty.
From S2P Require Import Prelude Io Str VmCore ApiError Auth Metrics Time.

Local Open Scope string_scope.
Local Open Scope Z_scope.

(** ** Strings *)

(** [s.parse::<i64>()] *)
Definition parse_i64 (s : string) : option Z :=
  match s with
  | "" => None
  | String c rest =>
      if Ascii.eqb c "-" then (if String.eqb rest "" then None else Z.opp <$> parse_digits (2 ^ 63) 0 rest)
      else parse_uint (2 ^ 63 - 1) s
  end.

(** [a < b] on [str], byte by byte. *)
Definition str_lt (a b : string) : bool :=
  match String.compare a b with Lt => true | _ => false end.

Definition HEX : string := "0123456789abcdef".

Definition hex_digit (n : Z) : ascii := default "0"%char (String.get (Z.to_nat n) HEX).

Fixpoint hex_encode (bs : bytes) : string :=
  match bs with
  | [] => ""
  | b :: bs => String (hex_digit (u8_of b / 16)) (String (hex_digit (u8_of b mod 16)) (hex_encode bs))
  end.

(** ** Request and response bodies *)

Module SignupRequest.
Record t : Type := mk { email : string; org : string }.
End SignupRequest.

Module SignupResponse.
Record t : Type := mk { org : string; api_key : string; stripe_customer_id : string }.
End SignupResponse.

Module SignupRequestRequest.
Record t : Type := mk { email : string; org : string }.
End SignupRequestRequest.

(** The [SignupRequestResponse], a constant. *)
Definition OPAQUE : string := "If that address is eligible, a verification link has been sent.".

Module SignupVerifyRequest.
Record t : Type := mk { token : string }.
End SignupVerifyRequest.

(** ** Plan tiers *)

Module PlanTier.
Record t : Type := mk { name : string; rps : Z }.
End PlanTier.

Module PlanTiers.
Record t : Type := mk { by_price_id : gmap string PlanTier.t }.

Definition add_entry (tiers : gmap string PlanTier.t) (entry : string) : gmap string PlanTier.t :=
  let entry := trim entry in
  if String.eqb entry "" then tiers
  else match split_once "=" entry with
  | None => tiers
  | Some (price_id, tail) =>
      match split_once ":" tail with
      | None => tiers
      | Some (name, rps) =>
          match parse_uint (2 ^ 32 - 1) (trim rps) with
          | None => tiers
          | Some rps =>
              let price_id := trim price_id in
              let name := trim name in
              if String.eqb price_id "" || String.eqb name "" then tiers
              else <[price_id := PlanTier.mk name rps]> tiers
          end
      end
  end.

Definition parse (raw : string) : t := mk (foldl add_entry ∅ (split "," raw)).
Definition from_env (var : option string) : t := parse (default "" var).
Definition len (ts : t) : Z := Z.of_nat (size (by_price_id ts)).
Definition is_empty (ts : t) : bool := bool_decide (by_price_id ts = ∅).
Definition get (ts : t) (price_id : string) : option PlanTier.t := by_price_id ts !! price_id.
End PlanTiers.

(** ** The store *)

Module SubscriptionState.
Record t : Type := mk {
  subscription_id : string;
  status : string;
  price_id : option string;
  subscription_item_id : option string;
  updated_at : string;
}.
End SubscriptionState.

Module PendingSignup.
Record t : Type := mk {
  token_hash : string;
  email : string;
  org_name : string;
  created_at : string;
  expires_at : string;
}.
End PendingSignup.

Inductive BillingStoreError : Type := StoreBackend (message : string).

Class BillingStore (B : Type) := {
  record_customer : OrgId -> string -> SM B BillingStoreError unit;
  get_customer : B -> OrgId -> option string;
  record_subscription : string -> SubscriptionState.t -> SM B BillingStoreError unit;
  get_subscription : B -> string -> option SubscriptionState.t;
  org_by_customer : B -> string -> option OrgId;
  record_pending_signup : PendingSignup.t -> SM B BillingStoreError unit;
  take_pending_signup : string -> string -> B -> option PendingSignup.t * B;
  peek_pending_signup : B -> string -> string -> option PendingSignup.t;
  delete_pending_signup : string -> SM B BillingStoreError unit;
  gc_expired_signups : string -> SM B BillingStoreError Z;
}.

Module InMemoryBillingStore.
Record t : Type := mk {
  map : gmap OrgId string;
  subs : gmap string SubscriptionState.t;
  pending : gmap string PendingSignup.t;
}.

Definition default : t := mk ∅ ∅ ∅.

Section Ops.
Variable debug_str : string -> string.

Definition expired (now : string) (p : PendingSignup.t) : bool := str_lt (PendingSignup.expires_at p) now.

Definition record_customer (org : OrgId) (customer_id : string) : SM t BillingStoreError unit := fun b =>
  (Ok tt, mk (<[org := customer_id]> (map b)) (subs b) (pending b)).

Definition get_customer (b : t) (org : OrgId) : option string := map b !! org.

Definition has_customer (b : t) (customer_id : string) : bool :=
  existsb (fun '(_, cid) => String.eqb cid customer_id) (map_to_list (map b)).

Definition record_subscription (customer_id : string) (state : SubscriptionState.t) :
    SM t BillingStoreError unit := fun b =>
  if negb (has_customer b customer_id) then
    (Err (StoreBackend ("record_subscription: no customer recorded for customer_id=" +:+ debug_str customer_id)), b)
  else (Ok tt, mk (map b) (<[customer_id := state]> (subs b)) (pending b)).

Definition get_subscription (b : t) (customer_id : string) : option SubscriptionState.t := subs b !! customer_id.

(** Any one of the organisations with this customer. *)
Definition org_by_customer (b : t) (customer_id : string) : option OrgId :=
  fst <$> list_find_val (fun '(_, cid) => String.eqb cid customer_id) (map_to_list (map b)).

Definition record_pending_signup (signup : PendingSignup.t) : SM t BillingStoreError unit := fun b =>
  let kept := filter (fun '(_, s) => PendingSignup.email s <> PendingSignup.email signup) (pending b) in
  (Ok tt, mk (map b) (subs b) (<[PendingSignup.token_hash signup := signup]> kept)).

Definition take_pending_signup (token_hash now : string) (b : t) : option PendingSignup.t * t :=
  match pending b !! token_hash with
  | None => (None, b)
  | Some entry =>
      let b := mk (map b) (subs b) (delete token_hash (pending b)) in
      (if expired now entry then None else Some entry, b)
  end.

Definition peek_pending_signup (b : t) (token_hash now : string) : option PendingSignup.t :=
  match pending b !! token_hash with
  | None => None
  | Some entry => if expired now entry then None else Some entry
  end.

Definition delete_pending_signup (token_hash : string) : SM t BillingStoreError unit := fun b =>
  (Ok tt, mk (map b) (subs b) (delete token_hash (pending b))).

Definition gc_expired_signups (now : string) : SM t BillingStoreError Z := fun b =>
  let kept := filter (fun '(_, s) => expired now s = false) (pending b) in
  (Ok (Z.of_nat (size (pending b)) - Z.of_nat (size kept)), mk (map b) (subs b) kept).

Definition in_memory : BillingStore t := {|
  Billing.record_customer := record_customer;
  Billing.get_customer := get_customer;
  Billing.record_subscription := record_subscription;
  Billing.get_subscription := get_subscription;
  Billing.org_by_customer := org_by_customer;
  Billing.record_pending_signup := record_pending_signup;
  Billing.take_pending_signup := take_pending_signup;
  Billing.peek_pending_signup := peek_pending_signup;
  Billing.delete_pending_signup := delete_pending_signup;
  Billing.gc_expired_signups := gc_expired_signups;
|}.
End Ops.
End InMemoryBillingStore.

(** ** Plan and dunning *)

Module PlanResponse.
Record t : Type := mk {
  plan : option PlanTier.t;
  subscription_status : option string;
  price_id : option string;
}.
End PlanResponse.

Definition DUNNING_GRACE_ENV : string := "NANOVM_DUNNING_GRACE_HOURS".
Definition DEFAULT_DUNNING_GRACE_HOURS : Z := 72.
Definition DELINQUENT_STATUSES : list string := ["past_due"; "unpaid"; "canceled"].

Module DunningVerdict.
Record t : Type := mk { status : string; updated_at : string; grace_hours : Z }.
End DunningVerdict.

Definition i64_max : Z := 2 ^ 63 - 1.

Definition saturating_i64 (z : Z) : Z := Z.max (- 2 ^ 63) (Z.min i64_max z).

(** [i64::try_from(grace_hours).unwrap_or(i64::MAX).saturating_mul(3600)] *)
Definition grace_secs (grace_hours : Z) : Z :=
  saturating_i64 ((if grace_hours <=? i64_max then grace_hours else i64_max) * 3600).

Section Plan.
Context {B : Type} `{!BillingStore B}.

(** [now_secs] and [now_millis] are the wall clock. *)
Definition check_dunning (store : B) (org : OrgId) (grace_hours now_secs now_millis : Z) :
    result DunningVerdict.t unit :=
  match get_customer store org with
  | None => Ok tt
  | Some customer_id =>
      match get_subscription store customer_id with
      | None => Ok tt
      | Some sub =>
          if negb (existsb (String.eqb (SubscriptionState.status sub)) DELINQUENT_STATUSES) then Ok tt
          else
            let boundary := rfc3339_offset now_secs now_millis (- grace_secs grace_hours) in
            if negb (str_lt (SubscriptionState.updated_at sub) boundary) then Ok tt
            else Err (DunningVerdict.mk (SubscriptionState.status sub) (SubscriptionState.updated_at sub) grace_hours)
      end
  end.

Definition parse_dunning_grace_hours (raw : option string) : Z :=
  match raw with
  | Some v =>
      match parse_uint (2 ^ 64 - 1) (trim v) with
      | Some n => n
      | None => DEFAULT_DUNNING_GRACE_HOURS
      end
  | None => DEFAULT_DUNNING_GRACE_HOURS
  end.

Definition dunning_grace_hours (env : string -> option string) : Z :=
  parse_dunning_grace_hours (env DUNNING_GRACE_ENV).

Definition resolve_plan (tiers : PlanTiers.t) (store : B) (org : OrgId) : PlanResponse.t :=
  match get_customer store org with
  | None => PlanResponse.mk None None None
  | Some cid =>
      match get_subscription store cid with
      | None => PlanResponse.mk None None None
      | Some sub =>
          PlanResponse.mk (SubscriptionState.price_id sub ≫= PlanTiers.get tiers)
            (Some (SubscriptionState.status sub)) (SubscriptionState.price_id sub)
      end
  end.
End Plan.

(** ** Configuration *)

Module BillingConfig.
Record t : Type := mk {
  stripe_secret_key : string;
  portal_return_url : string;
  signup_token : string;
  webhook_signing_secret : option string;
  signup_verify_url : string;
  signup_token_ttl_secs : Z;
}.

Definition non_empty (s : string) : option string := if String.eqb s "" then None else Some s.

Definition from_env (env : string -> option string) : option t :=
  key ← env "STRIPE_SECRET_KEY";
  url ← env "STRIPE_BILLING_PORTAL_RETURN_URL";
  token ← env "NANOVM_SIGNUP_TOKEN";
  Some (mk key url token
    (env "STRIPE_WEBHOOK_SIGNING_SECRET" ≫= non_empty)
    (default "http://localhost:3000/signup/verify" (env "NANOVM_SIGNUP_VERIFY_URL" ≫= non_empty))
    (default 900 (s ← env "NANOVM_SIGNUP_TOKEN_TTL_SECS"; v ← parse_i64 s; if 0 <? v then Some v else None))).
End BillingConfig.

Inductive BillingError : Type :=
| Disabled
| BadSignupToken
| InvalidOrg
| InvalidSignupToken
| NoCustomerForOrg (org : string)
| StripeApi (status : Z) (message : string)
| StripeTransport (message : string)
| StoreFailed (e : BillingStoreError).

Definition display_store_error (e : BillingStoreError) : string :=
  match e with StoreBackend m => "billing store backend error: " +:+ m end.

(** ** HTTP and the Stripe client *)

Inductive HttpAuth : Type := BasicAuth (user password : string) | BearerAuth (token : string).

Inductive HttpBody : Type :=
| Form (fields : list (string * string))
| EmailJson (from : string) (to : list string) (subject html text : string).

Module HttpRequest.
Record t : Type := mk {
  url : string;
  auth : HttpAuth;
  idempotency_key : option string;
  body : HttpBody;
}.
End HttpRequest.

(** The status and, once read, the body. *)
Module HttpResponse.
Record t : Type := mk { status : Z; body : result string bytes }.
End HttpResponse.

(** [reqwest]: a POST, whose failure is the error's text. *)
Class Http (X : Type) := { http_post : HttpRequest.t -> SM X string HttpResponse.t }.

Definition is_success (status : Z) : bool := (200 <=? status) && (status <=? 299).

Module StripeCustomer.
Record t : Type := mk { id : string; email : option string }.
End StripeCustomer.
Module PortalSession.
Record t : Type := mk { url : string }.
End PortalSession.
Module UsageRecord.
Record t : Type := mk { id : string }.
End UsageRecord.
(** The error envelope, [{"error": {"message": ...}}]. *)
Module Envelope.
Record t : Type := mk { message : string }.
End Envelope.

Module StripeClient.
Record t : Type := mk { secret_key : string; base_url : string }.
Definition with_base (secret_key base : string) : t := mk secret_key base.
Definition new (secret_key : string) : t := with_base secret_key "https://api.stripe.com".
End StripeClient.

Section Client.
Context {JE X : Type} `{!Http X, !Serde JE Envelope.t}.
Variable display_json : JE -> string.

Definition extract_error_message (bs : bytes) : option string :=
  match from_json (T := Envelope.t) bs with Ok e => Some (Envelope.message e) | Err _ => None end.

Definition parse_stripe_response {T} `{!Serde JE T} (resp : HttpResponse.t) : result BillingError T :=
  bs ← map_err StripeTransport (HttpResponse.body resp);
  if is_success (HttpResponse.status resp)
  then map_err (fun e => StripeTransport (display_json e)) (from_json bs)
  else Err (StripeApi (HttpResponse.status resp) (default (from_utf8_lossy bs) (extract_error_message bs))).

Definition post (request : HttpRequest.t) : SM X BillingError HttpResponse.t := fun x =>
  let (r, x) := http_post request x in (map_err StripeTransport r, x).

Definition stripe_call {T} `{!Serde JE T} (request : HttpRequest.t) : SM X BillingError T :=
  resp ← post request; sm_lift (parse_stripe_response resp).

Definition create_customer `{!Serde JE StripeCustomer.t} (c : StripeClient.t)
    (email name org_slug idempotency_key : string) : SM X BillingError StripeCustomer.t :=
  stripe_call (HttpRequest.mk (StripeClient.base_url c +:+ "/v1/customers")
    (BasicAuth (StripeClient.secret_key c) "") (Some idempotency_key)
    (Form [("email", email); ("name", name); ("metadata[org_id]", org_slug)])).

Definition create_billing_portal_session `{!Serde JE PortalSession.t} (c : StripeClient.t)
    (customer_id return_url : string) : SM X BillingError PortalSession.t :=
  stripe_call (HttpRequest.mk (StripeClient.base_url c +:+ "/v1/billing_portal/sessions")
    (BasicAuth (StripeClient.secret_key c) "") None
    (Form [("customer", customer_id); ("return_url", return_url)])).

Definition report_usage_record `{!Serde JE UsageRecord.t} (c : StripeClient.t)
    (subscription_item_id : string) (quantity timestamp : Z) (idempotency_key : string) :
    SM X BillingError UsageRecord.t :=
  stripe_call (HttpRequest.mk
    (StripeClient.base_url c +:+ "/v1/subscription_items/" +:+ subscription_item_id +:+ "/usage_records")
    (BasicAuth (StripeClient.secret_key c) "") (Some idempotency_key)
    (Form [("quantity", pretty quantity); ("timestamp", pretty timestamp); ("action", "increment")])).
End Client.

(** ** Email *)

Inductive EmailError : Type :=
| EmailTransport (message : string)
| EmailProvider (status : Z) (message : string).

(** [EmailSender]: an implementation and the network it uses. *)
Class EmailSender (M X : Type) := {
  send_magic_link : M -> string -> string -> SM X EmailError unit;
}.

Module LogEmailSender.
Record t : Type := mk {}.
Definition send_magic_link {X} (_ : t) (_ _ : string) : SM X EmailError unit := mret tt.
#[global] Instance log_sender {X} : EmailSender t X := { send_magic_link := send_magic_link }.
End LogEmailSender.

Module ResendEmailSender.
Record t : Type := mk { api_key : string; from : string }.

Definition html (verify_url : string) : string :=
  "<p>Someone (hopefully you) started a signup for this address at nanovm.</p>" +:+
  "<p><a href=" +:+ Metrics.quoted verify_url +:+
  ">Click here to verify and finish setting up your account</a>.</p>" +:+
  "<p>This link expires in 15 minutes. If you didn't request it, ignore this email.</p>".

Definition text (verify_url : string) : string :=
  "Someone (hopefully you) started a signup for this address at nanovm." +:+ Metrics.line "" +:+ Metrics.line "" +:+
  "Verify: " +:+ verify_url +:+ Metrics.line "" +:+ Metrics.line "" +:+
  "This link expires in 15 minutes. If you didn't request it, ignore this email.".

Definition send_magic_link {JE X} `{!Http X, !Serde JE Envelope.t} (m : t) (to verify_url : string) :
    SM X EmailError unit := fun x =>
  let request := HttpRequest.mk "https://api.resend.com/emails" (BearerAuth (api_key m)) None
    (EmailJson (from m) [to] "Verify your nanovm signup" (html verify_url) (text verify_url)) in
  match http_post request x with
  | (Err e, x) => (Err (EmailTransport e), x)
  | (Ok resp, x) =>
      if is_success (HttpResponse.status resp) then (Ok tt, x)
      else match HttpResponse.body resp with
      | Err e => (Err (EmailTransport e), x)
      | Ok bs =>
          (Err (EmailProvider (HttpResponse.status resp)
                  (default (from_utf8_lossy bs) (extract_error_message (JE := JE) bs))), x)
      end
  end.
End ResendEmailSender.

(** ** Signup *)

Definition ALPHA : string := "ABCDEFGHIJKLMNOPQRSTUVWXYZabcdefghijklmnopqrstuvwxyz0123456789-_".

Definition alpha (n : Z) : ascii := default "A"%char (String.get (Z.to_nat n) ALPHA).

(** Three bytes at a time; the 24 random bytes are eight such chunks. *)
Fixpoint mint_signup_token (buf : bytes) : string :=
  match buf with
  | a :: b :: c :: buf =>
      let a := u8_of a in
      let b := u8_of b in
      let c := u8_of c in
      String (alpha (Z.shiftr a 2))
        (String (alpha (Z.lor (Z.shiftl (Z.land a 3) 4) (Z.shiftr b 4)))
          (String (alpha (Z.lor (Z.shiftl (Z.land b 15) 2) (Z.shiftr c 6)))
            (String (alpha (Z.land c 63)) (mint_signup_token buf))))
  | _ => ""
  end.

(** [char::is_ascii_alphanumeric] *)
Definition is_ascii_alphanumeric (c : ascii) : bool :=
  between_n 48 (code c) 57 || between_n 65 (code c) 90 || between_n 97 (code c) 122.

(** The loop of [slugify]: the result so far is [out], reversed. A character
    outside ASCII is several bytes here and one there, with the same effect: a
    dash, unless one was just written. *)
Fixpoint slug_loop (s : string) (prev_dash : bool) (out : list ascii) : list ascii :=
  match s with
  | "" => out
  | String ch s =>
      let lower := ascii_lower ch in
      if is_ascii_alphanumeric lower then slug_loop s false (lower :: out)
      else if negb prev_dash then slug_loop s true ("-"%char :: out)
      else slug_loop s prev_dash out
  end.

Fixpoint pop_dashes (out : list ascii) : list ascii :=
  match out with
  | c :: out' => if Ascii.eqb c "-" then pop_dashes out' else out
  | [] => []
  end.

Definition slugify (input : string) : string :=
  string_of_list_ascii (rev (pop_dashes (slug_loop input true []))).

(** [diff |= x ^ y] over the pairs of bytes. *)
Definition fold_diff (a b : bytes) : Z :=
  foldl (fun diff '(x, y) => Z.lor diff (Z.lxor (u8_of x) (u8_of y))) 0 (zip a b).

Definition constant_time_eq_bytes (a b : bytes) : bool :=
  if negb (zlen a =? zlen b) then false else fold_diff a b =? 0.

Definition constant_time_eq_hex (a b : string) : bool :=
  constant_time_eq_bytes (bytes_of_string a) (bytes_of_string b).

(** What the billing handlers reach. *)
Module World.
Record t (B X W : Type) : Type := mk { store : B; net : X; tokens : ApiTokens.t; disk : W }.
Arguments mk {B X W}.
Arguments store {B X W}.
Arguments net {B X W}.
Arguments tokens {B X W}.
Arguments disk {B X W}.
End World.

(** The outside of one call: the wall clock and the random bytes it draws. *)
Module Ambient.
Record t : Type := mk {
  now_secs : Z;
  now_millis : Z;
  signup_random : bytes;
  token_random : bytes;
  id_random : bytes;
}.
End Ambient.

(** Where a verification is: it waits for Stripe after its first look at the
    pending row, and other requests run between any two of its steps. *)
Module VerifyTask.
Inductive t : Type :=
| Peek
| CallStripe (pending : PendingSignup.t)
| RecordCustomer (org_slug : string) (customer : StripeCustomer.t)
| DeletePending (org_slug : string) (customer : StripeCustomer.t)
| Mint (org_slug : string) (customer : StripeCustomer.t)
| Finished (r : result BillingError SignupResponse.t).
End VerifyTask.

Section Signup.
Context {JE TE B X W M : Type}.
Context `{!BillingStore B, !Http X, !EmailSender M X, !TokenDisk W}.
Context `{!Serde JE Envelope.t, !Serde JE StripeCustomer.t, !Serde JE PortalSession.t}.
Context `{!Serde TE (list PersistedToken.t)}.
Variable display_json : JE -> string.
Variable sha256 : bytes -> bytes.
Variable base64_url : bytes -> string.
Abbreviation BM := (SM (World.t B X W) BillingError).

Definition hash_signup_token (token : string) : string := hex_encode (sha256 (bytes_of_string token)).

Definition on_store {A} (c : SM B BillingStoreError A) : SM (World.t B X W) BillingStoreError A := fun s =>
  let (r, b) := c (World.store s) in (r, World.mk b (World.net s) (World.tokens s) (World.disk s)).

Definition on_net {E A} (c : SM X E A) : SM (World.t B X W) E A := fun s =>
  let (r, x) := c (World.net s) in (r, World.mk (World.store s) x (World.tokens s) (World.disk s)).

(** [tokens.issue(org)] *)
Definition issue_token (env : Ambient.t) (org : OrgId) : BM IssuedToken.t := fun s =>
  let now := rfc3339_now (Ambient.now_secs env) (Ambient.now_millis env) in
  let '(issued, ts, w) := ApiTokens.issue (JE := TE) base64_url (Ambient.token_random env) (Ambient.id_random env)
                            now org (World.tokens s) (World.disk s) in
  (Ok issued, World.mk (World.store s) (World.net s) ts w).

Definition signup_request (email : M) (verify_url_base : string) (ttl_secs : Z) (env : Ambient.t)
    (req : SignupRequestRequest.t) : BM string := fun s =>
  let email_addr := trim (SignupRequestRequest.email req) in
  let org_name := trim (SignupRequestRequest.org req) in
  if negb (has_char "@" email_addr) || String.eqb org_name "" then (Ok OPAQUE, s)
  else
    let token := mint_signup_token (Ambient.signup_random env) in
    let now := rfc3339_now (Ambient.now_secs env) (Ambient.now_millis env) in
    let expires_at := rfc3339_offset (Ambient.now_secs env) (Ambient.now_millis env) ttl_secs in
    let pending := PendingSignup.mk (hash_signup_token token) email_addr org_name now expires_at in
    match on_store (record_pending_signup pending) s with
    | (Err _, s) => (Ok OPAQUE, s)
    | (Ok _, s) =>
        let verify_url := verify_url_base +:+ "?token=" +:+ token in
        let (_, s) := on_net (send_magic_link email email_addr verify_url) s in
        (Ok OPAQUE, s)
    end.

Definition signup_verify (stripe : StripeClient.t) (env : Ambient.t) (req : SignupVerifyRequest.t) :
    BM SignupResponse.t :=
  let token_hash := hash_signup_token (SignupVerifyRequest.token req) in
  let now := rfc3339_now (Ambient.now_secs env) (Ambient.now_millis env) in
  found ← sm_gets (fun s => peek_pending_signup (World.store s) token_hash now);
  pending ← sm_lift (ok_or InvalidSignupToken found);
  let org_slug := slugify (PendingSignup.org_name pending) in
  if String.eqb org_slug "" then sm_fail InvalidOrg
  else
    customer ← on_net (create_customer display_json stripe (PendingSignup.email pending)
                         (PendingSignup.org_name pending) org_slug token_hash);
    recorded ← (fun s => let (r, s) := on_store (record_customer org_slug (StripeCustomer.id customer)) s in
                         (map_err StoreFailed r, s));
    (* a failure to delete is only logged *)
    _ ← (fun s => let (_, s) := on_store (delete_pending_signup token_hash) s in (Ok tt, s));
    issued ← issue_token env org_slug;
    mret (SignupResponse.mk org_slug (IssuedToken.token issued) (StripeCustomer.id customer)).

(** [signup_verify] step by step. *)
Definition verify_step (stripe : StripeClient.t) (env : Ambient.t) (token_hash : string) (t : VerifyTask.t)
    (s : World.t B X W) : VerifyTask.t * World.t B X W :=
  match t with
  | VerifyTask.Peek =>
      match peek_pending_signup (World.store s) token_hash (rfc3339_now (Ambient.now_secs env) (Ambient.now_millis env)) with
      | None => (VerifyTask.Finished (Err InvalidSignupToken), s)
      | Some pending =>
          if String.eqb (slugify (PendingSignup.org_name pending)) "" then (VerifyTask.Finished (Err InvalidOrg), s)
          else (VerifyTask.CallStripe pending, s)
      end
  | VerifyTask.CallStripe pending =>
      let org_slug := slugify (PendingSignup.org_name pending) in
      match on_net (create_customer display_json stripe (PendingSignup.email pending) (PendingSignup.org_name pending)
                      org_slug token_hash) s with
      | (Err e, s) => (VerifyTask.Finished (Err e), s)
      | (Ok customer, s) => (VerifyTask.RecordCustomer org_slug customer, s)
      end
  | VerifyTask.RecordCustomer org_slug customer =>
      match on_store (record_customer org_slug (StripeCustomer.id customer)) s with
      | (Err e, s) => (VerifyTask.Finished (Err (StoreFailed e)), s)
      | (Ok _, s) => (VerifyTask.DeletePending org_slug customer, s)
      end
  | VerifyTask.DeletePending org_slug customer =>
      let (_, s) := on_store (delete_pending_signup token_hash) s in (VerifyTask.Mint org_slug customer, s)
  | VerifyTask.Mint org_slug customer =>
      match issue_token env org_slug s with
      | (Err e, s) => (VerifyTask.Finished (Err e), s)
      | (Ok issued, s) =>
          (VerifyTask.Finished (Ok (SignupResponse.mk org_slug (IssuedToken.token issued) (StripeCustomer.id customer))), s)
      end
  | VerifyTask.Finished r => (VerifyTask.Finished r, s)
  end.

Definition signup (cfg : BillingConfig.t) (stripe : StripeClient.t) (env : Ambient.t) (bearer : option string)
    (req : SignupRequest.t) : BM SignupResponse.t :=
  let bearer_ok :=
    match bearer with
    | Some b => constant_time_eq_bytes (bytes_of_string b) (bytes_of_string (BillingConfig.signup_token cfg))
    | None => false
    end in
  if negb bearer_ok then sm_fail BadSignupToken
  else
    let org_slug := slugify (SignupRequest.org req) in
    if String.eqb org_slug "" then sm_fail InvalidOrg
    else
      customer ← on_net (create_customer display_json stripe (SignupRequest.email req) (SignupRequest.org req)
                           org_slug org_slug);
      recorded ← (fun s => let (r, s) := on_store (record_customer org_slug (StripeCustomer.id customer)) s in
                           (map_err StoreFailed r, s));
      issued ← issue_token env org_slug;
      mret (SignupResponse.mk org_slug (IssuedToken.token issued) (StripeCustomer.id customer)).

Definition billing_portal (cfg : BillingConfig.t) (stripe : StripeClient.t) (caller_org : OrgId) : BM string :=
  found ← sm_gets (fun s => get_customer (World.store s) caller_org);
  customer_id ← sm_lift (ok_or (NoCustomerForOrg caller_org) found);
  session ← on_net (create_billing_portal_session display_json stripe customer_id
                      (BillingConfig.portal_return_url cfg));
  mret (PortalSession.url session).
End Signup.

(** ** Webhooks *)

Inductive WebhookError : Type :=
| NotConfigured
| MissingHeader
| MalformedHeader
| StaleTimestamp (ts now tolerance_secs : Z)
| SignatureMismatch
| WebhookBadJson (message : string).

(** One part of the header; the state is the timestamp and the signatures so
    far. *)
Definition signature_part (acc : option Z * list string) (part : string) :
    result WebhookError (option Z * list string) :=
  match split_once "=" part with
  | None => Err MalformedHeader
  | Some (k, v) =>
      let k := trim k in
      if String.eqb k "t" then
        match parse_i64 (trim v) with
        | None => Err MalformedHeader
        | Some ts => Ok (Some ts, acc.2)
        end
      else if String.eqb k "v1" then Ok (acc.1, (acc.2 ++ [trim v])%list)
      else Ok acc
  end.

Fixpoint signature_parts (acc : option Z * list string) (parts : list string) :
    result WebhookError (option Z * list string) :=
  match parts with
  | [] => Ok acc
  | part :: parts => acc ← signature_part acc part; signature_parts acc parts
  end.

Definition parse_stripe_signature (header : string) : result WebhookError (Z * list string) :=
  '(timestamp, v1s) ← signature_parts (None, []) (split "," header);
  ts ← ok_or MalformedHeader timestamp;
  if bool_decide (v1s = []) then Err MalformedHeader else Ok (ts, v1s).

Definition signed_payload (ts : Z) (payload : bytes) : bytes :=
  (bytes_of_string (pretty ts) ++ bytes_of_string "." ++ payload)%list.

Section Webhook.
Variable hmac_sha256 : bytes -> bytes -> bytes.

Definition verify_webhook_signature (header : string) (payload : bytes) (secret : string)
    (now tolerance_secs : Z) : result WebhookError unit :=
  '(ts, v1s) ← parse_stripe_signature header;
  let skew := Z.abs (now - ts) in
  let tolerance := Z.max tolerance_secs 0 in
  if tolerance <? skew then Err (StaleTimestamp ts now tolerance_secs)
  else
    let computed := hex_encode (hmac_sha256 (bytes_of_string secret) (signed_payload ts payload)) in
    if existsb (constant_time_eq_hex computed) v1s then Ok tt else Err SignatureMismatch.
End Webhook.

(** [serde_json::Value], as far as it is inspected. *)
Class JsonValue (V : Type) := {
  json_get : V -> string -> option V;
  json_as_str : V -> option string;
  json_as_i64 : V -> option Z;
  json_as_array : V -> option (list V);
}.

Module StripeEvent.
Record t (V : Type) : Type := mk { id : string; event_type : string; data : option V }.
Arguments mk {V}.
Arguments id {V}.
Arguments event_type {V}.
Arguments data {V}.
End StripeEvent.

Module InvoiceObject.
Record t : Type := mk {
  invoice_id : string;
  customer_id : string;
  amount_paid : Z;
  amount_due : Z;
  hosted_invoice_url : option string;
}.
End InvoiceObject.

Section Events.
Context {V : Type} `{!JsonValue V}.

Definition str_field (o : V) (k : string) : option string := json_get o k ≫= json_as_str.

Definition event_object (event : StripeEvent.t V) : result string V :=
  data ← ok_or "event has no data" (StripeEvent.data event);
  ok_or "data.object missing" (json_get data "object").

Definition parse_invoice_object (event : StripeEvent.t V) : result string InvoiceObject.t :=
  object ← event_object event;
  customer_id ← ok_or "data.object.customer missing" (str_field object "customer");
  Ok (InvoiceObject.mk (default "<none>" (str_field object "id")) customer_id
        (default 0 (json_get object "amount_paid" ≫= json_as_i64))
        (default 0 (json_get object "amount_due" ≫= json_as_i64))
        (str_field object "hosted_invoice_url")).

(** [now] is [rfc3339_now()]. *)
Definition parse_subscription_object (now : string) (event : StripeEvent.t V) :
    result string (string * SubscriptionState.t) :=
  object ← event_object event;
  subscription_id ← ok_or "data.object.id missing" (str_field object "id");
  customer_id ← ok_or "data.object.customer missing" (str_field object "customer");
  status ← ok_or "data.object.status missing" (str_field object "status");
  let primary_item :=
    items ← json_get object "items"; data ← json_get items "data"; arr ← json_as_array data; head arr in
  let price_id := item ← primary_item; price ← json_get item "price"; str_field price "id" in
  let subscription_item_id := item ← primary_item; str_field item "id" in
  Ok (customer_id, SubscriptionState.mk subscription_id status price_id subscription_item_id now).

Definition SUBSCRIPTION_EVENTS : list string :=
  ["customer.subscription.created"; "customer.subscription.updated"; "customer.subscription.deleted"].

(** Invoices are only logged, and so is a store that refuses. *)
Definition route_webhook_event {B} `{!BillingStore B} (now : string) (event : StripeEvent.t V) (store : B) : B :=
  if existsb (String.eqb (StripeEvent.event_type event)) SUBSCRIPTION_EVENTS then
    match parse_subscription_object now event with
    | Ok (customer_id, state) => snd (record_subscription customer_id state store)
    | Err _ => store
    end
  else store.
End Events.

(** ** Handlers *)

Definition display_webhook_error (e : WebhookError) : string :=
  match e with
  | NotConfigured => "webhook signing secret not configured"
  | MissingHeader => "missing Stripe-Signature header"
  | MalformedHeader => "malformed Stripe-Signature header (expected `t=…,v1=…`)"
  | StaleTimestamp ts now tolerance_secs =>
      "timestamp " +:+ pretty ts +:+ " outside tolerance window (now=" +:+ pretty now +:+ ", tolerance="
      +:+ pretty tolerance_secs +:+ "s)"
  | SignatureMismatch => "signature mismatch"
  | WebhookBadJson m => "body is not valid JSON: " +:+ m
  end.

Definition webhook_to_api_error (e : WebhookError) : ApiError :=
  match e with
  | NotConfigured => ApiUnsupported "webhook_disabled" "STRIPE_WEBHOOK_SIGNING_SECRET not configured"
  | _ => Forbidden "invalid_signature" (display_webhook_error e)
  end.

Definition billing_to_api_error (debug_str : string -> string) (e : BillingError) : ApiError :=
  match e with
  | Disabled => ApiUnsupported "billing_disabled" "billing endpoints not configured"
  | BadSignupToken => Unauthorized "signup requires NANOVM_SIGNUP_TOKEN as the bearer"
  | InvalidOrg => Bad "org name must contain at least one alphanumeric character"
  | NoCustomerForOrg org =>
      NotFound "no_billing_customer" ("no Stripe customer recorded for org " +:+ debug_str org +:+ "; did you signup?")
  | StripeApi status _ =>
      if status =? 429 then
        TooManyRequests "billing_upstream_throttled" "Stripe rate-limited the request; retry shortly." 60
      else if (500 <=? status) && (status <=? 599) then
        InternalDyn "upstream billing provider is unavailable; try again shortly."
      else Bad "billing request was rejected by the upstream provider."
  | StripeTransport _ => InternalDyn "upstream billing provider is unreachable."
  | StoreFailed inner => InternalDyn (display_store_error inner)
  | InvalidSignupToken =>
      Bad "magic-link token is unknown or expired; request a fresh one via POST /v1/signup/request"
  end.

Module BillingCtx.
Record t (M : Type) : Type := mk {
  config : BillingConfig.t;
  stripe : StripeClient.t;
  tiers : PlanTiers.t;
  email : M;
}.
Arguments mk {M}.
Arguments config {M}.
Arguments stripe {M}.
Arguments tiers {M}.
Arguments email {M}.
End BillingCtx.

(** The state of the control plane as far as these handlers reach: the store is
    the context's, kept with the rest of what changes. *)
Module BillingState.
Record t (B X W M : Type) : Type := mk {
  billing : option (BillingCtx.t M);
  metrics : Metrics.t;
  world : World.t B X W;
}.
Arguments mk {B X W M}.
Arguments billing {B X W M}.
Arguments metrics {B X W M}.
Arguments world {B X W M}.
End BillingState.

Section Handlers.
Context {JE TE V B X W M : Type}.
Context `{!BillingStore B, !Http X, !EmailSender M X, !TokenDisk W, !JsonValue V}.
Context `{!Serde JE Envelope.t, !Serde JE StripeCustomer.t, !Serde JE PortalSession.t, !Serde JE (StripeEvent.t V)}.
Context `{!Serde TE (list PersistedToken.t)}.
Variable display_json : JE -> string.
Variable debug_str : string -> string.
Variable sha256 : bytes -> bytes.
Variable hmac_sha256 : bytes -> bytes -> bytes.
Variable base64_url : bytes -> string.
Abbreviation St := (BillingState.t B X W M).
Abbreviation AM := (SM St ApiError).

Definition billing_ctx (message : string) : AM (BillingCtx.t M) := fun s =>
  (ok_or (ApiUnsupported "billing_disabled" message) (BillingState.billing s), s).

Definition NEEDS_STRIPE : string := "billing endpoints require the `billing` feature + Stripe env vars".

Definition on_billing {A} (c : SM (World.t B X W) BillingError A) : AM A := fun s =>
  let (r, w) := c (BillingState.world s) in
  (map_err (billing_to_api_error debug_str) r, BillingState.mk (BillingState.billing s) (BillingState.metrics s) w).

(** The authorization header, when it is text. *)
Definition extract_bearer (authorization : option string) : option string :=
  authorization ≫= strip_str_prefix "Bearer ".

Definition signup_handler (env : Ambient.t) (authorization : option string)
    (body : result Rejection.t SignupRequest.t) : AM (Z * SignupResponse.t) :=
  ctx ← billing_ctx "billing endpoints require the `billing` feature + STRIPE_SECRET_KEY, STRIPE_BILLING_PORTAL_RETURN_URL, NANOVM_SIGNUP_TOKEN env vars";
  req ← sm_lift (map_err BadJson body);
  resp ← on_billing (signup (TE := TE) display_json base64_url (BillingCtx.config ctx) (BillingCtx.stripe ctx) env
                       (extract_bearer authorization) req);
  mret (201, resp).

Definition signup_request_handler (env : Ambient.t) (body : result Rejection.t SignupRequestRequest.t) :
    AM (Z * string) :=
  ctx ← billing_ctx NEEDS_STRIPE;
  match body with
  | Err _ => mret (202, OPAQUE)
  | Ok req =>
      resp ← on_billing (signup_request sha256 (BillingCtx.email ctx)
                           (BillingConfig.signup_verify_url (BillingCtx.config ctx))
                           (BillingConfig.signup_token_ttl_secs (BillingCtx.config ctx)) env req);
      mret (202, resp)
  end.

Definition signup_verify_handler (env : Ambient.t) (body : result Rejection.t SignupVerifyRequest.t) :
    AM (Z * SignupResponse.t) :=
  ctx ← billing_ctx NEEDS_STRIPE;
  req ← sm_lift (map_err BadJson body);
  resp ← on_billing (signup_verify (TE := TE) display_json sha256 base64_url (BillingCtx.stripe ctx) env req);
  mret (201, resp).

Definition billing_portal_handler (org : OrgId) (role : Role) : AM string :=
  _ ← sm_lift (require_role role Admin);
  ctx ← billing_ctx NEEDS_STRIPE;
  on_billing (billing_portal display_json (BillingCtx.config ctx) (BillingCtx.stripe ctx) org).

Definition plan_handler (org : OrgId) : AM PlanResponse.t :=
  ctx ← billing_ctx NEEDS_STRIPE;
  sm_gets (fun s => resolve_plan (BillingCtx.tiers ctx) (World.store (BillingState.world s)) org).

(** The header is absent, not text, or text. *)
Definition stripe_webhook_handler (now_secs now_millis : Z) (header : option (result unit string)) (body : bytes) :
    AM Z :=
  ctx ← billing_ctx NEEDS_STRIPE;
  secret ← sm_lift (ok_or (ApiUnsupported "webhook_disabled" "STRIPE_WEBHOOK_SIGNING_SECRET not configured")
                      (BillingConfig.webhook_signing_secret (BillingCtx.config ctx)));
  present ← sm_lift (ok_or (Bad "missing Stripe-Signature header") header);
  header ← sm_lift (map_err (fun _ => Bad "Stripe-Signature is not valid UTF-8") present);
  _ ← sm_lift (map_err webhook_to_api_error
                 (verify_webhook_signature hmac_sha256 header body secret (as_i64 now_secs) 300));
  event ← sm_lift (map_err (fun e => Bad ("webhook body is not valid JSON: " +:+ display_json e)) (from_json body));
  _ ← sm_modify (fun s : St => BillingState.mk (BillingState.billing s)
                   (Metrics.record_stripe_event (StripeEvent.event_type event) (BillingState.metrics s))
                   (BillingState.world s));
  _ ← sm_modify (fun s : St =>
        let w := BillingState.world s in
        BillingState.mk (BillingState.billing s) (BillingState.metrics s)
          (World.mk (route_webhook_event (rfc3339_now now_secs now_millis) event (World.store w))
             (World.net w) (World.tokens w) (World.disk w)));
  mret 200.

(** The fork routes' dunning check; [env] reads the environment. *)
Definition check_dunning_or_402 (env : string -> option string) (now_secs now_millis : Z) (org : OrgId) : AM unit :=
  fun s =>
  match BillingState.billing s with
  | None => (Ok tt, s)
  | Some _ =>
      match check_dunning (World.store (BillingState.world s)) org (dunning_grace_hours env) now_secs now_millis with
      | Ok _ => (Ok tt, s)
      | Err v =>
          (Err (PaymentRequired "subscription_delinquent"
                  ("subscription is " +:+ DunningVerdict.status v +:+ " (since " +:+ DunningVerdict.updated_at v +:+
                   ", past the " +:+ pretty (DunningVerdict.grace_hours v) +:+
                   "-hour grace window); resolve via the billing portal")
                  "/v1/billing/portal"),
           BillingState.mk (BillingState.billing s)
             (Metrics.record_dunning_block org (DunningVerdict.status v) (BillingState.metrics s))
             (BillingState.world s))
      end
  end.
End Handlers.
