(* ===== verification/BillingProps.v ===== *)
(** * Billing: webhooks, signup and dunning

    Theorems about [Billing]: the webhook acts on authentic and fresh events
    only, a magic link is worth one signup within its lifetime, dunning blocks
    exactly after the grace period, the in-memory store keeps its promises, and
    organisation names become well-formed slugs. *)

From Stdlib Require Import Ascii String.
From stdpp Require Import strings pretty.
From S2P Require Import Prelude Io Str VmCore ApiError Auth Metrics Time Billing.

Local Open Scope Z_scope.

(** ** Comparing in constant time *)

Lemma u8_of_inj a b : u8_of a = u8_of b -> a = b.
Proof.
  assert (Hle : forall b, from_le [b] = u8_of b)
    by (intros c; rewrite from_le_cons, from_le_nil, Z.shiftl_0_l; apply Z.lor_0_r).
  intros H. rewrite <- !Hle in H. apply (f_equal (to_le 1)) in H.
  rewrite !to_from_le in H by done. congruence.
Qed.

Lemma fold_diff_zero a b d :
  foldl (fun diff '(x, y) => Z.lor diff (Z.lxor (u8_of x) (u8_of y))) d (zip a b) = 0 <->
  d = 0 /\ Forall (fun '(x, y) => x = y) (zip a b).
Proof.
  generalize (zip a b) as l. intros l. revert d. induction l as [|[x y] l IH]; intros d; simpl.
  - split; [by intros ->|by intros [-> _]].
  - rewrite IH, Z.lor_eq_0_iff, Z.lxor_eq_0_iff, Forall_cons. split.
    + intros [[-> H%u8_of_inj] ?]. done.
    + intros (-> & -> & ?). done.
Qed.

Lemma zip_eq (a b : bytes) :
  length a = length b -> Forall (fun '(x, y) => x = y) (zip a b) <-> a = b.
Proof.
  revert b. induction a as [|x a IH]; intros [|y b]; try done. intros [= Hl]. simpl.
  rewrite Forall_cons, IH by done. split; [by intros [-> ->]|by intros [= -> ->]].
Qed.

Lemma constant_time_eq_bytes_spec a b : constant_time_eq_bytes a b = true <-> a = b.
Proof.
  unfold constant_time_eq_bytes, fold_diff. destruct (negb _) eqn:Hl.
  - split; [done|]. intros ->. by rewrite Z.eqb_refl in Hl.
  - apply negb_false_iff, Z.eqb_eq in Hl. unfold zlen in Hl.
    rewrite Z.eqb_eq, fold_diff_zero, zip_eq by lia. by split; [intros [_ ?]|].
Qed.

#[local] Instance byte_of_ascii_inj : Inj (=) (=) byte_of_ascii.
Proof. intros x y H. rewrite <- (ascii_of_byte_of_ascii x), <- (ascii_of_byte_of_ascii y). by rewrite H. Qed.

Lemma bytes_of_string_inj a b : bytes_of_string a = bytes_of_string b -> a = b.
Proof.
  unfold bytes_of_string. intros H. rewrite <- (string_of_list_ascii_of_string a), <- (string_of_list_ascii_of_string b).
  f_equal. by apply (inj (fmap byte_of_ascii)) in H.
Qed.

Lemma constant_time_eq_hex_spec a b : constant_time_eq_hex a b = true <-> a = b.
Proof.
  unfold constant_time_eq_hex. rewrite constant_time_eq_bytes_spec. split; [apply bytes_of_string_inj|by intros ->].
Qed.

Lemma existsb_constant_time c l : existsb (constant_time_eq_hex c) l = true <-> c ∈ l.
Proof.
  rewrite existsb_exists. split.
  - intros (x & Hx & H%constant_time_eq_hex_spec). subst. by apply list_elem_of_In.
  - intros H. exists c. split; [by apply list_elem_of_In|by apply constant_time_eq_hex_spec].
Qed.

(** ** Webhooks *)

(** The header signs the payload with the secret, close enough to [now]. *)
Definition authentic (hmac_sha256 : bytes -> bytes -> bytes) (secret header : string) (payload : bytes)
    (now tolerance : Z) : Prop :=
  exists ts v1s, parse_stripe_signature header = Ok (ts, v1s) /\ Z.abs (now - ts) <= Z.max tolerance 0 /\
    hex_encode (hmac_sha256 (bytes_of_string secret) (signed_payload ts payload)) ∈ v1s.

Lemma verify_webhook_signature_spec hmac header payload secret now tolerance :
  verify_webhook_signature hmac header payload secret now tolerance = Ok tt <->
  authentic hmac secret header payload now tolerance.
Proof.
  unfold verify_webhook_signature, authentic. destruct (parse_stripe_signature header) as [[ts v1s]|e]; simpl.
  - destruct (Z.max tolerance 0 <? Z.abs (now - ts)) eqn:Ht; bool_to_prop.
    + split; [done|]. intros (? & ? & [= <- <-] & ? & _). lia.
    + destruct (existsb _ v1s) eqn:He.
      * split; [|done]. intros _. exists ts, v1s. split_and!; [done|lia|]. by apply existsb_constant_time.
      * split; [done|]. intros (? & ? & [= <- <-] & _ & Hin). apply existsb_constant_time in Hin. congruence.
  - split; [done|]. by intros (? & ? & ? & _).
Qed.

(** ** What a store promises *)

Class BillingStoreLaws (B : Type) `{!BillingStore B} := {
  (** A recorded customer is found; no other organisation's is touched. *)
  customer_recorded b b' org cid o :
    record_customer org cid b = (Ok tt, b') ->
    get_customer b' o = if bool_decide (o = org) then Some cid else get_customer b o;
  customer_pending b b' r org cid h now :
    record_customer org cid b = (r, b') -> peek_pending_signup b' h now = peek_pending_signup b h now;
  (** A recorded subscription is found; the customers stay. *)
  subscription_recorded b b' cid st c :
    record_subscription cid st b = (Ok tt, b') ->
    get_subscription b' c = if bool_decide (c = cid) then Some st else get_subscription b c;
  subscription_customers b b' r cid st o :
    record_subscription cid st b = (r, b') -> get_customer b' o = get_customer b o;
  (** The fresh token wins; an expired row is treated as absent. *)
  pending_recorded b b' p now :
    record_pending_signup p b = (Ok tt, b') ->
    peek_pending_signup b' (PendingSignup.token_hash p) now =
      if str_lt (PendingSignup.expires_at p) now then None else Some p;
  (** Re-requesting invalidates the prior token of the same address. *)
  pending_replaced b b' p h now q :
    record_pending_signup p b = (Ok tt, b') -> peek_pending_signup b' h now = Some q ->
    q = p \/ PendingSignup.email q <> PendingSignup.email p /\ peek_pending_signup b h now = Some q;
  pending_deleted b b' h h' now :
    delete_pending_signup h b = (Ok tt, b') ->
    peek_pending_signup b' h' now = if bool_decide (h' = h) then None else peek_pending_signup b h' now;
  (** A delete, even one that fails, brings no row back. *)
  pending_not_added b b' r h h' now q :
    delete_pending_signup h b = (r, b') -> peek_pending_signup b' h' now = Some q -> peek_pending_signup b h' now = Some q;
  pending_deleted_customers b b' r h o :
    delete_pending_signup h b = (r, b') -> get_customer b' o = get_customer b o;
}.

Section InMemory.
Variable debug_str : string -> string.
Import InMemoryBillingStore.
#[local] Existing Instance in_memory.

Lemma has_customer_spec b cid : has_customer b cid = true <-> exists org, map b !! org = Some cid.
Proof.
  unfold has_customer. rewrite existsb_exists. split.
  - intros ([org c] & Hin & ->%String.eqb_eq). exists org. by apply elem_of_map_to_list, list_elem_of_In.
  - intros [org H]. exists (org, cid). split; [|apply String.eqb_refl].
    by apply list_elem_of_In, elem_of_map_to_list.
Qed.

#[global] Instance in_memory_laws : @BillingStoreLaws t (in_memory debug_str).
Proof.
  split; simpl.
  - intros b b' org cid o [= <-]. unfold get_customer. simpl. case_bool_decide as Ho.
    + subst. apply lookup_insert_eq.
    + by apply lookup_insert_ne.
  - by intros b b' r org cid h now [= <- <-].
  - intros b b' cid st c. unfold record_subscription. destruct (negb _); [done|]. intros [= <-].
    unfold get_subscription. simpl. case_bool_decide as Hc; [subst; apply lookup_insert_eq|by apply lookup_insert_ne].
  - intros b b' r cid st o. unfold record_subscription. by destruct (negb _); intros [= <- <-].
  - intros b b' p now [= <-]. unfold peek_pending_signup. simpl. by rewrite lookup_insert_eq.
  - intros b b' p h now q [= <-]. unfold peek_pending_signup. simpl.
    destruct (decide (h = PendingSignup.token_hash p)) as [->|Hh].
    + rewrite lookup_insert_eq. destruct (expired now p); [done|]. intros [= <-]. by left.
    + rewrite lookup_insert_ne by done. destruct (filter _ (pending b) !! h) as [e|] eqn:He; [|done].
      apply map_lookup_filter_Some in He as [He Hm]. rewrite He. destruct (expired now e); [done|].
      intros [= <-]. by right.
  - intros b b' h h' now [= <-]. unfold peek_pending_signup. simpl. case_bool_decide as Hh.
    + subst. by rewrite lookup_delete_eq.
    + by rewrite lookup_delete_ne.
  - intros b b' r h h' now q [= <- <-]. unfold peek_pending_signup. simpl.
    destruct (decide (h' = h)) as [->|Hh]; [by rewrite lookup_delete_eq|by rewrite lookup_delete_ne].
  - by intros b b' r h o [= <- <-].
Qed.
End InMemory.

(** ** Clock texts *)

Lemma str_lt_at secs millis secs' millis' :
  printable secs millis -> printable secs' millis' ->
  str_lt (rfc3339_at secs millis) (rfc3339_at secs' millis') = (secs * 1000 + millis <? secs' * 1000 + millis').
Proof.
  intros Hp Hp'. unfold str_lt. rewrite (proj1 (rfc3339_text_order _ _ _ _ Hp Hp')).
  destruct (Z.compare_spec (secs * 1000 + millis) (secs' * 1000 + millis')); symmetry; bool_to_prop; lia.
Qed.

Lemma printable_i64 secs millis : printable secs millis -> as_i64 secs = secs.
Proof.
  unfold printable, LAST_DAY, as_i64. intros [Hs _]. rewrite Z.mod_small by lia. lia.
Qed.

(** A clock reading moved by an offset, as long as it stays in the calendar. *)
Lemma rfc3339_offset_at secs millis off :
  printable secs millis -> printable (secs + off) millis ->
  rfc3339_offset secs millis off = rfc3339_at (secs + off) millis.
Proof.
  intros Hp [Ho _]. unfold rfc3339_offset. rewrite (printable_i64 _ _ Hp).
  unfold saturating_add_i64, LAST_DAY in *. rewrite Z.min_r, Z.max_r by lia.
  by rewrite (proj2 (Z.ltb_ge _ _)) by lia.
Qed.

Lemma rfc3339_now_at secs millis : printable secs millis -> rfc3339_now secs millis = rfc3339_at secs millis.
Proof.
  intros Hp. unfold rfc3339_now. rewrite rfc3339_offset_at; rewrite ?Z.add_0_r; done.
Qed.

(** Moving back past the epoch gives the epoch. *)
Lemma str_lt_back secs millis secs' millis' off :
  printable secs millis -> printable secs' millis' -> 0 <= off -> off <= i64_max ->
  str_lt (rfc3339_at secs millis) (rfc3339_offset secs' millis' (- off)) =
    (secs * 1000 + millis <? (secs' - off) * 1000 + millis').
Proof.
  intros Hp Hp' Ho Hm. unfold rfc3339_offset. rewrite (printable_i64 _ _ Hp').
  assert (Hs : saturating_add_i64 secs' (- off) = secs' - off).
  { destruct Hp' as [Hp' _]. unfold saturating_add_i64, i64_max, LAST_DAY in *. lia. }
  rewrite Hs. destruct (secs' - off <? 0) eqn:Hneg; bool_to_prop.
  - rewrite str_lt_at by (done || (unfold printable, LAST_DAY; lia)).
    destruct Hp as [? ?], Hp' as [? ?]. symmetry. bool_to_prop. lia.
  - apply str_lt_at; [done|]. destruct Hp' as [? ?]. split; lia.
Qed.

(** ** Dunning *)

Lemma grace_secs_range h : 0 <= h -> 0 <= grace_secs h <= i64_max.
Proof. unfold grace_secs, saturating_i64, i64_max. case_match; bool_to_prop; lia. Qed.

Lemma grace_secs_exact h : 0 <= h <= i64_max / 3600 -> grace_secs h = h * 3600.
Proof.
  unfold grace_secs, saturating_i64. intros Hh.
  assert (Hm : i64_max / 3600 = 2562047788015215) by reflexivity. rewrite Hm in Hh.
  rewrite (proj2 (Z.leb_le _ _)) by (unfold i64_max; lia). unfold i64_max. lia.
Qed.

Definition delinquent (st : SubscriptionState.t) : bool :=
  existsb (String.eqb (SubscriptionState.status st)) DELINQUENT_STATUSES.

Section Dunning.
Context {B : Type} `{!BillingStore B, !BillingStoreLaws B}.

Lemma check_dunning_spec (b : B) org cid st t0 m0 t1 m1 grace :
  get_customer b org = Some cid -> get_subscription b cid = Some st ->
  SubscriptionState.updated_at st = rfc3339_now t0 m0 ->
  printable t0 m0 -> printable t1 m1 -> 0 <= grace ->
  check_dunning b org grace t1 m1 =
    if delinquent st && (t0 * 1000 + m0 <? (t1 - grace_secs grace) * 1000 + m1)
    then Err (DunningVerdict.mk (SubscriptionState.status st) (rfc3339_now t0 m0) grace) else Ok tt.
Proof.
  intros Hc Hs Hu H0 H1 Hg. unfold check_dunning. rewrite Hc, Hs, Hu. fold (delinquent st).
  destruct (delinquent st); [|done]. cbn [negb andb].
  rewrite (rfc3339_now_at t0 m0) by done. pose proof (grace_secs_range grace Hg) as [? ?].
  rewrite str_lt_back by done. by destruct (_ <? _).
Qed.
End Dunning.

(** ** Signup *)

Section Signup.
Context {JE TE B X W M : Type}.
Context `{!BillingStore B, !BillingStoreLaws B, !Http X, !EmailSender M X, !TokenDisk W}.
Context `{!Serde JE Envelope.t, !Serde JE StripeCustomer.t, !Serde TE (list PersistedToken.t)}.
Variable display_json : JE -> string.
Variable sha256 : bytes -> bytes.
Variable base64_url : bytes -> string.
Implicit Types (s : World.t B X W) (m : M).






Abbreviation verify := (signup_verify (TE := TE) display_json sha256 base64_url).





(** *** Verifications that overlap *)

Abbreviation step := (verify_step (TE := TE) display_json base64_url).













End Signup.

(** ** Slugs *)

(** The automaton of [[a-z0-9]+(-[a-z0-9]+)*]: its state is whether a dash may
    not come next. *)
Definition slug_char (c : ascii) : bool := between_n 48 (code c) 57 || between_n 97 (code c) 122.

Definition slug_step (c : ascii) (no_dash : bool) : option bool :=
  if slug_char c then Some false
  else if Ascii.eqb c "-" && negb no_dash then Some true else None.

Fixpoint slug_scan (no_dash : bool) (l : list ascii) : option bool :=
  match l with
  | [] => Some no_dash
  | c :: l => q ← slug_step c no_dash; slug_scan q l
  end.

(** Words of lower-case letters and digits, separated by single dashes. *)
Definition is_slug (s : string) : Prop :=
  s = "" \/ slug_scan true (list_ascii_of_string s) = Some false.

Lemma slug_scan_app q l l' : slug_scan q (l ++ l') = slug_scan q l ≫= fun q => slug_scan q l'.
Proof.
  revert q. induction l as [|c l IH]; intros q; simpl; [done|]. destruct (slug_step c q); simpl; auto.
Qed.

(** The loop, front to back. *)
Fixpoint slug_chars (s : string) (prev_dash : bool) : list ascii :=
  match s with
  | "" => []
  | String ch s =>
      if is_ascii_alphanumeric (ascii_lower ch) then ascii_lower ch :: slug_chars s false
      else if prev_dash then slug_chars s true else "-"%char :: slug_chars s true
  end.

Lemma slug_loop_chars s prev out : slug_loop s prev out = (rev (slug_chars s prev) ++ out)%list.
Proof.
  revert prev out. induction s as [|ch s IH]; intros prev out; cbn [slug_loop slug_chars]; [done|].
  destruct (is_ascii_alphanumeric _); [|destruct prev]; cbn [negb]; rewrite IH; [|done|]; simpl;
    by rewrite <- app_assoc.
Qed.

Lemma lower_slug_char ch : is_ascii_alphanumeric (ascii_lower ch) = slug_char (ascii_lower ch).
Proof. by destruct ch as [[] [] [] [] [] [] [] []]. Qed.

Lemma slug_char_lower c : slug_char c = true -> ascii_lower c = c.
Proof. by destruct c as [[] [] [] [] [] [] [] []]. Qed.

Lemma slug_char_not_dash c : slug_char c = true -> Ascii.eqb c "-" = false.
Proof. by destruct c as [[] [] [] [] [] [] [] []]. Qed.

Lemma slug_chars_scan s prev : exists q, slug_scan prev (slug_chars s prev) = Some q.
Proof.
  revert prev. induction s as [|ch s IH]; intros prev; cbn [slug_chars]; [by eexists|].
  rewrite lower_slug_char. destruct (slug_char (ascii_lower ch)) eqn:Hc.
  - simpl. unfold slug_step. rewrite Hc. apply IH.
  - destruct prev; [apply IH|]. apply IH.
Qed.

Lemma slug_chars_id l q q' :
  slug_scan q l = Some q' -> slug_chars (string_of_list_ascii l) q = l.
Proof.
  revert q. induction l as [|c l IH]; intros q; simpl; [done|]. unfold slug_step.
  destruct (slug_char c) eqn:Hc; simpl.
  - intros H. rewrite slug_char_lower by done.
    rewrite <- (slug_char_lower c Hc) at 1. rewrite lower_slug_char, slug_char_lower, Hc by done.
    f_equal. by apply IH.
  - destruct (Ascii.eqb_spec c "-") as [->|]; [|done]. destruct q; [done|]. simpl. intros H. f_equal. by apply IH.
Qed.

(** Dropping the dashes at the end leaves a slug. *)
Lemma pop_dashes_slug l q :
  slug_scan true l = Some q ->
  pop_dashes (rev l) = [] \/ slug_scan true (rev (pop_dashes (rev l))) = Some false.
Proof.
  revert q. induction l as [|c l IH] using rev_ind; intros q; [by left|].
  rewrite slug_scan_app, rev_app_distr. cbn [rev app pop_dashes].
  destruct (slug_scan true l) as [q1|] eqn:Hl; [|done]. simpl. unfold slug_step.
  destruct (slug_char c) eqn:Hc.
  - intros _. rewrite slug_char_not_dash by done. right. cbn [rev]. rewrite rev_involutive, slug_scan_app, Hl. simpl.
    unfold slug_step. by rewrite Hc.
  - destruct (Ascii.eqb c "-"); [|done]. intros _. by eapply IH.
Qed.

Lemma pop_dashes_id l : slug_scan true l = Some false -> pop_dashes (rev l) = rev l.
Proof.
  destruct l as [|c l _] using rev_ind; [done|]. rewrite slug_scan_app, rev_app_distr. cbn [rev app pop_dashes].
  destruct (slug_scan true l) as [q|]; [|done]. simpl. unfold slug_step.
  destruct (slug_char c) eqn:Hc; [by rewrite slug_char_not_dash|].
  by destruct (Ascii.eqb c "-"), q.
Qed.

(** C37: An organisation's name becomes an identifier of a fixed form: words of
    lower-case letters and digits joined by single dashes. The identifiers are
    exactly the names that [slugify] leaves as they are. *)
Theorem slugify_projects (s : string) : is_slug (slugify s) /\ (slugify s = s <-> is_slug s).
Proof.
  assert (Hs : forall s, is_slug (slugify s)).
  { clear. intros s. unfold slugify, is_slug. rewrite slug_loop_chars, app_nil_r.
    rewrite list_ascii_of_string_of_list_ascii. destruct (slug_chars_scan s true) as [q Hq].
    destruct (pop_dashes_slug _ _ Hq) as [->|H]; [by left|by right]. }
  split; [apply Hs|]. split; [by intros <-|]. intros [->|H]; [done|].
  unfold slugify. rewrite slug_loop_chars, app_nil_r.
  rewrite <- (string_of_list_ascii_of_string s) at 1. rewrite (slug_chars_id _ _ _ H).
  by rewrite pop_dashes_id, rev_involutive, string_of_list_ascii_of_string.
Qed.

(** ** Properties *)

Section WebhookProps.
Context {JE V B X W M : Type}.
Context `{!BillingStore B, !JsonValue V, !Serde JE (StripeEvent.t V)}.
Variable display_json : JE -> string.
Variable hmac_sha256 : bytes -> bytes -> bytes.
Implicit Types (s : BillingState.t B X W M).

(** What an accepted event does. *)
Definition webhook_effect (now : string) (event : StripeEvent.t V) s : BillingState.t B X W M :=
  let w := BillingState.world s in
  BillingState.mk (BillingState.billing s)
    (Metrics.record_stripe_event (StripeEvent.event_type event) (BillingState.metrics s))
    (World.mk (route_webhook_event now event (World.store w)) (World.net w) (World.tokens w) (World.disk w)).

(** C24: The webhook acts on what Stripe signed and on nothing else. If the
    endpoint is configured with a secret and the request carries a header that
    signs exactly this body with this secret at a time within five minutes,
    and the body is an event, the event is counted and routed and the answer is
    200; in every other case the answer is an error and nothing at all has
    changed. *)
Theorem webhook_acts_on_authentic_events now_secs now_millis header body s :
  let h := stripe_webhook_handler display_json hmac_sha256 now_secs now_millis header body s in
  (exists ctx secret text event,
     BillingState.billing s = Some ctx /\
     BillingConfig.webhook_signing_secret (BillingCtx.config ctx) = Some secret /\
     header = Some (Ok text) /\ authentic hmac_sha256 secret text body (as_i64 now_secs) 300 /\
     from_json (JE := JE) body = Ok event /\
     h = (Ok 200, webhook_effect (rfc3339_now now_secs now_millis) event s)) \/
  (is_ok h.1 = false /\ h.2 = s /\
   forall ctx secret text,
     BillingState.billing s = Some ctx ->
     BillingConfig.webhook_signing_secret (BillingCtx.config ctx) = Some secret ->
     header = Some (Ok text) -> authentic hmac_sha256 secret text body (as_i64 now_secs) 300 ->
     is_ok (from_json (JE := JE) (T := StripeEvent.t V) body) = false).
Proof.
  intros h. unfold h, stripe_webhook_handler, billing_ctx, mbind, sm_bind, sm_lift, sm_modify, mret, sm_ret.
  destruct (BillingState.billing s) as [ctx|] eqn:Hctx; simpl; [|right; by split_and!].
  destruct (BillingConfig.webhook_signing_secret _) as [secret|] eqn:Hsec; simpl.
  2: { right. split_and!; [done|done|]. intros c sec tx [= <-]. congruence. }
  destruct header as [[text|]|]; simpl; [|right; by split_and!|right; by split_and!].
  pose proof (verify_webhook_signature_spec hmac_sha256 text body secret (as_i64 now_secs) 300) as Hv.
  destruct (verify_webhook_signature _ _ _ _ _ _) as [[]|e]; simpl.
  - destruct (from_json body) as [event|e]; simpl.
    + left. exists ctx, secret, text, event. split_and!; try done; [by apply Hv|].
      unfold webhook_effect. by rewrite Hctx.
    + right. by split_and!.
  - right. split_and!; [done|done|]. intros c sec tx [= <-] Hs [= <-] Ha. rewrite Hsec in Hs.
    injection Hs as <-. by apply Hv in Ha.
Qed.
End WebhookProps.

(** Dunning follows the subscription events and the clock. After the webhook
    has recorded, at time [t0], a subscription state for an organisation's
    customer, a fork at time [t1] is refused exactly if the status is past due,
    unpaid or cancelled and more than the grace period lies between; the
    verdict names the status, the time and the grace. The grace is the
    configured number of hours, saturating instead of overflowing. Organisations
    of other customers are judged as before. *)
Theorem dunning_blocks_after_grace {V B : Type} `{!JsonValue V, !BillingStore B, !BillingStoreLaws B}
    (b : B) org cid st (event : StripeEvent.t V) t0 m0 t1 m1 grace :
  StripeEvent.event_type event ∈ SUBSCRIPTION_EVENTS ->
  parse_subscription_object (rfc3339_now t0 m0) event = Ok (cid, st) ->
  is_ok (record_subscription cid st b).1 = true -> get_customer b org = Some cid ->
  printable t0 m0 -> printable t1 m1 -> 0 <= grace < 2 ^ 64 ->
  let b' := route_webhook_event (rfc3339_now t0 m0) event b in
  check_dunning b' org grace t1 m1 =
    (if delinquent st && (t0 * 1000 + m0 <? (t1 - grace_secs grace) * 1000 + m1)
     then Err (DunningVerdict.mk (SubscriptionState.status st) (rfc3339_now t0 m0) grace) else Ok tt) /\
  (grace <= i64_max / 3600 -> grace_secs grace = grace * 3600) /\ 0 <= grace_secs grace <= i64_max /\
  (forall org', get_customer b org' <> Some cid ->
     check_dunning b' org' grace t1 m1 = check_dunning b org' grace t1 m1).
Proof.
  intros He Hp Hr Hc H0 H1 Hg b'.
  assert (Hb : b' = (record_subscription cid st b).2).
  { unfold b', route_webhook_event. assert (existsb (String.eqb (StripeEvent.event_type event)) SUBSCRIPTION_EVENTS = true) as ->.
    { apply existsb_exists. exists (StripeEvent.event_type event). split; [by apply list_elem_of_In|apply String.eqb_refl]. }
    by rewrite Hp. }
  destruct (record_subscription cid st b) as [[[]|e] b1] eqn:Hrec; [|done]. simpl in Hb. rewrite Hb. clear b' Hb.
  assert (Hu : SubscriptionState.updated_at st = rfc3339_now t0 m0).
  { unfold parse_subscription_object in Hp. destruct (event_object event) as [o|]; [|done]. simpl in Hp.
    destruct (str_field o "id"); [|done]. destruct (str_field o "customer"); [|done].
    destruct (str_field o "status"); [|done]. simpl in Hp. by injection Hp as _ <-. }
  split_and!.
  - apply (check_dunning_spec b1 org cid st); try done; [|by rewrite (subscription_recorded _ _ _ _ _ Hrec), bool_decide_true|lia].
    by rewrite (subscription_customers _ _ _ _ _ _ Hrec).
  - intros. apply grace_secs_exact. lia.
  - apply (grace_secs_range grace). lia.
  - apply (grace_secs_range grace). lia.
  - intros org' Hne. unfold check_dunning. rewrite (subscription_customers _ _ _ _ _ _ Hrec).
    destruct (get_customer b org') as [c|]; [|done]. rewrite (subscription_recorded _ _ _ _ _ Hrec).
    by rewrite bool_decide_false by congruence.
Qed.


(** The operations on the in-memory store that change it. *)
Inductive StoreOp : Type :=
| RecordCustomer (org : OrgId) (cid : string)
| RecordSubscription (cid : string) (st : SubscriptionState.t)
| RecordPending (p : PendingSignup.t)
| TakePending (h now : string)
| DeletePending (h : string)
| GcExpired (now : string).

Import InMemoryBillingStore.

Definition store_step (debug_str : string -> string) (b : t) (op : StoreOp) : t :=
  match op with
  | RecordCustomer org cid => (record_customer org cid b).2
  | RecordSubscription cid st => (record_subscription debug_str cid st b).2
  | RecordPending p => (record_pending_signup p b).2
  | TakePending h now => (take_pending_signup h now b).2
  | DeletePending h => (delete_pending_signup h b).2
  | GcExpired now => (gc_expired_signups now b).2
  end.

(** Rows are filed under their token's hash, and an address has one row. *)
Definition pending_ok (m : gmap string PendingSignup.t) : Prop :=
  (forall h p, m !! h = Some p -> PendingSignup.token_hash p = h) /\
  (forall h h' p p', m !! h = Some p -> m !! h' = Some p' -> PendingSignup.email p = PendingSignup.email p' -> h = h').

Lemma pending_ok_subset m m' : pending_ok m -> m' ⊆ m -> pending_ok m'.
Proof.
  intros [H1 H2] Hs. split.
  - intros h p Hp. apply H1. by eapply lookup_weaken.
  - intros h h' p p' Hp Hp'. eapply H2; by eapply lookup_weaken.
Qed.

Lemma pending_ok_step debug_str b op : pending_ok (pending b) -> pending_ok (pending (store_step debug_str b op)).
Proof.
  intros Hok. destruct op; simpl; try done.
  - unfold record_subscription. by destruct (negb _).
  - assert (Hk : pending_ok (filter (fun '(_, s) => PendingSignup.email s <> PendingSignup.email p) (pending b)))
      by (eapply pending_ok_subset; [exact Hok|apply map_filter_subseteq]).
    destruct Hk as [H1 H2].
    assert (Hne : forall h q, filter (fun '(_, s) => PendingSignup.email s <> PendingSignup.email p) (pending b) !! h = Some q ->
              PendingSignup.email q <> PendingSignup.email p) by (by intros h q [_ ?]%map_lookup_filter_Some).
    split.
    + intros h q [[<- <-]|[_ ?]]%lookup_insert_Some; [done|by apply H1].
    + intros h h' q q' [[<- <-]|[_ Hq]]%lookup_insert_Some [[<- <-]|[_ Hq']]%lookup_insert_Some He; try done.
      * by apply Hne in Hq'.
      * by apply Hne in Hq.
      * by eapply H2.
  - unfold take_pending_signup. destruct (pending b !! h); [|done]. eapply pending_ok_subset; [done|apply delete_subseteq].
  - eapply pending_ok_subset; [done|apply delete_subseteq].
  - eapply pending_ok_subset; [done|apply map_filter_subseteq].
Qed.

(** The in-memory store keeps at most one pending signup per address and
    files each under its token's hash, whatever is recorded, taken, deleted or
    swept. Hence asking again invalidates the earlier token of the address, and
    taking a row removes it: a second taking finds nothing. *)
Theorem pending_signups_unique debug_str ops p h now :
  let b := foldl (store_step debug_str) default ops in
  pending_ok (pending b) /\
  (forall q, pending b !! h = Some q -> PendingSignup.email q = PendingSignup.email p ->
     h <> PendingSignup.token_hash p -> peek_pending_signup (record_pending_signup p b).2 h now = None) /\
  (take_pending_signup h now (take_pending_signup h now b).2).1 = None.
Proof.
  intros b. assert (Hok : pending_ok (pending b)).
  { unfold b. induction ops as [|op ops IH] using rev_ind; [by split|].
    rewrite foldl_app. by apply pending_ok_step. }
  split_and!; [done| |].
  - intros q Hq He Hne. unfold peek_pending_signup. simpl. rewrite lookup_insert_ne by done.
    destruct (filter _ _ !! h) as [e|] eqn:Hf; [|done]. apply map_lookup_filter_Some in Hf as [Hf Hx]. congruence.
  - unfold take_pending_signup. destruct (pending b !! h) as [e|] eqn:Hh; simpl; [|by rewrite Hh].
    by rewrite lookup_delete_eq.
Qed.

(** ** Samples *)

Module Sample.
(** JSON values, as far as they are inspected. *)
Inductive json : Type :=
| JStr (s : string)
| JEnd
| JField (k : string) (v rest : json)
| JItem (v rest : json).

Fixpoint field (v : json) (k : string) : option json :=
  match v with
  | JField k' v rest => if String.eqb k' k then Some v else field rest k
  | _ => None
  end.

Fixpoint items (v : json) : option (list json) :=
  match v with
  | JItem v rest => cons v <$> items rest
  | JEnd => Some []
  | _ => None
  end.

#[global] Instance sample_json : JsonValue json := {
  json_get := field;
  json_as_str v := match v with JStr s => Some s | _ => None end;
  json_as_i64 _ := None;
  json_as_array := items;
}.

(** Stripe answers every call; the mail is logged. *)
#[global] Instance sample_http : Http (list HttpRequest.t) := {
  http_post request x := (Ok (HttpResponse.mk 200 (Ok [])), x ++ [request])%list;
}.

#[global] Instance envelope_serde : Serde unit Envelope.t := {|
  to_json _ := (Err tt, []);
  from_json _ := Err tt;
|}.

#[global] Instance customer_serde : Serde unit StripeCustomer.t := {|
  to_json _ := (Err tt, []);
  from_json _ := Ok (StripeCustomer.mk "cus_1" None);
|}.

#[global] Instance token_serde : Serde unit (list PersistedToken.t) := {|
  to_json _ := (Err tt, []);
  from_json _ := Err tt;
|}.

#[global] Instance no_disk : TokenDisk unit := {
  disk_read _ _ := Err DiskNotFound;
  disk_create _ _ w := (Ok tt, w);
  disk_rename _ _ w := (Ok tt, w);
}.

#[global] Instance store : BillingStore t := in_memory (fun s => s).

Definition item : json := JField "id" (JStr "si_1") (JField "price" (JField "id" (JStr "price_1") JEnd) JEnd).

Definition event : StripeEvent.t json :=
  StripeEvent.mk "evt_1" "customer.subscription.updated"
    (Some (JField "object"
       (JField "id" (JStr "sub_1") (JField "customer" (JStr "cus_1") (JField "status" (JStr "past_due")
         (JField "items" (JField "data" (JItem item JEnd) JEnd) JEnd)))) JEnd)).

Definition env_at (secs : Z) : Ambient.t :=
  Ambient.mk secs 0 (replicate 24 Byte.x00) [Byte.x01] [Byte.x02].

Definition tokens : ApiTokens.t := ApiTokens.from_csv "acme:sk-live".
Definition start : World.t t (list HttpRequest.t) unit := World.mk default [] tokens tt.
Definition signup : SignupRequestRequest.t := SignupRequestRequest.mk "mallory@evil.example" " ACME! ".
End Sample.

Lemma dunning_blocks_after_grace_witness :
  let b := mk {["acme" := "cus_1"]} ∅ ∅ in
  let b' := route_webhook_event (rfc3339_now 1700000000 0) Sample.event b in
  check_dunning b' "acme" 72 (1700000000 + 72 * 3600) 0 = Ok tt /\
  check_dunning b' "acme" 72 (1700000000 + 72 * 3600) 1 =
    Err (DunningVerdict.mk "past_due" (rfc3339_now 1700000000 0) 72).
Proof.
  intros b b'.
  assert (H : forall m1, 0 <= m1 < 1000 -> check_dunning b' "acme" 72 (1700000000 + 72 * 3600) m1 =
    (if (1700000000 * 1000 + 0 <? (1700000000 + 72 * 3600 - grace_secs 72) * 1000 + m1)
     then Err (DunningVerdict.mk "past_due" (rfc3339_now 1700000000 0) 72) else Ok tt)).
  { intros m1 Hm.
    refine (proj1 (dunning_blocks_after_grace b "acme" "cus_1"
      (SubscriptionState.mk "sub_1" "past_due" (Some "price_1") (Some "si_1") (rfc3339_now 1700000000 0))
      Sample.event 1700000000 0 (1700000000 + 72 * 3600) m1 72 _ _ _ _ _ _ _)); try (vm_compute; reflexivity).
    - right. left.
    - unfold printable, LAST_DAY. lia.
    - unfold printable, LAST_DAY. lia.
    - lia. }
  rewrite !H by lia. by vm_compute.
Defined.


(** Two verifications that both look before either deletes both end with a key. *)
Example overlapping_verifications_both_mint :
  let h := hash_signup_token (fun bs => bs) (mint_signup_token (replicate 24 Byte.x00)) in
  let step t s := verify_step (JE := unit) (TE := unit) (fun _ => "") (fun _ => "k") (StripeClient.new "sk") (Sample.env_at 1700000100) h t s in
  let s1 := (signup_request (fun bs => bs) (LogEmailSender.mk) "https://x" 900 (Sample.env_at 1700000000)
               Sample.signup Sample.start).2 in
  let (t1, s2) := step VerifyTask.Peek s1 in
  let (t2, s3) := step VerifyTask.Peek s2 in
  let (t1, s4) := Nat.iter 4 (fun '(t, s) => step t s) (t1, s3) in
  let (t2, _) := Nat.iter 4 (fun '(t, s) => step t s) (t2, s4) in
  t1 = VerifyTask.Finished (Ok (SignupResponse.mk "acme" "nv_k" "cus_1")) /\ t2 = t1.
Proof. vm_compute. split; reflexivity. Qed.
