(* ===== verification/UsageReporter.v ===== *)
(** * Metered usage ([crates/control-plane/src/billing/usage_reporter.rs])

    The background task that reports each organisation's forks to Stripe: every
    tick it takes the difference of the fork counters to the previous tick and
    posts one usage record per organisation with a subscription item. The timer
    and the shutdown channel are the sequence of ticks; log output is not
    modelled. *)

From Stdlib Require Import Ascii String.
From stdpp Require Import strings pretty sorting.
From S2P Require Import Prelude Io Str VmCore ApiError Auth Metrics Time Billing.

Local Open Scope Z_scope.

Definition DEFAULT_REPORT_SECS : Z := 60.
Definition REPORT_INTERVAL_ENV : string := "NANOVM_BILLING_REPORT_SECS".

Module UsageReporterConfig.
(** The interval, in seconds. *)
Record t : Type := mk { interval : Z }.

Definition parse (raw : option string) : option t :=
  raw ← raw;
  if String.eqb raw "" || String.eqb raw "0" then None
  else match parse_uint (2 ^ 64 - 1) raw with
  | Some n => if 0 <? n then Some (mk n) else None
  | None => None
  end.

Definition from_env (env : string -> option string) : option t := parse (env REPORT_INTERVAL_ENV).
End UsageReporterConfig.

(** The counters of a moment, by organisation. *)
Definition snapshot_of (m : Metrics.t) : gmap string Z :=
  list_to_map ((fun '(org, count, _) => (org, count)) <$> Metrics.forks_by_org_snapshot m).

(** The difference for one organisation, when it is positive. *)
Definition delta_of (prior : gmap string Z) (entry : string * Z) : option (string * Z) :=
  let '(org, current) := entry in
  let previous := default 0 (prior !! org) in
  if previous <? current then Some (org, current - previous) else None.

Definition compute_deltas (prior now : gmap string Z) : list (string * Z) :=
  merge_sort Metrics.pair_le (omap (delta_of prior) (map_to_list now)).

Section Reporter.
Context {JE B X : Type} `{!BillingStore B, !Http X, !Serde JE Envelope.t, !Serde JE UsageRecord.t}.
Variable display_json : JE -> string.

(** What a report needs of the store. *)
Definition item_of (store : B) (org : string) : option string :=
  customer_id ← get_customer store org;
  sub ← get_subscription store customer_id;
  SubscriptionState.subscription_item_id sub.

(** The outcome is only logged. *)
Definition flush_one (stripe : StripeClient.t) (store : B) (org : string) (delta timestamp_secs : Z) (x : X) : X :=
  match item_of store org with
  | None => x
  | Some item_id =>
      let key := item_id +:+ "-" +:+ pretty timestamp_secs in
      snd (report_usage_record display_json stripe item_id delta timestamp_secs key x)
  end.

(** One tick: the counters, the store and the clock it meets. *)

Record Tick : Type := mk_tick { metrics : Metrics.t; store : B; now_secs : Z }.

Definition tick (stripe : StripeClient.t) (prior : gmap string Z) (t : Tick) (x : X) : gmap string Z * X :=
  let now := snapshot_of (metrics t) in
  let deltas := compute_deltas prior now in
  (now, foldl (fun x '(org, delta) => flush_one stripe (store t) org delta (now_secs t) x) x deltas).

(** The task: the baseline is the counters at its start. *)
Fixpoint run_from (stripe : StripeClient.t) (prior : gmap string Z) (ticks : list Tick) (x : X) : gmap string Z * X :=
  match ticks with
  | [] => (prior, x)
  | t :: ticks => let (prior, x) := tick stripe prior t x in run_from stripe prior ticks x
  end.

Definition spawn (stripe : StripeClient.t) (start : Metrics.t) (ticks : list Tick) (x : X) : X :=
  snd (run_from stripe (snapshot_of start) ticks x).
End Reporter.

Arguments mk_tick {B} metrics store now_secs.
Arguments metrics {B} _.
Arguments store {B} _.
Arguments now_secs {B} _.

(** ** What is reported *)

(** The counter of an organisation. *)
Definition forks (m : Metrics.t) (org : string) : Z := default 0 (Metrics.forks_total_by_org m !! org).

Lemma list_to_map_fn {A} (f : A -> string) (g : A -> Z) (l : list A) org :
  default 0 ((list_to_map ((fun a => (f a, g a)) <$> l) : gmap string Z) !! org) =
    match list_find_val (fun a => bool_decide (f a = org)) l with Some a => g a | None => 0 end.
Proof.
  induction l as [|a l IH]; simpl; [done|]. case_bool_decide as Ha.
  - by rewrite <- Ha, lookup_insert_eq.
  - by rewrite lookup_insert_ne.
Qed.

Lemma snapshot_forks m org : default 0 (snapshot_of m !! org) = forks m org.
Proof.
  unfold snapshot_of, Metrics.forks_by_org_snapshot. rewrite <- list_fmap_compose.
  set (keys := merge_sort _ _).
  etransitivity; [apply (list_to_map_fn (fun k => k) (fun k => default 0 (Metrics.forks_total_by_org m !! k)) keys)|].
  destruct (list_find_val _ keys) as [k|] eqn:Hk.
  - apply list_find_val_some in Hk as [_ Hk%bool_decide_eq_true]. by subst.
  - unfold forks. destruct (Metrics.forks_total_by_org m !! org) as [n|] eqn:Hn; [|done].
    assert (Hin : org ∈ keys).
    { unfold keys. rewrite merge_sort_Permutation. apply elem_of_elements, elem_of_union_l, elem_of_dom. by eexists. }
    apply (list_find_val_none _ _ _ Hk) in Hin. by apply bool_decide_eq_false in Hin.
Qed.

(** The quantity a list of deltas has for an organisation. *)
Definition quantity (org : string) (l : list (string * Z)) : Z :=
  zsum ((fun '(o, q) => if bool_decide (o = org) then q else 0) <$> l).

#[local] Instance zsum_proper : Proper (Permutation ==> (=)) zsum.
Proof. induction 1; simpl in *; lia. Qed.

Lemma quantity_cons org o q l : quantity org ((o, q) :: l) = (if bool_decide (o = org) then q else 0) + quantity org l.
Proof. done. Qed.

Lemma quantity_perm org l l' : Permutation l l' -> quantity org l = quantity org l'.
Proof. intros H. unfold quantity. by rewrite H. Qed.

Lemma quantity_omap prior (now : gmap string Z) org :
  quantity org (omap (delta_of prior) (map_to_list now)) =
    match now !! org with Some c => Z.max 0 (c - default 0 (prior !! org)) | None => 0 end.
Proof.
  induction now as [|k c now Hk IH] using map_ind; [by rewrite map_to_list_empty, lookup_empty|].
  rewrite (quantity_perm _ _ (omap (delta_of prior) ((k, c) :: map_to_list now)))
    by (by rewrite map_to_list_insert). cbn [omap list_omap]. unfold delta_of at 1.
  destruct (decide (k = org)) as [->|Hne].
  - rewrite lookup_insert_eq. rewrite Hk in IH. destruct (default 0 (prior !! org) <? c) eqn:Hd; bool_to_prop.
    + rewrite quantity_cons, bool_decide_true, IH by done. lia.
    + rewrite IH. lia.
  - rewrite lookup_insert_ne, <- IH by done. destruct (default 0 (prior !! k) <? c); [|done].
    by rewrite quantity_cons, bool_decide_false.
Qed.

(** Per tick, an organisation's increase since the last one. *)
Lemma delta_quantity prior m org :
  0 <= default 0 (prior !! org) ->
  quantity org (compute_deltas prior (snapshot_of m)) = Z.max 0 (forks m org - default 0 (prior !! org)).
Proof.
  intros Hp. unfold compute_deltas. rewrite (quantity_perm _ _ _ (merge_sort_Permutation _ _)), quantity_omap.
  rewrite <- snapshot_forks. destruct (snapshot_of m !! org); simpl; lia.
Qed.

Section Reports.
Context {JE B X : Type} `{!BillingStore B, !Http X, !Serde JE Envelope.t, !Serde JE UsageRecord.t}.
Variable display_json : JE -> string.
Implicit Types (ticks : list (Tick (B := B))) (x : X).

Definition report : Type := string * string * Z * Z.

(** The usage records of a tick: organisation, item, quantity and time. *)
Definition reports (prior : gmap string Z) (t : Tick) : list report :=
  omap (fun '(org, delta) => (fun item => (org, item, delta, now_secs t)) <$> item_of (store t) org)
    (compute_deltas prior (snapshot_of (metrics t))).

Definition post_report (stripe : StripeClient.t) x (r : report) : X :=
  let '(_, item, delta, ts) := r in
  snd (report_usage_record display_json stripe item delta ts (item +:+ "-" +:+ pretty ts) x).

Fixpoint all_reports (prior : gmap string Z) ticks : list report :=
  match ticks with
  | [] => []
  | t :: ticks => reports prior t ++ all_reports (snapshot_of (metrics t)) ticks
  end.

Lemma flush_posts stripe (t : Tick) deltas x :
  foldl (fun x '(org, delta) => flush_one display_json stripe (store t) org delta (now_secs t) x) x deltas =
  foldl (post_report stripe) x
    (omap (fun '(org, delta) => (fun item => (org, item, delta, now_secs t)) <$> item_of (store t) org) deltas).
Proof.
  revert x. induction deltas as [|[org delta] deltas IH]; intros x; [done|]. cbn [foldl omap list_omap].
  unfold flush_one at 2. destruct (item_of (store t) org); simpl; apply IH.
Qed.

Lemma run_posts stripe prior ticks x :
  run_from display_json stripe prior ticks x =
    (default prior (snapshot_of ∘ metrics <$> last ticks), foldl (post_report stripe) x (all_reports prior ticks)).
Proof.
  revert prior x. induction ticks as [|t ticks IH]; intros prior x; [done|]. cbn [run_from tick all_reports].
  rewrite IH, foldl_app. unfold reports. rewrite flush_posts. f_equal.
  destruct ticks; [done|]. by rewrite last_cons_cons; destruct (last _) eqn:?; [|by apply last_None in Heqo].
Qed.

(** The records of one organisation. *)
Definition billed (org : string) (rs : list report) : Z :=
  zsum ((fun '(o, _, q, _) => if bool_decide (o = org) then q else 0) <$> rs).

Lemma billed_cons org o item q ts rs :
  billed org ((o, item, q, ts) :: rs) = (if bool_decide (o = org) then q else 0) + billed org rs.
Proof. done. Qed.

Lemma billed_app org rs rs' : billed org (rs ++ rs') = billed org rs + billed org rs'.
Proof.
  unfold billed. induction rs as [|[[[o i] q] ts] rs IH]; [done|]. cbn [app fmap list_fmap]. rewrite !zsum_cons, IH. lia.
Qed.

Lemma billed_tick org (t : Tick) deltas :
  billed org (omap (fun '(o, delta) => (fun item => (o, item, delta, now_secs t)) <$> item_of (store t) o) deltas) =
    if item_of (store t) org is Some _ then quantity org deltas else 0.
Proof.
  induction deltas as [|[o delta] deltas IH]; [by destruct (item_of _ _)|]. cbn [omap list_omap].
  destruct (item_of (store t) o) as [item|] eqn:Ho; simpl.
  - rewrite billed_cons, IH, quantity_cons. case_bool_decide as Heq.
    + subst. by rewrite Ho.
    + destruct (item_of (store t) org); lia.
  - rewrite IH, quantity_cons. case_bool_decide as Heq; [|by destruct (item_of _ org)]. subst. by rewrite Ho.
Qed.

(** An organisation's counter never decreases along the ticks. *)
Fixpoint climbs (org : string) (from : Z) ticks : Prop :=
  match ticks with
  | [] => True
  | t :: ticks => from <= forks (metrics t) org /\ climbs org (forks (metrics t) org) ticks
  end.

(** The forks between ticks at which the organisation has a subscription item. *)
Fixpoint billable (org : string) (from : Z) ticks : Z :=
  match ticks with
  | [] => 0
  | t :: ticks =>
      (if item_of (store t) org is Some _ then forks (metrics t) org - from else 0) +
      billable org (forks (metrics t) org) ticks
  end.

Lemma billed_all prior ticks org from :
  default 0 (prior !! org) = from -> 0 <= from -> climbs org from ticks ->
  billed org (all_reports prior ticks) = billable org from ticks.
Proof.
  revert prior from. induction ticks as [|t ticks IH]; intros prior from Hp H0; [done|]. intros [Hle Hc].
  cbn [all_reports billable]. rewrite billed_app. unfold reports at 1. rewrite billed_tick, delta_quantity by lia.
  rewrite (IH _ (forks (metrics t) org)); [|apply snapshot_forks|lia|done].
  rewrite Hp. destruct (item_of (store t) org); lia.
Qed.

Lemma billable_all org from ticks :
  Forall (fun t => is_Some (item_of (store t) org)) ticks ->
  billable org from ticks = default from ((fun t => forks (metrics t) org) <$> last ticks) - from.
Proof.
  intros H. revert from. induction H as [|t ticks [item Hi] Hall IH]; intros from; simpl; [lia|].
  rewrite Hi, IH. destruct ticks; [simpl; lia|]. rewrite last_cons_cons. destruct (last (_ :: _)) eqn:Hl; simpl; [lia|].
  by apply last_None in Hl.
Qed.
End Reports.

(** ** Property *)

(** C27: Each fork of a subscribed organisation is reported once. The task posts,
    tick by tick, one usage record for every organisation whose counter has
    grown since the previous tick and that has a subscription item, keyed by
    the item and the time; what it posts does not depend on Stripe's answers.
    While an organisation's counter does not decrease, the quantities posted for
    it add up to its forks between ticks at which it had an item, and so, if it
    always had one, to all its forks from the start of the task to the last
    tick. *)
Theorem usage_reported_once {JE B X : Type}
    `{!BillingStore B, !Http X, !Serde JE Envelope.t, !Serde JE UsageRecord.t} (display_json : JE -> string)
    stripe (start : Metrics.t) (ticks : list (Tick (B := B))) (x : X) org :
  0 <= forks start org -> climbs org (forks start org) ticks ->
  spawn display_json stripe start ticks x =
    foldl (post_report display_json stripe) x (all_reports (snapshot_of start) ticks) /\
  billed org (all_reports (snapshot_of start) ticks) = billable org (forks start org) ticks /\
  (Forall (fun t => is_Some (item_of (store t) org)) ticks ->
     billed org (all_reports (snapshot_of start) ticks) =
       default (forks start org) ((fun t => forks (metrics t) org) <$> last ticks) - forks start org).
Proof.
  intros H0 Hc. assert (Hb : billed org (all_reports (snapshot_of start) ticks) = billable org (forks start org) ticks)
    by (apply billed_all; [apply snapshot_forks|done|done]).
  split_and!; [|done|].
  - unfold spawn. by rewrite run_posts.
  - intros Hall. rewrite Hb. by apply billable_all.
Qed.

Module ReporterSample.
#[local] Instance log_http : Http (list HttpRequest.t) := {
  http_post request x := (Err "down", x ++ [request]);
}.
#[local] Instance record_serde : Serde unit UsageRecord.t := {|
  to_json _ := (Err tt, []);
  from_json _ := Err tt;
|}.
#[local] Instance envelope_serde : Serde unit Envelope.t := {|
  to_json _ := (Err tt, []);
  from_json _ := Err tt;
|}.
#[local] Instance mem_store : BillingStore InMemoryBillingStore.t := InMemoryBillingStore.in_memory (fun s => s).

Definition acme : InMemoryBillingStore.t :=
  InMemoryBillingStore.mk {["acme" := "cus_1"]}
    {["cus_1" := SubscriptionState.mk "sub_1" "active" None (Some "si_1") ""]} ∅.

Definition m1 : Metrics.t := Metrics.record_fork "tok" "acme" 5 Metrics.new.
Definition m3 : Metrics.t := Metrics.record_fork "tok" "acme" 5 (Metrics.record_fork "tok" "acme" 5 m1).

(** Stripe is down the whole time; the first fork is not posted again. *)
Lemma usage_reported_once_witness :
  billed "acme" (all_reports (snapshot_of Metrics.new) [mk_tick m1 acme 60; mk_tick m3 acme 120]) = 3 /\
  spawn (JE := unit) (fun _ => "") (StripeClient.new "sk") Metrics.new [mk_tick m1 acme 60; mk_tick m3 acme 120] [] =
    foldl (post_report (JE := unit) (fun _ => "") (StripeClient.new "sk")) []
      [("acme", "si_1", 1, 60); ("acme", "si_1", 2, 120)].
Proof.
  destruct (usage_reported_once (JE := unit) (fun _ => "") (StripeClient.new "sk") Metrics.new
    [mk_tick m1 acme 60; mk_tick m3 acme 120] [] "acme") as (Hrun & Hbill & _).
  - vm_compute. discriminate.
  - vm_compute. split; [discriminate|]. split; [discriminate|exact I].
  - split; [rewrite Hbill; vm_compute; reflexivity|]. rewrite Hrun. vm_compute. reflexivity.
Defined.
End ReporterSample.
