(* ===== verification/ForkQuota.v ===== *)
(** * The fork quota ([crates/control-plane/src/fork_quota.rs])

    Token buckets per bearer token and per organisation, in 64-bit floats. An
    [Instant] is a number of nanoseconds; each call is given its clock
    readings. The instance at the end is the quota the routes are generic in. *)

From Stdlib Require Import Ascii String SpecFloat.
From stdpp Require Import strings pretty.
From S2P Require Import Prelude Io Str Fs VmCore ApiError Auth Metrics Time Billing F64 Routes.

Local Open Scope Z_scope.

(** ** Parsing floats *)

(** The number of decimal digits and their value; [None] if another character
    occurs. *)
Fixpoint decimal (s : string) (acc : Z) : option Z :=
  match s with
  | "" => Some acc
  | String c s => d ← digit_value c; decimal s (acc * 10 + d)
  end.

(** [m * 10 ^ k], rounded once. *)
Definition of_decimal (m k : Z) : F64.t :=
  match m with
  | Z.pos p =>
      if 0 <=? k then F64.of_Z (m * 10 ^ k)
      else F64.div (S754_finite false p 0) (S754_finite false (Z.to_pos (10 ^ (- k))) 0)
  | _ => F64.zero
  end.

Definition split_sign (s : string) : bool * string :=
  match s with
  | String c rest => if Ascii.eqb c "-" then (true, rest) else if Ascii.eqb c "+" then (false, rest) else (false, s)
  | "" => (false, "")
  end.

Definition parse_exponent (s : string) : option Z :=
  let (neg, digits) := split_sign s in
  if String.eqb digits "" then None
  else v ← decimal digits 0; Some (if neg : bool then - v else v).

Definition parse_number (s : string) : option F64.t :=
  let is_e c := Ascii.eqb c "e" || Ascii.eqb c "E" in
  '(mantissa, k) ← match split_once_by is_e s with
                   | None => Some (s, 0)
                   | Some (mantissa, ex) => k ← parse_exponent ex; Some (mantissa, k)
                   end;
  let '(int, frac) := default (mantissa, "") (split_once "." mantissa) in
  if String.eqb int "" && String.eqb frac "" then None
  else m ← decimal (int +:+ frac) 0; Some (of_decimal m (k - Z.of_nat (String.length frac))).

(** [s.parse::<f64>()] *)
Definition parse_f64 (s : string) : option F64.t :=
  let (neg, body) := split_sign s in
  let lower := to_ascii_lowercase body in
  let v :=
    if String.eqb lower "inf" || String.eqb lower "infinity" then Some (S754_infinity false)
    else if String.eqb lower "nan" then Some S754_nan
    else parse_number body in
  if neg : bool then SFopp <$> v else v.

Example parse_f64_examples :
  parse_f64 "2.5" = Some (F64.div (F64.of_Z 5) (F64.of_Z 2)) /\ parse_f64 "1e3" = Some (F64.of_Z 1000) /\
  parse_f64 ".5E+1" = Some (F64.of_Z 5) /\ parse_f64 "-inf" = Some (S754_infinity true) /\
  parse_f64 "." = None /\ parse_f64 "1e" = None /\ parse_f64 "0.1" = Some (S754_finite false 7205759403792794 (-56)).
Proof. vm_compute. done. Qed.

(** ** Buckets *)

Definition DEFAULT_FORK_RPS : F64.t := F64.of_Z 10.

Module Bucket.
Record t : Type := mk { tokens : F64.t; last_refill : Z }.
Definition new (burst : F64.t) (now : Z) : t := mk burst now.
End Bucket.

(** [now.duration_since(then)], zero when [then] is later. *)
Definition duration_since (now then_ : Z) : Z := Z.max 0 (now - then_).

(** [created] is the clock when a new bucket is made, [now] the one read after. *)
Definition take_one (key : string) (rps burst : F64.t) (created now : Z) : SM (gmap string Bucket.t) Z unit :=
  fun buckets =>
  let bucket := default (Bucket.new burst created) (buckets !! key) in
  let elapsed := F64.secs_of_nanos (duration_since now (Bucket.last_refill bucket)) in
  let tokens := F64.min (F64.add (Bucket.tokens bucket) (F64.mul elapsed rps)) burst in
  if F64.le F64.one tokens
  then (Ok tt, <[key := Bucket.mk (F64.sub tokens F64.one) now]> buckets)
  else
    let deficit := F64.sub F64.one tokens in
    let secs := F64.as_uint F64.u64_max (F64.max (F64.ceil (F64.div deficit rps)) F64.one) in
    (Err secs, <[key := Bucket.mk tokens now]> buckets).

Module Quota.
Record t : Type := mk {
  rps : F64.t;
  burst : F64.t;
  buckets : gmap string Bucket.t;
  org_buckets : gmap string Bucket.t;
}.

Definition new (rps : F64.t) (burst : Z) : t := mk rps (F64.of_Z burst) ∅ ∅.

Definition from_env (env : string -> option string) : t :=
  let rps := default DEFAULT_FORK_RPS
    (s ← env "NANOVM_FORK_RPS"; v ← parse_f64 s; if F64.le F64.zero v then Some v else None) in
  let burst := default (F64.as_uint (2 ^ 32 - 1) (F64.max (F64.ceil rps) F64.one))
    (s ← env "NANOVM_FORK_BURST"; parse_uint (2 ^ 32 - 1) s) in
  new rps burst.

Definition is_disabled (q : t) : bool := F64.le (rps q) F64.zero.

Definition try_acquire (bearer : option string) (created now : Z) : SM t Z unit := fun q =>
  if is_disabled q then (Ok tt, q)
  else match bearer with
  | None => (Ok tt, q)
  | Some token =>
      let (r, b) := take_one token (rps q) (burst q) created now (buckets q) in
      (r, mk (rps q) (burst q) b (org_buckets q))
  end.

Definition try_acquire_org (org : string) (rps_override : option F64.t) (burst_override : option Z)
    (created now : Z) : SM t Z unit := fun q =>
  if is_disabled q then (Ok tt, q)
  else
    let r := default (rps q)
      (v ← rps_override; if F64.is_finite v && F64.lt F64.zero v then Some v else None) in
    let b := default (burst q) (b ← burst_override; if 0 <? b then Some (F64.of_Z b) else None) in
    let (res, ob) := take_one org r b created now (org_buckets q) in
    (res, mk (rps q) (burst q) (buckets q) ob).
End Quota.

(** The tier's limits of an organisation ([resolve_tier_limits] of the routes). *)
Definition resolve_tier_limits {B} `{!BillingStore B} (tiers : option PlanTiers.t) (store : B) (org : OrgId) :
    option F64.t * option Z :=
  match tiers with
  | None => (None, None)
  | Some tiers =>
      match PlanResponse.plan (resolve_plan tiers store org) with
      | Some tier => (Some (F64.of_Z (PlanTier.rps tier)), Some (Z.max (PlanTier.rps tier) 1))
      | None => (None, None)
      end
  end.

(** A quota and the clock it reads, two readings per call. *)
Module TimedQuota.
Record t : Type := mk { quota : Quota.t; clock : nat -> Z; read : nat }.

Definition timed (c : Z -> Z -> SM Quota.t Z unit) : SM t Z unit := fun q =>
  let (r, q') := c (clock q (read q)) (clock q (S (read q))) (quota q) in
  (r, mk q' (clock q) (S (S (read q)))).

#[global] Instance timed_quota : Routes.ForkQuota t := {
  Routes.try_acquire bearer := timed (Quota.try_acquire bearer);
  Routes.try_acquire_org org := timed (Quota.try_acquire_org org None None);
}.
End TimedQuota.

(** ** What a bucket holds *)

(** Between nothing and the capacity. *)
Definition within (burst : F64.t) (x : F64.t) : Prop := proper x /\ units x <= units burst.

Section Buckets.
Variables (rps burst : F64.t) (B : Z).
Hypothesis rps_positive : exists m e, rps = S754_finite false m e /\ canonical m e.
Hypothesis burst_u32 : 0 <= B < 2 ^ 32 /\ burst = F64.of_Z B.
Implicit Types (key : string) (bs : gmap string Bucket.t) (x : F64.t).

Lemma burst_proper : proper burst /\ units burst = B * unit_one.
Proof using burst_u32. destruct burst_u32 as [HB ->]. apply of_Z_exact. lia. Qed.

Lemma unit_one_pos : 0 < unit_one.
Proof. unfold unit_one. by apply Z.pow_pos_nonneg. Qed.

Definition refilled x (elapsed : Z) : F64.t :=
  F64.min (F64.add x (F64.mul (F64.secs_of_nanos elapsed) rps)) burst.

Lemma refilled_within x n : proper x -> 0 <= n -> within burst (refilled x n).
Proof using rps_positive burst_u32.
  intros (_ & Nx & Vx) Hn. destruct (secs_of_nanos_nonneg n Hn) as [Ns Vs].
  destruct rps_positive as (m & e & Hr & Hc).
  destruct (mul_nonneg (F64.secs_of_nanos n) rps) as [Nm Vm]; [done|by rewrite Hr|done|by rewrite Hr|].
  destruct (add_nonneg x _ Nx Nm Vx Vm) as [Na Va]. by apply min_proper; [| |apply burst_proper].
Qed.

(** No time, no change. *)
Lemma refilled_now x : within burst x -> units (refilled x 0) = units x.
Proof using rps_positive burst_u32.
  intros [Hx Hle]. unfold refilled. rewrite secs_of_nanos_0. destruct rps_positive as (m & e & -> & _).
  change (F64.mul F64.zero (S754_finite false m e)) with F64.zero.
  assert (Ha : proper (F64.add x F64.zero) /\ units (F64.add x F64.zero) = units x).
  { destruct Hx as (Hf & Hn & Hv). by destruct x as [[]|?| |? ? ?]. }
  destruct Ha as [Hp Hu]. rewrite min_id; [done|done|apply burst_proper|by rewrite Hu].
Qed.

(** One call, on the bucket it finds or makes. *)
Lemma take_one_step key created now bs :
  let b := default (Bucket.new burst created) (bs !! key) in
  let y := refilled (Bucket.tokens b) (duration_since now (Bucket.last_refill b)) in
  proper (Bucket.tokens b) ->
  exists x', within burst x' /\
    if unit_one <=? units y
    then take_one key rps burst created now bs = (Ok tt, <[key := Bucket.mk x' now]> bs) /\ units x' = units y - unit_one
    else exists s, take_one key rps burst created now bs = (Err s, <[key := Bucket.mk x' now]> bs) /\
           units x' = units y /\ 1 <= s <= F64.u64_max.
Proof using rps_positive burst_u32.
  intros b y Hb. assert (Hd : 0 <= duration_since now (Bucket.last_refill b)) by (unfold duration_since; lia).
  destruct (refilled_within _ _ Hb Hd) as [Hy Hle]. fold y in Hy, Hle.
  destruct burst_proper as [_ HB]. pose proof unit_one_pos as Hone.
  assert (Hu : units F64.one = unit_one) by (by vm_compute).
  unfold take_one. fold b. change (F64.min _ burst) with y. rewrite le_units by (done || by vm_compute). rewrite Hu.
  destruct (unit_one <=? units y) eqn:Hge; bool_to_prop.
  - destruct (sub_one y Hy) as [Hp Hs].
    { split; [done|]. assert (B * unit_one < 2 ^ 53 * unit_one) by (apply Z.mul_lt_mono_pos_r; lia). lia. }
    exists (F64.sub y F64.one). split; [split; [done|lia]|]. by split.
  - exists y. split; [done|]. eexists. split; [done|]. split; [done|].
    split; [by apply ceil_at_least_one|by apply as_uint_range].
Qed.

(** [n] calls at one instant: how many are granted. *)
Fixpoint grants key (now : Z) (n : nat) bs : Z :=
  match n with
  | O => 0
  | S n =>
      match take_one key rps burst now now bs with
      | (Ok _, bs) => 1 + grants key now n bs
      | (Err _, bs) => grants key now n bs
      end
  end.

(** A bucket refilled at this instant grants what it holds, in whole tokens. *)
Lemma grants_exact key now n bs b :
  bs !! key = Some b -> Bucket.last_refill b = now -> within burst (Bucket.tokens b) ->
  grants key now n bs = Z.min (Z.of_nat n) (units (Bucket.tokens b) / unit_one).
Proof using rps_positive burst_u32.
  pose proof unit_one_pos as Hone. revert bs b. induction n as [|n IH]; intros bs b Hb Hl Hw; cbn [grants].
  { pose proof (Z.div_pos _ _ (units_nonneg (Bucket.tokens b)) Hone). lia. }
  pose proof (take_one_step key now now bs) as Hstep. cbv zeta in Hstep. rewrite Hb in Hstep. simpl default in Hstep.
  destruct (Hstep ltac:(apply Hw)) as (x' & Hx' & Ht). clear Hstep.
  assert (Hz : duration_since now (Bucket.last_refill b) = 0) by (unfold duration_since; lia).
  rewrite Hz, (refilled_now _ Hw) in Ht.
  pose proof (units_nonneg x') as Hu0.
  destruct (unit_one <=? units (Bucket.tokens b)) eqn:Hge; bool_to_prop.
  - destruct Ht as [-> Hu]. rewrite (IH _ (Bucket.mk x' now)) by (done || apply lookup_insert_eq). simpl. rewrite Hu.
    replace (units (Bucket.tokens b) - unit_one) with (units (Bucket.tokens b) + (-1) * unit_one) by lia.
    rewrite Z.div_add by lia. lia.
  - destruct Ht as (s & -> & Hu & _). rewrite (IH _ (Bucket.mk x' now)) by (done || apply lookup_insert_eq). simpl.
    rewrite Hu, Z.div_small by lia. lia.
Qed.
End Buckets.

(** ** The quota *)

Section Quota.
Variables (rps : F64.t) (B : Z).
Hypothesis rps_finite : F64.is_finite rps = true /\ valid rps.
Hypothesis enabled : F64.le rps F64.zero = false.
Hypothesis B_u32 : 0 <= B < 2 ^ 32.

Lemma enabled_positive : exists m e, rps = S754_finite false m e /\ canonical m e.
Proof using rps_finite enabled.
  destruct rps_finite as [Hf Hv]. destruct rps as [s|s| |[] m e]; try done. by eexists _, _.
Qed.

Definition burst_ok : 0 <= B < 2 ^ 32 /\ F64.of_Z B = F64.of_Z B := conj B_u32 eq_refl.

(** A call of [try_acquire] with its clock readings. *)
Record Call : Type := mk_call { bearer : option string; created : Z; at_ : Z }.

Definition call (q : Quota.t) (c : Call) : Quota.t := (Quota.try_acquire (bearer c) (created c) (at_ c) q).2.

(** The quota as it was configured, each bucket within its capacity. *)
Definition sound (q : Quota.t) : Prop :=
  Quota.rps q = rps /\ Quota.burst q = F64.of_Z B /\
  forall key b, Quota.buckets q !! key = Some b -> within (F64.of_Z B) (Bucket.tokens b).

Lemma new_within now : within (F64.of_Z B) (Bucket.tokens (Bucket.new (F64.of_Z B) now)).
Proof using B_u32. split; [apply (burst_proper _ B burst_ok)|done]. Qed.

Lemma found_within q key now :
  sound q -> within (F64.of_Z B) (Bucket.tokens (default (Bucket.new (F64.of_Z B) now) (Quota.buckets q !! key))).
Proof using B_u32.
  intros (_ & _ & Hb). destruct (Quota.buckets q !! key) as [b|] eqn:Hk; [by eapply Hb|apply new_within].
Qed.

(** What a call on a sound quota does. *)
Lemma try_acquire_sound q token cr now :
  sound q ->
  exists x', within (F64.of_Z B) x' /\
    let bs' := <[token := Bucket.mk x' now]> (Quota.buckets q) in
    let q' := Quota.mk rps (F64.of_Z B) bs' (Quota.org_buckets q) in
    sound q' /\
    ((take_one token rps (F64.of_Z B) cr now (Quota.buckets q) = (Ok tt, bs') /\
      Quota.try_acquire (Some token) cr now q = (Ok tt, q')) \/
     (exists s, take_one token rps (F64.of_Z B) cr now (Quota.buckets q) = (Err s, bs') /\
        Quota.try_acquire (Some token) cr now q = (Err s, q') /\ 1 <= s <= F64.u64_max)).
Proof using rps_finite enabled B_u32.
  intros Hq. pose proof (found_within q token cr Hq) as [Hf _]. destruct Hq as (Hr & Hb & Hin).
  destruct (take_one_step rps (F64.of_Z B) B enabled_positive burst_ok token cr now (Quota.buckets q) Hf)
    as (x' & Hx' & Hs). exists x'. split; [done|]. intros bs' q'.
  assert (Hsound : sound q').
  { split_and!; [done|done|]. intros key b. simpl. intros [[<- <-]|[_ H]]%lookup_insert_Some; [done|by eapply Hin]. }
  split; [done|].
  assert (Hacq : Quota.try_acquire (Some token) cr now q =
            let (r, b) := take_one token rps (F64.of_Z B) cr now (Quota.buckets q) in
            (r, Quota.mk rps (F64.of_Z B) b (Quota.org_buckets q))).
  { unfold Quota.try_acquire, Quota.is_disabled. by rewrite Hr, Hb, enabled. }
  destruct (unit_one <=? _).
  - left. destruct Hs as [Hs _]. rewrite Hacq, Hs. done.
  - right. destruct Hs as (s & Hs & _ & Hrange). exists s. rewrite Hacq, Hs. done.
Qed.

Lemma run_sound calls : sound (foldl call (Quota.new rps B) calls).
Proof using rps_finite enabled B_u32.
  induction calls as [|c calls IH] using rev_ind; [by split_and!|]. rewrite foldl_app. cbn [foldl].
  revert IH. generalize (foldl call (Quota.new rps B) calls). intros q Hq. unfold call. destruct (bearer c) as [token|].
  - destruct (try_acquire_sound _ token (created c) (at_ c) Hq) as (x' & _ & Hs & [[_ ->]|(s & _ & -> & _)]); done.
  - unfold Quota.try_acquire. by destruct (Quota.is_disabled _).
Qed.

(** How many of [n] forks with a token at one instant are let through. *)
Fixpoint granted (token : string) (now : Z) (n : nat) (q : Quota.t) : Z :=
  match n with
  | O => 0
  | S n =>
      match Quota.try_acquire (Some token) now now q with
      | (Ok _, q) => 1 + granted token now n q
      | (Err _, q) => granted token now n q
      end
  end.

Lemma granted_grants token now n q :
  sound q -> granted token now n q = grants rps (F64.of_Z B) token now n (Quota.buckets q).
Proof using rps_finite enabled B_u32.
  revert q. induction n as [|n IH]; intros q Hq; [done|]. cbn [granted grants].
  destruct (try_acquire_sound q token now now Hq) as (x' & _ & Hs & [[-> ->]|(s & -> & -> & _)]);
    rewrite (IH _ Hs); done.
Qed.

(** At most the capacity at one instant, whatever came before; a token not seen
    before gets exactly the capacity. *)
Lemma granted_bound token now n q :
  sound q -> 0 <= granted token now n q <= B /\
    (Quota.buckets q !! token = None -> granted token now n q = Z.min (Z.of_nat n) B).
Proof using rps_finite enabled B_u32.
  intros Hq. rewrite granted_grants by done. pose proof (burst_proper _ B burst_ok) as [Hbp HB].
  pose proof unit_one_pos as Hone.
  destruct n as [|n]; [simpl; lia|]. cbn [grants].
  pose proof (found_within q token now Hq) as Hf.
  destruct (take_one_step rps (F64.of_Z B) B enabled_positive burst_ok token now now (Quota.buckets q) ltac:(apply Hf))
    as (x' & Hx' & Hs). set (y := refilled _ _ _ _) in Hs.
  assert (Hy : units y <= B * unit_one).
  { rewrite <- HB. apply (refilled_within rps _ B enabled_positive burst_ok); [apply Hf|unfold duration_since; lia]. }
  pose proof (units_nonneg y) as Hy0.
  assert (Hex : grants rps (F64.of_Z B) token now n (<[token := Bucket.mk x' now]> (Quota.buckets q)) =
            Z.min (Z.of_nat n) (units x' / unit_one)).
  { rewrite (grants_exact rps _ B enabled_positive burst_ok token now n _ (Bucket.mk x' now)); [done|apply lookup_insert_eq|done|done]. }
  assert (Htotal : (match take_one token rps (F64.of_Z B) now now (Quota.buckets q) with
    | (Ok _, bs) => 1 + grants rps (F64.of_Z B) token now n bs
    | (Err _, bs) => grants rps (F64.of_Z B) token now n bs
    end) = Z.min (Z.of_nat (S n)) (units y / unit_one)).
  { destruct (unit_one <=? units y) eqn:Hge; bool_to_prop.
    - destruct Hs as [-> Hu]. rewrite Hex, Hu.
      replace (units y - unit_one) with (units y + (-1) * unit_one) by lia. rewrite Z.div_add by lia. lia.
    - destruct Hs as (s & -> & Hu & _). rewrite Hex, Hu, Z.div_small by lia. lia. }
  rewrite Htotal. assert (Hdiv : units y / unit_one <= B) by (apply Z.div_le_upper_bound; lia).
  pose proof (Z.div_pos _ _ Hy0 Hone) as Hd0. split; [lia|]. intros Hnone. unfold y. rewrite Hnone.
  simpl default. cbn [Bucket.new Bucket.tokens Bucket.last_refill].
  replace (duration_since now now) with 0 by (unfold duration_since; lia).
  rewrite (refilled_now rps _ B enabled_positive burst_ok), HB by apply (new_within now). by rewrite Z.div_mul by lia.
Qed.
End Quota.

(** ** Property *)

(** C25: The fork quota in 64-bit floats. With a finite positive rate and a burst
    of [B], whatever calls have been made at whatever times, each bucket holds
    between 0 and [B] tokens; at any one instant at most [B] forks with a token
    are let through, and exactly [B] (or as many as are asked for) with a token
    not seen before, no token being lost or gained to rounding; and a refusal
    asks to wait at least one second. With a rate of zero or less every call
    passes and nothing is recorded. *)
Theorem fork_quota_bounded rps B (calls : list Call) :
  F64.is_finite rps = true /\ valid rps -> 0 <= B < 2 ^ 32 ->
  let q := foldl call (Quota.new rps B) calls in
  (F64.le rps F64.zero = false ->
    (forall token b, Quota.buckets q !! token = Some b ->
       proper (Bucket.tokens b) /\ 0 <= units (Bucket.tokens b) <= B * unit_one) /\
    (forall token now n, 0 <= granted token now n q <= B /\
       (Quota.buckets q !! token = None -> granted token now n q = Z.min (Z.of_nat n) B)) /\
    (forall token cr now s, (Quota.try_acquire (Some token) cr now q).1 = Err s -> 1 <= s <= F64.u64_max)) /\
  (F64.le rps F64.zero = true ->
    forall bearer cr now, Quota.try_acquire bearer cr now (Quota.new rps B) = (Ok tt, Quota.new rps B)).
Proof.
  intros Hr HB q. split.
  - intros He. pose proof (run_sound rps B Hr He HB calls) as Hq. fold q in Hq. split_and!.
    + intros token b Hb. destruct (proj2 (proj2 Hq) _ _ Hb) as [Hp Hu].
      rewrite (proj2 (burst_proper _ B (conj HB eq_refl))) in Hu. pose proof (units_nonneg (Bucket.tokens b)). done.
    + intros. by apply (granted_bound rps B).
    + intros token cr now s. destruct (try_acquire_sound rps B Hr He HB q token cr now Hq)
        as (x' & _ & _ & [[_ ->]|(s' & _ & -> & ?)]); [done|]. by intros [= <-].
  - intros Hd bearer cr now. unfold Quota.try_acquire, Quota.is_disabled. simpl. by rewrite Hd.
Qed.

(** Two forks a second with a burst of three. *)
Lemma fork_quota_bounded_witness :
  granted "tok" 7 5 (foldl call (Quota.new (F64.of_Z 2) 3) [mk_call (Some "other") 0 1; mk_call None 2 2]) = 3.
Proof.
  refine (proj2 (proj1 (proj2 (proj1 (fork_quota_bounded (F64.of_Z 2) 3
    [mk_call (Some "other") 0 1; mk_call None 2 2] _ _) _)) "tok" 7 5%nat) _).
  - vm_compute. done.
  - lia.
  - vm_compute. reflexivity.
  - vm_compute. reflexivity.
Defined.
