(* ===== verification/Jailer.v ===== *)
(** * Cgroup isolation ([crates/nanovm-jailer], [crates/vm-kvm/src/cgroups.rs])

    The jailer resolves the parent cgroup, creates the VM's own cgroup with its
    caps, moves the process into it and replaces it by the worker; [Limits] are
    the caps a hypervisor process puts on itself. The cgroup file system, [/proc]
    and [execve] are the interface [JailOs]; that [exec] replaced the process is
    the outcome [Ok tt]. What is logged is not modelled, and the command line is
    the record clap fills. *)

From Stdlib Require Import Ascii String.
From stdpp Require Import strings pretty.
From S2P Require Import Prelude Str Fs VmCore.

#[global] Instance Component_eq_dec : EqDecision Component.
Proof. solve_decision. Defined.

(** [std::io::Error], as far as it is inspected. *)
Module JailIoError.
Record t : Type := mk { already_exists : bool; text : string }.
End JailIoError.

Definition CPU_PERIOD_US : Z := 100000.
Definition CGROUP_ROOT : string := "/sys/fs/cgroup".

Module JailerConfig.
Record t : Type := mk {
  vm_id : Z;
  memory_limit_mib : option Z;
  cpu_quota_pct : option Z;
  socket : string;
  vmm_child_binary : string;
  cgroup_parent : option string;
}.
End JailerConfig.
Import JailerConfig.

Inductive JailerError : Type :=
| JailIo (path : string) (source : JailIoError.t)
| NoCgroupV2
| ControllersMissing (parent : string) (missing : list string)
| AlreadyExists (path : string)
| JailExec (binary : string) (source : JailIoError.t).

(** The system calls of the jailer. [jail_exec] returns only on failure; that
    the worker runs in the jailer's place is its [Ok]. *)
Class JailOs (X : Type) := {
  jail_read_to_string : string -> SM X JailIoError.t string;
  jail_create_dir : string -> SM X JailIoError.t unit;
  jail_write : string -> string -> SM X JailIoError.t unit;
  jail_remove_dir : string -> SM X JailIoError.t unit;
  jail_exec : string -> list string -> SM X JailIoError.t unit;
}.

(** ** Paths *)

(** [str::lines] *)
Definition strip_cr (s : string) : string :=
  match rsplit_once "013"%char s with Some (a, "") => a | _ => s end.

Fixpoint drop_last_empty (l : list string) : list string :=
  match l with
  | [] => []
  | [x] => if String.eqb x "" then [] else [x]
  | x :: l => x :: drop_last_empty l
  end.

Definition lines (s : string) : list string := strip_cr <$> drop_last_empty (split "010"%char s).

Definition parse_own_cgroup_line (proc_self_cgroup : string) : result JailerError string :=
  ok_or NoCgroupV2 (head (omap (strip_str_prefix "0::") (lines proc_self_cgroup))).

(** [Path::starts_with] and [==]: paths are compared by their components. *)
Definition path_starts_with (p q : string) : bool :=
  bool_decide (take (length (components q)) (components p) = components q).
Definition path_eq (p q : string) : bool := bool_decide (components p = components q).

(** [trim_start_matches('/')] *)
Fixpoint trim_slashes (s : string) : string :=
  match s with String c r => if Ascii.eqb c slash then trim_slashes r else s | "" => "" end.

Definition normalize_parent (parent : string) : string :=
  if path_eq parent CGROUP_ROOT || path_starts_with parent CGROUP_ROOT then parent
  else
    let trimmed := trim_slashes (from_utf8_lossy (bytes_of_string parent)) in
    if String.eqb trimmed "" then CGROUP_ROOT else push CGROUP_ROOT trimmed.

Definition cgroup_name (vm_id : Z) : string := "nanovm-vm-" +:+ pretty vm_id.

Definition child_cgroup_path (parent : string) (vm_id : Z) : string :=
  push (normalize_parent parent) (cgroup_name vm_id).

(** [str::split_ascii_whitespace] *)
Fixpoint split_whitespace_from (word : string) (s : string) : list string :=
  match s with
  | "" => if String.eqb word "" then [] else [word]
  | String c s =>
      if is_ascii_whitespace c
      then if String.eqb word "" then split_whitespace_from "" s else word :: split_whitespace_from "" s
      else split_whitespace_from (word +:+ String c "") s
  end.
Definition split_ascii_whitespace : string -> list string := split_whitespace_from "".

Definition missing_controllers (enabled : string) (needed : list string) : list string :=
  let tokens := split_ascii_whitespace enabled in
  List.filter (fun ctl => negb (existsb (String.eqb ctl) tokens)) needed.

Definition required_controllers (cfg : JailerConfig.t) : list string :=
  (if memory_limit_mib cfg is Some _ then ["memory"] else []) ++
  (if cpu_quota_pct cfg is Some _ then ["cpu"] else []).

Definition memory_max (mib : Z) : string := pretty (saturating_mul64 mib (1024 * 1024)).
Definition cpu_max (pct : Z) : string :=
  pretty (saturating_mul64 pct CPU_PERIOD_US / 100) +:+ " " +:+ pretty CPU_PERIOD_US.

(** ** The jail *)

Section Jail.
Context {X : Type} `{!JailOs X}.
(** [std::process::id()] *)
Variable pid : Z.

(** [.map_err(|source| JailerError::Io { path, source })?] *)
Definition jail_io {A} (path : string) (c : SM X JailIoError.t A) : SM X JailerError A :=
  fun x => let (r, x) := c x in (map_err (JailIo path) r, x).

Definition own_cgroup_path : SM X JailerError string :=
  txt ← jail_io "/proc/self/cgroup" (jail_read_to_string "/proc/self/cgroup");
  sm_lift (parse_own_cgroup_line txt).

Definition check_controllers (parent : string) (needed : list string) : SM X JailerError unit :=
  let path := push parent "cgroup.subtree_control" in
  enabled ← jail_io path (jail_read_to_string path);
  match missing_controllers enabled needed with
  | [] => mret tt
  | missing => sm_fail (ControllersMissing parent missing)
  end.

Definition cleanup_after_exec_failure (parent child : string) (x : X) : X :=
  let (_, x) := jail_write (push parent "cgroup.procs") (pretty pid) x in
  let (_, x) := jail_remove_dir child x in x.

Definition exec_into_worker (cfg : JailerConfig.t) : SM X JailerError unit := fun x =>
  let (r, x) := jail_exec (vmm_child_binary cfg) ["--socket"; socket cfg] x in
  (map_err (JailExec (vmm_child_binary cfg)) r, x).

Definition create_child (child : string) : SM X JailerError unit := fun x =>
  let (r, x) := jail_create_dir child x in
  (map_err (fun source => if JailIoError.already_exists source then AlreadyExists child
                          else JailIo child source) r, x).

Definition resolve_parent (cfg : JailerConfig.t) : SM X JailerError string :=
  match cgroup_parent cfg with
  | Some p => mret (normalize_parent p)
  | None => own ← own_cgroup_path; mret (normalize_parent own)
  end.

Definition apply_caps (cfg : JailerConfig.t) (child : string) : SM X JailerError unit :=
  _ ← (match memory_limit_mib cfg with
       | Some mib => let path := push child "memory.max" in jail_io path (jail_write path (memory_max mib))
       | None => mret tt
       end);
  match cpu_quota_pct cfg with
  | Some pct => let path := push child "cpu.max" in jail_io path (jail_write path (cpu_max pct))
  | None => mret tt
  end.

Definition exec_or_cleanup (cfg : JailerConfig.t) (parent child : string) : SM X JailerError unit := fun x =>
  match exec_into_worker cfg x with
  | (Err (JailExec binary source), x) =>
      (Err (JailExec binary source), cleanup_after_exec_failure parent child x)
  | other => other
  end.

Definition apply_isolation_and_exec (cfg : JailerConfig.t) : SM X JailerError unit :=
  parent ← resolve_parent cfg;
  let needed := required_controllers cfg in
  _ ← (match needed with [] => mret tt | _ => check_controllers parent needed end);
  let child := child_cgroup_path parent (vm_id cfg) in
  _ ← create_child child;
  _ ← apply_caps cfg child;
  let procs := push child "cgroup.procs" in
  _ ← jail_io procs (jail_write procs (pretty pid));
  exec_or_cleanup cfg parent child.

(** [main]: a worker binary given by a relative path is refused first. *)
Inductive MainError : Type :=
| NotAbsolute (path : string)
| Failed (e : JailerError).

Definition main (args : JailerConfig.t) : SM X MainError unit :=
  if negb (is_absolute (vmm_child_binary args)) then sm_fail (NotAbsolute (vmm_child_binary args))
  else fun x => let (r, x) := apply_isolation_and_exec args x in (map_err Failed r, x).
End Jail.

(** ** The caps of a hypervisor process on itself

    [crates/vm-kvm/src/cgroups.rs]. [debug_str] renders a quoted string and
    [parse_error] what is wrong with a number; an environment variable that is
    not UTF-8 reads as unset. *)
Module Limits.
Record t : Type := mk { memory_mib : option Z; cpu_quota_pct : option Z }.

Definition any_set (l : t) : bool :=
  (if memory_mib l is Some _ then true else false) || (if cpu_quota_pct l is Some _ then true else false).

Definition MEMORY_ENV : string := "NANOVM_VMM_MEMORY_LIMIT_MIB".
Definition CPU_ENV : string := "NANOVM_VMM_CPU_QUOTA_PCT".

Section Limits.
Context {X : Type} `{!JailOs X}.
Variables (debug_str : string -> string) (debug_strs : list string -> string) (parse_error : string -> string).
Variable env : string -> option string.
Variable pid : Z.

Definition parse_env (max : Z) (key : string) : result VmError (option Z) :=
  match env key with
  | None => Ok None
  | Some raw =>
      match parse_uint max (trim raw) with
      | Some n => Ok (Some n)
      | None =>
          Err (Backend ("cgroups: " +:+ key +:+ "=" +:+ debug_str raw +:+ " is not a non-negative integer ("
            +:+ parse_error (trim raw) +:+ "); unset or fix the value, don't leave a garbage cap request"))
      end
  end.

Definition from_env : result VmError t :=
  memory ← parse_env (2 ^ 64 - 1) MEMORY_ENV;
  cpu ← parse_env (2 ^ 32 - 1) CPU_ENV;
  Ok (mk memory cpu).

Definition env_opts_in : bool :=
  (if env MEMORY_ENV is Some _ then true else false) || (if env CPU_ENV is Some _ then true else false).

(** A system call whose failure becomes a [Backend] error. *)
Definition sys {A} (render : JailIoError.t -> string) (c : SM X JailIoError.t A) : SM X VmError A :=
  fun x => let (r, x) := c x in (map_err (fun e => Backend (render e)) r, x).

Definition own_cgroup_path : SM X VmError string :=
  txt ← sys (fun e => "cgroups: read /proc/self/cgroup: " +:+ JailIoError.text e)
          (jail_read_to_string "/proc/self/cgroup");
  sm_lift (ok_or (Backend "cgroups: no cgroup v2 line in /proc/self/cgroup (host is legacy cgroup v1?)")
             (head (omap (strip_str_prefix "0::") (lines txt)))).

Definition check_controllers_delegated (parent : string) (needed : list string) : SM X VmError unit :=
  let path := push parent "cgroup.subtree_control" in
  enabled ← sys (fun e => "cgroups: read " +:+ path +:+ ": " +:+ JailIoError.text e +:+
                          " (is cgroup v2 mounted at " +:+ CGROUP_ROOT +:+ "?)") (jail_read_to_string path);
  match missing_controllers enabled needed with
  | [] => mret tt
  | missing =>
      sm_fail (Backend ("cgroups: parent " +:+ parent +:+ " does not delegate controllers " +:+ debug_strs missing
        +:+ " (enable them in " +:+ parent +:+ "/cgroup.subtree_control, or run under a "
        +:+ "systemd unit with `Delegate=memory cpu`)"))
  end.

Definition child_cgroup_path : SM X VmError string :=
  own ← own_cgroup_path;
  let trimmed := trim_slashes own in
  let path := if String.eqb trimmed "" then CGROUP_ROOT else push CGROUP_ROOT trimmed in
  mret (push path ("nanovm-vmm-" +:+ pretty pid)).

Definition create_child (child : string) : SM X VmError unit :=
  sys (fun e =>
    if JailIoError.already_exists e
    then "cgroups: child " +:+ child +:+ " already exists — a previous VMM with the "
         +:+ "same PID likely crashed; rmdir the leftover directory and retry"
    else "cgroups: create " +:+ child +:+ ": " +:+ JailIoError.text e) (jail_create_dir child).

Definition write_knob (context path value : string) : SM X VmError unit :=
  sys (fun e => "cgroups: " +:+ context +:+ " " +:+ path +:+ ": " +:+ JailIoError.text e) (jail_write path value).

Definition required (l : t) : list string :=
  (if memory_mib l is Some _ then ["memory"] else []) ++ (if cpu_quota_pct l is Some _ then ["cpu"] else []).

Definition install_default_limits : SM X VmError unit :=
  limits ← sm_lift from_env;
  if negb (any_set limits) then mret tt
  else
    child ← child_cgroup_path;
    parent ← sm_lift (ok_or (Backend "cgroups: child path has no parent (impossible)") (Fs.parent child));
    _ ← check_controllers_delegated parent (required limits);
    _ ← create_child child;
    _ ← (match memory_mib limits with
         | Some mib => write_knob "write" (push child "memory.max") (memory_max mib)
         | None => mret tt
         end);
    _ ← (match cpu_quota_pct limits with
         | Some pct => write_knob "write" (push child "cpu.max") (cpu_max pct)
         | None => mret tt
         end);
    write_knob "attach pid to" (push child "cgroup.procs") (pretty pid).
End Limits.
End Limits.
