(* ===== verification/JailerProps.v ===== *)
(** * What the jailer does before the worker runs

    Theorems about [Jailer] on any system: its calls are recorded, and the
    record shows that the worker starts only in a cgroup created for it, with
    the caps in place and the controllers delegated. *)

From Stdlib Require Import Ascii String.
From stdpp Require Import strings pretty.
From S2P Require Import Prelude Str Fs VmCore Jailer.
Import JailerConfig.

(** ** A record of the calls *)

Inductive Op : Type :=
| OCreate (path : string)
| OWrite (path value : string)
| ORemove (path : string)
| OExec (binary : string) (args : list string).

Inductive Event : Type :=
| ERead (path : string) (contents : option string)
| EOp (op : Op) (succeeded : bool).

Definition is_read (e : Event) : bool := match e with ERead _ _ => true | _ => false end.

Definition done (op : Op) : Event := EOp op true.

Section Log.
Context {X : Type} `{!JailOs X}.

Definition record {A} (ev : result JailIoError.t A -> Event) (c : SM X JailIoError.t A) :
    SM (X * list Event) JailIoError.t A := fun s =>
  let (r, x) := c s.1 in (r, (x, s.2 ++ [ev r])).

#[global] Instance logged : JailOs (X * list Event) := {|
  jail_read_to_string p :=
    record (fun r => ERead p (match r with Ok t => Some t | Err _ => None end)) (jail_read_to_string p);
  jail_create_dir p := record (fun r => EOp (OCreate p) (is_ok r)) (jail_create_dir p);
  jail_write p v := record (fun r => EOp (OWrite p v) (is_ok r)) (jail_write p v);
  jail_remove_dir p := record (fun r => EOp (ORemove p) (is_ok r)) (jail_remove_dir p);
  jail_exec b args := record (fun r => EOp (OExec b args) (is_ok r)) (jail_exec b args);
|}.

(** A computation that performs the operations in order and stops at the first
    that fails. *)
Definition stopped (ops : list Op) (evs : list Event) : Prop :=
  exists k op, ops !! k = Some op /\ evs = (done <$> take k ops) ++ [EOp op false].

Definition performs {E} (c : SM (X * list Event) E unit) (ops : list Op) : Prop := forall x evs,
  exists r x' new, c (x, evs) = (r, (x', evs ++ new)) /\
    match r with Ok _ => new = done <$> ops | Err _ => stopped ops new end.

Lemma performs_nil {E} : @performs E (mret tt) [].
Proof. intros x evs. exists (Ok tt), x, []. by rewrite app_nil_r. Qed.

Lemma performs_bind {E} (c d : SM (X * list Event) E unit) ops ops' :
  performs c ops -> performs d ops' -> performs (_ ← c; d) (ops ++ ops').
Proof.
  intros Hc Hd x evs. destruct (Hc x evs) as (r & x1 & new & H1 & Hr).
  destruct r as [[]|e].
  - destruct (Hd x1 (evs ++ new)) as (r & x2 & new' & H2 & Hr').
    exists r, x2, (new ++ new'). split; [by rewrite (sm_bind_ok _ _ _ _ _ H1), H2, app_assoc|].
    subst new. destruct r as [[]|e]; [by rewrite fmap_app, Hr'|].
    destruct Hr' as (k & op & Hk & ->). exists (length ops + k)%nat, op. split.
    + by rewrite lookup_app_r, Nat.add_comm, Nat.add_sub by lia.
    + by rewrite take_app_add, fmap_app, <- app_assoc.
  - exists (Err e), x1, new. split; [by rewrite (sm_bind_err _ _ _ _ _ H1)|].
    destruct Hr as (k & op & Hk & ->). exists k, op. split; [by apply lookup_app_l_Some|].
    by rewrite take_app_le by (apply lookup_lt_Some in Hk; lia).
Qed.

(** A recorded operation whose error is mapped. *)
Lemma performs_op {E} (f : JailIoError.t -> E) op (c : SM X JailIoError.t unit) :
  performs (fun s => let (r, s) := record (fun r => EOp op (is_ok r)) c s in (map_err f r, s)) [op].
Proof.
  intros x evs. unfold record. simpl. destruct (c x) as [r x'].
  exists (map_err f r), x', [EOp op (is_ok r)]. split; [done|].
  destruct r as [[]|e]; [done|]. by exists 0%nat, op.
Qed.
End Log.

(** ** Paths *)

Section Paths.
Implicit Types (parent path : string).

Lemma trim_slashes_relative s : is_absolute (trim_slashes s) = false.
Proof.
  induction s as [|c s IH]; [done|]. simpl. destruct (Ascii.eqb c slash) eqn:Hc; [done|].
  simpl. apply bool_decide_eq_false. by apply Ascii.eqb_neq.
Qed.

Lemma root_components : components CGROUP_ROOT = [RootDir; Normal "sys"; Normal "fs"; Normal "cgroup"].
Proof. reflexivity. Qed.

Lemma starts_absolute path : path_starts_with path CGROUP_ROOT = true -> is_absolute path = true.
Proof.
  unfold path_starts_with. rewrite root_components. intros H%bool_decide_eq_true.
  destruct (is_absolute path) eqn:Ha; [done|]. unfold components in H. rewrite Ha in H.
  destruct (split_slash path) as [|part parts]; [done|].
  destruct (String.eqb part "."); [done|]. unfold part_component at 1 in H.
  repeat (match type of H with context [if ?b then _ else _] => destruct b end; try done).
  all: exfalso; induction parts as [|p ps IH]; [done|]; simpl in H; revert H; unfold part_component at 1;
    repeat (match goal with |- context [if ?b then _ else _] => destruct b end; try done).
Qed.

Lemma path_starts_with_push path part :
  path_starts_with path CGROUP_ROOT = true -> is_absolute part = false ->
  path_starts_with (push path part) CGROUP_ROOT = true /\
  components (push path part) = components path ++ added part.
Proof.
  intros Hp Hr. destruct (components_push path part (starts_absolute path Hp) Hr) as [Hc _].
  split; [|done]. unfold path_starts_with in *. rewrite Hc. apply bool_decide_eq_true in Hp.
  apply bool_decide_eq_true. rewrite take_app_le; [done|].
  apply (f_equal length) in Hp. rewrite length_take in Hp. lia.
Qed.

Lemma normalize_parent_rooted parent : path_starts_with (normalize_parent parent) CGROUP_ROOT = true.
Proof.
  unfold normalize_parent. destruct (path_eq parent CGROUP_ROOT) eqn:He.
  - simpl. unfold path_eq in He. apply bool_decide_eq_true in He. unfold path_starts_with.
    rewrite He. by apply bool_decide_eq_true.
  - simpl. destruct (path_starts_with parent CGROUP_ROOT) eqn:Hs; [done|].
    case_if; [reflexivity|]. apply path_starts_with_push; [reflexivity|apply trim_slashes_relative].
Qed.
End Paths.

(** A decimal numeral holds no slash. *)
Lemma pretty_N_go_no_slash x s : has_char slash (pretty_N_go x s) = has_char slash s.
Proof.
  revert s. induction (N.lt_wf_0 x) as [x _ IH]. intros s.
  destruct (decide (x = 0)%N) as [->|Hx]; [by rewrite pretty_N_go_0|].
  rewrite pretty_N_go_step by lia. rewrite IH by (apply N.div_lt; lia). simpl.
  assert (Hd : Ascii.eqb (pretty_N_char (x mod 10)) slash = false).
  { pose proof (N.mod_lt x 10 ltac:(done)).
    destruct (x `mod` 10)%N as [|p]; [done|]. do 4 (destruct p as [p|p|]; try done). }
  by rewrite Hd.
Qed.

Lemma pretty_no_slash (z : Z) : has_char slash (pretty z) = false.
Proof.
  assert (HN : forall n : N, has_char slash (pretty n) = false).
  { intros n. unfold pretty, pretty_N. case_decide; [reflexivity|]. by rewrite pretty_N_go_no_slash. }
  destruct z as [|p|p]; [done|apply (HN (N.pos p))|].
  change (pretty (Z.neg p)) with ("-" +:+ pretty (N.pos p)). rewrite has_char_app. simpl. apply HN.
Qed.

Lemma has_char_elem c s : has_char c s = false -> c ∉ list_ascii_of_string s.
Proof.
  induction s as [|a s IH]; simpl; [by intros _ ?%elem_of_nil|].
  intros [Ha Hs]%orb_false_iff. rewrite not_elem_of_cons. split; [|auto].
  intros ->. by rewrite Ascii.eqb_refl in Ha.
Qed.

Lemma cgroup_name_added id : added (cgroup_name id) = [Normal (cgroup_name id)].
Proof.
  unfold added. rewrite split_slash_plain; [|apply has_char_elem; unfold cgroup_name;
    rewrite has_char_app; apply pretty_no_slash].
  unfold cgroup_name. simpl. unfold part_component. done.
Qed.

(** The VM's cgroup is directly below the parent, under the cgroup root. *)
Lemma child_cgroup_components parent id :
  path_starts_with (child_cgroup_path parent id) CGROUP_ROOT = true /\
  components (child_cgroup_path parent id) =
    components (normalize_parent parent) ++ [Normal (cgroup_name id)].
Proof.
  unfold child_cgroup_path. rewrite <- cgroup_name_added.
  apply path_starts_with_push; [apply normalize_parent_rooted|done].
Qed.

Lemma child_cgroup_inj parent id parent' id' :
  child_cgroup_path parent id = child_cgroup_path parent' id' -> id = id'.
Proof.
  intros H%(f_equal components). rewrite (proj2 (child_cgroup_components parent id)),
    (proj2 (child_cgroup_components parent' id')) in H.
  apply app_inj_tail in H as [_ [= H]]. unfold cgroup_name in H.
  by apply (inj (String.append _)), (inj pretty) in H.
Qed.

(** An absolute parent below the root is used as it is given. *)
Lemma normalize_parent_idem parent : normalize_parent (normalize_parent parent) = normalize_parent parent.
Proof.
  unfold normalize_parent at 1. rewrite normalize_parent_rooted, orb_true_r. done.
Qed.

(** ** The jailer's run *)

Section Run.
Context {X : Type} `{!JailOs X} (pid : Z).
Implicit Types (cfg : JailerConfig.t) (parent : string) (evs : list Event).

(** What the jailer does to the system before [exec]. *)
Definition setup cfg parent : list Op :=
  let child := child_cgroup_path parent (vm_id cfg) in
  [OCreate child] ++
  (if memory_limit_mib cfg is Some mib then [OWrite (push child "memory.max") (memory_max mib)] else []) ++
  (if cpu_quota_pct cfg is Some pct then [OWrite (push child "cpu.max") (cpu_max pct)] else []) ++
  [OWrite (push child "cgroup.procs") (pretty pid)].

Definition start_worker cfg : Op := OExec (vmm_child_binary cfg) ["--socket"; socket cfg].

(** The parent the reads led to. *)
Definition chosen_parent cfg evs parent : Prop :=
  match cgroup_parent cfg with
  | Some p => parent = normalize_parent p
  | None => exists txt own, ERead "/proc/self/cgroup" (Some txt) ∈ evs /\
              parse_own_cgroup_line txt = Ok own /\ parent = normalize_parent own
  end.

(** Its controllers are delegated. *)
Definition delegated cfg evs parent : Prop :=
  required_controllers cfg = [] \/
  exists txt, ERead (push parent "cgroup.subtree_control") (Some txt) ∈ evs /\
    Forall (fun ctl => ctl ∈ split_ascii_whitespace txt) (required_controllers cfg).

Lemma apply_caps_performs cfg child :
  performs (apply_caps (X := X * list Event) cfg child)
    ((if memory_limit_mib cfg is Some mib then [OWrite (push child "memory.max") (memory_max mib)] else []) ++
     (if cpu_quota_pct cfg is Some pct then [OWrite (push child "cpu.max") (cpu_max pct)] else [])).
Proof.
  unfold apply_caps. apply performs_bind.
  - destruct (memory_limit_mib cfg); [apply performs_op|apply performs_nil].
  - destruct (cpu_quota_pct cfg); [apply performs_op|apply performs_nil].
Qed.

Lemma missing_controllers_nil enabled needed :
  missing_controllers enabled needed = [] ->
  Forall (fun ctl => ctl ∈ split_ascii_whitespace enabled) needed.
Proof.
  unfold missing_controllers. induction needed as [|c needed IH]; simpl; [constructor|].
  destruct (existsb _ _) eqn:He; simpl; [|done]. intros H. constructor; [|auto].
  apply existsb_exists in He as (x & Hx & ->%String.eqb_eq). by apply list_elem_of_In.
Qed.

Lemma resolve_parent_reads cfg x evs :
  exists r x' new, resolve_parent cfg (x, evs) = (r, (x', evs ++ new)) /\
    Forall (fun e => is_read e = true) new /\
    match r with Ok parent => chosen_parent cfg new parent | Err (JailExec _ _) => False | Err _ => True end.
Proof.
  unfold resolve_parent, chosen_parent. destruct (cgroup_parent cfg) as [p|].
  - exists (Ok (normalize_parent p)), x, []. by rewrite app_nil_r.
  - unfold own_cgroup_path, jail_io, mbind, sm_bind. cbn [jail_read_to_string logged]. unfold record. cbn [fst snd].
    destruct (jail_read_to_string _ x) as [[txt|e] x'].
    + exists (match parse_own_cgroup_line txt with Ok own => Ok (normalize_parent own) | Err e => Err e end), x',
        [ERead "/proc/self/cgroup" (Some txt)].
      unfold sm_lift. simpl. split; [by destruct (parse_own_cgroup_line txt)|]. split; [by repeat constructor|].
      destruct (parse_own_cgroup_line txt) as [own|e] eqn:Hp.
      * exists txt, own. split_and!; [left|done|done].
      * revert Hp. unfold parse_own_cgroup_line. by destruct (head _) as [?|]; [|intros [= <-]].
    + eexists (Err _), x', [ERead "/proc/self/cgroup" None]. split; [done|]. by repeat constructor.
Qed.

Lemma check_controllers_reads cfg parent x evs :
  exists r x' new,
    (match required_controllers cfg with
     | [] => mret tt
     | _ => check_controllers parent (required_controllers cfg)
     end : SM (X * list Event) JailerError unit) (x, evs) = (r, (x', evs ++ new)) /\
    Forall (fun e => is_read e = true) new /\
    match r with Ok _ => delegated cfg new parent | Err (JailExec _ _) => False | Err _ => True end.
Proof.
  unfold delegated. destruct (required_controllers cfg) as [|c needed] eqn:Hr.
  - exists (Ok tt), x, []. rewrite app_nil_r. split_and!; [done|constructor|by left].
  - unfold check_controllers, jail_io, mbind, sm_bind. cbn [jail_read_to_string logged]. unfold record. cbn [fst snd].
    set (path := push parent "cgroup.subtree_control").
    destruct (jail_read_to_string path x) as [[txt|e] x'].
    + cbn [map_err]. destruct (missing_controllers txt (c :: needed)) as [|m ms] eqn:Hm.
      * exists (Ok tt), x', [ERead path (Some txt)]. split_and!; [done|by repeat constructor|].
        right. exists txt. split; [left|by apply missing_controllers_nil].
      * eexists (Err _), x', [ERead path (Some txt)]. split_and!; [done|by repeat constructor|done].
    + eexists (Err _), x', [ERead path None]. split_and!; [done|by repeat constructor|done].
Qed.

Lemma setup_performs cfg parent :
  let child := child_cgroup_path parent (vm_id cfg) in
  performs (_ ← create_child (X := X * list Event) child; _ ← apply_caps cfg child;
            jail_io (push child "cgroup.procs") (jail_write (push child "cgroup.procs") (pretty pid)))
    (setup cfg parent).
Proof.
  intros child. apply performs_bind; [apply performs_op|]. rewrite app_assoc.
  apply performs_bind; [apply apply_caps_performs|apply performs_op].
Qed.

(** What a run that got past its reads did. *)
Inductive ran cfg parent : bool -> list Event -> Prop :=
| ran_stopped evs : stopped (setup cfg parent) evs -> ran cfg parent false evs
| ran_undone b b' :
    ran cfg parent false ((done <$> setup cfg parent) ++
      [EOp (start_worker cfg) false; EOp (OWrite (push parent "cgroup.procs") (pretty pid)) b;
       EOp (ORemove (child_cgroup_path parent (vm_id cfg))) b'])
| ran_worker : ran cfg parent true (done <$> setup cfg parent ++ [start_worker cfg]).

Lemma exec_or_cleanup_runs cfg parent x evs :
  exists r x' new, exec_or_cleanup pid cfg parent (child_cgroup_path parent (vm_id cfg)) (x, evs) =
      (r, (x', evs ++ new)) /\ ran cfg parent (is_ok r) ((done <$> setup cfg parent) ++ new).
Proof.
  unfold exec_or_cleanup, exec_into_worker. cbn [jail_exec logged]. unfold record at 1. cbn [fst snd].
  destruct (jail_exec _ _ x) as [[[]|e] x1]; cbn [map_err is_ok].
  - exists (Ok tt), x1, [done (start_worker cfg)]. split; [done|].
    replace ((done <$> _) ++ _) with (done <$> setup cfg parent ++ [start_worker cfg])
      by by rewrite fmap_app. apply ran_worker.
  - unfold cleanup_after_exec_failure. cbn [jail_write jail_remove_dir logged]. unfold record. cbn [fst snd].
    destruct (jail_write _ _ x1) as [r2 x2]. cbn [fst snd].
    destruct (jail_remove_dir _ x2) as [r3 x3]. cbn [fst snd].
    eexists (Err _), x3, _. rewrite <- !app_assoc. split; [done|]. apply ran_undone.
Qed.

Lemma isolation_runs cfg parent x evs :
  let child := child_cgroup_path parent (vm_id cfg) in
  exists r x' new,
    (_ ← create_child (X := X * list Event) child; _ ← apply_caps cfg child;
     _ ← jail_io (push child "cgroup.procs") (jail_write (push child "cgroup.procs") (pretty pid));
     exec_or_cleanup pid cfg parent child) (x, evs) = (r, (x', evs ++ new)) /\
    ran cfg parent (is_ok r) new.
Proof.
  intros child. destruct (setup_performs cfg parent x evs) as (r & x1 & new & H1 & Hr).
  fold child in H1.
  assert (Hassoc : (_ ← create_child (X := X * list Event) child; _ ← apply_caps cfg child;
     _ ← jail_io (push child "cgroup.procs") (jail_write (push child "cgroup.procs") (pretty pid));
     exec_or_cleanup pid cfg parent child) (x, evs) =
    match r with Ok _ => exec_or_cleanup pid cfg parent child (x1, evs ++ new) | Err e => (Err e, (x1, evs ++ new)) end).
  { revert H1. unfold mbind, sm_bind. destruct (create_child child (x, evs)) as [[?|?] s1]; [|by intros [= <- ->]].
    destruct (apply_caps cfg child s1) as [[?|?] s2]; [|by intros [= <- ->]].
    destruct (jail_io _ _ s2) as [[?|?] s3]; by intros [= <- ->]. }
  rewrite Hassoc. destruct r as [[]|e].
  - subst new. destruct (exec_or_cleanup_runs cfg parent x1 (evs ++ (done <$> setup cfg parent))) as
      (r & x2 & new & H2 & Hran). exists r, x2, ((done <$> setup cfg parent) ++ new).
    by rewrite app_assoc.
  - exists (Err e), x1, new. split; [done|]. by constructor.
Qed.
End Run.

(** ** The caps of a hypervisor process on itself *)

Section LimitsRun.
Context {X : Type} `{!JailOs X} (debug_str : string -> string) (debug_strs : list string -> string).
Context (parse_error : string -> string) (env : string -> option string) (pid : Z).
Implicit Types (l : Limits.t) (child : string).

Definition limits_setup l child : list Op :=
  [OCreate child] ++
  (if Limits.memory_mib l is Some mib then [OWrite (push child "memory.max") (memory_max mib)] else []) ++
  (if Limits.cpu_quota_pct l is Some pct then [OWrite (push child "cpu.max") (cpu_max pct)] else []) ++
  [OWrite (push child "cgroup.procs") (pretty pid)].

Lemma child_path_reads x evs :
  exists r x' new, Limits.child_cgroup_path pid (x, evs) = (r, (x', evs ++ new)) /\
    Forall (fun e => is_read e = true) new.
Proof.
  unfold Limits.child_cgroup_path, Limits.own_cgroup_path, Limits.sys, mbind, sm_bind, sm_lift.
  cbn [jail_read_to_string logged]. unfold record. cbn [fst snd].
  destruct (jail_read_to_string _ x) as [[txt|e] x']; cbn [map_err].
  - destruct (head _) as [own|]; eexists _, x', [ERead _ (Some txt)]; split; by repeat constructor.
  - eexists _, x', [ERead _ None]. split; by repeat constructor.
Qed.

Lemma delegation_reads parent needed x evs :
  exists r x' new,
    Limits.check_controllers_delegated debug_strs parent needed (x, evs) = (r, (x', evs ++ new)) /\
    Forall (fun e => is_read e = true) new /\
    (is_ok r = true -> exists txt, ERead (push parent "cgroup.subtree_control") (Some txt) ∈ new /\
       Forall (fun ctl => ctl ∈ split_ascii_whitespace txt) needed).
Proof.
  unfold Limits.check_controllers_delegated, Limits.sys, mbind, sm_bind.
  cbn [jail_read_to_string logged]. unfold record. cbn [fst snd].
  set (path := push parent "cgroup.subtree_control").
  destruct (jail_read_to_string path x) as [[txt|e] x']; cbn [map_err].
  - destruct (missing_controllers txt needed) as [|m ms] eqn:Hm.
    + exists (Ok tt), x', [ERead path (Some txt)]. split_and!; [done|by repeat constructor|].
      intros _. exists txt. split; [left|by apply missing_controllers_nil].
    + eexists (Err _), x', [ERead path (Some txt)]. split_and!; [done|by repeat constructor|done].
  - eexists (Err _), x', [ERead path None]. split_and!; [done|by repeat constructor|done].
Qed.

Lemma limits_setup_performs l child :
  performs (_ ← Limits.create_child (X := X * list Event) child;
    _ ← (match Limits.memory_mib l with
         | Some mib => Limits.write_knob "write" (push child "memory.max") (memory_max mib)
         | None => mret tt
         end);
    _ ← (match Limits.cpu_quota_pct l with
         | Some pct => Limits.write_knob "write" (push child "cpu.max") (cpu_max pct)
         | None => mret tt
         end);
    Limits.write_knob "attach pid to" (push child "cgroup.procs") (pretty pid)) (limits_setup l child).
Proof.
  apply performs_bind; [apply performs_op|]. apply performs_bind.
  { destruct (Limits.memory_mib l); [apply performs_op|apply performs_nil]. }
  apply performs_bind; [|apply performs_op].
  destruct (Limits.cpu_quota_pct l); [apply performs_op|apply performs_nil].
Qed.

Lemma from_env_unset : Limits.env_opts_in env = false ->
  Limits.from_env debug_str parse_error env = Ok (Limits.mk None None).
Proof.
  unfold Limits.env_opts_in, Limits.from_env, Limits.parse_env.
  destruct (env Limits.MEMORY_ENV); [done|]. by destruct (env Limits.CPU_ENV).
Qed.

(** Caps that are asked for are in place, or the hypervisor does not come up: a
    variable that is not a number is an error before anything is touched, no
    variable means no change, and otherwise the process is in a fresh cgroup
    with every requested cap, under a parent that delegates the controllers. *)
Theorem limits_installed (x : X) :
  match Limits.from_env debug_str parse_error env with
  | Err e => Limits.install_default_limits debug_str debug_strs parse_error env pid (x, []) = (Err e, (x, []))
  | Ok l =>
      (Limits.any_set l = false ->
       Limits.install_default_limits debug_str debug_strs parse_error env pid (x, []) = (Ok tt, (x, []))) /\
      (Limits.any_set l = true -> exists r x' rd todo,
         Limits.install_default_limits debug_str debug_strs parse_error env pid (x, []) = (r, (x', rd ++ todo)) /\
         Forall (fun e => is_read e = true) rd /\
         (is_ok r = false /\ todo = [] \/
          exists child parent txt, Fs.parent child = Some parent /\
            ERead (push parent "cgroup.subtree_control") (Some txt) ∈ rd /\
            Forall (fun ctl => ctl ∈ split_ascii_whitespace txt) (Limits.required l) /\
            match r with Ok _ => todo = done <$> limits_setup l child | Err _ => stopped (limits_setup l child) todo end))
  end.
Proof.
  unfold Limits.install_default_limits. destruct (Limits.from_env _ _ env) as [l|e] eqn:Hl; [|done].
  assert (Hlift : sm_lift (S := X * list Event) (Ok (E := VmError) l) (x, []) = (Ok l, (x, []))) by done.
  split; intros Hset; rewrite (sm_bind_ok _ _ _ _ _ Hlift), Hset; [done|]. cbn [negb].
  destruct (child_path_reads x []) as (r & x1 & rd & H1 & Hrd).
  destruct r as [child|e].
  2: { exists (Err e), x1, rd, []. rewrite (sm_bind_err _ _ _ _ _ H1), app_nil_r. auto. }
  rewrite (sm_bind_ok _ _ _ _ _ H1). destruct (Fs.parent child) as [parent|] eqn:Hpar.
  2: { eexists (Err _), x1, rd, []. rewrite app_nil_r. by split; [|auto]. }
  match goal with |- context [sm_lift (ok_or ?e ?o)] =>
    assert (Hp : sm_lift (S := X * list Event) (ok_or e o) (x1, [] ++ rd) = (Ok parent, (x1, [] ++ rd))) by done end.
  rewrite (sm_bind_ok _ _ _ _ _ Hp).
  destruct (delegation_reads parent (Limits.required l) x1 rd) as (r & x2 & rd' & H2 & Hrd' & Hdel).
  assert (Hall : Forall (fun e => is_read e = true) (rd ++ rd')) by by apply Forall_app.
  destruct r as [[]|e].
  2: { exists (Err e), x2, (rd ++ rd'), []. rewrite (sm_bind_err _ _ _ _ _ H2), app_nil_r. auto. }
  rewrite (sm_bind_ok _ _ _ _ _ H2). destruct (Hdel eq_refl) as (txt & Ht & Hf).
  destruct (limits_setup_performs l child x2 (rd ++ rd')) as (r & x3 & todo & H3 & Hr).
  exists r, x3, (rd ++ rd'), todo. split; [exact H3|]. split; [done|]. right.
  exists child, parent, txt. split_and!; [done|by apply elem_of_app; right|done|done].
Qed.
End LimitsRun.

(** ** Properties *)

(** C23: The worker runs only in its own capped cgroup. Whatever the system
    answers, the jailer first only reads; then it creates the VM's cgroup,
    writes the requested caps, moves itself into it and starts the worker, in
    this order, stopping at the first call that fails. The worker has been
    started exactly if the jailer does not return an error, and then every one
    of these calls succeeded and the parent delegates every controller a cap
    needs. When starting it fails, the jailer moves back to the parent and
    removes the cgroup. A worker binary that is not an absolute path is refused
    before anything is read. The cgroup lies under the cgroup root, directly in
    the parent, and distinct VMs have distinct cgroups. *)
Theorem jailer_confines_worker {X} `{!JailOs X} pid cfg (x : X) :
  (exists r x' rd todo,
     main pid cfg (x, []) = (r, (x', rd ++ todo)) /\ Forall (fun e => is_read e = true) rd /\
     (r = Err (NotAbsolute (vmm_child_binary cfg)) /\ is_absolute (vmm_child_binary cfg) = false /\
        rd ++ todo = [] /\ x' = x \/
      is_absolute (vmm_child_binary cfg) = true /\ is_ok r = false /\ todo = [] \/
      is_absolute (vmm_child_binary cfg) = true /\
      exists parent, chosen_parent cfg rd parent /\ delegated cfg rd parent /\
        ran pid cfg parent (is_ok r) todo)) /\
  (forall parent, path_starts_with (child_cgroup_path parent (vm_id cfg)) CGROUP_ROOT = true /\
     components (child_cgroup_path parent (vm_id cfg)) =
       components (normalize_parent parent) ++ [Normal (cgroup_name (vm_id cfg))]) /\
  (forall parent parent' id, id <> vm_id cfg ->
     child_cgroup_path parent (vm_id cfg) <> child_cgroup_path parent' id).
Proof.
  split_and!.
  - unfold main. destruct (is_absolute (vmm_child_binary cfg)) eqn:Ha; simpl.
    2: { exists (Err (NotAbsolute (vmm_child_binary cfg))), x, [], []. repeat split; [constructor|]. by left. }
    unfold apply_isolation_and_exec.
    destruct (resolve_parent_reads cfg x []) as (r & x1 & rd & H1 & Hrd & Hpar).
    destruct r as [parent|e].
    2: { exists (Err (Failed e)), x1, rd, []. rewrite (sm_bind_err _ _ _ _ _ H1), app_nil_r.
         split_and!; [done|done|]. right; left. done. }
    rewrite (sm_bind_ok _ _ _ _ _ H1).
    destruct (check_controllers_reads cfg parent x1 rd) as (r & x2 & rd' & H2 & Hrd' & Hdel).
    assert (Hall : Forall (fun e => is_read e = true) (rd ++ rd')) by by apply Forall_app.
    destruct r as [[]|e].
    2: { exists (Err (Failed e)), x2, (rd ++ rd'), []. rewrite (sm_bind_err _ _ _ _ _ H2), app_nil_r.
         split_and!; [done|done|]. right; left. done. }
    rewrite (sm_bind_ok _ _ _ _ _ H2).
    destruct (isolation_runs pid cfg parent x2 (rd ++ rd')) as (r & x3 & todo & H3 & Hran).
    exists (map_err Failed r), x3, (rd ++ rd'), todo. split; [by rewrite H3|]. split; [done|].
    right; right. split; [done|]. exists parent. split_and!.
    + revert Hpar. unfold chosen_parent. destruct (cgroup_parent cfg); [done|].
      intros (t & o & ? & ?). exists t, o. split; [by apply elem_of_app; left|done].
    + destruct Hdel as [|(t & ? & ?)]; [by left|]. right. exists t. split; [by apply elem_of_app; right|done].
    + by destruct r.
  - intros parent. apply child_cgroup_components.
  - intros parent parent' id Hne Heq. by apply child_cgroup_inj in Heq.
Qed.

(** ** A run *)

#[local] Instance sample_system : JailOs unit := {|
  jail_read_to_string p := fun x =>
    (Ok (if String.eqb p "/proc/self/cgroup" then "1:name=x:/y" +:+ String "010"%char "0::/user.slice"
         else "cpu io  memory"), x);
  jail_create_dir _ := mret tt;
  jail_write _ _ := mret tt;
  jail_remove_dir _ := mret tt;
  jail_exec _ _ := mret tt;
|}.

Example jailer_run :
  main 42 (JailerConfig.mk 7 (Some 256) (Some 50) "/run/vm-7.sock" "/bin/child" None) (tt, []) =
  (Ok tt, (tt,
    [ERead "/proc/self/cgroup" (Some ("1:name=x:/y" +:+ String "010"%char "0::/user.slice"));
     ERead "/sys/fs/cgroup/user.slice/cgroup.subtree_control" (Some "cpu io  memory")] ++
    (done <$> [OCreate "/sys/fs/cgroup/user.slice/nanovm-vm-7";
               OWrite "/sys/fs/cgroup/user.slice/nanovm-vm-7/memory.max" "268435456";
               OWrite "/sys/fs/cgroup/user.slice/nanovm-vm-7/cpu.max" "50000 100000";
               OWrite "/sys/fs/cgroup/user.slice/nanovm-vm-7/cgroup.procs" "42";
               OExec "/bin/child" ["--socket"; "/run/vm-7.sock"]]))).
Proof. vm_compute. reflexivity. Qed.
