(* ===== verification/Fleet.v ===== *)
(** * The process fleet ([crates/nanovm-fleet/src/lib.rs])

    A [Hypervisor] that runs one worker process per VM and forwards every call
    to it over a socket, in the frames of [Ipc]. Processes, sockets, files and
    the clock are the interface [FleetOs]. Time is in nanoseconds; rendering of
    values in messages is a parameter.

    A method runs from beginning to end, so a worker slot has one owner, the map
    or the running method, and the destructor of [Worker] runs where that owner
    lets go of it. The connection attempts are counted: with a clock that a
    sleep advances, the count is not reached ([wait_enough]). *)

From Stdlib Require Import Ascii String.
From stdpp Require Import strings pretty.
From S2P Require Import Prelude Io Fs VmCore Ipc.

Local Open Scope Z_scope.

(** [std::io::Error] of a spawn. *)
Module SpawnError.
Record t : Type := mk { raw_os_error : option Z; text : string }.
End SpawnError.

(** [std::process::Command] *)
Module Command.
Record t : Type := mk { program : string; args : list string }.
Definition arg (c : t) (a : string) : t := mk (program c) (args c ++ [a]).
End Command.

(** Children and open streams are named by the numbers the system gives them. *)
Class FleetOs (X : Type) := {
  os_create_dir_all : string -> SM X string unit;
  os_remove_file : string -> X -> X;
  os_spawn : Command.t -> SM X SpawnError.t Z;
  os_kill_wait : Z -> X -> X;
  os_connect : string -> SM X string Z;
  os_send : Z -> bytes -> SM X IoErrorKind unit;
  os_recv : Z -> nat -> SM X IoErrorKind bytes;
  os_close : Z -> X -> X;
  os_sleep : Z -> X -> X;
  os_now : X -> Z * X;
}.

Module FleetConfig.
Record t : Type := mk {
  jailer_binary : string;
  vmm_child_binary : string;
  socket_dir : string;
  default_memory_limit_mib : option Z;
  default_cpu_quota_pct : option Z;
  cgroup_parent : option string;
  spawn_timeout : Z;
  warm_pool_size : nat;
}.

Definition default : t :=
  mk "/usr/local/bin/nanovm-jailer" "/usr/local/bin/nanovm-vmm-child" "/var/run/nanovm"
    None None None 5000000000 0.
End FleetConfig.

Module Worker.
Record t : Type := mk {
  child : option Z;
  socket : string;
  stream : option Z;
  worker_vm_id : option VmId;
}.
Definition set_vm_id (id : VmId) (w : t) : t := mk (child w) (socket w) (stream w) (Some id).
End Worker.

Module WarmEntry.
Record t : Type := mk { vm_id : VmId; slot : Worker.t }.
End WarmEntry.

(** [self.config.socket_dir.join(format!("vm-{}.sock", vm_id.0))] *)
Definition socket_path (config : FleetConfig.t) (vm_id : VmId) : string :=
  push (FleetConfig.socket_dir config) ("vm-" +:+ pretty vm_id +:+ ".sock").

Definition jailer_command (config : FleetConfig.t) (vm_id : VmId) (socket : string) : Command.t :=
  let cmd := Command.mk (FleetConfig.jailer_binary config)
    ["--vm-id"; pretty vm_id; "--socket"; socket; "--vmm-child-binary"; FleetConfig.vmm_child_binary config] in
  let cmd := match FleetConfig.default_memory_limit_mib config with
             | Some mib => Command.arg (Command.arg cmd "--memory-limit-mib") (pretty mib) | None => cmd end in
  let cmd := match FleetConfig.default_cpu_quota_pct config with
             | Some pct => Command.arg (Command.arg cmd "--cpu-quota-pct") (pretty pct) | None => cmd end in
  match FleetConfig.cgroup_parent config with
  | Some parent => Command.arg (Command.arg cmd "--cgroup-parent") parent | None => cmd end.

(** ** Errors of a worker

    The wire carries a code and a message; ids and states are lost. *)
Definition error_of_code (code : ErrorCode) (message : string) : VmError :=
  match code with
  | CodeUnknownVm => UnknownVm 0
  | CodeUnknownSnapshot => UnknownSnapshot 0
  | CodeInvalidTransition => InvalidTransition 0 Created Running
  | CodeUnsupported => Backend ("unsupported: " +:+ message)
  | CodeBackend => Backend message
  | CodeBadRequest => Backend ("worker bad-request: " +:+ message)
  end.

Section Ops.
Context {X : Type} `{!FleetOs X} {JE : Type} `{!Serde JE Request, !Serde JE Response}.
Variable display_frame_error : FrameError JE -> string.
Variable debug_response : Response -> string.
Variable debug_duration : Z -> string.

Definition unwrap_response {T} (resp : Response) (extract : Response -> option T) : result VmError T :=
  match resp with
  | Error code message => Err (error_of_code code message)
  | other => ok_or (Backend ("unexpected response: " +:+ debug_response other)) (extract other)
  end.

(** A stream as the two halves of a transport. *)
Definition stream_writer (s : Z) : AsyncWrite X := {| write_all := os_send s; flush := mret tt |}.
Definition stream_reader (s : Z) : AsyncRead X := {| read_exact := os_recv s |}.

Definition send_frame (s : Z) (req : Request) : SM X (FrameError JE) unit :=
  write_frame (AsyncWrite0 := stream_writer s) req.
Definition recv_frame (s : Z) : SM X (FrameError JE) Response :=
  read_frame (AsyncRead0 := stream_reader s).

Definition roundtrip_on (s : Z) (req : Request) : SM X (FrameError JE) Response :=
  _ ← send_frame s req; recv_frame s.

(** [write ping], [read pong] and the comparison; an error drops the stream. *)
Definition handshake (s : Z) : SM X VmError Z := fun x =>
  match send_frame s Ping x with
  | (Err e, x) => (Err (Backend ("write ping: " +:+ display_frame_error e)), os_close s x)
  | (Ok _, x) =>
      match recv_frame s x with
      | (Err e, x) => (Err (Backend ("read pong: " +:+ display_frame_error e)), os_close s x)
      | (Ok Pong, x) => (Ok s, x)
      | (Ok other, x) =>
          (Err (Backend ("worker handshake: expected Pong, got " +:+ debug_response other)), os_close s x)
      end
  end.

Definition CONNECT_RETRY_NS : Z := 20 * 1000000.

Definition never_bound (socket : string) (timeout : Z) : VmError :=
  Backend ("worker never bound socket " +:+ socket +:+ " within " +:+ debug_duration timeout).

Fixpoint wait_loop (n : nat) (socket : string) (timeout start : Z) : SM X VmError Z := fun x =>
  match n with
  | O => (Err (never_bound socket timeout), x)
  | S n =>
      match os_connect socket x with
      | (Ok s, x) => handshake s x
      | (Err _, x) =>
          let (now, x) := os_now x in
          if timeout <=? now - start then (Err (never_bound socket timeout), x)
          else wait_loop n socket timeout start (os_sleep CONNECT_RETRY_NS x)
      end
  end.

Definition wait_fuel (timeout : Z) : nat := Z.to_nat (timeout / CONNECT_RETRY_NS) + 2.

Definition wait_for_socket_and_open (socket : string) (timeout : Z) : SM X VmError Z := fun x =>
  let (start, x) := os_now x in wait_loop (wait_fuel timeout) socket timeout start x.

(** [for attempt in 0..3]: a text-file-busy error is retried twice. *)
Definition ETXTBSY : Z := 26.

(** The last attempt always returns, so the list does not run out. *)
Fixpoint spawn_attempts (attempts : list Z) (cmd : Command.t) : SM X VmError Z := fun x =>
  match attempts with
  | [] => (Err (Backend "spawn jailer: "), x)
  | attempt :: rest =>
      match os_spawn cmd x with
      | (Ok child, x) => (Ok child, x)
      | (Err e, x) =>
          if bool_decide (SpawnError.raw_os_error e = Some ETXTBSY) && (attempt <? 2)
          then spawn_attempts rest cmd (os_sleep (25 * (attempt + 1) * 1000000) x)
          else (Err (Backend ("spawn jailer: " +:+ SpawnError.text e)), x)
      end
  end.

Definition force_kill (w : Worker.t) (x : X) : X :=
  let x := match Worker.stream w with Some s => os_close s x | None => x end in
  let x := match Worker.child w with Some c => os_kill_wait c x | None => x end in
  os_remove_file (Worker.socket w) x.

(** The match on the handshake: a worker that never came up is killed. *)
Definition open_worker (config : FleetConfig.t) (socket : string) (child : Z) : SM X VmError Worker.t := fun x =>
  match wait_for_socket_and_open socket (FleetConfig.spawn_timeout config) x with
  | (Ok stream, x) => (Ok (Worker.mk (Some child) socket (Some stream) None), x)
  | (Err e, x) => (Err e, os_remove_file socket (os_kill_wait child x))
  end.

Definition spawn_worker (config : FleetConfig.t) (vm_id : VmId) : SM X VmError Worker.t :=
  _ ← (fun x => let (r, x) := os_create_dir_all (FleetConfig.socket_dir config) x in
                (map_err (fun e => Backend ("create socket_dir: " +:+ e)) r, x));
  let socket := socket_path config vm_id in
  _ ← sm_modify (os_remove_file socket);
  child ← spawn_attempts [0; 1; 2] (jailer_command config vm_id socket);
  open_worker config socket child.

Definition dispatch_to_slot (w : Worker.t) (req : Request) : SM X VmError Response :=
  match Worker.stream w with
  | None => sm_fail (Backend "worker stream already closed")
  | Some s => fun x =>
      let (r, x) := roundtrip_on s req x in (map_err (fun e => Backend ("ipc: " +:+ display_frame_error e)) r, x)
  end.

(** ** The fleet *)

Record ProcessFleet : Type := mk_fleet {
  config : FleetConfig.t;
  workers : gmap VmId Worker.t;
  snapshot_owner : gmap SnapshotId VmId;
  next_vm_id : Z;
  warm_pool : list WarmEntry.t;
  os : X;
}.

Definition set_workers (m : gmap VmId Worker.t) (f : ProcessFleet) : ProcessFleet :=
  mk_fleet (config f) m (snapshot_owner f) (next_vm_id f) (warm_pool f) (os f).
Definition set_snapshot_owner (m : gmap SnapshotId VmId) (f : ProcessFleet) : ProcessFleet :=
  mk_fleet (config f) (workers f) m (next_vm_id f) (warm_pool f) (os f).
Definition set_warm_pool (p : list WarmEntry.t) (f : ProcessFleet) : ProcessFleet :=
  mk_fleet (config f) (workers f) (snapshot_owner f) (next_vm_id f) p (os f).
Definition set_os (x : X) (f : ProcessFleet) : ProcessFleet :=
  mk_fleet (config f) (workers f) (snapshot_owner f) (next_vm_id f) (warm_pool f) x.

Abbreviation FM := (SM ProcessFleet VmError).

Definition on_os {A} (c : SM X VmError A) : FM A := fun f =>
  let (r, x) := c (os f) in (r, set_os x f).

(** [let _ = c], or an error that is only logged. *)
Definition best_effort {A} (c : FM A) : FM unit := fun f => let (_, f) := c f in (Ok tt, f).

(** The destructor of a worker that is not in the map. *)
Definition drop_worker (w : Worker.t) (f : ProcessFleet) : ProcessFleet := set_os (force_kill w (os f)) f.

(** [c] with the slot in hand: an early return drops it. *)
Definition holding {A} (w : Worker.t) (c : FM A) : FM A := fun f =>
  match c f with
  | (Ok a, f) => (Ok a, f)
  | (Err e, f) => (Err e, drop_worker w f)
  end.

Definition fresh_vm_id : FM VmId := fun f =>
  let (id, next) := fetch_add1 (next_vm_id f) in
  (Ok id, mk_fleet (config f) (workers f) (snapshot_owner f) next (warm_pool f) (os f)).

Definition start_worker (vm_id : VmId) : FM Worker.t := fun f => on_os (spawn_worker (config f) vm_id) f.

(** [while pool.len() < size]: every round that goes on adds an entry. *)
Fixpoint refill_loop (missing : nat) : FM unit :=
  match missing with
  | O => mret tt
  | S missing =>
      vm_id ← fresh_vm_id;
      slot ← start_worker vm_id;
      _ ← sm_modify (fun f => set_warm_pool (warm_pool f ++ [WarmEntry.mk vm_id slot]) f);
      refill_loop missing
  end.

Definition refill_warm_pool : FM unit := fun f =>
  refill_loop (FleetConfig.warm_pool_size (config f) - length (warm_pool f)) f.

(** A fleet that cannot fill its pool is dropped, and its workers with it. *)
Definition new (config : FleetConfig.t) (x : X) : result string ProcessFleet * X :=
  match refill_warm_pool (mk_fleet config ∅ ∅ 1 [] x) with
  | (Ok _, f) => (Ok f, os f)
  | (Err e, f) => (Err ("refill warm pool: " +:+ display_vm_error e), foldl (fun x e => force_kill (WarmEntry.slot e) x) (os f) (warm_pool f))
  end.

Definition take_warm : FM (option WarmEntry.t) := fun f =>
  match warm_pool f with
  | [] => (Ok None, f)
  | e :: pool => (Ok (Some e), set_warm_pool pool f)
  end.

Definition warm_pool_len (f : ProcessFleet) : nat := length (warm_pool f).

Definition worker_for (id : VmId) : FM Worker.t := fun f => (ok_or (UnknownVm id) (workers f !! id), f).

Definition dispatch (id : VmId) (req : Request) : FM Response :=
  slot ← worker_for id;
  on_os (dispatch_to_slot slot req).

Definition dispatch_remapped (orchestrator_id : VmId) (build : VmId -> Request) : FM Response :=
  slot ← worker_for orchestrator_id;
  worker_id ← sm_lift (ok_or (Backend "worker id not yet assigned for this VM") (Worker.worker_vm_id slot));
  on_os (dispatch_to_slot slot (build worker_id)).

(** [self.workers.insert]: a replaced slot would be dropped. *)
Definition insert_worker (id : VmId) (w : Worker.t) : FM unit := fun f =>
  let f' := set_workers (<[id := w]> (workers f)) f in
  (Ok tt, match workers f !! id with Some old => drop_worker old f' | None => f' end).

(** The slot's first VM: its id is recorded and the slot enters the map. *)
Definition register_vm (vm_id : VmId) (slot : Worker.t) (handle : VmHandle.t) : FM VmHandle.t :=
  _ ← insert_worker vm_id (Worker.set_vm_id (VmHandle.id handle) slot);
  mret (VmHandle.mk vm_id (VmHandle.state handle)).

Definition as_handle (r : Response) : option VmHandle.t := if r is RespVmHandle h then Some h else None.
Definition as_empty (r : Response) : option unit := if r is Empty then Some tt else None.
Definition as_state (r : Response) : option VmState := if r is RespState s then Some s else None.
Definition as_snapshot (r : Response) : option SnapshotId := if r is RespSnapshot s then Some s else None.
Definition as_path (r : Response) : option (option string) := if r is OptPath p then Some p else None.
Definition as_snapshot_meta (r : Response) : option SnapshotMeta.t := if r is RespSnapshotMeta m then Some m else None.
Definition as_vm_meta (r : Response) : option VmMeta.t := if r is RespVmMeta m then Some m else None.
Definition as_exec (r : Response) : option GuestExecResult.t := if r is ExecResult e then Some e else None.
Definition as_written (r : Response) : option Z := if r is Written n then Some n else None.
Definition as_bytes (r : Response) : option bytes := if r is RespBytes b then Some b else None.

Definition create_vm (cfg : VmConfig.t) : FM VmHandle.t :=
  warm ← take_warm;
  '(vm_id, slot) ←
    (match warm with
     | Some e =>
         (* a refill that fails is only logged *)
         _ ← best_effort refill_warm_pool;
         mret (WarmEntry.vm_id e, WarmEntry.slot e)
     | None => id ← fresh_vm_id; slot ← start_worker id; mret (id, slot)
     end);
  handle ← holding slot
    (resp ← on_os (dispatch_to_slot slot (CreateVm cfg)); sm_lift (unwrap_response resp as_handle));
  register_vm vm_id slot handle.

(** A call answered by the worker of a VM. *)
Definition remapped {T} (id : VmId) (build : VmId -> Request) (extract : Response -> option T) : FM T :=
  resp ← dispatch_remapped id build;
  sm_lift (unwrap_response resp extract).

Definition start (id : VmId) : FM unit := remapped id Start as_empty.
Definition stop (id : VmId) : FM unit := remapped id Stop as_empty.
Definition state (id : VmId) : FM VmState := remapped id State as_state.

Definition snapshot (id : VmId) : FM SnapshotId :=
  snap ← remapped id Snapshot as_snapshot;
  _ ← sm_modify (fun f => set_snapshot_owner (<[snap := id]> (snapshot_owner f)) f);
  mret snap.

Definition owner_of (snap : SnapshotId) : FM VmId := fun f =>
  (ok_or (UnknownSnapshot snap) (snapshot_owner f !! snap), f).

Definition cannot_export (snap : SnapshotId) : VmError :=
  Backend ("snapshot " +:+ pretty snap +:+ " can't be exported on this backend; cross-worker restore needs a "
    +:+ "backend that surfaces snapshot state on disk (mock-fleet returns None today)").

Definition restore (snap : SnapshotId) : FM VmHandle.t :=
  owner_vm ← owner_of snap;
  owner_slot ← worker_for owner_vm;
  export ← on_os (dispatch_to_slot owner_slot (SnapshotExportDir snap));
  path ← sm_lift (unwrap_response export as_path);
  dir ← sm_lift (ok_or (cannot_export snap) path);
  new_vm_id ← fresh_vm_id;
  new_slot ← start_worker new_vm_id;
  handle ← holding new_slot
    (adopt ← on_os (dispatch_to_slot new_slot (SnapshotAdopt dir));
     local_snap ← sm_lift (unwrap_response adopt as_snapshot);
     resp ← on_os (dispatch_to_slot new_slot (Restore local_snap));
     sm_lift (unwrap_response resp as_handle));
  register_vm new_vm_id new_slot handle.

(** The two requests are best effort; the slot is dropped at the end. *)
Definition destroy (id : VmId) : FM unit :=
  slot ← worker_for id;
  _ ← (match Worker.worker_vm_id slot with
       | Some wid => best_effort (on_os (dispatch_to_slot slot (Destroy wid)))
       | None => mret tt
       end);
  _ ← best_effort (on_os (dispatch_to_slot slot Shutdown));
  _ ← sm_modify (fun f => set_workers (delete id (workers f)) f);
  _ ← sm_modify (fun f => set_snapshot_owner (filter (fun '(_, owner_vm) => owner_vm <> id) (snapshot_owner f)) f);
  sm_modify (drop_worker slot).

(** [self.state(id).unwrap_or(VmState::Created)] *)
Definition state_or_created (id : VmId) : FM VmState := fun f =>
  match state id f with (Ok st, f) => (Ok st, f) | (Err _, f) => (Ok Created, f) end.

Fixpoint handles_of (ids : list VmId) : FM (list VmHandle.t) :=
  match ids with
  | [] => mret []
  | id :: ids =>
      st ← state_or_created id;
      hs ← handles_of ids;
      mret (VmHandle.mk id st :: hs)
  end.

Definition list_vms : FM (list VmHandle.t) := fun f => handles_of (map_to_list (workers f)).*1 f.
Definition list_snapshots : FM (list SnapshotId) := sm_gets (fun f => (map_to_list (snapshot_owner f)).*1).

Definition delete_snapshot (snap : SnapshotId) : FM unit :=
  owner_vm ← owner_of snap;
  resp ← dispatch owner_vm (DeleteSnapshot snap);
  _ ← sm_lift (unwrap_response resp as_empty);
  sm_modify (fun f => set_snapshot_owner (delete snap (snapshot_owner f)) f).

Definition snapshot_meta (snap : SnapshotId) : FM SnapshotMeta.t :=
  owner_vm ← owner_of snap;
  resp ← dispatch owner_vm (ReqSnapshotMeta snap);
  sm_lift (unwrap_response resp as_snapshot_meta).

Definition vm_meta (id : VmId) : FM VmMeta.t := remapped id ReqVmMeta as_vm_meta.
Definition exec_in_guest (id : VmId) (req : GuestExecRequest.t) : FM GuestExecResult.t :=
  remapped id (fun wid => ExecInGuest wid req) as_exec.
Definition write_file (id : VmId) (path : string) (content : bytes) (mode : Z) : FM Z :=
  remapped id (fun wid => WriteFile wid path content mode) as_written.
Definition read_file (id : VmId) (path : string) : FM bytes :=
  remapped id (fun wid => ReadFile wid path) as_bytes.

(** The trait's default methods. *)
Definition snapshot_export_dir (_ : SnapshotId) : FM (option string) := mret None.
Definition snapshot_adopt (_ : string) : FM SnapshotId :=
  sm_fail (Unsupported "snapshot_adopt: not implemented on this backend").

#[local] Instance process_fleet : Hypervisor ProcessFleet := {
  VmCore.create_vm := create_vm;
  VmCore.start := start;
  VmCore.stop := stop;
  VmCore.state := state;
  VmCore.snapshot := snapshot;
  VmCore.restore := restore;
  VmCore.destroy := destroy;
  VmCore.list_vms := list_vms;
  VmCore.list_snapshots := list_snapshots;
  VmCore.delete_snapshot := delete_snapshot;
  VmCore.snapshot_meta := snapshot_meta;
  VmCore.snapshot_export_dir := snapshot_export_dir;
  VmCore.snapshot_adopt := snapshot_adopt;
  VmCore.vm_meta := vm_meta;
  VmCore.exec_in_guest := exec_in_guest;
  VmCore.write_file := write_file;
  VmCore.read_file := read_file;
}.
End Ops.
Arguments ProcessFleet X : clear implicits.
