(* ===== verification/FleetProps.v ===== *)
(** * The fleet on any system

    Theorems about [Fleet] that hold whatever the operating system and the
    workers answer: every process that was started is either one the fleet
    keeps or one it has killed, ids are not reused, and the routing tables name
    only VMs that exist. *)

From Stdlib Require Import Ascii String.
From stdpp Require Import strings gmultiset.
From S2P Require Import Prelude Io Fs VmCore HvCalls Ipc Fleet.

Local Open Scope Z_scope.

(** ** The wait for a worker's socket

    On a clock that does not run backwards and that a sleep advances, the count
    of attempts is not what ends the wait. *)
Section Wait.
Context {X : Type} `{!FleetOs X} {JE : Type} `{!Serde JE Request, !Serde JE Response}.
Context (display_frame_error : FrameError JE -> string) (debug_response : Response -> string)
  (debug_duration : Z -> string).

Definition now (x : X) : Z := (os_now x).1.

Hypothesis connect_time : forall path x, now x <= now (os_connect path x).2.
Hypothesis now_time : forall x, now x <= now (os_now x).2.
Hypothesis sleep_time : forall d x, now x + d <= now (os_sleep d x).

Lemma wait_loop_enough n k socket timeout start (x : X) :
  timeout <= now x - start + Z.of_nat n * CONNECT_RETRY_NS ->
  wait_loop display_frame_error debug_response debug_duration (S n + k) socket timeout start x =
  wait_loop display_frame_error debug_response debug_duration (S n) socket timeout start x.
Proof.
  revert x. induction n as [|n IH]; intros x Hn; cbn [wait_loop Nat.add].
  all: pose proof (connect_time socket x) as Hc; destruct (os_connect socket x) as [[s|e] x1]; [done|]; simpl in Hc.
  all: pose proof (now_time x1) as Ht; unfold now at 1 in Ht; destruct (os_now x1) as [t x2] eqn:En; simpl in Ht.
  all: assert (Hx1 : now x1 = t) by (unfold now; by rewrite En).
  all: case_if; [done|].
  - lia.
  - apply (IH (os_sleep CONNECT_RETRY_NS x2)). pose proof (sleep_time CONNECT_RETRY_NS x2). lia.
Qed.

Lemma wait_enough k socket timeout (x : X) :
  wait_loop display_frame_error debug_response debug_duration (wait_fuel timeout + k) socket timeout (now x) (os_now x).2 =
  wait_for_socket_and_open display_frame_error debug_response debug_duration socket timeout x.
Proof.
  unfold wait_for_socket_and_open, now. destruct (os_now x) as [start x'] eqn:En. cbn [fst snd].
  unfold wait_fuel. rewrite !(Nat.add_comm _ 2). cbn [Nat.add].
  apply (wait_loop_enough (S (Z.to_nat (timeout / CONNECT_RETRY_NS)))).
  pose proof (now_time x) as Ht. unfold now at 1 in Ht. rewrite En in Ht. simpl in Ht.
  pose proof (Z.div_mod timeout CONNECT_RETRY_NS ltac:(done)) as Hd.
  pose proof (Z.mod_pos_bound timeout CONNECT_RETRY_NS ltac:(done)). unfold CONNECT_RETRY_NS in *. lia.
Qed.
End Wait.

(** ** A record of the children *)

Section Ledger.
Context {X : Type} `{!FleetOs X}.

Record ledger : Type := mk_ledger { host : X; spawned : gmultiset Z; killed : gmultiset Z }.

Definition lift {E A} (c : SM X E A) : SM ledger E A := fun l =>
  let (r, x) := c (host l) in (r, mk_ledger x (spawned l) (killed l)).
Definition lift_eff (g : X -> X) (l : ledger) : ledger := mk_ledger (g (host l)) (spawned l) (killed l).

#[global] Instance ledger_os : FleetOs ledger := {|
  os_create_dir_all d := lift (os_create_dir_all d);
  os_remove_file p := lift_eff (os_remove_file p);
  os_spawn cmd := fun l =>
    let (r, x) := os_spawn cmd (host l) in
    (r, mk_ledger x (match r with Ok c => spawned l ⊎ {[+ c +]} | Err _ => spawned l end) (killed l));
  os_kill_wait c := fun l => mk_ledger (os_kill_wait c (host l)) (spawned l) (killed l ⊎ {[+ c +]});
  os_connect p := lift (os_connect p);
  os_send s bs := lift (os_send s bs);
  os_recv s n := lift (os_recv s n);
  os_close s := lift_eff (os_close s);
  os_sleep d := lift_eff (os_sleep d);
  os_now := fun l => let (t, x) := os_now (host l) in (t, mk_ledger x (spawned l) (killed l));
|}.

(** The children owed: started and not killed. *)
Definition owes (l : ledger) (held : gmultiset Z) : Prop := spawned l = killed l ⊎ held.

Lemma owes_eq l h h' : owes l h -> h = h' -> owes l h'.
Proof. by intros ? <-. Qed.

Definition kids (w : Worker.t) : gmultiset Z :=
  match Worker.child w with Some c => {[+ c +]} | None => ∅ end.

(** Calls that start and kill nothing. *)
Definition quiet {E A} (c : SM ledger E A) : Prop := forall l,
  spawned (c l).2 = spawned l /\ killed (c l).2 = killed l.

Lemma quiet_lift {E A} (c : SM X E A) : quiet (lift c).
Proof. intros l. unfold lift. by destruct (c (host l)). Qed.

Lemma quiet_ret {E A} (a : A) : quiet (mret a : SM ledger E A).
Proof. done. Qed.

Lemma quiet_lift_res {E A} (r : result E A) : quiet (sm_lift r).
Proof. done. Qed.

Lemma quiet_bind {E A B} (c : SM ledger E A) (k : A -> SM ledger E B) :
  quiet c -> (forall a, quiet (k a)) -> quiet (x ← c; k x).
Proof.
  intros Hc Hk l. unfold mbind, sm_bind. specialize (Hc l). destruct (c l) as [[a|e] l']; [|done].
  specialize (Hk a l'). simpl in *. destruct Hc, Hk. split; congruence.
Qed.

Lemma quiet_map {E E' A} (f : E -> E') (c : SM ledger E A) :
  quiet c -> quiet (fun l => let (r, l) := c l in (map_err f r, l)).
Proof. intros Hc l. specialize (Hc l). by destruct (c l). Qed.

Lemma spawn_attempts_owes attempts cmd l held :
  owes l held ->
  match spawn_attempts (X := ledger) attempts cmd l with
  | (Ok c, l') => owes l' (held ⊎ {[+ c +]})
  | (Err _, l') => owes l' held
  end.
Proof.
  unfold owes. revert l. induction attempts as [|a rest IH]; intros l Hl; [done|]. cbn [spawn_attempts].
  cbn [os_spawn ledger_os]. destruct (os_spawn cmd (host l)) as [[c|e] x].
  - simpl. rewrite Hl. multiset_solver.
  - case_if; [|done]. by apply IH.
Qed.

Lemma force_kill_owes w l held :
  owes l (held ⊎ kids w) -> owes (force_kill w l) held.
Proof.
  unfold owes, force_kill, kids. intros Hl.
  destruct (Worker.stream w), (Worker.child w); simpl; rewrite Hl; multiset_solver.
Qed.

Context {JE : Type} `{!Serde JE Request, !Serde JE Response}.
Context (display_frame_error : FrameError JE -> string) (debug_response : Response -> string)
  (debug_duration : Z -> string).

Lemma send_frame_quiet s req : quiet (send_frame (X := ledger) (JE := JE) s req).
Proof.
  unfold send_frame, write_frame. apply quiet_bind; [apply quiet_lift_res|]. intros js.
  apply quiet_bind; [apply quiet_lift_res|]. intros n.
  apply quiet_bind; [apply quiet_map, quiet_lift|]. intros _.
  apply quiet_bind; [apply quiet_map, quiet_lift|]. intros _. apply quiet_map, quiet_ret.
Qed.

Lemma recv_frame_quiet s : quiet (recv_frame (X := ledger) (JE := JE) s).
Proof.
  unfold recv_frame, read_frame, read_frame_with_cap. apply quiet_bind; [apply quiet_map, quiet_lift|].
  intros b. destruct (_ <? _); [done|]. apply quiet_bind; [apply quiet_map, quiet_lift|]. intros js. done.
Qed.

Lemma dispatch_quiet w req : quiet (dispatch_to_slot (X := ledger) display_frame_error w req).
Proof.
  unfold dispatch_to_slot. destruct (Worker.stream w) as [s|]; [|done].
  apply quiet_map. unfold roundtrip_on. apply quiet_bind; [apply send_frame_quiet|].
  intros _. apply recv_frame_quiet.
Qed.

Lemma handshake_quiet s : quiet (handshake (X := ledger) display_frame_error debug_response s).
Proof.
  intros l. unfold handshake. pose proof (send_frame_quiet s Ping l) as H1.
  destruct (send_frame s Ping l) as [[[]|e] l1]; [|done]. pose proof (recv_frame_quiet s l1) as H2.
  simpl in H1. destruct (recv_frame s l1) as [[[]|e] l2]; simpl in *; destruct H1, H2; split; congruence.
Qed.

Lemma wait_quiet socket timeout :
  quiet (wait_for_socket_and_open (X := ledger) display_frame_error debug_response debug_duration socket timeout).
Proof.
  intros l. unfold wait_for_socket_and_open.
  destruct (os_now l) as [start l0] eqn:Hn.
  assert (H0 : spawned l0 = spawned l /\ killed l0 = killed l).
  { revert Hn. simpl. destruct (os_now (host l)). by intros [= _ <-]. }
  destruct H0 as [<- <-]. clear Hn. generalize (wait_fuel timeout) as n. intros n. revert l0.
  induction n as [|n IH]; intros l0; [done|]. cbn [wait_loop].
  pose proof (quiet_lift (os_connect socket) l0) as Hc. change (lift (os_connect socket)) with (os_connect (X := ledger) socket) in Hc.
  destruct (os_connect socket l0) as [[s|e] l1].
  - destruct (handshake_quiet s l1) as [-> ->]. exact Hc.
  - simpl in Hc. destruct Hc as [<- <-]. destruct (os_now l1) as [t l2] eqn:Hn.
    assert (H2 : spawned l2 = spawned l1 /\ killed l2 = killed l1).
    { revert Hn. simpl. destruct (os_now (host l1)). by intros [= _ <-]. }
    destruct H2 as [<- <-]. case_if; [done|]. by destruct (IH (os_sleep CONNECT_RETRY_NS l2)) as [-> ->].
Qed.

Lemma spawn_worker_owes cfg id l held :
  owes l held ->
  match spawn_worker (X := ledger) display_frame_error debug_response debug_duration cfg id l with
  | (Ok w, l') => owes l' (held ⊎ kids w) /\ is_Some (Worker.child w) /\ is_Some (Worker.stream w) /\
      Worker.worker_vm_id w = None
  | (Err _, l') => owes l' held
  end.
Proof.
  intros Hl. unfold spawn_worker. unfold mbind at 1, sm_bind at 1.
  cbn [os_create_dir_all ledger_os]. unfold lift at 1.
  destruct (os_create_dir_all _ (host l)) as [[[]|e] x]; [|done]. cbn [map_err].
  unfold mbind at 1, sm_bind at 1, sm_modify. unfold mbind, sm_bind.
  match goal with |- context [spawn_attempts ?a ?c ?l1] =>
    pose proof (spawn_attempts_owes a c l1 held Hl) as Hs; destruct (spawn_attempts a c l1) as [[c0|e] l2] end; [|done].
  unfold open_worker. pose proof (wait_quiet (socket_path cfg id) (FleetConfig.spawn_timeout cfg) l2) as Hw.
  destruct (wait_for_socket_and_open _ _ _ _ _ l2) as [[st|e] l3]; simpl in Hw; destruct Hw as [H1 H2].
  - unfold owes, kids in *. simpl. rewrite H1, H2. repeat split; [exact Hs|by eexists|by eexists].
  - unfold owes in *. simpl. rewrite H1, H2, Hs. multiset_solver.
Qed.
End Ledger.

(** ** The fleet's invariant *)

Definition kids_of (ws : list Worker.t) : gmultiset Z := foldr (fun w acc => kids w ⊎ acc) ∅ ws.

Lemma kids_of_app ws ws' : kids_of (ws ++ ws') = kids_of ws ⊎ kids_of ws'.
Proof. induction ws as [|w ws IH]; simpl; [multiset_solver|]. rewrite IH. multiset_solver. Qed.

#[global] Instance kids_of_proper : Proper (Permutation ==> eq) kids_of.
Proof.
  induction 1 as [|w ws ws' _ IH|w w' ws|? ? ? _ IH1 _ IH2]; simpl; [done|by rewrite IH|multiset_solver|].
  by rewrite IH1.
Qed.

Definition workers_of (m : gmap VmId Worker.t) : list Worker.t := (map_to_list m).*2.

Lemma workers_of_insert m id w :
  m !! id = None -> kids_of (workers_of (<[id := w]> m)) = kids w ⊎ kids_of (workers_of m).
Proof. intros Hm. unfold workers_of. by rewrite (map_to_list_insert m id w Hm). Qed.

Lemma workers_of_delete m id w :
  m !! id = Some w -> kids_of (workers_of m) = kids w ⊎ kids_of (workers_of (delete id m)).
Proof. intros Hm. unfold workers_of. by rewrite <- (map_to_list_delete m id w Hm). Qed.

Section Invariant.
Context {X : Type} `{!FleetOs X} {JE : Type} `{!Serde JE Request, !Serde JE Response}.
Context (display_frame_error : FrameError JE -> string) (debug_response : Response -> string)
  (debug_duration : Z -> string).
Abbreviation fleet := (ProcessFleet (ledger (X := X))).
Implicit Types (f : fleet) (id : VmId) (w : Worker.t) (held : gmultiset Z) (ids : list VmId).

(** The children the fleet answers for. *)
Definition live f : gmultiset Z :=
  kids_of (workers_of (workers f)) ⊎ kids_of (WarmEntry.slot <$> warm_pool f).

Definition pool_ids f : list VmId := WarmEntry.vm_id <$> warm_pool f.

(** An id that was given out and names nothing any more. *)
Definition retired ids f id : Prop :=
  1 <= id < next_vm_id f /\ workers f !! id = None /\ (id ∉ pool_ids f) /\ (id ∉ ids).

Definition ready w : Prop := is_Some (Worker.child w) /\ is_Some (Worker.stream w).

(** [n] more ids can be given out; [held] are the children and [ids] the ids a
    running method has in hand. *)
Record inv (n : Z) held ids f : Prop := {
  i_owes : owes (os f) (live f ⊎ held);
  i_next : 1 <= next_vm_id f /\ next_vm_id f + n < 2 ^ 64;
  i_workers id w : workers f !! id = Some w ->
    1 <= id < next_vm_id f /\ ready w /\ is_Some (Worker.worker_vm_id w);
  i_pool e : e ∈ warm_pool f -> 1 <= WarmEntry.vm_id e < next_vm_id f /\
    workers f !! WarmEntry.vm_id e = None /\ ready (WarmEntry.slot e) /\
    Worker.worker_vm_id (WarmEntry.slot e) = None;
  i_pool_nodup : NoDup (pool_ids f);
  i_owner s id : snapshot_owner f !! s = Some id -> is_Some (workers f !! id);
  i_size : (length (warm_pool f) <= FleetConfig.warm_pool_size (config f))%nat;
  i_ids : Forall (fun id => 1 <= id < next_vm_id f /\ workers f !! id = None /\ id ∉ pool_ids f) ids;
  i_ids_nodup : NoDup ids;
}.

(** What was retired stays so, and the configuration is kept. *)
Definition later ids f ids' f' : Prop :=
  config f' = config f /\ forall id, retired ids f id -> retired ids' f' id.

Lemma later_refl ids f : later ids f ids f.
Proof. by split. Qed.

Lemma later_trans ids f ids1 f1 ids2 f2 :
  later ids f ids1 f1 -> later ids1 f1 ids2 f2 -> later ids f ids2 f2.
Proof. intros [Hc H1] [Hc' H2]. split; [congruence|auto]. Qed.

(** Changes of the system that start and kill nothing. *)
Lemma inv_set_os n held ids f l :
  spawned l = spawned (os f) -> killed l = killed (os f) -> inv n held ids f ->
  inv n held ids (set_os l f) /\ later ids f ids (set_os l f).
Proof.
  intros Hs Hk []. split; [|by split]. split; try done. unfold owes in *. simpl. by rewrite Hs, Hk.
Qed.

Lemma on_os_inv {A} (c : SM (ledger (X := X)) VmError A) n held ids f :
  quiet c -> inv n held ids f ->
  exists r l, on_os c f = (r, set_os l f) /\ inv n held ids (set_os l f) /\ later ids f ids (set_os l f).
Proof.
  intros Hq Hf. unfold on_os. specialize (Hq (os f)). destruct (c (os f)) as [r l]. exists r, l.
  split; [done|]. apply inv_set_os; by destruct Hq.
Qed.

Lemma fleet_fresh_inv n held ids f :
  inv n held ids f -> 1 <= n ->
  exists f', fresh_vm_id f = (Ok (next_vm_id f), f') /\
    inv (n - 1) held (next_vm_id f :: ids) f' /\ later ids f (next_vm_id f :: ids) f' /\ warm_pool f' = warm_pool f.
Proof.
  intros [] Hn. unfold fresh_vm_id, fetch_add1. eexists. split; [done|].
  rewrite wrap64_small by (unfold is_u64; lia). set (id := next_vm_id f).
  assert (Hw : workers f !! id = None).
  { destruct (workers f !! id) eqn:E; [|done]. destruct (i_workers0 _ _ E) as [? _]. unfold id in *. lia. }
  assert (Hp : id ∉ pool_ids f).
  { intros (e & He & Hin)%list_elem_of_fmap. destruct (i_pool0 e Hin) as [? _]. unfold id in *. lia. }
  assert (Hi : id ∉ ids).
  { intros Hin. rewrite Forall_forall in i_ids0. destruct (i_ids0 id Hin) as [? _]. unfold id in *. lia. }
  split_and!; [split; simpl; try done| |done].
  - lia.
  - intros i w Hiw. destruct (i_workers0 i w Hiw) as (? & ?). split; [lia|done].
  - intros e He. destruct (i_pool0 e He) as (? & ?). split; [lia|done].
  - constructor; [split_and!; [unfold id in *; lia|unfold id in *; lia|done|done]|].
    eapply Forall_impl; [exact i_ids0|]. intros i (? & ?). simpl. split; [lia|done].
  - by constructor.
  - split; [done|]. intros i (Hr & Hwi & Hpi & Hii). split_and!; simpl; [lia|lia|done|done|].
    apply not_elem_of_cons. split; [unfold id; lia|done].
Qed.

Lemma start_worker_inv n held ids f id :
  inv n held ids f ->
  exists r l, start_worker display_frame_error debug_response debug_duration id f = (r, set_os l f) /\
    later ids f ids (set_os l f) /\
    match r with
    | Ok w => inv n (held ⊎ kids w) ids (set_os l f) /\ ready w /\ Worker.worker_vm_id w = None
    | Err _ => inv n held ids (set_os l f)
    end.
Proof.
  intros []. unfold start_worker, on_os.
  pose proof (spawn_worker_owes display_frame_error debug_response debug_duration (config f) id (os f)
    (live f ⊎ held) i_owes0) as Hs.
  destruct (spawn_worker _ _ _ _ _ (os f)) as [[w|e] l]; eexists _, l; (split; [done|]); (split; [by split|]).
  - destruct Hs as (Ho & Hc & Hst & Hv). split; [|done]. split; try done.
    apply (owes_eq _ _ _ Ho). change (live (set_os l f)) with (live f). clear. multiset_solver.
  - by split.
Qed.

(** Letting go of an id, of a child, and of both. *)
Lemma forget_id n held id ids f :
  inv n held (id :: ids) f -> inv n held ids f /\ later (id :: ids) f ids f.
Proof.
  intros []. split.
  - split; try done; [by inversion i_ids0|by inversion i_ids_nodup0].
  - split; [done|]. intros i (? & ? & ? & Hi). split_and!; [lia|lia|done|done|].
    by apply not_elem_of_cons in Hi as [_ ?].
Qed.

Lemma drop_worker_inv n held ids w f :
  inv n (held ⊎ kids w) ids f -> inv n held ids (drop_worker w f) /\ later ids f ids (drop_worker w f).
Proof.
  intros []. split; [|by split]. unfold drop_worker. split; try done.
  apply force_kill_owes. apply (owes_eq _ _ _ i_owes0).
  change (live (set_os _ f)) with (live f). clear. multiset_solver.
Qed.

Lemma holding_inv {A} (c : fleet -> result VmError A * fleet) n held ids w f :
  inv n (held ⊎ kids w) ids f ->
  (forall r f', c f = (r, f') -> inv n (held ⊎ kids w) ids f' /\ later ids f ids f') ->
  exists r f', holding w c f = (r, f') /\ later ids f ids f' /\
    match r with Ok _ => inv n (held ⊎ kids w) ids f' | Err _ => inv n held ids f' end.
Proof.
  intros Hf Hc. unfold holding. destruct (c f) as [[a|e] f1] eqn:E; destruct (Hc _ _ eq_refl) as [H1 H2].
  - by exists (Ok a), f1.
  - destruct (drop_worker_inv _ _ _ _ _ H1) as [H3 H4]. exists (Err e), (drop_worker w f1).
    split_and!; [done|by eapply later_trans|done].
Qed.

Lemma take_warm_inv n held ids f :
  inv n held ids f ->
  match take_warm f with
  | (Ok (Some e), f') => inv n (held ⊎ kids (WarmEntry.slot e)) (WarmEntry.vm_id e :: ids) f' /\
      later ids f (WarmEntry.vm_id e :: ids) f' /\ ready (WarmEntry.slot e)
  | (Ok None, f') => f' = f
  | (Err _, _) => False
  end.
Proof.
  intros []. unfold take_warm. destruct (warm_pool f) as [|e pool] eqn:Hp; [done|].
  unfold pool_ids in *. rewrite Hp in *. apply NoDup_cons in i_pool_nodup0 as [He Hnd].
  destruct (i_pool0 e) as (Hr & Hw & Hrd & Hv); [left|]. rewrite fmap_cons in *.
  assert (Hids : WarmEntry.vm_id e ∉ ids).
  { intros Hin. rewrite Forall_forall in i_ids0. destruct (i_ids0 _ Hin) as (_ & _ & Hx).
    apply Hx. left. }
  split_and!; [split; simpl; try done| |done].
  - apply (owes_eq _ _ _ i_owes0). unfold live. rewrite Hp, fmap_cons. cbn [kids_of foldr]. cbn [workers warm_pool set_warm_pool].
    fold (kids_of (WarmEntry.slot <$> pool)). clear. multiset_solver.
  - intros e' He'. apply i_pool0. by right.
  - simpl in i_size0. lia.
  - constructor; [done|]. eapply Forall_impl; [exact i_ids0|]. intros i (? & ? & Hx). split_and!; try done; [lia..|].
    unfold pool_ids. simpl. intros Hy. apply Hx. by right.
  - by constructor.
  - split; [done|]. intros i (? & ? & Hpi & ?). unfold pool_ids in Hpi. rewrite Hp in Hpi.
    apply not_elem_of_cons in Hpi as [Hne Hpi]. split_and!; simpl; [lia|lia|done|done|].
    by apply not_elem_of_cons.
Qed.

Lemma pool_push_inv n held ids f id w :
  inv n (held ⊎ kids w) (id :: ids) f -> ready w -> Worker.worker_vm_id w = None ->
  (length (warm_pool f) < FleetConfig.warm_pool_size (config f))%nat ->
  let f' := set_warm_pool (warm_pool f ++ [WarmEntry.mk id w]) f in
  inv n held ids f' /\ later (id :: ids) f ids f'.
Proof.
  intros [] Hrd Hv Hlen f'. apply Forall_cons in i_ids0 as [(Hid & Hw & Hp) Hids].
  apply NoDup_cons in i_ids_nodup0 as [Hni Hnd].
  assert (Hpi : forall i, i ∈ pool_ids f' <-> i ∈ pool_ids f \/ i = id).
  { intros i. unfold pool_ids, f'. cbn [warm_pool set_warm_pool].
    rewrite fmap_app, elem_of_app. cbn [fmap list_fmap WarmEntry.vm_id]. by rewrite list_elem_of_singleton. }
  split; [split; simpl; try done|].
  - apply (owes_eq _ _ _ i_owes0). unfold live. simpl. rewrite fmap_app, kids_of_app. simpl. clear. multiset_solver.
  - intros e [He|He%list_elem_of_singleton]%elem_of_app; [auto|]. by subst e.
  - unfold f', pool_ids in *. simpl. rewrite fmap_app. apply NoDup_app. split_and!; [done| |apply NoDup_singleton].
    intros i Hi Hx%list_elem_of_singleton. by subst i.
  - rewrite length_app. simpl. lia.
  - apply Forall_forall. intros i Hi. rewrite Forall_forall in Hids. destruct (Hids i Hi) as (? & ? & ?).
    split_and!; [lia|lia|done|]. rewrite Hpi. intros [?|?]; [done|by subst i].
  - split; [done|]. intros i (? & ? & Hpi' & Hni'). apply not_elem_of_cons in Hni' as [Hne ?]. split_and!; [lia|simpl; lia|done| |done].
    rewrite Hpi. by intros [?|?].
Qed.

Lemma register_inv n held ids f id w h :
  inv n (held ⊎ kids w) (id :: ids) f -> ready w ->
  exists f', register_vm id w h f = (Ok (VmHandle.mk id (VmHandle.state h)), f') /\
    inv n held ids f' /\ later (id :: ids) f ids f'.
Proof.
  intros [] [Hc Hs]. apply Forall_cons in i_ids0 as [(Hid & Hw & Hp) Hids].
  apply NoDup_cons in i_ids_nodup0 as [Hni Hnd].
  unfold register_vm, mbind, sm_bind, insert_worker. rewrite Hw. eexists. split; [done|].
  split; [split; simpl; try done|].
  - apply (owes_eq _ _ _ i_owes0). unfold live. simpl. rewrite workers_of_insert by done.
    change (kids (Worker.set_vm_id _ w)) with (kids w). clear. multiset_solver.
  - intros i w' [[<- <-]|[Hne Hi]]%lookup_insert_Some; [|auto]. split_and!; [lia|lia|by split|by eexists].
  - intros e He. destruct (i_pool0 e He) as (? & ? & ? & ?).
    split_and!; try done; try lia. apply lookup_insert_None. split; [done|]. intros Heq. apply Hp. apply list_elem_of_fmap. by exists e.
  - intros s i Hi. apply lookup_insert_is_Some. destruct (decide (id = i)); [by left|right]. split; [done|eauto].
  - apply Forall_forall. intros i Hi. rewrite Forall_forall in Hids. destruct (Hids i Hi) as (? & ? & ?).
    split_and!; try done; [lia..|]. apply lookup_insert_None. split; [done|]. intros ->. done.
  - split; [done|]. intros i (? & Hwi & ? & Hni'). apply not_elem_of_cons in Hni' as [Hne ?]. split_and!; [lia|simpl; lia| |done|done].
    simpl. apply lookup_insert_None. by split.
Qed.

Lemma refill_loop_inv k n held ids f :
  inv (n + Z.of_nat k) held ids f -> 0 <= n ->
  (length (warm_pool f) + k <= FleetConfig.warm_pool_size (config f))%nat ->
  exists r f', refill_loop display_frame_error debug_response debug_duration k f = (r, f') /\
    inv n held ids f' /\ later ids f ids f'.
Proof.
  revert n held f. induction k as [|k IH]; intros n held f Hf Hn Hk.
  { exists (Ok tt), f. rewrite Z.add_0_r in Hf. split_and!; [done|done|apply later_refl]. }
  cbn [refill_loop].
  destruct (fleet_fresh_inv _ _ _ _ Hf) as (f1 & E1 & I1 & L1 & P1); [lia|]. rewrite (sm_bind_ok _ _ _ _ _ E1).
  destruct (start_worker_inv _ _ _ _ (next_vm_id f) I1) as (r & l & E2 & L2 & I2).
  destruct r as [w|e].
  - rewrite (sm_bind_ok _ _ _ _ _ E2). destruct I2 as (I2 & Hrd & Hv).
    destruct (pool_push_inv _ _ _ _ _ _ I2 Hrd Hv) as [I3 L3].
    { simpl. rewrite P1. destruct L1 as [-> _]. lia. }
    unfold mbind, sm_bind, sm_modify.
    destruct (IH n held _ (eq_rect _ (fun z => inv z held ids _) I3 (n + Z.of_nat k) ltac:(lia)) Hn) as (r & f' & E4 & I4 & L4).
    { simpl. rewrite length_app, P1. simpl. destruct L1 as [-> _]. lia. }
    exists r, f'. split_and!; [exact E4|done|]. eapply later_trans; [exact L1|].
    eapply later_trans; [exact L2|]. by eapply later_trans.
  - rewrite (sm_bind_err _ _ _ _ _ E2). destruct (forget_id _ _ _ _ _ I2) as [I3 L3].
    eexists _, _. split_and!; [done| |].
    + destruct I3. split; try done. lia.
    + eapply later_trans; [exact L1|]. by eapply later_trans.
Qed.

Lemma fleet_inv_weaken n m held ids f : inv n held ids f -> m <= n -> inv m held ids f.
Proof. intros [] Hm. split; try done. lia. Qed.

(** A computation that keeps the invariant and uses up at most [k] ids. *)
Definition keeps {A} (k : Z) (c : fleet -> result VmError A * fleet) : Prop := forall n f,
  inv (n + k) ∅ [] f -> 0 <= n -> k <= 1 + Z.of_nat (FleetConfig.warm_pool_size (config f)) ->
  inv n ∅ [] (c f).2 /\ later [] f [] (c f).2.

Lemma fleet_keeps_bind {A B} (c : fleet -> result VmError A * fleet) (k : A -> fleet -> result VmError B * fleet) :
  keeps 0 c -> (forall a, keeps 0 (k a)) -> keeps 0 (mbind (M := SM fleet VmError) k c).
Proof.
  intros Hc Hk n f Hf Hn Hs. unfold mbind, sm_bind. destruct (Hc n f Hf Hn Hs) as [I1 L1].
  destruct (c f) as [[a|e] f1]; [|done]. simpl in I1, L1.
  destruct (Hk a n f1) as [I2 L2]; [by rewrite Z.add_0_r|done|by rewrite (proj1 L1)|].
  split; [done|by eapply later_trans].
Qed.

Lemma keeps_same {A} (c : fleet -> result VmError A * fleet) : (forall f, (c f).2 = f) -> keeps 0 c.
Proof. intros Hc n f Hf Hn _. rewrite Hc. rewrite Z.add_0_r in Hf. split; [done|apply later_refl]. Qed.

Lemma keeps_on_os {A} (c : SM (ledger (X := X)) VmError A) : quiet c -> keeps 0 (on_os c).
Proof.
  intros Hq n f Hf Hn _. rewrite Z.add_0_r in Hf.
  destruct (on_os_inv c _ _ _ _ Hq Hf) as (r & l & -> & I1 & L1). done.
Qed.

Lemma keeps_dispatch_to w req : keeps 0 (on_os (dispatch_to_slot display_frame_error w req)).
Proof. apply keeps_on_os, dispatch_quiet. Qed.

Lemma keeps_remapped {T} id build (ex : Response -> option T) :
  keeps 0 (remapped display_frame_error debug_response id build ex).
Proof.
  unfold remapped, dispatch_remapped. apply fleet_keeps_bind; [|intros r; by apply keeps_same].
  apply fleet_keeps_bind; [by apply keeps_same|]. intros w. apply fleet_keeps_bind; [by apply keeps_same|].
  intros wid. apply keeps_dispatch_to.
Qed.

Lemma keeps_dispatch id req : keeps 0 (dispatch display_frame_error id req).
Proof.
  unfold dispatch. apply fleet_keeps_bind; [by apply keeps_same|]. intros w. apply keeps_dispatch_to.
Qed.

(** Changes of the snapshot index. *)
Lemma inv_owner n held ids f (m : gmap SnapshotId VmId) :
  inv n held ids f -> (forall s id, m !! s = Some id -> is_Some (workers f !! id)) ->
  inv n held ids (set_snapshot_owner m f) /\ later ids f ids (set_snapshot_owner m f).
Proof. intros [] Hm. by split; split. Qed.

Lemma keeps_snapshot id : keeps 0 (snapshot display_frame_error debug_response id).
Proof.
  intros n f Hf Hn Hs. unfold snapshot, mbind, sm_bind.
  destruct (keeps_remapped id Snapshot as_snapshot n f Hf Hn Hs) as [I1 L1].
  destruct (remapped _ _ id Snapshot as_snapshot f) as [[snap|e] f1] eqn:E; [|done].
  simpl in I1, L1. assert (Hw : workers f1 = workers f /\ is_Some (workers f !! id)).
  { revert E. unfold remapped, dispatch_remapped, worker_for, mbind, sm_bind, sm_lift, ok_or, on_os.
    destruct (workers f !! id) as [w|] eqn:Ew; [|done].
    destruct (Worker.worker_vm_id w); [|done]. destruct (dispatch_to_slot _ w _ (os f)) as [[resp|e] l]; [|done].
    intros [= _ <-]. split; [done|by eexists]. }
  destruct Hw as [Hw Hid]. unfold sm_modify. simpl.
  destruct (inv_owner n ∅ [] f1 (<[snap:=id]> (snapshot_owner f1)) I1) as [I2 L2].
  { intros s i [[<- <-]|[_ Hi]]%lookup_insert_Some; [by rewrite Hw|]. destruct I1. eauto. }
  split; [done|by eapply later_trans].
Qed.

Lemma keeps_delete_snapshot snap : keeps 0 (delete_snapshot display_frame_error debug_response snap).
Proof.
  unfold delete_snapshot. apply fleet_keeps_bind; [by apply keeps_same|]. intros owner.
  apply fleet_keeps_bind; [apply keeps_dispatch|]. intros resp. apply fleet_keeps_bind; [by apply keeps_same|].
  intros _ n f Hf _ _. rewrite Z.add_0_r in Hf. apply inv_owner; [done|].
  intros s id [_ Hs]%lookup_delete_Some. destruct Hf. eauto.
Qed.

Lemma keeps_list_vms : keeps 0 (list_vms display_frame_error debug_response).
Proof.
  intros n f. unfold list_vms. generalize ((map_to_list (workers f)).*1) as ids. intros ids. revert f.
  assert (Hk : keeps 0 (handles_of display_frame_error debug_response ids)); [|intros f; apply Hk].
  induction ids as [|id ids IH]; [by apply keeps_same|]. cbn [handles_of].
  apply fleet_keeps_bind; [|intros st; apply fleet_keeps_bind; [exact IH|intros hs; by apply keeps_same]].
  intros m f Hf Hm Hs. unfold state_or_created.
  pose proof (keeps_remapped id State as_state m f Hf Hm Hs) as H. unfold state.
  by destruct (remapped _ _ id State as_state f) as [[]].
Qed.

(** The worker leaves the map, the index loses its snapshots, it is killed. *)
Lemma destroyed_inv n f id w :
  inv n ∅ [] f -> workers f !! id = Some w ->
  let f' := drop_worker w (set_snapshot_owner (filter (fun '(_, owner_vm) => owner_vm <> id) (snapshot_owner f))
              (set_workers (delete id (workers f)) f)) in
  inv n ∅ [] f' /\ later [] f [] f'.
Proof.
  intros [] Hw f'.
  set (f1 := set_snapshot_owner (filter (fun '(_, owner_vm) => owner_vm <> id) (snapshot_owner f))
              (set_workers (delete id (workers f)) f)) in f'.
  assert (I1 : inv n (∅ ⊎ kids w) [] f1 /\ later [] f [] f1).
  2: { destruct I1 as [I1 L1]. destruct (drop_worker_inv _ _ _ _ _ I1) as [I2 L2].
       split; [done|by eapply later_trans]. }
  split; [split; simpl; try done|].
  - apply (owes_eq _ _ _ i_owes0). unfold live, f1. simpl. rewrite (workers_of_delete _ _ _ Hw). clear. multiset_solver.
  - intros i w' [_ Hi]%lookup_delete_Some. eauto.
  - intros e He. destruct (i_pool0 e He) as (? & ? & ? & ?).
    split_and!; try done; try lia. apply lookup_delete_None. by right.
  - intros s i [Hs Hne]%map_lookup_filter_Some. rewrite lookup_delete_ne by done. eauto.
  - split; [done|]. intros i (? & Hi & ? & ?). split_and!; [lia|simpl; lia| |done|done].
    simpl. apply lookup_delete_None. by right.
Qed.

Lemma keeps_destroy id : keeps 0 (destroy display_frame_error id).
Proof.
  intros n f Hf Hn Hs. unfold destroy, mbind, sm_bind, worker_for.
  destruct (workers f !! id) as [w|] eqn:Hw; simpl.
  2: { rewrite Z.add_0_r in Hf. split; [done|apply later_refl]. }
  assert (Hstep : forall req f, inv n ∅ [] f -> exists l,
    best_effort (on_os (dispatch_to_slot display_frame_error w req)) f = (Ok tt, set_os l f) /\
    inv n ∅ [] (set_os l f) /\ later [] f [] (set_os l f)).
  { intros req g Hg. unfold best_effort.
    destruct (on_os_inv _ _ _ _ _ (dispatch_quiet display_frame_error w req) Hg) as (r & l & -> & I1 & L1). by exists l. }
  rewrite Z.add_0_r in Hf.
  assert (H1 : exists l, match Worker.worker_vm_id w with
      | Some wid => best_effort (on_os (dispatch_to_slot display_frame_error w (Destroy wid)))
      | None => mret tt end f = (Ok tt, set_os l f) /\ inv n ∅ [] (set_os l f) /\ later [] f [] (set_os l f)).
  { destruct (Worker.worker_vm_id w) as [wid|]; [by apply Hstep|]. exists (os f). destruct f. split; [done|].
    split; [done|apply later_refl]. }
  destruct H1 as (l1 & -> & I1 & L1). destruct (Hstep Shutdown _ I1) as (l2 & -> & I2 & L2). simpl.
  unfold sm_modify. simpl. destruct (destroyed_inv n (set_os l2 (set_os l1 f)) id w I2 Hw) as [I3 L3].
  split; [done|]. eapply later_trans; [exact L1|]. by eapply later_trans.
Qed.

(** A worker in hand becomes a VM, or is given up with its id. *)
Lemma adopt_vm_inv (c : fleet -> result VmError VmHandle.t * fleet) n f id w :
  inv n (∅ ⊎ kids w) [id] f -> ready w ->
  (forall g r g', inv n (∅ ⊎ kids w) [id] g -> c g = (r, g') -> inv n (∅ ⊎ kids w) [id] g' /\ later [id] g [id] g') ->
  let out := mbind (M := SM fleet VmError) (register_vm id w) (holding w c) f in
  inv n ∅ [] out.2 /\ later [id] f [] out.2.
Proof.
  intros Hf Hw Hc. cbn zeta. destruct (holding_inv c _ _ _ _ _ Hf) as (r & f1 & E1 & L1 & I1).
  { intros r f' Hr. by apply (Hc f r). }
  unfold mbind, sm_bind. rewrite E1. destruct r as [h|e].
  - destruct (register_inv _ _ _ _ _ _ h I1 Hw) as (f2 & -> & I2 & L2). split; [done|by eapply later_trans].
  - destruct (forget_id _ _ _ _ _ I1) as [I2 L2]. split; [done|by eapply later_trans].
Qed.

(** Requests to the worker in hand. *)
Lemma ask_inv {T} n held ids w req (ex : Response -> option T) f r f' :
  inv n held ids f ->
  (resp ← on_os (dispatch_to_slot display_frame_error w req); sm_lift (unwrap_response debug_response resp ex)) f = (r, f') ->
  inv n held ids f' /\ later ids f ids f'.
Proof.
  intros Hf. destruct (on_os_inv _ _ _ _ _ (dispatch_quiet display_frame_error w req) Hf) as (r1 & l & E & I1 & L1).
  unfold mbind, sm_bind, sm_lift. rewrite E. by destruct r1; intros [= _ <-].
Qed.

Lemma keeps_create cfg f n :
  inv (n + (1 + Z.of_nat (FleetConfig.warm_pool_size (config f)))) ∅ [] f -> 0 <= n ->
  let f' := (create_vm display_frame_error debug_response debug_duration cfg f).2 in
  inv n ∅ [] f' /\ later [] f [] f'.
Proof.
  intros Hf Hn. cbn zeta. unfold create_vm. pose proof (take_warm_inv _ _ _ _ Hf) as Ht.
  destruct (take_warm f) as [[[e|]|] f1] eqn:Etake; [| |done].
  - rewrite (sm_bind_ok _ _ _ _ _ Etake). destruct Ht as (I1 & L1 & Hrd).
    assert (Hcfg : config f1 = config f) by apply (proj1 L1).
    destruct (refill_loop_inv (FleetConfig.warm_pool_size (config f1) - length (warm_pool f1))
      (n + 1 + Z.of_nat (length (warm_pool f1))) (∅ ⊎ kids (WarmEntry.slot e)) [WarmEntry.vm_id e] f1)
      as (r & f2 & E2 & I2 & L2).
    { destruct I1. apply fleet_inv_weaken with (n := n + (1 + Z.of_nat (FleetConfig.warm_pool_size (config f)))); [by split|].
      rewrite Hcfg in *. lia. }
    { lia. }
    { destruct I1. lia. }
    assert (Em : (_ ← best_effort (refill_warm_pool display_frame_error debug_response debug_duration);
                  mret (WarmEntry.vm_id e, WarmEntry.slot e)) f1 = (Ok (WarmEntry.vm_id e, WarmEntry.slot e), f2)).
    { unfold mbind, sm_bind, best_effort, refill_warm_pool. by rewrite E2. }
    rewrite (sm_bind_ok _ _ _ _ _ Em).
    destruct (adopt_vm_inv (fun f => (resp ← on_os (dispatch_to_slot display_frame_error (WarmEntry.slot e) (CreateVm cfg));
        sm_lift (unwrap_response debug_response resp as_handle)) f) n f2 (WarmEntry.vm_id e) (WarmEntry.slot e)) as [I3 L3].
    { eapply fleet_inv_weaken; [exact I2|lia]. } { done. } { intros g r0 g' Hg. by apply ask_inv. }
    split; [exact I3|]. eapply later_trans; [exact L1|]. eapply later_trans; [exact L2|exact L3].
  - rewrite (sm_bind_ok _ _ _ _ _ Etake). subst f1.
    destruct (fleet_fresh_inv _ _ _ _ Hf) as (f1 & E1 & I1 & L1 & _); [lia|].
    destruct (start_worker_inv _ _ _ _ (next_vm_id f) I1) as (r & l & E2 & L2 & I2).
    assert (Em : (id ← fresh_vm_id; slot ← start_worker display_frame_error debug_response debug_duration id;
                  mret (id, slot)) f = (match r with Ok w => Ok (next_vm_id f, w) | Err e => Err e end, set_os l f1)).
    { rewrite (sm_bind_ok _ _ _ _ _ E1). unfold mbind, sm_bind. rewrite E2. by destruct r. }
    destruct r as [w|e].
    + destruct I2 as (I2 & Hrd & _). rewrite (sm_bind_ok _ _ _ _ _ Em).
      destruct (adopt_vm_inv (fun f => (resp ← on_os (dispatch_to_slot display_frame_error w (CreateVm cfg));
        sm_lift (unwrap_response debug_response resp as_handle)) f) n (set_os l f1) (next_vm_id f) w) as [I3 L3].
      { eapply fleet_inv_weaken; [exact I2|lia]. } { done. } { intros g r0 g' Hg. by apply ask_inv. }
      split; [exact I3|]. eapply later_trans; [exact L1|]. eapply later_trans; [exact L2|exact L3].
    + rewrite (sm_bind_err _ _ _ _ _ Em). destruct (forget_id _ _ _ _ _ I2) as [I3 L3]. split; [eapply fleet_inv_weaken; [exact I3|lia]|].
      eapply later_trans; [exact L1|]. eapply later_trans; [exact L2|exact L3].
Qed.

Lemma keeps_restore snap f n :
  inv (n + 1) ∅ [] f -> 0 <= n ->
  let f' := (restore display_frame_error debug_response debug_duration snap f).2 in
  inv n ∅ [] f' /\ later [] f [] f'.
Proof.
  intros Hf Hn. cbn zeta. unfold restore.
  assert (Hstop : inv n ∅ [] f) by (eapply fleet_inv_weaken; [exact Hf|lia]).
  destruct (snapshot_owner f !! snap) as [owner|] eqn:Ho.
  2: { rewrite (sm_bind_err _ _ f (UnknownSnapshot snap) f) by (unfold owner_of; by rewrite Ho).
       split; [done|apply later_refl]. }
  rewrite (sm_bind_ok _ _ f owner f) by (unfold owner_of; by rewrite Ho).
  destruct (workers f !! owner) as [w0|] eqn:Hw.
  2: { rewrite (sm_bind_err _ _ f (UnknownVm owner) f) by (unfold worker_for; by rewrite Hw).
       split; [done|apply later_refl]. }
  rewrite (sm_bind_ok _ _ f w0 f) by (unfold worker_for; by rewrite Hw).
  destruct (on_os_inv _ _ _ _ _ (dispatch_quiet display_frame_error w0 (SnapshotExportDir snap)) Hf)
    as (r & l & E0 & I0 & L0).
  assert (Hstop' : inv n ∅ [] (set_os l f)) by (eapply fleet_inv_weaken; [exact I0|lia]).
  destruct r as [exp|e]; [rewrite (sm_bind_ok _ _ _ _ _ E0)|rewrite (sm_bind_err _ _ _ _ _ E0); by split; [|exact L0]].
  destruct (unwrap_response debug_response exp as_path) as [[dir|]|e] eqn:Hu.
  3: { rewrite (sm_bind_err _ _ _ e (set_os l f)) by done. by split; [|exact L0]. }
  2: { rewrite (sm_bind_ok _ _ _ None (set_os l f)) by done. by split; [|exact L0]. }
  rewrite (sm_bind_ok _ _ _ (Some dir) (set_os l f)) by done.
  rewrite (sm_bind_ok _ _ _ dir (set_os l f)) by done.
  destruct (fleet_fresh_inv _ _ _ _ I0) as (f1 & E1 & I1 & L1 & _); [lia|]. rewrite (sm_bind_ok _ _ _ _ _ E1).
  destruct (start_worker_inv _ _ _ _ (next_vm_id (set_os l f)) I1) as (r & l2 & E2 & L2 & I2).
  destruct r as [w|e].
  - rewrite (sm_bind_ok _ _ _ _ _ E2). destruct I2 as (I2 & Hrd & _).
    match goal with |- context [holding w ?c] =>
      destruct (adopt_vm_inv c n (set_os l2 f1) (next_vm_id (set_os l f)) w) as [I3 L3] end.
    { eapply fleet_inv_weaken; [exact I2|lia]. } { done. }
    { intros g r g' Hg Hr. destruct (on_os_inv _ _ _ _ _ (dispatch_quiet display_frame_error w (SnapshotAdopt dir)) Hg)
        as (ra & la & Ea & Ia & La).
      destruct ra as [resp|e]; [rewrite (sm_bind_ok _ _ _ _ _ Ea) in Hr|
        rewrite (sm_bind_err _ _ _ _ _ Ea) in Hr; by injection Hr as _ <-].
      destruct (unwrap_response debug_response resp as_snapshot) as [ls|e] eqn:Hv;
        [|rewrite (sm_bind_err _ _ _ e (set_os la g)) in Hr by (unfold sm_lift; done || by rewrite Hv); by injection Hr as _ <-].
      rewrite (sm_bind_ok _ _ _ ls (set_os la g)) in Hr by (unfold sm_lift; done || by rewrite Hv).
      destruct (ask_inv _ _ _ _ _ _ _ _ _ Ia Hr) as [Ib Lb]. split; [done|by eapply later_trans]. }
    split; [exact I3|]. eapply later_trans; [exact L0|]. eapply later_trans; [exact L1|].
    eapply later_trans; [exact L2|exact L3].
  - rewrite (sm_bind_err _ _ _ _ _ E2). destruct (forget_id _ _ _ _ _ I2) as [I3 L3].
    split; [eapply fleet_inv_weaken; [exact I3|lia]|]. eapply later_trans; [exact L0|].
    eapply later_trans; [exact L1|]. eapply later_trans; [exact L2|exact L3].
Qed.

#[local] Instance fleet_hv : Hypervisor fleet := process_fleet display_frame_error debug_response debug_duration.

Lemma call_inv {A} (c : HvCall A) f n :
  inv (n + (1 + Z.of_nat (FleetConfig.warm_pool_size (config f)))) ∅ [] f -> 0 <= n ->
  inv n ∅ [] (call c f).2 /\ later [] f [] (call c f).2.
Proof.
  intros Hf Hn.
  assert (Hk : forall k (c : fleet -> result VmError A * fleet),
    keeps k c -> k <= 1 + Z.of_nat (FleetConfig.warm_pool_size (config f)) -> inv n ∅ [] (c f).2 /\ later [] f [] (c f).2).
  { intros k c' Hc Hle. apply Hc; [eapply fleet_inv_weaken; [exact Hf|lia]|done|done]. }
  destruct c; try (by apply (Hk 0); [apply keeps_remapped|lia]); try (by apply (Hk 0); [by apply keeps_same|lia]).
  - by apply keeps_create.
  - apply (Hk 0); [apply keeps_snapshot|lia].
  - apply keeps_restore; [eapply fleet_inv_weaken; [exact Hf|lia]|done].
  - apply (Hk 0); [apply keeps_destroy|lia].
  - apply (Hk 0); [apply keeps_list_vms|lia].
  - apply (Hk 0); [apply keeps_delete_snapshot|lia].
  - apply (Hk 0); [|lia]. apply fleet_keeps_bind; [by apply keeps_same|]. intros owner.
    apply fleet_keeps_bind; [apply keeps_dispatch|]. intros r. by apply keeps_same.
Qed.

(** A sequence of calls, whatever they answer. *)
Fixpoint run (calls : list {A & HvCall A}) f : fleet :=
  match calls with
  | [] => f
  | existT _ c :: calls => run calls (call c f).2
  end.

Lemma run_inv calls f n :
  inv (n + Z.of_nat (length calls) * (1 + Z.of_nat (FleetConfig.warm_pool_size (config f)))) ∅ [] f -> 0 <= n ->
  inv n ∅ [] (run calls f) /\ later [] f [] (run calls f).
Proof.
  revert f. induction calls as [|[A c] calls IH]; intros f Hf Hn; cbn [run length] in *.
  - split; [eapply fleet_inv_weaken; [exact Hf|lia]|apply later_refl].
  - set (k := 1 + Z.of_nat (FleetConfig.warm_pool_size (config f))) in *.
    destruct (call_inv c f (n + Z.of_nat (length calls) * k)) as [I1 L1].
    { eapply fleet_inv_weaken; [exact Hf|]. unfold k. lia. } { unfold k. lia. }
    destruct (IH (call c f).2) as [I2 L2]; [by rewrite (proj1 L1)|done|]. split; [done|by eapply later_trans].
Qed.

Lemma refill_loop_workers k f r f' :
  refill_loop display_frame_error debug_response debug_duration k f = (r, f') -> workers f' = workers f.
Proof.
  revert f. induction k as [|k IH]; intros f; cbn [refill_loop]; [by intros [= _ <-]|].
  unfold mbind, sm_bind, fresh_vm_id, fetch_add1, start_worker, on_os, sm_modify. simpl.
  destruct (spawn_worker _ _ _ _ _ _) as [[w|e] l]; [|by intros [= _ <-]]. intros H. by apply IH in H.
Qed.

Lemma kill_all_owes pool (l : ledger (X := X)) held :
  owes l (held ⊎ kids_of (WarmEntry.slot <$> pool)) ->
  owes (foldl (fun x e => force_kill (WarmEntry.slot e) x) l pool) held.
Proof.
  revert l. induction pool as [|e pool IH]; intros l Hl; cbn [foldl fmap list_fmap kids_of foldr] in *.
  - apply (owes_eq _ _ _ Hl). clear. multiset_solver.
  - apply IH. apply force_kill_owes. apply (owes_eq _ _ _ Hl). unfold kids_of. clear. multiset_solver.
Qed.

Lemma fleet_new_inv cfg (x : X) n :
  n + Z.of_nat (FleetConfig.warm_pool_size cfg) + 1 < 2 ^ 64 -> 0 <= n ->
  match new display_frame_error debug_response debug_duration cfg (mk_ledger x ∅ ∅) with
  | (Ok f, _) => inv n ∅ [] f /\ config f = cfg
  | (Err _, l) => owes l ∅
  end.
Proof.
  intros Hsz Hn. unfold new, refill_warm_pool.
  destruct (refill_loop_inv (FleetConfig.warm_pool_size cfg - 0) n ∅ []
    (mk_fleet cfg ∅ ∅ 1 [] (mk_ledger x ∅ ∅))) as (r & f & E & I1 & L1).
  { split; try done; cbn [next_vm_id warm_pool config length].
    - lia.
    - by intros e He%elem_of_nil.
    - constructor.
    - lia.
    - constructor. }
  { done. } { simpl. lia. }
  cbn [length warm_pool config]. rewrite E. destruct r as [[]|e]; [split; [done|apply (proj1 L1)]|].
  apply refill_loop_workers in E. destruct I1. apply kill_all_owes. apply (owes_eq _ _ _ i_owes0).
  unfold live. rewrite E. clear. multiset_solver.
Qed.
End Invariant.

(** ** Properties *)

(** C22: Every worker is accounted for. Whatever the operating system and the
    workers answer, for every sequence of calls, the processes that were started
    are exactly those that were killed and those of the VMs and the warm pool:
    failed creations, restores and refills leave no process behind, and neither
    does a fleet that cannot be set up. The pool is never larger than
    configured, no id names two workers or a VM and an idle worker, every VM's
    worker has been given its id, the snapshot index names existing VMs only,
    and an id that no longer names anything never does again. *)
Theorem fleet_accounts_for_workers {X} `{!FleetOs X} {JE} `{!Serde JE Request, !Serde JE Response}
    (dfe : FrameError JE -> string) dresp ddur cfg (x : X) (before after : list {A & HvCall A}) :
  let size := Z.of_nat (FleetConfig.warm_pool_size cfg) in
  (2 + Z.of_nat (length before) + Z.of_nat (length after)) * (1 + size) < 2 ^ 64 ->
  match new dfe dresp ddur cfg (mk_ledger x ∅ ∅) with
  | (Err _, l) => spawned l = killed l
  | (Ok f0, _) =>
      let f := run dfe dresp ddur before f0 in
      let f' := run dfe dresp ddur after f in
      spawned (os f') = killed (os f') ⊎ live f' /\
      (length (warm_pool f') <= FleetConfig.warm_pool_size cfg)%nat /\
      NoDup (pool_ids f') /\
      (forall id, id ∈ pool_ids f' -> workers f' !! id = None) /\
      (forall id w, workers f' !! id = Some w ->
         1 <= id < next_vm_id f' /\ is_Some (Worker.child w) /\ is_Some (Worker.worker_vm_id w)) /\
      (forall s id, snapshot_owner f' !! s = Some id -> is_Some (workers f' !! id)) /\
      (forall id, retired [] f id -> retired [] f' id)
  end.
Proof.
  intros size Hn.
  pose proof (fleet_new_inv dfe dresp ddur cfg x
    ((Z.of_nat (length before) + Z.of_nat (length after)) * (1 + size))) as Hnew.
  destruct (new _ _ _ _ _) as [[f0|e] l].
  2: { specialize (Hnew ltac:(lia) ltac:(lia)). unfold owes in Hnew. rewrite Hnew. clear. multiset_solver. }
  destruct (Hnew ltac:(lia) ltac:(lia)) as [I0 Hc]. cbn zeta.
  destruct (run_inv dfe dresp ddur before f0 (Z.of_nat (length after) * (1 + size))) as [I1 L1].
  { rewrite Hc. fold size. eapply fleet_inv_weaken; [exact I0|lia]. } { lia. }
  destruct (run_inv dfe dresp ddur after (run dfe dresp ddur before f0) 0) as [I2 L2].
  { rewrite (proj1 L1), Hc. fold size. eapply fleet_inv_weaken; [exact I1|lia]. } { done. }
  destruct I2. split_and!.
  - unfold owes in i_owes0. rewrite i_owes0. clear. multiset_solver.
  - by rewrite (proj1 L2), (proj1 L1), Hc in i_size0.
  - done.
  - intros id (e & -> & He)%list_elem_of_fmap. by destruct (i_pool0 e He) as (_ & ? & _).
  - intros id w Hw. destruct (i_workers0 id w Hw) as (? & [? ?] & ?). split; [done|by split].
  - done.
  - by apply (proj2 L2).
Qed.
