(* ===== verification/FleetHost.v ===== *)
(** * The fleet on a host of workers

    A host whose processes are the workers of [Ipc]: each runs the request loop
    on its socket over a hypervisor of its own. On it the fleet refines a map
    from VM ids to hypervisors: every call reaches the hypervisor of its VM
    under that worker's own id and no other, also after other workers have
    died. Snapshot ids are not translated, and two workers' ids collide. *)

From Stdlib Require Import Ascii String.
From stdpp Require Import strings gmultiset.
From S2P Require Import Prelude Io Fs VmCore VmMock HvCalls Ipc Fleet FleetProps.

Local Open Scope Z_scope.

(** What a socket reports when its peer has sent too little so far; a read that
    would wait for ever ends with it. *)
Definition WOULD_BLOCK : IoErrorKind := OtherIo 11.

Module Host.
Section Host.
Context {H : Type} `{!Hypervisor H} {JE : Type} `{!Serde JE Request, !Serde JE Response}.
(** The hypervisor a worker starts with. *)
Variable boot : H.

Record proc : Type := mk_proc {
  hv : H;
  running : bool;
  connected : bool;
  inbox : bytes;
  outbox : bytes;
}.

Record t : Type := mk {
  procs : gmap Z proc;
  sockets : gmap string Z;
  next_pid : Z;
  clock : Z;
}.

Definition empty : t := mk ∅ ∅ 100 0.

Definition set_procs (m : gmap Z proc) (x : t) : t := mk m (sockets x) (next_pid x) (clock x).

(** One iteration of [serve], when a whole frame is there. *)
Definition turn (p : proc) : proc :=
  match read_frame (JE := JE) (T := Request) (Reader.mk (inbox p) WOULD_BLOCK) with
  | (Ok req, r) =>
      let (resp, hv') := Ipc.dispatch req (hv p) in
      match write_frame (JE := JE) resp (Writer.mk (outbox p) None) with
      | (Ok _, w) => mk_proc hv' (negb (is_shutdown req)) (connected p) (Reader.data r) (Writer.written w)
      | (Err _, w) => mk_proc hv' false (connected p) (Reader.data r) (Writer.written w)
      end
  | (Err (FrameIo (OtherIo 11)), _) => p
  | (Err _, _) => mk_proc (hv p) false (connected p) [] (outbox p)
  end.

Definition feed (p : proc) (bs : bytes) : proc :=
  turn (mk_proc (hv p) (running p) (connected p) (inbox p ++ bs) (outbox p)).

(** The value of an option on the command line. *)
Fixpoint arg_value (key : string) (args : list string) : option string :=
  match args with
  | k :: v :: rest => if String.eqb k key then Some v else arg_value key rest
  | _ => None
  end.

Definition spawn (cmd : Command.t) : SM t SpawnError.t Z := fun x =>
  match arg_value "--socket" (Command.args cmd) with
  | None => (Err (SpawnError.mk None "no socket"), x)
  | Some path =>
      let pid := next_pid x in
      (Ok pid, mk (<[pid := mk_proc boot true false [] []]> (procs x)) (<[path := pid]> (sockets x)) (pid + 1) (clock x))
  end.

(** A worker accepts one connection. *)
Definition connect (path : string) : SM t string Z := fun x =>
  match sockets x !! path with
  | Some pid =>
      match procs x !! pid with
      | Some p =>
          if running p && negb (connected p)
          then (Ok pid, set_procs (<[pid := mk_proc (hv p) true true (inbox p) (outbox p)]> (procs x)) x)
          else (Err "connection refused", x)
      | None => (Err "connection refused", x)
      end
  | None => (Err "no such file or directory", x)
  end.

Definition send (s : Z) (bs : bytes) : SM t IoErrorKind unit := fun x =>
  match procs x !! s with
  | Some p => if running p then (Ok tt, set_procs (<[s := feed p bs]> (procs x)) x) else (Err BrokenPipe, x)
  | None => (Err BrokenPipe, x)
  end.

Definition recv (s : Z) (n : nat) : SM t IoErrorKind bytes := fun x =>
  match procs x !! s with
  | Some p =>
      if (n <=? length (outbox p))%nat
      then (Ok (take n (outbox p)),
            set_procs (<[s := mk_proc (hv p) (running p) (connected p) (inbox p) (drop n (outbox p))]> (procs x)) x)
      else (Err (if running p then WOULD_BLOCK else UnexpectedEof), x)
  | None => (Err UnexpectedEof, x)
  end.

(** A worker ends when its connection is closed, and at once when killed. *)
Definition close (s : Z) (x : t) : t :=
  match procs x !! s with
  | Some p => set_procs (<[s := mk_proc (hv p) false (connected p) (inbox p) (outbox p)]> (procs x)) x
  | None => x
  end.

Definition kill (pid : Z) (x : t) : t := set_procs (delete pid (procs x)) x.

#[global] Instance host_os : FleetOs t := {|
  os_create_dir_all _ := mret tt;
  os_remove_file p := fun x => mk (procs x) (delete p (sockets x)) (next_pid x) (clock x);
  os_spawn := spawn;
  os_kill_wait := kill;
  os_connect := connect;
  os_send := send;
  os_recv := recv;
  os_close := close;
  os_sleep d := fun x => mk (procs x) (sockets x) (next_pid x) (clock x + d);
  os_now := fun x => (clock x, x);
|}.

(** A connected worker that waits for a request. *)
Definition idle (h : H) : proc := mk_proc h true true [] [].

(** ** Round trips *)

Context `{!SerdeLaws JE Request, !SerdeLaws JE Response}.
Implicit Types (x : t) (js : bytes).

Lemma read_prefix js :
  js <> [] -> zlen js <= DEFAULT_MAX_FRAME_BYTES ->
  (read_frame (JE := JE) (T := Request) (Reader.mk (to_be 4 (zlen js)) WOULD_BLOCK)).1 = Err (FrameIo WOULD_BLOCK).
Proof.
  intros Hne Hl. unfold read_frame, read_frame_with_cap, mbind, sm_bind, io_call.
  cbn [read_exact reader_async]. rewrite <- (app_nil_r (to_be 4 (zlen js))).
  rewrite read_exact_app by apply to_be_length. cbn [map_err].
  rewrite from_to_be, Z.mod_small by (unfold zlen, DEFAULT_MAX_FRAME_BYTES in *; lia).
  case_if; [lia|]. rewrite read_exact_short; [done|]. unfold zlen. rewrite Nat2Z.id. by destruct js; [|simpl; lia].
Qed.

(** Requests and responses the transport carries: their text is not longer than
    a frame, and a request's is not empty. *)
Definition sendable (req : Request) : Prop :=
  exists js, encoded (JE := JE) DEFAULT_MAX_FRAME_BYTES req js /\ js <> [].
Definition returnable (resp : Response) : Prop :=
  exists js, encoded (JE := JE) DEFAULT_MAX_FRAME_BYTES resp js.

(** A request arrives as its length and its payload. *)
Lemma feed_request h c req js resp h' rjs :
  encoded (JE := JE) DEFAULT_MAX_FRAME_BYTES req js -> js <> [] -> Ipc.dispatch req h = (resp, h') ->
  encoded (JE := JE) DEFAULT_MAX_FRAME_BYTES resp rjs ->
  feed (mk_proc h true c [] []) (to_be 4 (zlen js)) = mk_proc h true c (to_be 4 (zlen js)) [] /\
  feed (mk_proc h true c (to_be 4 (zlen js)) []) js = mk_proc h' (negb (is_shutdown req)) c [] (frame_of rjs).
Proof.
  intros [Hj Hl] Hne Hd [Hr Hrl]. split.
  - unfold feed, turn. cbn [hv running connected inbox outbox app].
    pose proof (read_prefix js Hne Hl) as Hp. destruct (read_frame _) as [[?|e] r]; [done|].
    by injection Hp as ->.
  - unfold feed, turn. cbn [hv running connected inbox outbox]. fold (frame_of js).
    unfold read_frame. rewrite <- (app_nil_r (frame_of js)).
    rewrite (read_frame_app _ req js) by (done || unfold DEFAULT_MAX_FRAME_BYTES in *; lia).
    rewrite Hd, (write_frame_unlimited _ rjs) by (done || unfold DEFAULT_MAX_FRAME_BYTES in *; lia). done.
Qed.

Definition set_proc (s : Z) (p : proc) (x : t) : t := set_procs (<[s := p]> (procs x)) x.

Lemma set_proc_twice s p p' x : set_proc s p (set_proc s p' x) = set_proc s p x.
Proof. unfold set_proc, set_procs. cbn [procs sockets next_pid clock]. by rewrite insert_insert_eq. Qed.

Lemma send_request s req js resp x h h' rjs :
  procs x !! s = Some (idle h) ->
  encoded (JE := JE) DEFAULT_MAX_FRAME_BYTES req js -> js <> [] -> Ipc.dispatch req h = (resp, h') ->
  encoded (JE := JE) DEFAULT_MAX_FRAME_BYTES resp rjs ->
  send_frame (JE := JE) s req x =
    (Ok tt, set_proc s (mk_proc h' (negb (is_shutdown req)) true [] (frame_of rjs)) x).
Proof.
  intros Hs He Hne Hd Hr. destruct (feed_request h true req js resp h' rjs He Hne Hd Hr) as [F1 F2].
  destruct He as [Hj%to_vec_ok Hl]. unfold send_frame, write_frame, mbind, sm_bind, sm_lift, io_call.
  rewrite Hj. cbn [map_err]. rewrite (proj2 (Z.ltb_lt _ _)) by (unfold DEFAULT_MAX_FRAME_BYTES in *; lia).
  cbn [write_all flush stream_writer os_send host_os]. unfold send at 1. rewrite Hs. cbn [running idle].
  fold (set_proc s (feed (idle h) (to_be 4 (zlen js))) x). unfold idle. rewrite F1. cbn [map_err].
  unfold send. unfold set_proc at 1. cbn [procs set_procs]. rewrite lookup_insert_eq. cbn [running].
  rewrite F2. cbn [map_err]. unfold set_proc at 2, set_procs. cbn [procs sockets next_pid clock].
  unfold mret, sm_ret, set_proc, set_procs. cbn [map_err procs sockets next_pid clock].
  by rewrite insert_insert_eq.
Qed.

Lemma recv_response s x h r rjs resp :
  procs x !! s = Some (mk_proc h r true [] (frame_of rjs)) ->
  encoded (JE := JE) DEFAULT_MAX_FRAME_BYTES resp rjs ->
  recv_frame (JE := JE) s x = (Ok resp, set_proc s (mk_proc h r true [] []) x).
Proof.
  intros Hs [Hj Hl]. assert (Hlen : 0 <= zlen rjs < 2 ^ 32) by (unfold zlen, DEFAULT_MAX_FRAME_BYTES in *; lia).
  unfold recv_frame, read_frame, read_frame_with_cap, mbind, sm_bind, io_call.
  cbn [read_exact stream_reader os_recv host_os]. unfold recv at 1. rewrite Hs. cbn [outbox]. unfold frame_of.
  rewrite (proj2 (Nat.leb_le _ _)) by (rewrite length_app, to_be_length; lia).
  rewrite take_app_length', drop_app_length' by (symmetry; apply to_be_length). cbn [map_err].
  rewrite from_to_be, Z.mod_small by (exact Hlen). case_if; [lia|].
  unfold recv. cbn [procs set_procs]. rewrite lookup_insert_eq. cbn [outbox hv running connected inbox].
  unfold zlen. rewrite Nat2Z.id, Nat.leb_refl, take_ge, drop_ge by lia. cbn [map_err]. unfold sm_lift.
  rewrite (json_roundtrip _ _ Hj). unfold set_proc, set_procs. cbn [map_err procs sockets next_pid clock].
  by rewrite insert_insert_eq.
Qed.

Lemma roundtrip s req resp x h h' :
  procs x !! s = Some (idle h) -> sendable req -> Ipc.dispatch req h = (resp, h') -> returnable resp ->
  roundtrip_on (JE := JE) s req x =
    (Ok resp, set_proc s (mk_proc h' (negb (is_shutdown req)) true [] []) x).
Proof.
  intros Hs (js & He & Hne) Hd (rjs & Hr). unfold roundtrip_on.
  rewrite (sm_bind_ok _ _ _ _ _ (send_request _ _ _ _ _ _ _ _ Hs He Hne Hd Hr)).
  rewrite (recv_response _ _ h' (negb (is_shutdown req)) rjs resp); [by rewrite set_proc_twice| |done].
  unfold set_proc. cbn [procs set_procs]. by rewrite lookup_insert_eq.
Qed.
End Host.
Arguments t : clear implicits.
Arguments proc : clear implicits.
End Host.

(** ** Calls and messages *)

Definition request_of {A} (c : HvCall A) : option Request :=
  match c with
  | CCreate cfg => Some (CreateVm cfg)
  | CStart id => Some (Start id)
  | CStop id => Some (Stop id)
  | CState id => Some (State id)
  | CSnapshot id => Some (Snapshot id)
  | CRestore snap => Some (Restore snap)
  | CDestroy id => Some (Destroy id)
  | CListVms => None
  | CListSnapshots => Some ListSnapshots
  | CDeleteSnapshot snap => Some (DeleteSnapshot snap)
  | CSnapshotMeta snap => Some (ReqSnapshotMeta snap)
  | CExportDir snap => Some (SnapshotExportDir snap)
  | CAdopt dir => Some (SnapshotAdopt dir)
  | CVmMeta id => Some (ReqVmMeta id)
  | CExec id req => Some (ExecInGuest id req)
  | CWrite id path content mode => Some (WriteFile id path content mode)
  | CRead id path => Some (ReadFile id path)
  end.

Definition response_of {A} (c : HvCall A) : A -> Response :=
  match c in HvCall A return A -> Response with
  | CCreate _ | CRestore _ => RespVmHandle
  | CStart _ | CStop _ | CDestroy _ | CDeleteSnapshot _ => fun _ => Empty
  | CState _ => RespState
  | CSnapshot _ | CAdopt _ => RespSnapshot
  | CListVms => fun _ => Empty
  | CListSnapshots => SnapshotIds
  | CSnapshotMeta _ => RespSnapshotMeta
  | CExportDir _ => OptPath
  | CVmMeta _ => RespVmMeta
  | CExec _ _ => ExecResult
  | CWrite _ _ _ _ => Written
  | CRead _ _ => RespBytes
  end.

(** The same call about the worker's own VM. *)
Definition retarget {A} (wid : VmId) (c : HvCall A) : HvCall A :=
  match c in HvCall A return HvCall A with
  | CStart _ => CStart wid
  | CStop _ => CStop wid
  | CState _ => CState wid
  | CSnapshot _ => CSnapshot wid
  | CDestroy _ => CDestroy wid
  | CVmMeta _ => CVmMeta wid
  | CExec _ req => CExec wid req
  | CWrite _ path content mode => CWrite wid path content mode
  | CRead _ path => CRead wid path
  | other => other
  end.

Definition is_destroy {A} (c : HvCall A) : bool := match c with CDestroy _ => true | _ => false end.

(** What is left of a result on the wire. *)
Definition relay {A} (r : result VmError A) : result VmError A :=
  match r with Ok a => Ok a | Err e => Err (error_of_code (error_code e) (display_vm_error e)) end.

Definition answer {A} (c : HvCall A) (r : result VmError A) : Response :=
  match r with Ok a => response_of c a | Err e => response_of_error e end.

Lemma dispatch_call {H} `{!Hypervisor H} {A} (c : HvCall A) req (h : H) :
  request_of c = Some req -> Ipc.dispatch req h = (answer c (call c h).1, (call c h).2).
Proof.
  assert (Hr : forall (f : A -> Response) (op : SM H VmError A), respond f op h =
    (match (op h).1 with Ok a => f a | Err e => response_of_error e end, (op h).2)).
  { intros f op. unfold respond. by destruct (op h) as [[a|e] h']. }
  destruct c; intros [= <-]; apply Hr.
Qed.

(** ** Routing *)

Section Routing.
Import Host.
Context {H : Type} `{!Hypervisor H} {JE : Type} `{!Serde JE Request, !Serde JE Response}
  `{!SerdeLaws JE Request, !SerdeLaws JE Response} (boot : H).
Context (dfe : FrameError JE -> string) (dresp : Response -> string) (ddur : Z -> string).
#[local] Instance os_here : FleetOs (Host.t H) := Host.host_os (JE := JE) boot.
#[local] Instance fleet_here : Hypervisor (ProcessFleet (Host.t H)) := process_fleet dfe dresp ddur.
Abbreviation fleet := (ProcessFleet (Host.t H)).
Abbreviation sendable := (Host.sendable (JE := JE)).
Abbreviation returnable := (Host.returnable (JE := JE)).
Implicit Types (f : fleet) (m : gmap VmId (VmId * H)) (g : gmap VmId Z) (id : VmId)
  (held : list WarmEntry.t).

Definition owns (w : Worker.t) (p : Z) : Prop := Worker.child w = Some p /\ Worker.stream w = Some p.

(** [g] is the process of every id, [held] the idle workers a running method has
    in hand, and [m] the hypervisors behind the VMs. *)
Record routed_by g held f m : Prop := {
  rb_inj i j p : g !! i = Some p -> g !! j = Some p -> i = j;
  rb_fresh i p : g !! i = Some p -> i < next_vm_id f /\ p < Host.next_pid (os f);
  rb_worker id w : workers f !! id = Some w -> exists p, g !! id = Some p /\ owns w p;
  rb_pool e : e ∈ held ++ warm_pool f -> exists p, g !! WarmEntry.vm_id e = Some p /\ owns (WarmEntry.slot e) p /\
    Host.procs (os f) !! p = Some (Host.idle boot) /\ workers f !! WarmEntry.vm_id e = None;
  rb_pool_nodup : NoDup (WarmEntry.vm_id <$> held ++ warm_pool f);
  rb_served id wid h : m !! id = Some (wid, h) -> exists w p, workers f !! id = Some w /\ g !! id = Some p /\
    Worker.worker_vm_id w = Some wid /\ Host.procs (os f) !! p = Some (Host.idle h);
}.

Definition routed f m : Prop := exists g, routed_by g [] f m.

(** The worker of one VM moves on. *)
Lemma routed_step g held f m id p wid h h' :
  routed_by g held f m -> g !! id = Some p -> m !! id = Some (wid, h) ->
  routed_by g held (set_os (Host.set_proc p (Host.idle h') (os f)) f) (<[id := (wid, h')]> m).
Proof.
  intros [] Hg Hm. destruct (rb_served0 _ _ _ Hm) as (w & p' & Hw & Hg' & Hwid & Hp).
  assert (p' = p) as -> by congruence. split; simpl; try done.
  - intros e He. destruct (rb_pool0 e He) as (q & Hq & ? & ? & Hnone). exists q. split_and!; try done.
    rewrite lookup_insert_ne; [done|]. intros <-. by rewrite (rb_inj0 _ _ _ Hg Hq) in Hw; rewrite Hw in Hnone.
  - intros i wid' h0 [[<- [= <- <-]]|[Hne Hi]]%lookup_insert_Some.
    + exists w, p. split_and!; try done. by rewrite lookup_insert_eq.
    + destruct (rb_served0 _ _ _ Hi) as (w0 & q & ? & Hq & ? & ?). exists w0, q. split_and!; try done.
      rewrite lookup_insert_ne; [done|]. intros <-. by apply Hne, (rb_inj0 _ _ p).
Qed.

(** A forwarded request and its answer. *)
Lemma ask_served {T} g held f m id wid h req resp h' (ex : Response -> option T) build :
  routed_by g held f m -> m !! id = Some (wid, h) -> build wid = req -> sendable req ->
  Ipc.dispatch req h = (resp, h') -> returnable resp -> is_shutdown req = false ->
  exists f', remapped dfe dresp id build ex f = (unwrap_response dresp resp ex, f') /\
    routed_by g held f' (<[id := (wid, h')]> m) /\ workers f' = workers f /\ snapshot_owner f' = snapshot_owner f.
Proof.
  intros Hf Hm Hb Hs Hd Hr Hsh. pose proof Hf as Hf'. destruct Hf'.
  destruct (rb_served0 _ _ _ Hm) as (w & p & Hw & Hg & Hwid & Hp).
  destruct (rb_worker0 _ _ Hw) as (p' & Hg' & [Hc Hst]).
  assert (p' = p) as -> by congruence. subst req. exists (set_os (Host.set_proc p (Host.idle h') (os f)) f). split_and!; [|by eapply routed_step|done|done].
  unfold remapped, dispatch_remapped, mbind, sm_bind, worker_for, sm_lift. rewrite Hw. cbn [ok_or].
  rewrite Hwid. cbn [ok_or]. unfold on_os, dispatch_to_slot. rewrite Hst.
  unfold os_here. rewrite (Host.roundtrip boot p (build wid) resp (os f) h h') by done. cbn [map_err].
  rewrite Hsh. done.
Qed.

Lemma unwrap_answer {A} (c : HvCall A) (r : result VmError A) ex :
  (forall a, ex (response_of c a) = Some a) -> (forall a, is_error (response_of c a) = false) ->
  unwrap_response dresp (answer c r) ex = relay r.
Proof.
  intros Hex Hne. unfold answer, relay, unwrap_response. destruct r as [a|e]; [|done].
  specialize (Hne a). specialize (Hex a). by destruct (response_of c a); simpl in *; rewrite ?Hex.
Qed.

Lemma routed_owner g held f m o : routed_by g held f m -> routed_by g held (set_snapshot_owner o f) m.
Proof. by intros []. Qed.

(** A call about a VM is the call about its worker's VM. *)
Lemma forward_call {A} (c : HvCall A) g held f m id wid h req r h' :
  routed_by g held f m -> m !! id = Some (wid, h) -> vm_target c = Some id -> is_destroy c = false ->
  request_of (retarget wid c) = Some req -> sendable req ->
  call (retarget wid c) h = (r, h') -> returnable (answer c r) ->
  exists f', call c f = (relay r, f') /\ routed_by g held f' (<[id := (wid, h')]> m).
Proof.
  intros Hf Hm Ht Hd Hreq Hs Hc Hr. pose proof (dispatch_call _ _ h Hreq) as Hdis. rewrite Hc in Hdis. cbn [fst snd] in Hdis.
  assert (Hans : answer (retarget wid c) r = answer c r) by by destruct c. rewrite Hans in Hdis.
  assert (Hsh : is_shutdown req = false) by (clear -Hreq; by destruct c; simpl in Hreq; simplify_eq).
  assert (Hgo : forall (ex : Response -> option A) build, build wid = req -> (forall a, ex (response_of c a) = Some a) ->
    (forall a, is_error (response_of c a) = false) ->
    exists f', remapped dfe dresp id build ex f = (relay r, f') /\ routed_by g held f' (<[id := (wid, h')]> m)).
  { intros ex build Hb Hex Hne.
    destruct (ask_served g held f m id wid h req (answer c r) h' ex build Hf Hm Hb Hs Hdis Hr Hsh) as (f' & E & R & _).
    exists f'. rewrite unwrap_answer in E by done. done. }
  destruct c; simpl in Ht, Hd, Hreq; simplify_eq;
    try (by apply (Hgo _ _ eq_refl); [intros []|]); try (by apply (Hgo _ _ eq_refl)).
  destruct (Hgo as_snapshot Snapshot eq_refl) as (f' & E & R); [done|done|].
  change (call (CSnapshot id) f) with (snapshot dfe dresp id f). unfold snapshot.
  destruct r as [a|e]; simpl in E.
  - rewrite (sm_bind_ok _ _ _ _ _ E). eexists. split; [done|]. by apply routed_owner.
  - rewrite (sm_bind_err _ _ _ _ _ E). by eexists.
Qed.

(** ** Starting workers *)

Lemma jailer_socket cfg id socket : Host.arg_value "--socket" (Command.args (jailer_command cfg id socket)) = Some socket.
Proof.
  unfold jailer_command. destruct (FleetConfig.default_memory_limit_mib cfg), (FleetConfig.default_cpu_quota_pct cfg),
    (FleetConfig.cgroup_parent cfg); reflexivity.
Qed.

(** Spawning, connecting and the handshake. *)
Lemma spawn_worker_host cfg id (x : Host.t H) :
  sendable Ping -> returnable Pong ->
  exists x', spawn_worker dfe dresp ddur cfg id x =
      (Ok (Worker.mk (Some (Host.next_pid x)) (socket_path cfg id) (Some (Host.next_pid x)) None), x') /\
    Host.procs x' = <[Host.next_pid x := Host.idle boot]> (Host.procs x) /\
    Host.next_pid x' = Host.next_pid x + 1.
Proof.
  intros Hs Hr. set (p := Host.next_pid x). set (sock := socket_path cfg id).
  set (x1 := Host.mk (<[p := Host.mk_proc boot true false [] []]> (Host.procs x))
               (<[sock := p]> (delete sock (Host.sockets x))) (p + 1) (Host.clock x)).
  set (x2 := Host.set_procs (<[p := Host.mk_proc boot true true [] []]> (Host.procs x1)) x1).
  assert (Hp : Host.procs x2 !! p = Some (Host.idle boot)) by (simpl; by rewrite lookup_insert_eq).
  assert (Hhand : handshake dfe dresp p x2 = (Ok p, Host.set_proc p (Host.idle boot) x2)).
  { pose proof (Host.roundtrip boot p Ping Pong x2 boot boot Hp Hs eq_refl Hr) as Hrt.
    unfold roundtrip_on in Hrt. apply sm_bind_inv in Hrt as ([] & x3 & E1 & E2).
    unfold handshake. unfold os_here in *. rewrite E1, E2. done. }
  exists (Host.set_proc p (Host.idle boot) x2). split_and!; [|simpl; by rewrite !insert_insert_eq|done].
  unfold spawn_worker. fold sock. unfold mbind, sm_bind, sm_modify.
  cbn [os_create_dir_all os_remove_file os_here Host.host_os mret sm_ret map_err].
  cbn [spawn_attempts os_spawn os_here Host.host_os]. unfold Host.spawn. rewrite jailer_socket.
  unfold open_worker, wait_for_socket_and_open, wait_fuel. rewrite Nat.add_comm. cbn [Nat.add].
  cbn [os_now os_here Host.host_os wait_loop os_connect]. unfold Host.connect.
  cbn [Host.sockets Host.procs]. fold p. rewrite lookup_insert_eq, lookup_insert_eq.
  cbn [Host.running Host.connected negb andb Host.hv Host.inbox Host.outbox]. fold x1. fold x2.
  match goal with |- context [handshake dfe dresp ?a ?b] =>
    change (handshake dfe dresp a b) with (handshake dfe dresp p x2) end.
  by rewrite Hhand.
Qed.

(** A new worker under an id of its own. *)
Lemma routed_spawn g held f m id :
  routed_by g held f m -> g !! id = None -> id < next_vm_id f -> sendable Ping -> returnable Pong ->
  exists w x', start_worker dfe dresp ddur id f = (Ok w, set_os x' f) /\
    owns w (Host.next_pid (os f)) /\ Worker.worker_vm_id w = None /\
    Host.procs x' !! Host.next_pid (os f) = Some (Host.idle boot) /\
    routed_by (<[id := Host.next_pid (os f)]> g) (WarmEntry.mk id w :: held) (set_os x' f) m.
Proof.
  intros [] Hg Hid Hs Hr. unfold start_worker, on_os.
  destruct (spawn_worker_host (config f) id (os f) Hs Hr) as (x' & -> & Hp & Hn).
  eexists _, x'. split; [done|]. split; [by split|]. split; [done|].
  assert (Hpn : Host.procs x' !! Host.next_pid (os f) = Some (Host.idle boot)) by (rewrite Hp; by rewrite lookup_insert_eq).
  split; [done|].
  assert (Hne : forall i p, g !! i = Some p -> i <> id /\ p <> Host.next_pid (os f)).
  { intros i p Hi. split; [congruence|]. destruct (rb_fresh0 i p Hi). lia. }
  split; simpl.
  - intros i j p [[<- <-]|[? Hi]]%lookup_insert_Some [[<- Hq]|[? Hj]]%lookup_insert_Some; try done.
    + by destruct (Hne _ _ Hj).
    + subst p. by destruct (Hne _ _ Hi).
    + by eapply rb_inj0.
  - intros i p [[<- <-]|[? Hi]]%lookup_insert_Some; rewrite Hn; [lia|]. destruct (rb_fresh0 i p Hi). lia.
  - intros i w Hw. destruct (rb_worker0 i w Hw) as (p & Hi & Ho). exists p. split; [|done].
    rewrite lookup_insert_ne; [done|]. intros <-. congruence.
  - intros e [->|He]%elem_of_cons.
    { exists (Host.next_pid (os f)). split_and!; [by rewrite lookup_insert_eq|by split|done|].
      simpl. destruct (workers f !! id) as [w|] eqn:E; [|done]. destruct (rb_worker0 _ _ E) as (p & ? & _). congruence. }
    destruct (rb_pool0 e He) as (p & Hi & Ho & Hpr & Hnone). exists p. destruct (Hne _ _ Hi).
    split_and!; [by rewrite lookup_insert_ne|done| |done]. rewrite Hp, lookup_insert_ne by done. done.
  - constructor; [|done]. intros (e & Heq & He)%list_elem_of_fmap. simpl in Heq.
    destruct (rb_pool0 e He) as (p & Hi & _). congruence.
  - intros i wid h Hm. destruct (rb_served0 _ _ _ Hm) as (w & p & Hw & Hi & Hwid & Hpr). destruct (Hne _ _ Hi).
    exists w, p. split_and!; [done|by rewrite lookup_insert_ne|done|]. by rewrite Hp, lookup_insert_ne.
Qed.

Lemma routed_fresh g held f m :
  routed_by g held f m -> 0 <= next_vm_id f -> next_vm_id f + 1 < 2 ^ 64 ->
  exists f', fresh_vm_id f = (Ok (next_vm_id f), f') /\ routed_by g held f' m /\ g !! next_vm_id f = None /\
    next_vm_id f' = next_vm_id f + 1 /\ workers f' = workers f /\ warm_pool f' = warm_pool f /\
    config f' = config f /\ os f' = os f.
Proof.
  intros [] Hpos Hn. unfold fresh_vm_id, fetch_add1. eexists. split; [done|].
  rewrite wrap64_small by (unfold is_u64; lia). split_and!; try done.
  - split; simpl; try done. intros i p Hi. destruct (rb_fresh0 i p Hi). lia.
  - destruct (g !! next_vm_id f) as [p|] eqn:E; [|done]. destruct (rb_fresh0 _ _ E). lia.
Qed.

(** Idle workers move between the pool and the hand. *)
Lemma routed_pool g held f m held' pool' :
  routed_by g held f m -> held' ++ pool' ≡ₚ held ++ warm_pool f ->
  routed_by g held' (set_warm_pool pool' f) m.
Proof.
  intros [] Hp. split; simpl; try done.
  - intros e He. rewrite Hp in He. auto.
  - by rewrite Hp.
Qed.

Lemma refill_loop_host k g held f m :
  routed_by g held f m -> sendable Ping -> returnable Pong ->
  0 <= next_vm_id f -> next_vm_id f + Z.of_nat k + 1 < 2 ^ 64 ->
  exists g' f', refill_loop dfe dresp ddur k f = (Ok tt, f') /\ routed_by g' held f' m /\
    workers f' = workers f /\ config f' = config f /\ next_vm_id f' = next_vm_id f + Z.of_nat k.
Proof.
  intros Hf Hs Hr. revert g f Hf. induction k as [|k IH]; intros g f Hf H0 Hn.
  { exists g, f. split_and!; try done. simpl. lia. }
  cbn [refill_loop]. destruct (routed_fresh _ _ _ _ Hf) as (f1 & E1 & R1 & Hg & N1 & W1 & P1 & C1 & O1); [lia|lia|].
  rewrite (sm_bind_ok _ _ _ _ _ E1).
  destruct (routed_spawn g held f1 m (next_vm_id f) R1 Hg) as (w & x' & E2 & _ & _ & _ & R2); [lia|done|done|].
  rewrite (sm_bind_ok _ _ _ _ _ E2). unfold mbind, sm_bind, sm_modify.
  set (f2 := set_warm_pool _ _).
  destruct (IH (<[next_vm_id f := Host.next_pid (os f1)]> g) f2) as (g' & f' & E3 & R3 & W3 & C3 & N3).
  - eapply routed_pool; [exact R2|]. simpl. rewrite app_assoc, Permutation_app_comm. done.
  - simpl. lia.
  - simpl. lia.
  - exists g', f'. split_and!; [exact E3|done| | |].
    + rewrite W3. simpl. by rewrite W1.
    + rewrite C3. simpl. by rewrite C1.
    + rewrite N3. simpl. lia.
Qed.

(** An idle worker in hand takes its first request and becomes a VM. *)
Lemma register_host g e f m cfg h hv' :
  routed_by g [e] f m -> sendable (CreateVm cfg) -> call (CCreate cfg) boot = (Ok h, hv') -> returnable (RespVmHandle h) ->
  exists f', (handle ← holding (WarmEntry.slot e)
       (resp ← on_os (dispatch_to_slot dfe (WarmEntry.slot e) (CreateVm cfg)); sm_lift (unwrap_response dresp resp as_handle));
     register_vm (WarmEntry.vm_id e) (WarmEntry.slot e) handle) f =
      (Ok (VmHandle.mk (WarmEntry.vm_id e) (VmHandle.state h)), f') /\
    routed_by g [] f' (<[WarmEntry.vm_id e := (VmHandle.id h, hv')]> m) /\
    exists w, workers f' = <[WarmEntry.vm_id e := w]> (workers f).
Proof.
  intros Hf Hs Hc Hr. pose proof Hf as []. destruct (rb_pool0 e) as (p & Hg & [Hch Hst] & Hp & Hnone); [left|].
  set (x' := Host.set_proc p (Host.idle hv') (os f)).
  set (w := Worker.set_vm_id (VmHandle.id h) (WarmEntry.slot e)).
  exists (set_workers (<[WarmEntry.vm_id e := w]> (workers f)) (set_os x' f)). split_and!; [| |by exists w].
  - assert (Hask : on_os (dispatch_to_slot dfe (WarmEntry.slot e) (CreateVm cfg)) f = (Ok (RespVmHandle h), set_os x' f)).
    { unfold on_os, dispatch_to_slot. rewrite Hst. unfold os_here.
      rewrite (Host.roundtrip boot p (CreateVm cfg) (RespVmHandle h) (os f) boot hv') by (done ||
        (rewrite (dispatch_call (CCreate cfg) (CreateVm cfg) boot eq_refl); by rewrite Hc)). done. }
    unfold holding, mbind, sm_bind. rewrite Hask. cbn. unfold register_vm, mbind, sm_bind, insert_worker.
    cbn [workers set_os]. by rewrite Hnone.
  - apply NoDup_cons in rb_pool_nodup0 as [Hne Hnd].
    assert (Hpn : forall i q, g !! i = Some q -> i <> WarmEntry.vm_id e -> q <> p).
    { intros i q Hi Hi' ->. by apply Hi', (rb_inj0 _ _ p). }
    split; simpl; try done.
    + intros i w' [[<- <-]|[? Hi]]%lookup_insert_Some; [by exists p|auto].
    + intros e' He'. destruct (rb_pool0 e') as (q & Hq & ? & ? & ?); [by right|].
      assert (Hd : WarmEntry.vm_id e' <> WarmEntry.vm_id e).
      { intros Heq. apply Hne. rewrite <- Heq. by apply list_elem_of_fmap_2. }
      exists q. split_and!; [done|done| |by rewrite lookup_insert_ne]. rewrite lookup_insert_ne; [done|].
      intros <-. by apply (Hpn _ _ Hq).
    + intros i wid h0 [[<- [= <- <-]]|[? Hi]]%lookup_insert_Some.
      * exists w, p. split_and!; [by rewrite lookup_insert_eq|done|done|by rewrite lookup_insert_eq].
      * destruct (rb_served0 _ _ _ Hi) as (w0 & q & ? & Hq & ? & ?). exists w0, q.
        split_and!; [by rewrite lookup_insert_ne|done|done|]. rewrite lookup_insert_ne; [done|].
        intros <-. by apply (Hpn _ _ Hq).
Qed.

Lemma create_host g f m cfg h hv' :
  routed_by g [] f m -> sendable Ping -> returnable Pong -> sendable (CreateVm cfg) ->
  call (CCreate cfg) boot = (Ok h, hv') -> returnable (RespVmHandle h) ->
  0 <= next_vm_id f -> next_vm_id f + Z.of_nat (FleetConfig.warm_pool_size (config f)) + 2 < 2 ^ 64 ->
  exists id f', create_vm dfe dresp ddur cfg f = (Ok (VmHandle.mk id (VmHandle.state h)), f') /\
    workers f !! id = None /\ (exists w, workers f' = <[id := w]> (workers f)) /\
    routed f' (<[id := (VmHandle.id h, hv')]> m).
Proof.
  intros Hf Hs Hr Hcs Hc Hcr H0 Hn. unfold create_vm. destruct (warm_pool f) as [|e pool] eqn:Hp.
  - assert (Et : take_warm f = (Ok None, f)) by (unfold take_warm; by rewrite Hp). rewrite (sm_bind_ok _ _ _ _ _ Et).
    destruct (routed_fresh _ _ _ _ Hf) as (f1 & E1 & R1 & Hg & N1 & W1 & P1 & C1 & O1); [lia|lia|].
    destruct (routed_spawn g [] f1 m (next_vm_id f) R1 Hg) as (w & x' & E2 & Ho & _ & _ & R2); [lia|done|done|].
    assert (Em : (id ← fresh_vm_id; slot ← start_worker dfe dresp ddur id; mret (id, slot)) f =
                 (Ok (next_vm_id f, w), set_os x' f1)).
    { rewrite (sm_bind_ok _ _ _ _ _ E1), (sm_bind_ok _ _ _ _ _ E2). done. }
    rewrite (sm_bind_ok _ _ _ _ _ Em).
    destruct (register_host _ _ _ _ cfg h hv' R2 Hcs Hc Hcr) as (f' & E3 & R3 & w' & W3).
    exists (next_vm_id f), f'. split_and!; [exact E3| |exists w'; rewrite W3; simpl; by rewrite W1|by eexists].
    destruct (workers f !! next_vm_id f) as [w0|] eqn:E; [|done].
    destruct Hf. destruct (rb_worker0 _ _ E) as (q & Hq & _). congruence.
  - assert (Et : take_warm f = (Ok (Some e), set_warm_pool pool f)) by (unfold take_warm; by rewrite Hp).
    rewrite (sm_bind_ok _ _ _ _ _ Et).
    assert (R1 : routed_by g [e] (set_warm_pool pool f) m) by (eapply routed_pool; [exact Hf|by rewrite Hp]).
    destruct (refill_loop_host (FleetConfig.warm_pool_size (config f) - length pool) g [e] (set_warm_pool pool f) m R1 Hs Hr)
      as (g' & f2 & E2 & R2 & W2 & C2 & N2); [done|simpl; lia|].
    assert (Em : (_ ← best_effort (refill_warm_pool dfe dresp ddur);
                  mret (WarmEntry.vm_id e, WarmEntry.slot e)) (set_warm_pool pool f) =
                 (Ok (WarmEntry.vm_id e, WarmEntry.slot e), f2)).
    { unfold mbind, sm_bind, best_effort, refill_warm_pool. cbn [config set_warm_pool warm_pool]. by rewrite E2. }
    rewrite (sm_bind_ok _ _ _ _ _ Em).
    destruct (register_host _ _ _ _ cfg h hv' R2 Hcs Hc Hcr) as (f' & E3 & R3 & w' & W3).
    exists (WarmEntry.vm_id e), f'. split_and!; [exact E3| |exists w'; rewrite W3; by rewrite W2|by eexists].
    destruct Hf. destruct (rb_pool0 e) as (q & _ & _ & _ & Hnone); [rewrite Hp; left|done].
Qed.

(** ** What happens to one worker is nothing to the others *)

(** The processes but [p] are as before. *)
Definition apart (p : Z) (x x' : Host.t H) : Prop :=
  Host.next_pid x' = Host.next_pid x /\ forall q, q <> p -> Host.procs x' !! q = Host.procs x !! q.

Definition local {E A} (p : Z) (c : SM (Host.t H) E A) : Prop := forall x, apart p x (c x).2.

Lemma apart_refl p x : apart p x x.
Proof. by split. Qed.

Lemma apart_trans p x x1 x2 : apart p x x1 -> apart p x1 x2 -> apart p x x2.
Proof. intros [H1 H2] [H3 H4]. split; [congruence|]. intros q Hq. by rewrite H4, H2. Qed.

Lemma apart_set p (ps : gmap Z (Host.proc H)) x :
  (forall q, q <> p -> ps !! q = Host.procs x !! q) -> apart p x (Host.set_procs ps x).
Proof. by split. Qed.

Lemma local_bind {E A B} p (c : SM (Host.t H) E A) (k : A -> SM (Host.t H) E B) :
  local p c -> (forall a, local p (k a)) -> local p (a ← c; k a).
Proof.
  intros Hc Hk x. unfold mbind, sm_bind. specialize (Hc x). destruct (c x) as [[a|e] x1]; [|done].
  eapply apart_trans; [exact Hc|]. apply Hk.
Qed.

Lemma local_io {E A} p (c : SM (Host.t H) IoErrorKind A) (g : IoErrorKind -> E) :
  local p c -> local p (fun x => let (r, x) := c x in (map_err g r, x)).
Proof. intros Hc x. specialize (Hc x). by destruct (c x). Qed.

Lemma local_send p bs : local p (os_send p bs).
Proof.
  intros x. cbn. unfold Host.send. destruct (Host.procs x !! p) as [pr|]; [|apply apart_refl].
  destruct (Host.running pr); [|apply apart_refl]. apply apart_set. intros q Hq. by rewrite lookup_insert_ne.
Qed.

Lemma local_recv p n : local p (os_recv p n).
Proof.
  intros x. cbn. unfold Host.recv. destruct (Host.procs x !! p) as [pr|]; [|apply apart_refl].
  destruct (_ <=? _)%nat; [|apply apart_refl]. apply apart_set. intros q Hq. by rewrite lookup_insert_ne.
Qed.

Lemma local_dispatch w p req : Worker.stream w = Some p -> local p (dispatch_to_slot dfe w req).
Proof.
  intros Hw. unfold dispatch_to_slot. rewrite Hw.
  assert (Hl : local p (roundtrip_on (JE := JE) p req)).
  { unfold roundtrip_on, send_frame, recv_frame, write_frame, read_frame, read_frame_with_cap, io_call.
    repeat (apply local_bind; [|intros ?]); try (intros x; apply apart_refl);
      try (apply local_io; apply local_send || apply local_recv || (intros x; apply apart_refl)).
    destruct (_ <? _); [intros x; apply apart_refl|]. apply local_bind; [apply local_io, local_recv|].
    intros js x. apply apart_refl. }
  intros x. specialize (Hl x). by destruct (roundtrip_on p req x).
Qed.

(** Losing track of one VM keeps the rest. *)
Lemma routed_apart g f m id p x' :
  routed_by g [] f m -> g !! id = Some p -> is_Some (workers f !! id) -> apart p (os f) x' ->
  routed_by g [] (set_os x' f) (delete id m).
Proof.
  intros [] Hg [w0 Hw0] [Hn Hx]. split; simpl; try done.
  - intros i q Hi. rewrite Hn. auto.
  - intros e He. destruct (rb_pool0 e He) as (q & Hq & ? & ? & Hnone). exists q. split_and!; try done.
    rewrite Hx; [done|]. intros ->. by rewrite (rb_inj0 _ _ _ Hq Hg), Hw0 in Hnone.
  - intros i wid h [Hne Hi]%lookup_delete_Some. destruct (rb_served0 _ _ _ Hi) as (w & q & ? & Hq & ? & ?).
    exists w, q. split_and!; try done. rewrite Hx; [done|]. intros ->. by apply Hne, (rb_inj0 _ _ p).
Qed.

Lemma best_effort_local g f m id w p req :
  routed_by g [] f m -> g !! id = Some p -> workers f !! id = Some w -> Worker.stream w = Some p ->
  exists x', best_effort (on_os (dispatch_to_slot dfe w req)) f = (Ok tt, set_os x' f) /\
    routed_by g [] (set_os x' f) (delete id m).
Proof.
  intros Hf Hg Hw Hst. unfold best_effort, on_os. pose proof (local_dispatch w p req Hst (os f)) as Hl.
  destruct (dispatch_to_slot dfe w req (os f)) as [r x']. exists x'. split; [done|].
  eapply routed_apart; [done|done|by eexists|done].
Qed.

Lemma apart_force_kill w p x : owns w p -> apart p x (force_kill w x) /\ Host.procs (force_kill w x) !! p = None.
Proof.
  intros [Hc Hs]. unfold force_kill. rewrite Hc, Hs. cbn. split.
  - split; cbn.
    + unfold Host.close. by destruct (Host.procs x !! p).
    + intros q Hq. rewrite lookup_delete_ne by done. unfold Host.close.
      destruct (Host.procs x !! p); [|done]. cbn. by rewrite lookup_insert_ne.
  - by rewrite lookup_delete_eq.
Qed.

Lemma destroy_host g f m id w p :
  routed_by g [] f m -> workers f !! id = Some w -> g !! id = Some p ->
  exists f', destroy dfe id f = (Ok tt, f') /\ workers f' = delete id (workers f) /\
    snapshot_owner f' = filter (fun '(_, o) => o <> id) (snapshot_owner f) /\
    Host.procs (os f') !! p = None /\ routed_by g [] f' (delete id m).
Proof.
  intros Hf Hw Hg. pose proof Hf as []. destruct (rb_worker0 _ _ Hw) as (p' & Hg' & Hown).
  assert (p' = p) as -> by congruence. destruct Hown as [Hc Hst].
  unfold destroy. rewrite (sm_bind_ok _ _ f w f) by (unfold worker_for; by rewrite Hw).
  assert (H1 : exists x1, match Worker.worker_vm_id w with
      | Some wid => best_effort (on_os (dispatch_to_slot dfe w (Destroy wid))) | None => mret tt end f =
      (Ok tt, set_os x1 f) /\ routed_by g [] (set_os x1 f) (delete id m)).
  { destruct (Worker.worker_vm_id w) as [wid|]; [by eapply best_effort_local|].
    exists (os f). split; [by destruct f|]. eapply routed_apart; [done|done|by eexists|apply apart_refl]. }
  destruct H1 as (x1 & E1 & R1). rewrite (sm_bind_ok _ _ _ _ _ E1).
  destruct (best_effort_local g (set_os x1 f) (delete id m) id w p Shutdown R1 Hg Hw Hst) as (x2 & E2 & R2).
  rewrite (sm_bind_ok _ _ _ _ _ E2). rewrite delete_delete_eq in R2.
  unfold mbind, sm_bind, sm_modify, drop_worker. eexists. split; [done|]. simpl.
  destruct (apart_force_kill w p x2 (conj Hc Hst)) as [Ha Hk]. split_and!; [done|done|done|].
  pose proof (routed_apart g (set_os x2 (set_os x1 f)) (delete id m) id p (force_kill w x2) R2 Hg
    (ex_intro _ w Hw) Ha) as R3. rewrite delete_delete_eq in R3. clear -R3.
  destruct R3. split; simpl in *; try done.
  - intros i w' [_ Hi]%lookup_delete_Some. auto.
  - intros e He. destruct (rb_pool0 e He) as (q & ? & ? & ? & ?). exists q. split_and!; try done.
    apply lookup_delete_None. by right.
  - intros i wid h Hi. destruct (rb_served0 _ _ _ Hi) as (w' & q & ? & ? & ? & ?).
    apply lookup_delete_Some in Hi as [Hne _]. exists w', q. split_and!; try done. by rewrite lookup_delete_ne.
Qed.

(** A worker that is gone answers with an error, and the fleet is as before. *)
Lemma dead_worker w p req x :
  Worker.stream w = Some p -> Host.procs x !! p = None ->
  exists msg, dispatch_to_slot dfe w req x = (Err (Backend msg), x).
Proof.
  intros Hw Hp. unfold dispatch_to_slot. rewrite Hw. unfold roundtrip_on, mbind, sm_bind, send_frame, write_frame, mbind, sm_bind, sm_lift.
  destruct (to_vec req) as [js|e]; [|by eexists]. cbn [map_err].
  destruct (_ <? _); [|by eexists]. unfold io_call. cbn. unfold Host.send. rewrite Hp. by eexists.
Qed.

Lemma call_dead {A} (c : HvCall A) g f m id w p :
  routed_by g [] f m -> workers f !! id = Some w -> g !! id = Some p -> Host.procs (os f) !! p = None ->
  vm_target c = Some id -> is_destroy c = false -> exists msg, call c f = (Err (Backend msg), f).
Proof.
  intros [] Hw Hg Hp Ht Hd. destruct (rb_worker0 _ _ Hw) as (p' & Hg' & [_ Hst]).
  assert (p' = p) as -> by congruence.
  assert (Hrem : forall T build (ex : Response -> option T), exists msg, remapped dfe dresp id build ex f = (Err (Backend msg), f)).
  { intros T build ex. unfold remapped, dispatch_remapped, mbind, sm_bind, worker_for, sm_lift, on_os. rewrite Hw. cbn [ok_or].
    destruct (Worker.worker_vm_id w) as [wid|]; [|by eexists]. cbn [ok_or].
    destruct (dead_worker w p (build wid) (os f) Hst Hp) as [msg ->]. exists msg. by destruct f. }
  destruct c; simpl in Ht, Hd; simplify_eq; try apply Hrem.
  destruct (Hrem _ Snapshot as_snapshot) as [msg E]. exists msg.
  change (call (CSnapshot id) f) with (snapshot dfe dresp id f). unfold snapshot.
  by rewrite (sm_bind_err _ _ _ _ _ E).
Qed.

Lemma call_unknown {A} (c : HvCall A) f id :
  workers f !! id = None -> vm_target c = Some id -> call c f = (Err (UnknownVm id), f).
Proof.
  intros Hw Ht. assert (Hf : worker_for id f = (Err (UnknownVm id), f)) by (unfold worker_for; by rewrite Hw).
  destruct c; simpl in Ht; simplify_eq; cbn; unfold start, stop, state, snapshot, destroy, vm_meta, exec_in_guest,
    write_file, read_file, remapped, dispatch_remapped, mbind, sm_bind; by rewrite Hf.
Qed.

Lemma routed_empty cfg : routed_by ∅ [] (mk_fleet cfg ∅ ∅ 1 [] Host.empty) ∅.
Proof.
  split; simpl; try done; try (by intros ? ?%elem_of_nil); try (by intros ? ? ?%lookup_empty_Some);
    try (by intros ? ? ? ?%lookup_empty_Some). constructor.
Qed.

Lemma new_host cfg :
  sendable Ping -> returnable Pong -> Z.of_nat (FleetConfig.warm_pool_size cfg) + 2 < 2 ^ 64 ->
  exists f, new dfe dresp ddur cfg Host.empty = (Ok f, os f) /\ routed f ∅ /\ workers f = ∅.
Proof.
  intros Hs Hr Hn. unfold new, refill_warm_pool. cbn [config warm_pool length].
  destruct (refill_loop_host (FleetConfig.warm_pool_size cfg - 0) ∅ [] _ ∅ (routed_empty cfg) Hs Hr)
    as (g' & f & E & R & W & _); [done|simpl; lia|].
  rewrite E. exists f. split_and!; [done|by eexists|done].
Qed.
End Routing.

(** ** Properties *)

(** C19: The fleet is one hypervisor per VM. On a host whose processes are
    workers, a new fleet has no VM; a created VM gets an id no other VM has and
    a worker of its own, warm or cold, on which it is created; every further
    call about it is performed, under the worker's own id for it, by that
    worker's hypervisor and by no other, and answered with what that answers,
    errors reduced to their code and message; destroying it ends its process; a
    call about an unknown VM is refused. When a worker dies, calls about its VM
    are answered with errors and every other VM goes on as if nothing had
    happened. *)
Theorem fleet_refines_hypervisors {H} `{!Hypervisor H} {JE} `{!Serde JE Request, !Serde JE Response}
    `{!SerdeLaws JE Request, !SerdeLaws JE Response} (boot : H) (dfe : FrameError JE -> string) dresp ddur
    (f : ProcessFleet (Host.t H)) m :
  let os_h : FleetOs (Host.t H) := Host.host_os (JE := JE) boot in
  let hv : Hypervisor (ProcessFleet (Host.t H)) := process_fleet dfe dresp ddur in
  Host.sendable (JE := JE) Ping -> Host.returnable (JE := JE) Pong -> routed boot f m ->
  (forall cfg, Z.of_nat (FleetConfig.warm_pool_size cfg) + 2 < 2 ^ 64 ->
     exists f, new dfe dresp ddur cfg Host.empty = (Ok f, os f) /\ routed boot f ∅ /\ workers f = ∅) /\
  (forall cfg h hv', Host.sendable (JE := JE) (CreateVm cfg) -> call (CCreate cfg) boot = (Ok h, hv') ->
     Host.returnable (JE := JE) (RespVmHandle h) -> 0 <= next_vm_id f ->
     next_vm_id f + Z.of_nat (FleetConfig.warm_pool_size (config f)) + 2 < 2 ^ 64 ->
     exists id f', call (CCreate cfg) f = (Ok (VmHandle.mk id (VmHandle.state h)), f') /\
       workers f !! id = None /\ (exists w, workers f' = <[id := w]> (workers f)) /\
       routed boot f' (<[id := (VmHandle.id h, hv')]> m)) /\
  (forall A (c : HvCall A) id wid h req r h',
     m !! id = Some (wid, h) -> vm_target c = Some id -> is_destroy c = false ->
     request_of (retarget wid c) = Some req -> Host.sendable (JE := JE) req ->
     call (retarget wid c) h = (r, h') -> Host.returnable (JE := JE) (answer c r) ->
     exists f', call c f = (relay r, f') /\ routed boot f' (<[id := (wid, h')]> m)) /\
  (forall id w, workers f !! id = Some w ->
     exists p f', Worker.child w = Some p /\ call (CDestroy id) f = (Ok tt, f') /\
       workers f' = delete id (workers f) /\ Host.procs (os f') !! p = None /\ routed boot f' (delete id m)) /\
  (forall A (c : HvCall A) id, workers f !! id = None -> vm_target c = Some id ->
     call c f = (Err (UnknownVm id), f)) /\
  (forall id w p, workers f !! id = Some w -> Worker.child w = Some p ->
     let dead := set_os (Host.kill p (os f)) f in
     routed boot dead (delete id m) /\
     (forall A (c : HvCall A), vm_target c = Some id -> is_destroy c = false ->
        exists msg, call c dead = (Err (Backend msg), dead))).
Proof.
  intros os_h hv Hs Hr [g Hf]. split_and!.
  - intros cfg Hn. by apply new_host.
  - intros cfg h hv' Hcs Hc Hcr H0 Hn. by eapply create_host.
  - intros A c id wid h req r h' Hm Ht Hd Hreq Hsend Hc Hret.
    destruct (forward_call boot dfe dresp ddur c g [] f m id wid h req r h') as (f' & E & R); try done.
    exists f'. split; [exact E|by exists g].
  - intros id w Hw. destruct (rb_worker _ _ _ _ _ Hf id w Hw) as (p & Hg & Hc & Hst).
    destruct (destroy_host boot dfe g f m id w p Hf Hw Hg) as (f' & E & W & _ & Hp & R).
    exists p, f'. split_and!; [done|exact E|done|done|by exists g].
  - intros A c id Hw Ht. by apply call_unknown.
  - intros id w p Hw Hc dead. destruct (rb_worker _ _ _ _ _ Hf id w Hw) as (p' & Hg & Hc' & Hst).
    assert (p' = p) as -> by congruence.
    assert (R : routed_by boot g [] dead (delete id m)).
    { eapply routed_apart; [done|done|by eexists|]. split; [done|]. intros q Hq. simpl. by rewrite lookup_delete_ne. }
    split; [by exists g|]. intros A c Ht Hd. eapply call_dead; [exact R|exact Hw|exact Hg| |exact Ht|exact Hd].
    simpl. by rewrite lookup_delete_eq.
Qed.

(** ** A fleet of in-memory hypervisors *)

Module FleetSample.
#[local] Instance sample_manifest : Serde string Manifest.t := no_serde.
#[local] Instance sample_hv : Hypervisor (MockHypervisor.t FlatFs.t) :=
  MockHypervisor.mock_hypervisor no_run "/tmp" "7".
Definition sample_boot : MockHypervisor.t FlatFs.t := MockHypervisor.new ∅.

#[local] Instance sample_requests : Serde unit Request :=
  table_serde [ListSnapshots; Ping; CreateVm VmConfig.default; Start 1; Snapshot 1; Destroy 1; Shutdown; DeleteSnapshot 1].
#[local] Instance sample_responses : Serde unit Response :=
  table_serde [Pong; Empty; RespVmHandle (VmHandle.mk 1 Created); RespSnapshot 1].
#[local] Instance sample_requests_laws : SerdeLaws unit Request := table_serde_laws _.
#[local] Instance sample_responses_laws : SerdeLaws unit Response := table_serde_laws _.
#[local] Instance sample_os : FleetOs (Host.t (MockHypervisor.t FlatFs.t)) := Host.host_os (JE := unit) sample_boot.

Definition frame_text (e : FrameError unit) : string := "frame".
Definition response_text (r : Response) : string := "response".
Definition duration_text (d : Z) : string := "5s".

#[local] Instance sample_fleet : Hypervisor (ProcessFleet (Host.t (MockHypervisor.t FlatFs.t))) :=
  process_fleet frame_text response_text duration_text.

Definition start_fleet : ProcessFleet (Host.t (MockHypervisor.t FlatFs.t)) :=
  mk_fleet FleetConfig.default ∅ ∅ 1 [] Host.empty.

Lemma sample_sendable k req :
  to_json (JE := unit) req = (Ok tt, unary (S k)) -> zlen (unary (S k)) <= DEFAULT_MAX_FRAME_BYTES ->
  Host.sendable (JE := unit) req.
Proof. intros Hj Hl. exists (unary (S k)). by repeat split. Qed.

Lemma sample_returnable k resp :
  to_json (JE := unit) resp = (Ok tt, unary k) -> zlen (unary k) <= DEFAULT_MAX_FRAME_BYTES ->
  Host.returnable (JE := unit) resp.
Proof. intros Hj Hl. exists (unary k). by split. Qed.

(** The first VM of a fleet is created and started. *)
Lemma fleet_refines_hypervisors_witness :
  exists id f' f'', call (CCreate VmConfig.default) start_fleet = (Ok (VmHandle.mk id Created), f') /\
    call (CStart id) f' = (Ok tt, f'').
Proof.
  assert (Hping : Host.sendable (JE := unit) Ping) by (apply (sample_sendable 0); [reflexivity|by vm_compute]).
  assert (Hpong : Host.returnable (JE := unit) Pong) by (apply (sample_returnable 0); [reflexivity|by vm_compute]).
  destruct (fleet_refines_hypervisors sample_boot frame_text response_text duration_text start_fleet ∅ Hping Hpong
    (ex_intro _ ∅ (routed_empty sample_boot _))) as (_ & Hcreate & _).
  destruct (Hcreate VmConfig.default (VmHandle.mk 1 Created) (call (CCreate VmConfig.default) sample_boot).2)
    as (id & f' & E & _ & _ & R).
  { apply (sample_sendable 1); [reflexivity|by vm_compute]. }
  { vm_compute. reflexivity. }
  { apply (sample_returnable 2); [reflexivity|by vm_compute]. }
  { by vm_compute. } { by vm_compute. }
  destruct (fleet_refines_hypervisors sample_boot frame_text response_text duration_text f' _ Hping Hpong R)
    as (_ & _ & Hcall & _).
  destruct (Hcall _ (CStart id) id 1 (call (CCreate VmConfig.default) sample_boot).2 (Start 1) (Ok tt)
    (call (CStart 1) (call (CCreate VmConfig.default) sample_boot).2).2) as (f'' & E' & _); try reflexivity.
  { apply lookup_insert_eq. }
  { apply (sample_sendable 2); [reflexivity|by vm_compute]. }
  { apply (sample_returnable 1); [reflexivity|by vm_compute]. }
  exists id, f', f''. split; [exact E|exact E'].
Defined.

Definition one_warm : FleetConfig.t :=
  FleetConfig.mk "/jailer" "/child" "/run" None None None 1000000000 1.

(** A create that takes the warm worker, refills the pool, and a destroy. *)
Lemma fleet_accounts_for_workers_witness :
  let calls := [existT _ (CCreate VmConfig.default)] in
  match new frame_text response_text duration_text one_warm (mk_ledger Host.empty ∅ ∅) with
  | (Err _, l) => spawned l = killed l
  | (Ok f0, _) =>
      let f' := run frame_text response_text duration_text [existT _ (CDestroy 1)]
                  (run frame_text response_text duration_text calls f0) in
      spawned (os f') = killed (os f') ⊎ live f'
  end.
Proof.
  intros calls. pose proof (fleet_accounts_for_workers frame_text response_text duration_text one_warm
    (Host.empty (H := MockHypervisor.t FlatFs.t)) calls [existT _ (CDestroy 1)] ltac:(by vm_compute)) as Hw.
  destruct (new _ _ _ _ _) as [[f0|e] l]; [exact (proj1 Hw)|exact Hw].
Defined.

(** Snapshot ids are the workers' own, and every worker counts from 1: the
    snapshots of two VMs get the same id, the index keeps only the later owner,
    and deleting the snapshot of the first VM deletes the second's. *)
Example fleet_snapshot_ids_collide :
  let f := (call (CCreate VmConfig.default) (call (CCreate VmConfig.default) start_fleet).2).2 in
  let (first, f) := call (CSnapshot 1) f in
  let (second, f) := call (CSnapshot 2) f in
  first = Ok 1 /\ second = Ok 1 /\ snapshot_owner f !! 1 = Some 2 /\
  (call (CDeleteSnapshot 1) f).1 = Ok tt /\ (call CListSnapshots (call (CDeleteSnapshot 1) f).2).1 = Ok [].
Proof. vm_compute. repeat split. Qed.
End FleetSample.
