(* ===== verification/Boot.v ===== *)
(** * Booting a guest ([crates/vm-kvm/src/lib.rs])

    What the hypervisor prepares before a vCPU runs: segment descriptors and
    special registers, page tables, the memory map and boot parameters, the
    initramfs, the kernel command line, and the two I/O ports of the serial line
    at run time. Guest memory is the interface of [GuestMemory] with its size;
    the writer of the boot parameters and the command-line builder are external
    crates and parameters. Of the registers and boot parameters the fields the
    code sets are modelled. *)

From Stdlib Require Import Ascii String.
From stdpp Require Import strings pretty.
From S2P Require Import Prelude GuestMemory NetDevice Str VmCore.

Local Open Scope Z_scope.

Definition KERNEL_LOAD_ADDR : Z := 0x200000.
Definition CMDLINE_CAPACITY : Z := 4096.
Definition DEFAULT_CMDLINE : string := "console=ttyS0 reboot=k panic=1 pci=off".
Definition SERIAL_PORT_BASE : Z := 0x3f8.
Definition VSOCK_MMIO_BASE : Z := 0xd0000000.
Definition VSOCK_MMIO_SIZE : Z := 0x1000.
Definition VSOCK_MMIO_IRQ : Z := 5.
Definition VSOCK_HOST_PORT : Z := 1024.
Definition PAGE_SIZE : Z := 0x1000.
Definition BOOT_STACK_POINTER : Z := 0x8ff0.
Definition CMDLINE_START : Z := 0x20000.
Definition ZERO_PAGE_START : Z := 0x7000.
Definition HIMEM_START : Z := 0x100000.
Definition BZIMAGE_64BIT_ENTRY_OFFSET : Z := 0x200.
Definition SYSTEM_MEM_START : Z := 0x9fc00.
Definition SYSTEM_MEM_SIZE : Z := HIMEM_START - SYSTEM_MEM_START.
Definition KERNEL_BOOT_FLAG_MAGIC : Z := 0xaa55.
Definition KERNEL_HDR_MAGIC : Z := 0x53726448.
Definition KERNEL_LOADER_OTHER : Z := 0xff.
Definition KERNEL_MIN_ALIGNMENT_BYTES : Z := 0x01000000.
Definition E820_RAM : Z := 1.
Definition E820_RESERVED : Z := 2.
Definition BOOT_GDT_OFFSET : Z := 0x500.
Definition BOOT_IDT_OFFSET : Z := 0x520.
Definition PML4_START : Z := 0x9000.
Definition PDPTE_START : Z := 0xa000.
Definition PDE_START : Z := 0xb000.
Definition EFER_LMA : Z := 0x400.
Definition EFER_LME : Z := 0x100.
Definition X86_CR0_PE : Z := 0x1.
Definition X86_CR0_ET : Z := 0x10.
Definition X86_CR0_PG : Z := 0x80000000.
Definition X86_CR4_PAE : Z := 0x20.

(** ** Segment descriptors *)

Definition gdt_entry (flags base limit : Z) : Z :=
  Z.lor (Z.lor (Z.lor (Z.lor
    (Z.shiftl (Z.land base 0xff000000) 32)
    (Z.shiftl (Z.land flags 0xf0ff) 40))
    (Z.shiftl (Z.land limit 0xf0000) 32))
    (Z.shiftl (Z.land base 0xffffff) 16))
    (Z.land limit 0xffff).

Definition get_base (entry : Z) : Z :=
  Z.lor (Z.lor
    (Z.shiftr (Z.land entry 0xff00000000000000) 32)
    (Z.shiftr (Z.land entry 0x000000ff00000000) 16))
    (Z.shiftr (Z.land entry 0x00000000ffff0000) 16).

Definition get_g (entry : Z) : Z := Z.shiftr (Z.land entry 0x0080000000000000) 55.
Definition get_db (entry : Z) : Z := Z.shiftr (Z.land entry 0x0040000000000000) 54.
Definition get_l (entry : Z) : Z := Z.shiftr (Z.land entry 0x0020000000000000) 53.
Definition get_avl (entry : Z) : Z := Z.shiftr (Z.land entry 0x0010000000000000) 52.
Definition get_p (entry : Z) : Z := Z.shiftr (Z.land entry 0x0000800000000000) 47.
Definition get_dpl (entry : Z) : Z := Z.shiftr (Z.land entry 0x0000600000000000) 45.
Definition get_s (entry : Z) : Z := Z.shiftr (Z.land entry 0x0000100000000000) 44.
Definition get_type (entry : Z) : Z := Z.shiftr (Z.land entry 0x00000f0000000000) 40.

(** [limit << 12] is a shift of a [u32]. *)
Definition get_limit (entry : Z) : Z :=
  let limit := wrap32 (Z.lor (Z.shiftr (Z.land entry 0x000f000000000000) 32) (Z.land entry 0xffff)) in
  if get_g entry =? 0 then limit else Z.lor (wrap32 (Z.shiftl limit 12)) 0xfff.

Module Segment.
Record t : Type := mk {
  base : Z;
  limit : Z;
  selector : Z;
  type_ : Z;
  present : Z;
  dpl : Z;
  db : Z;
  s : Z;
  l : Z;
  g : Z;
  avl : Z;
  unusable : Z;
}.
End Segment.

Definition kvm_segment_from_gdt (entry table_index : Z) : Segment.t :=
  Segment.mk (get_base entry) (get_limit entry) (table_index * 8) (get_type entry) (get_p entry) (get_dpl entry)
    (get_db entry) (get_s entry) (get_l entry) (get_g entry) (get_avl entry)
    (if get_p entry =? 0 then 1 else 0).

(** ** Registers *)

Module Dtable.
Record t : Type := mk { base : Z; limit : Z }.
End Dtable.

Module Sregs.
Record t : Type := mk {
  cs : Segment.t; ds : Segment.t; es : Segment.t; fs : Segment.t; gs : Segment.t; ss : Segment.t; tr : Segment.t;
  gdt : Dtable.t;
  idt : Dtable.t;
  cr0 : Z; cr3 : Z; cr4 : Z; efer : Z;
}.
End Sregs.

Module Regs.
Record t : Type := mk { rip : Z; rsp : Z; rbp : Z; rsi : Z; rflags : Z }.
End Regs.

(** ** Guest memory *)

Section Memory.
Context {E M : Type} `{!GuestMem E M}.
Variable display_mem_error : E -> string.

Abbreviation MM := (SM M VmError).

(** A write, its error rendered after a context. *)
Definition write_bytes (context : string) (addr : Z) (bs : bytes) : MM unit := fun m =>
  let (r, m) := mem_write m addr bs in (map_err (fun e => Backend (context +:+ display_mem_error e)) r, m).

(** [write_obj] of a [u64]. *)
Definition write_u64 (context : string) (value addr : Z) : MM unit := write_bytes context addr (to_le 8 value).

(** [GuestMemory::checked_offset]: the address, if it is guest memory. *)
Definition checked_offset (m : M) (base offset : Z) : option Z :=
  let a := base + offset in
  if (a <? 2 ^ 64) && is_ok (mem_read m a 1) then Some a else None.

Fixpoint write_gdt_from (index : Z) (table : list Z) : MM unit :=
  match table with
  | [] => mret tt
  | entry :: table =>
      addr ← (fun m => (ok_or (Backend "vm-kvm: GDT write overflow") (checked_offset m BOOT_GDT_OFFSET (index * 8)), m));
      _ ← write_u64 ("write GDT entry " +:+ pretty index +:+ ": ") entry addr;
      write_gdt_from (index + 1) table
  end.
Definition write_gdt_table (table : list Z) : MM unit := write_gdt_from 0 table.

Definition write_idt_value (value : Z) : MM unit := write_u64 "write IDT: " value BOOT_IDT_OFFSET.

Definition gdt_table : list Z :=
  [gdt_entry 0 0 0; gdt_entry 0xa09b 0 0xfffff; gdt_entry 0xc093 0 0xfffff; gdt_entry 0x808b 0 0xfffff].

Definition configure_segments_and_sregs (sregs : Sregs.t) : MM Sregs.t :=
  let code_seg := kvm_segment_from_gdt (gdt_entry 0xa09b 0 0xfffff) 1 in
  let data_seg := kvm_segment_from_gdt (gdt_entry 0xc093 0 0xfffff) 2 in
  let tss_seg := kvm_segment_from_gdt (gdt_entry 0x808b 0 0xfffff) 3 in
  _ ← write_gdt_table gdt_table;
  _ ← write_idt_value 0;
  mret (Sregs.mk code_seg data_seg data_seg data_seg data_seg data_seg tss_seg
    (Dtable.mk BOOT_GDT_OFFSET (zlen gdt_table * 8 - 1)) (Dtable.mk BOOT_IDT_OFFSET (8 - 1))
    (Z.lor (Sregs.cr0 sregs) X86_CR0_PE) (Sregs.cr3 sregs) (Sregs.cr4 sregs)
    (Z.lor (Sregs.efer sregs) (Z.lor EFER_LME EFER_LMA))).

(** [for index in 0..512u64] *)
Fixpoint write_pdes (n : nat) (index : Z) : MM unit :=
  match n with
  | O => mret tt
  | S n =>
      _ ← write_u64 ("write PDE entry " +:+ pretty index +:+ ": ") (Z.lor (Z.shiftl index 21) 0x83)
            (PDE_START + index * 8);
      write_pdes n (index + 1)
  end.

Definition setup_page_tables (sregs : Sregs.t) : MM Sregs.t :=
  _ ← write_u64 "write PML4 entry: " (Z.lor PDPTE_START 0x03) PML4_START;
  _ ← write_u64 "write PDPTE entry: " (Z.lor PDE_START 0x03) PDPTE_START;
  _ ← write_pdes 512 0;
  mret (Sregs.mk (Sregs.cs sregs) (Sregs.ds sregs) (Sregs.es sregs) (Sregs.fs sregs) (Sregs.gs sregs) (Sregs.ss sregs)
    (Sregs.tr sregs) (Sregs.gdt sregs) (Sregs.idt sregs)
    (Z.lor (Sregs.cr0 sregs) (Z.lor X86_CR0_PG X86_CR0_ET)) PML4_START (Z.lor (Sregs.cr4 sregs) X86_CR4_PAE)
    (Sregs.efer sregs)).

End Memory.

(** ** The vCPU *)

Module Fpu.
Record t : Type := mk { fcw : Z; mxcsr : Z }.
End Fpu.

(** The ioctls of a vCPU: an error of the kernel, or the vCPU configured. *)
Class VcpuFd (CpuId V : Type) := {
  set_cpuid2 : CpuId -> SM V string unit;
  set_fpu : Fpu.t -> SM V string unit;
  set_regs : Regs.t -> SM V string unit;
  set_sregs : Sregs.t -> SM V string unit;
  get_sregs : V -> result string Sregs.t;
}.
Arguments set_fpu CpuId {V _} _ _.
Arguments set_regs CpuId {V _} _ _.
Arguments set_sregs CpuId {V _} _ _.
Arguments get_sregs CpuId {V _} _.

Section Vcpu.
Context {E M : Type} `{!GuestMem E M} {CpuId V : Type} `{!VcpuFd CpuId V}.
Variable display_mem_error : E -> string.
(** [Kvm::get_supported_cpuid] *)
Variable supported_cpuid : result string CpuId.

Abbreviation VM := (SM V VmError).

Definition ioctl {A} (context : string) (f : SM V string A) : VM A := fun v =>
  let (r, v) := f v in (map_err (fun e => Backend (context +:+ e)) r, v).

Definition read_sregs (context : string) : VM Sregs.t := fun v =>
  (map_err (fun e => Backend (context +:+ e)) (get_sregs CpuId v), v).

Definition setup_fpu : VM unit := ioctl "set FPU registers: " (set_fpu CpuId (Fpu.mk 0x37f 0x1f80)).

(** Registers not named in the source are zero. *)
Definition setup_regs (entry_point : Z) : VM unit :=
  ioctl "set base registers: "
    (set_regs CpuId (Regs.mk entry_point BOOT_STACK_POINTER BOOT_STACK_POINTER ZERO_PAGE_START 0x2)).

(** On guest memory and the vCPU. *)
Definition setup_sregs : SM (M * V) VmError unit := fun '(m, v) =>
  match get_sregs CpuId v with
  | Err e => (Err (Backend ("get special registers: " +:+ e)), (m, v))
  | Ok sregs =>
      let (r, m) := (sregs ← configure_segments_and_sregs display_mem_error sregs;
                     setup_page_tables display_mem_error sregs) m in
      match r with
      | Err e => (Err e, (m, v))
      | Ok sregs => let (r, v) := ioctl "set special registers: " (set_sregs CpuId sregs) v in (r, (m, v))
      end
  end.

Definition set_supported_cpuid : VM unit := fun v =>
  match supported_cpuid with
  | Err e => (Err (Backend ("get supported CPUID: " +:+ e)), v)
  | Ok cpuid => ioctl "set CPUID: " (set_cpuid2 cpuid) v
  end.

Definition configure_boot_vcpu (entry_point : Z) : SM (M * V) VmError unit := fun '(m, v) =>
  let (r, v) := (_ ← set_supported_cpuid; _ ← setup_fpu; setup_regs entry_point) v in
  match r with Err e => (Err e, (m, v)) | Ok _ => setup_sregs (m, v) end.

Definition zero_cs (s : Sregs.t) : Sregs.t :=
  let c := Sregs.cs s in
  Sregs.mk (Segment.mk 0 (Segment.limit c) 0 (Segment.type_ c) (Segment.present c) (Segment.dpl c) (Segment.db c)
      (Segment.s c) (Segment.l c) (Segment.g c) (Segment.avl c) (Segment.unusable c))
    (Sregs.ds s) (Sregs.es s) (Sregs.fs s) (Sregs.gs s) (Sregs.ss s) (Sregs.tr s) (Sregs.gdt s) (Sregs.idt s)
    (Sregs.cr0 s) (Sregs.cr3 s) (Sregs.cr4 s) (Sregs.efer s).

Definition configure_boot_vcpu_realmode (entry_point : Z) : VM unit :=
  _ ← set_supported_cpuid;
  _ ← setup_fpu;
  sregs ← read_sregs "get sregs (realmode): ";
  _ ← ioctl "set sregs (realmode): " (set_sregs CpuId (zero_cs sregs));
  ioctl "set regs (realmode): " (set_regs CpuId (Regs.mk entry_point 0 0 0 0x2)).
End Vcpu.

(** ** Boot parameters *)

Module E820Entry.
Record t : Type := mk { addr : Z; size : Z; type_ : Z }.
End E820Entry.

(** [linux_loader]'s [setup_header]; [H] is what the code leaves alone. *)
Module SetupHeader.
Record t (H : Type) : Type := mk {
  type_of_loader : Z;
  boot_flag : Z;
  header : Z;
  kernel_alignment : Z;
  cmd_line_ptr : Z;
  cmdline_size : Z;
  ramdisk_image : Z;
  ramdisk_size : Z;
  rest : H;
}.
Arguments mk {H}.
Arguments cmd_line_ptr {H}.
Arguments cmdline_size {H}.
Arguments ramdisk_image {H}.
Arguments ramdisk_size {H}.
Arguments rest {H}.
End SetupHeader.

Module BootParams.
Record t (H : Type) : Type := mk { hdr : SetupHeader.t H; e820_entries : Z; e820_table : list E820Entry.t }.
Arguments mk {H}.
Arguments hdr {H}.
Arguments e820_entries {H}.
Arguments e820_table {H}.
End BootParams.

Definition E820_MAX_ENTRIES_ZEROPAGE : nat := 128.

Section Params.
Context {H : Type}.
(** The header of [boot_params::default()]. *)
Variable default_header : SetupHeader.t H.

Definition default_params : BootParams.t H :=
  BootParams.mk default_header 0 (replicate E820_MAX_ENTRIES_ZEROPAGE (E820Entry.mk 0 0 0)).

Definition add_e820_entry (params : BootParams.t H) (addr size mem_type : Z) : result VmError (BootParams.t H) :=
  let n := BootParams.e820_entries params in
  if zlen (BootParams.e820_table params) <=? n then Err (Backend "vm-kvm: e820 table is full")
  else Ok (BootParams.mk (BootParams.hdr params) (n + 1)
             (<[Z.to_nat n := E820Entry.mk addr size mem_type]> (BootParams.e820_table params))).

(** [u32::try_from(..)] *)
Definition to_u32 (message : string) (z : Z) : result VmError Z :=
  if z <? 2 ^ 32 then Ok z else Err (Backend message).

(** The map of a guest whose memory ends at [mem_end]. *)
Definition add_memory_map (params : BootParams.t H) (mem_end : Z) : result VmError (BootParams.t H) :=
  params ← add_e820_entry params 0 SYSTEM_MEM_START E820_RAM;
  params ← add_e820_entry params SYSTEM_MEM_START SYSTEM_MEM_SIZE E820_RESERVED;
  if HIMEM_START <? mem_end then add_e820_entry params HIMEM_START (mem_end - HIMEM_START) E820_RAM
  else Ok params.

(** The parameters [configure_linux_boot] writes, for a guest whose memory ends
    at [mem_end]. *)
Definition linux_boot_params (mem_end : Z) (setup_header : option (SetupHeader.t H)) (cmdline_addr cmdline_size : Z)
    (initrd : option (Z * Z)) : result VmError (BootParams.t H) :=
  let header := default (BootParams.hdr default_params) setup_header in
  cmd_line_ptr ← to_u32 "vm-kvm: cmdline address does not fit boot params" cmdline_addr;
  size ← to_u32 "vm-kvm: cmdline size does not fit boot params" cmdline_size;
  '(image, image_size) ←
    match initrd with
    | Some (addr, size) =>
        image ← to_u32 "vm-kvm: initrd address does not fit boot params" addr;
        size ← to_u32 "vm-kvm: initrd size does not fit boot params" size;
        Ok (image, size)
    | None => Ok (SetupHeader.ramdisk_image header, SetupHeader.ramdisk_size header)
    end;
  let hdr := SetupHeader.mk KERNEL_LOADER_OTHER KERNEL_BOOT_FLAG_MAGIC KERNEL_HDR_MAGIC KERNEL_MIN_ALIGNMENT_BYTES
               cmd_line_ptr size image image_size (SetupHeader.rest header) in
  let params := BootParams.mk hdr (BootParams.e820_entries default_params) (BootParams.e820_table default_params) in
  add_memory_map params mem_end.
End Params.

(** [GuestMemoryMmap]: one region from address 0; [last_addr] its last byte. *)
Class GuestRam (M : Type) := {
  ram_alloc : Z -> result string M;
  last_addr : M -> Z;
}.

Section Linux.
Context {E M : Type} `{!GuestMem E M, !GuestRam M} {H : Type}.
Variable display_mem_error : E -> string.
Variable default_header : SetupHeader.t H.
(** [LinuxBootConfigurator::write_bootparams] *)
Variable write_bootparams : BootParams.t H -> Z -> SM M string unit.

Definition configure_linux_boot (setup_header : option (SetupHeader.t H)) (cmdline_addr cmdline_size : Z)
    (initrd : option (Z * Z)) : SM M VmError unit := fun m =>
  match linux_boot_params default_header (last_addr m + 1) setup_header cmdline_addr cmdline_size initrd with
  | Err e => (Err e, m)
  | Ok params =>
      let (r, m) := write_bootparams params ZERO_PAGE_START m in
      (map_err (fun e => Backend ("write Linux boot params: " +:+ e)) r, m)
  end.

(** [{:#x}] *)
Fixpoint strip_zeros (s : string) : string :=
  match s with
  | String c (String _ _ as rest) => if Ascii.eqb c "0"%char then strip_zeros rest else s
  | _ => s
  end.
Definition fmt_hex (z : Z) : string := "0x" +:+ strip_zeros (hex_fixed 16 z).

(** [contents] is what reading the file gave. *)
Definition load_initrd (path : string) (contents : result string bytes) : SM M VmError (Z * Z) := fun m =>
  match contents with
  | Err e => (Err (Backend ("read initrd " +:+ path +:+ ": " +:+ e)), m)
  | Ok bs =>
      let size := zlen bs in
      let mem_end := last_addr m + 1 in
      if size =? 0 then (Err (Backend "vm-kvm: initrd is empty"), m)
      else if mem_end <? size then (Err (Backend "vm-kvm: initrd larger than guest memory"), m)
      else
        let raw := mem_end - size in
        let load_addr := Z.land raw (Z.lxor (PAGE_SIZE - 1) (2 ^ 64 - 1)) in
        if load_addr <? HIMEM_START then
          (Err (Backend ("vm-kvm: initrd (" +:+ pretty size +:+ " bytes) leaves no room above himem "
             +:+ fmt_hex HIMEM_START +:+ " in a " +:+ fmt_hex mem_end +:+ "-byte guest")), m)
        else
          let (r, m) := write_bytes display_mem_error "write initrd into guest memory: " load_addr bs m in
          (_ ← r; Ok (load_addr, size), m)
  end.
End Linux.

(** ** The boot plan *)

(** The external command-line builder. *)
Class CmdlineBuilder (C : Type) := {
  cmdline_new : Z -> result string C;
  insert_str : string -> C -> result string C;
}.

Definition device_param (size base irq : Z) : string :=
  "virtio_mmio.device=" +:+ fmt_hex size +:+ "@" +:+ fmt_hex base +:+ ":" +:+ pretty irq.

Module KvmBootPlan.
Record t (M C : Type) : Type := mk {
  guest_mem : M;
  kernel_load_addr : Z;
  initrd_load_addr : option Z;
  cmdline : C;
}.
Arguments mk {M C}.
Arguments guest_mem {M C}.
Arguments kernel_load_addr {M C}.
Arguments initrd_load_addr {M C}.
Arguments cmdline {M C}.

Section Plan.
Context {M : Type} `{!GuestRam M} {C : Type} `{!CmdlineBuilder C}.

Definition memory_size_bytes (p : t M C) : Z := last_addr (guest_mem p) + 1.

(** [u64::checked_mul] *)
Definition checked_mul64 (a b : Z) : option Z := if a * b <? 2 ^ 64 then Some (a * b) else None.

Definition backend {A} (context : string) (r : result string A) : result VmError A :=
  map_err (fun e => Backend (context +:+ e)) r.

(** The guest's memory; a [u64] fits a [usize]. *)
Definition alloc_memory (cfg : VmConfig.t) : result VmError M :=
  mem_len ← ok_or (Backend "memory size overflow") (checked_mul64 (VmConfig.memory_mib cfg) (1024 * 1024));
  backend "guest memory layout: " (ram_alloc mem_len).

Definition from_config (cfg : VmConfig.t) : result VmError (t M C) :=
  guest_mem ← alloc_memory cfg;
  if last_addr guest_mem <? KERNEL_LOAD_ADDR
  then Err (Backend ("vm-kvm: guest memory must extend past kernel load address " +:+ fmt_hex KERNEL_LOAD_ADDR))
  else
    cmdline ← backend "kernel cmdline capacity: " (cmdline_new CMDLINE_CAPACITY);
    cmdline ← backend "default kernel cmdline: " (insert_str DEFAULT_CMDLINE cmdline);
    cmdline ← (if String.eqb (VmConfig.cmdline cfg) "" then Ok cmdline
               else backend "kernel cmdline: " (insert_str (VmConfig.cmdline cfg) cmdline));
    cmdline ← (match VmConfig.vsock_cid cfg with
               | Some _ => backend "vsock cmdline: "
                   (insert_str (device_param VSOCK_MMIO_SIZE VSOCK_MMIO_BASE VSOCK_MMIO_IRQ) cmdline)
               | None => Ok cmdline
               end);
    cmdline ← backend "virtio-net cmdline: " (insert_str (device_param NET_MMIO_SIZE NET_MMIO_BASE NET_MMIO_IRQ) cmdline);
    cmdline ← (match VmConfig.vsock_cid cfg with
               | Some _ => backend "vsock agent cmdline: " (insert_str ("NANOVM_AGENT_VSOCK=" +:+ pretty VSOCK_HOST_PORT) cmdline)
               | None => Ok cmdline
               end);
    Ok (mk guest_mem KERNEL_LOAD_ADDR None cmdline).

Definition from_config_flat (cfg : VmConfig.t) : result VmError (t M C) :=
  mem_len ← ok_or (Backend "memory size overflow") (checked_mul64 (VmConfig.memory_mib cfg) (1024 * 1024));
  if mem_len =? 0 then Err (Backend "vm-kvm: flat_binary mode requires memory_mib >= 1")
  else
    guest_mem ← backend "guest memory layout: " (ram_alloc mem_len);
    cmdline ← backend "kernel cmdline capacity: " (cmdline_new CMDLINE_CAPACITY);
    Ok (mk guest_mem 0 None cmdline).
End Plan.
End KvmBootPlan.

(** ** The serial port *)

(** Bytes written to the port are appended to the serial output; [echo] is the
    outcome of copying them to the standard output. *)
Definition handle_io_out (port : Z) (data serial_output : bytes) (echo : result string unit) :
    result VmError unit * bytes :=
  if port =? SERIAL_PORT_BASE
  then (map_err (fun e => Backend ("write serial output: " +:+ e)) echo, serial_output ++ data)
  else (Ok tt, serial_output).

(** [data] is what the guest's read returns: a transmitter that is always ready. *)
Definition handle_io_in (port : Z) (len : nat) : bytes :=
  match len with
  | O => []
  | S n =>
      byte_of (if port =? SERIAL_PORT_BASE + 5 then 0x60 else if port =? SERIAL_PORT_BASE + 2 then 0x01 else 0)
        :: replicate n (byte_of 0)
  end.
