(* ===== verification/BootProps.v ===== *)
(** * What the boot code establishes

    Segment descriptors round-trip through their packed form; the special
    registers and tables [setup_sregs] leaves put the vCPU in 64-bit mode with
    the first gigabyte mapped to itself; the memory map and the initramfs fit
    the guest's memory. *)

From Stdlib Require Import String Sorting.Sorted.
From stdpp Require Import strings.
From S2P Require Import Prelude GuestMemory VirtioQueue Mmio VmCore Boot.

Local Open Scope Z_scope.

(** ** Bit fields *)

(** [n] ones from bit [k]. *)
Definition mask (k n : Z) : Z := Z.shiftl (Z.ones n) k.

Lemma mask_testbit k n i :
  0 <= k -> 0 <= n -> Z.testbit (mask k n) i = (k <=? i) && (i <? k + n).
Proof.
  intros Hk Hn. unfold mask. destruct (Z.neg_nonneg_cases i) as [Hi|Hi].
  - rewrite Z.testbit_neg_r by lia. symmetry. apply andb_false_iff. left. lia.
  - rewrite Z.shiftl_spec by lia. destruct (Z.neg_nonneg_cases (i - k)).
    + rewrite Z.testbit_neg_r by lia. symmetry. apply andb_false_iff. left. lia.
    + rewrite Z.testbit_ones by lia. lia.
Qed.

(** Decide the comparisons of a bit index with the bounds of the fields. *)
Ltac decide_bounds :=
  repeat match goal with
  | |- context [?a <=? ?b] => first
      [ replace (a <=? b) with true by lia | replace (a <=? b) with false by lia ]
  | |- context [?a <? ?b] => first
      [ replace (a <? b) with true by lia | replace (a <? b) with false by lia ]
  end;
  repeat first [ rewrite andb_true_r | rewrite andb_false_r | rewrite orb_false_r
               | rewrite andb_true_l | rewrite andb_false_l | rewrite orb_false_l ].

Ltac bit_specs :=
  repeat first [ rewrite Z.lor_spec | rewrite Z.land_spec | rewrite Z.shiftl_spec by lia
               | rewrite Z.shiftr_spec by lia | rewrite mask_testbit by lia ].

Lemma gdt_entry_masks flags base limit :
  gdt_entry flags base limit =
  Z.lor (Z.lor (Z.lor (Z.lor
    (Z.shiftl (Z.land base (mask 24 8)) 32)
    (Z.shiftl (Z.land flags (Z.lor (mask 0 8) (mask 12 4))) 40))
    (Z.shiftl (Z.land limit (mask 16 4)) 32))
    (Z.shiftl (Z.land base (mask 0 24)) 16))
    (Z.land limit (mask 0 16)).
Proof. reflexivity. Qed.

(** The packed layout of a descriptor, bit by bit. *)
Lemma gdt_entry_bit flags base limit i : 0 <= i ->
  Z.testbit (gdt_entry flags base limit) i =
    if i <? 16 then Z.testbit limit i
    else if i <? 40 then Z.testbit base (i - 16)
    else if i <? 48 then Z.testbit flags (i - 40)
    else if i <? 52 then Z.testbit limit (i - 32)
    else if i <? 56 then Z.testbit flags (i - 40)
    else if i <? 64 then Z.testbit base (i - 32)
    else false.
Proof.
  intros Hi. rewrite gdt_entry_masks. bit_specs.
  assert (i < 16 \/ 16 <= i < 40 \/ 40 <= i < 48 \/ 48 <= i < 52 \/ 52 <= i < 56 \/ 56 <= i < 64 \/ 64 <= i)
    as [?|[?|[?|[?|[?|[?|?]]]]]] by lia; by decide_bounds.
Qed.

(** A field of [n] bits from bit [k] of a word, as the decoders extract it. *)
Lemma field_extract e k n : 0 <= k -> 0 <= n ->
  Z.shiftr (Z.land e (mask k n)) k = Z.land (Z.shiftr e k) (Z.ones n).
Proof.
  intros Hk Hn. apply Z.bits_inj'. intros i Hi.
  rewrite Z.land_spec, Z.testbit_ones_nonneg by lia. bit_specs. decide_bounds.
  f_equal. lia.
Qed.

(** Bits 40 to 47 and 52 to 55 of a descriptor are the flags. *)
Lemma gdt_flag_field flags base limit k n : 0 <= k -> 0 <= n ->
  k + n <= 8 \/ 12 <= k /\ k + n <= 16 ->
  Z.shiftr (Z.land (gdt_entry flags base limit) (mask (40 + k) n)) (40 + k) = Z.land (Z.shiftr flags k) (Z.ones n).
Proof.
  intros Hk Hn Hkn. rewrite field_extract by lia. apply Z.bits_inj'. intros i Hi.
  rewrite !Z.land_spec, !Z.testbit_ones_nonneg, !Z.shiftr_spec, gdt_entry_bit by lia.
  destruct (Z.ltb_spec i n); [|by rewrite !andb_false_r]. rewrite !andb_true_r.
  destruct Hkn; decide_bounds; f_equal; lia.
Qed.

(** The fields of the flags word, in the positions of a descriptor's access byte
    and granularity nibble. *)
Definition flag_bit (flags k : Z) : Z := Z.land (Z.shiftr flags k) 1.

(** The address an encoded limit reaches: the granularity bit counts in pages. *)
Definition scaled_limit (flags limit : Z) : Z :=
  if flag_bit flags 15 =? 0 then limit else limit * 4096 + 4095.

Lemma get_base_gdt flags base limit : is_u32 base -> get_base (gdt_entry flags base limit) = base.
Proof.
  intros Hb. unfold get_base.
  change 0xff00000000000000 with (mask 56 8). change 0x000000ff00000000 with (mask 32 8).
  change 0x00000000ffff0000 with (mask 16 16).
  apply Z.bits_inj'. intros i Hi. bit_specs. rewrite !gdt_entry_bit by lia.
  assert (i < 16 \/ 16 <= i < 24 \/ 24 <= i < 32 \/ 32 <= i) as [?|[?|[?|?]]] by lia; decide_bounds;
    [f_equal; lia..|]. symmetry. by apply (bits_above 32).
Qed.

Lemma gdt_raw_limit flags base limit : 0 <= limit < 2 ^ 20 ->
  Z.lor (Z.shiftr (Z.land (gdt_entry flags base limit) 0x000f000000000000) 32)
    (Z.land (gdt_entry flags base limit) 0xffff) = limit.
Proof.
  intros Hl. change 0x000f000000000000 with (mask 48 4). change 0xffff with (mask 0 16).
  apply Z.bits_inj'. intros i Hi. bit_specs. rewrite !gdt_entry_bit by lia.
  assert (i < 16 \/ 16 <= i < 20 \/ 20 <= i) as [?|[?|?]] by lia; decide_bounds;
    [f_equal; lia..|]. symmetry. by apply (bits_above 20).
Qed.

Lemma get_g_gdt flags base limit : get_g (gdt_entry flags base limit) = flag_bit flags 15.
Proof. apply (gdt_flag_field flags base limit 15 1); lia. Qed.

Lemma get_limit_gdt flags base limit : 0 <= limit < 2 ^ 20 ->
  get_limit (gdt_entry flags base limit) = scaled_limit flags limit.
Proof.
  intros Hl. unfold get_limit, scaled_limit. rewrite gdt_raw_limit, get_g_gdt by done.
  rewrite (wrap32_small limit) by (unfold is_u32; lia). case_match; [done|].
  rewrite Z.shiftl_mul_pow2 by lia. rewrite wrap32_small by (unfold is_u32; lia).
  apply (lor_low_add limit 4095 12); lia.
Qed.

Lemma flag_bit_cases flags k : flag_bit flags k = 0 \/ flag_bit flags k = 1.
Proof.
  unfold flag_bit. rewrite (Z.land_ones _ 1) by lia.
  pose proof (Z.mod_pos_bound (Z.shiftr flags k) (2 ^ 1) ltac:(lia)). lia.
Qed.

(** A segment descriptor round-trips through its packed form: from the entry
    packed of any 32-bit base, 20-bit limit and flags word the decoders recover
    the base, the limit in bytes (scaled by pages under the granularity bit), and
    every flag at its own position, so the segment registers loaded agree with
    the table the guest can reload them from. *)
Theorem gdt_entry_roundtrip flags base limit index :
  is_u32 base -> 0 <= limit < 2 ^ 20 ->
  kvm_segment_from_gdt (gdt_entry flags base limit) index =
  Segment.mk base (scaled_limit flags limit) (index * 8) (Z.land flags 0xf) (flag_bit flags 7)
    (Z.land (Z.shiftr flags 5) 0x3) (flag_bit flags 14) (flag_bit flags 4) (flag_bit flags 13)
    (flag_bit flags 15) (flag_bit flags 12) (1 - flag_bit flags 7).
Proof.
  intros Hb Hl. unfold kvm_segment_from_gdt. rewrite get_base_gdt, get_limit_gdt by done.
  assert (Hf : forall k n, 0 <= k -> 0 <= n -> k + n <= 8 \/ 12 <= k /\ k + n <= 16 ->
    Z.shiftr (Z.land (gdt_entry flags base limit) (mask (40 + k) n)) (40 + k) = Z.land (Z.shiftr flags k) (Z.ones n))
    by (intros; by apply gdt_flag_field).
  assert (Hp : get_p (gdt_entry flags base limit) = flag_bit flags 7) by (apply (Hf 7 1); lia).
  rewrite Hp. f_equal.
  - apply (Hf 0 4); lia.
  - apply (Hf 5 2); lia.
  - apply (Hf 14 1); lia.
  - apply (Hf 4 1); lia.
  - apply (Hf 13 1); lia.
  - apply (Hf 15 1); lia.
  - apply (Hf 12 1); lia.
  - by destruct (flag_bit_cases flags 7) as [->| ->].
Qed.

Lemma gdt_entry_roundtrip_witness :
  kvm_segment_from_gdt (gdt_entry 0xa09b 0x12345678 0xfffff) 1 =
  Segment.mk 0x12345678 0xffffffff 8 11 1 0 0 1 1 1 0 0.
Proof. apply (gdt_entry_roundtrip 0xa09b 0x12345678 0xfffff 1); unfold is_u32; lia. Defined.

(** ** Writing words *)

Section Words.
Context {E M : Type} `{!GuestMem E M, !GuestMemLaws E M}.
Implicit Types (m : M) (ws : list (Z * Z)).

(** The words [ws] (address, value) written in turn. *)
Inductive writes : M -> list (Z * Z) -> M -> Prop :=
  | writes_nil m : writes m [] m
  | writes_cons m a v m1 ws m' :
      mem_write m a (to_le 8 v) = (Ok tt, m1) -> writes m1 ws m' -> writes m ((a, v) :: ws) m'.

Lemma writes_app m ws m1 ws' m' : writes m ws m1 -> writes m1 ws' m' -> writes m (ws ++ ws') m'.
Proof. induction 1; simpl; [done|]. intros. econstructor; eauto. Qed.

(** The word at an address. *)
Definition read_u64 m (a : Z) : option Z :=
  match mem_read m a 8 with Ok bs => Some (from_le bs) | Err _ => None end.

Definition apart (a : Z) (n : nat) (w : Z * Z) : Prop := w.1 + 8 <= a \/ a + Z.of_nat n <= w.1.

Lemma writes_frame m ws m' a n :
  writes m ws m' -> Forall (apart a n) ws -> mem_read m' a n = mem_read m a n.
Proof.
  induction 1 as [|m w v m1 ws m' Hw _ IH]; [done|]. intros [Ha Hws]%Forall_cons.
  rewrite IH by done. eapply mem_read_write_frame; [exact Hw|]. unfold zlen. rewrite to_le_length. exact Ha.
Qed.

Lemma writes_bounds m ws m' a n : writes m ws m' -> is_ok (mem_read m' a n) = is_ok (mem_read m a n).
Proof.
  induction 1 as [|m w v m1 ws m' Hw _ IH]; [done|]. rewrite IH. by eapply mem_read_bounds.
Qed.

(** Words written at ascending addresses are all read back. *)
Definition ascending ws : Prop := Sorted (fun w w' => w.1 + 8 <= w'.1) ws.

Lemma ascending_apart w v ws : ascending ((w, v) :: ws) -> Forall (apart w 8) ws.
Proof.
  intros Hs. apply Sorted_StronglySorted in Hs; [|intros ? ? ?; lia].
  inversion_clear Hs as [|? ? _ Hf]. eapply Forall_impl; [exact Hf|]. unfold apart. simpl. intros. lia.
Qed.

Lemma writes_read m ws m' :
  writes m ws m' -> ascending ws -> Forall (fun w => is_u64 w.2) ws ->
  Forall (fun w => read_u64 m' w.1 = Some w.2) ws.
Proof.
  induction 1 as [|m w v m1 ws m' Hw Hws IH]; intros Hs Hv; [done|].
  apply Forall_cons in Hv as [Hv Hv']. constructor.
  - unfold read_u64. rewrite (writes_frame _ _ _ _ _ Hws) by (by eapply ascending_apart).
    pose proof (mem_read_write_same _ _ _ _ Hw) as Hr. rewrite to_le_length in Hr. simpl. rewrite Hr.
    by rewrite from_to_le64.
  - apply IH; [|done]. by inversion Hs.
Qed.
End Words.

(** ** The tables written *)

(** The tables end at [0xc000]. *)
Definition TABLES_END : Z := 0xc000.
Ltac addr := unfold TABLES_END, BOOT_GDT_OFFSET, BOOT_IDT_OFFSET, PML4_START, PDPTE_START, PDE_START, zlen in *; lia.

Section Tables.
Context {E M : Type} `{!GuestMem E M, !GuestMemLaws E M}.
Variable display_mem_error : E -> string.
Implicit Types (m : M) (ws : list (Z * Z)).

Definition low_memory m : Prop := is_ok (mem_read m 0 (Z.to_nat TABLES_END)) = true.

(** [c] returns [x], having written the words [ws] and nothing else. *)
Definition performs {A} (c : SM M VmError A) ws (x : A) : Prop :=
  forall m, low_memory m -> exists m', c m = (Ok x, m') /\ writes m ws m'.

Lemma performs_ret {A} (x : A) : performs (mret x) [] x.
Proof. intros m _. exists m. split; [done|constructor]. Qed.

Lemma performs_seq {A B} (c : SM M VmError A) (f : A -> SM M VmError B) ws ws' x y :
  performs c ws x -> performs (f x) ws' y -> performs (c ≫= f) (ws ++ ws') y.
Proof.
  intros Hc Hf m Hm. destruct (Hc m Hm) as (m1 & H1 & W1).
  destruct (Hf m1) as (m2 & H2 & W2). { unfold low_memory. by rewrite (writes_bounds _ _ _ _ _ W1). }
  exists m2. split; [by rewrite (sm_bind_ok _ _ _ _ _ H1)|]. by eapply writes_app.
Qed.

Lemma low_memory_read m a n :
  low_memory m -> 0 <= a -> a + Z.of_nat n <= TABLES_END -> exists bs, mem_read m a n = Ok bs.
Proof.
  unfold low_memory. intros Hm Ha Hn. destruct (mem_read m 0 _) as [bs|] eqn:Hr; [|done].
  pose proof (mem_read_slice _ _ _ _ (Z.to_nat a) n Hr ltac:(lia)) as Hs.
  rewrite Z2Nat.id in Hs by lia. eauto.
Qed.

Lemma performs_write context v a :
  0 <= a -> a + 8 <= TABLES_END -> performs (write_u64 display_mem_error context v a) [(a, v)] tt.
Proof.
  intros Ha Hb m Hm. destruct (low_memory_read m a 8 Hm Ha ltac:(lia)) as [bs Hr].
  destruct (mem_write_total m a (to_le 8 v) bs) as [m' Hw]; [by rewrite to_le_length|].
  exists m'. unfold write_u64, write_bytes. rewrite Hw. split; [done|]. repeat econstructor. done.
Qed.

Lemma performs_offset base off :
  0 <= base + off < TABLES_END ->
  performs (fun m => (ok_or (Backend "vm-kvm: GDT write overflow") (checked_offset m base off), m)) [] (base + off).
Proof.
  intros Ha m Hm. exists m. split; [|constructor]. unfold checked_offset.
  destruct (low_memory_read m (base + off) 1 Hm) as [bs ->]; [addr..|].
  unfold TABLES_END in Ha. by replace (base + off <? 2 ^ 64) with true by lia.
Qed.

(** Words laid out from an address. *)
Fixpoint words_from (a : Z) (vs : list Z) : list (Z * Z) :=
  match vs with [] => [] | v :: vs => (a, v) :: words_from (a + 8) vs end.

Lemma performs_gdt index table :
  0 <= index -> BOOT_GDT_OFFSET + (index + zlen table) * 8 <= TABLES_END ->
  performs (write_gdt_from display_mem_error index table) (words_from (BOOT_GDT_OFFSET + index * 8) table) tt.
Proof.
  revert index. induction table as [|e table IH]; intros index Hi Hb; [apply performs_ret|].
  unfold zlen in Hb, IH. rewrite length_cons in Hb.
  cbn [write_gdt_from words_from]. apply (performs_seq _ _ [] _ (BOOT_GDT_OFFSET + index * 8)).
  { apply performs_offset. addr. }
  apply (performs_seq _ _ [_] _ tt).
  { apply performs_write; addr. }
  replace (BOOT_GDT_OFFSET + index * 8 + 8) with (BOOT_GDT_OFFSET + (index + 1) * 8) by lia.
  apply IH; addr.
Qed.

Definition pde (index : Z) : Z := Z.lor (Z.shiftl index 21) 0x83.

Lemma performs_pdes n index :
  0 <= index -> PDE_START + (index + Z.of_nat n) * 8 <= TABLES_END ->
  performs (write_pdes display_mem_error n index) (words_from (PDE_START + index * 8) (pde <$> seqZ index (Z.of_nat n))) tt.
Proof.
  revert index. induction n as [|n IH]; intros index Hi Hb; [apply performs_ret|].
  rewrite seqZ_cons by lia. cbn [write_pdes fmap list_fmap words_from]. apply (performs_seq _ _ [_] _ tt).
  { apply performs_write; addr. }
  replace (PDE_START + index * 8 + 8) with (PDE_START + (Z.succ index) * 8) by lia.
  replace (Z.pred (Z.of_nat (S n))) with (Z.of_nat n) by lia. apply IH; addr.
Qed.

(** Every word [setup_sregs] writes, in the order written. *)
Definition boot_words : list (Z * Z) :=
  words_from BOOT_GDT_OFFSET gdt_table ++ [(BOOT_IDT_OFFSET, 0)] ++
  [(PML4_START, Z.lor PDPTE_START 0x03)] ++ [(PDPTE_START, Z.lor PDE_START 0x03)] ++
  words_from PDE_START (pde <$> seqZ 0 512).

(** The special registers it sets. *)
Definition boot_sregs (s : Sregs.t) : Sregs.t :=
  let code_seg := kvm_segment_from_gdt (gdt_entry 0xa09b 0 0xfffff) 1 in
  let data_seg := kvm_segment_from_gdt (gdt_entry 0xc093 0 0xfffff) 2 in
  let tss_seg := kvm_segment_from_gdt (gdt_entry 0x808b 0 0xfffff) 3 in
  Sregs.mk code_seg data_seg data_seg data_seg data_seg data_seg tss_seg
    (Dtable.mk BOOT_GDT_OFFSET 31) (Dtable.mk BOOT_IDT_OFFSET 7)
    (Z.lor (Z.lor (Sregs.cr0 s) X86_CR0_PE) (Z.lor X86_CR0_PG X86_CR0_ET)) PML4_START
    (Z.lor (Sregs.cr4 s) X86_CR4_PAE) (Z.lor (Sregs.efer s) (Z.lor EFER_LME EFER_LMA)).

Lemma performs_boot s :
  performs (s1 ← configure_segments_and_sregs display_mem_error s; setup_page_tables display_mem_error s1)
    boot_words (boot_sregs s).
Proof.
  unfold boot_words. rewrite app_assoc. eapply performs_seq.
  - unfold configure_segments_and_sregs. eapply performs_seq; [apply performs_gdt; [done|vm_compute; discriminate]|].
    rewrite <- (app_nil_r [(BOOT_IDT_OFFSET, 0)]).
    eapply performs_seq; [apply performs_write; addr|]. apply performs_ret.
  - eapply performs_seq; [apply performs_write; addr|].
    eapply performs_seq; [apply performs_write; addr|].
    rewrite <- (app_nil_r (words_from PDE_START _)).
    eapply performs_seq; [apply (performs_pdes 512 0); addr|]. apply performs_ret.
Qed.
End Tables.

Lemma boot_words_ascending : ascending boot_words.
Proof.
  assert (Hb : forall ws, (fix go ws := match ws with
             | (a, _) :: (((b, _) :: _) as ws) => (a + 8 <=? b) && go ws | _ => true end) ws = true -> ascending ws).
  { induction ws as [|[a v] ws IH]; [constructor|]. destruct ws as [|[b v'] ws]; [repeat constructor|].
    intros [H1 H2]%andb_true_iff. constructor; [by apply IH|]. constructor. simpl. lia. }
  apply Hb. vm_compute. reflexivity.
Qed.

Lemma boot_words_u64 : Forall (fun w => is_u64 w.2) boot_words.
Proof.
  apply Forall_forall. intros w Hw. assert (H : forallb (fun w => (0 <=? w.2) && (w.2 <? 2 ^ 64)) boot_words = true)
    by (vm_compute; reflexivity).
  rewrite forallb_forall in H. specialize (H w). rewrite <- list_elem_of_In in H. specialize (H Hw).
  unfold is_u64. lia.
Qed.

Lemma words_from_lookup a vs i v : vs !! i = Some v -> (a + 8 * Z.of_nat i, v) ∈ words_from a vs.
Proof.
  revert a i. induction vs as [|v' vs IH]; intros a [|i] Hi; simplify_eq/=.
  - rewrite Z.mul_0_r, Z.add_0_r. apply list_elem_of_here.
  - apply list_elem_of_further. replace (a + 8 * Z.of_nat (S i)) with (a + 8 + 8 * Z.of_nat i) by lia. auto.
Qed.

(** ** Address translation

    The four-level walk of 64-bit paging: the entry of each level is indexed by
    nine bits of the address, must be present (bit 0), and maps a large page
    where bit 7 is set. *)

Section Walk.
Context {E M : Type} `{!GuestMem E M}.

Definition entry_addr (e : Z) : Z := Z.land e 0x000ffffffffff000.

Definition table_entry (m : M) (base va shift : Z) : option Z :=
  e ← read_u64 m (base + 8 * Z.land (Z.shiftr va shift) 0x1ff);
  if Z.testbit e 0 then Some e else None.

Definition walk (m : M) (cr3 va : Z) : option Z :=
  pml4e ← table_entry m (entry_addr cr3) va 39;
  pdpte ← table_entry m (entry_addr pml4e) va 30;
  if Z.testbit pdpte 7 then Some (Z.land pdpte 0x000fffffc0000000 + Z.land va 0x3fffffff)
  else
    pde ← table_entry m (entry_addr pdpte) va 21;
    if Z.testbit pde 7 then Some (Z.land pde 0x000fffffffe00000 + Z.land va 0x1fffff)
    else
      pte ← table_entry m (entry_addr pde) va 12;
      Some (entry_addr pte + Z.land va 0xfff).

(** The index of a level, for an address below the reach of [n] lower bits. *)
Lemma level_index va shift : 0 <= va -> 0 <= shift ->
  Z.land (Z.shiftr va shift) 0x1ff = (va / 2 ^ shift) mod 2 ^ 9.
Proof. intros. rewrite Z.shiftr_div_pow2 by lia. apply (Z.land_ones _ 9). lia. Qed.

Lemma pde_fields i : 0 <= i < 512 ->
  Z.land (pde i) 0x000fffffffe00000 = i * 2 ^ 21 /\ Z.testbit (pde i) 7 = true /\ Z.testbit (pde i) 0 = true.
Proof.
  intros Hi. assert (H : forallb (fun i => (Z.land (pde i) 0x000fffffffe00000 =? i * 2 ^ 21)
    && Z.testbit (pde i) 7 && Z.testbit (pde i) 0) (seqZ 0 512) = true) by (vm_compute; reflexivity).
  rewrite forallb_forall in H. specialize (H i). rewrite <- list_elem_of_In, elem_of_seqZ in H.
  specialize (H ltac:(lia)). apply andb_true_iff in H as [[H1 H2]%andb_true_iff H3]. split_and!; [lia|done..].
Qed.

Lemma pde_word i : 0 <= i < 512 -> (PDE_START + 8 * i, pde i) ∈ boot_words.
Proof.
  intros Hi. unfold boot_words. rewrite !elem_of_app. do 4 right.
  pose proof (words_from_lookup PDE_START (pde <$> seqZ 0 512) (Z.to_nat i) (pde i)) as H.
  rewrite Z2Nat.id in H by lia. apply H. rewrite list_lookup_fmap, lookup_seqZ_lt by lia. simpl.
  do 2 f_equal. lia.
Qed.

Lemma boot_walk_identity m va :
  Forall (fun w => read_u64 m w.1 = Some w.2) boot_words -> 0 <= va < 2 ^ 30 -> walk m PML4_START va = Some va.
Proof.
  rewrite Forall_forall. intros Hw Hva.
  assert (Hpml4 : read_u64 m PML4_START = Some (Z.lor PDPTE_START 0x03)).
  { apply (Hw (_, _)). unfold boot_words. rewrite !elem_of_app. do 2 right. left. by apply list_elem_of_singleton. }
  assert (Hpdpt : read_u64 m PDPTE_START = Some (Z.lor PDE_START 0x03)).
  { apply (Hw (_, _)). unfold boot_words. rewrite !elem_of_app. do 3 right. left. by apply list_elem_of_singleton. }
  set (i := va / 2 ^ 21). assert (Hi : 0 <= i < 512) by (unfold i; split; [apply Z.div_pos|apply Z.div_lt_upper_bound]; lia).
  assert (Hpde : read_u64 m (PDE_START + 8 * i) = Some (pde i)).
  { by apply (Hw (_, _)), pde_word. }
  destruct (pde_fields i Hi) as (Ha & H7 & H0).
  assert (Hp4 : table_entry m (entry_addr PML4_START) va 39 = Some (Z.lor PDPTE_START 0x03)).
  { unfold table_entry. rewrite level_index, (Z.div_small va (2 ^ 39)) by lia.
    change (entry_addr PML4_START + _) with PML4_START. rewrite Hpml4. reflexivity. }
  assert (Hp3 : table_entry m (entry_addr (Z.lor PDPTE_START 0x03)) va 30 = Some (Z.lor PDE_START 0x03)).
  { unfold table_entry. rewrite level_index, (Z.div_small va (2 ^ 30)) by lia.
    change (entry_addr (Z.lor PDPTE_START 3) + _) with PDPTE_START. rewrite Hpdpt. reflexivity. }
  assert (Hp2 : table_entry m (entry_addr (Z.lor PDE_START 0x03)) va 21 = Some (pde i)).
  { unfold table_entry. rewrite level_index by lia. fold i. rewrite (Z.mod_small i) by lia.
    change (entry_addr (Z.lor PDE_START 3)) with PDE_START. rewrite Hpde. cbn [mbind option_bind]. by rewrite H0. }
  unfold walk. rewrite Hp4. cbn [mbind option_bind]. rewrite Hp3. cbn [mbind option_bind].
  change (Z.testbit (Z.lor PDE_START 3) 7) with false. cbn iota. rewrite Hp2. cbn [mbind option_bind]. change 0x1fffff with (Z.ones 21).
  rewrite H7, Ha, (Z.land_ones va 21) by lia. f_equal. unfold i.
  pose proof (Z.div_mod va (2 ^ 21)). lia.
Qed.
End Walk.

(** ** The boot vCPU *)

(** Long mode is on, with paging, and the code segment is a 64-bit one. *)
Definition long_mode (s : Sregs.t) : Prop :=
  Z.testbit (Sregs.cr0 s) 0 = true /\ Z.testbit (Sregs.cr0 s) 31 = true /\ Z.testbit (Sregs.cr4 s) 5 = true /\
  Z.testbit (Sregs.efer s) 8 = true /\ Z.testbit (Sregs.efer s) 10 = true /\
  Segment.l (Sregs.cs s) = 1 /\ Segment.db (Sregs.cs s) = 0 /\ Segment.present (Sregs.cs s) = 1 /\
  Segment.s (Sregs.cs s) = 1 /\ Z.testbit (Segment.type_ (Sregs.cs s)) 3 = true.

Definition segments (s : Sregs.t) : list Segment.t :=
  [Sregs.cs s; Sregs.ds s; Sregs.es s; Sregs.fs s; Sregs.gs s; Sregs.ss s; Sregs.tr s].

Section BootVcpu.
Context {E M : Type} `{!GuestMem E M, !GuestMemLaws E M} {CpuId V : Type} `{!VcpuFd CpuId V}.
Variable display_mem_error : E -> string.

(** A segment register holds what the table in memory holds at its selector. *)
Definition segment_in_table (m : M) (s : Sregs.t) (seg : Segment.t) : Prop :=
  exists e, read_u64 m (Dtable.base (Sregs.gdt s) + Segment.selector seg) = Some e /\
    seg = kvm_segment_from_gdt e (Segment.selector seg / 8) /\
    Segment.selector seg + 7 <= Dtable.limit (Sregs.gdt s).

Lemma boot_segments m s0 :
  Forall (fun w => read_u64 m w.1 = Some w.2) boot_words ->
  Forall (segment_in_table m (boot_sregs s0)) (segments (boot_sregs s0)).
Proof.
  rewrite Forall_forall. intros Hw.
  assert (Hg : forall (i : nat) e, gdt_table !! i = Some e -> read_u64 m (BOOT_GDT_OFFSET + 8 * Z.of_nat i) = Some e).
  { intros i e Hi. apply (Hw (BOOT_GDT_OFFSET + 8 * Z.of_nat i, e)). unfold boot_words. rewrite elem_of_app.
    left. exact (words_from_lookup BOOT_GDT_OFFSET gdt_table i e Hi). }
  assert (Hs : forall (i : nat) e, gdt_table !! i = Some e -> 8 * Z.of_nat i + 7 <= 31 ->
            segment_in_table m (boot_sregs s0) (kvm_segment_from_gdt e (Z.of_nat i))).
  { intros i e Hi Hl. exists e. simpl. replace (Z.of_nat i * 8) with (8 * Z.of_nat i) by lia.
    split_and!; [by apply Hg| |done]. f_equal. rewrite Z.mul_comm. by rewrite Z.div_mul. }
  pose proof (Hs 1%nat _ eq_refl ltac:(lia)). pose proof (Hs 2%nat _ eq_refl ltac:(lia)).
  pose proof (Hs 3%nat _ eq_refl ltac:(lia)). by repeat constructor.
Qed.

Lemma boot_long_mode s0 : long_mode (boot_sregs s0).
Proof.
  assert (Hr : forall a b i, Z.testbit b i = true -> Z.testbit (Z.lor a b) i = true)
    by (intros a b i H; rewrite Z.lor_spec, H; apply orb_true_r).
  unfold long_mode, boot_sregs. cbn [Sregs.cr0 Sregs.cr4 Sregs.efer Sregs.cs].
  split_and!; try reflexivity; try (apply Hr; reflexivity). rewrite Z.lor_spec, Hr; reflexivity.
Qed.

(** Where [setup_sregs] may write. *)
Lemma boot_words_apart a n :
  a + Z.of_nat n <= 0x500 \/ 0x528 <= a /\ a + Z.of_nat n <= 0x9000 \/ 0xc000 <= a ->
  Forall (apart a n) boot_words.
Proof.
  intros Ha. apply Forall_forall. intros w Hw.
  assert (H : forallb (fun w => (0x500 <=? w.1) && (w.1 <=? 0x520) || (0x9000 <=? w.1) && (w.1 <=? 0xbff8)) boot_words = true)
    by (vm_compute; reflexivity).
  rewrite forallb_forall in H. specialize (H w). rewrite <- list_elem_of_In in H. specialize (H Hw).
  unfold apart. lia.
Qed.

(** C6: The vCPU starts in 64-bit mode: in a guest with memory below [0xc000], on
    a vCPU that takes the registers it is given, [setup_sregs] succeeds and leaves
    long mode and paging on with a 64-bit code segment; every segment register
    agrees with the descriptor table in guest memory, within its limit; the page
    tables translate each address of the first gigabyte to itself; and guest
    memory outside the tables is as it was. *)
Theorem boot_enters_long_mode (m : M) (v : V) s0 :
  low_memory m -> get_sregs CpuId v = Ok s0 ->
  (forall s, exists v', set_sregs CpuId s v = (Ok tt, v') /\ get_sregs CpuId v' = Ok s) ->
  exists m' v' s, setup_sregs (CpuId := CpuId) display_mem_error (m, v) = (Ok tt, (m', v')) /\
    get_sregs CpuId v' = Ok s /\ long_mode s /\
    Forall (segment_in_table m' s) (segments s) /\
    (forall va, 0 <= va < 2 ^ 30 -> walk m' (Sregs.cr3 s) va = Some va) /\
    (forall a n, a + Z.of_nat n <= 0x500 \/ 0x528 <= a /\ a + Z.of_nat n <= 0x9000 \/ 0xc000 <= a ->
      mem_read m' a n = mem_read m a n).
Proof.
  intros Hm Hg Hs. destruct (performs_boot display_mem_error s0 m Hm) as (m' & Hp & W).
  destruct (Hs (boot_sregs s0)) as (v' & Hset & Hget). exists m', v', (boot_sregs s0).
  pose proof (writes_read _ _ _ W boot_words_ascending boot_words_u64) as Hw. split_and!.
  - unfold setup_sregs, ioctl. by rewrite Hg, Hp, Hset.
  - done.
  - apply boot_long_mode.
  - by apply boot_segments.
  - intros va Hva. by apply boot_walk_identity.
  - intros a n Ha. eapply writes_frame; [done|]. by apply boot_words_apart.
Qed.
End BootVcpu.

(** ** The guest's memory map *)

(** The map handed to the kernel: the entries in use. *)
Definition e820 {H} (params : BootParams.t H) : list E820Entry.t :=
  take (Z.to_nat (BootParams.e820_entries params)) (BootParams.e820_table params).

Definition covers (a : Z) (e : E820Entry.t) : Prop := E820Entry.addr e <= a < E820Entry.addr e + E820Entry.size e.

Lemma to_u32_ok message z r : to_u32 message z = Ok r -> z < 2 ^ 32 /\ r = z.
Proof. unfold to_u32. destruct (Z.ltb_spec z (2 ^ 32)); intros [=]; by subst. Qed.

Section MemoryMap.
Context {H : Type}.
Implicit Types (params : BootParams.t H).

(** Room for [n] more entries. *)
Definition e820_room params (n : Z) : Prop :=
  0 <= BootParams.e820_entries params /\ BootParams.e820_entries params + n <= zlen (BootParams.e820_table params).

Lemma add_e820_ok params addr size ty n :
  e820_room params (n + 1) -> 0 <= n ->
  exists params', add_e820_entry params addr size ty = Ok params' /\ e820_room params' n /\
    BootParams.hdr params' = BootParams.hdr params /\ e820 params' = e820 params ++ [E820Entry.mk addr size ty].
Proof.
  intros [H0 H1] Hn. unfold add_e820_entry, e820_room, zlen, e820 in *. destruct (Z.leb_spec (Z.of_nat (length (BootParams.e820_table params))) (BootParams.e820_entries params)); [lia|].
  eexists. split_and!; [done|simpl; lia|simpl; rewrite length_insert; lia|done|]. simpl.
  replace (Z.to_nat (BootParams.e820_entries params + 1)) with (S (Z.to_nat (BootParams.e820_entries params))) by lia.
  erewrite take_S_r by (apply list_lookup_insert_eq; lia). by rewrite take_insert_ge by lia.
Qed.

Definition memory_map (mem_end : Z) : list E820Entry.t :=
  [E820Entry.mk 0 SYSTEM_MEM_START E820_RAM; E820Entry.mk SYSTEM_MEM_START SYSTEM_MEM_SIZE E820_RESERVED;
   E820Entry.mk HIMEM_START (mem_end - HIMEM_START) E820_RAM].

Lemma add_memory_map_ok params mem_end :
  HIMEM_START < mem_end -> e820_room params 3 ->
  exists params', add_memory_map params mem_end = Ok params' /\
    BootParams.hdr params' = BootParams.hdr params /\ e820 params' = e820 params ++ memory_map mem_end.
Proof.
  intros Hm Hr. unfold add_memory_map. apply Z.ltb_lt in Hm. rewrite Hm.
  destruct (add_e820_ok params 0 SYSTEM_MEM_START E820_RAM 2) as (p1 & -> & R1 & H1 & E1); [done..|].
  cbn [mbind result_bind].
  destruct (add_e820_ok p1 SYSTEM_MEM_START SYSTEM_MEM_SIZE E820_RESERVED 1) as (p2 & -> & R2 & H2 & E2); [done..|].
  cbn [mbind result_bind].
  destruct (add_e820_ok p2 HIMEM_START (mem_end - HIMEM_START) E820_RAM 0) as (p3 & -> & R3 & H3 & E3); [done..|].
  exists p3. split; [done|]. split; [congruence|]. by rewrite E3, E2, E1, <- !app_assoc.
Qed.

(** The map of a guest whose memory reaches past the legacy hole, and the
    pointers of the header. *)
Lemma linux_boot_params_ok (dh : SetupHeader.t H) mem_end hdr cmdline size initrd params :
  HIMEM_START < mem_end ->
  linux_boot_params dh mem_end hdr cmdline size initrd = Ok params ->
  e820 params = memory_map mem_end /\
  SetupHeader.cmd_line_ptr (BootParams.hdr params) = cmdline /\
  SetupHeader.cmdline_size (BootParams.hdr params) = size /\
  (forall addr len, initrd = Some (addr, len) ->
    SetupHeader.ramdisk_image (BootParams.hdr params) = addr /\ SetupHeader.ramdisk_size (BootParams.hdr params) = len).
Proof.
  intros Hm. unfold linux_boot_params.
  destruct (to_u32 _ cmdline) as [c|] eqn:Hc; [|done]. apply to_u32_ok in Hc as [_ ->].
  cbn [mbind result_bind]. destruct (to_u32 _ size) as [c'|] eqn:Hc'; [|done]. apply to_u32_ok in Hc' as [_ ->].
  cbn [mbind result_bind]. intros Hp.
  match type of Hp with ?r ≫= _ = _ => destruct r as [[image len]|] eqn:Hi; [|done] end. cbn [mbind result_bind] in Hp.
  match type of Hp with add_memory_map ?p _ = _ => destruct (add_memory_map_ok p mem_end) as (p' & Hp' & Hh & He) end;
    [done| |].
  { split; [done|]. by vm_compute. }
  rewrite Hp' in Hp. injection Hp as <-. rewrite Hh, He. split_and!; [done..|]. intros addr len' ->.
  destruct (to_u32 _ addr) as [a|] eqn:Ha; [|done]. apply to_u32_ok in Ha as [_ ->].
  cbn [mbind result_bind] in Hi. destruct (to_u32 _ len') as [l|] eqn:Hl; [|done]. apply to_u32_ok in Hl as [_ ->].
  by injection Hi as <- <-.
Qed.
End MemoryMap.

(** ** The initramfs *)

(** [raw & !(PAGE_SIZE - 1)] *)
Lemma page_floor raw : 0 <= raw < 2 ^ 64 ->
  Z.land raw (Z.lxor (PAGE_SIZE - 1) (2 ^ 64 - 1)) = raw / 4096 * 4096.
Proof.
  intros Hr. change (Z.lxor (PAGE_SIZE - 1) (2 ^ 64 - 1)) with (mask 12 52).
  change 4096 with (2 ^ 12). rewrite <- (Z.shiftr_div_pow2 raw 12), <- (Z.shiftl_mul_pow2 _ 12) by lia.
  apply Z.bits_inj'. intros i Hi. rewrite Z.land_spec, mask_testbit, Z.shiftl_spec by lia.
  destruct (Z.lt_ge_cases i 12); [by rewrite (Z.testbit_neg_r _ (i - 12)) by lia; decide_bounds|].
  rewrite Z.shiftr_spec by lia. replace (i - 12 + 12) with i by lia.
  destruct (Z.lt_ge_cases i 64); [by decide_bounds|]. rewrite (bits_above 64) by lia. done.
Qed.

Section Initrd.
Context {E M : Type} `{!GuestMem E M, !GuestMemLaws E M, !GuestRam M} {H : Type}.
Variable display_mem_error : E -> string.
Variable default_header : SetupHeader.t H.

Lemma load_initrd_ok (m m' : M) path bs addr size :
  0 <= last_addr m < 2 ^ 64 - 1 ->
  load_initrd display_mem_error path (Ok bs) m = (Ok (addr, size), m') ->
  size = zlen bs /\ 0 < size /\ addr mod 4096 = 0 /\ HIMEM_START <= addr /\
  addr + size <= last_addr m + 1 < addr + size + 4096 /\
  mem_write m addr bs = (Ok tt, m').
Proof.
  intros Hl. unfold load_initrd. pose proof (Nat2Z.is_nonneg (length bs)). unfold zlen in *.
  destruct (Z.eqb_spec (Z.of_nat (length bs)) 0); [done|].
  destruct (Z.ltb_spec (last_addr m + 1) (Z.of_nat (length bs))); [done|].
  rewrite page_floor by lia. set (raw := last_addr m + 1 - Z.of_nat (length bs)).
  destruct (Z.ltb_spec (raw / 4096 * 4096) HIMEM_START); [done|]. unfold write_bytes.
  destruct (mem_write m _ bs) as [[[]|] m1] eqn:Hw; intros [=]; subst.
  pose proof (Z.div_mod raw 4096). pose proof (Z.mod_pos_bound raw 4096). split_and!; try done; try lia.
  apply Z.mod_mul. lia.
Qed.

(** [params] maps each address below [mem_end] in exactly one entry, as usable
    memory outside the legacy hole, and nothing else. *)
Definition maps_memory (params : BootParams.t H) (mem_end : Z) : Prop :=
  (forall a, 0 <= a < mem_end -> exists e, e ∈ e820 params /\ covers a e /\
    (forall e', e' ∈ e820 params -> covers a e' -> e' = e) /\
    (E820Entry.type_ e = E820_RAM <-> a < SYSTEM_MEM_START \/ HIMEM_START <= a)) /\
  (forall e a, e ∈ e820 params -> covers a e -> 0 <= a < mem_end).

Lemma memory_map_maps params mem_end :
  HIMEM_START < mem_end -> e820 params = memory_map mem_end -> maps_memory params mem_end.
Proof.
  unfold maps_memory, HIMEM_START. intros Hm ->.
  assert (Hc : forall a e, e ∈ memory_map mem_end -> covers a e -> 0 <= a < mem_end /\
    e = if a <? SYSTEM_MEM_START then E820Entry.mk 0 SYSTEM_MEM_START E820_RAM
        else if a <? HIMEM_START then E820Entry.mk SYSTEM_MEM_START SYSTEM_MEM_SIZE E820_RESERVED
        else E820Entry.mk HIMEM_START (mem_end - HIMEM_START) E820_RAM).
  { intros a e He. unfold memory_map in He. rewrite !elem_of_cons, elem_of_nil in He.
    unfold covers, SYSTEM_MEM_SIZE, SYSTEM_MEM_START, HIMEM_START in *.
    destruct He as [->|[->|[->|[]]]]; simpl; intros; (split; [lia|]); by decide_bounds. }
  split; [|intros e a He Ha; by destruct (Hc a e He Ha)]. intros a Ha.
  eexists. split_and!; [| |intros e' He' Hc'; by apply (Hc a e')|];
    unfold memory_map, covers, SYSTEM_MEM_SIZE, SYSTEM_MEM_START, HIMEM_START, E820_RAM, E820_RESERVED in *;
    rewrite ?elem_of_cons, ?elem_of_nil;
    destruct (Z.ltb_spec a 0x9fc00); [|destruct (Z.ltb_spec a 0x100000)| |destruct (Z.ltb_spec a 0x100000)
      | |destruct (Z.ltb_spec a 0x100000)]; simpl; first [tauto|lia].
Qed.

(** The memory a Linux guest boots with: whenever the initramfs is loaded and
    the boot parameters are built, the e820 map tiles guest memory exactly (every
    address in one entry, usable outside the legacy hole, none beyond the end),
    the header points at the command line and the initramfs without truncation,
    and the initramfs sits whole, page-aligned and as high as it fits, in usable
    memory above 1 MiB, reads back as the file, with all memory below untouched. *)
Theorem linux_boot_memory (m m' : M) path bs addr size hdr cmdline cmdline_size params :
  KERNEL_LOAD_ADDR <= last_addr m < 2 ^ 64 - 1 ->
  load_initrd display_mem_error path (Ok bs) m = (Ok (addr, size), m') ->
  linux_boot_params default_header (last_addr m + 1) hdr cmdline cmdline_size (Some (addr, size)) = Ok params ->
  maps_memory params (last_addr m + 1) /\
  SetupHeader.cmd_line_ptr (BootParams.hdr params) = cmdline /\
  SetupHeader.cmdline_size (BootParams.hdr params) = cmdline_size /\
  SetupHeader.ramdisk_image (BootParams.hdr params) = addr /\
  SetupHeader.ramdisk_size (BootParams.hdr params) = zlen bs /\
  addr mod 4096 = 0 /\ HIMEM_START <= addr /\ addr + size <= last_addr m + 1 < addr + size + 4096 /\
  mem_read m' addr (length bs) = Ok bs /\
  (forall a n, a + Z.of_nat n <= addr -> mem_read m' a n = mem_read m a n).
Proof.
  unfold KERNEL_LOAD_ADDR. intros Hl Hi Hp.
  destruct (load_initrd_ok m m' path bs addr size ltac:(lia) Hi) as (Hs & Hpos & Ha & Hlo & Hhi & Hw).
  assert (Hm : HIMEM_START < last_addr m + 1) by (unfold HIMEM_START; lia).
  destruct (linux_boot_params_ok _ _ _ _ _ _ _ Hm Hp) as (He & Hc & Hcs & Hr).
  destruct (Hr _ _ eq_refl) as [Hri Hrs]. split_and!; try done; try lia.
  - apply memory_map_maps; done.
  - by eapply mem_read_write_same.
  - intros a n Han. eapply mem_read_write_frame; [done|]. by right.
Qed.
End Initrd.

(** ** Concrete machines *)

Definition slice_ram : GuestRam SliceGuestMemory.t := {|
  ram_alloc n := Ok (SliceGuestMemory.mk 0 (replicate (Z.to_nat n) (byte_of 0)));
  last_addr m := SliceGuestMemory.base_addr m + zlen (SliceGuestMemory.contents m) - 1;
|}.

(** A vCPU that keeps the registers it is given. *)
Definition plain_vcpu : VcpuFd unit Sregs.t := {|
  set_cpuid2 _ s := (Ok tt, s);
  set_fpu _ s := (Ok tt, s);
  set_regs _ s := (Ok tt, s);
  set_sregs s _ := (Ok tt, s);
  get_sregs s := Ok s;
|}.

Definition reset_sregs : Sregs.t :=
  let seg := Segment.mk 0 0xffff 0 0x13 1 0 0 1 0 0 0 0 in
  Sregs.mk seg seg seg seg seg seg seg (Dtable.mk 0 0xffff) (Dtable.mk 0 0xffff) 0x60000010 0 0 0.

Lemma boot_enters_long_mode_witness :
  let m := SliceGuestMemory.mk 0 (replicate (Z.to_nat 0xc000) (byte_of 0)) in
  exists m' v' s, @setup_sregs _ _ _ unit _ plain_vcpu (fun _ => "") (m, reset_sregs) = (Ok tt, (m', v')) /\
    @get_sregs unit _ plain_vcpu v' = Ok s /\ long_mode s /\ walk m' (Sregs.cr3 s) 0x201234 = Some 0x201234.
Proof.
  intros m. assert (Hm : low_memory m).
  { unfold low_memory, mem_read, SliceGuestMemory.guest_mem, SliceGuestMemory.read, SliceGuestMemory.checked_bounds, m, zlen.
    cbn [SliceGuestMemory.contents SliceGuestMemory.base_addr]. rewrite length_replicate, !Z2Nat.id by done. reflexivity. }
  destruct (@boot_enters_long_mode _ _ _ _ unit _ plain_vcpu (fun _ => "") m reset_sregs reset_sregs Hm eq_refl)
    as (m' & v' & s & H1 & H2 & H3 & _ & H4 & _).
  { intros s. exists s. split; reflexivity. }
  exists m', v', s. split; [exact H1|]. split; [exact H2|]. split; [exact H3|]. apply H4. clear. lia.
Defined.

Lemma linux_boot_memory_witness :
  let m := SliceGuestMemory.mk 0x200000 (replicate 64 (byte_of 0)) in
  exists m' (params : BootParams.t unit),
    @load_initrd _ _ _ slice_ram (fun _ => "") "initrd" (Ok [byte_of 7; byte_of 8]) m = (Ok (0x200000, 2), m') /\
    maps_memory params 0x200040 /\ SetupHeader.ramdisk_image (BootParams.hdr params) = 0x200000 /\
    mem_read m' 0x200000 2 = Ok [byte_of 7; byte_of 8].
Proof.
  intros m. set (dh := SetupHeader.mk 0 0 0 0 0 0 0 0 tt).
  destruct (@load_initrd _ _ _ slice_ram (fun _ => "") "initrd" (Ok [byte_of 7; byte_of 8]) m) as [r m'] eqn:Hl.
  assert (r = Ok (0x200000, 2)) as -> by (change r with (fst (r, m')); rewrite <- Hl; reflexivity).
  destruct (linux_boot_params dh 0x200040 None CMDLINE_START 10 (Some (0x200000, 2))) as [params|] eqn:Hp; [|done].
  exists m', params.
  destruct (@linux_boot_memory _ _ _ _ slice_ram _ (fun _ => "") dh m m' "initrd" [byte_of 7; byte_of 8] 0x200000 2
    None CMDLINE_START 10 params ltac:(vm_compute; split; congruence) Hl Hp) as (Hm & _ & _ & Hr & _ & _ & _ & _ & Hb & _).
  split_and!; [done|exact Hm|exact Hr|exact Hb].
Defined.

(** The floor of the initramfs is 1 MiB, below the kernel's load address: in an
    8 MiB guest an initramfs of 7 MiB is placed at 1 MiB, over the kernel. *)
Lemma initrd_may_cover_kernel {E M} `{!GuestMem E M, !GuestMemLaws E M, !GuestRam M} dme (m : M) path bs :
  last_addr m + 1 = 0x800000 -> zlen bs = 0x700000 -> is_ok (mem_read m 0x100000 (length bs)) = true ->
  exists m', load_initrd dme path (Ok bs) m = (Ok (HIMEM_START, zlen bs), m') /\
    HIMEM_START < KERNEL_LOAD_ADDR < HIMEM_START + zlen bs.
Proof.
  intros Hm Hs Hr. destruct (mem_read m 0x100000 (length bs)) as [bs'|] eqn:Hr'; [|done].
  destruct (mem_write_total _ _ _ _ Hr') as [m' Hw]. exists m'. unfold load_initrd, write_bytes.
  rewrite Hm, Hs. change (_ =? 0) with false. change (0x800000 <? 0x700000) with false.
  change (Z.land _ _) with HIMEM_START. change (HIMEM_START <? HIMEM_START) with false. cbn iota zeta.
  change HIMEM_START with 0x100000 at 1. rewrite Hw. split; [done|]. unfold HIMEM_START, KERNEL_LOAD_ADDR. lia.
Qed.
