(* ===== verification/VcpuThread.v ===== *)
(** * The vCPU thread and its controller ([crates/vm-kvm/src/lib.rs])

    A guest runs on one thread ([run_vcpu_loop]); the hypervisor stops it
    ([stop_vm]) and pauses it for a snapshot ([pause_and_take_state],
    [resume_vcpu]) through two atomic flags, a mutex-guarded slot with a condition
    variable, and a signal that interrupts the [KVM_RUN] ioctl. Calls of the
    controller are serialised by the hypervisor's own lock, so the system is one
    thread and one controller; it is an executable semantics of their atomic
    actions under an arbitrary schedule. Each access of an atomic flag, each
    critical section of the slot between two waits, and each delivery of the
    signal is one action.

    A signal handler that does nothing is consumed wherever it arrives outside
    [KVM_RUN]. A condition variable wakes only who already waits, or spuriously. *)

From Stdlib Require Import String.
From stdpp Require Import relations.
From S2P Require Import Prelude VmCore.

Inductive holder := Thread | Controller.

#[global] Instance holder_eq_dec : EqDecision holder.
Proof. solve_decision. Defined.

Section Handshake.
(** The architectural state of the vCPU, guest memory, and a captured state. *)
Context {A M C : Type}.
(** [VcpuState::capture]: the state, or the error of an ioctl. *)
Variable capture : A -> result string C.

(** Where the thread is in [run_vcpu_loop] and [pause_and_capture]. *)
Inductive tpc :=
  | TTop                               (* before the test of [stop] *)
  | TPauseCheck                        (* before the test of [pause] *)
  | TEnter                             (* before [KVM_RUN] *)
  | TGuest                             (* in [KVM_RUN] *)
  | TCaptured (c : result string C)    (* captured, before locking the slot *)
  | TTest                              (* slot locked, before the test of the wait loop *)
  | TDoze                              (* slot locked, about to wait *)
  | TAsleep                            (* waiting *)
  | TWoken                             (* woken, before locking the slot again *)
  | TLeave                             (* slot locked and cleared, before clearing [pause] *)
  | TAfter                             (* before the test of [stop] after a pause *)
  | TDone (r : result VmError unit).   (* returned *)

(** Where the controller is in [snapshot] or [stop_vm]. *)
Inductive cpc :=
  | CIdle
  | CKick                              (* [pause] set, before the signal *)
  | CLock                              (* signalled, before locking the slot *)
  | CLoop                              (* slot locked, before the test of the wait loop *)
  | CAsleep                            (* waiting with a timeout *)
  | CWoken                             (* woken, before locking the slot again *)
  | CTimed                             (* timed out, before locking the slot again *)
  | CHold (c : C)                      (* state taken: machine and memory are captured *)
  | CStop                              (* [stop] set, before the notification *)
  | CNotified                          (* notified, before the signal *)
  | CJoin                              (* signalled, joining the thread *)
  | CJoined (r : result VmError unit)
  | CFailed.                           (* the signal could not be sent: the handle is dropped *)

Record state : Type := mk {
  stop : bool;
  pause : bool;
  captured : option (result string C);
  parked : bool;
  resume : bool;
  lock : option holder;
  kick : bool;                         (* a signal not yet delivered *)
  thread : tpc;
  ctl : cpc;
  arch : A;
  mem : M;
}.

Definition init (a : A) (m : M) : state := mk false false None false false None false TTop CIdle a m.

Definition set_thread (t : tpc) (s : state) : state :=
  mk (stop s) (pause s) (captured s) (parked s) (resume s) (lock s) (kick s) t (ctl s) (arch s) (mem s).
Definition set_ctl (c : cpc) (s : state) : state :=
  mk (stop s) (pause s) (captured s) (parked s) (resume s) (lock s) (kick s) (thread s) c (arch s) (mem s).
Definition set_lock (l : option holder) (s : state) : state :=
  mk (stop s) (pause s) (captured s) (parked s) (resume s) l (kick s) (thread s) (ctl s) (arch s) (mem s).
Definition set_slot (c : option (result string C)) (p r : bool) (s : state) : state :=
  mk (stop s) (pause s) c p r (lock s) (kick s) (thread s) (ctl s) (arch s) (mem s).
Definition set_pause (b : bool) (s : state) : state :=
  mk (stop s) b (captured s) (parked s) (resume s) (lock s) (kick s) (thread s) (ctl s) (arch s) (mem s).
Definition set_stop (s : state) : state :=
  mk true (pause s) (captured s) (parked s) (resume s) (lock s) (kick s) (thread s) (ctl s) (arch s) (mem s).
Definition set_kick (b : bool) (s : state) : state :=
  mk (stop s) (pause s) (captured s) (parked s) (resume s) (lock s) b (thread s) (ctl s) (arch s) (mem s).
Definition set_guest (a : A) (m : M) (s : state) : state :=
  mk (stop s) (pause s) (captured s) (parked s) (resume s) (lock s) (kick s) (thread s) (ctl s) a m.

(** [notify_all]: whoever waits is woken. *)
Definition notify_all (s : state) : state :=
  let s := match thread s with TAsleep => set_thread TWoken s | _ => s end in
  match ctl s with CAsleep => set_ctl CWoken s | _ => s end.

(** Take the slot's lock, if it is free. *)
Definition acquire (h : holder) (s : state) : option state :=
  match lock s with None => Some (set_lock (Some h) s) | Some _ => None end.
Definition release (s : state) : state := set_lock None s.

(** ** The thread *)

(** The thread's own next action; inside the guest it has none. *)
Definition thread_next (s : state) : option state :=
  match thread s with
  | TTop => Some (set_thread (if stop s then TDone (Ok tt) else TPauseCheck) s)
  | TPauseCheck => Some (set_thread (if pause s then TCaptured (capture (arch s)) else TEnter) s)
  | TEnter => Some (set_thread TGuest s)
  | TCaptured c =>
      s ← acquire Thread s;
      Some (set_thread TTest (notify_all (set_slot (Some c) true (resume s) s)))
  | TTest =>
      if resume s || stop s then Some (set_thread TLeave (set_slot None false false s))
      else Some (set_thread TDoze s)
  | TDoze => Some (set_thread TAsleep (release s))
  | TWoken => s ← acquire Thread s; Some (set_thread TTest s)
  | TLeave => Some (set_thread TAfter (release (set_pause false s)))
  | TAfter => Some (set_thread (if stop s then TDone (Ok tt) else TTop) s)
  | TGuest | TAsleep | TDone _ => None
  end.

(** A delivered signal interrupts [KVM_RUN]; elsewhere its handler does nothing. *)
Definition deliver (s : state) : option state :=
  if kick s then
    let s := set_kick false s in
    match thread s with
    | TGuest => Some (set_thread (if stop s then TDone (Ok tt) else TTop) s)
    | _ => Some s
    end
  else None.

(** The guest runs, leaves [KVM_RUN] for an exit the loop handles, or for one
    that ends the loop. *)
Definition guest_runs (a : A) (m : M) (s : state) : option state :=
  match thread s with TGuest => Some (set_guest a m s) | _ => None end.
Definition guest_exit (m : M) (s : state) : option state :=
  match thread s with TGuest => Some (set_thread TTop (set_guest (arch s) m s)) | _ => None end.
Definition guest_ends (r : result VmError unit) (s : state) : option state :=
  match thread s with TGuest => Some (set_thread (TDone r) s) | _ => None end.

(** ** The controller *)

Definition begin_pause (s : state) : option state :=
  match ctl s with CIdle => Some (set_ctl CKick (set_pause true s)) | _ => None end.
Definition begin_stop (s : state) : option state :=
  match ctl s with CIdle => Some (set_ctl CStop (set_stop s)) | _ => None end.

(** The controller's own next action, every call of the kernel succeeding. *)
Definition ctl_next (s : state) : option state :=
  match ctl s with
  | CKick => Some (set_ctl CLock (set_kick true s))
  | CLock | CWoken => s ← acquire Controller s; Some (set_ctl CLoop s)
  | CTimed =>
      s ← acquire Controller s;
      match captured s with
      | None => Some (set_ctl CIdle (release s))
      | Some _ => Some (set_ctl CLoop s)
      end
  | CLoop =>
      match captured s with
      | Some (Ok c) => Some (set_ctl (CHold c) (release (set_slot None (parked s) (resume s) s)))
      | Some (Err _) => Some (set_ctl CIdle (release (set_slot None (parked s) (resume s) s)))
      | None => Some (set_ctl CAsleep (release s))
      end
  | CHold _ =>
      s ← acquire Controller s;
      Some (set_ctl CIdle (release (notify_all (set_slot (captured s) (parked s) true s))))
  | CStop => Some (set_ctl CNotified (notify_all s))
  | CNotified => Some (set_ctl CJoin (set_kick true s))
  | CJoin => match thread s with TDone r => Some (set_ctl (CJoined r) s) | _ => None end
  | CIdle | CAsleep | CJoined _ | CFailed => None
  end.

(** The wait times out; the deadline has passed at the test of the loop. *)
Definition wait_times_out (s : state) : option state :=
  match ctl s with CAsleep => Some (set_ctl CTimed s) | _ => None end.
Definition deadline_passed (s : state) : option state :=
  match ctl s, captured s with CLoop, None => Some (set_ctl CIdle (release s)) | _, _ => None end.

(** The signal cannot be sent. *)
Definition kill_fails (s : state) : option state :=
  match ctl s with
  | CKick => Some (set_ctl CIdle s)
  | CNotified => Some (set_ctl CFailed s)
  | _ => None
  end.

(** Condition variables may wake a waiter for no reason. *)
Definition spurious_wake (h : holder) (s : state) : option state :=
  match h, thread s, ctl s with
  | Thread, TAsleep, _ => Some (set_thread TWoken s)
  | Controller, _, CAsleep => Some (set_ctl CWoken s)
  | _, _, _ => None
  end.

(** ** Schedules *)

Inductive action :=
  | ThreadNext | Deliver | GuestRuns (a : A) (m : M) | GuestExit (m : M) | GuestEnds (r : result VmError unit)
  | BeginPause | BeginStop | CtlNext | WaitTimesOut | DeadlinePassed | KillFails | SpuriousWake (h : holder).

Definition exec (l : action) : state -> option state :=
  match l with
  | ThreadNext => thread_next
  | Deliver => deliver
  | GuestRuns a m => guest_runs a m
  | GuestExit m => guest_exit m
  | GuestEnds r => guest_ends r
  | BeginPause => begin_pause
  | BeginStop => begin_stop
  | CtlNext => ctl_next
  | WaitTimesOut => wait_times_out
  | DeadlinePassed => deadline_passed
  | KillFails => kill_fails
  | SpuriousWake h => spurious_wake h
  end.

Fixpoint schedule (ls : list action) (s : state) : option state :=
  match ls with [] => Some s | l :: ls => s ← exec l s; schedule ls s end.

Definition step (s s' : state) : Prop := exists l, exec l s = Some s'.
Definition reachable (s : state) : Prop := exists a m, rtc step (init a m) s.

(** ** The invariant *)

(** The thread sits in the wait loop of a pause; it holds the slot's lock. *)
Definition waiting (t : tpc) : bool :=
  match t with TTest | TDoze | TAsleep | TWoken => true | _ => false end.
Definition thread_locks (t : tpc) : bool := match t with TTest | TDoze | TLeave => true | _ => false end.

(** A thread that will test the wait loop again. *)
Definition awake (t : tpc) : bool := match t with TTest | TWoken => true | _ => false end.

Definition ctl_locks (c : cpc) : bool := match c with CLoop => true | _ => false end.
Definition stopping (c : cpc) : bool :=
  match c with CStop | CNotified | CJoin | CJoined _ | CFailed => true | _ => false end.

Definition lock_of (t : tpc) (c : cpc) : option holder :=
  if thread_locks t then Some Thread else if ctl_locks c then Some Controller else None.

Record inv (s : state) : Prop := Inv {
  inv_lock : lock s = lock_of (thread s) (ctl s);
  inv_mutex : thread_locks (thread s) && ctl_locks (ctl s) = false;
  inv_parked : parked s = waiting (thread s);
  inv_taken : match thread s with TCaptured c => c = capture (arch s) | _ => True end;
  inv_captured : match captured s with
    | Some c => waiting (thread s) = true /\ c = capture (arch s) /\ resume s = false
    | None => True
    end;
  inv_resume : resume s = true -> awake (thread s) = true;
  inv_hold : match ctl s with
    | CHold c => waiting (thread s) = true /\ capture (arch s) = Ok c /\ resume s = false /\ captured s = None
    | _ => True
    end;
  inv_stop : stop s = stopping (ctl s);
}.

Lemma inv_init a m : inv (init a m).
Proof. by split. Qed.

(** Open the invariant of a state, its derived fields replaced by what they are. *)
Ltac open_inv s :=
  intros [Hl Hm Hp Ht Hc Hr Hh Hs]; destruct s as [st pa cap pk rs lk kk t c ar me];
  simpl in *; subst pk st lk.
Ltac inv_fields := split; simpl in *; try done; intuition congruence.

Lemma inv_thread_next s s' : inv s -> thread_next s = Some s' -> inv s'.
Proof.
  open_inv s. unfold thread_next, acquire.
  destruct rs, t; simpl in *; try discriminate; intros H; repeat case_match; simplify_eq/=; inv_fields.
Qed.

Lemma inv_deliver s s' : inv s -> deliver s = Some s' -> inv s'.
Proof.
  open_inv s. unfold deliver. simpl. destruct kk; [|done].
  destruct t; intros [= <-]; repeat case_match; inv_fields.
Qed.

Lemma inv_guest s s' a m r :
  inv s -> guest_runs a m s = Some s' \/ guest_exit m s = Some s' \/ guest_ends r s = Some s' -> inv s'.
Proof.
  open_inv s. unfold guest_runs, guest_exit, guest_ends. simpl.
  destruct t; try (by intros [|[|]]). intros [H|[H|H]]; injection H as <-; repeat case_match; inv_fields.
Qed.

Lemma inv_ctl_next s s' : inv s -> ctl_next s = Some s' -> inv s'.
Proof.
  open_inv s. unfold ctl_next, acquire, lock_of in *.
  destruct c; simpl in *; try discriminate; intros H.
  all: repeat case_match; simplify_eq/=; inv_fields.
Qed.

Lemma inv_ctl_other s s' h :
  inv s ->
  begin_pause s = Some s' \/ begin_stop s = Some s' \/ wait_times_out s = Some s' \/ deadline_passed s = Some s' \/
  kill_fails s = Some s' \/ spurious_wake h s = Some s' -> inv s'.
Proof.
  open_inv s. unfold begin_pause, begin_stop, wait_times_out, deadline_passed, kill_fails, spurious_wake, lock_of in *.
  simpl. intros [H|[H|[H|[H|[H|H]]]]].
  1-3, 5: destruct c; simplify_eq/=; inv_fields.
  - destruct c, cap; simplify_eq/=. rewrite andb_true_r in Hm. split; simpl; unfold lock_of; by rewrite ?Hm.
  - destruct h; [destruct t|destruct c]; simplify_eq/=; inv_fields.
Qed.

Lemma inv_step s s' : inv s -> step s s' -> inv s'.
Proof.
  intros Hi [l H]. destruct l as [| |a m|m|r| | | | | | |h]; simpl in H.
  - by eapply inv_thread_next.
  - by eapply inv_deliver.
  - apply (inv_guest s s' a m (Ok tt) Hi). by left.
  - apply (inv_guest s s' (arch s) m (Ok tt) Hi). by right; left.
  - apply (inv_guest s s' (arch s) (mem s) r Hi). by right; right.
  - apply (inv_ctl_other s s' Thread Hi). tauto.
  - apply (inv_ctl_other s s' Thread Hi). tauto.
  - by eapply inv_ctl_next.
  - apply (inv_ctl_other s s' Thread Hi). tauto.
  - apply (inv_ctl_other s s' Thread Hi). tauto.
  - apply (inv_ctl_other s s' Thread Hi). tauto.
  - apply (inv_ctl_other s s' h Hi). tauto.
Qed.

Lemma handshake_inv s : reachable s -> inv s.
Proof.
  intros (a & m & Hr). pose proof (inv_init a m) as Hi. induction Hr; eauto using inv_step.
Qed.

(** ** Snapshots *)

(** C5: A snapshot is of one moment: under every schedule, while the controller
    holds the state it took from a paused vCPU, the thread is parked, that state
    is the vCPU's own, and no action of either party changes the vCPU or guest
    memory, so the memory dumped meanwhile belongs to the registers captured. *)
Theorem snapshot_consistent s c :
  reachable s -> ctl s = CHold c ->
  parked s = true /\ capture (arch s) = Ok c /\
  (forall s', step s s' -> arch s' = arch s /\ mem s' = mem s).
Proof.
  intros Hr Hc. destruct (handshake_inv s Hr) as [_ _ Hp _ _ _ Hh _]. rewrite Hc in Hh.
  destruct Hh as (Hw & Ha & _). split_and!; [by rewrite Hp|done|]. intros s' [l Hl].
  destruct l; simpl in Hl;
    unfold thread_next, deliver, guest_runs, guest_exit, guest_ends, begin_pause, begin_stop, ctl_next,
      wait_times_out, deadline_passed, kill_fails, spurious_wake, acquire, notify_all in Hl;
    rewrite ?Hc in Hl; destruct (thread s) eqn:?; simpl in Hw; try discriminate;
    repeat case_match; simplify_eq/=; repeat case_match; done.
Qed.

(** ** Stopping *)

(** The actions of the thread once the controller only joins it, the guest
    leaving [KVM_RUN] by itself apart. *)
Definition winds_down (l : action) : Prop := l = ThreadNext \/ l = Deliver.

(** The stop was signalled where the thread no longer looks: after its tests and
    outside [KVM_RUN]; or notified between its test and its wait. *)
Definition kick_lost (s : state) : Prop :=
  kick s = false /\
  match thread s with TEnter | TGuest => True | TPauseCheck => pause s = false | _ => False end.
Definition wakeup_lost (s : state) : Prop := match thread s with TDoze | TAsleep => True | _ => False end.

Definition terminates (s : state) : Prop :=
  exists ls s' r, Forall winds_down ls /\ schedule ls s = Some s' /\ thread s' = TDone r.

Lemma winds_down_stuck ls s s' :
  Forall winds_down ls -> kick_lost s \/ wakeup_lost s -> schedule ls s = Some s' ->
  kick_lost s' \/ wakeup_lost s'.
Proof.
  revert s. induction ls as [|l ls IH]; intros s Hf Hs; simpl; [by intros [= <-]|].
  apply Forall_cons in Hf as [Hl Hf]. destruct (exec l s) as [s1|] eqn:He; [|done]. simpl. apply IH; [done|].
  destruct s as [st pa cap pk rs lk kk t c ar me]. unfold kick_lost, wakeup_lost in *. simpl in *.
  destruct Hl as [->| ->]; simpl in He; unfold thread_next, deliver in He; simpl in He.
  - destruct Hs as [[-> Hp]|Hw]; destruct t; try done; simplify_eq/=; first [by left|by right].
  - destruct kk; [|done]. destruct Hs as [[? ?]|Hw]; [done|]. destruct t; try done; simplify_eq/=; by right.
Qed.

Lemma join_state s : inv s -> ctl s = CJoin -> stop s = true /\ (thread_locks (thread s) = false -> lock s = None).
Proof. intros [Hl _ _ _ _ _ _ Hs] Hc. rewrite Hl, Hs, Hc. unfold lock_of. split; [done|]. by intros ->. Qed.

(** Once stopped and signalled, the thread winds down by its own actions. *)
Lemma winds_down_terminates s :
  inv s -> ctl s = CJoin -> ~ (kick_lost s \/ wakeup_lost s) -> terminates s.
Proof.
  intros Hi Hc Hn. destruct (join_state s Hi Hc) as [Hs Hl]. clear Hi.
  destruct s as [st pa cap pk rs lk kk t c ar me]. unfold kick_lost, wakeup_lost in Hn. simpl in *. subst st c.
  assert (Hk : forall n, kk = true -> Forall winds_down (replicate n ThreadNext ++ [Deliver]))
    by (intros; apply Forall_app; split; [apply Forall_replicate; by left|repeat constructor; by right]).
  assert (Hf : forall n, Forall winds_down (replicate n ThreadNext)) by (intros; apply Forall_replicate; by left).
  destruct t; simpl in Hl; try (rewrite Hl in * by done); try (exfalso; tauto).
  - by eexists (replicate 1 _), _, _.
  - destruct pa.
    + destruct rs; eexists (replicate 5 _), _, _; repeat split; auto.
    + destruct kk; [|tauto]. eexists (replicate 2 _ ++ [_]), _, _. split; [by apply Hk|split; reflexivity].
  - destruct kk; [|tauto]. eexists (replicate 1 _ ++ [_]), _, _. split; [by apply Hk|split; reflexivity].
  - destruct kk; [|tauto]. eexists (replicate 0 _ ++ [_]), _, _. split; [by apply Hk|split; reflexivity].
  - destruct rs; eexists (replicate 4 _), _, _; repeat split; auto.
  - destruct rs; eexists (replicate 3 _), _, _; repeat split; auto.
  - destruct rs; eexists (replicate 4 _), _, _; repeat split; auto.
  - eexists (replicate 2 _), _, _. repeat split; auto.
  - by eexists (replicate 1 _), _, _.
  - by eexists (replicate 0 _), _, _.
Qed.

(** C7: Stopping ends the thread, but for two windows: when the controller joins a
    stopped thread, the thread returns through its own actions and the delivery of
    the signal exactly when the signal was not consumed between the thread's tests
    and [KVM_RUN], nor the notification sent between its test and its wait. *)
Theorem stop_ends_thread s :
  reachable s -> ctl s = CJoin -> (terminates s <-> ~ (kick_lost s \/ wakeup_lost s)).
Proof.
  intros Hr Hc. split; [|apply winds_down_terminates; [by apply handshake_inv|done]].
  intros (ls & s' & r & Hf & Hs & Ht) Hl. pose proof (winds_down_stuck _ _ _ Hf Hl Hs) as Hl'.
  unfold kick_lost, wakeup_lost in Hl'. rewrite Ht in Hl'. tauto.
Qed.

(** ** Hazards *)

Lemma schedule_app ls ls' s s1 s2 :
  schedule ls s = Some s1 -> schedule ls' s1 = Some s2 -> schedule (ls ++ ls') s = Some s2.
Proof.
  revert s. induction ls as [|l ls IH]; simpl; [by intros s [= ->]|].
  intros s H1 H2. destruct (exec l s); [|done]. simpl in *. auto.
Qed.

Lemma schedule_reachable ls a m s : schedule ls (init a m) = Some s -> reachable s.
Proof.
  intros Hs. exists a, m. revert Hs. generalize (init a m). induction ls as [|l ls IH]; simpl.
  - by intros ? [= <-].
  - intros s0 H. destruct (exec l s0) as [s1|] eqn:He; [|done]. eapply rtc_l; [by exists l|auto].
Qed.

Abbreviation T := ThreadNext.
Abbreviation K := CtlNext.

(** C36: Where the hand-off fails, each by a schedule from the start: a stop whose
    signal lands between the thread's tests and [KVM_RUN] joins a thread that stays
    in the guest; a stop right after a snapshot that timed out joins a thread that
    sleeps on; a second snapshot request made before a resumed thread has left its
    pause is erased by it, and waits while the guest runs; and a failed capture
    leaves the guest parked with no one to resume it. *)
Theorem handshake_hazards (a : A) (m : M) :
  (exists s, reachable s /\ ctl s = CJoin /\ kick_lost s /\ thread s = TGuest) /\
  (exists s, reachable s /\ ctl s = CJoin /\ thread s = TAsleep) /\
  (is_ok (capture a) = true -> exists s, reachable s /\ ctl s = CAsleep /\ pause s = false /\ kick s = false /\ thread s = TGuest) /\
  (is_ok (capture a) = false -> exists s, reachable s /\ ctl s = CIdle /\ thread s = TAsleep /\ resume s = false /\ captured s = None).
Proof.
  split_and!.
  - exists (mk true false None false false None false TGuest CJoin a m). split; [|by repeat split].
    apply (schedule_reachable [T; T; BeginStop; K; K; Deliver; T] a m). vm_compute. reflexivity.
  - exists (mk true true (Some (capture a)) true false None true TAsleep CJoin a m). split; [|by repeat split].
    apply (schedule_reachable [BeginPause; K; K; K; WaitTimesOut; K; T; T; T; T; BeginStop; K; K; T] a m).
    vm_compute. reflexivity.
  - intros Hc. destruct (capture a) as [c|] eqn:Ha; [|done].
    exists (mk false false None false false None false TGuest CAsleep a m). split; [|by repeat split].
    apply (schedule_reachable ([BeginPause; K; T; T; T; T; T; K] ++
      [K; K; BeginPause; K; K; K; Deliver; T; T; T; T; T; T; T]) a m).
    eapply schedule_app; [vm_compute; reflexivity|]. rewrite Ha. vm_compute. reflexivity.
  - intros Hc. destruct (capture a) as [|e] eqn:Ha; [done|].
    exists (mk false true None true false None true TAsleep CIdle a m). split; [|by repeat split].
    apply (schedule_reachable ([BeginPause; K; T; T; T; T; T; K] ++ [K]) a m).
    eapply schedule_app; [vm_compute; reflexivity|]. rewrite Ha. vm_compute. reflexivity.
Qed.
End Handshake.

(** ** Concrete runs *)

#[local] Abbreviation T := ThreadNext.
#[local] Abbreviation K := CtlNext.

(** A vCPU whose state is a number and always captured. *)
Definition capture_number : nat -> result string nat := Ok.

Definition held : state (C := nat) := mk false true None true false None false TAsleep (CHold 7%nat) 7%nat tt.
Lemma held_reachable : reachable capture_number held.
Proof.
  apply (schedule_reachable capture_number [T; T; T; GuestRuns 7%nat tt; BeginPause; K; Deliver; T; T; T; T; T; K; K] 0%nat tt).
  vm_compute. reflexivity.
Qed.

Lemma snapshot_consistent_witness :
  parked held = true /\ forall s', step capture_number held s' -> arch s' = 7%nat.
Proof.
  destruct (snapshot_consistent capture_number held 7%nat held_reachable eq_refl) as (Hp & _ & Hs).
  split; [exact Hp|]. intros s' H. apply (Hs s' H).
Defined.

Definition joined_in_guest : state (C := nat) := mk true false None false false None true TGuest CJoin 0%nat tt.
Lemma joined_in_guest_reachable : reachable capture_number joined_in_guest.
Proof.
  apply (schedule_reachable capture_number [T; T; T; BeginStop; K; K] 0%nat tt). vm_compute. reflexivity.
Qed.

Lemma stop_ends_thread_witness : terminates capture_number joined_in_guest.
Proof.
  apply (stop_ends_thread capture_number joined_in_guest joined_in_guest_reachable eq_refl).
  intros [[H _]|H]; [discriminate H|exact H].
Defined.
