(* ===== verification/KvmVsock.v ===== *)
(** * The vsock wiring of the KVM hypervisor ([crates/vm-kvm/src/lib.rs])

    [VsockBackend] puts the vsock device behind a register window, raises its
    interrupt, and carries requests to the guest agent: one at a time, through
    a gate, by polling the bytes the guest has sent. [handle_exit] is the body of
    the vCPU loop: what each exit from [KVM_RUN] does to the machine's devices.
    Guest memory and the interrupt lines are shared by the two devices. Between
    two polls the other threads run; they and the clock are the interface
    [RpcEnv]. The device cycle takes the fuel of [VsockDevice]: [None] is "still
    running". *)

From Stdlib Require Import String.
From stdpp Require Import strings pretty.
From S2P Require Import Prelude GuestMemory VirtioQueue Mmio VsockProto VsockTable VsockQueue VsockDevice NetQueue NetDevice Io VmCore Proto Boot.

Local Open Scope Z_scope.

Definition PROCESS_FUEL : nat := Z.to_nat 65536.

(** ** The backend *)

Module VsockBackend.
Section Backend.
Context {E M : Type} `{!GuestMem E M} {V : Type} `{!IrqLines V}.
Variable display_errno : Z -> string.
Variable display_queue_error : VsockQueue.QueueError -> string.

Record t : Type := mk {
  device : VsockDevice.t;
  guest_mem : M;
  vm_fd : V;
  irq : Z;
  rpc_in_flight : bool;
}.

Definition set_device (d : VsockDevice.t) (b : t) : t := mk d (guest_mem b) (vm_fd b) (irq b) (rpc_in_flight b).
Definition set_machine (d : VsockDevice.t) (m : M) (b : t) : t := mk d m (vm_fd b) (irq b) (rpc_in_flight b).
Definition set_vm_fd (v : V) (b : t) : t := mk (device b) (guest_mem b) v (irq b) (rpc_in_flight b).
Definition set_in_flight (f : bool) (b : t) : t := mk (device b) (guest_mem b) (vm_fd b) (irq b) f.

Definition window_offset (addr : Z) : option Z :=
  if addr <? VSOCK_MMIO_BASE then None
  else
    let offset := addr - VSOCK_MMIO_BASE in
    if offset <? VSOCK_MMIO_SIZE then Some offset else None.

(** The bytes an MMIO read of [n] bytes stores. *)
Definition read (b : t) (offset : Z) (n : nat) : bytes :=
  let bytes := to_le 8 (VsockDevice.mmio_read (device b) offset n) in
  (fun i => default Byte.x00 (bytes !! i)) <$> seq 0 n.

(** Raise, then lower the line. *)
Definition pulse_irq : SM t VmError unit := fun b =>
  match set_irq_line (vm_fd b) (irq b) true with
  | (Err e, v) =>
      (Err (Backend ("assert vsock IRQ " +:+ pretty (irq b) +:+ ": " +:+ display_errno e)), set_vm_fd v b)
  | (Ok _, v) =>
      match set_irq_line v (irq b) false with
      | (Err e, v) =>
          (Err (Backend ("deassert vsock IRQ " +:+ pretty (irq b) +:+ ": " +:+ display_errno e)), set_vm_fd v b)
      | (Ok _, v) => (Ok tt, set_vm_fd v b)
      end
  end.

(** One device cycle against guest memory. *)
Definition process (b : t) : option (result VsockQueue.QueueError bool * t) :=
  match @VsockDevice.process M GuestRamMem PROCESS_FUEL (device b) (guest_mem b) with
  | None => None
  | Some (r, d, m) => Some (r, set_machine d m b)
  end.

Definition write (offset : Z) (data : bytes) (b : t) : option (result VmError unit * t) :=
  let buf := splice (replicate 8 Byte.x00) 0 (take 8 data) in
  let value := from_le buf in
  let (notified, d) := VsockDevice.mmio_write offset (length data) value (device b) in
  let b := set_device d b in
  match notified with
  | None => Some (Ok tt, b)
  | Some _ =>
      match process b with
      | None => None
      | Some (Ok true, b) => Some (pulse_irq b)
      | Some (Ok false, b) => Some (Ok tt, b)
      | Some (Err _, b) => Some (Ok tt, b)
      end
  end.

(** [order] is the iteration order of the connection map. *)
Definition established_connection (order : list (ConnectionId * Connection.t)) : option ConnectionId :=
  VsockDevice.established_connection order.

Definition host_send (conn : ConnectionId) (data : bytes) (b : t) : option (result VmError unit * t) :=
  let (sent, d) := VsockDevice.send conn data (device b) in
  let b := set_device d b in
  if negb sent then Some (Err (Backend "vm-kvm: vsock send on a non-established connection"), b)
  else
    match process b with
    | None => None
    | Some (Err e, b) => Some (Err (Backend ("vm-kvm: vsock process during send: " +:+ display_queue_error e)), b)
    | Some (Ok completed, b) => Some (if completed then pulse_irq b else (Ok tt, b))
    end.

(** [while let Some((_conn, data)) = device.recv()] *)
Fixpoint recv_all (n : nat) (d : VsockDevice.t) (buf : bytes) : bytes * VsockDevice.t :=
  match n with
  | O => (buf, d)
  | S n =>
      match VsockDevice.recv d with
      | (Some (_, data), d) => recv_all n d (buf ++ data)
      | (None, d) => (buf, d)
      end
  end.

Definition drain_inbound (buf : bytes) (b : t) : bytes * t :=
  let (buf, d) := recv_all (S (length (VsockDevice.inbound (device b)))) (device b) buf in (buf, set_device d b).
End Backend.
Arguments t : clear implicits.
End VsockBackend.

(** ** Requests to the agent *)

(** What a calling thread shares with the rest of the program: the backend, the
    clock in milliseconds, and the passage of time in which others run. *)
Class RpcEnv (M V W : Type) := {
  backend : W -> VsockBackend.t M V;
  with_backend : VsockBackend.t M V -> W -> W;
  now : W -> Z;
  sleep : Z -> W -> W;
  connection_order : W -> list (ConnectionId * Connection.t);
}.

Section Rpc.
Context {E M : Type} `{!GuestMem E M} {V : Type} `{!IrqLines V} {W : Type} `{!RpcEnv M V W}.
Context {JE : Type} `{!Serde JE Request.t, !Serde JE Response.t}.
Variable display_errno : Z -> string.
Variable display_queue_error : VsockQueue.QueueError -> string.
Variable display_frame_error : FrameError JE -> string.
Variable debug_body : ResponseBody -> string.
Variable debug_code : ErrorCode -> string.

(** [RpcGuard::acquire] spins until the flag is free; [None] is "still waiting". *)
Fixpoint acquire (n : nat) (w : W) : option W :=
  match n with
  | O => None
  | S n =>
      if VsockBackend.rpc_in_flight (backend w) then acquire n (sleep 5 w)
      else Some (with_backend (VsockBackend.set_in_flight true (backend w)) w)
  end.

Definition release (w : W) : W := with_backend (VsockBackend.set_in_flight false (backend w)) w.

(** Wait for the agent; a poll sleeps 50 ms and gives up after [deadline]. *)
Fixpoint await_connection (n : nat) (deadline : Z) (w : W) : option (result VmError ConnectionId * W) :=
  match n with
  | O => None
  | S n =>
      match VsockBackend.established_connection (connection_order w) with
      | Some c => Some (Ok c, w)
      | None =>
          if deadline <=? now w
          then Some (Err (Backend "vm-kvm: guest agent did not connect over vsock within 15s"), w)
          else await_connection n deadline (sleep 50 w)
      end
  end.

Definition CONNECT_POLLS : nat := Z.to_nat (15000 / 50 + 2).

Definition connect (w : W) : option (result VmError ConnectionId * W) :=
  await_connection CONNECT_POLLS (now w + 15000) w.

(** The reply loop, [n] bounding its polls. *)
Fixpoint poll_reply {A} (n : nat) (what : string) (finish : Response.t -> result VmError A) (deadline : Z) (buf : bytes)
    (w : W) : option (result VmError A * W) :=
  match n with
  | O => None
  | S n =>
      let (buf, b) := VsockBackend.drain_inbound buf (backend w) in
      let w := with_backend b w in
      match decode_response buf with
      | Ok (resp, _) => Some (finish resp, w)
      | Err e =>
          if is_incomplete e then
            if deadline <=? now w then
              Some (Err (Backend ("vm-kvm: timed out waiting for the agent's " +:+ what +:+ " response")), w)
            else poll_reply n what finish deadline buf (sleep 20 w)
          else Some (Err (Backend ("vm-kvm: decode " +:+ what +:+ " response: " +:+ display_frame_error e)), w)
      end
  end.

Definition reply_polls (timeout : Z) : nat := Z.to_nat (timeout / 20 + 2).

(** Encode a request under the one id in use, and send it. *)
Definition send_request (what : string) (body : RequestBody) (conn : ConnectionId) (w : W) : option (result VmError unit * W) :=
  match encode_request (Request.mk PROTOCOL_VERSION 1 body) [] with
  | (Err e, _) => Some (Err (Backend ("vm-kvm: encode " +:+ what +:+ ": " +:+ display_frame_error e)), w)
  | (Ok _, frame) =>
      match VsockBackend.host_send display_errno display_queue_error conn frame (backend w) with
      | None => None
      | Some (r, b) => Some (r, with_backend b w)
      end
  end.

(** One exchange under the gate: the guard is released on every way out. *)
Definition exchange {A} (gate : nat) (encode_what reply_what : string) (body : RequestBody) (timeout : Z)
    (finish : Response.t -> result VmError A) (w : W) : option (result VmError A * W) :=
  w ← acquire gate w;
  '(r, w) ← connect w;
  match r with
  | Err e => Some (Err e, release w)
  | Ok conn =>
      '(r, w) ← send_request encode_what body conn w;
      match r with
      | Err e => Some (Err e, release w)
      | Ok _ =>
          '(r, w) ← poll_reply (reply_polls timeout) reply_what finish (now w + timeout) [] w;
          Some (r, release w)
      end
  end.

(** [req.timeout_ms.unwrap_or(30 s)] and five seconds for the transport. *)
Definition exec_timeout (timeout_ms : option Z) : Z := default 30000 timeout_ms + 5000.

Definition exec_over_vsock (gate : nat) (req : GuestExecRequest.t) : W -> option (result VmError GuestExecResult.t * W) :=
  exchange gate "exec request" "exec"
    (Exec (GuestExecRequest.program req) (GuestExecRequest.args req) (GuestExecRequest.cwd req)
       (GuestExecRequest.env req) (GuestExecRequest.timeout_ms req))
    (exec_timeout (GuestExecRequest.timeout_ms req)) (response_to_exec_result debug_body debug_code).

Definition rpc_oneshot (gate : nat) (body : RequestBody) (timeout : Z) : W -> option (result VmError ResponseBody * W) :=
  exchange gate "rpc request" "rpc" body timeout (rpc_response_body debug_code).

(** The opening of a streaming exec; on success the gate stays taken until the
    stream is dropped. *)
Definition exec_stream_over_vsock (gate : nat) (req : GuestExecRequest.t) (w : W) : option (result VmError unit * W) :=
  w ← acquire gate w;
  '(r, w) ← connect w;
  match r with
  | Err e => Some (Err e, release w)
  | Ok conn =>
      '(r, w) ← send_request "exec_start"
         (ExecStart (GuestExecRequest.program req) (GuestExecRequest.args req) (GuestExecRequest.cwd req)
            (GuestExecRequest.env req)) conn w;
      match r with
      | Err e => Some (Err e, release w)
      | Ok _ => Some (Ok tt, w)
      end
  end.
End Rpc.

(** ** Exits of the vCPU *)

Inductive VcpuExit : Type :=
| IoOut (port : Z) (data : bytes)
| IoIn (port : Z) (n : nat)
| MmioRead (addr : Z) (n : nat)
| MmioWrite (addr : Z) (data : bytes)
| Hlt
| Shutdown (regs_diag sregs_diag : string)
| Intr
| FailEntry (reason cpu : Z)
| InternalError
| OtherExit (debug : string).

(** What [KVM_RUN] returned. *)
Inductive RunOutcome : Type := Exited (e : VcpuExit) | Interrupted | RunFailed (error : string).

(** How the loop goes on: around, with what a read returns; out of it; or out
    with an error. *)
Inductive LoopStep : Type := Continue (reply : bytes) | Break | Return (e : VmError).

Module Machine.
Section Machine.
Context {E M : Type} `{!GuestMem E M} {V : Type} `{!IrqLines V} {B : Type} `{!NetworkBackend B}.
Variable display_errno : Z -> string.
Variable display_net_error : VirtioNetError -> string.
(** Copying serial output to the standard output. *)
Variable echo : bytes -> result string unit.

(** The parts of a backend that are not shared. *)
Record VsockPart : Type := mk_vsock { vsock_device : VsockDevice.t; vsock_irq : Z; rpc_in_flight : bool }.
Record NetPart : Type := mk_net { net_device : VirtioNetDevice.t B; net_tx : QueueCursor; net_rx : QueueCursor; net_irq : Z }.

Record t : Type := mk {
  guest_mem : M;
  vm_fd : V;
  vsock : option VsockPart;
  net : option NetPart;
  serial_output : bytes;
}.

Definition vsock_backend (p : VsockPart) (m : t) : VsockBackend.t M V :=
  VsockBackend.mk (vsock_device p) (guest_mem m) (vm_fd m) (vsock_irq p) (rpc_in_flight p).
Definition put_vsock (b : VsockBackend.t M V) (m : t) : t :=
  mk (VsockBackend.guest_mem b) (VsockBackend.vm_fd b)
    (Some (mk_vsock (VsockBackend.device b) (VsockBackend.irq b) (VsockBackend.rpc_in_flight b))) (net m) (serial_output m).

Definition net_backend (p : NetPart) (m : t) : NetBackend.t B M V :=
  NetBackend.mk (net_device p) (net_tx p) (net_rx p) (guest_mem m) (vm_fd m) (net_irq p).
Definition put_net (b : NetBackend.t B M V) (m : t) : t :=
  mk (NetBackend.guest_mem b) (NetBackend.vm_fd b) (vsock m)
    (Some (mk_net (NetBackend.device b) (NetBackend.tx b) (NetBackend.rx b) (NetBackend.irq b))) (serial_output m).

Definition drain_error (e : DrainError) : VmError :=
  match e with
  | ProcessTx e => Backend ("virtio-net process_tx: " +:+ display_net_error e)
  | ProcessRx e => Backend ("virtio-net process_rx: " +:+ display_net_error e)
  | AssertIrq irq e => Backend ("assert virtio-net IRQ " +:+ pretty irq +:+ ": " +:+ display_errno e)
  | DeassertIrq irq e => Backend ("deassert virtio-net IRQ " +:+ pretty irq +:+ ": " +:+ display_errno e)
  end.

(** [VcpuExit::MmioRead]: the buffer is zeroed, then filled by the device whose
    window the address is in. *)
Definition mmio_read (addr : Z) (n : nat) (m : t) : bytes :=
  let data := replicate n Byte.x00 in
  let data := match vsock m, VsockBackend.window_offset addr with
              | Some p, Some offset => VsockBackend.read (vsock_backend p m) offset n
              | _, _ => data
              end in
  match net m, NetDevice.window_offset addr with
  | Some p, Some offset => NetBackend.read (net_backend p m) offset n
  | _, _ => data
  end.

Definition mmio_write_vsock (addr : Z) (data : bytes) (m : t) : option (result VmError unit * t) :=
  match vsock m, VsockBackend.window_offset addr with
  | Some p, Some offset =>
      '(r, b) ← VsockBackend.write display_errno offset data (vsock_backend p m);
      Some (r, put_vsock b m)
  | _, _ => Some (Ok tt, m)
  end.

Definition mmio_write_net (addr : Z) (data : bytes) (m : t) : result VmError unit * t :=
  match net m, NetDevice.window_offset addr with
  | Some p, Some offset =>
      let (kick, b) := NetBackend.write offset data (net_backend p m) in
      match kick with
      | None => (Ok tt, put_net b m)
      | Some queue_idx =>
          let (r, b) := @NetBackend.drain_queue B _ M KvmNetGuestMemory V _ queue_idx b in
          (map_err drain_error r, put_net b m)
      end
  | _, _ => (Ok tt, m)
  end.

(** [VcpuExit::MmioWrite] *)
Definition mmio_write (addr : Z) (data : bytes) (m : t) : option (result VmError unit * t) :=
  '(r, m) ← mmio_write_vsock addr data m;
  match r with
  | Err e => Some (Err e, m)
  | Ok _ => Some (mmio_write_net addr data m)
  end.

Definition continue_or_return (r : result VmError unit) : LoopStep :=
  match r with Ok _ => Continue [] | Err e => Return e end.

(** One turn of the loop after [KVM_RUN]; [stop] is the flag it loads. *)
Definition handle_exit (stop : bool) (o : RunOutcome) (m : t) : option (LoopStep * t) :=
  match o with
  | Exited (IoOut port data) =>
      let (r, out) := handle_io_out port data (serial_output m) (echo data) in
      Some (continue_or_return r, mk (guest_mem m) (vm_fd m) (vsock m) (net m) out)
  | Exited (IoIn port n) => Some (Continue (handle_io_in port n), m)
  | Exited (MmioRead addr n) => Some (Continue (mmio_read addr n m), m)
  | Exited (MmioWrite addr data) =>
      '(r, m) ← mmio_write addr data m; Some (continue_or_return r, m)
  | Exited Hlt => Some (Break, m)
  | Exited (Shutdown regs_diag sregs_diag) =>
      Some (Return (Backend ("vcpu SHUTDOWN (triple fault?): " +:+ regs_diag +:+ " | " +:+ sregs_diag)), m)
  | Exited Intr => Some (if stop then Break else Continue [], m)
  | Exited (FailEntry reason cpu) =>
      Some (Return (Backend ("KVM fail entry: reason=" +:+ fmt_hex reason +:+ " cpu=" +:+ pretty cpu)), m)
  | Exited InternalError => Some (Return (Backend "KVM internal error exit"), m)
  | Exited (OtherExit debug) => Some (Return (Backend ("unexpected KVM vCPU exit: " +:+ debug)), m)
  | Interrupted => Some (if stop then Break else Continue [], m)
  | RunFailed error => Some (Return (Backend ("KVM_RUN failed: " +:+ error)), m)
  end.
End Machine.
Arguments t : clear implicits.
End Machine.
