(* ===== verification/KvmVsockProps.v ===== *)
(** * What the vsock wiring guarantees

    The gate admits one request at a time and is free again on every way out; a
    request always returns, with the first complete frame the agent's stream
    holds from then on; and the exits of the vCPU reach exactly the device whose
    window they address. *)

From Stdlib Require Import String.
From stdpp Require Import strings.
From S2P Require Import Prelude GuestMemory VirtioQueue Mmio VsockProto VsockTable VsockQueue VsockDevice NetQueue NetDevice Io VmCore Proto Boot KvmVsock.

Local Open Scope Z_scope.

(** ** Draining *)

Lemma recv_all_spec n d buf :
  (length (VsockDevice.inbound d) < n)%nat ->
  VsockBackend.recv_all n d buf = (buf ++ concat (VsockDevice.inbound d).*2, VsockDevice.set_inbound [] d).
Proof.
  revert d buf. induction n as [|n IH]; intros d buf Hn; [lia|]. cbn [VsockBackend.recv_all]. unfold VsockDevice.recv.
  destruct (VsockDevice.inbound d) as [|[c data] rest] eqn:Hi; simpl in *.
  - rewrite app_nil_r. by destruct d; simpl in *; subst.
  - rewrite IH by (simpl; lia). simpl. by rewrite app_assoc.
Qed.

(** The payloads received so far, in order, and an empty queue. *)
Lemma drain_inbound_spec {M V} buf (b : VsockBackend.t M V) :
  VsockBackend.drain_inbound buf b =
  (buf ++ concat (VsockDevice.inbound (VsockBackend.device b)).*2,
   VsockBackend.set_device (VsockDevice.set_inbound [] (VsockBackend.device b)) b).
Proof. unfold VsockBackend.drain_inbound. by rewrite recv_all_spec by lia. Qed.

(** ** Requests *)

(** Time passes at least as asked; the gate, once taken, is the taker's: the
    others clear the flag only after they set it ([RpcGuard]). *)
Class RpcEnvLaws (M V W : Type) `{!RpcEnv M V W} := {
  backend_with b (w : W) : backend (with_backend b w) = b;
  now_with b (w : W) : now (with_backend b w) = now w;
  now_sleep ms (w : W) : now w + ms <= now (sleep ms w);
  gate_kept ms (w : W) : VsockBackend.rpc_in_flight (backend w) = true ->
    VsockBackend.rpc_in_flight (backend (sleep ms w)) = true;
}.

Section RpcProps.
Context {E M : Type} `{!GuestMem E M} {V : Type} `{!IrqLines V} {W : Type} `{!RpcEnv M V W, !RpcEnvLaws M V W}.
Context {JE : Type} `{!Serde JE Request.t, !Serde JE Response.t, !SerdeLaws JE Response.t}.
Variable display_errno : Z -> string.
Variable display_queue_error : VsockQueue.QueueError -> string.
Variable display_frame_error : FrameError JE -> string.
Implicit Types (w : W).

(** What successive polls take out of the device, and whether the deadline has
    passed by then. *)
Fixpoint polls (n : nat) (deadline : Z) w : list (bytes * bool) :=
  match n with
  | O => []
  | S n =>
      let (piece, b) := VsockBackend.drain_inbound [] (backend w) in
      let w := with_backend b w in
      (piece, deadline <=? now w) :: polls n deadline (sleep 20 w)
  end.

Lemma poll_reply_polls {A} what (finish : Response.t -> result VmError A) n deadline buf w :
  option_map fst (poll_reply display_frame_error n what finish deadline buf w) =
  await_reply display_frame_error what finish (polls n deadline w) buf.
Proof.
  revert buf w. induction n as [|n IH]; intros buf w; [done|]. cbn [poll_reply polls].
  rewrite !drain_inbound_spec. cbn [await_reply app].
  destruct (decode_response _) as [[resp k]|e]; [done|]. destruct (is_incomplete e); [|done].
  destruct (deadline <=? _); [done|]. apply IH.
Qed.

Lemma poll_reply_returns {A} what (finish : Response.t -> result VmError A) n deadline buf w :
  deadline - now w < 20 * (Z.of_nat n - 1) -> (0 < n)%nat ->
  is_Some (poll_reply display_frame_error n what finish deadline buf w).
Proof.
  revert buf w. induction n as [|n IH]; intros buf w Hd Hn; [lia|]. cbn [poll_reply]. rewrite drain_inbound_spec.
  destruct (decode_response _) as [[resp k]|e]; [by eexists|]. destruct (is_incomplete e); [|by eexists].
  rewrite now_with. destruct (Z.leb_spec deadline (now w)); [by eexists|].
  destruct n; [lia|]. apply IH; [|lia]. pose proof (now_sleep 20 (with_backend
    (VsockBackend.set_device (VsockDevice.set_inbound [] (VsockBackend.device (backend w))) (backend w)) w)).
  rewrite now_with in *. lia.
Qed.

Lemma await_connection_returns n deadline w :
  deadline - now w < 50 * (Z.of_nat n - 1) -> (0 < n)%nat -> is_Some (await_connection n deadline w).
Proof.
  revert w. induction n as [|n IH]; intros w Hd Hn; [lia|]. cbn [await_connection].
  destruct (VsockBackend.established_connection _); [by eexists|].
  destruct (Z.leb_spec deadline (now w)); [by eexists|].
  destruct n; [lia|]. apply IH; [|lia]. pose proof (now_sleep 50 w). lia.
Qed.

Lemma connect_returns w : is_Some (connect w).
Proof. apply await_connection_returns; [|vm_compute; lia]. change (Z.of_nat CONNECT_POLLS) with 302. lia. Qed.

(** More polls only extend the list. *)
Lemma polls_prefix n k deadline w :
  (n <= k)%nat -> polls k deadline w = polls n deadline w ++ drop n (polls k deadline w).
Proof.
  intros Hn. rewrite <- (take_drop n (polls k deadline w)) at 1. f_equal.
  revert k w Hn. induction n as [|n IH]; intros k w Hn; [done|]. destruct k; [lia|]. cbn [polls].
  rewrite drain_inbound_spec. cbn [firstn take]. f_equal. apply IH. lia.
Qed.

(** Later polls do not matter once the response is complete. *)
Lemma await_reply_app {A} what (finish : Response.t -> result VmError A) ps later buf js junk r :
  payload_of (JE := JE) r js -> (length buf < length (pframe js))%nat ->
  buf ++ concat ps.*1 = pframe js ++ junk -> Forall (fun p => p.2 = false) ps ->
  await_reply display_frame_error what finish (ps ++ later) buf = Some (finish r).
Proof.
  intros Hr. revert buf. induction ps as [|[p expired] ps IH]; intros buf Hl Heq Hex.
  - simpl in Heq. rewrite app_nil_r in Heq. apply (f_equal length) in Heq. rewrite length_app in Heq. lia.
  - apply Forall_cons in Hex as [He Hex]. simpl in He. subst expired. cbn [app].
    rewrite (await_reply_step _ what finish (ps ++ later) buf js (junk ++ concat later.*1) r); [|done|].
    + case_decide; [done|]. apply IH; [lia| |done]. by rewrite <- app_assoc.
    + rewrite fmap_app, concat_app, !app_assoc, <- (app_assoc buf). f_equal. exact Heq.
Qed.

Lemma released_gate w : VsockBackend.rpc_in_flight (backend (release w)) = false.
Proof. unfold release. by rewrite backend_with. Qed.

(** The gate is taken at the first look that finds it free, and found taken at
    every look before. *)
Lemma acquire_spec n w w' :
  acquire n w = Some w' ->
  exists k, let w0 := Nat.iter k (sleep 5) w in
    (forall j, (j < k)%nat -> VsockBackend.rpc_in_flight (backend (Nat.iter j (sleep 5) w)) = true) /\
    VsockBackend.rpc_in_flight (backend w0) = false /\
    w' = with_backend (VsockBackend.set_in_flight true (backend w0)) w0.
Proof.
  revert w. induction n as [|n IH]; intros w; simpl; [done|].
  destruct (VsockBackend.rpc_in_flight (backend w)) eqn:Hw.
  - intros (k & Hj & Hk & ->)%IH. exists (S k). rewrite Nat.iter_succ_r. split_and!; [|done..].
    intros [|j] Hlt; [done|]. rewrite Nat.iter_succ_r. apply Hj. lia.
  - intros [= <-]. exists 0%nat. split_and!; [lia|done..].
Qed.

Abbreviation held w := (VsockBackend.rpc_in_flight (backend w) = true).

Lemma acquired_gate n w w' : acquire n w = Some w' -> held w'.
Proof. intros (k & _ & _ & ->)%acquire_spec. by rewrite backend_with. Qed.

Lemma await_connection_holds n deadline w r w' :
  held w -> await_connection n deadline w = Some (r, w') -> held w'.
Proof.
  revert w. induction n as [|n IH]; intros w Hw; [done|]. cbn [await_connection].
  destruct (VsockBackend.established_connection _); [by intros [= _ <-]|].
  destruct (deadline <=? now w); [by intros [= _ <-]|]. by apply IH, gate_kept.
Qed.

Lemma poll_reply_holds {A} what (finish : Response.t -> result VmError A) n deadline buf w r w' :
  held w -> poll_reply display_frame_error n what finish deadline buf w = Some (r, w') -> held w'.
Proof.
  revert buf w. induction n as [|n IH]; intros buf w Hw; [done|]. cbn [poll_reply]. rewrite drain_inbound_spec.
  set (w1 := with_backend _ w). assert (Hw1 : held w1) by (unfold w1; by rewrite backend_with).
  destruct (decode_response _) as [[resp k]|e]; [by intros [= _ <-]|]. destruct (is_incomplete e); [|by intros [= _ <-]].
  destruct (deadline <=? now w1); [by intros [= _ <-]|]. by apply IH, gate_kept.
Qed.

Lemma host_send_gate conn frame (b : VsockBackend.t M V) r b' :
  VsockBackend.host_send display_errno display_queue_error conn frame b = Some (r, b') ->
  VsockBackend.rpc_in_flight b' = VsockBackend.rpc_in_flight b.
Proof.
  unfold VsockBackend.host_send, VsockBackend.process, VsockBackend.pulse_irq.
  repeat case_match; intros; simplify_eq; done.
Qed.

Lemma send_request_holds what body conn w r w' :
  held w -> send_request display_errno display_queue_error display_frame_error what body conn w = Some (r, w') -> held w'.
Proof.
  intros Hw. unfold send_request. destruct (encode_request _ _) as [[] frame]; [|by intros [= _ <-]].
  destruct (VsockBackend.host_send _ _ conn frame (backend w)) as [[r1 b]|] eqn:Hh; [|done]. intros [= _ <-].
  apply host_send_gate in Hh. rewrite backend_with. congruence.
Qed.

(** Nothing decodable by any poll made in time, the one that finds the deadline
    passed included, is a timeout. *)
Lemma await_reply_incomplete {A} what (finish : Response.t -> result VmError A) ps buf r :
  await_reply display_frame_error what finish ps buf = Some r ->
  (forall k, (k < length ps)%nat -> Forall (fun p => p.2 = false) (take k ps) ->
     exists e, decode_response (buf ++ concat (take (S k) ps).*1) = Err (E := FrameError JE) e /\ is_incomplete e = true) ->
  r = Err (Backend ("vm-kvm: timed out waiting for the agent's " +:+ what +:+ " response")).
Proof.
  revert buf. induction ps as [|[p expired] ps IH]; intros buf; [done|]. cbn [await_reply]. intros Hr Hinc.
  destruct (Hinc 0%nat) as (e & He & Hi); [simpl; lia|constructor|]. simpl in He. rewrite app_nil_r in He.
  rewrite He, Hi in Hr. destruct expired; [congruence|]. apply (IH _ Hr). intros k Hk Hun.
  destruct (Hinc (S k)) as (e' & He' & Hi'); [simpl; lia|by constructor|]. exists e'. split; [|done].
  simpl in He'. by rewrite app_assoc in He'.
Qed.

Abbreviation exchange := (exchange display_errno display_queue_error display_frame_error).
Abbreviation send_request := (send_request display_errno display_queue_error display_frame_error).

(** C10: A request to the agent takes the gate, answers with the first frame that
    comes or times out, and frees the gate. The gate is taken at the first look
    that finds it free. Past it, whatever the guest and the other threads do, an
    exchange returns unless the device cycle of its send does not; the gate is
    taken once the exchange is past it, once connected, once the request is sent,
    and still when the exchange is about to return, which then frees it, whatever
    the outcome. A connection that never comes is that error. When the bytes
    polled from the send on start with the frame of a response, complete before
    the deadline, the exchange answers with that response, whichever request it
    belongs to; when they hold no complete frame at any poll up to the first that
    finds the deadline passed, it fails with the timeout. *)
Theorem rpc_exchange_answers {A} gate encode_what reply_what body timeout (finish : Response.t -> result VmError A) w w1 :
  acquire gate w = Some w1 -> 0 <= timeout ->
  let call := exchange gate encode_what reply_what body timeout finish w in
  (exists k, let w0 := Nat.iter k (sleep 5) w in
     (forall j, (j < k)%nat -> held (Nat.iter j (sleep 5) w)) /\ ~ held w0 /\
     w1 = with_backend (VsockBackend.set_in_flight true (backend w0)) w0) /\
  (call = None ->
     exists conn frame b, VsockBackend.host_send display_errno display_queue_error conn frame b = None) /\
  held w1 /\
  (forall r w', call = Some (r, w') -> ~ held w' /\ exists w4, held w4 /\ w' = release w4) /\
  (forall e w2, connect w1 = Some (Err e, w2) -> call = Some (Err e, release w2)) /\
  (forall conn w2 w3, connect w1 = Some (Ok conn, w2) -> send_request encode_what body conn w2 = Some (Ok tt, w3) ->
     held w2 /\ held w3 /\
     (forall resp js junk n, payload_of (JE := JE) resp js -> (n <= reply_polls timeout)%nat ->
        concat (polls n (now w3 + timeout) w3).*1 = pframe js ++ junk ->
        Forall (fun p => p.2 = false) (polls n (now w3 + timeout) w3) ->
        exists w', call = Some (finish resp, w')) /\
     (let ps := polls (reply_polls timeout) (now w3 + timeout) w3 in
      (forall k, (k < length ps)%nat -> Forall (fun p => p.2 = false) (take k ps) ->
         exists e, decode_response (concat (take (S k) ps).*1) = Err (E := FrameError JE) e /\ is_incomplete e = true) ->
      exists w', call = Some (Err (Backend ("vm-kvm: timed out waiting for the agent's " +:+ reply_what +:+ " response")), w'))).
Proof.
  intros Ha Ht call. pose proof (acquired_gate _ _ _ Ha) as Hg.
  split. { destruct (acquire_spec _ _ _ Ha) as (k & Hj & Hk & ->). exists k. split_and!; [done| |done]. by rewrite Hk. }
  assert (Hrel : forall w4, held w4 -> ~ held (release w4) /\ exists w5, held w5 /\ release w4 = release w5).
  { intros w4 H4. rewrite released_gate. split; [done|]. by exists w4. }
  unfold call, KvmVsock.exchange. rewrite Ha. cbn [mbind option_bind].
  destruct (connect_returns w1) as [[[conn|e] w2] Hc]; rewrite Hc; cbn [mbind option_bind];
    pose proof (await_connection_holds _ _ _ _ _ Hg Hc) as Hg2.
  2: { split_and!; [done|done|intros r w' [= <- <-]; by apply Hrel|intros ? ? [= -> ->]; done|intros; simplify_eq]. }
  destruct (send_request encode_what body conn w2) as [[[[]|e] w3]|] eqn:Hs; cbn [mbind option_bind].
  2: { pose proof (send_request_holds _ _ _ _ _ _ Hg2 Hs). split_and!; [done|done|intros r w' [= <- <-]; by apply Hrel|intros; simplify_eq..]. }
  2: { split_and!; [|done|done|intros; simplify_eq..]. intros _. unfold KvmVsock.send_request in Hs.
       destruct (encode_request _ _) as [[] frame]; [|done].
       destruct (VsockBackend.host_send _ _ conn frame (backend w2)) as [[r b]|] eqn:Hh; [done|by eauto]. }
  pose proof (send_request_holds _ _ _ _ _ _ Hg2 Hs) as Hg3.
  destruct (poll_reply_returns reply_what finish (reply_polls timeout) (now w3 + timeout) [] w3) as [[r w4] Hp].
  { unfold reply_polls. pose proof (Z.div_mod timeout 20). pose proof (Z.mod_pos_bound timeout 20). rewrite Z2Nat.id; lia. }
  { unfold reply_polls. pose proof (Z.div_pos timeout 20). lia. }
  pose proof (poll_reply_holds _ _ _ _ _ _ _ _ Hg3 Hp) as Hg4.
  pose proof (poll_reply_polls reply_what finish (reply_polls timeout) (now w3 + timeout) [] w3) as Hq.
  rewrite Hp in Hq. simpl in Hq.
  rewrite Hp. cbn [mbind option_bind]. split_and!; [done|done|intros ? ? [= <- <-]; by apply Hrel|intros; simplify_eq|].
  intros conn' w2' w3' H1 H2. assert (w2' = w2) as -> by congruence. assert (w3' = w3) as -> by congruence. split_and!; [done..| |].
  - intros resp js junk n Hr Hn Hb Hx. exists (release w4). rewrite (polls_prefix n) in Hq by done.
    rewrite (await_reply_app _ _ _ _ [] js junk resp) in Hq; [congruence|done| |done..].
    unfold pframe. rewrite length_app, to_le_length. simpl. lia.
  - intros Hinc. exists (release w4). by rewrite (await_reply_incomplete reply_what finish _ [] r (eq_sym Hq) Hinc).
Qed.
End RpcProps.

(** ** Exits *)

Section Exits.
Context {E M : Type} `{!GuestMem E M} {V : Type} `{!IrqLines V} {B : Type} `{!NetworkBackend B}.
Variable display_errno : Z -> string.
Variable display_net_error : VirtioNetError -> string.
Variable echo : bytes -> result string unit.
Implicit Types (m : Machine.t M V B).

Lemma pulse_irq_device (b : VsockBackend.t M V) r b' :
  VsockBackend.pulse_irq display_errno b = (r, b') ->
  VsockBackend.device b' = VsockBackend.device b /\ VsockBackend.guest_mem b' = VsockBackend.guest_mem b.
Proof. unfold VsockBackend.pulse_irq. repeat case_match; intros [= <- <-]; done. Qed.

Lemma vsock_write_ok offset data (b : VsockBackend.t M V) r b' :
  device_ok (VsockBackend.device b) -> VsockBackend.write display_errno offset data b = Some (r, b') ->
  device_ok (VsockBackend.device b').
Proof.
  intros Hb. unfold VsockBackend.write, VsockBackend.process.
  pose proof (@dev_step_ok M GuestRamMem _ _ (step_mmio_write (VsockBackend.device b) offset (length data)
    (from_le (splice (replicate 8 Byte.x00) 0 (take 8 data)))) Hb) as Hd.
  destruct (VsockDevice.mmio_write _ _ _ _) as [[q|] d]; simpl in *; [|by intros [= <- <-]].
  destruct (VsockDevice.process _ _ _) as [[[r1 d1] m1]|] eqn:Hp; [|done].
  apply process_ok in Hp; [|done].
  destruct r1 as [[]|]; [|by intros [= <- <-]..]. intros [= Hq]. apply pulse_irq_device in Hq as [-> _]. done.
Qed.

(** A guest's write into the window of a device. *)
Definition writes_window (window : Z -> option Z) (o : RunOutcome) : Prop :=
  exists addr data, o = Exited (MmioWrite addr data) /\ is_Some (window addr).

Definition vsock_ok m : Prop := forall p, Machine.vsock m = Some p -> device_ok (Machine.vsock_device p).

Lemma mmio_write_vsock_spec addr data m r m' :
  vsock_ok m -> Machine.mmio_write_vsock display_errno addr data m = Some (r, m') ->
  vsock_ok m' /\ Machine.net m' = Machine.net m /\ Machine.serial_output m' = Machine.serial_output m /\
  (VsockBackend.window_offset addr = None -> m' = m /\ r = Ok tt).
Proof.
  intros Hok. unfold Machine.mmio_write_vsock.
  destruct (Machine.vsock m) as [p|] eqn:Hp; [|by intros [= <- <-]].
  destruct (VsockBackend.window_offset addr) as [off|]; [|by intros [= <- <-]].
  destruct (VsockBackend.write _ off data _) as [[r1 b]|] eqn:Hw; [|done]. intros [= <- <-].
  apply vsock_write_ok in Hw; [|by apply (Hok p)]. split_and!; try done.
  intros q. simpl. intros [= <-]. done.
Qed.

Lemma mmio_write_net_spec addr data m r m' :
  Machine.mmio_write_net display_errno display_net_error addr data m = (r, m') ->
  Machine.vsock m' = Machine.vsock m /\ Machine.serial_output m' = Machine.serial_output m /\
  (NetDevice.window_offset addr = None -> m' = m /\ r = Ok tt).
Proof.
  unfold Machine.mmio_write_net. destruct (Machine.net m) as [p|]; [|by intros [= <- <-]].
  destruct (NetDevice.window_offset addr) as [off|]; [|by intros [= <- <-]].
  destruct (NetBackend.write off data _) as [[q|] b]; [|by intros [= <- <-]].
  destruct (NetBackend.drain_queue q b) as [r1 b1]. by intros [= <- <-].
Qed.

Lemma mmio_write_spec addr data m r m' :
  vsock_ok m -> Machine.mmio_write display_errno display_net_error addr data m = Some (r, m') ->
  vsock_ok m' /\ Machine.serial_output m' = Machine.serial_output m /\
  (VsockBackend.window_offset addr = None -> Machine.vsock m' = Machine.vsock m) /\
  (NetDevice.window_offset addr = None -> Machine.net m' = Machine.net m) /\
  (VsockBackend.window_offset addr = None -> NetDevice.window_offset addr = None -> m' = m).
Proof.
  intros Hok. unfold Machine.mmio_write.
  destruct (Machine.mmio_write_vsock _ addr data m) as [[r1 m1]|] eqn:H1; [|done]. cbn [mbind option_bind].
  apply mmio_write_vsock_spec in H1 as (Hok1 & Hn1 & Hs1 & Hv1); [|done].
  destruct r1 as [[]|e]; intros [= H2].
  - apply mmio_write_net_spec in H2 as (Hv2 & Hs2 & Hn2).
    split_and!; try congruence.
    + intros p. rewrite Hv2. apply Hok1.
    + intros Hw. destruct (Hv1 Hw) as [-> _]. done.
    + intros Hw. destruct (Hn2 Hw) as [-> _]. done.
    + intros Ha Hb. destruct (Hv1 Ha) as [-> _], (Hn2 Hb) as [-> _]. done.
  - subst. split_and!; try done; intros Hw; by destruct (Hv1 Hw).
Qed.

Lemma mmio_read_length addr n m : length (Machine.mmio_read addr n m) = n.
Proof.
  unfold Machine.mmio_read, NetBackend.read, VsockBackend.read.
  repeat case_match; by rewrite ?length_fmap, ?length_seq, ?length_replicate.
Qed.

(** The [n] bytes of a register value, zeros past its eighth byte; and the value
    of the bytes a guest wrote, of which the first eight count. *)
Definition register_bytes (v : Z) (n : nat) : bytes := take n (to_le 8 v ++ replicate n Byte.x00).
Definition register_value (data : bytes) : Z := from_le (take 8 data).

Lemma register_read v n : (fun i => default Byte.x00 (to_le 8 v !! i)) <$> seq 0 n = register_bytes v n.
Proof.
  unfold register_bytes. apply list_eq. intros i. rewrite list_lookup_fmap.
  destruct (decide (i < n)%nat) as [Hi|Hi].
  - rewrite lookup_seq_lt, lookup_take_lt by lia. simpl.
    destruct (decide (i < 8)%nat) as [H8|H8].
    + rewrite lookup_app_l by (by rewrite to_le_length).
      destruct (lookup_lt_is_Some_2 (to_le 8 v) i) as [b Hb]; [by rewrite to_le_length|]. by rewrite Hb.
    + rewrite lookup_app_r by (rewrite to_le_length; lia). rewrite (lookup_ge_None_2 (to_le 8 v)) by (rewrite to_le_length; lia).
      rewrite to_le_length. symmetry. apply lookup_replicate_2. lia.
  - rewrite lookup_take_ge by lia. by rewrite lookup_seq_ge by lia.
Qed.

Lemma from_le_zeros n : from_le (replicate n Byte.x00) = 0.
Proof. induction n as [|n IH]; [done|]. cbn [replicate]. by rewrite from_le_cons, IH. Qed.

Lemma from_le_app_zeros bs n : from_le (bs ++ replicate n Byte.x00) = from_le bs.
Proof.
  induction bs as [|b bs IH]; [apply from_le_zeros|]. rewrite <- app_comm_cons, !from_le_cons. by rewrite IH.
Qed.

Lemma register_written data : from_le (splice (replicate 8 Byte.x00) 0 (take 8 data)) = register_value data.
Proof.
  rewrite splice_0. unfold register_value. rewrite drop_replicate. apply from_le_app_zeros.
Qed.

Lemma windows_apart addr : VsockBackend.window_offset addr = None \/ NetDevice.window_offset addr = None.
Proof.
  unfold VsockBackend.window_offset, NetDevice.window_offset, VSOCK_MMIO_BASE, VSOCK_MMIO_SIZE,
    NET_MMIO_BASE, NET_MMIO_SIZE. repeat case_match; auto; lia.
Qed.

Lemma mmio_read_vsock addr n m p off :
  Machine.vsock m = Some p -> VsockBackend.window_offset addr = Some off ->
  Machine.mmio_read addr n m = register_bytes (VsockDevice.mmio_read (Machine.vsock_device p) off n) n.
Proof.
  intros Hp Hw. unfold Machine.mmio_read. rewrite Hp, Hw. destruct (windows_apart addr) as [?| ->]; [congruence|].
  destruct (Machine.net m); apply register_read.
Qed.

Lemma mmio_read_net addr n m p off :
  Machine.net m = Some p -> NetDevice.window_offset addr = Some off ->
  Machine.mmio_read addr n m = register_bytes (VirtioNetDevice.mmio_read (Machine.net_device p) off n) n.
Proof. intros Hp Hw. unfold Machine.mmio_read. rewrite Hp, Hw. apply register_read. Qed.

(** The device's registers took the write [data] at [off]; where that notified
    the device, it ran against guest memory, and where that completed a buffer its
    line was raised and lowered. *)
Definition vsock_written (p : Machine.VsockPart) (off : Z) (data : bytes) m (s : LoopStep) m' : Prop :=
  let part d := Some (Machine.mk_vsock d (Machine.vsock_irq p) (Machine.rpc_in_flight p)) in
  let (notified, d1) := VsockDevice.mmio_write off (length data) (register_value data) (Machine.vsock_device p) in
  match notified with
  | None => s = Continue [] /\ Machine.vsock m' = part d1 /\
      Machine.guest_mem m' = Machine.guest_mem m /\ Machine.vm_fd m' = Machine.vm_fd m
  | Some _ => exists r d2,
      @VsockDevice.process M GuestRamMem PROCESS_FUEL d1 (Machine.guest_mem m) = Some (r, d2, Machine.guest_mem m') /\
      Machine.vsock m' = part d2 /\
      match r with
      | Ok true => (exists e, s = Return e) \/
          s = Continue [] /\ exists v, set_irq_line (Machine.vm_fd m) (Machine.vsock_irq p) true = (Ok tt, v) /\
            set_irq_line v (Machine.vsock_irq p) false = (Ok tt, Machine.vm_fd m')
      | _ => s = Continue [] /\ Machine.vm_fd m' = Machine.vm_fd m
      end
  end.

(** The same of the network device, whose queue is drained when it is kicked. *)
Definition net_written (p : Machine.NetPart (B := B)) (off : Z) (data : bytes) m (s : LoopStep) m' : Prop :=
  let (kick, d1) := VirtioNetDevice.mmio_write off (length data) (register_value data) (Machine.net_device p) in
  let b1 := NetBackend.mk d1 (Machine.net_tx p) (Machine.net_rx p) (Machine.guest_mem m) (Machine.vm_fd m) (Machine.net_irq p) in
  exists r b, match kick with
    | None => r = Ok tt /\ b = b1
    | Some queue_idx => @NetBackend.drain_queue B _ M KvmNetGuestMemory V _ queue_idx b1 = (r, b)
    end /\
    s = Machine.continue_or_return (map_err (Machine.drain_error display_errno display_net_error) r) /\
    Machine.net m' = Some (Machine.mk_net (NetBackend.device b) (NetBackend.tx b) (NetBackend.rx b) (NetBackend.irq b)) /\
    Machine.guest_mem m' = NetBackend.guest_mem b /\ Machine.vm_fd m' = NetBackend.vm_fd b.

Lemma mmio_write_vsock_reaches addr data m p off r m' :
  Machine.vsock m = Some p -> VsockBackend.window_offset addr = Some off ->
  Machine.mmio_write display_errno display_net_error addr data m = Some (r, m') ->
  vsock_written p off data m (Machine.continue_or_return r) m'.
Proof.
  intros Hp Hw. unfold Machine.mmio_write, Machine.mmio_write_vsock, vsock_written. rewrite Hp, Hw.
  assert (Hn : NetDevice.window_offset addr = None) by (destruct (windows_apart addr); congruence).
  assert (Hnet : forall m1, Machine.mmio_write_net display_errno display_net_error addr data m1 = (Ok tt, m1)).
  { intros m1. unfold Machine.mmio_write_net. rewrite Hn. by destruct (Machine.net m1). }
  unfold VsockBackend.write, VsockBackend.process, VsockBackend.pulse_irq. rewrite register_written.
  unfold Machine.vsock_backend. cbn [VsockBackend.device].
  destruct (VsockDevice.mmio_write off (length data) (register_value data) (Machine.vsock_device p)) as [[q|] d1]; cbn [mbind option_bind].
  2: { rewrite Hnet. intros [= <- <-]. done. }
  cbn [VsockBackend.set_device VsockBackend.device VsockBackend.guest_mem].
  destruct (VsockDevice.process _ d1 (Machine.guest_mem m)) as [[[r1 d2] mem2]|]; [|done].
  destruct r1 as [[]|e]; cbn [mbind option_bind]; rewrite ?Hnet.
  2,3: intros [= <- <-]; eexists _, _; by split_and!.
  simpl.
  destruct (set_irq_line (Machine.vm_fd m) (Machine.vsock_irq p) true) as [[[]|e] v1]; simpl.
  2: { intros [= <- <-]. eexists _, _. split_and!; [done..|left; by eexists]. }
  destruct (set_irq_line v1 (Machine.vsock_irq p) false) as [[[]|e] v2] eqn:H2; simpl; rewrite ?Hnet;
    intros [= <- <-]; eexists _, _; (split_and!; [done..|]); [right; eauto|left; by eexists].
Qed.

Lemma mmio_write_net_reaches addr data m p off r m' :
  Machine.net m = Some p -> NetDevice.window_offset addr = Some off ->
  Machine.mmio_write display_errno display_net_error addr data m = Some (r, m') ->
  net_written p off data m (Machine.continue_or_return r) m'.
Proof.
  intros Hp Hw. unfold Machine.mmio_write.
  assert (Hv : Machine.mmio_write_vsock display_errno addr data m = Some (Ok tt, m)).
  { unfold Machine.mmio_write_vsock. destruct (windows_apart addr) as [->|]; [by destruct (Machine.vsock m)|congruence]. }
  rewrite Hv. cbn [mbind option_bind]. intros [= Hr]. revert Hr. unfold Machine.mmio_write_net, net_written. rewrite Hp, Hw.
  unfold NetBackend.write. rewrite register_written. unfold Machine.net_backend. cbn [NetBackend.device].
  destruct (VirtioNetDevice.mmio_write off (length data) (register_value data) (Machine.net_device p)) as [[q|] d1]; cbn.
  - destruct (NetBackend.drain_queue q _) as [r1 b1] eqn:Hd. intros [= <- <-]. exists r1, b1. by split_and!.
  - intros [= <- <-]. eexists (Ok tt), _. by split_and!.
Qed.

(** C11: Exits reach the device they address and no other. Whatever the guest
    does, one turn of the vCPU loop keeps the vsock device well-formed. A read
    inside a device's window returns that device's register, as many bytes as
    asked, and a write inside it reaches the device's registers and, where it
    notifies the device, runs the device against guest memory and pulses its
    interrupt line. A device changes only on a write into its own window, the
    windows being disjoint, and guest memory and the interrupt lines only on a
    write into some window; a read where no device is returns zeros; and the serial
    output grows by exactly the bytes written to its port. *)
Theorem exits_reach_their_device m stop o s m' :
  vsock_ok m -> Machine.handle_exit display_errno display_net_error echo stop o m = Some (s, m') ->
  vsock_ok m' /\
  (forall addr n p off, o = Exited (MmioRead addr n) -> Machine.vsock m = Some p -> VsockBackend.window_offset addr = Some off ->
     s = Continue (register_bytes (VsockDevice.mmio_read (Machine.vsock_device p) off n) n)) /\
  (forall addr n p off, o = Exited (MmioRead addr n) -> Machine.net m = Some p -> NetDevice.window_offset addr = Some off ->
     s = Continue (register_bytes (VirtioNetDevice.mmio_read (Machine.net_device p) off n) n)) /\
  (forall addr data p off, o = Exited (MmioWrite addr data) -> Machine.vsock m = Some p ->
     VsockBackend.window_offset addr = Some off -> vsock_written p off data m s m') /\
  (forall addr data p off, o = Exited (MmioWrite addr data) -> Machine.net m = Some p ->
     NetDevice.window_offset addr = Some off -> net_written p off data m s m') /\
  (~ writes_window VsockBackend.window_offset o -> Machine.vsock m' = Machine.vsock m) /\
  (~ writes_window NetDevice.window_offset o -> Machine.net m' = Machine.net m) /\
  (~ writes_window VsockBackend.window_offset o -> ~ writes_window NetDevice.window_offset o ->
     Machine.guest_mem m' = Machine.guest_mem m /\ Machine.vm_fd m' = Machine.vm_fd m) /\
  (forall addr, VsockBackend.window_offset addr = None \/ NetDevice.window_offset addr = None) /\
  (forall addr n, o = Exited (MmioRead addr n) -> exists reply, s = Continue reply /\ length reply = n /\
     (VsockBackend.window_offset addr = None -> NetDevice.window_offset addr = None -> reply = replicate n Byte.x00)) /\
  Machine.serial_output m' = Machine.serial_output m ++
    match o with Exited (IoOut port data) => if port =? SERIAL_PORT_BASE then data else [] | _ => [] end.
Proof.
  intros Hok. pose proof windows_apart as Hwin.
  destruct o as [e| |err]; [destruct e as [port data|port n|addr n|addr data| | | | | | ]| |]; simpl.
  all: try (intros [= <- <-]; rewrite ?app_nil_r; split_and!; try done; intros; simplify_eq).
  - unfold handle_io_out. destruct (port =? SERIAL_PORT_BASE); intros [= <- <-]; simpl;
      rewrite ?app_nil_r; split_and!; try done; intros; simplify_eq.
  - f_equal. by apply mmio_read_vsock.
  - f_equal. by apply mmio_read_net.
  - eexists. split; [done|]. split; [apply mmio_read_length|].
    intros H1 H2. unfold Machine.mmio_read. rewrite H1, H2. by repeat case_match.
  - destruct (Machine.mmio_write _ _ addr data m) as [[r m1]|] eqn:Hw; [|done]. intros [= <- <-].
    pose proof Hw as (H1 & H2 & H3 & H4 & H5)%mmio_write_spec; [|done]. rewrite app_nil_r.
    assert (Hno : forall w : Z -> option Z, ~ writes_window w (Exited (MmioWrite addr data)) -> w addr = None).
    { intros w Hn. apply eq_None_not_Some. intros Hs. apply Hn. by exists addr, data. }
    split_and!; auto; try done.
    + intros ? ? p off [= <- <-] Hp Hx. by eapply mmio_write_vsock_reaches.
    + intros ? ? p off [= <- <-] Hp Hx. by eapply mmio_write_net_reaches.
    + intros Ha Hb. rewrite (H5 (Hno _ Ha) (Hno _ Hb)). done.
Qed.
End Exits.

(** ** A concrete exchange *)

Module RpcSample.
#[local] Instance no_irq : IrqLines unit := fun v _ _ => (Ok tt, v).

(** One thread and a clock. *)
Record world : Type := mk { vsock : VsockBackend.t SliceGuestMemory.t unit; clock : Z }.
#[local] Instance env : RpcEnv SliceGuestMemory.t unit world := {|
  backend := vsock;
  with_backend b w := mk b (clock w);
  now := clock;
  sleep ms w := mk (vsock w) (clock w + ms);
  connection_order w := map_to_list (ConnectionTable.connections (VsockDevice.table (VsockBackend.device (vsock w))));
|}.
#[local] Instance env_laws : RpcEnvLaws SliceGuestMemory.t unit world.
Proof. split; intros; simpl; done || lia. Qed.

Definition request : Request.t := Request.mk PROTOCOL_VERSION 1 (ReadFile "/etc/hosts").
Definition late_response : Response.t := Response.mk PROTOCOL_VERSION 1 (Ok (Written 5)).
#[local] Instance RequestBody_dec : EqDecision RequestBody.
Proof. solve_decision. Defined.
#[local] Instance Request_dec : EqDecision Request.t.
Proof. solve_decision. Defined.
#[local] Instance requests : Serde unit Request.t := table_serde [request].
#[local] Instance responses : Serde unit Response.t := table_serde [late_response].
#[local] Instance responses_laws : SerdeLaws unit Response.t := table_serde_laws _.

Definition conn : ConnectionId := mk_conn_id (mk_endpoint 2 1024) (mk_endpoint 3 5000).

(** The agent is connected, and the answer to an earlier, timed-out write has
    arrived since. *)
Definition start : world :=
  let table := (trace table_exec [TListen 1024; TDispatch (VsockHeader.mk 3 2 5000 1024 0 Stream VsockProto.Request 0 4096 0)]
                  (ConnectionTable.new TableConfig_default)).2 in
  let d := VsockDevice.set_transport (MmioTransport.set_status 15 (MmioTransport.new_vsock 3))
             (VsockDevice.set_table table
                (VsockDevice.set_inbound [(conn, pframe [])] (VsockDevice.new 3 TableConfig_default))) in
  mk (VsockBackend.mk d (SliceGuestMemory.mk 0 []) tt 5 false) 0.

Abbreviation read_hosts w :=
  (exchange (JE := unit) (fun _ => "") (fun _ => "") (fun _ => "") 1 "rpc request" "rpc" (ReadFile "/etc/hosts") 30000
     (rpc_response_body (fun _ => "")) w).

(** The read is answered with the late reply to the write. *)
Lemma rpc_exchange_answers_witness :
  exists w', read_hosts start = Some (Ok (Written 5), w') /\ VsockBackend.rpc_in_flight (backend w') = false.
Proof.
  set (w1 := with_backend (VsockBackend.set_in_flight true (backend start)) start).
  assert (Ha : acquire 1 start = Some w1) by (vm_compute; reflexivity).
  assert (Hc : connect w1 = Some (Ok conn, w1)) by (vm_compute; reflexivity).
  destruct (send_request (JE := unit) (fun _ => "") (fun _ => "") (fun _ => "") "rpc request" (ReadFile "/etc/hosts") conn w1)
    as [[[[]|] w3]|] eqn:Hs; [|vm_compute in Hs; discriminate Hs..].
  destruct (rpc_exchange_answers (JE := unit) (fun _ => "") (fun _ => "") (fun _ => "") 1 "rpc request" "rpc"
    (ReadFile "/etc/hosts") 30000 (rpc_response_body (fun _ => "")) start w1 Ha ltac:(lia)) as (_ & _ & _ & Hg & _ & Hr).
  assert (Hp : polls 1 (now w3 + 30000) w3 = [(pframe [], false)])
    by (vm_compute in Hs; injection Hs as <-; vm_compute; reflexivity).
  destruct (Hr conn w1 w3 Hc Hs) as (_ & _ & Hf & _). destruct (Hf late_response [] [] 1%nat) as [w' Hw'].
  - split; vm_compute; [reflexivity|discriminate].
  - vm_compute. lia.
  - rewrite Hp. reflexivity.
  - rewrite Hp. repeat constructor.
  - exists w'. split; [exact Hw'|]. by apply not_true_is_false, (Hg _ w' Hw').
Defined.
End RpcSample.

(** The status register of the vsock device, and a write to it. *)
Lemma exits_reach_their_device_witness :
  let p := Machine.mk_vsock (VsockDevice.new 3 TableConfig_default) 5 false in
  let m : Machine.t SliceGuestMemory.t unit MockBackend.t := Machine.mk (SliceGuestMemory.mk 0 []) tt (Some p) None [] in
  let turn o := @Machine.handle_exit _ _ _ unit (fun v _ _ => (Ok tt, v)) _ _ (fun _ => "") (fun _ => "") (fun _ => Ok tt) false o m in
  (exists m', turn (Exited (MmioRead VSOCK_MMIO_BASE 4))
     = Some (Continue (register_bytes (VsockDevice.mmio_read (Machine.vsock_device p) 0 4) 4), m')) /\
  (exists s m' d', turn (Exited (MmioWrite (VSOCK_MMIO_BASE + 0x70) [Byte.x01; Byte.x00; Byte.x00; Byte.x00])) = Some (s, m') /\
     VsockDevice.mmio_write 0x70 4 1 (Machine.vsock_device p) = (None, d') /\ Machine.vsock m' = Some (Machine.mk_vsock d' 5 false)).
Proof.
  intros p m turn. assert (Hok : vsock_ok m) by (intros q [= <-]; split; try done; apply new_vsock_ok). split.
  - destruct (turn (Exited (MmioRead VSOCK_MMIO_BASE 4))) as [[s m']|] eqn:H; [|discriminate H].
    destruct (@exits_reach_their_device _ _ _ unit (fun v _ _ => (Ok tt, v)) _ _ (fun _ => "") (fun _ => "") (fun _ => Ok tt)
      m false _ s m' Hok H) as (_ & Hr & _).
    exists m'. by rewrite (Hr _ _ p 0 eq_refl eq_refl eq_refl).
  - set (o := Exited (MmioWrite (VSOCK_MMIO_BASE + 0x70) [Byte.x01; Byte.x00; Byte.x00; Byte.x00])).
    destruct (turn o) as [[s m']|] eqn:H; [|vm_compute in H; discriminate H].
    destruct (@exits_reach_their_device _ _ _ unit (fun v _ _ => (Ok tt, v)) _ _ (fun _ => "") (fun _ => "") (fun _ => Ok tt)
      m false o s m' Hok H) as (_ & _ & _ & Hw & _).
    specialize (Hw _ _ p 0x70 eq_refl eq_refl ltac:(vm_compute; reflexivity)). unfold vsock_written in Hw.
    destruct (VsockDevice.mmio_write _ _ _ _) as [[q|] d'] eqn:Hd; [vm_compute in Hd; discriminate Hd|].
    destruct Hw as (_ & Hv & _). eexists s, m', d'. split; [reflexivity|]. split; [reflexivity|exact Hv].
Defined.
