(* ===== verification/KvmState.v ===== *)
(** * Captured vCPU and machine state ([crates/vm-kvm/src/vmstate.rs])

    The register blobs and model-specific registers a snapshot keeps beside the
    memory image, captured from and restored onto a vCPU through its ioctls, and
    stored as JSON files. A [#[repr(C)]] structure is its bytes, whose number is
    the structure's size. *)

From Stdlib Require Import String.
From stdpp Require Import strings pretty.
From S2P Require Import Prelude Io Fs VmCore.

Local Open Scope Z_scope.

Definition VCPU_STATE_FILE : string := "vcpu0.json".
Definition MACHINE_STATE_FILE : string := "machine.json".
Definition KVM_IRQCHIP_PIC_MASTER : Z := 0.
Definition KVM_IRQCHIP_PIC_SLAVE : Z := 1.
Definition KVM_IRQCHIP_IOAPIC : Z := 2.

(** The structures of a vCPU and of a VM, one get and one set ioctl each. *)
Inductive reg : Type := Regs | Sregs | Fpu | Xcrs | DebugRegs | MpState | VcpuEvents | Lapic | Xsave.
Inductive dev : Type := IrqChip (chip_id : Z) | Pit | Clock.

#[global] Instance reg_eq_dec : EqDecision reg.
Proof. solve_decision. Defined.
#[global] Instance dev_eq_dec : EqDecision dev.
Proof. solve_decision. Defined.

Module MsrEntry.
Record t : Type := mk { index : Z; value : Z }.
End MsrEntry.
#[global] Instance MsrEntry_eq_dec : EqDecision MsrEntry.t.
Proof. solve_decision. Defined.

Module VcpuState.
Record t : Type := mk {
  regs : bytes;
  sregs : bytes;
  fpu : bytes;
  xcrs : bytes;
  debug_regs : bytes;
  mp_state : bytes;
  vcpu_events : bytes;
  lapic : bytes;
  xsave : bytes;
  msrs : list MsrEntry.t;
}.
End VcpuState.

Module MachineState.
Record t : Type := mk { pic_master : bytes; pic_slave : bytes; ioapic : bytes; pit : bytes; clock : bytes }.
End MachineState.

(** ** The ioctls *)

(** [get_msrs] fills the entries asked for and returns how many it read;
    [set_msrs] how many it wrote. [set_irqchip] takes the chip from the blob. *)
Class VcpuIoctls (V : Type) := {
  reg_size : reg -> Z;
  get_reg : reg -> V -> result string bytes;
  set_reg : reg -> bytes -> SM V string unit;
  get_msrs : list Z -> V -> result string (list MsrEntry.t * Z);
  set_msrs : list MsrEntry.t -> SM V string Z;
  (** [Msrs::from_entries]: whether that many entries fit. *)
  msrs_fit : nat -> result string unit;
}.

Class VmIoctls (D : Type) := {
  dev_size : dev -> Z;
  get_dev : dev -> D -> result string bytes;
  set_irqchip : bytes -> SM D string unit;
  set_dev : dev -> bytes -> SM D string unit;
}.

Definition kvm_err (op : string) (e : string) : VmError := Backend ("vm-kvm: " +:+ op +:+ ": " +:+ e).

(** The length check of [pod_from_bytes]. *)
Definition pod_from_bytes (size : Z) (what : string) (bs : bytes) : result VmError bytes :=
  if zlen bs =? size then Ok bs
  else Err (Backend ("vm-kvm: snapshot " +:+ what +:+ " blob is " +:+ pretty (zlen bs) +:+ " bytes, expected "
              +:+ pretty size +:+ " (struct layout changed between capture and restore?)")).

Section Vcpu.
Context {V : Type} `{!VcpuIoctls V}.

Definition get (op : string) (r : reg) (v : V) : result VmError bytes := map_err (kvm_err op) (get_reg r v).

Definition capture_msrs (v : V) (indices : list Z) : result VmError (list MsrEntry.t) :=
  match indices with
  | [] => Ok []
  | _ =>
      _ ← map_err (fun e => Backend ("vm-kvm: build MSR list: " +:+ e)) (msrs_fit (length indices));
      '(entries, read) ← map_err (kvm_err "get_msrs") (get_msrs indices v);
      Ok (take (Z.to_nat read) entries)
  end.

Definition capture (v : V) (msr_indices : list Z) : result VmError VcpuState.t :=
  regs ← get "get_regs" Regs v;
  sregs ← get "get_sregs" Sregs v;
  fpu ← get "get_fpu" Fpu v;
  xcrs ← get "get_xcrs" Xcrs v;
  debug_regs ← get "get_debug_regs" DebugRegs v;
  mp_state ← get "get_mp_state" MpState v;
  vcpu_events ← get "get_vcpu_events" VcpuEvents v;
  lapic ← get "get_lapic" Lapic v;
  xsave ← get "get_xsave" Xsave v;
  msrs ← capture_msrs v msr_indices;
  Ok (VcpuState.mk regs sregs fpu xcrs debug_regs mp_state vcpu_events lapic xsave msrs).

(** Check a blob and set it. *)
Definition set (op what : string) (r : reg) (bs : bytes) : SM V VmError unit := fun v =>
  match pod_from_bytes (reg_size r) what bs with
  | Err e => (Err e, v)
  | Ok bs => let (o, v) := set_reg r bs v in (map_err (kvm_err op) o, v)
  end.

Definition restore_msrs (msrs : list MsrEntry.t) : SM V VmError unit := fun v =>
  match msrs with
  | [] => (Ok tt, v)
  | _ =>
      match msrs_fit (V := V) (length msrs) with
      | Err e => (Err (Backend ("vm-kvm: build MSR list: " +:+ e)), v)
      | Ok _ =>
          match set_msrs msrs v with
          | (Err e, v) => (Err (kvm_err "set_msrs" e), v)
          | (Ok written, v) =>
              if written =? zlen msrs then (Ok tt, v)
              else (Err (Backend ("vm-kvm: set_msrs wrote " +:+ pretty written +:+ " of " +:+ pretty (zlen msrs) +:+ " MSRs")), v)
          end
      end
  end.

Definition restore_xsave (bs : bytes) : SM V VmError unit := fun v =>
  if negb (zlen bs =? reg_size Xsave)
  then (Err (Backend ("vm-kvm: snapshot xsave region is " +:+ pretty (zlen bs) +:+ " bytes, expected " +:+ pretty (reg_size Xsave))), v)
  else let (o, v) := set_reg Xsave bs v in (map_err (kvm_err "set_xsave") o, v).

Definition restore (s : VcpuState.t) : SM V VmError unit :=
  _ ← set "set_sregs" "sregs" Sregs (VcpuState.sregs s);
  _ ← set "set_regs" "regs" Regs (VcpuState.regs s);
  _ ← set "set_fpu" "fpu" Fpu (VcpuState.fpu s);
  _ ← set "set_xcrs" "xcrs" Xcrs (VcpuState.xcrs s);
  _ ← set "set_debug_regs" "debug_regs" DebugRegs (VcpuState.debug_regs s);
  _ ← restore_msrs (VcpuState.msrs s);
  _ ← restore_xsave (VcpuState.xsave s);
  _ ← set "set_lapic" "lapic" Lapic (VcpuState.lapic s);
  _ ← set "set_vcpu_events" "vcpu_events" VcpuEvents (VcpuState.vcpu_events s);
  set "set_mp_state" "mp_state" MpState (VcpuState.mp_state s).
End Vcpu.

Section Machine.
Context {D : Type} `{!VmIoctls D}.

Definition capture_irqchip (d : D) (chip_id : Z) : result VmError bytes :=
  map_err (kvm_err "get_irqchip") (get_dev (IrqChip chip_id) d).

Definition capture_machine (d : D) : result VmError MachineState.t :=
  pic_master ← capture_irqchip d KVM_IRQCHIP_PIC_MASTER;
  pic_slave ← capture_irqchip d KVM_IRQCHIP_PIC_SLAVE;
  ioapic ← capture_irqchip d KVM_IRQCHIP_IOAPIC;
  pit ← map_err (kvm_err "get_pit2") (get_dev Pit d);
  clock ← map_err (kvm_err "get_clock") (get_dev Clock d);
  Ok (MachineState.mk pic_master pic_slave ioapic pit clock).

Definition restore_irqchip (bs : bytes) (what : string) : SM D VmError unit := fun d =>
  match pod_from_bytes (dev_size (IrqChip 0)) what bs with
  | Err e => (Err e, d)
  | Ok bs => let (o, d) := set_irqchip bs d in (map_err (kvm_err "set_irqchip") o, d)
  end.

Definition restore_dev (op what : string) (k : dev) (bs : bytes) : SM D VmError unit := fun d =>
  match pod_from_bytes (dev_size k) what bs with
  | Err e => (Err e, d)
  | Ok bs => let (o, d) := set_dev k bs d in (map_err (kvm_err op) o, d)
  end.

Definition restore_machine (s : MachineState.t) : SM D VmError unit :=
  _ ← restore_irqchip (MachineState.pic_master s) "pic_master";
  _ ← restore_irqchip (MachineState.pic_slave s) "pic_slave";
  _ ← restore_irqchip (MachineState.ioapic s) "ioapic";
  _ ← restore_dev "set_pit2" "pit" Pit (MachineState.pit s);
  restore_dev "set_clock" "clock" Clock (MachineState.clock s).
End Machine.

(** ** Files *)

Section Files.
Context {T : Type} `{!Serde string T} {F : Type} `{!FileSystem F}.

(** [write_to_dir] and [read_from_dir] of both states, which differ in the file
    and the word in their messages. *)
Definition write_state (file what : string) (s : T) (dir : string) : SM F VmError unit := fun f =>
  match to_json s with
  | (Err e, _) => (Err (Backend ("vm-kvm: serialize " +:+ what +:+ " state: " +:+ e)), f)
  | (Ok _, js) =>
      let (r, f) := fs_write (push dir file) js f in
      (map_err (fun e => Backend ("vm-kvm: write " +:+ what +:+ " state: " +:+ e)) r, f)
  end.

Definition read_state (file what : string) (dir : string) (f : F) : result VmError T :=
  bs ← map_err (fun e => Backend ("vm-kvm: read " +:+ what +:+ " state: " +:+ e)) (fs_read f (push dir file));
  map_err (fun e => Backend ("vm-kvm: parse " +:+ what +:+ " state: " +:+ e)) (from_json bs).
End Files.

Section StateFiles.
Context `{!Serde string VcpuState.t, !Serde string MachineState.t} {F : Type} `{!FileSystem F}.
Definition write_vcpu_state : VcpuState.t -> string -> SM F VmError unit := write_state VCPU_STATE_FILE "vcpu".
Definition read_vcpu_state : string -> F -> result VmError VcpuState.t := read_state VCPU_STATE_FILE "vcpu".
Definition write_machine_state : MachineState.t -> string -> SM F VmError unit := write_state MACHINE_STATE_FILE "machine".
Definition read_machine_state : string -> F -> result VmError MachineState.t := read_state MACHINE_STATE_FILE "machine".
End StateFiles.

(** ** Capture and restore *)

(** What is promised of a read: a structure is read whole. Nothing is promised of
    how the structures depend on each other: which order they are set in matters,
    and what a vCPU is after the calls is the kernel's business. *)
Class VcpuLaws (V : Type) `{!VcpuIoctls V} := {
  get_reg_size r bs (v : V) : get_reg r v = Ok bs -> zlen bs = reg_size r;
}.

(** The calls a restore makes on a vCPU, and on a VM's devices. *)
Inductive vcpu_call : Type := SetReg (r : reg) (bs : bytes) | SetMsrs (ms : list MsrEntry.t).
Inductive dev_call : Type := SetIrqchip (bs : bytes) | SetDev (k : dev) (bs : bytes).

(** One element comes somewhere before another. *)
Definition precedes {A} (P Q : A -> Prop) (l : list A) : Prop :=
  forall l1 a l2, l = l1 ++ a :: l2 -> Q a -> Exists P l1.

Definition sets (r : reg) (c : vcpu_call) : Prop := if c is SetReg r' _ then r' = r else False.
Definition sets_msrs (c : vcpu_call) : Prop := if c is SetMsrs _ then True else False.

(** The order [restore] documents: sregs before regs, MSRs (when there are any)
    before the local APIC, the pending events and the run state last. *)
Definition documented_order (s : VcpuState.t) (calls : list vcpu_call) : Prop :=
  precedes (sets Sregs) (sets Regs) calls /\
  (VcpuState.msrs s <> [] -> precedes sets_msrs (sets Lapic) calls) /\
  exists first, calls = first ++ [SetReg VcpuEvents (VcpuState.vcpu_events s); SetReg MpState (VcpuState.mp_state s)].

Lemma precedes_intro {A} (P Q : A -> Prop) l1 l2 :
  Exists P l1 -> Forall (fun a => ~ Q a) l1 -> precedes P Q (l1 ++ l2).
Proof.
  intros HP HQ k1 a k2 Heq Ha. apply app_eq_inv in Heq as [(k & -> & Hk)|(k & -> & Hk)].
  - destruct k as [|b k]; simplify_list_eq; [done|]. apply Forall_app in HQ as [_ HQ]. by apply Forall_inv in HQ.
  - apply Exists_app. by left.
Qed.

(** The blobs of a state, by structure. *)
Definition blobs (s : VcpuState.t) : list (reg * bytes) :=
  [(Regs, VcpuState.regs s); (Sregs, VcpuState.sregs s); (Fpu, VcpuState.fpu s); (Xcrs, VcpuState.xcrs s);
   (DebugRegs, VcpuState.debug_regs s); (MpState, VcpuState.mp_state s); (VcpuEvents, VcpuState.vcpu_events s);
   (Lapic, VcpuState.lapic s); (Xsave, VcpuState.xsave s)].

(** Every structure of a state, and its model-specific registers if it has any. *)
Definition state_calls (s : VcpuState.t) : list vcpu_call :=
  ((fun b => SetReg b.1 b.2) <$> blobs s) ++ (if VcpuState.msrs s is [] then [] else [SetMsrs (VcpuState.msrs s)]).

(** The blobs of a machine state; the chips go by the number they were read with. *)
Definition dev_blobs (ms : MachineState.t) : list (dev * bytes) :=
  [(IrqChip KVM_IRQCHIP_PIC_MASTER, MachineState.pic_master ms); (IrqChip KVM_IRQCHIP_PIC_SLAVE, MachineState.pic_slave ms);
   (IrqChip KVM_IRQCHIP_IOAPIC, MachineState.ioapic ms); (Pit, MachineState.pit ms); (Clock, MachineState.clock ms)].
Definition dev_call_of (b : dev * bytes) : dev_call := if b.1 is IrqChip _ then SetIrqchip b.2 else SetDev b.1 b.2.

Section Calls.
Context {V : Type} `{!VcpuIoctls V}.

(** The call was made on [v], succeeded, and left [v']. *)
Definition issues (c : vcpu_call) (v v' : V) : Prop :=
  match c with
  | SetReg r bs => zlen bs = reg_size r /\ set_reg r bs v = (Ok tt, v')
  | SetMsrs ms => set_msrs ms v = (Ok (zlen ms), v')
  end.

Inductive issued : list vcpu_call -> V -> V -> Prop :=
| issued_nil v : issued [] v v
| issued_cons c cs v v1 v2 : issues c v v1 -> issued cs v1 v2 -> issued (c :: cs) v v2.

(** What the call sets is what the vCPU [v] answered for it. *)
Definition call_reads (v : V) (indices : list Z) (c : vcpu_call) : Prop :=
  match c with
  | SetReg r bs => get_reg r v = Ok bs
  | SetMsrs ms => exists entries read, get_msrs indices v = Ok (entries, read) /\ ms = take (Z.to_nat read) entries
  end.

Lemma set_issues op what r bs (v v' : V) : set op what r bs v = (Ok tt, v') -> issues (SetReg r bs) v v'.
Proof.
  unfold set, pod_from_bytes. destruct (Z.eqb_spec (zlen bs) (reg_size r)); [|done].
  destruct (set_reg r bs v) as [[[]|] v1] eqn:Hs; simpl; intros Heq; by simplify_eq.
Qed.

Lemma restore_xsave_issues bs (v v' : V) : restore_xsave bs v = (Ok tt, v') -> issues (SetReg Xsave bs) v v'.
Proof.
  unfold restore_xsave. destruct (Z.eqb_spec (zlen bs) (reg_size Xsave)); [|done]. simpl.
  destruct (set_reg Xsave bs v) as [[[]|] v1] eqn:Hs; simpl; intros Heq; by simplify_eq.
Qed.

Lemma restore_msrs_issues ms (v v' : V) :
  restore_msrs ms v = (Ok tt, v') -> issued (if ms is [] then [] else [SetMsrs ms]) v v'.
Proof.
  unfold restore_msrs. destruct ms as [|e ms]; [intros [= <-]; constructor|].
  destruct (msrs_fit _) as [[]|]; [|done]. destruct (set_msrs (e :: ms) v) as [[n|] v1] eqn:Hs; [|done].
  destruct (Z.eqb_spec n (zlen (e :: ms))) as [->|]; intros Heq; simplify_eq. by eapply issued_cons, issued_nil.
Qed.

Lemma issued_app cs cs' (v v1 v2 : V) : issued cs v v1 -> issued cs' v1 v2 -> issued (cs ++ cs') v v2.
Proof. induction 1; simpl; eauto using issued. Qed.

(** A restore that succeeds made the calls of the state, each once, in the order
    the code documents. *)
Lemma restore_issues s (v v' : V) :
  restore s v = (Ok tt, v') ->
  exists calls, issued calls v v' /\ calls ≡ₚ state_calls s /\ documented_order s calls.
Proof.
  unfold restore. intros H.
  apply sm_bind_inv in H as ([] & v1 & S1%set_issues & H). apply sm_bind_inv in H as ([] & v2 & S2%set_issues & H).
  apply sm_bind_inv in H as ([] & v3 & S3%set_issues & H). apply sm_bind_inv in H as ([] & v4 & S4%set_issues & H).
  apply sm_bind_inv in H as ([] & v5 & S5%set_issues & H). apply sm_bind_inv in H as ([] & v6 & S6%restore_msrs_issues & H).
  apply sm_bind_inv in H as ([] & v7 & S7%restore_xsave_issues & H). apply sm_bind_inv in H as ([] & v8 & S8%set_issues & H).
  apply sm_bind_inv in H as ([] & v9 & S9%set_issues & H). apply set_issues in H as S10.
  set (ms := if VcpuState.msrs s is [] then [] else [SetMsrs (VcpuState.msrs s)]) in *.
  exists ([SetReg Sregs (VcpuState.sregs s); SetReg Regs (VcpuState.regs s); SetReg Fpu (VcpuState.fpu s);
      SetReg Xcrs (VcpuState.xcrs s); SetReg DebugRegs (VcpuState.debug_regs s)] ++ ms ++
    [SetReg Xsave (VcpuState.xsave s); SetReg Lapic (VcpuState.lapic s);
     SetReg VcpuEvents (VcpuState.vcpu_events s); SetReg MpState (VcpuState.mp_state s)]).
  split_and!.
  - repeat (eapply issued_cons; [eassumption|]). eapply issued_app; [exact S6|]. eauto using issued.
  - unfold state_calls. fold ms. simpl. solve_Permutation.
  - split_and!.
    + apply (precedes_intro _ _ [_]); repeat constructor; simpl; intros; done.
    + intros Hms. rewrite app_assoc. apply precedes_intro.
      * apply Exists_app. right. unfold ms. destruct (VcpuState.msrs s); [done|]. by repeat constructor.
      * apply Forall_app. split; [repeat constructor; intros ?; done|]. unfold ms.
        destruct (VcpuState.msrs s); [done|]. apply Forall_singleton. by intros ?.
    + eexists (_ :: _ :: _ :: _ :: _ :: ms ++ [_; _]). simpl. by rewrite <- app_assoc.
Qed.

Lemma capture_reads (v : V) indices s : capture v indices = Ok s -> Forall (call_reads v indices) (state_calls s).
Proof.
  unfold capture, get. intros H.
  repeat match type of H with
  | map_err _ (get_reg ?r v) ≫= _ = _ =>
      let Hr := fresh "Hr" in destruct (get_reg r v) eqn:Hr; cbn [map_err mbind result_bind] in H; [|done]
  end.
  unfold capture_msrs in H. destruct indices as [|i idx].
  { injection H as <-. unfold state_calls. simpl. by repeat constructor. }
  destruct (msrs_fit _) as [[]|]; [|done]. cbn [map_err mbind result_bind] in H.
  destruct (get_msrs (i :: idx) v) as [[entries rd]|] eqn:Hm; [|done]. injection H as <-.
  unfold state_calls. apply Forall_app. split; [by repeat constructor|]. cbn [VcpuState.msrs].
  destruct (take _ entries) eqn:Ht; constructor; [|done]. exists entries, rd. by rewrite Ht.
Qed.
(** What a successful capture holds has the sizes the restore checks. *)
Lemma capture_sizes `{!VcpuLaws V} (v : V) idx s :
  capture v idx = Ok s -> Forall (fun b => zlen b.2 = reg_size b.1) (blobs s).
Proof.
  intros Hc. apply capture_reads, Forall_app in Hc as [Hc _]. rewrite Forall_fmap in Hc.
  eapply Forall_impl; [exact Hc|]. intros [r bs]. apply get_reg_size.
Qed.
End Calls.

Section DevCalls.
Context {D : Type} `{!VmIoctls D}.

Definition dev_issues (c : dev_call) (d d' : D) : Prop :=
  match c with
  | SetIrqchip bs => zlen bs = dev_size (IrqChip 0) /\ set_irqchip bs d = (Ok tt, d')
  | SetDev k bs => zlen bs = dev_size k /\ set_dev k bs d = (Ok tt, d')
  end.

Inductive dev_issued : list dev_call -> D -> D -> Prop :=
| dev_issued_nil d : dev_issued [] d d
| dev_issued_cons c cs d d1 d2 : dev_issues c d d1 -> dev_issued cs d1 d2 -> dev_issued (c :: cs) d d2.

Lemma restore_irqchip_issues bs what (d d' : D) : restore_irqchip bs what d = (Ok tt, d') -> dev_issues (SetIrqchip bs) d d'.
Proof.
  unfold restore_irqchip, pod_from_bytes. destruct (Z.eqb_spec (zlen bs) (dev_size (IrqChip 0))); [|done].
  destruct (set_irqchip bs d) as [[[]|] d1] eqn:Hs; simpl; intros Heq; by simplify_eq.
Qed.

Lemma restore_dev_issues op what k bs (d d' : D) : restore_dev op what k bs d = (Ok tt, d') -> dev_issues (SetDev k bs) d d'.
Proof.
  unfold restore_dev, pod_from_bytes. destruct (Z.eqb_spec (zlen bs) (dev_size k)); [|done].
  destruct (set_dev k bs d) as [[[]|] d1] eqn:Hs; simpl; intros Heq; by simplify_eq.
Qed.

(** The devices: captured one by one, and set in the same order. *)
Lemma restore_machine_issues ms (d d' : D) :
  restore_machine ms d = (Ok tt, d') -> dev_issued (dev_call_of <$> dev_blobs ms) d d'.
Proof.
  unfold restore_machine. intros H.
  apply sm_bind_inv in H as ([] & d1 & S1%restore_irqchip_issues & H).
  apply sm_bind_inv in H as ([] & d2 & S2%restore_irqchip_issues & H).
  apply sm_bind_inv in H as ([] & d3 & S3%restore_irqchip_issues & H).
  apply sm_bind_inv in H as ([] & d4 & S4%restore_dev_issues & H). apply restore_dev_issues in H.
  repeat (eapply dev_issued_cons; [eassumption|]). constructor.
Qed.

Lemma capture_machine_reads (d : D) ms :
  capture_machine d = Ok ms -> Forall (fun b => get_dev b.1 d = Ok b.2) (dev_blobs ms).
Proof.
  unfold capture_machine, capture_irqchip. intros H.
  repeat match type of H with
  | map_err _ (get_dev ?k d) ≫= _ = _ =>
      let Hr := fresh "Hr" in destruct (get_dev k d) eqn:Hr; cbn [map_err mbind result_bind] in H; [|done]
  end.
  injection H as <-. by repeat constructor.
Qed.
End DevCalls.

Lemma state_files_roundtrip {T F : Type} `{!Serde string T, !SerdeLaws string T, !FileSystem F, !FileSystemLaws F}
    file what (s : T) dir (f f' : F) :
  write_state file what s dir f = (Ok tt, f') -> read_state file what dir f' = Ok s.
Proof.
  unfold write_state, read_state. destruct (to_json s) as [[[]|] js] eqn:Hj; [|done].
  destruct (fs_write _ js f) as [[[]|] f1] eqn:Hw; simpl; intros Heq; simplify_eq.
  rewrite (fs_read_write _ _ _ _ Hw). simpl. by rewrite (json_roundtrip _ _ Hj).
Qed.

(** A vCPU state survives the snapshot. Written to a snapshot directory it is
    read back as it was; every blob of a captured state passes the size check of
    the restore; and a restore that succeeds made exactly the calls that set what
    the captured vCPU answered, in the documented order. *)
Theorem vcpu_state_roundtrip {V F : Type} `{!VcpuIoctls V, !VcpuLaws V}
    `{!Serde string VcpuState.t, !SerdeLaws string VcpuState.t, !FileSystem F, !FileSystemLaws F}
    (v fresh v' : V) indices s dir (f f' : F) :
  capture v indices = Ok s -> write_vcpu_state s dir f = (Ok tt, f') ->
  read_vcpu_state dir f' = Ok s /\
  Forall (fun b => pod_from_bytes (reg_size b.1) "" b.2 = Ok b.2) (blobs s) /\
  (restore s fresh = (Ok tt, v') ->
     exists calls, issued calls fresh v' /\ calls ≡ₚ state_calls s /\ documented_order s calls /\
       Forall (call_reads v indices) calls).
Proof.
  intros Hc Hw. split_and!.
  - by eapply state_files_roundtrip.
  - apply capture_sizes in Hc. eapply Forall_impl; [exact Hc|]. simpl. intros [r bs] Hb. simpl in *.
    unfold pod_from_bytes. by rewrite Hb, Z.eqb_refl.
  - intros (calls & Hi & Hp & Ho)%restore_issues. exists calls. split_and!; [done..|]. rewrite Hp. by apply capture_reads.
Qed.

(** ** A sample vCPU *)

Module StateSample.
Definition vcpu : Type := (reg -> bytes) * list MsrEntry.t.
Definition set_field (r : reg) (bs : bytes) (v : vcpu) : vcpu :=
  (fun r' => if decide (r' = r) then bs else v.1 r', v.2).

#[local] Instance ioctls : VcpuIoctls vcpu := {|
  reg_size _ := 1;
  get_reg r v := if zlen (v.1 r) =? 1 then Ok (v.1 r) else Err "unset";
  set_reg r bs v := if zlen bs =? 1 then (Ok tt, set_field r bs v) else (Err "size", v);
  get_msrs _ v := Ok (v.2, zlen v.2);
  set_msrs ms v := (Ok (zlen ms), (v.1, ms));
  msrs_fit _ := Ok tt;
|}.

#[local] Instance laws : VcpuLaws vcpu.
Proof. split. simpl. intros r bs v. destruct (Z.eqb_spec (zlen (v.1 r)) 1); intros [= <-]. done. Qed.

Definition state : VcpuState.t :=
  VcpuState.mk [Byte.x01] [Byte.x02] [Byte.x03] [Byte.x04] [Byte.x05] [Byte.x06] [Byte.x07] [Byte.x08] [Byte.x09]
    [MsrEntry.mk 16 7].
#[local] Instance state_dec : EqDecision VcpuState.t.
Proof. solve_decision. Defined.
(** JSON of the one state, with the error type of the files. *)
#[local] Instance state_serde : Serde string VcpuState.t := {|
  to_json s := if decide (s = state) then (Ok tt, [Byte.x7b]) else (Err "unknown", []);
  from_json _ := Ok state;
|}.
#[local] Instance state_serde_laws : SerdeLaws string VcpuState.t.
Proof. split. intros v js. simpl. case_decide as Hd; [by subst|done]. Qed.

Definition running : vcpu :=
  (fun r => match r with
    | Regs => [Byte.x01] | Sregs => [Byte.x02] | Fpu => [Byte.x03] | Xcrs => [Byte.x04] | DebugRegs => [Byte.x05]
    | MpState => [Byte.x06] | VcpuEvents => [Byte.x07] | Lapic => [Byte.x08] | Xsave => [Byte.x09] end, [MsrEntry.mk 16 7]).
Definition blank : vcpu := (fun _ => [Byte.x00], []).

Lemma vcpu_state_roundtrip_witness :
  let f' := (write_vcpu_state state "/snap" (∅ : FlatFs.t)).2 in
  read_vcpu_state "/snap" f' = Ok state /\
  exists calls, issued calls blank (restore state blank).2 /\ Forall (call_reads running [16]) calls.
Proof.
  intros f'. destruct (write_vcpu_state state "/snap" (∅ : FlatFs.t)) as [r f1] eqn:Hw.
  assert (r = Ok tt) as -> by (change r with (fst (r, f1)); rewrite <- Hw; reflexivity).
  destruct (restore state blank) as [r v'] eqn:Hr.
  assert (r = Ok tt) as -> by (change r with (fst (r, v')); rewrite <- Hr; vm_compute; reflexivity).
  assert (Hc : capture running [16] = Ok state) by (vm_compute; reflexivity).
  destruct (vcpu_state_roundtrip running blank v' [16] state "/snap" ∅ f1 Hc Hw) as (H1 & _ & H3).
  split; [exact H1|]. destruct (H3 Hr) as (calls & Hi & _ & _ & Hf). exists calls. by split.
Defined.
End StateSample.
