(* ===== verification/Kvm.v ===== *)
(** * The KVM hypervisor ([crates/vm-kvm/src/lib.rs])

    [KvmHypervisor]: how a VM is built from its configuration or from a snapshot,
    how its vCPU thread is started, stopped and paused, and every method of the
    [Hypervisor] trait. A VM's guest memory, VM descriptor, devices and serial
    output are shared by its thread and by the handles the hypervisor keeps;
    they are one [Machine] per VM.

    The kernel's descriptors, the loader of kernel images and the host's clock are
    interfaces. So is the vCPU thread: what a running guest did by the time an
    operation has to wait for it ([thread_join], [thread_pause], [thread_run]) is
    the guest's; the hand-off behind those waits is [VcpuThread], the body of the
    thread [Machine.handle_exit]. A method runs from beginning to end, as it does
    under the hypervisor's lock. *)

From Stdlib Require Import Ascii String.
From stdpp Require Import strings pretty.
From S2P Require Import Prelude GuestMemory VirtioQueue Mmio VsockProto VsockTable VsockQueue VsockDevice NetQueue NetDevice Str Io Fs VmCore VmMock Store Proto Snapshot Boot KvmVsock KvmState HvCalls.

Local Open Scope Z_scope.

Definition KVM_TSS_ADDRESS : Z := 0xfffbd000.
Definition KVM_PIT_SPEAKER_DUMMY : Z := 1.
Definition VSOCK_DEFAULT_BUF_ALLOC : Z := 64 * 1024.
Definition HOST_CID : Z := 2.
Definition DEFAULT_MAC : bytes := byte_of <$> [0x52; 0x54; 0x00; 0x12; 0x34; 0x56].

(** ** What the hypervisor calls *)

Module MemoryRegion.
Record t : Type := mk { slot : Z; guest_phys_addr : Z; memory_size : Z; userspace_addr : Z; flags : Z }.
End MemoryRegion.

(** A region of guest memory: start, length, and the host address of its mapping. *)
Module Region.
Record t : Type := mk { start_addr : Z; len : Z; host_address : result string Z }.
End Region.
Class RamRegions (M : Type) := regions : M -> list Region.t.

Class VmFd (Vc D : Type) := {
  set_tss_address : Z -> SM D string unit;
  create_irq_chip : SM D string unit;
  create_pit2 : Z -> SM D string unit;
  set_user_memory_region : MemoryRegion.t -> SM D string unit;
  create_vcpu : Z -> SM D string Vc;
}.

(** [/dev/kvm] and the clocks, wall and monotonic, in milliseconds. *)
Class KvmHost (CpuId D K : Type) := {
  kvm_create_vm : SM K string D;
  get_supported_cpuid : K -> result string CpuId;
  unix_ms : K -> Z;
  host_now : K -> Z;
  host_sleep : Z -> K -> K;
}.

(** [linux_loader]: where an image was put and its setup header; the command
    line as a C string, without its terminator. *)
Class LinuxLoader (Hd C M : Type) := {
  bzimage_load : Z -> bytes -> Z -> SM M string (Z * option (SetupHeader.t Hd));
  load_cmdline : Z -> C -> SM M string unit;
  write_bootparams : BootParams.t Hd -> Z -> SM M string unit;
  default_header : SetupHeader.t Hd;
  as_cstring : C -> result string string;
}.

(** The vCPU thread, over the machine it shares. [thread_finished] is what
    joining a finished thread returns, [Err] when it panicked; [thread_join] and
    [thread_pause] wait for a thread that was asked and signalled; [thread_run] is
    what it does in the given time. *)
Class VcpuThreads (Vc X T : Type) := {
  thread_spawn : VmId -> Vc -> T;
  thread_finished : T -> option (result unit (result VmError unit));
  thread_kill : T -> result string unit;
  thread_join : T -> X -> result unit (result VmError unit) * X;
  thread_pause : T -> X -> result VmError VcpuState.t * T * X;
  thread_resume : T -> T;
  thread_run : Z -> T -> X -> T * X;
}.

(** How values are rendered in messages. *)
Class Messages (E JE : Type) := {
  display_mem_error : E -> string;
  display_errno : Z -> string;
  display_queue_error : VsockQueue.QueueError -> string;
  display_frame_error : FrameError JE -> string;
  debug_body : ResponseBody -> string;
  debug_code : ErrorCode -> string;
  debug_str : string -> string;
  image_message : ImageError E -> string;
}.

(** A call whose state is dropped when it fails, with the context of its error. *)
Definition run {S A} (c : SM S VmError A) (s : S) : result VmError (A * S) :=
  match c s with (Ok a, s) => Ok (a, s) | (Err e, _) => Err e end.
Definition ctx {S A} (what : string) (c : SM S string A) (s : S) : result VmError (A * S) :=
  match c s with (Ok a, s) => Ok (a, s) | (Err e, _) => Err (Backend (what +:+ e)) end.
Definition backend {A} (what : string) (r : result string A) : result VmError A :=
  map_err (fun e => Backend (what +:+ e)) r.

(** ** Building a VM *)

Module KvmVmRuntime.
Record t (M C D B : Type) : Type := mk {
  machine : Machine.t M D B;
  kernel_load_addr : Z;
  initrd_load_addr : option Z;
  cmdline : C;
  entry_point : Z;
  real_mode : bool;
}.
Arguments mk {M C D B}.
Arguments machine {M C D B}.
Arguments kernel_load_addr {M C D B}.
Arguments initrd_load_addr {M C D B}.
Arguments cmdline {M C D B}.
Arguments entry_point {M C D B}.
Arguments real_mode {M C D B}.

(** The plan, whose memory is the machine's. *)
Definition boot_plan {M C D B} (r : t M C D B) : KvmBootPlan.t M C :=
  KvmBootPlan.mk (Machine.guest_mem (machine r)) (kernel_load_addr r) (initrd_load_addr r) (cmdline r).
Definition set_machine {M C D B} (x : Machine.t M D B) (r : t M C D B) : t M C D B :=
  mk x (kernel_load_addr r) (initrd_load_addr r) (cmdline r) (entry_point r) (real_mode r).
End KvmVmRuntime.

Section Build.
Context {E M : Type} `{!GuestMem E M, !GuestRam M, !RamRegions M}.
Context {C Hd : Type} `{!CmdlineBuilder C, !LinuxLoader Hd C M}.
Context {CpuId Vc D K : Type} `{!VcpuFd CpuId Vc, !VcpuIoctls Vc, !IrqLines D, !VmIoctls D, !VmFd Vc D, !KvmHost CpuId D K}.
Context {B : Type} `{!NetworkBackend B}.
Context {F : Type} `{!FileSystem F, !Serde string Manifest.t, !Serde string VcpuState.t, !Serde string MachineState.t}.
Context {JE : Type} `{!Messages E JE}.
(** The transports of the network device; [smoltcp_backend] is absent in a build
    without that feature. *)
Variable mock_backend : B.
Variable smoltcp_backend : option B.
(** The private file mapping of [cow_guest_memory]. *)
Variable mmap_private : bytes -> Z -> nat -> option M.

Abbreviation runtime := (KvmVmRuntime.t M C D B).
Abbreviation machine := (Machine.t M D B).

Definition cmdline_string (c : C) : result VmError string := backend "kernel cmdline CString: " (as_cstring (M := M) c).
(** The length with the terminator. *)
Definition cmdline_size (c : C) : result VmError Z :=
  s ← backend "kernel cmdline CString: " (as_cstring (M := M) c); Ok (Z.of_nat (String.length s) + 1).

Definition create_vm_fd : SM K VmError D := fun k =>
  let (r, k) := kvm_create_vm k in (backend "create VM: " r, k).

(** TSS address, interrupt controllers and timer. *)
Definition create_devices (d : D) : result VmError D :=
  '(_, d) ← ctx "set TSS address: " (set_tss_address KVM_TSS_ADDRESS) d;
  '(_, d) ← ctx "create irqchip: " create_irq_chip d;
  '(_, d) ← ctx "create PIT: " (create_pit2 KVM_PIT_SPEAKER_DUMMY) d;
  Ok d.

Fixpoint register_regions (slot : Z) (rs : list Region.t) (d : D) : result VmError D :=
  match rs with
  | [] => Ok d
  | r :: rs =>
      userspace_addr ← backend ("resolve host address for memslot " +:+ pretty slot +:+ ": ") (Region.host_address r);
      if 2 ^ 32 <=? slot then Err (Backend ("too many guest memory regions: " +:+ pretty slot))
      else
        '(_, d) ← ctx ("register memslot " +:+ pretty slot +:+ ": ")
           (set_user_memory_region (MemoryRegion.mk slot (Region.start_addr r) (Region.len r) userspace_addr 0)) d;
        register_regions (slot + 1) rs d
  end.

Definition register_guest_memory (d : D) (m : M) : result VmError D := register_regions 0 (regions m) d.

(** Kernel, command line, initramfs and boot parameters into guest memory; the
    64-bit entry point. *)
Definition load_linux (f : F) (cfg : VmConfig.t) (kernel : string) (plan : KvmBootPlan.t M C) : result VmError (Z * M) :=
  let m := KvmBootPlan.guest_mem plan in
  kernel_file ← backend ("open kernel " +:+ kernel +:+ ": ") (fs_read f kernel);
  '((kernel_load, setup_header), m) ←
     ctx ("load bzImage " +:+ kernel +:+ ": ") (bzimage_load (KvmBootPlan.kernel_load_addr plan) kernel_file HIMEM_START) m;
  entry_point ← ok_or (Backend "vm-kvm: entry point overflow") (checked_add64 kernel_load BZIMAGE_64BIT_ENTRY_OFFSET);
  cmdline_size ← cmdline_size (KvmBootPlan.cmdline plan);
  '(_, m) ← ctx "load kernel cmdline: " (load_cmdline CMDLINE_START (KvmBootPlan.cmdline plan)) m;
  '(initrd, m) ← (match VmConfig.initrd cfg with
                  | Some path =>
                      '(at_, m) ← run (load_initrd display_mem_error path (fs_read f path)) m; Ok (Some at_, m)
                  | None => Ok (None, m)
                  end);
  '(_, m) ← run (configure_linux_boot default_header write_bootparams setup_header CMDLINE_START cmdline_size initrd) m;
  Ok (entry_point, m).

Definition new_vsock (cid : Z) : Machine.VsockPart :=
  let device := VsockDevice.new cid {| local_cid := HOST_CID; default_buf_alloc := VSOCK_DEFAULT_BUF_ALLOC |} in
  let (_, device) := VsockDevice.listen VSOCK_HOST_PORT device in
  Machine.mk_vsock device VSOCK_MMIO_IRQ false.

Definition net_backend (choice : NetBackendChoice) : B :=
  match choice with
  | NetMock => mock_backend
  | NetSmoltcp => default mock_backend smoltcp_backend
  end.

(** [NetBackend::new], but for the shared handles. *)
Definition new_net (choice : NetBackendChoice) : Machine.NetPart (B := B) :=
  Machine.mk_net (VirtioNetDevice.with_backend_arc (net_backend choice) DEFAULT_MAC) (mk_cursor 0) (mk_cursor 0) NET_MMIO_IRQ.

Definition build_flat_runtime (cfg : VmConfig.t) (binary : bytes) : SM K VmError runtime :=
  plan ← sm_lift (KvmBootPlan.from_config_flat cfg);
  let size := KvmBootPlan.memory_size_bytes plan in
  if size <? zlen binary then
    sm_fail (Backend ("vm-kvm: flat_binary (" +:+ pretty (zlen binary) +:+ " bytes) exceeds guest memory ("
                      +:+ pretty size +:+ " bytes)"))
  else
    d ← create_vm_fd;
    d ← sm_lift (register_guest_memory d (KvmBootPlan.guest_mem plan));
    '(_, m) ← sm_lift (run (write_bytes display_mem_error "write flat_binary at GPA 0: " 0 binary)
                           (KvmBootPlan.guest_mem plan));
    mret (KvmVmRuntime.mk (Machine.mk m d None None []) (KvmBootPlan.kernel_load_addr plan)
            (KvmBootPlan.initrd_load_addr plan) (KvmBootPlan.cmdline plan) 0 true).

Definition build_linux_runtime (f : F) (cfg : VmConfig.t) (kernel : string) : SM K VmError runtime :=
  plan ← sm_lift (KvmBootPlan.from_config cfg);
  d ← create_vm_fd;
  d ← sm_lift (create_devices d);
  d ← sm_lift (register_guest_memory d (KvmBootPlan.guest_mem plan));
  '(entry_point, m) ← sm_lift (load_linux f cfg kernel plan);
  let x := Machine.mk m d (new_vsock <$> VmConfig.vsock_cid cfg) (Some (new_net (VmConfig.net_backend cfg))) [] in
  mret (KvmVmRuntime.mk x (KvmBootPlan.kernel_load_addr plan) (KvmBootPlan.initrd_load_addr plan)
          (KvmBootPlan.cmdline plan) entry_point false).

Definition build_runtime (f : F) (cfg : VmConfig.t) : SM K VmError runtime :=
  match VmConfig.snapshot_dir cfg, VmConfig.flat_binary cfg, VmConfig.kernel cfg with
  | Some _, _, _ => sm_fail (Unsupported "vm-kvm: snapshot restore is not implemented in M1")
  | None, flat, kernel =>
      if negb (VmConfig.vcpus cfg =? 1) then sm_fail (Unsupported "vm-kvm: M1 currently supports exactly one vCPU")
      else
        match flat, kernel with
        | Some _, Some _ =>
            sm_fail (Backend "vm-kvm: VmConfig.kernel and VmConfig.flat_binary are mutually exclusive")
        | Some binary, None => build_flat_runtime cfg binary
        | None, None => sm_fail (Backend "vm-kvm: kernel path is required")
        | None, Some kernel => build_linux_runtime f cfg kernel
        end
  end.

(** [cow_guest_memory] of the file at [path]. *)
Definition map_image (f : F) (path : string) (mem_bytes : Z) : result VmError M :=
  file ← backend "vm-kvm: open memory image: " (fs_read f path);
  map_err (fun e => Backend (image_message e)) (cow_guest_memory mmap_private file mem_bytes).

(** [dump_memory] to the file at [path]; the file is created after the header
    was checked. *)
Definition dump_image (m : M) (mem_bytes : Z) (path : string) : SM F VmError unit := fun f =>
  match BackingFileHeader.new Snapshot.PAGE_SIZE (mem_bytes / Snapshot.PAGE_SIZE) with
  | Err e => (Err (Backend (image_message (ImageHeader e))), f)
  | Ok _ =>
      match fs_write path [] f with
      | (Err e, f) => (Err (Backend ("vm-kvm: create memory image: " +:+ e)), f)
      | (Ok _, f) =>
          let (r, w) := dump_memory (Ok tt) m mem_bytes (Writer.mk [] None) in
          match fs_write path (Writer.written w) f with
          | (Err e, f) => (Err (Backend ("vm-kvm: write memory image: " +:+ e)), f)
          | (Ok _, f) => (map_err (fun e => Backend (image_message e)) r, f)
          end
      end
  end.

Definition restored_cmdline (manifest : Manifest.t) : result VmError C :=
  cmdline ← backend "kernel cmdline capacity: " (cmdline_new CMDLINE_CAPACITY);
  if String.eqb (Manifest.kernel_cmdline manifest) "" then Ok cmdline
  else backend "restore kernel cmdline: " (insert_str (Manifest.kernel_cmdline manifest) cmdline).

(** Machine devices, then the vCPU. *)
Definition restore_vcpu (f : F) (cpuid : result string CpuId) (dir : string) (d : D) : result VmError (Vc * D) :=
  ms ← read_machine_state dir f;
  '(_, d) ← run (restore_machine ms) d;
  '(vcpu, d) ← ctx "create vCPU: " (create_vcpu 0) d;
  cpuid ← backend "get supported CPUID: " cpuid;
  '(_, vcpu) ← ctx "set CPUID: " (set_cpuid2 cpuid) vcpu;
  vs ← read_vcpu_state dir f;
  '(_, vcpu) ← run (KvmState.restore vs) vcpu;
  Ok (vcpu, d).

Definition restore_runtime (f : F) (manifest : Manifest.t) (dir : string) : SM K VmError (runtime * Vc) :=
  guest_mem ← sm_lift (map_image f (FsSnapshotStore.backing_file_path manifest dir) (Manifest.memory_bytes manifest));
  d ← create_vm_fd;
  d ← sm_lift (create_devices d);
  d ← sm_lift (register_guest_memory d guest_mem);
  cpuid ← sm_gets get_supported_cpuid;
  '(vcpu, d) ← sm_lift (restore_vcpu f cpuid dir d);
  cmdline ← sm_lift (restored_cmdline manifest);
  mret (KvmVmRuntime.mk (Machine.mk guest_mem d None None []) 0 None cmdline 0 false, vcpu).
End Build.

(** ** The hypervisor *)

Module KvmVm.
Record t (M C D B T : Type) : Type := mk {
  config : VmConfig.t;
  state : VmState;
  runtime : KvmVmRuntime.t M C D B;
  vcpu : option T;
  last_run_error : option string;
}.
Arguments mk {M C D B T}.
Arguments config {M C D B T}.
Arguments state {M C D B T}.
Arguments runtime {M C D B T}.
Arguments vcpu {M C D B T}.
Arguments last_run_error {M C D B T}.
End KvmVm.

Module SnapshotEntry.
Record t : Type := mk { dir : string; meta : SnapshotMeta.t }.
End SnapshotEntry.

Module KvmHypervisor.

(** [kvm] is the kernel and the host's clocks; the two counters are those of the
    process. *)
Record t (M C D B T K F : Type) : Type := mk {
  kvm : K;
  vms : gmap Z (KvmVm.t M C D B T);
  snapshots : gmap Z SnapshotEntry.t;
  next_vm : Z;
  next_snapshot : Z;
  fs : F;
}.
Arguments mk {M C D B T K F}.
Arguments kvm {M C D B T K F}.
Arguments vms {M C D B T K F}.
Arguments snapshots {M C D B T K F}.
Arguments next_vm {M C D B T K F}.
Arguments next_snapshot {M C D B T K F}.
Arguments fs {M C D B T K F}.

(** A request in flight: the VM's machine and thread, the vsock device as last
    seen, and the host's clock. Between two polls the guest runs. *)
Module Rpc.
Record t (M D B T K : Type) : Type := mk { machine : Machine.t M D B; part : Machine.VsockPart; thread : option T; host : K }.
Arguments mk {M D B T K}.
Arguments machine {M D B T K}.
Arguments part {M D B T K}.
Arguments thread {M D B T K}.
Arguments host {M D B T K}.
End Rpc.

Section Methods.
Context {E M : Type} `{!GuestMem E M, !GuestRam M, !RamRegions M}.
Context {C Hd : Type} `{!CmdlineBuilder C, !LinuxLoader Hd C M}.
Context {CpuId Vc D K : Type} `{!VcpuFd CpuId Vc, !VcpuIoctls Vc, !IrqLines D, !VmIoctls D, !VmFd Vc D, !KvmHost CpuId D K}.
Context {B : Type} `{!NetworkBackend B}.
Context {T : Type} `{!VcpuThreads Vc (Machine.t M D B) T}.
Context {F : Type} `{!FileSystem F, !DirFs F, !Serde string Manifest.t, !Serde string VcpuState.t, !Serde string MachineState.t}.
Context {JE : Type} `{!Serde JE Request.t, !Serde JE Response.t, !Messages E JE}.
Variable mock_backend : B.
Variable smoltcp_backend : option B.
Variable mmap_private : bytes -> Z -> nat -> option M.
Variable temp_dir : string.
(** The iteration orders of the hash maps of VMs and of vsock connections. *)
Variable vm_order : gmap Z (KvmVm.t M C D B T) -> list VmId.
Variable connection_order : gmap ConnectionId Connection.t -> list (ConnectionId * Connection.t).
(** How often a request looks for a free gate before it counts as stuck. *)
Variable gate : nat.

Abbreviation vm := (KvmVm.t M C D B T).
Abbreviation machine := (Machine.t M D B).
Abbreviation hypervisor := (t M C D B T K F).
Abbreviation HM := (SM hypervisor VmError).

Definition set_kvm (k : K) (h : hypervisor) : hypervisor :=
  mk k (vms h) (snapshots h) (next_vm h) (next_snapshot h) (fs h).
Definition set_vms (m : gmap Z vm) (h : hypervisor) : hypervisor :=
  mk (kvm h) m (snapshots h) (next_vm h) (next_snapshot h) (fs h).
Definition set_snapshots (m : gmap Z SnapshotEntry.t) (h : hypervisor) : hypervisor :=
  mk (kvm h) (vms h) m (next_vm h) (next_snapshot h) (fs h).
Definition set_fs (f : F) (h : hypervisor) : hypervisor :=
  mk (kvm h) (vms h) (snapshots h) (next_vm h) (next_snapshot h) f.

(** A call of the kernel; a call of the file system. *)
Definition on_kvm {A} (c : SM K VmError A) : HM A := fun h =>
  let (r, k) := c (kvm h) in (r, set_kvm k h).
Definition on_fs {A} (c : SM F VmError A) : HM A := fun h =>
  let (r, f) := c (fs h) in (r, set_fs f h).

Definition VmId_next : HM Z := fun h =>
  let (id, c) := fetch_add1 (next_vm h) in (Ok id, mk (kvm h) (vms h) (snapshots h) c (next_snapshot h) (fs h)).
Definition SnapshotId_next : HM Z := fun h =>
  let (id, c) := fetch_add1 (next_snapshot h) in (Ok id, mk (kvm h) (vms h) (snapshots h) (next_vm h) c (fs h)).

Definition get_vm (id : VmId) : HM vm := fun h => (ok_or (UnknownVm id) (vms h !! id), h).
Definition put_vm (id : VmId) (v : vm) : HM unit := sm_modify (fun h => set_vms (<[id := v]> (vms h)) h).
Definition get_snapshot (snap : SnapshotId) : HM SnapshotEntry.t := fun h =>
  (ok_or (UnknownSnapshot snap) (snapshots h !! snap), h).
Definition put_snapshot (snap : SnapshotId) (e : SnapshotEntry.t) : HM unit :=
  sm_modify (fun h => set_snapshots (<[snap := e]> (snapshots h)) h).

Definition with_machine (x : machine) (v : vm) : vm :=
  KvmVm.mk (KvmVm.config v) (KvmVm.state v) (KvmVmRuntime.set_machine x (KvmVm.runtime v)) (KvmVm.vcpu v)
    (KvmVm.last_run_error v).
Definition with_vcpu (t : option T) (v : vm) : vm :=
  KvmVm.mk (KvmVm.config v) (KvmVm.state v) (KvmVm.runtime v) t (KvmVm.last_run_error v).
Definition with_state (s : VmState) (v : vm) : vm :=
  KvmVm.mk (KvmVm.config v) s (KvmVm.runtime v) (KvmVm.vcpu v) (KvmVm.last_run_error v).
Definition with_error (e : option string) (v : vm) : vm :=
  KvmVm.mk (KvmVm.config v) (KvmVm.state v) (KvmVm.runtime v) (KvmVm.vcpu v) e.
Definition with_runtime (r : KvmVmRuntime.t M C D B) (v : vm) : vm :=
  KvmVm.mk (KvmVm.config v) (KvmVm.state v) r (KvmVm.vcpu v) (KvmVm.last_run_error v).
Definition vm_machine (v : vm) : machine := KvmVmRuntime.machine (KvmVm.runtime v).

(** *** vCPU threads *)

Definition join_vcpu_thread (joined : result unit (result VmError unit)) : result VmError string :=
  match joined with
  | Ok (Ok _) => Ok ""
  | Ok (Err err) => Ok (display_vm_error err)
  | Err _ => Err (Backend "vm-kvm: vCPU thread panicked")
  end.

(** Collect a finished thread; the VM is [Stopped] even when it panicked. *)
Definition reap_vm (v : vm) : result VmError unit * vm :=
  match KvmVm.vcpu v ≫= thread_finished with
  | None => (Ok tt, v)
  | Some joined =>
      let v := with_state Stopped (with_vcpu None v) in
      match join_vcpu_thread joined with
      | Err e => (Err e, v)
      | Ok msg => (Ok tt, with_error (Some msg) v)
      end
  end.

Fixpoint reap_list (ids : list VmId) : SM (gmap Z vm) VmError unit := fun m =>
  match ids with
  | [] => (Ok tt, m)
  | id :: ids =>
      match m !! id with
      | None => reap_list ids m
      | Some v =>
          let (r, v) := reap_vm v in
          match r with
          | Err e => (Err e, <[id := v]> m)
          | Ok _ => reap_list ids (<[id := v]> m)
          end
      end
  end.

Definition reap_finished_vcpus : HM unit := fun h =>
  let (r, m) := reap_list (vm_order (vms h)) (vms h) in (r, set_vms m h).

(** Create and configure the vCPU of a runtime; its machine is changed also by a
    call that fails. *)
Definition configured_vcpu (cpuid : result string CpuId) (id : VmId) (rt : KvmVmRuntime.t M C D B) : result VmError Vc * machine :=
  let x := KvmVmRuntime.machine rt in
  let (r, d) := create_vcpu 0 (Machine.vm_fd x) in
  let x := Machine.mk (Machine.guest_mem x) d (Machine.vsock x) (Machine.net x) (Machine.serial_output x) in
  match r with
  | Err e => (Err (Backend ("create vCPU for " +:+ display_vm_id id +:+ ": " +:+ e)), x)
  | Ok vcpu =>
      if KvmVmRuntime.real_mode rt then
        let (r, vcpu) := configure_boot_vcpu_realmode cpuid (KvmVmRuntime.entry_point rt) vcpu in
        (_ ← r; Ok vcpu, x)
      else
        let '(r, (m, vcpu)) := configure_boot_vcpu display_mem_error cpuid (KvmVmRuntime.entry_point rt)
                                 (Machine.guest_mem x, vcpu) in
        (_ ← r; Ok vcpu, Machine.mk m d (Machine.vsock x) (Machine.net x) (Machine.serial_output x))
  end.

Definition spawn_vcpu (cpuid : result string CpuId) (id : VmId) (v : vm) : result VmError T * vm :=
  let (r, x) := configured_vcpu cpuid id (KvmVm.runtime v) in
  (vcpu ← r; Ok (thread_spawn id vcpu), with_machine x v).

Definition stop_vm (v : vm) : result VmError unit * vm :=
  match KvmVm.vcpu v with
  | None => (Ok tt, with_state Stopped v)
  | Some vcpu =>
      let v := with_vcpu None v in
      match thread_kill vcpu with
      | Err e => (Err (Backend ("kick vCPU thread: " +:+ e)), v)
      | Ok _ =>
          let (joined, x) := thread_join vcpu (vm_machine v) in
          let v := with_machine x v in
          match join_vcpu_thread joined with
          | Err e => (Err e, v)
          | Ok msg => (Ok tt, with_state Stopped (with_error (Some msg) v))
          end
      end
  end.

Definition snapshot_dir (id : SnapshotId) : string := push (push temp_dir "nanovm-snapshots") (pretty id).

Definition pause_and_take_state (thread : T) (x : machine) : result VmError VcpuState.t * T * machine :=
  match thread_kill thread with
  | Err e => (Err (Backend ("vm-kvm: kick vCPU for snapshot: " +:+ e)), thread, x)
  | Ok _ => thread_pause thread x
  end.

(** *** Lifecycle *)

Definition new (seccomp limits : option (result VmError unit)) (open_kvm : result string K)
    (msr_indices : result string (list Z)) (kick_signal : result VmError Z) (f : F) : result VmError hypervisor :=
  _ ← default (Ok tt) seccomp;
  _ ← default (Ok tt) limits;
  kvm ← Kvm.backend "open /dev/kvm: " open_kvm;
  _ ← map_err (kvm_err "get_msr_index_list") msr_indices;
  _ ← kick_signal;
  Ok (mk kvm ∅ ∅ 1 1 f).

Definition build (cfg : VmConfig.t) : HM (KvmVmRuntime.t M C D B) :=
  f ← sm_gets fs;
  on_kvm (build_runtime (CpuId := CpuId) (JE := JE) mock_backend smoltcp_backend f cfg).

Definition create_vm (cfg : VmConfig.t) : HM VmHandle.t :=
  runtime ← build cfg;
  id ← VmId_next;
  _ ← put_vm id (KvmVm.mk cfg Created runtime None None);
  mret (VmHandle.mk id Created).

(** The last two steps of [start]. *)
Definition launch (id : VmId) (v : vm) : HM unit :=
  cpuid ← sm_gets (fun h => get_supported_cpuid (kvm h));
  let (r, v) := spawn_vcpu cpuid id v in
  match r with
  | Err e => _ ← put_vm id v; sm_fail e
  | Ok thread => put_vm id (with_state Running (with_vcpu (Some thread) v))
  end.

Definition start (id : VmId) : HM unit :=
  _ ← reap_finished_vcpus;
  v ← get_vm id;
  match KvmVm.state v with
  | Created => launch id v
  | Stopped =>
      runtime ← build (KvmVm.config v);
      launch id (with_error None (with_runtime runtime v))
  | Running => sm_fail (InvalidTransition id Running Running)
  end.

Definition stop (id : VmId) : HM unit :=
  _ ← reap_finished_vcpus;
  v ← get_vm id;
  match KvmVm.state v with
  | Running => let (r, v) := stop_vm v in _ ← put_vm id v; sm_lift r
  | other => sm_fail (InvalidTransition id other Stopped)
  end.

Definition state (id : VmId) : HM VmState :=
  _ ← reap_finished_vcpus;
  v ← get_vm id;
  mret (KvmVm.state v).

Definition destroy (id : VmId) : HM unit :=
  _ ← reap_finished_vcpus;
  v ← get_vm id;
  _ ← sm_modify (fun h => set_vms (delete id (vms h)) h);
  if bool_decide (KvmVm.state v = Running) then sm_lift (stop_vm v).1 else mret tt.

Definition list_vms : HM (list VmHandle.t) :=
  _ ← reap_finished_vcpus;
  sm_gets (fun h => omap (fun id => (fun v => VmHandle.mk id (KvmVm.state v)) <$> vms h !! id) (vm_order (vms h))).

Definition vm_meta (id : VmId) : HM VmMeta.t :=
  _ ← reap_finished_vcpus;
  v ← get_vm id;
  cmdline ← sm_lift (cmdline_string (M := M) (KvmVmRuntime.cmdline (KvmVm.runtime v)));
  let c := KvmVm.config v in
  mret (VmMeta.mk id (KvmVm.state v) (VmConfig.vcpus c) (VmConfig.memory_mib c) cmdline (VmConfig.snapshot_dir c)).

(** *** Snapshots *)

Definition snapshot_manifest (snap : SnapshotId) (mem_bytes vcpus now : Z) (cmdline : string) : Manifest.t :=
  let m := Manifest.new snap mem_bytes Snapshot.PAGE_SIZE vcpus in
  Manifest.mk (Manifest.format_version m) (Manifest.snapshot_id m) now (Manifest.memory_bytes m)
    (Manifest.page_size m) (Manifest.vcpu_count m) cmdline (Manifest.backing_file m) (Manifest.labels m).

Definition write_manifest (what : string) (m : Manifest.t) (dir : string) : SM F VmError unit := fun f =>
  let (r, f) := Manifest.write_to_dir m dir f in
  (map_err (fun e => Backend (what +:+ display_manifest_error e)) r, f).

Definition fs_call {A} (what : string) (c : SM F string A) : SM F VmError A := fun f =>
  let (r, f) := c f in (Kvm.backend what r, f).

(** The files of a snapshot: manifest, memory image, vCPU and machine state. *)
Definition write_snapshot (manifest : Manifest.t) (mem : M) (vcpu : VcpuState.t) (captured : result VmError MachineState.t)
    (dir : string) : SM F VmError unit :=
  _ ← fs_call "vm-kvm: create snapshot dir: " (fs_create_dir_all dir);
  _ ← write_manifest "vm-kvm: write manifest: " manifest dir;
  _ ← dump_image (JE := JE) mem (Manifest.memory_bytes manifest) (FsSnapshotStore.backing_file_path manifest dir);
  _ ← write_vcpu_state vcpu dir;
  ms ← sm_lift captured;
  write_machine_state ms dir.

Definition snapshot_guards (v : vm) : result VmError T :=
  if KvmVmRuntime.real_mode (KvmVm.runtime v)
  then Err (Unsupported "vm-kvm: snapshot of a flat-binary VM is not supported")
  else if bool_decide (is_Some (Machine.vsock (vm_machine v)))
  then Err (Unsupported "vm-kvm: snapshot of a VM with a vsock device is not yet supported (device-state capture lands in a later slice)")
  else if negb (bool_decide (KvmVm.state v = Running))
  then Err (Backend "vm-kvm: snapshot requires a Running VM")
  else ok_or (Backend "vm-kvm: Running VM has no vCPU thread") (KvmVm.vcpu v).

(** The thread is parked: write the snapshot, then release the thread. *)
Definition snapshot_parked (id : VmId) (v : vm) (thread : T) (vcpu : VcpuState.t) (snap : SnapshotId) : HM SnapshotMeta.t :=
  let x := vm_machine v in
  let captured := capture_machine (Machine.vm_fd x) in
  let mem_bytes := KvmBootPlan.memory_size_bytes (KvmVmRuntime.boot_plan (KvmVm.runtime v)) in
  let cmdline := match cmdline_string (M := M) (KvmVmRuntime.cmdline (KvmVm.runtime v)) with Ok s => s | Err _ => "" end in
  let vcpus := VmConfig.vcpus (KvmVm.config v) in
  now ← sm_gets (fun h => unix_ms (kvm h));
  write_result ← (fun h => let (r, h) := on_fs (write_snapshot (snapshot_manifest snap mem_bytes vcpus now cmdline)
                                            (Machine.guest_mem x) vcpu captured (snapshot_dir snap)) h in (Ok r, h)) : HM _;
  _ ← put_vm id (with_vcpu (Some (thread_resume thread)) v);
  _ ← sm_lift write_result;
  mret (SnapshotMeta.mk snap vcpus mem_bytes Snapshot.PAGE_SIZE cmdline).

(** Guards, pause and capture; a thread whose pause failed is not released. *)
Definition capture_snapshot (id : VmId) (snap_id : SnapshotId) : HM SnapshotMeta.t :=
  v ← get_vm id;
  thread ← sm_lift (snapshot_guards v);
  let '(r, thread, x) := pause_and_take_state thread (vm_machine v) in
  let v := with_vcpu (Some thread) (with_machine x v) in
  _ ← put_vm id v;
  vcpu_state ← sm_lift r;
  snapshot_parked id v thread vcpu_state snap_id.

Definition snapshot (id : VmId) : HM SnapshotId :=
  _ ← reap_finished_vcpus;
  snap_id ← SnapshotId_next;
  meta ← capture_snapshot id snap_id;
  _ ← put_snapshot snap_id (SnapshotEntry.mk (snapshot_dir snap_id) meta);
  mret snap_id.

Definition restored_config (meta : SnapshotMeta.t) : VmConfig.t :=
  VmConfig.with_geometry (SnapshotMeta.vcpu_count meta) (SnapshotMeta.memory_bytes meta / (1024 * 1024))
    (SnapshotMeta.kernel_cmdline meta) VmConfig.default.

Definition restore (snap : SnapshotId) : HM VmHandle.t :=
  entry ← get_snapshot snap;
  let dir := SnapshotEntry.dir entry in
  f ← sm_gets fs;
  manifest ← sm_lift (map_err (fun e => Backend ("vm-kvm: read snapshot manifest: " +:+ display_manifest_error e))
               (Manifest.read_from_dir f dir));
  '(runtime, vcpu) ← on_kvm (restore_runtime (JE := JE) mmap_private f manifest dir);
  id ← VmId_next;
  let thread := thread_spawn id vcpu in
  _ ← put_vm id (KvmVm.mk (restored_config (SnapshotEntry.meta entry)) Running runtime (Some thread) None);
  mret (VmHandle.mk id Running).

Definition list_snapshots : HM (list SnapshotId) := sm_gets (fun h => (map_to_list (snapshots h)).*1).

(** The outcome of removing the directory is discarded. *)
Definition delete_snapshot (snap : SnapshotId) : HM unit :=
  entry ← get_snapshot snap;
  _ ← sm_modify (fun h => set_snapshots (delete snap (snapshots h)) h);
  sm_modify (fun h => set_fs (fs_remove_dir_all (SnapshotEntry.dir entry) (fs h)).2 h).

Definition snapshot_meta (snap : SnapshotId) : HM SnapshotMeta.t :=
  entry ← get_snapshot snap; mret (SnapshotEntry.meta entry).

Definition snapshot_export_dir (snap : SnapshotId) : HM (option string) :=
  entry ← get_snapshot snap; mret (Some (SnapshotEntry.dir entry)).

(** The copy of a flat directory; an entry that is a directory is refused. *)
Fixpoint copy_entries (entries : list (result string (bytes * result string bool))) (dir target : string) : SM F VmError unit :=
  match entries with
  | [] => mret tt
  | entry :: entries =>
      '(name, is_dir) ← sm_lift (Kvm.backend "vm-kvm: adopt: entry: " entry);
      let src := push dir (string_of_bytes name) in
      let dst := push target (string_of_bytes name) in
      if (match is_dir with Ok b => b | Err _ => false end)
      then sm_fail (Backend ("vm-kvm: adopt: unexpected nested directory " +:+ src))
      else
        _ ← fs_call ("vm-kvm: adopt: copy " +:+ src +:+ " → " +:+ dst +:+ ": ") (fs_copy src dst);
        copy_entries entries dir target
  end.

Definition with_snapshot_id (snap : SnapshotId) (m : Manifest.t) : Manifest.t :=
  Manifest.mk (Manifest.format_version m) snap (Manifest.created_at_unix_ms m) (Manifest.memory_bytes m)
    (Manifest.page_size m) (Manifest.vcpu_count m) (Manifest.kernel_cmdline m) (Manifest.backing_file m) (Manifest.labels m).

Definition adopt_files (manifest : Manifest.t) (dir target : string) (snap : SnapshotId) : SM F VmError unit :=
  _ ← fs_call ("vm-kvm: adopt: mkdir " +:+ target +:+ ": ") (fs_create_dir_all target);
  entries ← fs_call ("vm-kvm: adopt: read_dir " +:+ dir +:+ ": ") (fun f => (fs_read_dir f dir, f));
  _ ← copy_entries entries dir target;
  write_manifest ("vm-kvm: adopt: rewrite manifest at " +:+ target +:+ ": ") (with_snapshot_id snap manifest) target.

Definition snapshot_adopt (dir : string) : HM SnapshotId :=
  f ← sm_gets fs;
  manifest ← sm_lift (map_err (fun e => Backend ("vm-kvm: adopt: read manifest from " +:+ dir +:+ ": " +:+ display_manifest_error e))
               (Manifest.read_from_dir f dir));
  new_id ← SnapshotId_next;
  let target := snapshot_dir new_id in
  _ ← on_fs (adopt_files manifest dir target new_id);
  let meta := SnapshotMeta.mk new_id (Manifest.vcpu_count manifest) (Manifest.memory_bytes manifest)
                (Manifest.page_size manifest) (Manifest.kernel_cmdline manifest) in
  _ ← put_snapshot new_id (SnapshotEntry.mk target meta);
  mret new_id.

(** *** Requests to the guest *)

Abbreviation rpc := (Rpc.t M D B T K).

Definition rpc_part (w : rpc) : Machine.VsockPart := default (Rpc.part w) (Machine.vsock (Rpc.machine w)).

#[local] Instance rpc_env : RpcEnv M D rpc := {|
  KvmVsock.backend w := Machine.vsock_backend (rpc_part w) (Rpc.machine w);
  with_backend b w := Rpc.mk (Machine.put_vsock b (Rpc.machine w)) (Rpc.part w) (Rpc.thread w) (Rpc.host w);
  now w := host_now (Rpc.host w);
  sleep ms w :=
    let k := host_sleep ms (Rpc.host w) in
    match Rpc.thread w with
    | None => Rpc.mk (Rpc.machine w) (rpc_part w) None k
    | Some t => let (t, x) := thread_run ms t (Rpc.machine w) in Rpc.mk x (rpc_part w) (Some t) k
    end;
  KvmVsock.connection_order w := connection_order (ConnectionTable.connections (VsockDevice.table (Machine.vsock_device (rpc_part w))));
|}.

(** Run a request on a VM's device. A request that is still waiting, for the
    gate or for the device, has no outcome. *)
Definition guest_request {A} (id : VmId) (v : vm) (part : Machine.VsockPart)
    (c : rpc -> option (result VmError A * rpc)) (h : hypervisor) : option (result VmError A * hypervisor) :=
  '(r, w) ← c (Rpc.mk (vm_machine v) part (KvmVm.vcpu v) (kvm h));
  Some (r, set_kvm (Rpc.host w) (set_vms (<[id := with_vcpu (Rpc.thread w) (with_machine (Rpc.machine w) v)]> (vms h)) h)).

(** The VM's device, for which [running] asks that the VM be running. *)
Definition vsock_of (method : string) (running : bool) (id : VmId) (h : hypervisor) : result VmError (vm * Machine.VsockPart) :=
  v ← ok_or (UnknownVm id) (vms h !! id);
  if running && negb (bool_decide (KvmVm.state v = Running)) then Err (InvalidTransition id (KvmVm.state v) Running)
  else
    part ← ok_or (Unsupported ("vm-kvm: " +:+ method +:+ " requires a vsock device (set VmConfig.vsock_cid)"))
             (Machine.vsock (vm_machine v));
    Ok (v, part).

Definition on_vsock {A} (method : string) (running : bool) (id : VmId) (c : rpc -> option (result VmError A * rpc))
    (h : hypervisor) : option (result VmError A * hypervisor) :=
  match vsock_of method running id h with
  | Err e => Some (Err e, h)
  | Ok (v, part) => guest_request id v part c h
  end.

Definition exec_in_guest (id : VmId) (req : GuestExecRequest.t) : hypervisor -> option (result VmError GuestExecResult.t * hypervisor) :=
  on_vsock "exec_in_guest" false id
    (exec_over_vsock display_errno display_queue_error display_frame_error debug_body debug_code gate req).

Definition exec_in_guest_stream (id : VmId) (req : GuestExecRequest.t) : hypervisor -> option (result VmError unit * hypervisor) :=
  on_vsock "exec_in_guest_stream" false id
    (exec_stream_over_vsock display_errno display_queue_error display_frame_error gate req).

Definition oneshot (body : RequestBody) : rpc -> option (result VmError ResponseBody * rpc) :=
  rpc_oneshot display_errno display_queue_error display_frame_error debug_code gate body 30000.

(** The body expected of a reply, as the method's result. *)
Definition expect {A} (method path : string) (take_body : ResponseBody -> option A) (r : result VmError ResponseBody) : result VmError A :=
  body ← r;
  ok_or (Backend ("vm-kvm: unexpected " +:+ method +:+ " response for " +:+ debug_str path +:+ ": " +:+ debug_body body)) (take_body body).

Definition file_request {A} (method : string) (id : VmId) (path : string) (body : RequestBody) (take_body : ResponseBody -> option A)
    (h : hypervisor) : option (result VmError A * hypervisor) :=
  '(r, h) ← on_vsock method true id (oneshot body) h;
  Some (expect method path take_body r, h).

Definition write_file (id : VmId) (path : string) (content : bytes) (mode : Z) : hypervisor -> option (result VmError Z * hypervisor) :=
  file_request "write_file" id path (WriteFile path content mode) (fun b => match b with Written n => Some n | _ => None end).

Definition read_file (id : VmId) (path : string) : hypervisor -> option (result VmError bytes * hypervisor) :=
  file_request "read_file" id path (ReadFile path) (fun b => match b with FileContent c => Some c | _ => None end).

(** *** Inspection *)

Definition inspect {A} (f : vm -> A) (id : VmId) (h : hypervisor) : result VmError A :=
  v ← ok_or (UnknownVm id) (vms h !! id); Ok (f v).

Definition serial_output : VmId -> hypervisor -> result VmError bytes := inspect (fun v => Machine.serial_output (vm_machine v)).
Definition last_run_error : VmId -> hypervisor -> result VmError (option string) := inspect KvmVm.last_run_error.
Definition vsock_status : VmId -> hypervisor -> result VmError (option Z) :=
  inspect (fun v => (fun p => MmioTransport.status (VsockDevice.transport (Machine.vsock_device p))) <$> Machine.vsock (vm_machine v)).
Definition vsock_driver_ok : VmId -> hypervisor -> result VmError (option bool) :=
  inspect (fun v => (fun p => MmioTransport.driver_ok (VsockDevice.transport (Machine.vsock_device p))) <$> Machine.vsock (vm_machine v)).
Definition net_status : VmId -> hypervisor -> result VmError (option Z) :=
  inspect (fun v => (fun p => VirtioNetDevice.status (Machine.net_device p)) <$> Machine.net (vm_machine v)).
Definition net_driver_ok : VmId -> hypervisor -> result VmError (option bool) :=
  inspect (fun v => (fun p => VirtioNetDevice.driver_ok (Machine.net_device p)) <$> Machine.net (vm_machine v)).

(** *** The trait *)

(** A call that has not returned after the given count of looks at the gate has
    not answered. In the trait's type, which has no such value, it counts as
    failed and without effect; the theorems on requests to the agent are about
    [exchange] itself, where it is [None]. *)
Definition returned {A} (c : hypervisor -> option (result VmError A * hypervisor)) : HM A := fun h =>
  default (Err (Backend "the call has not returned"), h) (c h).

#[local] Instance kvm_hypervisor : Hypervisor hypervisor := {
  VmCore.create_vm := create_vm;
  VmCore.start := start;
  VmCore.stop := stop;
  VmCore.state := state;
  VmCore.snapshot := snapshot;
  VmCore.restore := restore;
  VmCore.destroy := destroy;
  VmCore.list_vms := list_vms;
  VmCore.list_snapshots := list_snapshots;
  VmCore.delete_snapshot := delete_snapshot;
  VmCore.snapshot_meta := snapshot_meta;
  VmCore.snapshot_export_dir := snapshot_export_dir;
  VmCore.snapshot_adopt := snapshot_adopt;
  VmCore.vm_meta := vm_meta;
  VmCore.exec_in_guest id req := returned (exec_in_guest id req);
  VmCore.write_file id path content mode := returned (write_file id path content mode);
  VmCore.read_file id path := returned (read_file id path);
}.

#[local] Instance kvm_disk : HostDisk hypervisor F := {| host_fs := fs; set_host_fs := set_fs |}.
End Methods.
End KvmHypervisor.
