(* ===== verification/KvmSample.v ===== *)
(** * A sample host for the KVM hypervisor

    Small instances of the interfaces of [Kvm] on which its theorems are applied:
    a guest memory of one byte per 64 KiB asked for, a vCPU of one byte per
    register structure, and threads that do nothing until they are stopped. *)

From Stdlib Require Import Ascii String.
From stdpp Require Import strings pretty.
From S2P Require Import Prelude GuestMemory VirtioQueue VsockQueue NetQueue NetDevice Str Io Fs VmCore VmMock Store Proto Snapshot Boot KvmVsock KvmState Kvm.

Local Open Scope Z_scope.

Module KvmSample.

Abbreviation mem := SliceGuestMemory.t.
Abbreviation vcpu := StateSample.vcpu.

#[export] Instance sample_ram : GuestRam mem := {|
  ram_alloc n := Ok (SliceGuestMemory.mk 0 (replicate (Z.to_nat (n / 65536)) Byte.x00));
  last_addr m := zlen (SliceGuestMemory.contents m) - 1;
|}.
#[export] Instance sample_regions : RamRegions mem := fun m =>
  [Region.mk 0 (zlen (SliceGuestMemory.contents m)) (Ok 0x7f0000000000)].
#[export] Instance sample_cmdline : CmdlineBuilder string := {|
  cmdline_new _ := Ok "";
  insert_str s c := Ok (if String.eqb c "" then s else c +:+ " " +:+ s);
|}.
#[export] Instance sample_loader : LinuxLoader unit string mem := {|
  bzimage_load base _ _ m := (Ok (base, None), m);
  load_cmdline _ _ m := (Ok tt, m);
  write_bootparams _ _ m := (Ok tt, m);
  default_header := SetupHeader.mk 0 0 0 0 0 0 0 0 tt;
  as_cstring c := Ok c;
|}.

Definition reset_sregs : Sregs.t :=
  let seg := Segment.mk 0 0xffff 0 0x13 1 0 0 1 0 0 0 0 in
  Sregs.mk seg seg seg seg seg seg seg (Dtable.mk 0 0xffff) (Dtable.mk 0 0xffff) 0x60000010 0 0 0.
#[export] Instance sample_vcpu : VcpuFd unit vcpu := {|
  set_cpuid2 _ v := (Ok tt, v);
  set_fpu _ v := (Ok tt, v);
  Boot.set_regs _ v := (Ok tt, v);
  Boot.set_sregs _ v := (Ok tt, v);
  Boot.get_sregs _ := Ok reset_sregs;
|}.
#[export] Instance sample_ioctls : VcpuIoctls vcpu := StateSample.ioctls.
#[export] Instance sample_laws : VcpuLaws vcpu := StateSample.laws.

#[export] Instance sample_irq : IrqLines unit := fun d _ _ => (Ok tt, d).
#[export] Instance sample_devices : VmIoctls unit := {|
  dev_size _ := 0;
  get_dev _ _ := Ok [];
  set_irqchip _ d := (Ok tt, d);
  set_dev _ _ d := (Ok tt, d);
|}.
#[export] Instance sample_vm : VmFd vcpu unit := {|
  set_tss_address _ d := (Ok tt, d);
  create_irq_chip d := (Ok tt, d);
  create_pit2 _ d := (Ok tt, d);
  set_user_memory_region _ d := (Ok tt, d);
  create_vcpu _ d := (Ok StateSample.blank, d);
|}.
(** The host's state is its clock. *)
#[export] Instance sample_host : KvmHost unit unit Z := {|
  kvm_create_vm k := (Ok tt, k);
  get_supported_cpuid _ := Ok tt;
  unix_ms k := k;
  host_now k := k;
  host_sleep ms k := k + ms;
|}.

(** A thread is its vCPU and, when it has ended, how. *)
Abbreviation machine := (Machine.t mem unit MockBackend.t).
Definition thread : Type := vcpu * option (result unit (result VmError unit)).
#[export] Instance sample_threads : VcpuThreads vcpu machine thread := {|
  thread_spawn _ v := (v, None);
  thread_finished t := t.2;
  thread_kill _ := Ok tt;
  thread_join _ x := (Ok (Ok tt), x);
  thread_pause t x := (capture t.1 [16], t, x);
  thread_resume t := t;
  thread_run _ t x := (t, x);
|}.

Abbreviation hypervisor := (KvmHypervisor.t mem string unit MockBackend.t thread Z FlatFs.t).
End KvmSample.
