(* ===== verification/KvmProps.v ===== *)
(** * The KVM hypervisor: isolation, snapshots, failures

    The hypervisor of [Kvm] meets the contract of [HvCalls]: a call changes the
    configuration and the machine of no VM but the one it is about, and no
    snapshot but its own, and the ids it gives out are new. A VM restored from a
    snapshot has the memory, the devices and the registers the snapshot was taken
    with. *)

From Stdlib Require Import Ascii String.
From stdpp Require Import strings pretty.
From S2P Require Import Prelude GuestMemory VirtioQueue Mmio VsockProto VsockTable VsockQueue VsockDevice NetQueue NetDevice Str Io Fs VmCore VmMock Store Proto Snapshot Boot KvmVsock KvmState HvCalls Kvm KvmSample.

Local Open Scope Z_scope.

(** ** What holds throughout a request *)

Section Stable.
Context {E M : Type} `{!GuestMem E M} {V : Type} `{!IrqLines V} {W : Type} `{!RpcEnv M V W}.
Context {JE : Type} `{!Serde JE Request.t, !Serde JE Response.t}.
Variable display_errno : Z -> string.
Variable display_queue_error : VsockQueue.QueueError -> string.
Variable display_frame_error : FrameError JE -> string.
Variable P : W -> Prop.
Hypothesis stable_backend : forall b w, P w -> P (with_backend b w).
Hypothesis stable_sleep : forall ms w, P w -> P (sleep ms w).

Lemma acquire_stable n w w' : P w -> acquire n w = Some w' -> P w'.
Proof. revert w. induction n as [|n IH]; intros w Hw; simpl; [done|]. case_match; [eauto|]. intros [= <-]. auto. Qed.

Lemma connect_stable w r w' : P w -> connect w = Some (r, w') -> P w'.
Proof.
  unfold connect. generalize CONNECT_POLLS, (now w + 15000). intros n deadline. revert w.
  induction n as [|n IH]; intros w Hw; simpl; [done|]. case_match; [by intros [= _ <-]|].
  case_match; [by intros [= _ <-]|]. eauto.
Qed.

Lemma poll_stable {A} n what (finish : Response.t -> result VmError A) deadline buf w r w' :
  P w -> poll_reply display_frame_error n what finish deadline buf w = Some (r, w') -> P w'.
Proof.
  revert buf w. induction n as [|n IH]; intros buf w Hw; simpl; [done|].
  destruct (VsockBackend.drain_inbound buf (KvmVsock.backend w)) as [buf1 b]. destruct (decode_response buf1) as [[resp k]|e].
  - intros [= _ <-]. auto.
  - destruct (is_incomplete e); [|intros [= _ <-]; auto]. destruct (deadline <=? _); [intros [= _ <-]; auto|]. eauto.
Qed.

Lemma send_stable what body conn w r w' :
  P w -> send_request display_errno display_queue_error display_frame_error what body conn w = Some (r, w') -> P w'.
Proof.
  intros Hw. unfold send_request. destruct (encode_request _ _) as [[u|e] frame]; [|by intros [= _ <-]].
  destruct (VsockBackend.host_send _ _ _ _ _) as [[r1 b]|]; [|done]. intros [= _ <-]. auto.
Qed.

Lemma exchange_stable {A} gate ew rw body timeout (finish : Response.t -> result VmError A) w r w' :
  P w -> exchange display_errno display_queue_error display_frame_error gate ew rw body timeout finish w = Some (r, w') -> P w'.
Proof.
  intros Hw. unfold exchange. destruct (acquire gate w) as [w1|] eqn:H1; [|done]. cbn [mbind option_bind].
  apply acquire_stable in H1; [|done].
  destruct (connect w1) as [[[conn|e] w2]|] eqn:H2; cbn [mbind option_bind]; [|intros [= _ <-]|done].
  all: apply connect_stable in H2; [|done].
  2: by apply stable_backend.
  destruct (send_request _ _ _ ew body conn w2) as [[[u|e] w3]|] eqn:H3; cbn [mbind option_bind]; [|intros [= _ <-]|done].
  all: apply send_stable in H3; [|done].
  2: by apply stable_backend.
  destruct (poll_reply _ _ rw finish _ _ w3) as [[r4 w4]|] eqn:H4; cbn [mbind option_bind]; [|done]. intros [= _ <-].
  apply poll_stable in H4; [|done]. by apply stable_backend.
Qed.
End Stable.

Section Props.
Import KvmHypervisor.
Context {E M : Type} `{!GuestMem E M, !GuestRam M, !RamRegions M}.
Context {C Hd : Type} `{!CmdlineBuilder C, !LinuxLoader Hd C M}.
Context {CpuId Vc D K : Type} `{!VcpuFd CpuId Vc, !VcpuIoctls Vc, !IrqLines D, !VmIoctls D, !VmFd Vc D, !KvmHost CpuId D K}.
Context {B : Type} `{!NetworkBackend B}.
Context {T : Type} `{!VcpuThreads Vc (Machine.t M D B) T}.
Context {F : Type} `{!FileSystem F, !DirFs F, !Serde string Manifest.t, !Serde string VcpuState.t, !Serde string MachineState.t}.
Context {JE : Type} `{!Serde JE Request.t, !Serde JE Response.t, !Messages E JE}.
Variable mock_backend : B.
Variable smoltcp_backend : option B.
Variable mmap_private : bytes -> Z -> nat -> option M.
Variable temp_dir : string.
Variable vm_order : gmap Z (KvmVm.t M C D B T) -> list VmId.
Variable connection_order : gmap ConnectionId Connection.t -> list (ConnectionId * Connection.t).
Variable gate : nat.

Abbreviation vm := (KvmVm.t M C D B T).
Abbreviation hypervisor := (KvmHypervisor.t M C D B T K F).
Abbreviation HM := (SM hypervisor VmError).
Implicit Types h : hypervisor.

(** ** What a call leaves alone *)

(** A VM with a thread is running. *)
Definition vm_ok (v : vm) : Prop := is_Some (KvmVm.vcpu v) -> KvmVm.state v = Running.
Definition threads_ok h : Prop := map_Forall (fun _ => vm_ok) (vms h).

(** A VM's configuration and machine; its run state is its thread's. *)
Definition view h (id : VmId) : option (VmConfig.t * KvmVmRuntime.t M C D B) :=
  (fun v => (KvmVm.config v, KvmVm.runtime v)) <$> vms h !! id.

(** From [h] to [h'], at most the VM [o] changed, and none came or went. *)
Record moves (o : option VmId) h h' : Prop := {
  mv_view w : o <> Some w -> view h' w = view h w;
  mv_dom w : is_Some (vms h' !! w) <-> is_Some (vms h !! w);
  mv_snaps : snapshots h' = snapshots h;
  mv_next : next_vm h' = next_vm h;
  mv_next_snap : next_snapshot h' = next_snapshot h;
  mv_ok : threads_ok h';
}.

Definition pre (o : option VmId) h : Prop :=
  threads_ok h /\ match o with Some id => is_Some (vms h !! id) | None => True end.

Definition stays {A} (o : option VmId) (c : HM A) : Prop := forall h, pre o h -> moves o h (c h).2.

Lemma moves_refl o h : threads_ok h -> moves o h h.
Proof. by split. Qed.

Lemma moves_trans o h h1 h2 : moves o h h1 -> moves o h1 h2 -> moves o h h2.
Proof.
  intros [A1 A2 A3 A4 A5 _] [B1 B2 B3 B4 B5 B6]. split; [| |congruence..|done].
  - intros w Hw. rewrite B1, A1 by done. done.
  - intros w. rewrite B2. apply A2.
Qed.

Lemma moves_pre o h h' : pre o h -> moves o h h' -> pre o h'.
Proof. intros [_ Hp] [_ Hdom _ _ _ Hok]. split; [done|]. destruct o; [by apply Hdom|done]. Qed.

Lemma moves_weaken o h h' : moves None h h' -> moves o h h'.
Proof. intros []. split; auto. Qed.

(** A change outside the two maps and the counters. *)
Lemma moves_aside o h h' :
  threads_ok h -> vms h' = vms h -> snapshots h' = snapshots h -> next_vm h' = next_vm h ->
  next_snapshot h' = next_snapshot h -> moves o h h'.
Proof. intros Hok Hv Hs Hn Hm. split; auto; unfold view, threads_ok; rewrite Hv; done. Qed.

Lemma moves_put id v h : pre (Some id) h -> vm_ok v -> moves (Some id) h (set_vms (<[id := v]> (vms h)) h).
Proof.
  intros [Hok Hs] Hv. split; try done; simpl.
  - intros w Hw. unfold view. simpl. by rewrite lookup_insert_ne by congruence.
  - intros w. destruct (decide (w = id)) as [-> |]; [by rewrite lookup_insert_eq|by rewrite lookup_insert_ne].
  - by apply map_Forall_insert_2.
Qed.

Lemma stays_bind {A A'} o (c : HM A) (f : A -> HM A') :
  stays o c -> (forall a, stays o (f a)) -> stays o (x ← c; f x).
Proof.
  intros Hc Hf h Hp. pose proof (Hc h Hp) as Hm. unfold mbind, sm_bind.
  destruct (c h) as [[a|e] h1]; [|done]. simpl in Hm.
  eapply moves_trans; [done|]. apply Hf. by eapply moves_pre.
Qed.

Lemma stays_still {A} o (c : HM A) : (forall h, (c h).2 = h) -> stays o c.
Proof. intros Hc h [Hok _]. rewrite Hc. by apply moves_refl. Qed.

Lemma stays_lift {A} o (r : result VmError A) : stays o (sm_lift r : HM A).
Proof. by apply stays_still. Qed.
Lemma stays_gets {A} o (f : hypervisor -> A) : stays o (sm_gets f : HM A).
Proof. by apply stays_still. Qed.
Lemma stays_fail {A} o (e : VmError) : stays o (sm_fail e : HM A).
Proof. by apply stays_still. Qed.
Lemma stays_ret {A} o (a : A) : stays o (mret a : HM A).
Proof. by apply stays_still. Qed.
Lemma stays_get_snapshot o snap : stays o (get_snapshot snap : HM _).
Proof. by apply stays_still. Qed.

Lemma stays_on_kvm {A} o (c : SM K VmError A) : stays o (on_kvm c : HM A).
Proof. intros h [Hok _]. unfold on_kvm. destruct (c (kvm h)) as [r k]. by apply moves_aside. Qed.

Lemma stays_on_fs {A} o (c : SM F VmError A) : stays o (on_fs c : HM A).
Proof. intros h [Hok _]. unfold on_fs. destruct (c (fs h)) as [r f]. by apply moves_aside. Qed.

Lemma stays_put id v : vm_ok v -> stays (Some id) (put_vm id v : HM unit).
Proof. intros Hv h Hp. by apply moves_put. Qed.

(** Look a VM up and go on with it. *)
Lemma stays_with_vm {A} id (f : vm -> HM A) :
  (forall v, vm_ok v -> stays (Some id) (f v)) -> forall h, threads_ok h -> moves (Some id) h ((v ← get_vm id; f v) h).2.
Proof.
  intros Hf h Hok. unfold mbind, sm_bind, KvmHypervisor.get_vm. destruct (vms h !! id) as [v|] eqn:Hv; simpl; [|by apply moves_refl].
  apply Hf; [by eapply (map_Forall_lookup_1 _ _ _ _ Hok)|]. split; [done|]. by rewrite Hv.
Qed.

Create HintDb stays.
#[local] Hint Resolve stays_lift stays_gets stays_fail stays_ret stays_get_snapshot stays_on_kvm stays_on_fs stays_put : stays.

(** ** Threads *)

Lemma reap_vm_ok v r v' :
  vm_ok v -> reap_vm v = (r, v') -> vm_ok v' /\ KvmVm.config v' = KvmVm.config v /\ KvmVm.runtime v' = KvmVm.runtime v.
Proof.
  intros Hok. unfold reap_vm. destruct (KvmVm.vcpu v ≫= thread_finished) as [joined|]; [|by intros [= _ <-]].
  destruct (join_vcpu_thread joined); intros [= _ <-]; (split; [by intros [? ?]|done]).
Qed.

(** What reaping does to the map, whatever the order. *)
Lemma reap_list_ok ids : forall (m : gmap Z vm) r m', map_Forall (fun _ => vm_ok) m -> reap_list ids m = (r, m') ->
  map_Forall (fun _ => vm_ok) m' /\
  forall w, (fun v => (KvmVm.config v, KvmVm.runtime v)) <$> m' !! w = (fun v => (KvmVm.config v, KvmVm.runtime v)) <$> m !! w.
Proof.
  induction ids as [|id ids IH]; intros m r m' Hok; simpl; [by intros [= _ <-]|].
  destruct (m !! id) as [v|] eqn:Hv; [|by apply IH]. destruct (reap_vm v) as [r1 v1] eqn:Hr.
  destruct (reap_vm_ok _ _ _ (map_Forall_lookup_1 _ _ _ _ Hok Hv) Hr) as (Hok1 & Hc & Ht).
  assert (Hins : forall w, (fun v => (KvmVm.config v, KvmVm.runtime v)) <$> <[id:=v1]> m !! w
                         = (fun v => (KvmVm.config v, KvmVm.runtime v)) <$> m !! w).
  { intros w. destruct (decide (w = id)) as [-> |]; [|by rewrite lookup_insert_ne].
    rewrite lookup_insert_eq, Hv. simpl. by rewrite Hc, Ht. }
  assert (Hok' : map_Forall (fun _ => vm_ok) (<[id:=v1]> m)) by (by apply map_Forall_insert_2).
  destruct r1 as [[]|e]; [|by intros [= _ <-]]. intros Hl. destruct (IH _ _ _ Hok' Hl) as [H1 H2].
  split; [done|]. intros w. by rewrite H2.
Qed.

Lemma stays_reap o : stays o (reap_finished_vcpus vm_order : HM unit).
Proof.
  intros h [Hok _]. unfold reap_finished_vcpus. destruct (reap_list _ _) as [r m'] eqn:Hr.
  destruct (reap_list_ok _ _ _ _ Hok Hr) as [H1 H2]. split; try done; simpl.
  - intros w _. unfold view. simpl. by rewrite H2.
  - intros w. specialize (H2 w). destruct (m' !! w), (vms h !! w); simpl in *; try discriminate; split; intros [? ?]; eauto; discriminate.
Qed.

Lemma stop_vm_ok v r v' : vm_ok v -> stop_vm v = (r, v') -> vm_ok v' /\ KvmVm.config v' = KvmVm.config v.
Proof.
  intros Hok. unfold stop_vm. destruct (KvmVm.vcpu v) as [t|] eqn:Ht.
  2: { intros [= _ <-]. split; [|done]. unfold vm_ok. simpl. rewrite Ht. by intros [? ?]. }
  destruct (thread_kill t); [|intros [= _ <-]; split; [by intros [? ?]|done]].
  destruct (thread_join _ _) as [joined x]. destruct (join_vcpu_thread joined); intros [= _ <-]; (split; [by intros [? ?]|done]).
Qed.

(** ** Methods *)

(** Every method that may change a VM reaps first. *)
Lemma reap_then {A} o (c : HM A) :
  (forall h, threads_ok h -> moves o h (c h).2) ->
  forall h, threads_ok h -> moves o h ((_ ← reap_finished_vcpus vm_order; c) h).2.
Proof.
  intros Hc h Hok. pose proof (stays_reap None h (conj Hok I)) as Hm. unfold mbind, sm_bind.
  destruct (reap_finished_vcpus vm_order h) as [[[]|e] h1]; [|by apply moves_weaken].
  eapply moves_trans; [by apply moves_weaken|]. apply Hc, Hm.
Qed.

Lemma stays_launch id v : vm_ok v -> stays (Some id) (launch (JE := JE) (CpuId := CpuId) id v : HM unit).
Proof.
  intros Hv. unfold launch. apply stays_bind; [auto with stays|]. intros cpuid.
  unfold spawn_vcpu. destruct (configured_vcpu cpuid id (KvmVm.runtime v)) as [r x].
  destruct (_ ← r; _) as [thread|e]; [by apply stays_put|].
  apply stays_bind; [by apply stays_put|]. auto with stays.
Qed.

Lemma stays_build o cfg : stays o (build (JE := JE) (CpuId := CpuId) mock_backend smoltcp_backend cfg : HM _).
Proof. unfold build. apply stays_bind; auto with stays. Qed.

Lemma start_moves id h :
  threads_ok h -> moves (Some id) h (start (JE := JE) (CpuId := CpuId) mock_backend smoltcp_backend vm_order id h).2.
Proof.
  unfold start. apply reap_then. clear h. apply stays_with_vm. intros v Hv.
  destruct (KvmVm.state v) eqn:Hs; [by apply stays_launch|auto with stays|].
  apply stays_bind; [apply stays_build|]. intros rt. by apply stays_launch.
Qed.

Lemma stop_moves id h : threads_ok h -> moves (Some id) h (stop vm_order id h).2.
Proof.
  unfold stop. apply reap_then. clear h. apply stays_with_vm. intros v Hv.
  destruct (KvmVm.state v); auto with stays. destruct (stop_vm v) as [r v'] eqn:Hs.
  apply stays_bind; [|auto with stays]. by apply stays_put, (stop_vm_ok _ _ _ Hv Hs).
Qed.

Lemma state_moves id h : threads_ok h -> moves (Some id) h (state vm_order id h).2.
Proof. unfold state. apply reap_then. clear h. apply stays_with_vm. auto with stays. Qed.

Lemma vm_meta_moves id h : threads_ok h -> moves (Some id) h (vm_meta vm_order id h).2.
Proof.
  unfold vm_meta. apply reap_then. clear h. apply stays_with_vm. intros v _. apply stays_bind; auto with stays.
Qed.

Lemma list_vms_moves h : threads_ok h -> moves None h (list_vms vm_order h).2.
Proof. unfold list_vms. apply reap_then. clear h. intros h Hok. by apply moves_refl. Qed.

Lemma capture_snapshot_moves id snap h :
  threads_ok h -> moves (Some id) h (capture_snapshot (JE := JE) (CpuId := CpuId) temp_dir id snap h).2.
Proof.
  unfold capture_snapshot. apply stays_with_vm. intros v Hv.
  intros h1 Hp. unfold mbind at 1, sm_bind, sm_lift. unfold snapshot_guards.
  destruct (KvmVmRuntime.real_mode _); [by apply moves_refl, Hp|].
  case_bool_decide; [by apply moves_refl, Hp|]. case_bool_decide as Hs; simpl; [|by apply moves_refl, Hp].
  destruct (KvmVm.vcpu v) as [t|]; simpl; [|by apply moves_refl, Hp].
  revert h1 Hp. change (stays (Some id) (let '(r, thread, x) := pause_and_take_state t (vm_machine v) in
    _ ← put_vm id (with_vcpu (Some thread) (with_machine x v));
    vcpu_state ← sm_lift r;
    snapshot_parked (JE := JE) (CpuId := CpuId) temp_dir id (with_vcpu (Some thread) (with_machine x v)) thread vcpu_state snap)).
  destruct (pause_and_take_state t (vm_machine v)) as [[r t'] x].
  assert (Hok : forall t'', vm_ok (with_vcpu (Some t'') (with_machine x v))) by (by intros ? ?).
  apply stays_bind; [by apply stays_put|intros _]. apply stays_bind; [auto with stays|intros s].
  unfold snapshot_parked. apply stays_bind; [auto with stays|intros now_].
  apply stays_bind; [|intros w; apply stays_bind; [by apply stays_put, Hok|intros _; apply stays_bind; auto with stays]].
  intros h1 Hp. set (c := write_snapshot _ _ _ _ _). pose proof (stays_on_fs (Some id) c h1 Hp) as Hm.
  destruct (on_fs c h1) as [r1 h2]. done.
Qed.

Lemma guest_request_moves {A} id v part (c : Rpc.t M D B T K -> option (result VmError A * Rpc.t M D B T K)) h r h' :
  threads_ok h -> vms h !! id = Some v ->
  guest_request id v part c h = Some (r, h') ->
  (forall w r1 w1, c w = Some (r1, w1) -> is_Some (Rpc.thread w1) -> is_Some (Rpc.thread w)) ->
  moves (Some id) h h'.
Proof.
  intros Hok Hv Hg Ht. unfold guest_request in Hg. destruct (c _) as [[r1 w1]|] eqn:Hc; [|done]. injection Hg as <- <-.
  specialize (Ht _ _ _ Hc).
  assert (Hm : moves (Some id) h (set_vms (<[id:=with_vcpu (Rpc.thread w1) (with_machine (Rpc.machine w1) v)]> (vms h)) h)).
  { apply moves_put; [split; [done|by rewrite Hv]|]. intros Hs. apply (map_Forall_lookup_1 _ _ _ _ Hok Hv). by apply Ht. }
  eapply moves_trans; [exact Hm|]. apply moves_aside; try done. apply Hm.
Qed.

#[local] Instance kvm_hv : Hypervisor hypervisor :=
  kvm_hypervisor (CpuId := CpuId) (JE := JE) mock_backend smoltcp_backend mmap_private temp_dir vm_order connection_order gate.
#[local] Existing Instance kvm_disk.

(** A guest has a thread during a request only if it had one before. *)
Lemma threads_stable (had : Prop) :
  let P (w : Rpc.t M D B T K) := is_Some (Rpc.thread w) -> had in
  let env := rpc_env (CpuId := CpuId) connection_order in
  (forall b w, P w -> P (with_backend (RpcEnv := env) b w)) /\ (forall ms w, P w -> P (sleep (RpcEnv := env) ms w)).
Proof.
  split; intros x w Hw; simpl; [done|]. destruct (Rpc.thread w) eqn:Ht; simpl; [|by intros [? ?]].
  destruct (thread_run _ _ _). intros _. apply Hw. eauto.
Qed.

Lemma on_vsock_moves {A} method running id (c : Rpc.t M D B T K -> option (result VmError A * Rpc.t M D B T K)) h r h' :
  (forall w r1 w1, c w = Some (r1, w1) -> is_Some (Rpc.thread w1) -> is_Some (Rpc.thread w)) ->
  threads_ok h -> on_vsock method running id c h = Some (r, h') -> moves (Some id) h h'.
Proof.
  intros Hc Hok. unfold on_vsock, vsock_of. destruct (vms h !! id) as [v|] eqn:Hv; simpl.
  2: { intros [= _ <-]. by apply moves_refl. }
  destruct (running && _); [intros [= _ <-]; by apply moves_refl|].
  destruct (Machine.vsock (vm_machine v)) as [part|]; simpl; [|intros [= _ <-]; by apply moves_refl].
  intros Hg. by eapply guest_request_moves.
Qed.

Lemma returned_moves {A} o (c : hypervisor -> option (result VmError A * hypervisor)) h :
  threads_ok h -> (forall r h', c h = Some (r, h') -> moves o h h') -> moves o h (returned c h).2.
Proof. intros Hok Hc. unfold returned. destruct (c h) as [[r h']|]; simpl; [by eapply Hc|by apply moves_refl]. Qed.

Lemma exchange_threads {A} ew rw body timeout (finish : Response.t -> result VmError A) (w : Rpc.t M D B T K) r1 w1 :
  let env := rpc_env (CpuId := CpuId) connection_order in
  exchange (RpcEnv0 := env) (display_errno (JE := JE)) (display_queue_error (JE := JE)) (display_frame_error (E := E)) gate ew rw body timeout finish w
    = Some (r1, w1) -> is_Some (Rpc.thread w1) -> is_Some (Rpc.thread w).
Proof.
  intros env He. destruct (threads_stable (is_Some (Rpc.thread w))) as [Hb Hs].
  exact (exchange_stable _ _ _ _ Hb Hs _ _ _ _ _ _ _ _ _ (fun H => H) He).
Qed.

Lemma file_moves {A} method id path body (take_body : ResponseBody -> option A) h :
  threads_ok h ->
  moves (Some id) h (returned (file_request (CpuId := CpuId) (JE := JE) connection_order gate method id path body take_body) h).2.
Proof.
  intros Hok. apply returned_moves; [done|]. intros r h'. unfold file_request.
  destruct (on_vsock _ _ _ _ h) as [[r0 h0]|] eqn:Hc; [|done]. intros [= _ <-].
  eapply on_vsock_moves; [|done|exact Hc]. intros w r1 w1. apply exchange_threads.
Qed.

Lemma exec_moves id req h :
  threads_ok h -> moves (Some id) h (returned (exec_in_guest (CpuId := CpuId) (JE := JE) connection_order gate id req) h).2.
Proof.
  intros Hok. apply returned_moves; [done|]. intros r h' Hc.
  eapply on_vsock_moves; [|done|exact Hc]. intros w r1 w1. apply exchange_threads.
Qed.

(** ** The contract *)

(** [n] more ids of each kind can be given out, and none beyond is in use. *)
Record kvm_inv (n : Z) h : Prop := {
  ki_vm : 0 < next_vm h /\ next_vm h + n < 2 ^ 64;
  ki_snap : 0 < next_snapshot h /\ next_snapshot h + n < 2 ^ 64;
  ki_vms v : next_vm h <= v -> vms h !! v = None;
  ki_snaps p : next_snapshot h <= p -> snapshots h !! p = None;
  ki_threads : threads_ok h;
}.

Definition vm_given h (v : VmId) : Prop := v < next_vm h.
Definition snap_given h (p : SnapshotId) : Prop := p < next_snapshot h.
Definition entry_of h (p : SnapshotId) : option SnapshotEntry.t := snapshots h !! p.

Abbreviation kvm_touched := (touched view entry_of vm_given snap_given).

Lemma kvm_inv_weaken n m h : kvm_inv n h -> m <= n -> kvm_inv m h.
Proof. intros [] ?. split; auto; lia. Qed.

Lemma moves_touched n o snap h h' : kvm_inv n h -> moves o h h' -> kvm_inv n h' /\ kvm_touched o snap None None h h'.
Proof.
  intros [Hv Hs Hvs Hss _] [M1 M2 M3 M4 M5 M6]. split; split; unfold vm_given, snap_given, entry_of;
    rewrite ?M3, ?M4, ?M5; auto; try done.
  intros v Hle. apply eq_None_not_Some. rewrite M2, Hvs by done. by intros [? ?].
Qed.

(** A VM filed under the next id. *)
Lemma vm_birth n h v : 0 <= n -> kvm_inv (n + 1) h -> vm_ok v ->
  let h' := (put_vm (next_vm h) v (VmId_next h).2).2 in
  kvm_inv n h' /\ kvm_touched None None (Some (next_vm h)) None h h'.
Proof.
  intros Hn [Hv Hs Hvs Hss Ht] Hok. unfold VmId_next, put_vm, fetch_add1, sm_modify. simpl.
  rewrite wrap64_small by ulia. split; split; simpl; auto; try lia; try done.
  - intros w Hw. rewrite lookup_insert_ne by lia. apply Hvs. lia.
  - by apply map_Forall_insert_2.
  - intros w. unfold vm_given. simpl. lia.
  - intros w _ Hw. unfold view. simpl. by rewrite lookup_insert_ne by congruence.
  - intros w [= <-]. unfold vm_given. simpl. lia.
Qed.

Lemma touched_before o h h1 h2 nv ns :
  kvm_touched o None None None h h1 -> kvm_touched o None nv ns h1 h2 -> kvm_touched o None nv ns h h2.
Proof.
  intros [A1 A2 A3 A4 _ _] [B1 B2 B3 B4 B5 B6]. split; auto.
  - intros v H1 H2. rewrite B3, A3 by done. done.
  - intros p H1 H2. rewrite B4, A4 by done. done.
  - intros v Hv. destruct (B5 v Hv). auto.
  - intros p Hp. destruct (B6 p Hp). auto.
Qed.

Lemma next_snapshot_inv n h : 0 <= n -> kvm_inv (n + 1) h ->
  let h' := (SnapshotId_next h).2 in
  kvm_inv n h' /\ kvm_touched None None None None h h' /\ next_snapshot h' = next_snapshot h + 1.
Proof.
  intros Hn [Hv Hs Hvs Hss Ht]. unfold SnapshotId_next, fetch_add1. simpl. rewrite wrap64_small by ulia.
  split_and!; [split; simpl; auto; try lia|split; unfold snap_given; simpl; auto; try done; lia|done].
  intros p Hp. apply Hss. lia.
Qed.

(** A snapshot filed, at the end of a call, under the id it took at its start. *)
Lemma snapshot_birth n o h h1 h2 e : kvm_inv n h1 ->
  kvm_touched None None None None h h1 -> next_snapshot h1 = next_snapshot h + 1 -> snapshots h1 = snapshots h ->
  moves o h1 h2 ->
  let h' := (put_snapshot (next_snapshot h) e h2).2 in
  kvm_inv n h' /\ kvm_touched o None None (Some (next_snapshot h)) h h'.
Proof.
  intros Hi [T1 T2 T3 T4 _ _] Hnx Hss1 Hm. destruct (moves_touched n o None _ _ Hi Hm) as [[Hv Hs Hvs Hss Ht] _].
  destruct Hm as [M1 M2 M3 M4 M5 M6]. unfold put_snapshot, sm_modify. simpl. split; split; simpl; auto; try done.
  - intros p Hp. rewrite lookup_insert_ne by lia. by apply Hss.
  - intros v Hgv. apply T1 in Hgv. unfold vm_given in *. simpl. lia.
  - intros p. unfold snap_given. simpl. rewrite M5, Hnx. lia.
  - intros v Ho _. unfold view. simpl. fold (view h2 v). rewrite M1 by done. by apply T3.
  - intros p _ Hp. unfold entry_of. simpl. rewrite lookup_insert_ne by congruence. by rewrite M3, Hss1.
  - intros p [= <-]. unfold snap_given. simpl. rewrite M5, Hnx. lia.
Qed.

(** A birth at the end of a computation that moved nothing. *)
Lemma born_after {A} n h (c : HM A) (k : A -> vm) (id_of : A -> VmState) r h' :
  0 <= n -> kvm_inv (n + 1) h -> stays None c -> (forall a, vm_ok (k a)) ->
  (a ← c; id ← VmId_next; _ ← put_vm id (k a); mret (VmHandle.mk id (id_of a))) h = (r, h') ->
  kvm_inv n h' /\ kvm_touched None None (match r with Ok v => Some (VmHandle.id v) | Err _ => None end) None h h'.
Proof.
  intros Hn Hi Hc Hk. pose proof (Hc h (conj (ki_threads _ _ Hi) I)) as Hm. unfold mbind at 1, sm_bind at 1.
  destruct (c h) as [[a|e] h1].
  - destruct (moves_touched _ _ None _ _ Hi Hm) as [Hi1 Ht]. intros He.
    destruct (vm_birth n h1 (k a) Hn Hi1 (Hk a)) as [Hi2 Ht2]. injection He as <- <-. simpl.
    split; [exact Hi2|]. eapply touched_before; [exact Ht|exact Ht2].
  - intros [= <- <-]. apply moves_touched; [|done]. eapply kvm_inv_weaken; [done|lia].
Qed.

Lemma create_call cfg n h r h' :
  0 <= n -> kvm_inv (n + 1) h -> create_vm (JE := JE) (CpuId := CpuId) mock_backend smoltcp_backend cfg h = (r, h') ->
  kvm_inv n h' /\ kvm_touched None None (match r with Ok v => Some (VmHandle.id v) | Err _ => None end) None h h'.
Proof.
  intros Hn Hi. unfold create_vm. apply (born_after n h _ (fun rt => KvmVm.mk cfg Created rt None None) (fun _ => Created) r h' Hn Hi).
  - apply stays_build.
  - by intros rt [? ?].
Qed.

Lemma restore_call snap n h r h' :
  0 <= n -> kvm_inv (n + 1) h -> restore (JE := JE) (CpuId := CpuId) mmap_private snap h = (r, h') ->
  kvm_inv n h' /\ kvm_touched None None (match r with Ok v => Some (VmHandle.id v) | Err _ => None end) None h h'.
Proof.
  intros Hn Hi. unfold restore. unfold mbind at 1, sm_bind at 1, get_snapshot. destruct (snapshots h !! snap) as [entry|]; simpl.
  2: { intros [= <- <-]. apply moves_touched; [eapply kvm_inv_weaken; [done|lia]|apply moves_refl, Hi]. }
  unfold mbind at 1, sm_bind at 1, sm_gets. unfold mbind at 1, sm_bind at 1, sm_lift.
  destruct (map_err _ _) as [manifest|e].
  2: { intros [= <- <-]. apply moves_touched; [eapply kvm_inv_weaken; [done|lia]|apply moves_refl, Hi]. }
  set (c := on_kvm _). intros He.
  eapply (born_after n h (a ← c; mret (a.1, a.2))
    (fun a => KvmVm.mk (restored_config (SnapshotEntry.meta entry)) Running a.1 (Some (thread_spawn (next_vm h) a.2)) None) (fun _ => Running) r h' Hn Hi).
  - apply stays_bind; [apply stays_on_kvm|auto with stays].
  - done.
  - rewrite <- He. unfold mbind, sm_bind, mret, sm_ret.
    assert (Hk : moves None h (c h).2) by (apply stays_on_kvm; split; [apply Hi|done]).
    destruct (c h) as [[[rt vc]|e] h1]; [|done]. simpl in Hk |- *.
    unfold VmId_next, fetch_add1. simpl. by rewrite (mv_next _ _ _ Hk).
Qed.

Lemma snapshot_call id n h r h' :
  0 <= n -> kvm_inv (n + 1) h -> snapshot (JE := JE) (CpuId := CpuId) temp_dir vm_order id h = (r, h') ->
  kvm_inv n h' /\ kvm_touched (Some id) None None (match r with Ok p => Some p | Err _ => None end) h h'.
Proof.
  intros Hn Hi. unfold snapshot. pose proof (stays_reap None h (conj (ki_threads _ _ Hi) I)) as Hm.
  unfold mbind at 1, sm_bind at 1. destruct (reap_finished_vcpus vm_order h) as [[[]|e] h1].
  2: { intros [= <- <-]. apply moves_touched; [eapply kvm_inv_weaken; [done|lia]|by apply moves_weaken]. }
  simpl in Hm. destruct (moves_touched _ _ None _ _ Hi Hm) as [Hi1 Ht1]. destruct (next_snapshot_inv n h1 Hn Hi1) as (Hi2 & Ht2 & Hx).
  assert (Ht : kvm_touched None None None None h (SnapshotId_next h1).2) by (by eapply touched_before).
  assert (Hs2 : snapshots (SnapshotId_next h1).2 = snapshots h) by (by destruct Hm).
  unfold mbind at 1, sm_bind at 1. change (SnapshotId_next h1) with (Ok (E := VmError) (next_snapshot h1), (SnapshotId_next h1).2).
  cbv iota. rewrite (mv_next_snap _ _ _ Hm) in Hx |- *. set (h2 := (SnapshotId_next h1).2) in *.
  pose proof (capture_snapshot_moves id (next_snapshot h) h2 (ki_threads _ _ Hi2)) as Hm2.
  unfold mbind at 1, sm_bind at 1. destruct (capture_snapshot _ id (next_snapshot h) h2) as [[meta|e] h3]; simpl in Hm2.
  - intros He. injection He as <- <-. exact (snapshot_birth n (Some id) h h2 h3 _ Hi2 Ht Hx Hs2 Hm2).
  - intros [= <- <-]. destruct (moves_touched _ _ None _ _ Hi2 Hm2) as [Hi3 Ht3]. split; [done|].
    eapply touched_before; [|exact Ht3]. destruct Ht. split; auto; done.
Qed.

Lemma destroy_call id n h r h' :
  kvm_inv n h -> destroy vm_order id h = (r, h') -> kvm_inv n h' /\ kvm_touched (Some id) None None None h h'.
Proof.
  intros Hi. unfold destroy. pose proof (stays_reap None h (conj (ki_threads _ _ Hi) I)) as Hm.
  unfold mbind at 1, sm_bind at 1. destruct (reap_finished_vcpus vm_order h) as [[[]|e] h1]; simpl in Hm.
  2: { intros [= <- <-]. by apply moves_touched, moves_weaken. }
  destruct (moves_touched _ _ None _ _ Hi (moves_weaken (Some id) _ _ Hm)) as [Hi1 Ht1].
  unfold mbind at 1, sm_bind at 1, KvmHypervisor.get_vm. destruct (vms h1 !! id) as [v|] eqn:Hv; simpl.
  2: { intros [= <- <-]. done. }
  assert (Hdel : kvm_inv n (set_vms (delete id (vms h1)) h1) /\ kvm_touched (Some id) None None None h1 (set_vms (delete id (vms h1)) h1)).
  { destruct Hi1 as [H1 H2 H3 H4 H5]. split; split; simpl; auto; try done.
    - intros w Hw. rewrite lookup_delete_None. auto.
    - by apply map_Forall_delete.
    - intros w Hne _. unfold view. simpl. by rewrite lookup_delete_ne by congruence. }
  unfold mbind, sm_bind, sm_modify. intros He. assert (h' = set_vms (delete id (vms h1)) h1) as -> by (case_bool_decide; by injection He).
  split; [apply Hdel|]. eapply touched_before; [exact Ht1|apply Hdel].
Qed.

Lemma delete_snapshot_call snap n h r h' :
  kvm_inv n h -> delete_snapshot snap h = (r, h') -> kvm_inv n h' /\ kvm_touched None (Some snap) None None h h'.
Proof.
  intros Hi. unfold delete_snapshot, mbind, sm_bind, get_snapshot. destruct (snapshots h !! snap) as [e|] eqn:Hs; simpl.
  2: { intros [= <- <-]. apply moves_touched; [done|]. apply moves_refl, Hi. }
  intros [= <- <-]. destruct Hi as [H1 H2 H3 H4 H5]. split; split; simpl; auto; try done.
  - intros p Hp. rewrite lookup_delete_None. auto.
  - intros p Hne _. unfold entry_of. simpl. by rewrite lookup_delete_ne by congruence.
Qed.

Lemma adopt_call dir n h r h' :
  0 <= n -> kvm_inv (n + 1) h -> snapshot_adopt temp_dir dir h = (r, h') ->
  kvm_inv n h' /\ kvm_touched None None None (match r with Ok p => Some p | Err _ => None end) h h'.
Proof.
  intros Hn Hi. unfold snapshot_adopt. unfold mbind at 1, sm_bind at 1, sm_gets. unfold mbind at 1, sm_bind at 1, sm_lift.
  destruct (map_err _ _) as [manifest|e].
  2: { intros [= <- <-]. apply moves_touched; [eapply kvm_inv_weaken; [done|lia]|apply moves_refl, Hi]. }
  destruct (next_snapshot_inv n h Hn Hi) as (Hi2 & Ht2 & Hx).
  unfold mbind at 1, sm_bind at 1. change (SnapshotId_next h) with (Ok (E := VmError) (next_snapshot h), (SnapshotId_next h).2).
  cbv iota. set (h2 := (SnapshotId_next h).2) in *. set (c := adopt_files _ _ _ _).
  assert (Hm2 : moves None h2 (on_fs c h2).2) by (apply stays_on_fs; split; [apply Hi2|done]).
  unfold mbind at 1, sm_bind at 1. destruct (on_fs c h2) as [[[]|e] h3]; simpl in Hm2.
  - intros He. injection He as <- <-. by apply (snapshot_birth n None h h2 h3 _ Hi2 Ht2 Hx).
  - intros [= <- <-]. destruct (moves_touched _ _ None _ _ Hi2 Hm2) as [Hi3 Ht3]. split; [done|]. by eapply touched_before.
Qed.

Lemma kvm_call {A} (c : HvCall A) n h r h' :
  0 <= n -> kvm_inv (n + cost c) h -> call c h = (r, h') ->
  kvm_inv n h'
  /\ kvm_touched (vm_target c) (snap_target c)
       (match r with Ok a => born_vm c a | Err _ => None end)
       (match r with Ok a => born_snapshot c a | Err _ => None end) h h'.
Proof.
  intros Hn Hi He. pose proof (ki_threads _ _ Hi) as Hok.
  assert (Hq : forall o snap, moves o h h' -> kvm_inv n h' /\ kvm_touched o snap None None h h').
  { intros o snap Hm. apply moves_touched; [|done]. eapply kvm_inv_weaken; [done|]. destruct c; simpl; lia. }
  assert (Hr : h' = (call c h).2) by (by rewrite He).
  destruct c; simpl in *; rewrite ?Z.add_0_r in Hi.
  - destruct r; by apply (create_call cfg n h _ h' Hn Hi He).
  - destruct r; apply Hq; rewrite Hr; by apply start_moves.
  - destruct r; apply Hq; rewrite Hr; by apply stop_moves.
  - destruct r; apply Hq; rewrite Hr; by apply state_moves.
  - destruct r; by apply (snapshot_call id n h _ h' Hn Hi He).
  - destruct r; by apply (restore_call snap n h _ h' Hn Hi He).
  - destruct r; by apply (destroy_call id n h _ h' Hi He).
  - destruct r; apply Hq; rewrite Hr; by apply list_vms_moves.
  - destruct r; apply Hq; rewrite Hr; by apply moves_refl.
  - destruct r; by apply (delete_snapshot_call snap n h _ h' Hi He).
  - destruct r; apply Hq; rewrite Hr; apply (stays_bind None); auto with stays; by split.
  - destruct r; apply Hq; rewrite Hr; apply (stays_bind None); auto with stays; by split.
  - destruct r; by apply (adopt_call dir n h _ h' Hn Hi He).
  - destruct r; apply Hq; rewrite Hr; by apply vm_meta_moves.
  - destruct r; apply Hq; rewrite Hr; by apply exec_moves.
  - destruct r; apply Hq; rewrite Hr; by apply file_moves.
  - destruct r; apply Hq; rewrite Hr; by apply file_moves.
Qed.

#[local] Instance kvm_frame : HypervisorFrame hypervisor (VmConfig.t * KvmVmRuntime.t M C D B) SnapshotEntry.t F.
Proof.
  refine {| vm_view := view; snap_view := entry_of; vm_issued := vm_given; snap_issued := snap_given; hv_inv := kvm_inv |}.
  - intros n m h Hi Hle. by eapply kvm_inv_weaken.
  - intros A c n h r h'. apply kvm_call.
  - intros f n h Hi. apply moves_touched; [done|]. by apply moves_aside; [apply Hi|..].
Defined.

(** A destroy that succeeds has removed the VM, whether or not it was running. *)
#[local] Instance kvm_destroy_reaps : DestroyReaps hypervisor (VmConfig.t * KvmVmRuntime.t M C D B) SnapshotEntry.t F.
Proof.
  intros v h h' He. cbn [call] in He. apply sm_bind_inv in He as ([] & h1 & _ & He).
  apply sm_bind_inv in He as (x & h2 & _ & He). apply sm_bind_inv in He as ([] & h3 & Hdel & He).
  injection Hdel as <-. assert (h' = set_vms (delete v (vms h2)) h2) as -> by (destruct (bool_decide _); by injection He).
  cbn. unfold view. cbn. by rewrite lookup_delete_eq.
Qed.

(** ** Sequences of calls *)

(** [runs k ts ps bs h h']: [k] calls lead from [h] to [h'], about the VMs [ts] and
    the snapshots [ps], and gave out the VM ids [bs]. *)
Inductive runs : nat -> list VmId -> list SnapshotId -> list VmId -> hypervisor -> hypervisor -> Prop :=
| runs_nil h : runs 0 [] [] [] h h
| runs_cons k {A} (c : HvCall A) r h h1 ts ps bs h2 :
    call c h = (r, h1) -> runs k ts ps bs h1 h2 ->
    runs (S k) (option_list (vm_target c) ++ ts) (option_list (snap_target c) ++ ps)
      (option_list (match r with Ok a => born_vm c a | Err _ => None end) ++ bs) h h2.

Lemma runs_given n k ts ps bs h h' v :
  0 <= n -> kvm_inv (n + Z.of_nat k) h -> runs k ts ps bs h h' -> vm_given h v -> vm_given h' v.
Proof.
  intros Hn Hi Hr. revert Hi. induction Hr as [h|k A c r h h1 ts ps bs h2 Hc Hr IH]; intros Hi Hv; [done|].
  assert (Hcost : cost c <= 1) by (destruct c; simpl; lia).
  destruct (kvm_call c (n + Z.of_nat k) h r h1) as [Hi1 Ht]; [lia| |done|].
  { eapply kvm_inv_weaken; [exact Hi|]. lia. }
  apply IH; [done|]. by apply Ht.
Qed.

(** C8: Calls of the KVM hypervisor leave other VMs alone. Over any sequence of
    calls, whatever they answer, a VM none of them is about keeps its
    configuration and its machine (guest memory, devices and serial output; its
    run state is its thread's to change), a snapshot none is about keeps its
    directory and metadata, the VM ids given out are new and different from each
    other, and only running VMs have a thread. *)
Theorem kvm_calls_isolated n k ts ps bs h h' :
  0 <= n -> kvm_inv (n + Z.of_nat k) h -> runs k ts ps bs h h' ->
  kvm_inv n h' /\
  (forall v, vm_given h v -> v ∉ ts -> view h' v = view h v) /\
  (forall p, snap_given h p -> p ∉ ps -> snapshots h' !! p = snapshots h !! p) /\
  NoDup bs /\ (forall v, v ∈ bs -> ~ vm_given h v /\ vm_given h' v) /\
  (forall v x, vms h' !! v = Some x -> is_Some (KvmVm.vcpu x) -> KvmVm.state x = Running).
Proof.
  intros Hn Hi Hr. revert Hi. induction Hr as [h|k A c r h h1 ts ps bs h2 Hc Hr IH]; intros Hi.
  { rewrite Z.add_0_r in Hi. split_and!; try done; [apply NoDup_nil_2|by intros v ?%elem_of_nil|].
    intros v x Hx. apply (map_Forall_lookup_1 _ _ _ _ (ki_threads _ _ Hi) Hx). }
  assert (Hcost : cost c <= 1) by (destruct c; simpl; lia).
  destruct (kvm_call c (n + Z.of_nat k) h r h1) as [Hi1 Ht]; [lia| |done|].
  { eapply kvm_inv_weaken; [exact Hi|]. lia. }
  destruct (IH Hi1) as (H1 & H2 & H3 & H4 & H5 & H6). destruct Ht as [T1 T2 T3 T4 T5 T6].
  set (nv := match r with Ok a => born_vm c a | Err _ => None end) in *.
  assert (Hnew : forall v, vm_given h v -> nv <> Some v) by (intros v Hv He; by apply (T5 v He)).
  assert (Hmono : forall v, vm_given h1 v -> vm_given h2 v) by (intros v; by eapply runs_given).
  split_and!; try done.
  - intros v Hv [Hno Hts]%not_elem_of_app. rewrite H2 by auto. apply T3; [|by apply Hnew].
    intros He. apply Hno. rewrite He. by left.
  - intros p Hp [Hno Hps]%not_elem_of_app. rewrite H3 by auto. apply T4; [|].
    + intros He. apply Hno. rewrite He. by left.
    + intros He. by apply (T6 p He).
  - destruct nv as [v|] eqn:Hv; simpl; [|done]. apply NoDup_cons. split; [|done]. intros Hin.
    destruct (H5 v Hin) as [Hno _]. apply Hno. by apply (T5 v).
  - intros v [Hin|Hin]%elem_of_app.
    + destruct nv as [w|] eqn:Hv; [|by apply elem_of_nil in Hin]. apply list_elem_of_singleton in Hin as ->.
      destruct (T5 w eq_refl). auto.
    + destruct (H5 v Hin) as [Hno Hyes]. split; auto.
Qed.
End Props.

(** ** A concrete sequence *)

Module CallsSample.
Import KvmSample.
#[local] Instance manifests : Serde string Manifest.t := one_manifest sample_manifest.
#[local] Instance vcpu_states : Serde string VcpuState.t := StateSample.state_serde.
#[local] Instance machine_states : Serde string MachineState.t :=
  {| to_json _ := (Ok tt, []); from_json _ := Ok (MachineState.mk [] [] [] [] []) |}.
#[local] Instance requests : Serde unit Request.t := {| to_json _ := (Err tt, []); from_json _ := Err tt |}.
#[local] Instance responses : Serde unit Response.t := {| to_json _ := (Err tt, []); from_json _ := Err tt |}.
#[local] Instance messages : Messages VsockQueue.QueueError unit := {|
  display_mem_error _ := ""; display_errno _ := ""; display_queue_error _ := ""; display_frame_error _ := "";
  debug_body _ := ""; debug_code _ := ""; debug_str s := s; image_message _ := "" |}.

(** One VM, ready to run a program of one byte. *)
Definition cfg : VmConfig.t := VmConfig.mk 1 1 None (Some [Byte.xf4]) None None "" None None NetMock.
Definition one_vm : hypervisor :=
  KvmHypervisor.mk 0
    {[ 1 := KvmVm.mk cfg Created (KvmVmRuntime.mk (Machine.mk (SliceGuestMemory.mk 0 [Byte.xf4]) tt None None []) 0 None "" 0 true) None None ]}
    ∅ 2 1 ∅.

#[local] Instance sample_hv : Hypervisor hypervisor :=
  kvm_hv MockBackend.new None Snapshot.slice_mmap "/tmp" (fun m => (map_to_list m).*1) map_to_list 1.
Abbreviation sample_runs := (runs MockBackend.new None Snapshot.slice_mmap "/tmp" (fun m => (map_to_list m).*1) map_to_list 1).

Lemma one_vm_inv : kvm_inv 3 one_vm.
Proof.
  split; simpl; try lia; try done.
  - intros v Hv. apply lookup_singleton_ne. lia.
  - apply map_Forall_singleton. by intros [? ?].
Qed.

(** Another VM is created, started and destroyed. *)
Lemma kvm_calls_isolated_witness :
  exists h', sample_runs 3 [2; 2] [] [2] one_vm h' /\ view h' 1 = view one_vm 1.
Proof.
  set (h1 := (call (H := hypervisor) (CCreate cfg) one_vm).2).
  set (h2 := (call (H := hypervisor) (CStart 2) h1).2). set (h3 := (call (H := hypervisor) (CDestroy 2) h2).2).
  assert (Hr : sample_runs 3 [2; 2] [] [2] one_vm h3).
  { apply (runs_cons _ _ _ _ _ _ _ 2 (CCreate cfg) (Ok (VmHandle.mk 2 Created)) one_vm h1 [2; 2] [] [] h3); [reflexivity|].
    apply (runs_cons _ _ _ _ _ _ _ 1 (CStart 2) (Ok tt) h1 h2 [2] [] [] h3); [reflexivity|].
    apply (runs_cons _ _ _ _ _ _ _ 0 (CDestroy 2) (Ok tt) h2 h3 [] [] [] h3); [reflexivity|]. apply runs_nil. }
  exists h3. split; [exact Hr|].
  destruct (kvm_calls_isolated _ _ _ _ _ _ _ 0 3 _ _ _ _ _ ltac:(lia) one_vm_inv Hr) as (_ & Hv & _).
  apply Hv; [reflexivity|]. by apply (bool_decide_eq_true_1 (1 ∉ [2; 2])).
Defined.
End CallsSample.
