(* ===== verification/KvmRestore.v ===== *)
(** * Snapshots of the KVM hypervisor, and its failures

    What [snapshot] writes is what [restore] builds a VM from: memory, machine
    devices and vCPU. And what is left of a VM when a step of its lifecycle
    fails. *)

From Stdlib Require Import Ascii String.
From stdpp Require Import strings pretty.
From S2P Require Import Prelude GuestMemory VirtioQueue Mmio VsockProto VsockTable VsockQueue VsockDevice NetQueue NetDevice Str Io Fs VmCore VmMock Store Proto Snapshot Boot KvmVsock KvmState HvCalls Kvm KvmSample.

Local Open Scope Z_scope.

(** ** The files of a snapshot *)

Section Files.
Context {E M : Type} `{!GuestMem E M, !GuestMemLaws E M}.
Context {F : Type} `{!FileSystem F, !DirFs F, !DirFsLaws F}.
Context `{!Serde string Manifest.t, !Serde string VcpuState.t, !Serde string MachineState.t}.
Context `{!SerdeLaws string Manifest.t, !SerdeLaws string VcpuState.t, !SerdeLaws string MachineState.t}.
Context {JE : Type} `{!Messages E JE}.

(** Files of a directory with different names are different files. *)
Lemma names_apart dir a b :
  is_absolute dir = true -> is_absolute a = false -> is_absolute b = false -> added a <> added b ->
  components (push dir a) <> components (push dir b).
Proof.
  intros Hdir Ha Hb Hne. rewrite (proj1 (components_push dir a Hdir Ha)), (proj1 (components_push dir b Hdir Hb)).
  by intros ?%app_inv_head.
Qed.

Lemma push_absolute p part : is_absolute p = true -> is_absolute (push p part) = true.
Proof.
  intros Hp. destruct (is_absolute part) eqn:Hpart; [|by apply components_push].
  unfold push. by rewrite Hpart.
Qed.

(** What a directory holds of a snapshot. *)
Record holds_snapshot (dir : string) (f : F) (manifest : Manifest.t) (ram : bytes) (s : VcpuState.t) (ms : MachineState.t) : Prop := {
  hs_manifest : Manifest.read_from_dir f dir = Ok manifest;
  hs_image : fs_read f (FsSnapshotStore.backing_file_path manifest dir) = Ok (image ram);
  hs_vcpu : read_vcpu_state dir f = Ok s;
  hs_machine : read_machine_state dir f = Ok ms;
}.

Lemma dump_image_reads (m : M) ram path (f f' : F) :
  mem_read m 0 (length ram) = Ok ram -> zlen ram < 2 ^ 63 -> zlen ram mod Snapshot.PAGE_SIZE = 0 ->
  dump_image (JE := JE) m (zlen ram) path f = (Ok tt, f') ->
  fs_read f' path = Ok (image ram) /\ (forall q, components q <> components path -> fs_read f' q = fs_read f q).
Proof.
  intros Hr Hb Hm. unfold dump_image. destruct (BackingFileHeader.new _ _); [|done].
  destruct (fs_write path [] f) as [[[]|] f1] eqn:H1; [|done].
  pose proof (dump_memory_writes m ram Hr Hb Hm (Writer.mk [] None)) as Hw.
  destruct (dump_memory (Ok tt) m (zlen ram) (Writer.mk [] None)) as [[[]|e] w]; [|by destruct Hw as [_ []]].
  destruct Hw as [Hw _]. simpl in Hw. rewrite Hw. destruct (fs_write path (image ram) f1) as [[[]|] f2] eqn:H2; [|done].
  intros [= <-]. split; [apply (write_reads _ _ _ _ path H2)|]. intros q Hq.
  destruct (write_reads _ _ _ _ q H2) as [_ ->]; [|done]. by apply (write_reads _ _ _ _ q H1).
Qed.

Lemma write_state_reads {S} `{!Serde string S, !SerdeLaws string S} file what (s : S) dir (f f' : F) :
  write_state file what s dir f = (Ok tt, f') ->
  read_state file what dir f' = Ok s /\ (forall q, components q <> components (push dir file) -> fs_read f' q = fs_read f q).
Proof.
  unfold write_state, read_state. destruct (to_json s) as [[[]|] js] eqn:Hj; [|done].
  destruct (fs_write _ js f) as [[[]|] f1] eqn:Hw; simpl; intros Heq; simplify_eq.
  split; [|intros q; apply (write_reads _ _ _ _ q Hw)]. destruct (write_reads _ _ _ _ "" Hw) as [-> _]. simpl.
  by rewrite (json_roundtrip _ _ Hj).
Qed.

Lemma read_state_same {S} `{!Serde string S} file what dir (f f' : F) :
  fs_read f' (push dir file) = fs_read f (push dir file) ->
  (read_state file what dir f' : result VmError S) = read_state file what dir f.
Proof. intros He. unfold read_state. by rewrite He. Qed.

Definition same_files (dir : string) (f f' : F) : Prop :=
  forall name, is_absolute name = false -> fs_read f' (push dir name) = fs_read f (push dir name).

Lemma holds_snapshot_same dir f f' manifest ram s ms :
  is_absolute (Manifest.backing_file manifest) = false ->
  same_files dir f f' -> holds_snapshot dir f manifest ram s ms -> holds_snapshot dir f' manifest ram s ms.
Proof.
  intros Hn Hs [H1 H2 H3 H4]. split.
  - rewrite <- H1. by apply read_manifest_same, Hs.
  - rewrite <- H2. by apply Hs.
  - rewrite <- H3. by apply read_state_same, Hs.
  - rewrite <- H4. by apply read_state_same, Hs.
Qed.

Lemma write_snapshot_holds manifest (m : M) ram s captured dir (f f' : F) :
  is_absolute dir = true -> Manifest.format_version manifest = MANIFEST_VERSION ->
  Manifest.backing_file manifest = Manifest.default_backing_file -> Manifest.memory_bytes manifest = zlen ram ->
  mem_read m 0 (length ram) = Ok ram -> zlen ram < 2 ^ 63 -> zlen ram mod Snapshot.PAGE_SIZE = 0 ->
  KvmHypervisor.write_snapshot (JE := JE) manifest m s captured dir f = (Ok tt, f') ->
  exists ms, captured = Ok ms /\ holds_snapshot dir f' manifest ram s ms.
Proof.
  intros Hdir Hver Hbf Hmb Hr Hb Hm. unfold KvmHypervisor.write_snapshot. intros H.
  apply sm_bind_inv in H as ([] & f0 & _ & H).
  apply sm_bind_inv in H as ([] & f1 & H1 & H).
  apply sm_bind_inv in H as ([] & f2 & H2 & H).
  apply sm_bind_inv in H as ([] & f3 & H3 & H).
  apply sm_bind_inv in H as (ms & f4 & [= -> <-] & H4).
  unfold KvmHypervisor.write_manifest in H1.
  destruct (Manifest.write_to_dir manifest dir f0) as [[[]|] g] eqn:Hw; [|done]. injection H1 as <-.
  destruct (write_manifest_reads manifest dir f0 g Hver Hw) as [A1 _].
  rewrite Hmb in H2. destruct (dump_image_reads m ram _ g f2 Hr Hb Hm H2) as [A2 K2].
  destruct (write_state_reads _ _ _ _ _ _ H3) as [A3 K3]. destruct (write_state_reads _ _ _ _ _ _ H4) as [A4 K4].
  unfold FsSnapshotStore.backing_file_path in A2, K2. rewrite Hbf in A2, K2.
  exists ms. split; [done|]. split.
  - rewrite <- A1. apply read_manifest_same. unfold manifest_path. rewrite K4, K3, K2; [done|by apply names_apart..].
  - unfold FsSnapshotStore.backing_file_path. rewrite Hbf, <- A2, K4, K3; [done|by apply names_apart..].
  - rewrite <- A3. apply read_state_same, K4. by apply names_apart.
  - exact A4.
Qed.
End Files.

Section Snapshots.
Import KvmHypervisor.
Context {E M : Type} `{!GuestMem E M, !GuestMemLaws E M, !GuestRam M, !RamRegions M}.
Context {C Hd : Type} `{!CmdlineBuilder C, !LinuxLoader Hd C M}.
Context {CpuId Vc D K : Type} `{!VcpuFd CpuId Vc, !VcpuIoctls Vc, !IrqLines D, !VmIoctls D, !VmFd Vc D, !KvmHost CpuId D K}.
Context {B : Type} `{!NetworkBackend B}.
Context {T : Type} `{!VcpuThreads Vc (Machine.t M D B) T}.
Context {F : Type} `{!FileSystem F, !DirFs F, !DirFsLaws F}.
Context `{!Serde string Manifest.t, !Serde string VcpuState.t, !Serde string MachineState.t}.
Context `{!SerdeLaws string Manifest.t, !SerdeLaws string VcpuState.t, !SerdeLaws string MachineState.t}.
Context {JE : Type} `{!Serde JE Request.t, !Serde JE Response.t, !Messages E JE}.
Variable mmap_private : bytes -> Z -> nat -> option M.
Variable temp_dir : string.
Variable vm_order : gmap Z (KvmVm.t M C D B T) -> list VmId.

Abbreviation vm := (KvmVm.t M C D B T).
Abbreviation hypervisor := (KvmHypervisor.t M C D B T K F).
Implicit Types h : hypervisor.

(** The manifest [snapshot] writes for a VM whose machine is [x]. *)
Definition manifest_of (snap : SnapshotId) (v : vm) (x : Machine.t M D B) (now : Z) : Manifest.t :=
  let cmdline := match cmdline_string (M := M) (KvmVmRuntime.cmdline (KvmVm.runtime v)) with Ok s => s | Err _ => "" end in
  snapshot_manifest snap (last_addr (Machine.guest_mem x) + 1) (VmConfig.vcpus (KvmVm.config v)) now cmdline.

(** A snapshot that succeeded paused the VM's thread and wrote what it found. *)
Lemma snapshot_inv id h snap h' :
  snapshot (JE := JE) (CpuId := CpuId) temp_dir vm_order id h = (Ok snap, h') ->
  exists h1 v t s t' x f,
    reap_finished_vcpus vm_order h = (Ok tt, h1) /\ vms h1 !! id = Some v /\ KvmVm.vcpu v = Some t /\
    KvmVmRuntime.real_mode (KvmVm.runtime v) = false /\ Machine.vsock (vm_machine v) = None /\
    pause_and_take_state t (vm_machine v) = (Ok s, t', x) /\ snap = next_snapshot h1 /\
    let manifest := manifest_of snap v x (unix_ms (kvm h1)) in
    write_snapshot (JE := JE) manifest (Machine.guest_mem x) s (capture_machine (Machine.vm_fd x)) (snapshot_dir temp_dir snap) f
      = (Ok tt, fs h') /\
    snapshots h' !! snap = Some (SnapshotEntry.mk (snapshot_dir temp_dir snap)
      (SnapshotMeta.mk snap (VmConfig.vcpus (KvmVm.config v)) (Manifest.memory_bytes manifest) Snapshot.PAGE_SIZE (Manifest.kernel_cmdline manifest))).
Proof.
  unfold snapshot. intros H. apply sm_bind_inv in H as ([] & h1 & Hreap & H).
  apply sm_bind_inv in H as (p & h2 & Hid & H). apply sm_bind_inv in H as (meta & h3 & Hcap & H).
  injection Hid as <- <-. apply sm_bind_inv in H as ([] & h4 & [= <-] & [= <- <-]).
  unfold capture_snapshot in Hcap. apply sm_bind_inv in Hcap as (v & h5 & Hv & Hcap).
  unfold KvmHypervisor.get_vm in Hv. simpl in Hv. destruct (vms h1 !! id) as [v0|] eqn:Hv1; [|done]. injection Hv as -> <-.
  apply sm_bind_inv in Hcap as (t & h6 & Hg & Hcap). unfold sm_lift in Hg. injection Hg as Hg <-.
  unfold snapshot_guards in Hg. destruct (KvmVmRuntime.real_mode (KvmVm.runtime v)) eqn:Hrm; [done|].
  case_bool_decide as Hvs; [done|]. destruct (negb _); [done|].
  destruct (KvmVm.vcpu v) as [t0|] eqn:Ht; [|done]. injection Hg as ->.
  destruct (pause_and_take_state t (vm_machine v)) as [[r t'] x] eqn:Hp.
  apply sm_bind_inv in Hcap as ([] & h7 & [= <-] & Hcap). apply sm_bind_inv in Hcap as (s & h8 & Hs & Hcap).
  unfold sm_lift in Hs. injection Hs as -> <-. unfold snapshot_parked in Hcap.
  apply sm_bind_inv in Hcap as (now_ & h9 & [= <- <-] & Hcap). apply sm_bind_inv in Hcap as (wr & h10 & Hw & Hcap).
  apply sm_bind_inv in Hcap as ([] & h11 & [= <-] & Hcap). apply sm_bind_inv in Hcap as ([] & h12 & Hr & [= <- <-]).
  unfold sm_lift in Hr. injection Hr as -> <-. unfold on_fs in Hw. simpl in Hw.
  destruct (write_snapshot _ _ _ _ _ _) as [r1 f1] eqn:Hwr. injection Hw as -> <-.
  exists h1, v, t, s, t', x, (fs h1). split_and!; try done.
  - by apply eq_None_not_Some.
  - simpl. by rewrite lookup_insert_eq.
Qed.

(** The vCPU [vc] of a VM whose device file is [d'] was made from a state: the
    devices were set from [ms] on [d], then the vCPU was created, given the CPU
    features of the host, and set from [s] by the calls of the state, in the
    documented order. *)
Definition made_from (d : D) (vc : Vc) (d' : D) (s : VcpuState.t) (ms : MachineState.t) : Prop :=
  exists d0 fresh cpuid shaped calls,
    dev_issued (dev_call_of <$> dev_blobs ms) d d0 /\ create_vcpu 0 d0 = (Ok fresh, d') /\
    set_cpuid2 (CpuId := CpuId) cpuid fresh = (Ok tt, shaped) /\
    issued calls shaped vc /\ calls ≡ₚ state_calls s /\ documented_order s calls.

Lemma restore_vcpu_inv f cpuid dir d vc d' s ms :
  read_machine_state dir f = Ok ms -> read_vcpu_state dir f = Ok s ->
  restore_vcpu (CpuId := CpuId) (F := F) f cpuid dir d = Ok (vc, d') -> made_from d vc d' s ms.
Proof.
  intros Hms Hs. unfold restore_vcpu. rewrite Hms. cbn [mbind result_bind]. unfold run, ctx.
  destruct (restore_machine ms d) as [[[]|e] d0] eqn:Hm; [|done]. cbn [mbind result_bind].
  destruct (create_vcpu 0 d0) as [[fresh|e] d1] eqn:Hc; [|done]. cbn [mbind result_bind].
  destruct (Kvm.backend _ cpuid) as [cp|]; [|done]. cbn [mbind result_bind].
  destruct (set_cpuid2 cp fresh) as [[[]|e] v1] eqn:Hp; [|done]. cbn [mbind result_bind]. rewrite Hs. cbn [mbind result_bind].
  destruct (KvmState.restore s v1) as [[[]|e] v2] eqn:Hr; [|done]. cbn [mbind result_bind]. intros [= <- <-].
  apply restore_issues in Hr as (calls & Hi & Hperm & Ho). exists d0, fresh, cp, v1, calls.
  split_and!; [by apply restore_machine_issues|done..].
Qed.

(** A restore that succeeds gave the snapshot's contents to a new VM. *)
Lemma restore_inv h snap entry hd h' manifest ram s ms :
  mmap_reads (E := E) mmap_private -> ram <> [] ->
  zlen ram < 2 ^ 63 -> zlen ram mod Snapshot.PAGE_SIZE = 0 -> Manifest.memory_bytes manifest = zlen ram ->
  snapshots h !! snap = Some entry -> holds_snapshot (SnapshotEntry.dir entry) (fs h) manifest ram s ms ->
  restore (JE := JE) (CpuId := CpuId) mmap_private snap h = (Ok hd, h') ->
  VmHandle.state hd = Running /\
  exists rt vc d0,
    vms h' !! VmHandle.id hd = Some (KvmVm.mk (restored_config (SnapshotEntry.meta entry)) Running rt
                                       (Some (thread_spawn (VmHandle.id hd) vc)) None) /\
    mem_read (Machine.guest_mem (KvmVmRuntime.machine rt)) 0 (length ram) = Ok ram /\
    made_from d0 vc (Machine.vm_fd (KvmVmRuntime.machine rt)) s ms /\
    Machine.vsock (KvmVmRuntime.machine rt) = None /\ Machine.net (KvmVmRuntime.machine rt) = None.
Proof.
  intros Hmap Hne Hb Hm Hmb He [Hman Himg Hvc Hms]. unfold restore. intros H.
  apply sm_bind_inv in H as (e & h1 & Hg & H). unfold get_snapshot in Hg. rewrite He in Hg. injection Hg as <- <-.
  apply sm_bind_inv in H as (f & h2 & [= <- <-] & H). apply sm_bind_inv in H as (man & h3 & Hl & H).
  unfold sm_lift in Hl. rewrite Hman in Hl. injection Hl as <- <-.
  apply sm_bind_inv in H as ([rt vc] & h4 & Hk & H). apply sm_bind_inv in H as (id & h5 & [= <- <-] & H).
  apply sm_bind_inv in H as ([] & h6 & [= <-] & [= <- <-]). split; [done|].
  unfold on_kvm in Hk. destruct (restore_runtime _ _ _ _ _) as [r k] eqn:Hr. injection Hk as -> <-.
  unfold restore_runtime in Hr. apply sm_bind_inv in Hr as (mem & k1 & Hmem & Hr).
  apply sm_bind_inv in Hr as (d & k2 & _ & Hr). apply sm_bind_inv in Hr as (d2 & k3 & _ & Hr).
  apply sm_bind_inv in Hr as (d3 & k4 & _ & Hr). apply sm_bind_inv in Hr as (cpuid & k5 & _ & Hr).
  apply sm_bind_inv in Hr as ([vc' d4] & k6 & Hv & Hr). apply sm_bind_inv in Hr as (cmdline & k7 & _ & [= <- <- <-]).
  unfold sm_lift in Hmem, Hv. injection Hmem as Hmem _. injection Hv as Hv _.
  pose proof (restore_vcpu_inv _ _ _ _ _ _ _ _ Hms Hvc Hv) as Hmade.
  unfold map_image in Hmem. rewrite Himg, Hmb in Hmem. simpl in Hmem.
  destruct (cow_guest_memory mmap_private (image ram) (zlen ram)) as [m'|] eqn:Hcow; [|done]. injection Hmem as ->.
  eexists _, _, d3. split; [simpl; by rewrite lookup_insert_eq|]. split; [by eapply cow_image_reads|]. by split_and!.
Qed.

(** C9: Restoring a snapshot rebuilds the guest that was snapshotted. When a
    snapshot succeeds, the VM's thread was paused and handed over the state of
    its vCPU; from then on, as long as the directory's files are not changed, a
    restore of the snapshot that succeeds, by any later state of the hypervisor,
    gives a running VM whose memory reads as the paused guest's. Its interrupt
    controllers and timers were set to what the paused VM's devices answered, one
    by one, before its vCPU was created; the vCPU was given the host's CPU features
    and then every structure of the handed-over state and its model-specific
    registers, each by one call, sregs before regs, MSRs before the local APIC,
    pending events and run state last; and where the state was captured from a
    vCPU, what each call sets is what that vCPU answered. The new VM has the
    geometry of the original, but neither a vsock nor a network device. What a
    vCPU is after such calls is the kernel's, and nothing is assumed of it. *)
Theorem kvm_restore_resumes_snapshot id h snap h1 :
  mmap_reads (E := E) mmap_private -> is_absolute temp_dir = true ->
  snapshot (JE := JE) (CpuId := CpuId) temp_dir vm_order id h = (Ok snap, h1) ->
  exists h0 (v : vm) (t : T) s t' x,
  reap_finished_vcpus vm_order h = (Ok tt, h0) /\ vms h0 !! id = Some v /\ KvmVm.vcpu v = Some t /\
  pause_and_take_state t (vm_machine v) = (Ok s, t', x) /\
  (forall v0 indices, capture v0 indices = Ok s -> Forall (call_reads (V := Vc) v0 indices) (state_calls s)) /\
  forall ram h2 hd h3,
    ram <> [] -> mem_read (Machine.guest_mem x) 0 (length ram) = Ok ram -> last_addr (Machine.guest_mem x) + 1 = zlen ram ->
    zlen ram < 2 ^ 63 -> zlen ram mod Snapshot.PAGE_SIZE = 0 ->
    snapshots h2 !! snap = snapshots h1 !! snap -> same_files (snapshot_dir temp_dir snap) (fs h1) (fs h2) ->
    restore (JE := JE) (CpuId := CpuId) mmap_private snap h2 = (Ok hd, h3) ->
    exists v' vc ms d0,
      vms h3 !! VmHandle.id hd = Some v' /\ KvmVm.state v' = Running /\
      KvmVm.vcpu v' = Some (thread_spawn (VmHandle.id hd) vc) /\
      mem_read (Machine.guest_mem (vm_machine v')) 0 (length ram) = Ok ram /\
      Forall (fun b => get_dev b.1 (Machine.vm_fd x) = Ok b.2) (dev_blobs ms) /\
      made_from d0 vc (Machine.vm_fd (vm_machine v')) s ms /\
      VmConfig.vcpus (KvmVm.config v') = VmConfig.vcpus (KvmVm.config v) /\
      VmConfig.memory_mib (KvmVm.config v') = zlen ram / 2 ^ 20 /\
      Machine.vsock (vm_machine v') = None /\ Machine.net (vm_machine v') = None.
Proof.
  intros Hmap Habs Hsnap. destruct (snapshot_inv _ _ _ _ Hsnap) as (h0 & v & t & s & t' & x & f & Hreap & Hv & Ht & _ & _ & Hp & _ & Hw & He).
  exists h0, v, t, s, t', x. split_and!; [done..|intros v0 indices; apply capture_reads|].
  intros ram h2 hd h3 Hne Hread Hsize Hb Hm Hsame Hfiles Hrest.
  set (manifest := manifest_of snap v x (unix_ms (kvm h0))) in *.
  assert (Hmb : Manifest.memory_bytes manifest = zlen ram) by (exact Hsize).
  assert (Hdir : is_absolute (snapshot_dir temp_dir snap) = true) by (by apply push_absolute, push_absolute).
  destruct (write_snapshot_holds manifest _ ram _ _ _ _ _ Hdir eq_refl eq_refl Hmb Hread Hb Hm Hw) as (ms & Hms & Hholds).
  rewrite He in Hsame. apply (holds_snapshot_same _ _ (fs h2)) in Hholds; [|done|done].
  destruct (restore_inv h2 snap _ hd h3 manifest ram s ms Hmap Hne Hb Hm Hmb Hsame Hholds Hrest)
    as (_ & rt & vc & d0 & H1 & H2 & H3 & H4 & H5).
  eexists _, vc, ms, d0. split; [exact H1|]. split_and!; try done; [by apply capture_machine_reads|].
  cbn [KvmVm.config restored_config VmConfig.with_geometry VmConfig.memory_mib SnapshotEntry.meta SnapshotMeta.memory_bytes]. by rewrite Hmb.
Qed.
End Snapshots.

(** ** Failures *)

Section Failures.
Import KvmHypervisor.
Context {E M : Type} `{!GuestMem E M, !GuestRam M, !RamRegions M}.
Context {C Hd : Type} `{!CmdlineBuilder C, !LinuxLoader Hd C M}.
Context {CpuId Vc D K : Type} `{!VcpuFd CpuId Vc, !VcpuIoctls Vc, !IrqLines D, !VmIoctls D, !VmFd Vc D, !KvmHost CpuId D K}.
Context {B : Type} `{!NetworkBackend B}.
Context {T : Type} `{!VcpuThreads Vc (Machine.t M D B) T}.
Context {F : Type} `{!FileSystem F, !DirFs F, !Serde string Manifest.t, !Serde string VcpuState.t, !Serde string MachineState.t}.
Context {JE : Type} `{!Messages E JE}.
Variable mock_backend : B.
Variable smoltcp_backend : option B.
Variable temp_dir : string.
Variable vm_order : gmap Z (KvmVm.t M C D B T) -> list VmId.

Abbreviation vm := (KvmVm.t M C D B T).
Abbreviation hypervisor := (KvmHypervisor.t M C D B T K F).
Implicit Types h : hypervisor.

Definition panicked : VmError := Backend "vm-kvm: vCPU thread panicked".

(** The thread of the VM has ended in a panic nobody has noticed. *)
Definition has_panicked (v : vm) : Prop := KvmVm.vcpu v ≫= thread_finished = Some (Err tt).

Lemma reap_vm_error v : (exists e v', reap_vm v = (Err e, v')) <-> has_panicked v.
Proof.
  unfold reap_vm, has_panicked. destruct (KvmVm.vcpu v ≫= thread_finished) as [[[[]|e]|[]]|]; simpl;
    (split; [intros (? & ? & ?); done|intros ?; try done]). by eauto.
Qed.

Lemma reap_list_error ids : forall (m : gmap Z vm) e m', reap_list ids m = (Err e, m') ->
  e = panicked /\ exists i v, i ∈ ids /\ m' !! i = Some v /\ KvmVm.state v = Stopped /\ KvmVm.vcpu v = None.
Proof.
  induction ids as [|i ids IH]; intros m e m'; simpl; [done|].
  destruct (m !! i) as [v|] eqn:Hv; [|intros He; destruct (IH _ _ _ He) as (? & j & w & ? & ?); split; [done|exists j, w; by rewrite elem_of_cons; auto]].
  destruct (reap_vm v) as [[[]|e1] v'] eqn:Hr.
  - intros He. destruct (IH _ _ _ He) as (? & j & w & ? & ?). split; [done|]. exists j, w. by rewrite elem_of_cons; auto.
  - intros [= <- <-]. unfold reap_vm in Hr. destruct (KvmVm.vcpu v ≫= thread_finished) as [[[[]|]|[]]|]; try done.
    simpl in Hr. injection Hr as <- <-. split; [done|]. exists i. eexists. split; [by left|]. by rewrite lookup_insert_eq.
Qed.

(** Reaping fails when a panicked thread is met, and only then. *)
Lemma reap_list_panics ids (m : gmap Z vm) :
  (exists i v, i ∈ ids /\ m !! i = Some v /\ has_panicked v) -> exists e m', reap_list ids m = (Err e, m').
Proof.
  revert m. induction ids as [|i ids IH]; intros m (j & w & Hin & Hw & Hp); simpl; [by apply elem_of_nil in Hin|].
  destruct (decide (j = i)) as [-> |Hne].
  { rewrite Hw. destruct (proj2 (reap_vm_error w) Hp) as (e & v' & ->). eauto. }
  apply elem_of_cons in Hin as [?|Hin]; [done|]. destruct (m !! i) as [v|]; [|by eapply IH; eauto 6].
  destruct (reap_vm v) as [[[]|e] v']; [|by eauto]. apply IH. exists j, w. by rewrite lookup_insert_ne.
Qed.

(** Reaping removes no VM. *)
Lemma reap_list_dom ids (m : gmap Z vm) r m' i :
  reap_list ids m = (r, m') -> is_Some (m !! i) -> is_Some (m' !! i).
Proof.
  revert m. induction ids as [|j ids IH]; intros m; simpl; [by intros [= _ <-]|].
  destruct (m !! j) as [v|] eqn:Hv; [|apply IH]. destruct (reap_vm v) as [r1 v'].
  assert (Hi : is_Some (m !! i) -> is_Some (<[j := v']> m !! i)) by (rewrite lookup_insert_is_Some'; auto).
  destruct r1 as [[]|e]; [intros He Hs; by eapply IH; [|apply Hi]|]. intros [= _ <-]. exact Hi.
Qed.

(** The methods of the hypervisor that reap before they do anything, called about
    the VM [id]: each answers the error [e] and leaves [h1]. *)
Definition reapers_fail (id : VmId) h (e : VmError) h1 : Prop :=
  start (JE := JE) (CpuId := CpuId) mock_backend smoltcp_backend vm_order id h = (Err e, h1) /\
  stop vm_order id h = (Err e, h1) /\ state vm_order id h = (Err e, h1) /\
  destroy vm_order id h = (Err e, h1) /\ list_vms vm_order h = (Err e, h1) /\
  vm_meta vm_order id h = (Err e, h1) /\
  snapshot (JE := JE) (CpuId := CpuId) temp_dir vm_order id h = (Err e, h1).

(** C35: What failures leave behind. When a vCPU thread of any VM has panicked,
    the next call that reaps (a start, stop, state, destroy, snapshot or metadata
    call about whatever VM, or a listing) fails with that panic before it does
    anything of its own: a VM to be destroyed is still there. Restore, exec and
    the file calls do not reap, and nothing is claimed of them. A stop whose signal cannot be sent, or whose thread panicked,
    fails and leaves the VM running without a thread; a second stop then
    succeeds at once. A VM that was restored from a snapshot and has stopped can
    never be started again: its configuration names no kernel. *)
Theorem kvm_failures_leave id h :
  ((exists i v, i ∈ vm_order (vms h) /\ vms h !! i = Some v /\ has_panicked v) ->
     exists h1, reap_finished_vcpus vm_order h = (Err panicked, h1) /\ reapers_fail id h panicked h1 /\
       (forall i, is_Some (vms h !! i) -> is_Some (vms h1 !! i))) /\
  (forall h1 v, reap_finished_vcpus vm_order h = (Ok tt, h1) -> vms h1 !! id = Some v ->
     (forall t, KvmVm.state v = Running -> KvmVm.vcpu v = Some t ->
        (exists e, thread_kill t = Err e) \/ (exists k x, thread_kill t = Ok k /\ thread_join t (vm_machine v) = (Err tt, x)) ->
        exists e v' h2, stop vm_order id h = (Err e, h2) /\ vms h2 !! id = Some v' /\
          KvmVm.state v' = Running /\ KvmVm.vcpu v' = None /\ stop_vm v' = (Ok tt, with_state Stopped v')) /\
     (forall meta, KvmVm.config v = restored_config meta -> KvmVm.state v = Stopped ->
        exists e, start (JE := JE) (CpuId := CpuId) mock_backend smoltcp_backend vm_order id h = (Err e, h1))).
Proof.
  split.
  - intros Hp. destruct (reap_list_panics _ _ Hp) as (e & m' & Hr). destruct (reap_list_error _ _ _ _ Hr) as [-> _].
    exists (set_vms m' h). assert (Hf : reap_finished_vcpus vm_order h = (Err panicked, set_vms m' h)).
    { unfold reap_finished_vcpus. by rewrite Hr. }
    split; [done|]. split; [|intros i; by eapply reap_list_dom].
    unfold reapers_fail, start, stop, state, destroy, list_vms, vm_meta, snapshot. split_and!; by erewrite sm_bind_err.
  - intros h1 v Hr Hv. split.
    + intros t Hs Ht Hfail. unfold stop. erewrite sm_bind_ok by done. unfold mbind, sm_bind, KvmHypervisor.get_vm.
      rewrite Hv. simpl. rewrite Hs. unfold stop_vm at 1. rewrite Ht.
      destruct Hfail as [[e ->]|(k & x & -> & Hj)].
      * eexists _, _, _. split; [done|]. simpl. rewrite lookup_insert_eq. split_and!; done.
      * change (vm_machine (with_vcpu None v)) with (vm_machine v). rewrite Hj. simpl.
        eexists _, _, _. split; [done|]. simpl. rewrite lookup_insert_eq. split_and!; done.
    + intros meta Hc Hs. unfold start. erewrite sm_bind_ok by done. unfold mbind, sm_bind, KvmHypervisor.get_vm.
      rewrite Hv. simpl. rewrite Hs, Hc. unfold build, mbind, sm_bind, sm_gets, on_kvm, build_runtime.
      destruct h1. destruct (VmConfig.vcpus _ =? 1); simpl; by eauto.
Qed.
End Failures.

(** ** A concrete snapshot *)

Module RestoreSample.
Import KvmSample.
Definition ram : bytes := replicate 4096 Byte.x2a.
Definition manifest : Manifest.t := KvmHypervisor.snapshot_manifest 1 4096 1 7 "quiet".
#[local] Instance manifests : Serde string Manifest.t := one_manifest manifest.
#[local] Instance manifests_laws : SerdeLaws string Manifest.t := one_manifest_laws manifest.
#[local] Instance vcpu_states : Serde string VcpuState.t := StateSample.state_serde.
#[local] Instance vcpu_states_laws : SerdeLaws string VcpuState.t := StateSample.state_serde_laws.
#[local] Instance machine_dec : EqDecision MachineState.t.
Proof. solve_decision. Defined.
Definition no_devices : MachineState.t := MachineState.mk [] [] [] [] [].
#[local] Instance machine_states : Serde string MachineState.t := {|
  to_json s := if decide (s = no_devices) then (Ok tt, []) else (Err "unknown", []);
  from_json _ := Ok no_devices |}.
#[local] Instance machine_states_laws : SerdeLaws string MachineState.t.
Proof. split. intros v js. simpl. case_decide as He; [by subst|done]. Qed.
#[local] Instance requests : Serde unit Request.t := {| to_json _ := (Err tt, []); from_json _ := Err tt |}.
#[local] Instance responses : Serde unit Response.t := {| to_json _ := (Err tt, []); from_json _ := Err tt |}.
#[local] Instance messages : Messages VsockQueue.QueueError unit := {|
  display_mem_error _ := ""; display_errno _ := ""; display_queue_error _ := ""; display_frame_error _ := "";
  debug_body _ := ""; debug_code _ := ""; debug_str s := s; image_message _ := "" |}.

(** A VM that runs, at time 7. *)
Definition guest : machine := Machine.mk (SliceGuestMemory.mk 0 ram) tt None None [].
Definition running_vm : KvmVm.t mem string unit MockBackend.t thread :=
  KvmVm.mk (VmConfig.mk 1 0 (Some "/kernel") None None None "quiet" None None NetMock) Running
    (KvmVmRuntime.mk guest 0 None "quiet" 0 false) (Some (StateSample.running, None)) None.
Definition before : hypervisor := KvmHypervisor.mk 7 {[ 1 := running_vm ]} ∅ 2 1 ∅.
Definition keys (m : gmap Z (KvmVm.t mem string unit MockBackend.t thread)) : list VmId := (map_to_list m).*1.

Lemma mmap_law : mmap_reads (E := VsockQueue.QueueError) Snapshot.slice_mmap.
Proof.
  intros file off n m' Ho _ Hn Hf Hl. unfold Snapshot.slice_mmap. destruct (_ && _); [|done]. intros [= <-].
  unfold mem_read, slice_ram, GuestRamMem, adapt_mem.
  rewrite (proj2 (slice_read_ok _ _ _ (slice file (Z.to_nat off) n))); [done|].
  unfold in_window, zlen in *. simpl. rewrite slice_length by lia. split_and!; [lia..|].
  by rewrite slice_all by (apply slice_length; lia).
Qed.

Abbreviation take_snapshot := (KvmHypervisor.snapshot (JE := unit) (CpuId := unit) "/tmp" keys 1 before).
Abbreviation restored := (KvmHypervisor.restore (JE := unit) (CpuId := unit) Snapshot.slice_mmap 1 take_snapshot.2).

(** The VM is snapshotted and restored at once. *)
Lemma kvm_restore_resumes_snapshot_witness :
  exists v' vc ms, KvmHypervisor.vms restored.2 !! 2 = Some v' /\ KvmVm.state v' = Running /\
    KvmVm.vcpu v' = Some (thread_spawn 2 vc) /\ made_from (CpuId := unit) tt vc tt StateSample.state ms /\
    mem_read (E := VsockQueue.QueueError) (Machine.guest_mem (KvmHypervisor.vm_machine v')) 0 4096 = Ok ram.
Proof.
  destruct take_snapshot as [r1 h1] eqn:H1.
  assert (r1 = Ok 1) as -> by (change r1 with (r1, h1).1; rewrite <- H1; vm_compute; reflexivity).
  destruct (KvmHypervisor.restore (JE := unit) (CpuId := unit) Snapshot.slice_mmap 1 h1) as [r2 h2] eqn:H2.
  assert (r2 = Ok (VmHandle.mk 2 Running)) as ->.
  { change r2 with (r2, h2).1. rewrite <- H2. change h1 with (Ok (E := VmError) 1, h1).2. rewrite <- H1. vm_compute. reflexivity. }
  destruct (kvm_restore_resumes_snapshot Snapshot.slice_mmap "/tmp" keys 1 before 1 h1 mmap_law eq_refl H1)
    as (h0 & v & t & s & t' & x & Hreap & Hv & Ht & Hp & _ & Hr).
  assert (v = running_vm) as ->.
  { assert (Hl : KvmHypervisor.vms h0 !! 1 = Some running_vm).
    { change h0 with (Ok (E := VmError) tt, h0).2. rewrite <- Hreap. vm_compute. reflexivity. }
    congruence. }
  injection Ht as <-. change (KvmHypervisor.vm_machine running_vm) with guest in Hp.
  match type of Hp with ?l = _ =>
    assert (Hc : l = (Ok StateSample.state, (StateSample.running, None), guest)) by (vm_compute; reflexivity) end.
  rewrite Hc in Hp. injection Hp as <- <- <-.
  destruct (Hr ram h1 (VmHandle.mk 2 Running) h2 ltac:(done) ltac:(vm_compute; reflexivity) ltac:(vm_compute; reflexivity)
    ltac:(vm_compute; reflexivity) ltac:(vm_compute; reflexivity) eq_refl ltac:(by intros ? ?) H2)
    as (v' & vc & ms & [] & A1 & A2 & A3 & A4 & _ & A6 & _).
  destruct (Machine.vm_fd (KvmHypervisor.vm_machine v')).
  exists v', vc, ms. change (Ok (E := VmError) 1, h1).2 with h1. rewrite H2. split_and!; [exact A1|exact A2|exact A3|exact A6|exact A4].
Defined.

(** Threads that have panicked, that no signal reaches, and that panic when they
    are stopped. *)
Inductive fate : Type := Dead | Deaf | Brittle.
#[local] Instance fates : VcpuThreads vcpu machine fate := {|
  thread_spawn _ _ := Deaf;
  thread_finished t := match t with Dead => Some (Err tt) | _ => None end;
  thread_kill t := match t with Deaf => Err "no such process" | _ => Ok tt end;
  thread_join t x := (match t with Brittle => Err tt | _ => Ok (Ok tt) end, x);
  thread_pause t x := (Err (Backend "no answer"), t, x);
  thread_resume t := t;
  thread_run _ t x := (t, x) |}.

Definition with_thread (t : fate) : KvmVm.t mem string unit MockBackend.t fate :=
  KvmVm.mk (KvmVm.config running_vm) Running (KvmVm.runtime running_vm) (Some t) None.
Definition host_of (vms : gmap Z (KvmVm.t mem string unit MockBackend.t fate)) :
  KvmHypervisor.t mem string unit MockBackend.t fate Z FlatFs.t := KvmHypervisor.mk 7 vms ∅ 3 1 ∅.
Definition ids (m : gmap Z (KvmVm.t mem string unit MockBackend.t fate)) : list VmId := (map_to_list m).*1.

Abbreviation failures := (kvm_failures_leave (JE := unit) (CpuId := unit) (D := unit) MockBackend.new None "/tmp" ids).

(** The panic of VM 2 keeps VM 1 from being destroyed; a VM whose thread no signal
    reaches and one whose thread panics when stopped survive their first stop. *)
Lemma kvm_failures_leave_witness :
  (exists h1, KvmHypervisor.destroy ids 1 (host_of {[ 1 := with_thread Brittle; 2 := with_thread Dead ]}) = (Err panicked, h1)
     /\ is_Some (KvmHypervisor.vms h1 !! 1)) /\
  forall t, t ∈ [Deaf; Brittle] -> exists e v' h2,
    KvmHypervisor.stop ids 1 (host_of {[ 1 := with_thread t ]}) = (Err e, h2) /\
    KvmHypervisor.vms h2 !! 1 = Some v' /\ KvmVm.state v' = Running /\ KvmVm.vcpu v' = None.
Proof.
  split.
  - destruct (failures 1 (host_of {[ 1 := with_thread Brittle; 2 := with_thread Dead ]})) as [Hp _].
    destruct Hp as (h1 & _ & (_ & _ & _ & Hd & _) & Hk); [|exists h1; split; [exact Hd|by apply Hk; vm_compute; eexists]].
    exists 2, (with_thread Dead). split_and!; [|vm_compute; reflexivity..]. apply (bool_decide_unpack _). vm_compute. exact I.
  - intros t Ht. destruct (failures 1 (host_of {[ 1 := with_thread t ]})) as [_ Hs].
    apply list_elem_of_In in Ht. simpl in Ht.
    destruct (proj1 (Hs (host_of {[ 1 := with_thread t ]}) (with_thread t)
      ltac:(destruct Ht as [<-|[<-|[]]]; vm_compute; reflexivity) ltac:(vm_compute; reflexivity)) t eq_refl eq_refl)
      as (e & v' & h2 & A1 & A2 & A3 & A4 & _); [|by exists e, v', h2].
    destruct Ht as [<-|[<-|[]]]; [left|right]; vm_compute; eauto.
Defined.
End RestoreSample.
