(* ===== verification/Tap.v ===== *)
(** * virtio-net: the TAP back end

    Models [crates/virtio-net/src/tap.rs]: opening a TAP interface and moving
    frames through its descriptor. The system calls are the interface [TapOs]:
    each returns its result or the error number. *)

From S2P Require Import Prelude GuestMemory VsockQueue VirtioQueue Mmio NetQueue.

Definition IFNAMSIZ : nat := 16.
Definition TUNSETIFF : Z := 0x400454ca.
Definition IFF_TAP : Z := 0x0002.
Definition IFF_NO_PI : Z := 0x1000.
Definition IFF_TUN_EXCL : Z := 0x8000.
Definition O_RDWR : Z := 2.
Definition O_NONBLOCK : Z := 0x800.
Definition O_CLOEXEC : Z := 0x80000.
Definition EINTR : Z := 4.
Definition EAGAIN : Z := 11.

(** [io::ErrorKind::WriteZero] has no error number. *)
Definition WRITE_ZERO : Z := -1.

Definition ascii_bytes (l : list Z) : bytes := byte_of <$> l.
Definition BAD_LENGTH : bytes := (* must be 1..15 bytes *)
  ascii_bytes [109; 117; 115; 116; 32; 98; 101; 32; 49; 46; 46; 49; 53; 32; 98; 121; 116; 101; 115].
Definition HAS_NUL : bytes := (* contains interior NUL *)
  ascii_bytes [99; 111; 110; 116; 97; 105; 110; 115; 32; 105; 110; 116; 101; 114; 105; 111; 114; 32; 78; 85; 76].

Class TapOs (X : Type) := {
  tun_open : Z -> SM X Z Z;
  tun_ioctl : Z -> Z -> bytes -> SM X Z unit;
  tun_close : Z -> X -> X;
  tun_read : Z -> nat -> SM X Z bytes;
  tun_write : Z -> bytes -> SM X Z nat;
}.

(** [#[repr(C)] struct Ifreq] *)
Module Ifreq.
Record t : Type := mk { ifr_name : bytes; ifr_flags : Z; pad : bytes }.

(** [mem::zeroed()] *)
Definition zeroed : t := mk (replicate IFNAMSIZ Byte.x00) 0 (replicate 22 Byte.x00).

Definition to_bytes (r : t) : bytes := ifr_name r ++ to_le 2 (ifr_flags r) ++ pad r.
End Ifreq.

Module TapDevice.
(** The descriptor in its [File], and the name. *)
Record t : Type := mk { file : Z; name : bytes }.

Section Tap.
Context {X : Type} `{!TapOs X}.

(** The request [TUNSETIFF] is given. *)
Definition request (cname : bytes) : Ifreq.t :=
  Ifreq.mk (splice (Ifreq.ifr_name Ifreq.zeroed) 0 cname)
           (Z.lor (Z.lor IFF_TAP IFF_NO_PI) IFF_TUN_EXCL) (Ifreq.pad Ifreq.zeroed).

Definition open (nm : bytes) : SM X VirtioNetError t := fun x =>
  if bool_decide (nm = []) || (IFNAMSIZ <=? length nm)%nat then (Err (InvalidIfName nm BAD_LENGTH), x)
  else if bool_decide (Byte.x00 ∈ nm) then (Err (InvalidIfName nm HAS_NUL), x)
  else
    match tun_open (Z.lor (Z.lor O_RDWR O_NONBLOCK) O_CLOEXEC) x with
    | (Err e, x) => (Err (Io e), x)
    | (Ok fd, x) =>
        match tun_ioctl fd TUNSETIFF (Ifreq.to_bytes (request nm)) x with
        | (Err e, x) => (Err (Io e), tun_close fd x)
        | (Ok _, x) => (Ok (mk fd nm), x)
        end
    end.

Definition tap_read_frame (d : t) (n : nat) : SM X VirtioNetError bytes := fun x =>
  match tun_read (file d) n x with
  | (Ok f, x) => (Ok f, x)
  | (Err e, x) => if e =? EAGAIN then (Ok [], x) else (Err (Io e), x)
  end.

(** [write_all]: [None] while it is still being interrupted. *)
Fixpoint write_all (fuel : nat) (fd : Z) (buf : bytes) (x : X) : option (result Z unit) * X :=
  if bool_decide (buf = []) then (Some (Ok tt), x) else
  match fuel with
  | O => (None, x)
  | S fuel =>
      match tun_write fd buf x with
      | (Ok O, x) => (Some (Err WRITE_ZERO), x)
      | (Ok n, x) => write_all fuel fd (drop n buf) x
      | (Err e, x) => if e =? EINTR then write_all fuel fd buf x else (Some (Err e), x)
      end
  end.

Definition tap_write_frame (fuel : nat) (d : t) (frame : bytes) (x : X)
  : option (result VirtioNetError unit) * X :=
  let (r, x) := write_all fuel (file d) frame x in (map_err Io <$> r, x).

Definition readiness_fd (d : t) : option Z := Some (file d).
End Tap.
End TapDevice.

(** ** Opening an interface *)

(** A name the kernel accepts: one to fifteen bytes, none of them zero. *)
Definition valid_ifname (nm : bytes) : Prop := (0 < length nm < IFNAMSIZ)%nat /\ Byte.x00 ∉ nm.

Lemma request_layout nm :
  (length nm < IFNAMSIZ)%nat ->
  Ifreq.to_bytes (TapDevice.request nm) =
    nm ++ replicate (IFNAMSIZ - length nm) Byte.x00 ++ to_le 2 0x9002 ++ replicate 22 Byte.x00 /\
  length (Ifreq.to_bytes (TapDevice.request nm)) = 40%nat.
Proof.
  intros Hl. assert (Ifreq.to_bytes (TapDevice.request nm) =
    nm ++ replicate (IFNAMSIZ - length nm) Byte.x00 ++ to_le 2 0x9002 ++ replicate 22 Byte.x00) as ->.
  { unfold Ifreq.to_bytes, TapDevice.request, Ifreq.zeroed. cbn [Ifreq.ifr_name Ifreq.ifr_flags Ifreq.pad].
    rewrite splice_0, drop_replicate, <- app_assoc. done. }
  split; [done|]. rewrite !length_app, !length_replicate, to_le_length. unfold IFNAMSIZ in *. lia.
Qed.

Lemma open_checks_name {X} `{!TapOs X} nm (x : X) :
  (valid_ifname nm -> TapDevice.open nm x =
     match tun_open 0x80802 x with
     | (Err e, x) => (Err (Io e), x)
     | (Ok fd, x) =>
         match tun_ioctl fd TUNSETIFF (Ifreq.to_bytes (TapDevice.request nm)) x with
         | (Err e, x) => (Err (Io e), tun_close fd x)
         | (Ok _, x) => (Ok (TapDevice.mk fd nm), x)
         end
     end) /\
  (~ valid_ifname nm -> exists reason, TapDevice.open nm x = (Err (InvalidIfName nm reason), x)).
Proof.
  unfold TapDevice.open, valid_ifname. split.
  - intros [[H1 H2] H3]. rewrite (bool_decide_false (nm = [])) by (intros ->; simpl in H1; lia).
    rewrite (proj2 (Nat.leb_gt _ _)) by done. by rewrite bool_decide_false.
  - intros Hv. case_bool_decide as Hn; [by eexists|]. destruct (Nat.leb_spec IFNAMSIZ (length nm)); [by eexists|].
    simpl. case_bool_decide as Hz; [by eexists|]. destruct Hv. split; [|done].
    destruct nm; [done|]. simpl in *. lia.
Qed.

(** A bad name is refused before any system call; a good one leads to one
    [TUNSETIFF] of a 40-byte request that holds the name with its terminating
    zeros and the flags of an exclusive Ethernet interface; the descriptor is kept
    exactly when that succeeds and closed otherwise. *)
Theorem tap_open_spec {X : Type} `{!TapOs X} (nm : bytes) (x : X) :
  (~ valid_ifname nm <-> exists reason, TapDevice.open nm x = (Err (InvalidIfName nm reason), x)) /\
  (valid_ifname nm -> forall fd x1, tun_open 0x80802 x = (Ok fd, x1) ->
     let req := nm ++ replicate (IFNAMSIZ - length nm) Byte.x00 ++ to_le 2 0x9002 ++ replicate 22 Byte.x00 in
     length req = 40%nat /\
     TapDevice.open nm x =
       match tun_ioctl fd TUNSETIFF req x1 with
       | (Ok _, x2) => (Ok (TapDevice.mk fd nm), x2)
       | (Err e, x2) => (Err (Io e), tun_close fd x2)
       end).
Proof.
  destruct (open_checks_name nm x) as [Hok Hbad]. split.
  - split; [done|]. intros [reason Hr] Hv. rewrite (Hok Hv) in Hr.
    destruct (tun_open _ x) as [[fd|e] x1]; [|done]. by destruct (tun_ioctl _ _ _ x1) as [[?|?] ?].
  - intros Hv fd x1 Hopen req. destruct (request_layout nm) as [Hreq Hlen]; [by destruct Hv as [[_ ?] _]|].
    fold req in Hreq. rewrite Hreq in Hlen. split; [done|]. rewrite (Hok Hv), Hopen, Hreq.
    by destruct (tun_ioctl _ _ _ x1) as [[?|?] ?].
Qed.

(** ** Frames *)

(** A frame the kernel takes whole is written by one system call. *)
Lemma tap_write_whole {X} `{!TapOs X} fuel d frame (x x1 : X) :
  frame <> [] -> tun_write (TapDevice.file d) frame x = (Ok (length frame), x1) ->
  TapDevice.tap_write_frame (S fuel) d frame x = (Some (Ok tt), x1).
Proof.
  intros Hf Hw. unfold TapDevice.tap_write_frame. cbn [TapDevice.write_all]. rewrite bool_decide_false, Hw by done.
  destruct frame as [|b f]; [done|]. simpl length. cbn match. rewrite (drop_ge (b :: f)) by (simpl; lia).
  by destruct fuel.
Qed.

(** No frame waiting is not an error. *)
Lemma tap_read_empty {X} `{!TapOs X} d n (x x1 : X) :
  tun_read (TapDevice.file d) n x = (Err EAGAIN, x1) -> TapDevice.tap_read_frame d n x = (Ok [], x1).
Proof. intros Hr. unfold TapDevice.tap_read_frame. by rewrite Hr. Qed.

(** ** A host with one interface name taken *)

Module TapHost.
(** The names in use, and the descriptors open. *)
Record t : Type := mk { taken : list bytes; fds : list Z }.

#[global] Instance host : TapOs t := {|
  tun_open _ x := (Ok 7, mk (taken x) (7 :: fds x));
  tun_ioctl _ _ req x :=
    if bool_decide (take 16 req ∈ taken x) then (Err 16, x) else (Ok tt, mk (take 16 req :: taken x) (fds x));
  tun_close fd x := mk (taken x) (filter (fun f => f <> fd) (fds x));
  tun_read _ _ x := (Err EAGAIN, x);
  tun_write _ f x := (Ok (length f), x);
|}.

Definition tap0 : bytes := ascii_bytes [116; 97; 112; 48].
Definition busy : t := mk [tap0 ++ replicate 12 Byte.x00] [].
End TapHost.

Lemma tap_open_spec_witness :
  valid_ifname TapHost.tap0 /\
  TapDevice.open TapHost.tap0 TapHost.busy = (Err (Io 16), TapHost.busy).
Proof.
  assert (valid_ifname TapHost.tap0) as Hv.
  { split; [vm_compute; split; repeat constructor|]. apply (bool_decide_eq_false_1 _). vm_compute. reflexivity. }
  split; [exact Hv|].
  destruct (tap_open_spec TapHost.tap0 TapHost.busy) as [_ H].
  destruct (H Hv 7 (TapHost.mk (TapHost.taken TapHost.busy) [7]) eq_refl) as [_ ->]. vm_compute. reflexivity.
Defined.
