(* ===== verification/Smoltcp.v ===== *)
(** * virtio-net: the userspace TCP/IP back end

    Models [crates/virtio-net/src/smoltcp_backend.rs]: a network back end whose
    frames are handled by the [smoltcp] crate inside the process. The crate is
    an interface here ([Smoltcp]); what its sockets do with bytes is stated by
    laws about two streams, the bytes handed out by [recv_slice] and the bytes
    taken by [send_slice]. A poll of the stack is a program that uses the device
    through the [Device] trait, so that the device and its tokens are the
    source's.

    All calls lock one mutex. A panic under the lock poisons it, and every later
    call panics too; panics are the errors of these computations. *)

From S2P Require Import Prelude GuestMemory VsockQueue VirtioQueue Mmio NetQueue.

Definition DEFAULT_HOST_IPV4 : list Z := [169; 254; 0; 1].
Definition DEFAULT_GUEST_IPV4 : list Z := [169; 254; 0; 2].
Definition DEFAULT_HOST_MAC : list Z := [0x52; 0x54; 0x00; 0xff; 0xff; 0x01].
Definition HOST_IPV4_PREFIX_LEN : Z := 16.
Definition DEVICE_MTU : Z := 1518.
Definition DEFAULT_LISTEN_PORT : Z := 8080.
Definition TCP_SOCKET_BUFFER_BYTES : nat := 4096.

Module BackendConfig.
Record t : Type := mk {
  host_ipv4 : list Z;
  host_mac : list Z;
  gateway_ipv4 : list Z;
  listen_port : Z;
}.

Definition default : t :=
  {| host_ipv4 := DEFAULT_HOST_IPV4; host_mac := DEFAULT_HOST_MAC;
     gateway_ipv4 := DEFAULT_GUEST_IPV4; listen_port := DEFAULT_LISTEN_PORT |}.
End BackendConfig.

(** ** The device under the stack *)

Module SmoltDevice.
Record t : Type := mk {
  guest_to_stack : list bytes;
  stack_to_guest : list bytes;
  mtu : Z;
}.

(** [DeviceCapabilities { max_transmission_unit, medium }] *)
Inductive Medium : Type := Ethernet.
Definition Capabilities : Type := Z * Medium.

(** [SmoltRxToken] owns the frame; [SmoltTxToken] borrows the outbound queue of
    the device, so only the limit is its own. *)
Record RxToken : Type := mk_rx { frame : bytes }.
Record TxToken : Type := mk_tx { tx_mtu : Z }.

Definition new (mtu : Z) : t := mk [] [] mtu.

Definition capabilities (d : t) : Capabilities := (mtu d, Ethernet).

Definition receive (d : t) : option (RxToken * TxToken) * t :=
  match guest_to_stack d with
  | [] => (None, d)
  | frame :: rest => (Some (mk_rx frame, mk_tx (mtu d)), mk rest (stack_to_guest d) (mtu d))
  end.

Definition transmit (d : t) : option TxToken := Some (mk_tx (mtu d)).

Definition rx_consume {R} (tok : RxToken) (f : bytes -> R) : R := f (frame tok).

(** The closure [f] fills the scratch buffer it is given in place. *)
Definition tx_consume (tok : TxToken) (len : Z) (f : bytes -> bytes) (d : t) : t :=
  let len := Z.min len (tx_mtu tok) in
  let buf := replicate (Z.to_nat len) Byte.x00 in
  mk (guest_to_stack d) (stack_to_guest d ++ [f buf]) (mtu d).
End SmoltDevice.

(** What [Interface::poll] does with its device before it returns. *)
Inductive Poll (R : Type) : Type :=
| PollDone (r : R)
| PollReceive (k : option bytes -> Poll R)
| PollTransmit (len : Z) (fill : bytes -> bytes) (k : Poll R).
Arguments PollDone {R} r.
Arguments PollReceive {R} k.
Arguments PollTransmit {R} len fill k.

Fixpoint poll_run {R} (p : Poll R) (d : SmoltDevice.t) : R * SmoltDevice.t :=
  match p with
  | PollDone r => (r, d)
  | PollReceive k =>
      match SmoltDevice.receive d with
      | (None, d) => poll_run (k None) d
      | (Some (rx, _), d) => poll_run (SmoltDevice.rx_consume rx (fun frame => k (Some frame))) d
      end
  | PollTransmit len fill k =>
      match SmoltDevice.transmit d with
      | Some tok => poll_run k (SmoltDevice.tx_consume tok len fill d)
      | None => poll_run k d
      end
  end.

(** Every way a poll can return satisfies [P], and its closures keep the length
    of the slice they fill. *)
Fixpoint poll_all {R} (P : R -> Prop) (p : Poll R) : Prop :=
  match p with
  | PollDone r => P r
  | PollReceive k => forall o, poll_all P (k o)
  | PollTransmit _ fill k => (forall buf, length (fill buf) = length buf) /\ poll_all P k
  end.

(** ** The interface of smoltcp *)

Inductive TcpState : Type :=
| Closed | Listen | SynSent | SynReceived | Established
| FinWait1 | FinWait2 | CloseWait | Closing | LastAck | TimeWait.

#[global] Instance TcpState_eq_dec : EqDecision TcpState.
Proof. solve_decision. Defined.

(** [IpEndpoint { addr, port }] *)
Record IpEndpoint : Type := mk_endpoint { ep_addr : list Z; ep_port : Z }.

(** [I] is an [Interface], [SS] a [SocketSet] and [K] a [tcp::Socket]; a handle
    is its index. [get] and [get_mut] on a handle that is not in the set panic:
    [set_get] returns [None]. *)
Class Smoltcp (I SS K : Type) := {
  iface_new : list Z -> SmoltDevice.Capabilities -> Z -> I;
  iface_push_addr : list Z -> Z -> I -> I;
  iface_default_route : list Z -> I -> I;
  iface_poll : Z -> I -> SS -> Poll (I * SS);
  set_new : SS;
  set_add : K -> SS -> Z * SS;
  set_get : Z -> SS -> option K;
  set_put : Z -> K -> SS -> SS;
  set_remove : Z -> SS -> SS;
  set_iter : SS -> list (Z * K);
  tcp_new : nat -> nat -> K;
  tcp_state : K -> TcpState;
  tcp_is_open : K -> bool;
  tcp_can_send : K -> bool;
  tcp_can_recv : K -> bool;
  tcp_local_port : K -> option Z;
  tcp_listen : Z -> K -> result unit unit * K;
  tcp_connect : IpEndpoint -> Z -> I -> K -> result unit unit * (I * K);
  tcp_send_slice : bytes -> K -> result unit nat * K;
  tcp_recv_slice : nat -> K -> result unit bytes * K;
  tcp_close : K -> K;
}.

(** [r.unwrap_or(d)] *)
Definition unwrap_or {E A} (d : A) (r : result E A) : A :=
  match r with Ok a => a | Err _ => d end.

(** ** The state behind the mutex *)

Inductive Panic : Type := MutexPoisoned | NoSuchSocket | ConnectFailed | ListenFailed.

Module State.
Section State.
Context {I SS K : Type} `{!Smoltcp I SS K}.

Record t : Type := mk {
  device : SmoltDevice.t;
  iface : I;
  sockets : SS;
  echo_handle : option Z;
  listen_port : Z;
  next_ephemeral_port : Z;
  echo_pending : bytes;
  epoch : Z;
}.

Definition set_sockets (ss : SS) (s : t) : t :=
  mk (device s) (iface s) ss (echo_handle s) (listen_port s) (next_ephemeral_port s)
     (echo_pending s) (epoch s).
Definition set_stack (i : I) (ss : SS) (d : SmoltDevice.t) (s : t) : t :=
  mk d i ss (echo_handle s) (listen_port s) (next_ephemeral_port s) (echo_pending s) (epoch s).
Definition set_echo (ss : SS) (pending : bytes) (s : t) : t :=
  mk (device s) (iface s) ss (echo_handle s) (listen_port s) (next_ephemeral_port s)
     pending (epoch s).
Definition set_device (d : SmoltDevice.t) (s : t) : t := set_stack (iface s) (sockets s) d s.
Definition set_next_port (p : Z) (s : t) : t :=
  mk (device s) (iface s) (sockets s) (echo_handle s) (listen_port s) p (echo_pending s) (epoch s).

(** [epoch.elapsed().as_millis() as i64], [host] being the host's monotonic
    clock in nanoseconds. *)
Definition now (host : Z) (s : t) : Z := as_i64 ((host - epoch s) / 1000000).

(** [self.sockets.get_mut(h)] *)
Definition get_mut (h : Z) : SM t Panic K := fun s =>
  match set_get h (sockets s) with
  | Some k => (Ok k, s)
  | None => (Err NoSuchSocket, s)
  end.

(** What the borrow of [get_mut] leaves in the set. *)
Definition put_socket (h : Z) (k : K) (s : t) : t := set_sockets (set_put h k (sockets s)) s.

(** A method [f] of the socket, on [self.sockets.get_mut(h)]. *)
Definition with_socket {A} (h : Z) (f : K -> A * K) : SM t Panic A :=
  k ← get_mut h;
  let (a, k) := f k in
  _ ← sm_modify (put_socket h k);
  mret a.

(** [self.iface.poll(now, &mut self.device, &mut self.sockets)] *)
Definition poll (now : Z) (s : t) : t :=
  let '((i, ss), d) := poll_run (iface_poll now (iface s) (sockets s)) (device s) in
  set_stack i ss d s.

(** Phase 1 of [drive_echo] on the socket and [echo_pending]. *)
Definition echo_flush (socket : K) (pending : bytes) : K * bytes :=
  if negb (bool_decide (pending = [])) && tcp_can_send socket then
    match tcp_send_slice pending socket with
    | (Ok w, socket) => if (0 <? w)%nat then (socket, drop w pending) else (socket, pending)
    | (Err _, socket) => (socket, pending)
    end
  else (socket, pending).

(** Phase 2. *)
Definition echo_pull (socket : K) (pending : bytes) : K * bytes :=
  if bool_decide (pending = []) && tcp_can_recv socket && tcp_can_send socket then
    match tcp_recv_slice TCP_SOCKET_BUFFER_BYTES socket with
    | (Ok buf, socket) =>
        let n := length buf in
        if (0 <? n)%nat then
          let (r, socket) := tcp_send_slice buf socket in
          let written := unwrap_or 0%nat r in
          if (written <? n)%nat then (socket, pending ++ drop written buf) else (socket, pending)
        else (socket, pending)
    | (Err _, socket) => (socket, pending)
    end
  else (socket, pending).

(** The peer's FIN. *)
Definition echo_finish (socket : K) (pending : bytes) : K * bytes :=
  if bool_decide (tcp_state socket = CloseWait) && negb (tcp_can_recv socket)
  then (tcp_close socket, [])
  else (socket, pending).

Definition echo_socket (listen_port : Z) (socket : K) (pending : bytes) : K * bytes :=
  if negb (tcp_is_open socket) then
    let (_, socket) := tcp_listen listen_port socket in (socket, [])
  else
    let '(socket, pending) := echo_flush socket pending in
    let '(socket, pending) := echo_pull socket pending in
    echo_finish socket pending.

Definition drive_echo : SM t Panic unit := fun s =>
  match echo_handle s with
  | None => (Ok tt, s)
  | Some h =>
      (socket ← get_mut h;
       sm_modify (fun s =>
         let '(socket, pending) := echo_socket (listen_port s) socket (echo_pending s) in
         set_echo (set_put h socket (sockets s)) pending s)) s
  end.

Definition dead_handles (s : t) : list Z :=
  filter (fun h => Some h <> echo_handle s)
    (omap (fun '(h, k) => if bool_decide (tcp_state k = Closed) then Some h else None)
          (set_iter (sockets s))).

Definition reap_closed_client_sockets (s : t) : t :=
  set_sockets (foldl (fun ss h => set_remove h ss) (sockets s) (dead_handles s)) s.

Definition poll_and_echo (host : Z) : SM t Panic unit :=
  now ← sm_gets (now host);
  _ ← sm_modify (poll now);
  _ ← drive_echo;
  _ ← sm_modify reap_closed_client_sockets;
  sm_modify (poll now).

Definition EPHEMERAL_START : Z := 49152.
Definition EPHEMERAL_END : Z := 65535.
Definition EPHEMERAL_SIZE : Z := EPHEMERAL_END - EPHEMERAL_START + 1.

Definition ports_in_use (ss : SS) : gset Z :=
  list_to_set (omap (fun '(_, k) => tcp_local_port k) (set_iter ss)).

(** The [for _ in 0..EPHEMERAL_SIZE] loop: the port found and the counter. *)
Fixpoint allocate_loop (n : nat) (in_use : gset Z) (next : Z) : Z * Z :=
  match n with
  | O => (0, next)
  | S n =>
      let candidate := if next <? EPHEMERAL_START then EPHEMERAL_START else next in
      let next := if candidate =? EPHEMERAL_END then EPHEMERAL_START else candidate + 1 in
      if bool_decide (candidate ∈ in_use) then allocate_loop n in_use next
      else (candidate, next)
  end.

Definition allocate_ephemeral_port : SM t Panic Z := fun s =>
  let (port, next) :=
    allocate_loop (Z.to_nat EPHEMERAL_SIZE) (ports_in_use (sockets s)) (next_ephemeral_port s) in
  (Ok port, set_next_port next s).
End State.
Arguments t : clear implicits.
End State.

(** ** The back end *)

Module SmoltcpBackend.
Section Backend.
Context {I SS K : Type} `{!Smoltcp I SS K}.
Abbreviation St := (State.t I SS).

(** [Mutex<State>] *)
Record t : Type := mk { inner : St; poisoned : bool }.

(** [self.inner.lock().expect(..)] and what runs under the guard. *)
Definition with_lock {A} (c : SM St Panic A) : SM t Panic A := fun m =>
  if poisoned m then (Err MutexPoisoned, m)
  else let (r, s) := c (inner m) in (r, mk s (negb (is_ok r))).

Definition with_config (cfg : BackendConfig.t) (host : Z) : result Panic t :=
  let device := SmoltDevice.new DEVICE_MTU in
  let iface := iface_new (BackendConfig.host_mac cfg) (SmoltDevice.capabilities device) 0 in
  let iface := iface_push_addr (BackendConfig.host_ipv4 cfg) HOST_IPV4_PREFIX_LEN iface in
  let iface := iface_default_route (BackendConfig.gateway_ipv4 cfg) iface in
  let sockets := set_new in
  '(echo_handle, sockets) ←
    (if negb (BackendConfig.listen_port cfg =? 0) then
       let socket := tcp_new TCP_SOCKET_BUFFER_BYTES TCP_SOCKET_BUFFER_BYTES in
       match tcp_listen (BackendConfig.listen_port cfg) socket with
       | (Err _, _) => Err ListenFailed
       | (Ok _, socket) => let (h, sockets) := set_add socket sockets in Ok (Some h, sockets)
       end
     else Ok (None, sockets));
  Ok (mk (State.mk device iface sockets echo_handle (BackendConfig.listen_port cfg)
                   State.EPHEMERAL_START [] host) false).

Definition with_listen_port (listen_port : Z) (host : Z) : result Panic t :=
  let d := BackendConfig.default in
  with_config (BackendConfig.mk (BackendConfig.host_ipv4 d) (BackendConfig.host_mac d)
                                (BackendConfig.gateway_ipv4 d) listen_port) host.

Definition new (host : Z) : result Panic t := with_config BackendConfig.default host.

Definition listen_port : SM t Panic Z := with_lock (sm_gets State.listen_port).

(** [connect(cx, remote, local_port).expect(..)] on the socket [h]. *)
Definition connect (h : Z) (remote : IpEndpoint) (local_port : Z) : SM St Panic unit :=
  k ← State.get_mut (K := K) h;
  ((fun s =>
     let '(r, (i, k)) := tcp_connect remote local_port (State.iface s) k in
     let s := State.set_stack i (set_put h k (State.sockets s)) (State.device s) s in
     (match r with Ok _ => Ok tt | Err _ => Err ConnectFailed end, s)) : SM St Panic unit).

(** [sockets.add(tcp::Socket::new(rx, tx))] *)
Definition add_socket : SM St Panic Z := fun s =>
  let socket := tcp_new TCP_SOCKET_BUFFER_BYTES TCP_SOCKET_BUFFER_BYTES in
  let (handle, sockets) := set_add socket (State.sockets s) in
  (Ok handle, State.set_sockets sockets s).

Definition open_client_socket (remote : IpEndpoint) (host : Z) : SM t Panic Z := with_lock
  (handle ← add_socket;
   local_port ← State.allocate_ephemeral_port;
   _ ← connect handle remote local_port;
   _ ← State.poll_and_echo host;
   mret handle).

(** The methods on a handle return [Result] but never an error of their own. *)
Definition socket_send (handle : Z) (data : bytes) (host : Z) : SM t Panic nat := with_lock
  (r ← State.with_socket handle (tcp_send_slice data);
   _ ← State.poll_and_echo host;
   mret (unwrap_or 0%nat r)).

Definition socket_recv (handle : Z) (n : nat) (host : Z) : SM t Panic bytes := with_lock
  (_ ← State.poll_and_echo host;
   r ← State.with_socket handle (tcp_recv_slice n);
   mret (unwrap_or [] r)).

Definition socket_state (handle : Z) : SM t Panic TcpState := with_lock
  (socket ← State.get_mut (K := K) handle; mret (tcp_state socket)).

Definition close_socket (handle : Z) (host : Z) : SM t Panic unit := with_lock
  (_ ← State.with_socket handle (fun socket => (tt, tcp_close socket));
   State.poll_and_echo host).

(** [stack_to_guest.pop_front()], copied into a buffer of [n] bytes. *)
Definition pop_frame (n : nat) : SM St Panic bytes := fun s =>
  let d := State.device s in
  match SmoltDevice.stack_to_guest d with
  | [] => (Ok [], s)
  | frame :: rest =>
      (Ok (take (Nat.min (length frame) n) frame),
       State.set_device (SmoltDevice.mk (SmoltDevice.guest_to_stack d) rest (SmoltDevice.mtu d)) s)
  end.

Definition smol_read_frame (n : nat) (host : Z) : SM t Panic bytes := with_lock
  (_ ← State.poll_and_echo host;
   pop_frame n).

(** [guest_to_stack.push_back(frame.to_vec())] *)
Definition push_frame (frame : bytes) (s : St) : St :=
  let d := State.device s in
  State.set_device (SmoltDevice.mk (SmoltDevice.guest_to_stack d ++ [frame])
                      (SmoltDevice.stack_to_guest d) (SmoltDevice.mtu d)) s.

Definition smol_write_frame (frame : bytes) (host : Z) : SM t Panic unit := with_lock
  (_ ← sm_modify (push_frame frame);
   State.poll_and_echo host).
End Backend.
Arguments t : clear implicits.
End SmoltcpBackend.

(** ** Calls from other threads

    The vCPU thread moves frames, and every bridged connection has a thread of
    its own; each call is one locked section. *)

Inductive Call : Type :=
| CReadFrame (n : nat)
| CWriteFrame (frame : bytes)
| COpen (remote : IpEndpoint)
| CSend (h : Z) (data : bytes)
| CRecv (h : Z) (n : nat)
| CState (h : Z)
| CClose (h : Z).

Section Calls.
Context {I SS K : Type} `{!Smoltcp I SS K}.

(** What a call leaves of the back end; its outcome is its own thread's. *)
Definition run_call (host : Z) (m : SmoltcpBackend.t I SS) (c : Call) : SmoltcpBackend.t I SS :=
  match c with
  | CReadFrame n => (SmoltcpBackend.smol_read_frame n host m).2
  | CWriteFrame f => (SmoltcpBackend.smol_write_frame f host m).2
  | COpen remote => (SmoltcpBackend.open_client_socket remote host m).2
  | CSend h data => (SmoltcpBackend.socket_send h data host m).2
  | CRecv h n => (SmoltcpBackend.socket_recv h n host m).2
  | CState h => (SmoltcpBackend.socket_state h m).2
  | CClose h => (SmoltcpBackend.close_socket h host m).2
  end.

Definition run_calls (host : Z) (m : SmoltcpBackend.t I SS) (cs : list Call) : SmoltcpBackend.t I SS :=
  foldl (run_call host) m cs.

(** For stating who uses which socket: the index the socket set gives to an open
    that gets the lock, and the sockets a call moves bytes through. *)
Definition call_opens (m : SmoltcpBackend.t I SS) (c : Call) : list Z :=
  match c with
  | COpen _ =>
      if SmoltcpBackend.poisoned m then []
      else [(set_add (tcp_new TCP_SOCKET_BUFFER_BYTES TCP_SOCKET_BUFFER_BYTES) (State.sockets (SmoltcpBackend.inner m))).1]
  | _ => []
  end.

Definition call_uses (m : SmoltcpBackend.t I SS) (c : Call) : list Z :=
  match c with CSend h _ | CRecv h _ => [h] | _ => call_opens m c end.

(** The sockets a sequence of calls opens, or moves bytes through, as they run. *)
Fixpoint calls_use (host : Z) (m : SmoltcpBackend.t I SS) (cs : list Call) : list Z :=
  match cs with
  | [] => []
  | c :: cs => call_uses m c ++ calls_use host (run_call host m c) cs
  end.
End Calls.

(** ** What smoltcp promises *)

(** The bytes [recv_slice] has handed out and the bytes [send_slice] has taken,
    since the socket was made. *)
Class TcpStreams (K : Type) := { delivered : K -> bytes; accepted : K -> bytes }.

Definition same_streams {K} `{!TcpStreams K} (k k' : K) : Prop :=
  delivered k' = delivered k /\ accepted k' = accepted k.

Class SmoltcpLaws (I SS K : Type) `{!Smoltcp I SS K, !TcpStreams K} := {
  set_get_new h : set_get h (set_new : SS) = None;
  set_get_put h k k0 h' ss : set_get h ss = Some k0 ->
    set_get h' (set_put h k ss) = if decide (h = h') then Some k else set_get h' ss;
  set_get_add k ss h ss' : set_add k ss = (h, ss') -> set_get h ss = None /\
    forall h', set_get h' ss' = if decide (h = h') then Some k else set_get h' ss;
  set_get_remove h h' ss :
    set_get h' (set_remove h ss) = if decide (h = h') then None else set_get h' ss;
  set_iter_get h k ss : (h, k) ∈ set_iter ss <-> set_get h ss = Some k;
  (** A poll neither adds nor removes sockets, and moves no byte between a socket
      and the application. *)
  iface_poll_keeps now i ss :
    poll_all (fun r => forall h, option_Forall2 same_streams (set_get h ss) (set_get h r.2))
             (iface_poll now i ss);
  tcp_new_streams a b : delivered (tcp_new a b) = [] /\ accepted (tcp_new a b) = [];
  tcp_listen_streams p k : same_streams k (tcp_listen p k).2;
  tcp_listen_new p a b : p <> 0 -> (tcp_listen p (tcp_new a b)).1 = Ok tt;
  tcp_connect_streams r p i k : same_streams k (tcp_connect r p i k).2.2;
  tcp_connect_port_0 r i k : exists e, (tcp_connect r 0 i k).1 = Err e;
  tcp_close_streams k : same_streams k (tcp_close k);
  tcp_send_streams d k r k' : tcp_send_slice d k = (r, k') ->
    (unwrap_or 0%nat r <= length d)%nat /\
    delivered k' = delivered k /\ accepted k' = accepted k ++ take (unwrap_or 0%nat r) d;
  tcp_recv_streams n k r k' : tcp_recv_slice n k = (r, k') ->
    (length (unwrap_or [] r) <= n)%nat /\
    delivered k' = delivered k ++ unwrap_or [] r /\ accepted k' = accepted k;
}.

(** ** A small stack

    A stack with the operations of the interface and a wire format of its own:
    a frame is a handle, a kind and a payload. It answers to a connect, data, a
    FIN, the acknowledgement of one, and a RST the way the TCP state machine
    does, and is what the examples run on. *)
Module Small.
Record sock : Type := mk {
  st : TcpState;
  rx : bytes;
  tx : bytes;
  port : option Z;
  got : bytes;
  put : bytes;
}.

Definition set_st (s : TcpState) (k : sock) : sock := mk s (rx k) (tx k) (port k) (got k) (put k).

Definition open (k : sock) : bool := negb (bool_decide (st k = Closed)).
Definition sends (k : sock) : bool :=
  bool_decide (st k = Established \/ st k = CloseWait) && (length (tx k) <? TCP_SOCKET_BUFFER_BYTES)%nat.
Definition recvs (k : sock) : bool := negb (bool_decide (rx k = [])).

Definition listen (p : Z) (k : sock) : result unit unit * sock :=
  if (p =? 0) || open k then (Err tt, k)
  else (Ok tt, mk Listen [] [] (port k) (got k) (put k)).

Definition connect (r : IpEndpoint) (p : Z) (i : unit) (k : sock) : result unit unit * (unit * sock) :=
  if (p =? 0) || (ep_port r =? 0) || open k then (Err tt, (i, k))
  else (Ok tt, (i, mk SynSent [] [] (Some p) (got k) (put k))).

Definition send (d : bytes) (k : sock) : result unit nat * sock :=
  if sends k then
    let w := Nat.min (TCP_SOCKET_BUFFER_BYTES - length (tx k)) (length d) in
    (Ok w, mk (st k) (rx k) (tx k ++ take w d) (port k) (got k) (put k ++ take w d))
  else (Err tt, k).

Definition recv (n : nat) (k : sock) : result unit bytes * sock :=
  if recvs k then
    let b := take n (rx k) in
    (Ok b, mk (st k) (drop n (rx k)) (tx k) (port k) (got k ++ b) (put k))
  else (Err tt, k).

Definition close (k : sock) : sock :=
  match st k with
  | Listen | SynSent => set_st Closed k
  | SynReceived | Established => set_st FinWait1 k
  | CloseWait => set_st LastAck k
  | _ => k
  end.

Inductive kind : Type := Syn | Data | Fin | Ack | Rst.

Definition on_frame (q : kind) (payload : bytes) (k : sock) : sock :=
  match q, st k with
  | Rst, _ => mk Closed (rx k) [] None (got k) (put k)
  | Syn, (Listen | SynSent) => set_st Established k
  | Data, (Established | FinWait1 | FinWait2) => mk (st k) (rx k ++ payload) (tx k) (port k) (got k) (put k)
  | Fin, Established => set_st CloseWait k
  | Fin, (FinWait1 | FinWait2) => set_st TimeWait k
  | Ack, LastAck => mk Closed (rx k) [] None (got k) (put k)
  | Ack, FinWait1 => set_st FinWait2 k
  | _, _ => k
  end.

Definition kind_of (b : Byte.byte) : kind :=
  match u8_of b with 0 => Syn | 1 => Data | 2 => Fin | 3 => Ack | _ => Rst end.

Definition dispatch (frame : bytes) (ss : gmap Z sock) : gmap Z sock :=
  match frame with
  | h :: q :: payload => alter (on_frame (kind_of q) payload) (u8_of h) ss
  | _ => ss
  end.

Definition flush (k : sock) : sock := mk (st k) (rx k) [] (port k) (got k) (put k).

Definition fill_with (data buf : bytes) : bytes := take (length buf) (data ++ buf).

(** Send what the sockets have queued, one frame each. *)
Fixpoint egress (l : list (Z * sock)) (ss : gmap Z sock) : Poll (unit * gmap Z sock) :=
  match l with
  | [] => PollDone (tt, ss)
  | (h, k) :: l =>
      if bool_decide (tx k = []) then egress l ss
      else
        let data := byte_of h :: Byte.x01 :: tx k in
        PollTransmit (zlen data) (fill_with data) (egress l (alter flush h ss))
  end.

Fixpoint ingress (n : nat) (ss : gmap Z sock) : Poll (unit * gmap Z sock) :=
  match n with
  | O => egress (map_to_list ss) ss
  | S n => PollReceive (fun o =>
      match o with
      | Some frame => ingress n (dispatch frame ss)
      | None => egress (map_to_list ss) ss
      end)
  end.

(** The lowest index that is free. *)
Fixpoint free_slot (n : nat) (h : Z) (ss : gmap Z sock) : Z :=
  match n with
  | O => fresh (dom ss)
  | S n => match ss !! h with None => h | Some _ => free_slot n (h + 1) ss end
  end.

Definition add (k : sock) (ss : gmap Z sock) : Z * gmap Z sock :=
  let h := free_slot (size ss) 0 ss in (h, <[h := k]> ss).

#[global] Instance small : Smoltcp unit (gmap Z sock) sock := {|
  iface_new _ _ _ := tt;
  iface_push_addr _ _ i := i;
  iface_default_route _ i := i;
  iface_poll _ _ ss := ingress 8 ss;
  set_new := ∅;
  set_add := add;
  set_get h ss := ss !! h;
  set_put h k ss := <[h := k]> ss;
  set_remove h ss := delete h ss;
  set_iter ss := map_to_list ss;
  tcp_new _ _ := mk Closed [] [] None [] [];
  tcp_state := st;
  tcp_is_open := open;
  tcp_can_send := sends;
  tcp_can_recv := recvs;
  tcp_local_port := port;
  tcp_listen := listen;
  tcp_connect := connect;
  tcp_send_slice := send;
  tcp_recv_slice := recv;
  tcp_close := close;
|}.

#[global] Instance small_streams : TcpStreams sock := {| delivered := got; accepted := put |}.

Definition keeps_all (ss ss' : gmap Z sock) : Prop :=
  forall h, option_Forall2 same_streams (ss !! h) (ss' !! h).

Lemma keeps_all_refl ss : keeps_all ss ss.
Proof. intros h. destruct (ss !! h); by constructor. Qed.

Lemma keeps_all_trans ss1 ss2 ss3 : keeps_all ss1 ss2 -> keeps_all ss2 ss3 -> keeps_all ss1 ss3.
Proof.
  intros H1 H2 h. specialize (H1 h). specialize (H2 h).
  destruct H1 as [x y [Hd Ha]|]; inversion H2 as [y' z [Hd' Ha'] |]; subst; constructor.
  split; congruence.
Qed.

Lemma keeps_all_alter f h ss : (forall k, same_streams k (f k)) -> keeps_all ss (alter f h ss).
Proof.
  intros Hf h'. destruct (decide (h = h')) as [<-|].
  - rewrite lookup_alter_eq. destruct (ss !! h); by constructor.
  - rewrite lookup_alter_ne by done. apply keeps_all_refl.
Qed.

Lemma dispatch_keeps frame ss : keeps_all ss (dispatch frame ss).
Proof.
  destruct frame as [|h [|q p]]; try apply keeps_all_refl. apply keeps_all_alter.
  intros k. unfold on_frame. by destruct (kind_of q), (st k).
Qed.

Lemma egress_keeps l ss0 ss :
  keeps_all ss0 ss -> poll_all (fun r => keeps_all ss0 r.2) (egress l ss).
Proof.
  revert ss. induction l as [|[h k] l IH]; intros ss Hk; simpl; [done|]. case_bool_decide; [by apply IH|].
  split.
  - intros buf. unfold fill_with. rewrite length_take, length_app. lia.
  - apply IH. eapply keeps_all_trans; [done|]. by apply keeps_all_alter.
Qed.

Lemma ingress_keeps n ss0 ss :
  keeps_all ss0 ss -> poll_all (fun r => keeps_all ss0 r.2) (ingress n ss).
Proof.
  revert ss. induction n as [|n IH]; intros ss Hk; [by apply egress_keeps|].
  intros [frame|]; [|by apply egress_keeps]. apply IH. eapply keeps_all_trans; [done|apply dispatch_keeps].
Qed.

Lemma free_slot_fresh n h ss : ss !! free_slot n h ss = None.
Proof.
  revert h. induction n as [|n IH]; intros h; simpl.
  - apply not_elem_of_dom, is_fresh.
  - destruct (ss !! h) eqn:Hh; [apply IH|done].
Qed.

#[global] Instance small_laws : SmoltcpLaws unit (gmap Z sock) sock.
Proof.
  split; intros; simpl.
  - done.
  - case_decide; subst; [by rewrite lookup_insert_eq|by rewrite lookup_insert_ne].
  - simpl in H. unfold add in H. simplify_eq. split; [apply free_slot_fresh|]. intros h'.
    case_decide; subst; [by rewrite lookup_insert_eq|by rewrite lookup_insert_ne].
  - case_decide; subst; [by rewrite lookup_delete_eq|by rewrite lookup_delete_ne].
  - apply elem_of_map_to_list.
  - exact (ingress_keeps 8 ss ss (keeps_all_refl ss)).
  - done.
  - unfold listen. by destruct ((p =? 0) || open k).
  - unfold listen. simpl. by rewrite (proj2 (Z.eqb_neq _ _)).
  - unfold connect. by destruct ((p =? 0) || (ep_port r =? 0) || open k).
  - by eexists.
  - unfold close. by destruct (st k).
  - simpl in H. unfold send in H. destruct (sends k); simplify_eq; simpl.
    + split_and!; [lia|done|done].
    + split_and!; [lia|done|by rewrite app_nil_r].
  - simpl in H. unfold recv in H. destruct (recvs k); simplify_eq; simpl.
    + split_and!; [len|done|done].
    + split_and!; [lia|by rewrite app_nil_r|done].
Qed.
End Small.
