(* ===== verification/SmoltcpProps.v ===== *)
(** * virtio-net: what the userspace back end guarantees

    The device queues, the echo service, client sockets and their ports, for
    every TCP/IP stack with the laws of [SmoltcpLaws]. *)

From S2P Require Import Prelude GuestMemory VsockQueue VirtioQueue Mmio NetQueue Smoltcp.

(** ** The device *)

Definition fits (f : bytes) : Prop := zlen f <= DEVICE_MTU.

Definition device_ok (d : SmoltDevice.t) : Prop :=
  SmoltDevice.mtu d = DEVICE_MTU /\ Forall fits (SmoltDevice.stack_to_guest d).

Lemma tx_consume_ok tok len f d :
  device_ok d -> SmoltDevice.tx_mtu tok = SmoltDevice.mtu d ->
  (forall buf, length (f buf) = length buf) ->
  device_ok (SmoltDevice.tx_consume tok len f d).
Proof.
  intros [Hm Hf] Ht Hl. split; [done|]. simpl. apply Forall_app. split; [done|]. apply Forall_singleton.
  unfold fits, zlen. rewrite Hl, length_replicate, Ht, Hm. unfold DEVICE_MTU. lia.
Qed.

(** A poll ends in one of the ways its program can, takes inbound frames from the
    front only and puts frames of at most the MTU behind the outbound ones. *)
Lemma poll_run_ok {R} (P : R -> Prop) (p : Poll R) d :
  poll_all P p -> device_ok d ->
  P (poll_run p d).1 /\ device_ok (poll_run p d).2 /\
  SmoltDevice.guest_to_stack (poll_run p d).2 `suffix_of` SmoltDevice.guest_to_stack d /\
  SmoltDevice.stack_to_guest d `prefix_of` SmoltDevice.stack_to_guest (poll_run p d).2.
Proof.
  revert d. induction p as [r|k IH|len fill p IH]; intros d Hp Hd; simpl in *.
  - done.
  - unfold SmoltDevice.receive. destruct (SmoltDevice.guest_to_stack d) as [|f rest] eqn:Hg.
    + destruct (IH None d (Hp None) Hd) as (? & ? & Hs & ?). by rewrite Hg in Hs.
    + destruct Hd as [Hm Hf].
      destruct (IH (Some f) (SmoltDevice.mk rest (SmoltDevice.stack_to_guest d) (SmoltDevice.mtu d))
                  (Hp (Some f)) (conj Hm Hf)) as (? & ? & Hs & ?). split_and!; [done|done| |done].
      by apply suffix_cons_r.
  - destruct Hp as [Hl Hp].
    destruct (IH (SmoltDevice.tx_consume (SmoltDevice.mk_tx (SmoltDevice.mtu d)) len fill d) Hp)
      as (? & ? & ? & Hpre); [by apply tx_consume_ok|]. split_and!; [done..|].
    etrans; [|exact Hpre]. by apply prefix_app_r.
Qed.

Section Backend.
Context {I SS K : Type} `{!Smoltcp I SS K, !TcpStreams K, !SmoltcpLaws I SS K}.
Abbreviation St := (State.t I SS).
Implicit Types (s : St) (k : K) (h : Z).

Abbreviation get h s := (set_get h (State.sockets s)).

Lemma same_streams_trans k1 k2 k3 : same_streams k1 k2 -> same_streams k2 k3 -> same_streams k1 k3.
Proof. intros [? ?] [? ?]. split; congruence. Qed.

(** ** The echo service *)

(** Between two states of the echo socket and the bytes still to be echoed:
    nothing is sent back that was not received, twice, or out of order. *)
Definition echoes (x x' : K * bytes) : Prop :=
  exists r q, delivered x'.1 = delivered x.1 ++ r /\ accepted x'.1 = accepted x.1 ++ q /\
    sublist (q ++ x'.2) (x.2 ++ r).

(** The same, with nothing lost either. *)
Definition echoes_all (x x' : K * bytes) : Prop :=
  exists r q, delivered x'.1 = delivered x.1 ++ r /\ accepted x'.1 = accepted x.1 ++ q /\
    x.2 ++ r = q ++ x'.2.

Lemma echoes_all_some x x' : echoes_all x x' -> echoes x x'.
Proof. intros (r & q & Hd & Ha & Hs). exists r, q. by rewrite Hs. Qed.

Lemma echoes_all_trans x1 x2 x3 : echoes_all x1 x2 -> echoes_all x2 x3 -> echoes_all x1 x3.
Proof.
  intros (r & q & Hd & Ha & Hs) (r' & q' & Hd' & Ha' & Hs'). exists (r ++ r'), (q ++ q').
  rewrite Hd', Hd, Ha', Ha, !app_assoc, Hs. split_and!; [done|done|]. by rewrite <- !app_assoc, Hs'.
Qed.

Lemma echoes_trans x1 x2 x3 : echoes x1 x2 -> echoes x2 x3 -> echoes x1 x3.
Proof.
  intros (r & q & Hd & Ha & Hs) (r' & q' & Hd' & Ha' & Hs'). exists (r ++ r'), (q ++ q').
  rewrite Hd', Hd, Ha', Ha, !app_assoc. split_and!; [done|done|].
  transitivity (q ++ (x2.2 ++ r')).
  - rewrite <- app_assoc. by apply sublist_app.
  - rewrite app_assoc. by apply sublist_app.
Qed.

Lemma echoes_same k k' p : same_streams k k' -> echoes_all (k, p) (k', p).
Proof. intros [Hd Ha]. exists [], []. simpl. by rewrite Hd, Ha, !app_nil_r. Qed.

Lemma echoes_drop k k' p : same_streams k k' -> echoes (k, p) (k', []).
Proof.
  intros [Hd Ha]. exists [], []. simpl. rewrite Hd, Ha, !app_nil_r. split_and!; [done..|].
  apply sublist_nil_l.
Qed.

Lemma send_echoes d rest k r k' :
  tcp_send_slice d k = (r, k') ->
  echoes_all (k, d ++ rest) (k', drop (unwrap_or 0%nat r) d ++ rest).
Proof.
  intros (_ & Hd & Ha)%tcp_send_streams. exists [], (take (unwrap_or 0%nat r) d). simpl.
  rewrite Hd, Ha, !app_nil_r, app_assoc, take_drop. done.
Qed.

Lemma echo_flush_echoes k p : echoes_all (k, p) (State.echo_flush k p).
Proof.
  unfold State.echo_flush. destruct (_ && _); [|by apply echoes_same].
  destruct (tcp_send_slice p k) as [r k'] eqn:Hs. pose proof (send_echoes p [] k r k' Hs) as He.
  rewrite !app_nil_r in He. destruct r as [w|e]; [|exact He]. simpl in He.
  destruct (Nat.ltb_spec 0 w); [done|]. by assert (w = 0)%nat as -> by lia.
Qed.

Lemma echo_pull_echoes k p : echoes_all (k, p) (State.echo_pull k p).
Proof.
  unfold State.echo_pull. destruct (bool_decide (p = [])) eqn:Hp; [|by apply echoes_same].
  apply bool_decide_eq_true in Hp as ->. simpl. destruct (_ && _); [|by apply echoes_same].
  destruct (tcp_recv_slice _ k) as [r k1] eqn:Hr. apply tcp_recv_streams in Hr as (_ & Hd & Ha).
  assert (echoes_all (k, []) (k1, unwrap_or [] r)) as H1 by (exists (unwrap_or [] r), []; by rewrite app_nil_r).
  destruct r as [buf|e]; [|exact H1]. simpl in *.
  destruct (Nat.ltb_spec 0 (length buf)); [|by destruct buf; simpl in *; [|lia]].
  destruct (tcp_send_slice buf k1) as [r k2] eqn:Hs. eapply echoes_all_trans; [exact H1|].
  pose proof (send_echoes buf [] k1 r k2 Hs) as He. rewrite !app_nil_r in He.
  destruct (Nat.ltb_spec (unwrap_or 0%nat r) (length buf)); [done|]. by rewrite drop_ge in He by lia.
Qed.

(** The connection is over: the socket is closed, or the peer has closed its half
    and all its bytes were read. *)
Definition echo_ends (k : K) (p : bytes) : bool :=
  negb (tcp_is_open k) ||
  (let '(k, p) := State.echo_flush k p in
   let '(k, p) := State.echo_pull k p in
   bool_decide (tcp_state k = CloseWait) && negb (tcp_can_recv k)).

Lemma echo_socket_exact port k p :
  echo_ends k p = false -> echoes_all (k, p) (State.echo_socket port k p).
Proof.
  unfold echo_ends, State.echo_socket. intros [Ho Hf]%orb_false_iff. rewrite Ho.
  pose proof (echo_flush_echoes k p) as H1. destruct (State.echo_flush k p) as [k1 p1].
  pose proof (echo_pull_echoes k1 p1) as H2. destruct (State.echo_pull k1 p1) as [k2 p2].
  unfold State.echo_finish. rewrite Hf. by eapply echoes_all_trans.
Qed.

Lemma echo_socket_echoes port k p : echoes (k, p) (State.echo_socket port k p).
Proof.
  unfold State.echo_socket. case_if.
  - pose proof (tcp_listen_streams (I := I) (SS := SS) port k) as Hl.
    destruct (tcp_listen port k) as [r k']. by apply echoes_drop.
  - pose proof (echo_flush_echoes k p) as H1. destruct (State.echo_flush k p) as [k1 p1].
    pose proof (echo_pull_echoes k1 p1) as H2. destruct (State.echo_pull k1 p1) as [k2 p2].
    eapply echoes_trans; [by eapply echoes_all_some, echoes_all_trans|].
    unfold State.echo_finish. destruct (_ && _); [apply echoes_drop, tcp_close_streams|].
    by apply echoes_all_some, echoes_same.
Qed.

(** ** The state behind the mutex *)

Record wf (s : St) : Prop := mk_wf {
  wf_device : device_ok (State.device s);
  wf_echo h : State.echo_handle s = Some h -> is_Some (get h s);
  wf_port : State.EPHEMERAL_START <= State.next_ephemeral_port s <= State.EPHEMERAL_END;
}.

Definition echo_inv (s : St) : Prop := forall h k,
  State.echo_handle s = Some h -> get h s = Some k ->
  sublist (accepted k ++ State.echo_pending s) (delivered k).

(** What every operation keeps: the invariant, the echo service's promise, and
    the streams of all sockets but those in [X]. *)
Record advances (X : gset Z) (s s' : St) : Prop := mk_advances {
  adv_echo : State.echo_handle s' = State.echo_handle s;
  adv_wf : wf s -> wf s';
  adv_inv : wf s -> echo_inv s -> echo_inv s';
  adv_keeps h : Some h <> State.echo_handle s -> h ∉ X -> forall k', get h s' = Some k' ->
    exists k, get h s = Some k /\ same_streams k k';
}.

Lemma advances_refl X s : advances X s s.
Proof. split; [done..|]. intros h _ _ k Hk. by exists k. Qed.

Lemma advances_trans X s1 s2 s3 : advances X s1 s2 -> advances X s2 s3 -> advances X s1 s3.
Proof.
  intros [He1 Hw1 Hi1 Hk1] [He2 Hw2 Hi2 Hk2]. split; [congruence|by auto|by auto|].
  intros h Hh HX k' Hk'. destruct (Hk2 h) with k' as (k2 & Hg2 & Hs2); [congruence|done|done|].
  destruct (Hk1 h Hh HX k2 Hg2) as (k1 & Hg1 & Hs1). exists k1. split; [done|].
  by eapply same_streams_trans.
Qed.

Lemma advances_weaken X Y s s' : X ⊆ Y -> advances X s s' -> advances Y s s'.
Proof. intros HXY [He Hw Hi Hk]. split; [done..|]. intros h Hh HX. apply Hk; [done|set_solver]. Qed.

Lemma option_streams_l h (ss ss' : SS) k :
  option_Forall2 same_streams (set_get h ss) (set_get h ss') -> set_get h ss = Some k ->
  exists k', set_get h ss' = Some k' /\ same_streams k k'.
Proof. intros Ho Hk. rewrite Hk in Ho. inversion Ho; subst. eauto. Qed.

Lemma option_streams_r h (ss ss' : SS) k' :
  option_Forall2 same_streams (set_get h ss) (set_get h ss') -> set_get h ss' = Some k' ->
  exists k, set_get h ss = Some k /\ same_streams k k'.
Proof. intros Ho Hk. rewrite Hk in Ho. inversion Ho; subst. eauto. Qed.

(** Sockets that come and go around the streams they keep. *)
Lemma advances_sockets X s s' :
  (device_ok (State.device s) -> device_ok (State.device s')) ->
  State.echo_handle s' = State.echo_handle s ->
  State.echo_pending s' = State.echo_pending s ->
  (State.EPHEMERAL_START <= State.next_ephemeral_port s <= State.EPHEMERAL_END ->
   State.EPHEMERAL_START <= State.next_ephemeral_port s' <= State.EPHEMERAL_END) ->
  (forall h k, State.echo_handle s = Some h -> get h s = Some k ->
     exists k', get h s' = Some k' /\ same_streams k k') ->
  (forall h, Some h <> State.echo_handle s -> h ∉ X -> forall k', get h s' = Some k' ->
     exists k, get h s = Some k /\ same_streams k k') ->
  advances X s s'.
Proof.
  intros Hd He Hp Hn Hecho Hk. split; [done| | |done].
  - intros [Hd0 He0 Hn0]. split; [by auto| |by auto]. rewrite He. intros h Hh.
    destruct (He0 h Hh) as [k Hk0]. destruct (Hecho h k Hh Hk0) as (k' & -> & _). by eexists.
  - intros Hw Hi h k' Hh Hk'. rewrite He in Hh. destruct (wf_echo s Hw h Hh) as [k Hk0].
    destruct (Hecho h k Hh Hk0) as (k1 & Hk1 & Hd1 & Ha1). simplify_eq. rewrite Hp, Ha1, Hd1. by eapply Hi.
Qed.

Lemma poll_advances X now s : wf s -> advances X s (State.poll now s).
Proof.
  intros Hw. unfold State.poll.
  pose proof (poll_run_ok _ _ (State.device s)
    (iface_poll_keeps now (State.iface s) (State.sockets s)) (wf_device s Hw)) as Hp.
  destruct (poll_run _ _) as [[i ss] d]. simpl in Hp. destruct Hp as (Hk & Hd & _ & _).
  apply advances_sockets; [done..| |].
  - intros h k _ Hh. by eapply option_streams_l.
  - intros h _ _ k' Hh. by eapply option_streams_r.
Qed.

(** A poll keeps exactly the handles there are. *)
Lemma poll_handles now s h : device_ok (State.device s) -> get h (State.poll now s) = None <-> get h s = None.
Proof.
  intros Hd. unfold State.poll.
  pose proof (poll_run_ok _ _ (State.device s)
    (iface_poll_keeps now (State.iface s) (State.sockets s)) Hd) as Hp.
  destruct (poll_run _ _) as [[i ss] d]. simpl in *. destruct Hp as (Hk & _). specialize (Hk h).
  by destruct Hk.
Qed.

Lemma drive_echo_advances s :
  wf s -> exists s', State.drive_echo s = (Ok tt, s') /\ advances ∅ s s' /\
    (forall h, Some h <> State.echo_handle s -> get h s' = get h s).
Proof.
  intros Hw. unfold State.drive_echo.
  destruct (State.echo_handle s) as [h|] eqn:He; [|by exists s; split_and!; [|apply advances_refl|]].
  destruct (wf_echo s Hw h He) as [k Hk]. rewrite (sm_bind_ok _ _ s k s);
    [|unfold State.get_mut; by rewrite Hk].
  unfold sm_modify. eexists. split; [done|].
  pose proof (echo_socket_echoes (State.listen_port s) k (State.echo_pending s)) as Hec.
  destruct (State.echo_socket _ _ _) as [k' p'].
  assert (forall h', set_get h' (set_put h k' (State.sockets s)) =
            if decide (h = h') then Some k' else get h' s) as Hput
    by (intros; by eapply set_get_put).
  split; [|intros h' Hh'; simpl; rewrite Hput; case_decide; congruence].
  split; simpl; [done| | |].
  - intros [Hd He0 Hn]. split; [done| |done]. simpl. intros h' Hh'. rewrite Hput. case_decide; [done|]. by apply He0.
  - intros _ Hi h' k0 Hh' Hk0. simpl in *. rewrite Hput in Hk0. simplify_eq. rewrite decide_True in Hk0 by done.
    simplify_eq. destruct Hec as (r & q & Hd & Ha & Hs). simpl in *. rewrite Hd, Ha, <- app_assoc.
    etrans; [apply sublist_app; [done|exact Hs]|]. rewrite app_assoc. apply sublist_app; [|done]. by eapply Hi.
  - intros h' Hh' _ k0 Hk0. rewrite Hput in Hk0. rewrite decide_False in Hk0 by congruence. by exists k0.
Qed.

(** ** Reaping *)

Lemma foldl_remove (l : list Z) h : forall ss : SS,
  set_get h (foldl (fun ss h => set_remove h ss) ss l) = if decide (h ∈ l) then None else set_get h ss.
Proof.
  induction l as [|x l IH]; intros ss; simpl; [done|]. rewrite IH, set_get_remove.
  destruct (decide (x = h)) as [->|Hx].
  - rewrite (decide_True (P := h ∈ h :: l)) by left. by case_decide.
  - destruct (decide (h ∈ l)) as [Hl|Hl]; [by rewrite decide_True by (by right)|].
    rewrite decide_False; [done|]. rewrite elem_of_cons. naive_solver.
Qed.

Lemma dead_handles_spec s h :
  h ∈ State.dead_handles s <->
  Some h <> State.echo_handle s /\ exists k, get h s = Some k /\ tcp_state k = Closed.
Proof.
  unfold State.dead_handles. rewrite list_elem_of_filter, list_elem_of_omap. split.
  - intros [Hh ([h' k] & Hin & Hc)]. apply set_iter_get in Hin. case_bool_decide; simplify_eq. eauto.
  - intros (Hh & k & Hk & Hc). split; [done|]. exists (h, k). rewrite set_iter_get.
    by rewrite bool_decide_true.
Qed.

Lemma reap_get s h :
  get h (State.reap_closed_client_sockets s) = if decide (h ∈ State.dead_handles s) then None else get h s.
Proof. apply foldl_remove. Qed.

Lemma reap_advances s : advances ∅ s (State.reap_closed_client_sockets s).
Proof.
  apply advances_sockets; [done..| |].
  - intros h k Hh Hk. rewrite reap_get, decide_False; [by exists k|].
    rewrite dead_handles_spec. naive_solver.
  - intros h _ _ k'. rewrite reap_get. case_decide; [done|]. intros Hk. by exists k'.
Qed.

Lemma poll_and_echo_advances host s :
  wf s -> exists s', State.poll_and_echo (K := K) host s = (Ok tt, s') /\ advances ∅ s s'.
Proof.
  intros Hw. unfold State.poll_and_echo. erewrite sm_bind_ok by done. erewrite sm_bind_ok by done.
  pose proof (poll_advances ∅ (State.now host s) s Hw) as H1.
  destruct (drive_echo_advances (State.poll (State.now host s) s)) as (s2 & Hs2 & H2 & _); [by eapply adv_wf|].
  erewrite sm_bind_ok by exact Hs2. erewrite sm_bind_ok by done. eexists. split; [done|].
  assert (advances ∅ s (State.reap_closed_client_sockets s2)) as H3
    by (eapply advances_trans; [exact H1|]; eapply advances_trans; [exact H2|apply reap_advances]).
  eapply advances_trans; [exact H3|]. apply poll_advances. by eapply adv_wf.
Qed.

(** ** Ephemeral ports *)

Lemma allocate_loop_range n in_use next :
  State.EPHEMERAL_START <= next <= State.EPHEMERAL_END ->
  State.EPHEMERAL_START <= (State.allocate_loop n in_use next).2 <= State.EPHEMERAL_END.
Proof.
  revert next. induction n as [|n IH]; intros next Hn; simpl; [done|].
  unfold State.EPHEMERAL_START, State.EPHEMERAL_END in *.
  case_bool_decide; [apply IH|simpl]; repeat case_if; lia.
Qed.

(** The [i]-th port tried from the counter [next]. *)
Definition port_at (next i : Z) : Z :=
  State.EPHEMERAL_START + (next - State.EPHEMERAL_START + i) mod State.EPHEMERAL_SIZE.

Lemma allocate_loop_spec n in_use next :
  State.EPHEMERAL_START <= next <= State.EPHEMERAL_END ->
  match (State.allocate_loop n in_use next).1 with
  | 0 => forall i, 0 <= i < Z.of_nat n -> port_at next i ∈ in_use
  | p => State.EPHEMERAL_START <= p <= State.EPHEMERAL_END /\ p ∉ in_use
  end.
Proof.
  revert next. induction n as [|n IH]; intros next Hn; simpl; [lia|].
  assert ((next <? State.EPHEMERAL_START) = false) as -> by lia.
  set (nxt := if next =? State.EPHEMERAL_END then State.EPHEMERAL_START else next + 1).
  assert (State.EPHEMERAL_START <= nxt <= State.EPHEMERAL_END) as Hx
    by (unfold nxt, State.EPHEMERAL_START, State.EPHEMERAL_END in *; case_if; lia).
  case_bool_decide as Hu.
  - specialize (IH nxt Hx). destruct (State.allocate_loop n in_use nxt).1; [|done|done].
    intros i Hi. destruct (decide (i = 0)) as [->|Hi0].
    + replace (port_at next 0) with next; [done|].
      unfold port_at, State.EPHEMERAL_SIZE, State.EPHEMERAL_START, State.EPHEMERAL_END in *. ulia.
    + replace (port_at next i) with (port_at nxt (i - 1)); [apply IH; lia|].
      unfold port_at, nxt, State.EPHEMERAL_SIZE, State.EPHEMERAL_START, State.EPHEMERAL_END in *.
      case_if; ulia.
  - simpl. unfold State.EPHEMERAL_START, State.EPHEMERAL_END in *. by destruct next; [lia|split|split].
Qed.

Lemma ports_in_use_spec (ss : SS) p :
  p ∈ State.ports_in_use ss <-> exists h k, set_get h ss = Some k /\ tcp_local_port k = Some p.
Proof.
  unfold State.ports_in_use. rewrite elem_of_list_to_set, list_elem_of_omap. split.
  - intros ([h k] & Hin & Hp). exists h, k. split; [by apply set_iter_get|done].
  - intros (h & k & Hk & Hp). exists (h, k). by rewrite set_iter_get.
Qed.

(** A port from the ephemeral range that no socket holds, unless every one of
    them is held. *)
Lemma allocate_ephemeral_port_spec s :
  wf s -> exists p s', State.allocate_ephemeral_port s = (Ok p, s') /\
    advances ∅ s s' /\ State.sockets s' = State.sockets s /\
    ((State.EPHEMERAL_START <= p <= State.EPHEMERAL_END /\
      forall h k, get h s = Some k -> tcp_local_port k <> Some p) \/
     (p = 0 /\ forall q, State.EPHEMERAL_START <= q <= State.EPHEMERAL_END ->
        exists h k, get h s = Some k /\ tcp_local_port k = Some q)).
Proof.
  intros [_ _ Hn]. unfold State.allocate_ephemeral_port.
  pose proof (allocate_loop_spec (Z.to_nat State.EPHEMERAL_SIZE)
    (State.ports_in_use (State.sockets s)) _ Hn) as Hs.
  pose proof (allocate_loop_range (Z.to_nat State.EPHEMERAL_SIZE)
    (State.ports_in_use (State.sockets s)) _ Hn) as Hr.
  destruct (State.allocate_loop _ _ _) as [p nxt]. simpl in *. eexists p, _. split_and!; [done| |done|].
  { apply advances_sockets; [done..| |].
    - intros h k _ Hk. by exists k.
    - intros h _ _ k Hk. by exists k. }
  destruct (decide (p = 0)) as [->|Hp].
  - right. split; [done|]. intros q Hq. apply ports_in_use_spec.
    specialize (Hs ((q - State.next_ephemeral_port s) mod State.EPHEMERAL_SIZE)).
    replace q with (port_at (State.next_ephemeral_port s)
      ((q - State.next_ephemeral_port s) mod State.EPHEMERAL_SIZE)).
    + apply Hs. unfold State.EPHEMERAL_SIZE, State.EPHEMERAL_START, State.EPHEMERAL_END in *. ulia.
    + unfold port_at, State.EPHEMERAL_SIZE, State.EPHEMERAL_START, State.EPHEMERAL_END in *. ulia.
  - left. assert (State.EPHEMERAL_START <= p <= State.EPHEMERAL_END /\
                  p ∉ State.ports_in_use (State.sockets s)) as [Hpr Hpu] by (by destruct p).
    split; [done|]. intros h k Hk Hl. apply Hpu, ports_in_use_spec. eauto.
Qed.

(** ** Calls *)

(** A computation under the lock, whatever its outcome. *)
Definition runs {A} (X : gset Z) (e : option Z) (c : SM St Panic A) : Prop :=
  forall s, wf s -> State.echo_handle s = e -> advances X s (c s).2.

Lemma runs_bind {A B} X e (c : SM St Panic A) (f : A -> SM St Panic B) :
  runs X e c -> (forall a, runs X e (f a)) -> runs X e (x ← c; f x).
Proof.
  intros Hc Hf s Hw He. specialize (Hc s Hw He). unfold mbind, sm_bind.
  destruct (c s) as [[a|p] s1]; [|done]. simpl in Hc. eapply advances_trans; [exact Hc|].
  apply Hf; [by eapply adv_wf|]. by rewrite (adv_echo _ _ _ Hc).
Qed.

Lemma runs_ret {A} X e (a : A) : runs X e (mret a).
Proof. intros s _ _. apply advances_refl. Qed.

Lemma runs_get_mut X e h : runs X e (State.get_mut (K := K) h).
Proof. intros s _ _. unfold State.get_mut. destruct (get h s); apply advances_refl. Qed.

Lemma runs_poll_and_echo X e host : runs X e (State.poll_and_echo (K := K) host).
Proof.
  intros s Hw _. destruct (poll_and_echo_advances host s Hw) as (s' & -> & Ha).
  eapply advances_weaken; [|exact Ha]. set_solver.
Qed.

Lemma put_advances X h k s k0 :
  get h s = Some k0 -> Some h <> State.echo_handle s -> h ∈ X \/ same_streams k0 k ->
  advances X s (State.put_socket h k s).
Proof.
  intros Hg Hh HX. assert (forall h', get h' (State.put_socket h k s) =
    if decide (h = h') then Some k else get h' s) as Hput by (intros; by eapply set_get_put).
  apply advances_sockets; [done..| |].
  - intros h' k' Hh' Hk'. rewrite Hput, decide_False by congruence. by exists k'.
  - intros h' _ HX' k'. rewrite Hput. case_decide as Hd.
    + intros [= <-]. subst h'. exists k0. by destruct HX.
    + intros Hk'. by exists k'.
Qed.

(** A method of a socket: on an absent handle, and on a present one. *)
Lemma with_socket_none {A} h (f : K -> A * K) s :
  get h s = None -> State.with_socket h f s = (Err NoSuchSocket, s).
Proof. intros Hg. unfold State.with_socket. eapply sm_bind_err. unfold State.get_mut. by rewrite Hg. Qed.

Lemma with_socket_some {A} h (f : K -> A * K) s k :
  get h s = Some k -> State.with_socket h f s = (Ok (f k).1, State.put_socket h (f k).2 s).
Proof.
  intros Hg. unfold State.with_socket. erewrite sm_bind_ok by (unfold State.get_mut; by rewrite Hg).
  by destruct (f k).
Qed.

Lemma runs_with_socket {A} X e h (f : K -> A * K) :
  Some h <> e -> h ∈ X \/ (forall k, same_streams k (f k).2) -> runs X e (State.with_socket h f).
Proof.
  intros Hh HX s Hw He. destruct (get h s) as [k|] eqn:Hg.
  - erewrite with_socket_some by done. eapply put_advances; [done|congruence|naive_solver].
  - rewrite with_socket_none by done. apply advances_refl.
Qed.

Lemma connect_advances h remote port s :
  wf s -> Some h <> State.echo_handle s ->
  advances ∅ s (SmoltcpBackend.connect h remote port s).2.
Proof.
  intros Hw Hh. unfold SmoltcpBackend.connect, mbind, sm_bind, State.get_mut.
  destruct (get h s) as [k|] eqn:Hg; [|apply advances_refl].
  pose proof (tcp_connect_streams (SS := SS) remote port (State.iface s) k) as Hc.
  destruct (tcp_connect _ _ _ _) as [r [i k']]. simpl in Hc. simpl.
  eapply advances_trans; [eapply (put_advances ∅ h k' s k); [done..|by right]|].
  apply advances_sockets; [done..| |].
  - intros h' k0 _ Hk. by exists k0.
  - intros h' _ _ k0 Hk. by exists k0.
Qed.

Lemma add_socket_spec s :
  wf s -> exists h s', SmoltcpBackend.add_socket s = (Ok h, s') /\
    h = (set_add (tcp_new TCP_SOCKET_BUFFER_BYTES TCP_SOCKET_BUFFER_BYTES) (State.sockets s)).1 /\ get h s = None /\
    get h s' = Some (tcp_new TCP_SOCKET_BUFFER_BYTES TCP_SOCKET_BUFFER_BYTES) /\
    Some h <> State.echo_handle s /\ advances {[h]} s s'.
Proof.
  intros Hw. unfold SmoltcpBackend.add_socket.
  destruct (set_add _ _) as [h ss] eqn:Ha. apply set_get_add in Ha as [Hn Hg].
  eexists h, _. split; [done|]. split; [done|]. split; [done|]. split; [simpl; by rewrite Hg, decide_True|].
  assert (Some h <> State.echo_handle s) as Hh.
  { intros He. destruct (wf_echo s Hw h (eq_sym He)) as [k Hk]. congruence. }
  split; [done|]. apply advances_sockets; [done..| |].
  - intros h' k He Hk. simpl. rewrite Hg, decide_False by congruence. by exists k.
  - intros h' _ HX k. simpl. rewrite Hg. case_decide; [set_solver|]. intros Hk. by exists k.
Qed.

(** Opening adds one socket under a handle that was free; if it succeeds, the
    socket has not carried a byte yet. *)
Lemma open_body_spec remote host s :
  wf s -> exists h, h = (set_add (tcp_new TCP_SOCKET_BUFFER_BYTES TCP_SOCKET_BUFFER_BYTES) (State.sockets s)).1 /\
    get h s = None /\ Some h <> State.echo_handle s /\
    let (r, s') := (handle ← SmoltcpBackend.add_socket;
                    local_port ← State.allocate_ephemeral_port;
                    _ ← SmoltcpBackend.connect handle remote local_port;
                    _ ← State.poll_and_echo (K := K) host;
                    mret handle) s in
    advances {[h]} s s' /\
    (forall h', r = Ok h' -> h' = h /\ forall k, get h s' = Some k -> delivered k = [] /\ accepted k = []).
Proof.
  intros Hw. destruct (add_socket_spec s Hw) as (h & s1 & Hs1 & Hi & Hn & Hg1 & Hh & H1).
  exists h. split_and!; [done|done|done|]. erewrite sm_bind_ok by exact Hs1.
  destruct (allocate_ephemeral_port_spec s1) as (p & s2 & Hs2 & H2 & _); [by eapply adv_wf|].
  erewrite sm_bind_ok by exact Hs2.
  assert (Some h <> State.echo_handle s2) as Hh2 by (by rewrite (adv_echo _ _ _ H2), (adv_echo _ _ _ H1)).
  assert (wf s2) as Hw2 by (eapply adv_wf; [exact H2|]; by eapply adv_wf).
  pose proof (connect_advances h remote p s2 Hw2 Hh2) as H3.
  assert (advances {[h]} s s2) as H12.
  { eapply advances_trans; [exact H1|]. eapply advances_weaken; [|exact H2]. set_solver. }
  unfold mbind at 1, sm_bind at 1.
  destruct (SmoltcpBackend.connect h remote p s2) as [[[]|e] s3] eqn:Hs3; simpl in H3.
  - destruct (poll_and_echo_advances host s3) as (s4 & Hs4 & H4); [by eapply adv_wf|].
    erewrite sm_bind_ok by exact Hs4. simpl.
    assert (advances ∅ s1 s4) as H14 by (eapply advances_trans; [exact H2|]; by eapply advances_trans).
    split.
    + eapply advances_trans; [exact H1|]. eapply advances_weaken; [|exact H14]. set_solver.
    + intros h' [= <-]. split; [done|]. intros k Hk.
      destruct (adv_keeps _ _ _ H14 h) with k as (k1 & Hk1 & Hd & Ha);
        [by rewrite (adv_echo _ _ _ H1)|set_solver|done|].
      rewrite Hg1 in Hk1. simplify_eq. rewrite Hd, Ha. apply tcp_new_streams.
  - split; [|done]. eapply advances_trans; [exact H12|]. eapply advances_weaken; [|exact H3]. set_solver.
Qed.

Lemma runs_lock {A} X (c : SM St Panic A) m :
  wf (SmoltcpBackend.inner m) -> runs X (State.echo_handle (SmoltcpBackend.inner m)) c ->
  advances X (SmoltcpBackend.inner m) (SmoltcpBackend.inner (SmoltcpBackend.with_lock c m).2).
Proof.
  intros Hw Hc. unfold SmoltcpBackend.with_lock. destruct (SmoltcpBackend.poisoned m); [apply advances_refl|].
  specialize (Hc (SmoltcpBackend.inner m) Hw eq_refl). by destruct (c (SmoltcpBackend.inner m)).
Qed.

(** The frames of the guest. *)
Lemma runs_push_frame X e f : runs X e (sm_modify (SmoltcpBackend.push_frame f)).
Proof.
  intros s _ _. apply advances_sockets; [done..| |]; simpl.
  - intros h k _ Hk. by exists k.
  - intros h _ _ k Hk. by exists k.
Qed.

Lemma runs_pop_frame X e n : runs X e (SmoltcpBackend.pop_frame n).
Proof.
  intros s _ _. unfold SmoltcpBackend.pop_frame.
  destruct (SmoltDevice.stack_to_guest (State.device s)) as [|f rest] eqn:Hd; [apply advances_refl|].
  apply advances_sockets; [|done..| |]; simpl.
  - intros [Hm Hf]. rewrite Hd in Hf. split; [done|]. by inversion Hf.
  - intros h k _ Hk. by exists k.
  - intros h _ _ k Hk. by exists k.
Qed.

(** The handle a call is about, and the sockets whose streams it moves. *)
Definition call_handle (c : Call) : option Z :=
  match c with
  | CSend h _ | CRecv h _ | CState h | CClose h => Some h
  | _ => None
  end.

Definition client_call (e : option Z) (c : Call) : Prop :=
  forall h, call_handle c = Some h -> Some h <> e.

Definition call_moves (c : Call) : gset Z :=
  match c with CSend h _ | CRecv h _ => {[h]} | _ => ∅ end.

Definition is_open_call (c : Call) : bool := match c with COpen _ => true | _ => false end.

Lemma run_call_advances host m c :
  wf (SmoltcpBackend.inner m) -> client_call (State.echo_handle (SmoltcpBackend.inner m)) c ->
  is_open_call c = false ->
  advances (call_moves c) (SmoltcpBackend.inner m) (SmoltcpBackend.inner (run_call host m c)).
Proof.
  intros Hw Hc Ho. destruct c as [n|f|r|h d|h n|h|h]; simpl in *; [| |done|..]; apply runs_lock; try done.
  - apply runs_bind; [apply runs_poll_and_echo|intros; apply runs_pop_frame].
  - apply runs_bind; [apply runs_push_frame|intros; apply runs_poll_and_echo].
  - apply runs_bind; [apply runs_with_socket; [by apply Hc|set_solver]|]. intros r.
    apply runs_bind; [apply runs_poll_and_echo|intros; apply runs_ret].
  - apply runs_bind; [apply runs_poll_and_echo|]. intros _.
    apply runs_bind; [apply runs_with_socket; [by apply Hc|set_solver]|intros; apply runs_ret].
  - apply runs_bind; [apply runs_get_mut|intros; apply runs_ret].
  - apply runs_bind; [|intros; apply runs_poll_and_echo].
    apply runs_with_socket; [by apply Hc|]. right. apply tcp_close_streams.
Qed.

(** Every call of a client, opening included, leaves the sockets alone that it
    neither opens nor moves bytes through. *)
Lemma run_call_touches host m c :
  wf (SmoltcpBackend.inner m) -> client_call (State.echo_handle (SmoltcpBackend.inner m)) c ->
  advances (list_to_set (call_uses m c)) (SmoltcpBackend.inner m) (SmoltcpBackend.inner (run_call host m c)).
Proof.
  intros Hw Hc. destruct (is_open_call c) eqn:Ho.
  - destruct c as [| |r| | | |]; try done. simpl. unfold SmoltcpBackend.open_client_socket, SmoltcpBackend.with_lock.
    destruct (SmoltcpBackend.poisoned m); [apply advances_refl|].
    destruct (open_body_spec r host (SmoltcpBackend.inner m) Hw) as (h & -> & _ & _ & H).
    match type of H with (let (_, _) := ?x in _) => destruct x as [r' s1] end. destruct H as [H _].
    eapply advances_weaken; [|exact H]. simpl. set_solver.
  - eapply advances_weaken; [|by apply run_call_advances]. destruct c; try done; simpl; set_solver.
Qed.

(** And keeps what the others rely on. *)
Lemma run_call_inv host m c :
  let s := SmoltcpBackend.inner m in let s' := SmoltcpBackend.inner (run_call host m c) in
  wf s -> client_call (State.echo_handle s) c ->
  wf s' /\ State.echo_handle s' = State.echo_handle s /\ (echo_inv s -> echo_inv s').
Proof. intros s s' Hw Hc. destruct (run_call_touches host m c Hw Hc) as [He Hwf Hi _]. auto. Qed.

(** ** Construction, runs and frames *)

Lemma with_config_ok cfg host : exists m, SmoltcpBackend.with_config (K := K) cfg host = Ok m /\
  SmoltcpBackend.poisoned m = false /\
  wf (SmoltcpBackend.inner m) /\ echo_inv (SmoltcpBackend.inner m) /\
  (BackendConfig.listen_port cfg = 0 <-> State.echo_handle (SmoltcpBackend.inner m) = None).
Proof.
  assert (device_ok (SmoltDevice.new DEVICE_MTU)) as Hd by done.
  assert (State.EPHEMERAL_START <= State.EPHEMERAL_START <= State.EPHEMERAL_END) as Hr by done.
  unfold SmoltcpBackend.with_config. destruct (Z.eqb_spec (BackendConfig.listen_port cfg) 0) as [Hz|Hz]; simpl.
  - eexists. split_and!; [done|done| |done|done]. by split.
  - pose proof (tcp_listen_new (I := I) (SS := SS) _ TCP_SOCKET_BUFFER_BYTES TCP_SOCKET_BUFFER_BYTES Hz) as Hl.
    pose proof (tcp_listen_streams (I := I) (SS := SS) (BackendConfig.listen_port cfg)
      (tcp_new TCP_SOCKET_BUFFER_BYTES TCP_SOCKET_BUFFER_BYTES)) as Hs.
    destruct (tcp_listen _ _) as [r k]. simpl in Hl, Hs. subst r.
    destruct (set_add k set_new) as [h ss] eqn:Ha. apply set_get_add in Ha as [_ Hg].
    eexists. split_and!; [done|done| | |done].
    + split; [done| |done]. simpl. intros h' [= ->]. by rewrite Hg, decide_True.
    + intros h' k'. simpl. intros [= <-]. rewrite Hg, decide_True by done. intros [= <-].
      destruct Hs as [-> ->].
      destruct (tcp_new_streams (I := I) (SS := SS) TCP_SOCKET_BUFFER_BYTES TCP_SOCKET_BUFFER_BYTES) as [-> ->].
      apply sublist_nil_l.
Qed.

(** Calls in the order in which they take the lock, with the time of each. *)
Definition run_timed (m : SmoltcpBackend.t I SS) (cs : list (Z * Call)) : SmoltcpBackend.t I SS :=
  foldl (fun m '(host, c) => run_call (K := K) host m c) m cs.

Lemma run_timed_inv cs : forall m,
  wf (SmoltcpBackend.inner m) ->
  Forall (fun x => client_call (State.echo_handle (SmoltcpBackend.inner m)) x.2) cs ->
  let s' := SmoltcpBackend.inner (run_timed m cs) in
  wf s' /\ State.echo_handle s' = State.echo_handle (SmoltcpBackend.inner m) /\
  (echo_inv (SmoltcpBackend.inner m) -> echo_inv s').
Proof.
  induction cs as [|[host c] cs IH]; intros m Hw Hc; [done|]. apply Forall_cons in Hc as [Hc Hcs]. simpl.
  destruct (run_call_inv host m c Hw Hc) as (Hw' & He & Hi).
  destruct (IH (run_call host m c)) as (Hw2 & He2 & Hi2); [done|by rewrite He|].
  split_and!; [done|by rewrite He2, He|by auto].
Qed.

(** The indices given to the opens of a run. *)
Fixpoint opened (m : SmoltcpBackend.t I SS) (cs : list (Z * Call)) : list Z :=
  match cs with
  | [] => []
  | (host, c) :: cs => call_opens m c ++ opened (run_call host m c) cs
  end.

Lemma with_lock_ok {A} (c : SM St Panic A) m a s' :
  SmoltcpBackend.poisoned m = false -> c (SmoltcpBackend.inner m) = (Ok a, s') ->
  SmoltcpBackend.with_lock c m = (Ok a, SmoltcpBackend.mk s' false).
Proof. intros Hp Hc. unfold SmoltcpBackend.with_lock. by rewrite Hp, Hc. Qed.

Lemma with_lock_panic {A} (c : SM St Panic A) m e s' :
  SmoltcpBackend.poisoned m = false -> c (SmoltcpBackend.inner m) = (Err e, s') ->
  SmoltcpBackend.with_lock c m = (Err e, SmoltcpBackend.mk s' true).
Proof. intros Hp Hc. unfold SmoltcpBackend.with_lock. by rewrite Hp, Hc. Qed.

Lemma with_lock_poisoned {A} (c : SM St Panic A) m :
  SmoltcpBackend.poisoned m = true -> SmoltcpBackend.with_lock c m = (Err MutexPoisoned, m).
Proof. intros Hp. unfold SmoltcpBackend.with_lock. by rewrite Hp. Qed.

Lemma write_frame_ok f host m :
  SmoltcpBackend.poisoned m = false -> wf (SmoltcpBackend.inner m) ->
  exists s', State.poll_and_echo (K := K) host (SmoltcpBackend.push_frame f (SmoltcpBackend.inner m)) = (Ok tt, s') /\
    SmoltcpBackend.smol_write_frame (K := K) f host m = (Ok tt, SmoltcpBackend.mk s' false) /\ wf s'.
Proof.
  intros Hp Hw. pose proof (runs_push_frame ∅ _ f _ Hw eq_refl) as H1. simpl in H1.
  destruct (poll_and_echo_advances host (SmoltcpBackend.push_frame f (SmoltcpBackend.inner m))) as (s' & Hs' & H2);
    [by eapply adv_wf|].
  exists s'. split; [done|]. split; [|eapply adv_wf; [exact H2|]; by eapply adv_wf].
  apply with_lock_ok; [done|]. by erewrite sm_bind_ok by done.
Qed.

(** A read returns the oldest outbound frame, whole if the buffer has room for
    the MTU. *)
Lemma read_frame_ok n host m :
  SmoltcpBackend.poisoned m = false -> wf (SmoltcpBackend.inner m) ->
  exists s1 f s', State.poll_and_echo (K := K) host (SmoltcpBackend.inner m) = (Ok tt, s1) /\
    SmoltcpBackend.smol_read_frame (K := K) n host m = (Ok f, SmoltcpBackend.mk s' false) /\ wf s' /\
    (length f <= n)%nat /\
    (DEVICE_MTU <= Z.of_nat n ->
       match SmoltDevice.stack_to_guest (State.device s1) with
       | [] => f = []
       | frame :: rest => f = frame /\ SmoltDevice.stack_to_guest (State.device s') = rest
       end).
Proof.
  intros Hp Hw. destruct (poll_and_echo_advances host (SmoltcpBackend.inner m) Hw) as (s1 & Hs1 & H1).
  assert (wf s1) as Hw1 by (by eapply adv_wf).
  pose proof (runs_pop_frame ∅ _ n s1 Hw1 eq_refl) as H2. destruct (wf_device s1 Hw1) as [_ Hf].
  destruct (SmoltcpBackend.pop_frame n s1) as [r s2] eqn:Hr. simpl in H2.
  unfold SmoltcpBackend.pop_frame in Hr.
  destruct (SmoltDevice.stack_to_guest (State.device s1)) as [|frame rest] eqn:Hst; simplify_eq.
  - exists s2, [], s2. split_and!; [done| |done|simpl; lia|by intros; rewrite Hst].
    apply with_lock_ok; [done|]. erewrite sm_bind_ok by exact Hs1. unfold SmoltcpBackend.pop_frame. by rewrite Hst.
  - exists s1, (take (length frame `min` n) frame).
    eexists. split_and!; [done| |by eapply adv_wf|rewrite length_take; lia|].
    + apply with_lock_ok; [done|]. erewrite sm_bind_ok by exact Hs1. unfold SmoltcpBackend.pop_frame. by rewrite Hst.
    + intros Hn. rewrite Hst. split; [|done]. apply Forall_cons in Hf as [Hf _]. unfold fits, zlen in Hf.
      rewrite take_ge; [done|lia].
Qed.

(** ** Handles of sockets that are gone *)

Lemma poll_and_echo_reaps host s h k :
  wf s -> Some h <> State.echo_handle s ->
  get h (State.poll (State.now host s) s) = Some k -> tcp_state k = Closed ->
  exists s', State.poll_and_echo (K := K) host s = (Ok tt, s') /\ wf s' /\ get h s' = None.
Proof.
  intros Hw Hh Hk Hc. unfold State.poll_and_echo. erewrite sm_bind_ok by done. erewrite sm_bind_ok by done.
  pose proof (poll_advances ∅ (State.now host s) s Hw) as H1.
  assert (wf (State.poll (State.now host s) s)) as Hw1 by (by eapply adv_wf).
  destruct (drive_echo_advances _ Hw1) as (s2 & Hs2 & H2 & Hg2). pose proof (adv_echo _ _ _ H1) as He1.
  erewrite sm_bind_ok by exact Hs2. erewrite sm_bind_ok by done. eexists. split; [done|].
  assert (wf (State.reap_closed_client_sockets s2)) as Hw3
    by (eapply adv_wf; [apply reap_advances|]; by eapply adv_wf).
  split; [by eapply adv_wf; [apply (poll_advances ∅)|]|].
  apply poll_handles; [by apply wf_device|]. rewrite reap_get, decide_True; [done|].
  apply dead_handles_spec. rewrite (adv_echo _ _ _ H2), He1. split; [done|].
  exists k. split; [|done]. rewrite Hg2; [done|]. by rewrite He1.
Qed.

Lemma poll_and_echo_absent host s h :
  wf s -> Some h <> State.echo_handle s -> get h s = None ->
  exists s', State.poll_and_echo (K := K) host s = (Ok tt, s') /\ wf s' /\ get h s' = None.
Proof.
  intros Hw Hh Hn. destruct (poll_and_echo_advances host s Hw) as (s' & Hs' & Ha). exists s'.
  split_and!; [done|by eapply adv_wf|]. destruct (get h s') as [k'|] eqn:Hg; [|done].
  destruct (adv_keeps _ _ _ Ha h Hh) with k' as (k & Hk & _); [set_solver|done|congruence].
Qed.

(** Every method on such a handle panics, with the lock held. *)
Lemma absent_handle_panics host m h n d :
  SmoltcpBackend.poisoned m = false -> wf (SmoltcpBackend.inner m) ->
  Some h <> State.echo_handle (SmoltcpBackend.inner m) -> get h (SmoltcpBackend.inner m) = None ->
  (exists s', SmoltcpBackend.socket_state (K := K) h m = (Err NoSuchSocket, SmoltcpBackend.mk s' true)) /\
  (exists s', SmoltcpBackend.socket_recv (K := K) h n host m = (Err NoSuchSocket, SmoltcpBackend.mk s' true)) /\
  (exists s', SmoltcpBackend.socket_send (K := K) h d host m = (Err NoSuchSocket, SmoltcpBackend.mk s' true)) /\
  (exists s', SmoltcpBackend.close_socket (K := K) h host m = (Err NoSuchSocket, SmoltcpBackend.mk s' true)).
Proof.
  intros Hp Hw Hh Hn. split_and!.
  - eexists. apply with_lock_panic; [done|]. eapply sm_bind_err. unfold State.get_mut. by rewrite Hn.
  - destruct (poll_and_echo_absent host _ h Hw Hh Hn) as (s' & Hs' & _ & Hn'). eexists.
    apply with_lock_panic; [done|]. erewrite sm_bind_ok by exact Hs'. eapply sm_bind_err. by apply with_socket_none.
  - eexists. apply with_lock_panic; [done|]. eapply sm_bind_err. by apply with_socket_none.
  - eexists. apply with_lock_panic; [done|]. eapply sm_bind_err. by apply with_socket_none.
Qed.

Lemma poisoned_stays host m c :
  SmoltcpBackend.poisoned m = true -> SmoltcpBackend.poisoned (run_call (K := K) host m c) = true.
Proof.
  intros Hp. assert (Hl : forall A (f : SM St Panic A), SmoltcpBackend.poisoned (SmoltcpBackend.with_lock f m).2 = true)
    by (intros A f; by rewrite with_lock_poisoned). destruct c; apply Hl.
Qed.

(** A handle without a socket stays so as long as no open is given its index:
    a call that uses it panics and poisons the lock. *)
Definition stale (h : Z) (m : SmoltcpBackend.t I SS) : Prop := SmoltcpBackend.poisoned m = true \/ get h (SmoltcpBackend.inner m) = None.

Lemma run_call_stale host m c h :
  wf (SmoltcpBackend.inner m) -> client_call (State.echo_handle (SmoltcpBackend.inner m)) c ->
  Some h <> State.echo_handle (SmoltcpBackend.inner m) -> h ∉ call_opens m c ->
  stale h m -> stale h (run_call (K := K) host m c).
Proof.
  intros Hw Hc Hh Ho Hs. destruct (SmoltcpBackend.poisoned m) eqn:Hp; [left; by apply poisoned_stays|].
  destruct Hs as [Hs|Hn]; [congruence|].
  destruct (decide (h ∈ call_uses m c)) as [Hu|Hu].
  - destruct (absent_handle_panics host m h) with (n := (if c is CRecv _ n then n else O)) (d := (if c is CSend _ d then d else []))
      as (_ & [s1 H1] & [s2 H2] & _); [done..|]. left.
    destruct c; simpl in Hu; try done; apply list_elem_of_singleton in Hu as <-; simpl; by rewrite ?H1, ?H2.
  - right. pose proof (run_call_touches host m c Hw Hc) as Ha.
    destruct (get h (SmoltcpBackend.inner (run_call host m c))) as [k|] eqn:Hk; [|done].
    destruct (adv_keeps _ _ _ Ha h Hh) with k as (k0 & Hk0 & _); [by rewrite elem_of_list_to_set|done|]. congruence.
Qed.

Lemma run_timed_stale cs h : forall m,
  wf (SmoltcpBackend.inner m) -> Forall (fun x => client_call (State.echo_handle (SmoltcpBackend.inner m)) x.2) cs ->
  Some h <> State.echo_handle (SmoltcpBackend.inner m) -> h ∉ opened m cs ->
  stale h m -> stale h (run_timed m cs).
Proof.
  induction cs as [|[host c] cs IH]; intros m Hw Hc Hh Ho Hs; [done|]. apply Forall_cons in Hc as [Hc Hcs]. simpl in Ho |- *.
  destruct (run_call_inv host m c Hw Hc) as (Hw' & He & _). apply not_elem_of_app in Ho as [Ho Ho'].
  apply IH; [done|by rewrite He|by rewrite He|done|]. by apply run_call_stale.
Qed.
End Backend.

(** ** As the back end of the network device

    The queue consumers see a back end that serves: its mutex is not poisoned and
    its invariant holds, and every frame they move keeps it so. [times] are the
    readings of the clock at the coming calls. *)

Module Serving.
Section Serving.
Context {I SS K : Type} `{!Smoltcp I SS K, !TcpStreams K, !SmoltcpLaws I SS K}.

Definition serves (m : SmoltcpBackend.t I SS) : Prop :=
  SmoltcpBackend.poisoned m = false /\ wf (K := K) (SmoltcpBackend.inner m).

Record t : Type := mk { server : SmoltcpBackend.t I SS; times : list Z; serving : serves server }.

Lemma read_serves n host m :
  serves m -> serves (SmoltcpBackend.smol_read_frame (K := K) n host m).2 /\
  exists f, (SmoltcpBackend.smol_read_frame (K := K) n host m).1 = Ok f /\ (length f <= n)%nat.
Proof.
  intros [Hp Hw]. destruct (read_frame_ok (K := K) n host m Hp Hw) as (s1 & f & s' & _ & Hr & Hw' & Hl & _).
  rewrite Hr. split; [done|]. by exists f.
Qed.

Lemma write_serves f host m :
  serves m -> serves (SmoltcpBackend.smol_write_frame (K := K) f host m).2 /\
  (SmoltcpBackend.smol_write_frame (K := K) f host m).1 = Ok tt.
Proof.
  intros [Hp Hw]. destruct (write_frame_ok (K := K) f host m Hp Hw) as (s' & _ & Hr & Hw'). by rewrite Hr.
Qed.

#[global] Instance serving_backend : NetworkBackend t := {|
  read_frame b n :=
    let host := hd 0 (times b) in
    (Ok (unwrap_or [] (SmoltcpBackend.smol_read_frame (K := K) n host (server b)).1),
     mk _ (tl (times b)) (proj1 (read_serves n host (server b) (serving b))));
  write_frame b f :=
    let host := hd 0 (times b) in
    (Ok tt, mk _ (tl (times b)) (proj1 (write_serves f host (server b) (serving b))));
|}.

#[global] Instance serving_laws : NetworkBackendLaws t.
Proof.
  split. intros b n f b'. simpl. intros [= <- _].
  destruct (proj2 (read_serves n (hd 0 (times b)) (server b) (serving b))) as (f & -> & Hl). exact Hl.
Qed.
End Serving.
End Serving.

(** ** The echo service over whole runs *)

(** From construction on and whatever calls the clients and the guest's frames
    make, in any order and at any times: what the echo service has sent back,
    followed by what it still holds, is a subsequence of what it has received
    (nothing invented, repeated or reordered, over any number of connections);
    and a step on a connection that is not over loses nothing: the bytes held
    before and the bytes received are the bytes sent and the bytes held after.
    The service's socket is always there. *)
Theorem smoltcp_echo_faithful {I SS K : Type} `{!Smoltcp I SS K, !TcpStreams K, !SmoltcpLaws I SS K}
    (cfg : BackendConfig.t) (host : Z) (m : SmoltcpBackend.t I SS) (calls : list (Z * Call)) (h : Z) :
  SmoltcpBackend.with_config (K := K) cfg host = Ok m ->
  State.echo_handle (SmoltcpBackend.inner m) = Some h ->
  Forall (fun x => client_call (Some h) x.2) calls ->
  let s := SmoltcpBackend.inner (run_timed (K := K) m calls) in
  exists k, set_get h (State.sockets s) = Some k /\
    sublist (accepted k ++ State.echo_pending s) (delivered k) /\
    (echo_ends k (State.echo_pending s) = false ->
     echoes_all (k, State.echo_pending s) (State.echo_socket (State.listen_port s) k (State.echo_pending s))).
Proof.
  intros Hm Hh Hc s. destruct (with_config_ok (I := I) (SS := SS) (K := K) cfg host) as (m' & Hm' & _ & Hw & Hi & _).
  rewrite Hm in Hm'. simplify_eq.
  destruct (run_timed_inv calls m' Hw) as (Hw' & He' & Hi'); [by rewrite Hh|].
  destruct (wf_echo _ Hw' h) as [k Hk]; [by rewrite He'|].
  exists k. split; [done|]. split; [|apply echo_socket_exact]. eapply Hi'; [done| |done]. by rewrite He'.
Qed.

(** A peer connects, sends two pieces and closes; the guest side collects the
    frames. *)
Definition sample_calls : list (Z * Call) :=
  [(1, CWriteFrame [Byte.x00; Byte.x00]);
   (2, CWriteFrame [Byte.x00; Byte.x01; Byte.x68; Byte.x69]);
   (3, CReadFrame 2048);
   (4, CWriteFrame [Byte.x00; Byte.x01; Byte.x21]);
   (5, COpen (mk_endpoint DEFAULT_GUEST_IPV4 80));
   (6, CWriteFrame [Byte.x00; Byte.x02])].

Lemma smoltcp_echo_faithful_witness :
  exists m : SmoltcpBackend.t unit (gmap Z Small.sock), SmoltcpBackend.new 0 = Ok m /\
  exists k, set_get 0 (State.sockets (SmoltcpBackend.inner (run_timed m sample_calls))) = Some k /\
    sublist (accepted k ++ State.echo_pending (SmoltcpBackend.inner (run_timed m sample_calls))) (delivered k) /\
    accepted k = [Byte.x68; Byte.x69; Byte.x21].
Proof.
  destruct (with_config_ok BackendConfig.default 0) as (m & Hm & _). exists m. split; [exact Hm|].
  assert (State.echo_handle (SmoltcpBackend.inner m) = Some 0) as He
    by (vm_compute in Hm; injection Hm as <-; reflexivity).
  destruct (smoltcp_echo_faithful BackendConfig.default 0 m sample_calls 0 Hm He) as (k & Hk & Hs & _).
  { repeat constructor; intros h [=]. }
  exists k. split; [exact Hk|]. split; [exact Hs|].
  vm_compute in Hm. injection Hm as <-. vm_compute in Hk. injection Hk as <-. reflexivity.
Defined.

(** ** A connection that closes while its handle is in use *)

Section Breaks.
Context {I SS K : Type} `{!Smoltcp I SS K}.

(** The call panics, on the missing socket or because an earlier panic poisoned
    the lock, and from then on the guest's frames do too, in both directions. *)
Definition breaks {A} (c : SM (SmoltcpBackend.t I SS) Panic A) (m : SmoltcpBackend.t I SS) : Prop :=
  exists m', c m = (Err (if SmoltcpBackend.poisoned m then MutexPoisoned else NoSuchSocket), m') /\
    SmoltcpBackend.poisoned m' = true /\ forall n f host,
    SmoltcpBackend.smol_read_frame (K := K) n host m' = (Err MutexPoisoned, m') /\
    SmoltcpBackend.smol_write_frame (K := K) f host m' = (Err MutexPoisoned, m').

Lemma poisoned_breaks {A} (c : SM (State.t I SS) Panic A) m :
  SmoltcpBackend.poisoned m = true -> breaks (SmoltcpBackend.with_lock c) m.
Proof.
  intros Hp. exists m. rewrite Hp. split; [by apply with_lock_poisoned|]. split; [done|].
  intros n f host. by split; apply with_lock_poisoned.
Qed.

Lemma panic_breaks {A} (c : SM (SmoltcpBackend.t I SS) Panic A) m :
  SmoltcpBackend.poisoned m = false ->
  (exists s', c m = (Err NoSuchSocket, SmoltcpBackend.mk s' true)) -> breaks c m.
Proof.
  intros Hp [s' Hc]. eexists. rewrite Hp. split; [exact Hc|]. split; [done|].
  intros n f host. by split; apply with_lock_poisoned.
Qed.
End Breaks.

(** C13: If a frame of the guest closes a client's connection (a RST, or the
    acknowledgement of the last FIN), the call that hands the frame over also
    removes the socket. After it, whatever calls the clients and the guest's
    frames make, in any order and at any times, until an open is given the same
    index: any method on the handle, [close_socket] included, panics, on the
    missing socket or on the lock such a panic has poisoned, and leaves the lock
    poisoned, on which every later frame of the guest panics. *)
Theorem smoltcp_stale_handle_poisons {I SS K : Type} `{!Smoltcp I SS K, !TcpStreams K, !SmoltcpLaws I SS K}
    (m : SmoltcpBackend.t I SS) (frame : bytes) (host h : Z) (k : K) :
  SmoltcpBackend.poisoned m = false -> wf (SmoltcpBackend.inner m) ->
  Some h <> State.echo_handle (SmoltcpBackend.inner m) ->
  set_get h (State.sockets (State.poll (State.now host (SmoltcpBackend.inner m))
                                       (SmoltcpBackend.push_frame frame (SmoltcpBackend.inner m)))) = Some k ->
  tcp_state k = Closed ->
  exists m1, SmoltcpBackend.smol_write_frame (K := K) frame host m = (Ok tt, m1) /\
    SmoltcpBackend.poisoned m1 = false /\
    forall calls,
      Forall (fun x => client_call (State.echo_handle (SmoltcpBackend.inner m)) x.2) calls ->
      h ∉ opened (K := K) m1 calls ->
      let m2 := run_timed (K := K) m1 calls in
      forall host1 n d,
        breaks (K := K) (SmoltcpBackend.socket_state (K := K) h) m2 /\
        breaks (K := K) (SmoltcpBackend.socket_recv (K := K) h n host1) m2 /\
        breaks (K := K) (SmoltcpBackend.socket_send (K := K) h d host1) m2 /\
        breaks (K := K) (SmoltcpBackend.close_socket (K := K) h host1) m2.
Proof.
  intros Hp Hw Hh Hk Hc. pose proof (runs_push_frame ∅ _ frame _ Hw eq_refl) as H1. simpl in H1.
  destruct (poll_and_echo_reaps host (SmoltcpBackend.push_frame frame (SmoltcpBackend.inner m)) h k)
    as (s' & Hs' & Hw' & Hn); [by eapply adv_wf|done|done|done|].
  destruct (write_frame_ok frame host m Hp Hw) as (s2 & Hs2 & Hwr & _).
  rewrite Hs2 in Hs'. simplify_eq. eexists. split; [exact Hwr|]. split; [done|]. intros calls Hcs Ho m2 host1 n d.
  destruct (poll_and_echo_advances host (SmoltcpBackend.push_frame frame (SmoltcpBackend.inner m)))
    as (s3 & Hs3 & Ha3); [by eapply adv_wf|]. rewrite Hs2 in Hs3. simplify_eq.
  assert (He : State.echo_handle s3 = State.echo_handle (SmoltcpBackend.inner m)) by apply Ha3.
  destruct (run_timed_inv calls (SmoltcpBackend.mk s3 false)) as (Hw2 & He2 & _); [done|simpl; by rewrite He|].
  pose proof (run_timed_stale calls h (SmoltcpBackend.mk s3 false)) as Hst. simpl in Hst, He2.
  destruct Hst as [Hp2|Hn2]; [done|by rewrite He|by rewrite He|done|by right|by split_and!; apply poisoned_breaks|].
  fold m2 in Hn2, Hw2, He2. destruct (SmoltcpBackend.poisoned m2) eqn:Hp2; [by split_and!; apply poisoned_breaks|].
  destruct (absent_handle_panics host1 m2 h n d) as (? & ? & ? & ?); [done|done|by rewrite He2, He|done|].
  split_and!; by apply panic_breaks.
Qed.

(** A client connects and the guest answers with a RST. *)
Definition sample_refused : SmoltcpBackend.t unit (gmap Z Small.sock) :=
  match SmoltcpBackend.with_listen_port 0 0 with
  | Ok m => (SmoltcpBackend.open_client_socket (mk_endpoint DEFAULT_GUEST_IPV4 80) 1 m).2
  | Err _ => SmoltcpBackend.mk (State.mk (SmoltDevice.new 0) tt ∅ None 0 0 [] 0) true
  end.

Lemma sample_refused_wf : wf (SmoltcpBackend.inner sample_refused).
Proof.
  unfold sample_refused. destruct (with_config_ok (BackendConfig.mk DEFAULT_HOST_IPV4 DEFAULT_HOST_MAC
    DEFAULT_GUEST_IPV4 0) 0) as (m & Hm & _ & Hw & _).
  change (SmoltcpBackend.with_listen_port 0 0) with (SmoltcpBackend.with_config (I := unit) (SS := gmap Z Small.sock)
    (BackendConfig.mk DEFAULT_HOST_IPV4 DEFAULT_HOST_MAC DEFAULT_GUEST_IPV4 0) 0).
  rewrite Hm. apply (run_call_inv 1 m (COpen (mk_endpoint DEFAULT_GUEST_IPV4 80)) Hw). by intros h [=].
Qed.

(** Another client's frame is read in between. *)
Lemma smoltcp_stale_handle_poisons_witness :
  SmoltcpBackend.poisoned sample_refused = false /\
  (SmoltcpBackend.socket_state 0 sample_refused).1 = Ok SynSent /\
  exists m1, SmoltcpBackend.smol_write_frame [Byte.x00; Byte.x04] 2 sample_refused = (Ok tt, m1) /\
    let m2 := run_timed m1 [(3, CReadFrame 2048); (4, CWriteFrame [])] in
    breaks (SmoltcpBackend.socket_state 0) m2 /\ breaks (SmoltcpBackend.close_socket 0 5) m2.
Proof.
  split; [vm_compute; reflexivity|]. split; [vm_compute; reflexivity|].
  destruct (smoltcp_stale_handle_poisons sample_refused [Byte.x00; Byte.x04] 2 0
              (Small.mk Closed [] [] None [] [])) as (m1 & Hm1 & _ & Hb).
  - vm_compute. reflexivity.
  - exact sample_refused_wf.
  - vm_compute. discriminate.
  - vm_compute. reflexivity.
  - reflexivity.
  - exists m1. split; [exact Hm1|].
    destruct (Hb [(3, CReadFrame 2048); (4, CWriteFrame [])]) with 5 0%nat ([] : bytes) as (H1 & _ & _ & H4).
    + repeat constructor; intros h [=].
    + simpl. apply not_elem_of_nil.
    + split; assumption.
Defined.
