(* ===== verification/TcpProxy.v ===== *)
(** * virtio-net: the TCP proxy

    Models [crates/virtio-net/src/tcp_proxy.rs]: a thread that bridges one
    accepted [TcpStream] to a client socket of the userspace back end. Other
    threads call the back end in between: [others] lists, for each of the
    bridge's own calls, the calls that take the lock before it. The clock is the
    host's, in nanoseconds, and a sleep lasts at least as long as asked for. The
    external stream is non-blocking: what it will do is a list of events, and
    [taken] and [sent] record the bytes read from and written to it. [touched]
    only records: the sockets the other threads' calls have opened, or moved bytes
    through, in the order they did. *)

From S2P Require Import Prelude GuestMemory VsockQueue VirtioQueue Mmio NetQueue Smoltcp SmoltcpProps.

Definition HANDSHAKE_TIMEOUT : Z := 5000000000.
Definition POLL_INTERVAL : Z := 1000000.
Definition BRIDGE_BUFFER_BYTES : nat := 4096.

(** The kinds of [io::Error] the code makes or tells apart. *)
Inductive StreamError : Type :=
| WouldBlock
| ConnectionRefused
| TimedOut
| WriteZero
| OsError (code : Z).

(** ** The external stream *)

Module TcpStream.
Inductive ReadEvent : Type := Data (b : Byte.byte) (bs : bytes) | Quiet | Eof | ReadFails (code : Z).
Inductive WriteEvent : Type := Room (n : nat) | Full | WriteFails (code : Z).

Record t : Type := mk {
  incoming : list ReadEvent;
  capacity : list WriteEvent;
  fionbio : option Z;
  taken : bytes;
  sent : bytes;
}.

Definition set_nonblocking : SM t StreamError unit := fun x =>
  (match fionbio x with None => Ok tt | Some e => Err (OsError e) end, x).

(** [stream.read(&mut buf)], the buffer having [n] bytes; no bytes is the end. *)
Definition read (n : nat) : SM t StreamError bytes := fun x =>
  match incoming x with
  | [] => (Err WouldBlock, x)
  | Quiet :: rest => (Err WouldBlock, mk rest (capacity x) (fionbio x) (taken x) (sent x))
  | Eof :: _ => (Ok [], x)
  | ReadFails e :: rest => (Err (OsError e), mk rest (capacity x) (fionbio x) (taken x) (sent x))
  | Data b bs :: rest =>
      let got := take n (b :: bs) in
      let rest := match drop n (b :: bs) with [] => rest | b' :: bs' => Data b' bs' :: rest end in
      (Ok got, mk rest (capacity x) (fionbio x) (taken x ++ got) (sent x))
  end.

(** [stream.write(data)]; a stream whose events are over takes everything. *)
Definition write (data : bytes) : SM t StreamError nat := fun x =>
  match capacity x with
  | [] => (Ok (length data), mk (incoming x) [] (fionbio x) (taken x) (sent x ++ data))
  | Room n :: rest =>
      let n := Nat.min n (length data) in
      (Ok n, mk (incoming x) rest (fionbio x) (taken x) (sent x ++ take n data))
  | Full :: rest => (Err WouldBlock, mk (incoming x) rest (fionbio x) (taken x) (sent x))
  | WriteFails e :: rest => (Err (OsError e), mk (incoming x) rest (fionbio x) (taken x) (sent x))
  end.
End TcpStream.

(** ** The bridge *)

(** An error of the method, a panic of the thread, or a loop that has not ended
    within its count. *)
Inductive Failure : Type := Failed (e : StreamError) | Panicked (p : Panic) | Unfinished.

Module TcpProxy.
Section Proxy.
Context {I SS K : Type} `{!Smoltcp I SS K}.

Record world : Type := mk_world {
  backend : SmoltcpBackend.t I SS;
  stream : TcpStream.t;
  clock : Z;
  others : list (list Call);
  naps : list Z;
  touched : list Z;
}.
Abbreviation W := (SM world Failure).

(** One call of the back end, after those of the other threads. *)
Definition call {A} (c : Z -> SM (SmoltcpBackend.t I SS) Panic A) : W A := fun w =>
  let used := calls_use (K := K) (clock w) (backend w) (hd [] (others w)) in
  let b := run_calls (K := K) (clock w) (backend w) (hd [] (others w)) in
  let (r, b) := c (clock w) b in
  (map_err Panicked r, mk_world b (stream w) (clock w) (tl (others w)) (naps w) (touched w ++ used)).

(** A call of the stream, with its outcome as a value. *)
Definition io {A} (c : SM TcpStream.t StreamError A) : W (result StreamError A) := fun w =>
  let (r, x) := c (stream w) in
  (Ok r, mk_world (backend w) x (clock w) (others w) (naps w) (touched w)).

(** [thread::sleep(POLL_INTERVAL)] *)
Definition sleep : W unit := fun w =>
  (Ok tt, mk_world (backend w) (stream w)
            (clock w + POLL_INTERVAL + Z.max 0 (hd 0 (naps w))) (others w) (tl (naps w)) (touched w)).

(** [Result]s that the caller looks at; a panic unwinds past it. *)
Definition attempt {A} (c : W A) : W (result StreamError A) := fun w =>
  match c w with
  | (Ok a, w) => (Ok (Ok a), w)
  | (Err (Failed e), w) => (Ok (Err e), w)
  | (Err e, w) => (Err e, w)
  end.

Fixpoint handshake_loop (fuel : nat) (handle : Z) (start : Z) : W unit :=
  match fuel with
  | O => sm_fail Unfinished
  | S fuel =>
      st ← call (fun _ => SmoltcpBackend.socket_state (K := K) handle);
      match st with
      | Established => mret tt
      | Closed => sm_fail (Failed ConnectionRefused)
      | _ =>
          now ← sm_gets clock;
          if HANDSHAKE_TIMEOUT <? now - start then sm_fail (Failed TimedOut)
          else _ ← sleep; handshake_loop fuel handle start
      end
  end.

(** The sleeps that fit into the timeout, and the polls around them. *)
Definition handshake_polls : nat := Z.to_nat (HANDSHAKE_TIMEOUT / POLL_INTERVAL + 2).

Definition wait_for_handshake (handle : Z) : W unit :=
  start ← sm_gets clock;
  handshake_loop handshake_polls handle start.

(** The [while !data.is_empty()] loop. *)
Fixpoint write_loop (fuel : nat) (data : bytes) : W unit :=
  if bool_decide (data = []) then mret tt else
  match fuel with
  | O => sm_fail Unfinished
  | S fuel =>
      r ← io (TcpStream.write data);
      match r with
      | Ok O => sm_fail (Failed WriteZero)
      | Ok n => write_loop fuel (drop n data)
      | Err WouldBlock => _ ← sleep; write_loop fuel data
      | Err e => sm_fail (Failed e)
      end
  end.

(** Every write takes a byte or one of the stream's events. *)
Definition write_all_nonblocking (data : bytes) : W unit := fun w =>
  write_loop (length data + length (TcpStream.capacity (stream w))) data w.

(** The locals [pending_to_smoltcp] and [external_eof] of [pump_bytes]. *)
Record pump : Type := mk_pump { pending : bytes; external_eof : bool }.

(** Direction 1a, with [did_work]. *)
Definition flush_pending (handle : Z) (p : pump) : W (pump * bool) :=
  if bool_decide (pending p = []) then mret (p, false)
  else
    w ← call (SmoltcpBackend.socket_send (K := K) handle (pending p));
    if (0 <? w)%nat then mret (mk_pump (drop w (pending p)) (external_eof p), true)
    else mret (p, false).

(** Direction 1b. *)
Definition read_external (handle : Z) (p : pump) (did_work : bool) : W (pump * bool) :=
  if negb (external_eof p) && bool_decide (pending p = []) then
    r ← io (TcpStream.read BRIDGE_BUFFER_BYTES);
    match r with
    | Ok [] =>
        _ ← call (SmoltcpBackend.close_socket (K := K) handle);
        mret (mk_pump (pending p) true, did_work)
    | Ok buf =>
        written ← call (SmoltcpBackend.socket_send (K := K) handle buf);
        let pending' := if (written <? length buf)%nat then pending p ++ drop written buf else pending p in
        mret (mk_pump pending' (external_eof p), true)
    | Err WouldBlock => mret (p, did_work)
    | Err e => sm_fail (Failed e)
    end
  else mret (p, did_work).

(** Direction 2: the number of bytes moved. *)
Definition drain_guest (handle : Z) : W nat :=
  buf ← call (SmoltcpBackend.socket_recv (K := K) handle BRIDGE_BUFFER_BYTES);
  _ ← (if (0 <? length buf)%nat then write_all_nonblocking buf else mret tt);
  mret (length buf).

(** The two exits at the end of an iteration. *)
Definition pump_done (p : pump) (n : nat) (st : TcpState) : bool :=
  (external_eof p && bool_decide (pending p = []) && (n =? 0)%nat &&
   bool_decide (st = Closed \/ st = TimeWait \/ st = CloseWait)) ||
  (bool_decide (pending p = []) && (n =? 0)%nat && bool_decide (st = Closed)).

(** One iteration of the loop: [None] when it returns. *)
Definition pump_iteration (handle : Z) (p : pump) : W (option pump) :=
  '(p, work) ← flush_pending handle p;
  '(p, work) ← read_external handle p work;
  n ← drain_guest handle;
  st ← call (fun _ => SmoltcpBackend.socket_state (K := K) handle);
  if pump_done p n st then mret None
  else
    _ ← (if work || (0 <? n)%nat then mret tt else sleep);
    mret (Some p).

Fixpoint pump_loop (fuel : nat) (handle : Z) (p : pump) : W unit :=
  match fuel with
  | O => sm_fail Unfinished
  | S fuel =>
      next ← pump_iteration handle p;
      match next with
      | None => mret tt
      | Some p => pump_loop fuel handle p
      end
  end.

Definition pump_bytes (fuel : nat) (handle : Z) : W unit :=
  pump_loop fuel handle (mk_pump [] false).

Definition bridge_connection (fuel : nat) (guest_endpoint : IpEndpoint) : W unit :=
  r ← io TcpStream.set_nonblocking;
  match r with
  | Err e => sm_fail (Failed e)
  | Ok _ =>
      handle ← call (SmoltcpBackend.open_client_socket (K := K) guest_endpoint);
      hs ← attempt (wait_for_handshake handle);
      match hs with
      | Err e =>
          _ ← call (SmoltcpBackend.close_socket (K := K) handle);
          sm_fail (Failed e)
      | Ok _ =>
          result ← attempt (pump_bytes fuel handle);
          _ ← call (SmoltcpBackend.close_socket (K := K) handle);
          match result with Ok _ => mret tt | Err e => sm_fail (Failed e) end
      end
  end.
End Proxy.
Arguments world : clear implicits.
End TcpProxy.
