(* ===== verification/TcpProxyProps.v ===== *)
(** * virtio-net: what the TCP proxy guarantees

    The two byte streams of a bridged connection while other threads use the back
    end, the end of the handshake and of the writes, and runs on a small stack. *)

From S2P Require Import Prelude GuestMemory VsockQueue VirtioQueue Mmio NetQueue Smoltcp SmoltcpProps TcpProxy.

Section Bridge.
Context {I SS K : Type} `{!Smoltcp I SS K, !TcpStreams K, !SmoltcpLaws I SS K}.
Abbreviation World := (TcpProxy.world I SS).
Implicit Types (w : World) (m : SmoltcpBackend.t I SS) (h : Z).

Abbreviation get h m := (set_get h (State.sockets (SmoltcpBackend.inner m))).
Abbreviation echo m := (State.echo_handle (SmoltcpBackend.inner m)).

(** ** The bridge's own calls, and those of others *)

(** The bytes a stretch of the run moved through the socket [h], if it is still
    there at the end. *)
Definition tracks h m m' (up down : bytes) : Prop := forall k', get h m' = Some k' ->
  exists k : K, get h m = Some k /\ accepted k' = accepted k ++ up /\ delivered k' = delivered k ++ down.

Lemma tracks_trans h m1 m2 m3 up1 down1 up2 down2 :
  tracks h m1 m2 up1 down1 -> tracks h m2 m3 up2 down2 ->
  tracks h m1 m3 (up1 ++ up2) (down1 ++ down2).
Proof.
  intros H1 H2 k3 Hk3. destruct (H2 k3 Hk3) as (k2 & Hk2 & Ha2 & Hd2).
  destruct (H1 k2 Hk2) as (k1 & Hk1 & Ha1 & Hd1). exists k1. rewrite Ha2, Ha1, Hd2, Hd1, !app_assoc. done.
Qed.

Lemma advances_tracks X h m m' :
  advances (K := K) X (SmoltcpBackend.inner m) (SmoltcpBackend.inner m') ->
  Some h <> echo m -> h ∉ X -> tracks h m m' [] [].
Proof.
  intros Ha Hh HX k' Hk'. destruct (adv_keeps _ _ _ Ha h Hh HX k' Hk') as (k & Hk & Hd & Hac).
  exists k. by rewrite !app_nil_r.
Qed.

(** The calls of other threads, opens included: the socket [h] keeps its streams
    unless they open its index anew or move bytes through it. *)
Lemma run_calls_tracks host cs : forall m h,
  wf (K := K) (SmoltcpBackend.inner m) -> Some h <> echo m -> Forall (client_call (echo m)) cs ->
  let m' := run_calls (K := K) host m cs in
  wf (K := K) (SmoltcpBackend.inner m') /\ echo m' = echo m /\
  (h ∉ calls_use (K := K) host m cs -> tracks h m m' [] []).
Proof.
  induction cs as [|c cs IH]; intros m h Hw Hh Hcs; simpl.
  - split_and!; [done|done|]. intros _ k Hk. exists k. by rewrite !app_nil_r.
  - apply Forall_cons in Hcs as [Hc Hcs]. pose proof (run_call_touches host m c Hw Hc) as Ha. pose proof (adv_echo _ _ _ Ha) as He.
    destruct (IH (run_call (K := K) host m c) h) as (Hw' & He' & Ht'); [by eapply adv_wf|congruence|by rewrite He|].
    split_and!; [done|congruence|]. intros [Hu Hus]%not_elem_of_app. change ([] : bytes) with (([] : bytes) ++ []).
    eapply tracks_trans; [eapply advances_tracks; [done..|by rewrite elem_of_list_to_set]|by apply Ht'].
Qed.

(** What one call of the bridge does when it returns. *)
Definition acts {A} h (c : SM (SmoltcpBackend.t I SS) Panic A) (up down : A -> bytes) : Prop :=
  forall m a m', wf (K := K) (SmoltcpBackend.inner m) -> Some h <> echo m -> c m = (Ok a, m') ->
  wf (K := K) (SmoltcpBackend.inner m') /\ echo m' = echo m /\ tracks h m m' (up a) (down a).

Lemma with_lock_inv {A} (c : SM (State.t I SS) Panic A) m a m' :
  SmoltcpBackend.with_lock c m = (Ok a, m') ->
  c (SmoltcpBackend.inner m) = (Ok a, SmoltcpBackend.inner m').
Proof.
  unfold SmoltcpBackend.with_lock. destruct (SmoltcpBackend.poisoned m); [done|].
  destruct (c _) as [r s]. by intros [= -> <-].
Qed.

Lemma with_socket_inv {A} h (f : K -> A * K) (s : State.t I SS) a s' :
  State.with_socket h f s = (Ok a, s') ->
  exists k, set_get h (State.sockets s) = Some k /\ a = (f k).1 /\ set_get h (State.sockets s') = Some (f k).2.
Proof.
  intros Hs. destruct (set_get h (State.sockets s)) as [k|] eqn:Hk.
  - rewrite (with_socket_some h f s k Hk) in Hs. simplify_eq. exists k. split_and!; [done..|].
    simpl. by erewrite set_get_put, decide_True.
  - by rewrite with_socket_none in Hs.
Qed.

Lemma own_call_wf h host m c m' :
  run_call (K := K) host m c = m' -> call_handle c = Some h ->
  wf (K := K) (SmoltcpBackend.inner m) -> Some h <> echo m ->
  wf (K := K) (SmoltcpBackend.inner m') /\ echo m' = echo m.
Proof.
  intros <- Hc Hw Hh. assert (client_call (echo m) c) as Hcc by (intros h' ?; by simplify_eq).
  destruct (run_call_inv host m c Hw Hcc) as (? & ? & _). done.
Qed.

Lemma send_acts h d host :
  acts h (SmoltcpBackend.socket_send (K := K) h d host) (fun n => take n d) (fun _ => []).
Proof.
  intros m n m' Hw Hh Hs.
  destruct (own_call_wf h host m (CSend h d) m') as [Hw' He']; [simpl; by rewrite Hs|done..|].
  split_and!; [done|done|]. apply with_lock_inv in Hs. apply sm_bind_inv in Hs as (r & s1 & H1 & Hs).
  apply sm_bind_inv in Hs as ([] & s2 & H2 & Hs). injection Hs as <- Hs2.
  pose proof (runs_with_socket {[h]} _ h (tcp_send_slice d) Hh (or_introl (proj2 (elem_of_singleton h h) eq_refl))
    _ Hw eq_refl) as Ha1. rewrite H1 in Ha1. simpl in Ha1.
  destruct (poll_and_echo_advances (K := K) host s1) as (s2' & Hp & Ha2); [by eapply adv_wf|].
  rewrite H2 in Hp. simplify_eq. intros k' Hk'.
  destruct (adv_keeps _ _ _ Ha2 h) with k' as (k1 & Hk1 & Hd1 & Hac1);
    [by rewrite (adv_echo _ _ _ Ha1)|set_solver|done|].
  apply with_socket_inv in H1 as (k & Hk & -> & Hk1'). rewrite Hk1' in Hk1. simplify_eq.
  destruct (tcp_send_slice d k) as [r k2] eqn:Hr. apply tcp_send_streams in Hr as (_ & Hd & Hac).
  exists k. simpl in *. by rewrite Hac1, Hac, Hd1, Hd, app_nil_r.
Qed.

Lemma recv_acts h n host :
  acts h (SmoltcpBackend.socket_recv (K := K) h n host) (fun _ => []) (fun buf => buf).
Proof.
  intros m buf m' Hw Hh Hs.
  destruct (own_call_wf h host m (CRecv h n) m') as [Hw' He']; [simpl; by rewrite Hs|done..|].
  split_and!; [done|done|]. apply with_lock_inv in Hs. apply sm_bind_inv in Hs as ([] & s1 & H1 & Hs).
  apply sm_bind_inv in Hs as (r & s2 & H2 & Hs). injection Hs as <- Hs2.
  destruct (poll_and_echo_advances (K := K) host _ Hw) as (s1' & Hp & Ha1).
  rewrite H1 in Hp. simplify_eq. apply with_socket_inv in H2 as (k1 & Hk1 & -> & Hk2).
  intros k' Hk'. rewrite Hk2 in Hk'. injection Hk' as <-.
  destruct (adv_keeps _ _ _ Ha1 h) with k1 as (k & Hk & Hd1 & Hac1); [done|set_solver|done|].
  destruct (tcp_recv_slice n k1) as [r k2] eqn:Hr. apply tcp_recv_streams in Hr as (_ & Hd & Hac).
  exists k. simpl in *. by rewrite Hac, Hac1, Hd, Hd1, app_nil_r.
Qed.

Lemma quiet_acts {A} h (c : SM (SmoltcpBackend.t I SS) Panic A) host q :
  (forall m, (c m).2 = run_call (K := K) host m q) -> call_handle q = Some h ->
  is_open_call q = false -> call_moves q = ∅ -> acts h c (fun _ => []) (fun _ => []).
Proof.
  intros Hc Hq Ho Hm m a m' Hw Hh Hs. assert (run_call (K := K) host m q = m') as Hr by (by rewrite <- Hc, Hs).
  destruct (own_call_wf h host m q m' Hr Hq Hw Hh) as [Hw' He']. split_and!; [done|done|].
  subst m'. eapply advances_tracks; [apply run_call_advances; [done| |done]|done|rewrite Hm; set_solver].
  intros h' ?. by simplify_eq.
Qed.

Lemma close_acts h host : acts h (SmoltcpBackend.close_socket (K := K) h host) (fun _ => []) (fun _ => []).
Proof. by eapply (quiet_acts h _ host (CClose h)). Qed.

Lemma state_acts h : acts h (SmoltcpBackend.socket_state (K := K) h) (fun _ => []) (fun _ => []).
Proof. by eapply (quiet_acts h _ 0 (CState h)). Qed.

Lemma state_present h m st m' :
  SmoltcpBackend.socket_state (K := K) h m = (Ok st, m') -> exists k : K, get h m' = Some k /\ tcp_state k = st.
Proof.
  intros Hs. apply with_lock_inv in Hs. apply sm_bind_inv in Hs as (k & s1 & H1 & Hs). injection Hs as <- <-. unfold State.get_mut in H1.
  destruct (set_get h _) as [k0|] eqn:Hk; simplify_eq. by exists k.
Qed.

(** ** The streams of a bridge *)

(** The bridge's socket is [h], and the other threads are clients: none uses the
    echo service's handle. *)
Record attends h w : Prop := mk_attends {
  at_wf : wf (K := K) (SmoltcpBackend.inner (TcpProxy.backend w));
  at_client : Some h <> echo (TcpProxy.backend w);
  at_others : Forall (Forall (client_call (echo (TcpProxy.backend w)))) (TcpProxy.others w);
}.

Abbreviation taken w := (TcpStream.taken (TcpProxy.stream w)).
Abbreviation sent w := (TcpStream.sent (TcpProxy.stream w)).

(** The bytes a stretch of the run took from the client, gave to the socket, got
    from it and sent to the client. *)
Record moved h w w' (tk up down st : bytes) : Prop := mk_moved {
  mv_attends : attends h w';
  mv_taken : taken w' = taken w ++ tk;
  mv_sent : sent w' = sent w ++ st;
  mv_tracks : exists used, TcpProxy.touched w' = TcpProxy.touched w ++ used /\
    (h ∉ used -> tracks h (TcpProxy.backend w) (TcpProxy.backend w') up down);
}.

(** A stretch without calls of the back end. *)
Lemma still_tracks h w w' :
  TcpProxy.touched w' = TcpProxy.touched w -> TcpProxy.backend w' = TcpProxy.backend w ->
  exists used, TcpProxy.touched w' = TcpProxy.touched w ++ used /\
    (h ∉ used -> tracks h (TcpProxy.backend w) (TcpProxy.backend w') [] []).
Proof.
  intros Ht Hb. exists []. rewrite Ht, Hb, app_nil_r. split; [done|]. intros _ k Hk. exists k. by rewrite !app_nil_r.
Qed.

Lemma moved_refl h w : attends h w -> moved h w w [] [] [] [].
Proof.
  intros Ha. split; [done|by rewrite app_nil_r..|]. by apply still_tracks.
Qed.

Lemma moved_trans h w1 w2 w3 tk1 up1 down1 st1 tk2 up2 down2 st2 :
  moved h w1 w2 tk1 up1 down1 st1 -> moved h w2 w3 tk2 up2 down2 st2 ->
  moved h w1 w3 (tk1 ++ tk2) (up1 ++ up2) (down1 ++ down2) (st1 ++ st2).
Proof.
  intros [Ha1 Ht1 Hs1 (l1 & Hl1 & Hr1)] [Ha2 Ht2 Hs2 (l2 & Hl2 & Hr2)]. split; [done| | |].
  - by rewrite Ht2, Ht1, app_assoc.
  - by rewrite Hs2, Hs1, app_assoc.
  - exists (l1 ++ l2). rewrite Hl2, Hl1, app_assoc. split; [done|]. intros [H1 H2]%not_elem_of_app.
    eapply tracks_trans; auto.
Qed.

Lemma call_moved {A} h w (c : Z -> SM (SmoltcpBackend.t I SS) Panic A) a w' up down :
  attends h w -> acts h (c (TcpProxy.clock w)) up down -> TcpProxy.call (K := K) c w = (Ok a, w') ->
  moved h w w' [] (up a) (down a) [].
Proof.
  intros [Hw Hh Ho] Hc. unfold TcpProxy.call.
  assert (Forall (client_call (echo (TcpProxy.backend w))) (hd [] (TcpProxy.others w)) /\
          Forall (Forall (client_call (echo (TcpProxy.backend w)))) (tl (TcpProxy.others w))) as [H1 H2]
    by (destruct (TcpProxy.others w); [by split|by apply Forall_cons in Ho]).
  destruct (run_calls_tracks (TcpProxy.clock w) _ _ h Hw Hh H1) as (Hw1 & He1 & Ht1).
  destruct (c _ _) as [[a'|e] b] eqn:Hr; [|done]. intros [= -> <-].
  destruct (Hc _ _ _ Hw1 ltac:(congruence) Hr) as (Hw2 & He2 & Ht2).
  split; simpl; [|by rewrite app_nil_r..|].
  - split; simpl; [done|congruence|by rewrite He2, He1].
  - eexists. split; [done|]. intros Hu. eapply (tracks_trans h _ _ _ [] []); auto.
Qed.

Lemma sleep_moved h w : attends h w -> moved h w (TcpProxy.sleep w).2 [] [] [] [].
Proof. intros Ha. destruct (moved_refl h w Ha) as [? ? ? ?]. by destruct Ha. Qed.

(** The stream moves; nothing else does. *)
Lemma io_moved {A} h w (c : SM TcpStream.t StreamError A) r w' tk st :
  attends h w -> TcpProxy.io c w = (Ok r, w') ->
  TcpStream.taken (c (TcpProxy.stream w)).2 = taken w ++ tk ->
  TcpStream.sent (c (TcpProxy.stream w)).2 = sent w ++ st ->
  moved h w w' tk [] [] st.
Proof.
  intros [Hw Hh Ho]. unfold TcpProxy.io. destruct (c _) as [r' x]. intros [= -> <-] Ht Hs.
  split; [done|done|done|]. by apply still_tracks.
Qed.

Lemma read_moved h n w r w' :
  attends h w -> TcpProxy.io (TcpStream.read n) w = (Ok r, w') ->
  moved h w w' (unwrap_or [] r) [] [] [].
Proof.
  intros Ha Hr. assert (r = (TcpStream.read n (TcpProxy.stream w)).1) as ->
    by (unfold TcpProxy.io in Hr; destruct (TcpStream.read n _); by simplify_eq).
  eapply io_moved; [done|exact Hr|..]; unfold TcpStream.read;
    destruct (TcpStream.incoming _) as [|[] ?]; simpl; by rewrite ?app_nil_r.
Qed.

Lemma write_moved h d w r w' :
  attends h w -> TcpProxy.io (TcpStream.write d) w = (Ok r, w') ->
  moved h w w' [] [] [] (take (unwrap_or 0%nat r) d).
Proof.
  intros Ha Hr. assert (r = (TcpStream.write d (TcpProxy.stream w)).1) as ->
    by (unfold TcpProxy.io in Hr; destruct (TcpStream.write d _); by simplify_eq).
  eapply io_moved; [done|exact Hr|..]; unfold TcpStream.write;
    destruct (TcpStream.capacity _) as [|[] ?]; simpl; rewrite ?app_nil_r, ?firstn_all; done.
Qed.

Lemma write_loop_moved h fuel : forall d w w',
  attends h w -> TcpProxy.write_loop fuel d w = (Ok tt, w') -> moved h w w' [] [] [] d.
Proof.
  induction fuel as [|fuel IH]; intros d w w' Ha; simpl; case_bool_decide as Hd.
  - subst d. intros [= <-]. by apply moved_refl.
  - done.
  - subst d. intros [= <-]. by apply moved_refl.
  - intros (r & w1 & H1 & H2)%sm_bind_inv. pose proof (write_moved h d w r w1 Ha H1) as Hm.
    pose proof (mv_attends _ _ _ _ _ _ _ Hm) as Ha1. destruct r as [[|n]|[]]; try done.
    + rewrite <- (take_drop (S n) d). eapply (moved_trans h _ _ _ [] [] []); [exact Hm|]. by apply IH.
    + apply sm_bind_inv in H2 as ([] & w2 & H2 & H3). injection H2 as <-.
      pose proof (sleep_moved h w1 Ha1) as Hs. eapply (moved_trans h _ _ _ [] [] [] []); [exact Hm|].
      eapply (moved_trans h _ _ _ [] [] [] []); [exact Hs|]. apply IH; [|done]. by eapply mv_attends.
Qed.

(** ** One iteration *)

Lemma flush_moved h p w x w' :
  attends h w -> TcpProxy.flush_pending (K := K) h p w = (Ok x, w') ->
  exists up, moved h w w' [] up [] [] /\ TcpProxy.pending p = up ++ TcpProxy.pending x.1 /\
    TcpProxy.external_eof x.1 = TcpProxy.external_eof p.
Proof.
  intros Ha. unfold TcpProxy.flush_pending. case_bool_decide as Hp.
  - intros [= <- <-]. exists []. split; [by apply moved_refl|done].
  - intros (n & w1 & H1 & H2)%sm_bind_inv.
    pose proof (call_moved h w _ n w1 _ _ Ha (send_acts h (TcpProxy.pending p) _) H1) as Hm.
    destruct (Nat.ltb_spec 0 n) as [Hn|Hn]; injection H2 as <- <-; eexists; split; [exact Hm| |exact Hm|].
    + simpl. by rewrite take_drop.
    + by assert (n = 0)%nat as -> by lia.
Qed.

Lemma read_external_moved h p work w x w' :
  attends h w -> TcpProxy.read_external (K := K) h p work w = (Ok x, w') ->
  exists tk up, moved h w w' tk up [] [] /\ TcpProxy.pending p ++ tk = up ++ TcpProxy.pending x.1.
Proof.
  intros Ha. unfold TcpProxy.read_external. destruct (negb _ && _) eqn:Hp.
  - apply andb_true_iff in Hp as [_ Hp%bool_decide_eq_true]. intros (r & w1 & H1 & H2)%sm_bind_inv.
    pose proof (read_moved h _ w r w1 Ha H1) as Hm. pose proof (mv_attends _ _ _ _ _ _ _ Hm) as Ha1.
    destruct r as [[|b bs]|[]]; try done.
    + apply sm_bind_inv in H2 as ([] & w2 & H2 & H3). injection H3 as <- <-. exists [], []. split; [|simpl; by rewrite app_nil_r].
      eapply (moved_trans h _ _ _ [] [] [] []); [exact Hm|]. exact (call_moved h w1 _ tt w2 _ _ Ha1 (close_acts h _) H2).
    + apply sm_bind_inv in H2 as (n & w2 & H2 & H3). injection H3 as <- <-.
      exists (b :: bs), (take n (b :: bs)). split.
      * rewrite <- (app_nil_r (b :: bs)) at 1. eapply (moved_trans h _ _ _ _ [] [] []); [exact Hm|].
        exact (call_moved h w1 _ n w2 _ _ Ha1 (send_acts h (b :: bs) _) H2).
      * cbn [TcpProxy.pending fst]. rewrite Hp, !app_nil_l.
        destruct (Nat.ltb_spec n (S (length bs))); [by rewrite take_drop|].
        by rewrite take_ge, app_nil_r by (simpl; lia).
    + injection H2 as <- <-. exists [], []. split; [done|]. by rewrite app_nil_r.
  - intros [= <- <-]. exists [], []. split; [by apply moved_refl|]. by rewrite app_nil_r.
Qed.

Lemma drain_moved h w n w' :
  attends h w -> TcpProxy.drain_guest (K := K) h w = (Ok n, w') -> exists d, moved h w w' [] [] d d /\ n = length d.
Proof.
  intros Ha. intros (buf & w1 & H1 & H2)%sm_bind_inv. apply sm_bind_inv in H2 as ([] & w2 & H2 & H3).
  injection H3 as <- <-. exists buf. split; [|done].
  pose proof (call_moved h w _ buf w1 _ _ Ha (recv_acts h _ _) H1) as Hm. pose proof (mv_attends _ _ _ _ _ _ _ Hm) as Ha1.
  destruct (Nat.ltb_spec 0 (length buf)) as [Hn|Hn].
  - rewrite <- (app_nil_r buf) at 1. eapply (moved_trans h _ _ _ [] [] _ []); [exact Hm|]. by eapply write_loop_moved.
  - injection H2 as <-. destruct buf; [done|simpl in Hn; lia].
Qed.

(** An iteration that does not fail leaves the socket in place. *)
Lemma iteration_moved h p w o w' :
  attends h w -> TcpProxy.pump_iteration (K := K) h p w = (Ok o, w') ->
  exists tk up d, moved h w w' tk up d d /\
    TcpProxy.pending p ++ tk = up ++ (if o is Some q then TcpProxy.pending q else []) /\
    exists k : K, get h (TcpProxy.backend w') = Some k.
Proof.
  intros Ha. intros ([p1 wk1] & w1 & H1 & H)%sm_bind_inv. destruct (flush_moved h p w _ w1 Ha H1) as (up1 & M1 & E1 & _).
  apply sm_bind_inv in H as ([p2 wk2] & w2 & H2 & H).
  destruct (read_external_moved h p1 wk1 w1 _ w2 (mv_attends _ _ _ _ _ _ _ M1) H2) as (tk & up2 & M2 & E2).
  apply sm_bind_inv in H as (n & w3 & H3 & H).
  destruct (drain_moved h w2 n w3 (mv_attends _ _ _ _ _ _ _ M2) H3) as (d & M3 & ->).
  apply sm_bind_inv in H as (st & w4 & H4 & H).
  pose proof (call_moved h w3 _ st w4 _ _ (mv_attends _ _ _ _ _ _ _ M3) (state_acts h) H4) as M4.
  assert (exists k : K, get h (TcpProxy.backend w4) = Some k) as (k & Hk).
  { unfold TcpProxy.call in H4. destruct (SmoltcpBackend.socket_state _ _) as [[?|?] b] eqn:Hs; [|done].
    injection H4 as _ <-. destruct (state_present h _ _ _ Hs) as (k & ? & _). by exists k. }
  simpl in E1, E2.
  pose proof (moved_trans h _ _ _ _ _ _ _ _ _ _ _ (moved_trans h _ _ _ _ _ _ _ _ _ _ _
    (moved_trans h _ _ _ _ _ _ _ _ _ _ _ M1 M2) M3) M4) as M.
  rewrite !app_nil_r, !app_nil_l in M. assert (TcpProxy.pending p ++ tk = (up1 ++ up2) ++ TcpProxy.pending p2) as E
    by (by rewrite E1, <- !app_assoc, E2).
  exists tk, (up1 ++ up2), d. destruct (TcpProxy.pump_done p2 _ st) eqn:Hd.
  - injection H as <- <-. split_and!; [done| |by exists k]. rewrite E. f_equal.
    unfold TcpProxy.pump_done in Hd. destruct (bool_decide (TcpProxy.pending p2 = [])) eqn:Hp;
      [by apply bool_decide_eq_true in Hp|]. by rewrite andb_false_r in Hd.
  - apply sm_bind_inv in H as ([] & w5 & H5 & H6). injection H6 as <- <-.
    destruct (_ || _); injection H5 as <-; [by split_and!; [| |exists k]|].
    split_and!; [|done|by exists k]. rewrite <- (app_nil_r tk), <- (app_nil_r (up1 ++ up2)), <- (app_nil_r d).
    eapply moved_trans; [exact M|]. apply sleep_moved. by eapply mv_attends.
Qed.

(** ** Whole connections *)

(** The states a running [pump_bytes] is in between two iterations. *)
Inductive pump_reaches h (p : TcpProxy.pump) w : TcpProxy.pump -> World -> Prop :=
| reaches_start : pump_reaches h p w p w
| reaches_next p1 w1 p2 w2 :
    pump_reaches h p w p1 w1 -> TcpProxy.pump_iteration (K := K) h p1 w1 = (Ok (Some p2), w2) ->
    pump_reaches h p w p2 w2.

Definition present h w : Prop := exists k : K, get h (TcpProxy.backend w) = Some k.

Lemma reaches_moved h p w p' w' :
  attends h w -> present h w -> pump_reaches h p w p' w' ->
  exists tk up d, moved h w w' tk up d d /\
    TcpProxy.pending p ++ tk = up ++ TcpProxy.pending p' /\ present h w'.
Proof.
  intros Ha Hp. induction 1 as [|p1 w1 p2 w2 _ (tk & up & d & M & E & _) Hi].
  - exists [], [], []. split_and!; [by apply moved_refl|by rewrite app_nil_r|done].
  - destruct (iteration_moved h p1 w1 _ w2 (mv_attends _ _ _ _ _ _ _ M) Hi) as (tk2 & up2 & d2 & M2 & E2 & Hk).
    exists (tk ++ tk2), (up ++ up2), (d ++ d2). split_and!; [by eapply moved_trans| |done].
    by rewrite app_assoc, E, <- !app_assoc, E2.
Qed.

Lemma pump_loop_reaches h fuel : forall p w w',
  TcpProxy.pump_loop (K := K) fuel h p w = (Ok tt, w') ->
  exists p1 w1, pump_reaches h p w p1 w1 /\ TcpProxy.pump_iteration (K := K) h p1 w1 = (Ok None, w').
Proof.
  assert (forall p1 w1 p w p2 w2, TcpProxy.pump_iteration (K := K) h p w = (Ok (Some p1), w1) ->
    pump_reaches h p1 w1 p2 w2 -> pump_reaches h p w p2 w2) as Hcons.
  { intros p1 w1 p w p2 w2 Hi. induction 1; [eapply reaches_next; [apply reaches_start|done]|by eapply reaches_next]. }
  induction fuel as [|fuel IH]; intros p w w'; [done|]. intros ([p1|] & w1 & H1 & H2)%sm_bind_inv.
  - destruct (IH p1 w1 w' H2) as (p2 & w2 & Hr & Hi). exists p2, w2. split; [by eapply Hcons|done].
  - injection H2 as <-. exists p, w. split; [apply reaches_start|done].
Qed.

Lemma handshake_moved h fuel start : forall w w',
  attends h w -> TcpProxy.handshake_loop (K := K) fuel h start w = (Ok tt, w') ->
  moved h w w' [] [] [] [] /\ present h w'.
Proof.
  induction fuel as [|fuel IH]; intros w w' Ha; [done|]. intros (st & w1 & H1 & H)%sm_bind_inv.
  pose proof (call_moved h w _ st w1 _ _ Ha (state_acts h) H1) as M.
  assert (present h w1) as Hp.
  { unfold TcpProxy.call in H1. destruct (SmoltcpBackend.socket_state _ _) as [[?|?] b] eqn:Hs; [|done].
    injection H1 as _ <-. destruct (state_present h _ _ _ Hs) as (k & ? & _). by exists k. }
  assert (st = Established /\ w' = w1 \/
    exists w2, w2 = (TcpProxy.sleep w1).2 /\ TcpProxy.handshake_loop (K := K) fuel h start w2 = (Ok tt, w'))
    as [[_ ->]|(w2 & -> & H2)]; [|done|].
  { destruct st; try done; try (injection H as <-; by left); right;
      apply sm_bind_inv in H as (now & w2 & [= <- <-] & H); case_if_in H; try done;
      apply sm_bind_inv in H as ([] & w3 & [= <-] & H); eauto. }
  pose proof (sleep_moved h w1 (mv_attends _ _ _ _ _ _ _ M)) as Ms.
  destruct (IH _ w' (mv_attends _ _ _ _ _ _ _ Ms) H2) as [M2 Hp2]. split; [|done].
  exact (moved_trans h _ _ _ _ _ _ _ _ _ _ _ M (moved_trans h _ _ _ _ _ _ _ _ _ _ _ Ms M2)).
Qed.

(** The handshake is decided within its timeout, whatever the guest does. *)
Lemma handshake_loop_decides h start fuel : forall w,
  HANDSHAKE_TIMEOUT < TcpProxy.clock w - start + POLL_INTERVAL * (Z.of_nat fuel - 1) -> (0 < fuel)%nat ->
  (TcpProxy.handshake_loop (K := K) fuel h start w).1 <> Err Unfinished.
Proof.
  unfold HANDSHAKE_TIMEOUT, POLL_INTERVAL.
  induction fuel as [|fuel IH]; intros w Hc Hf; [lia|]. cbn [TcpProxy.handshake_loop].
  unfold mbind at 1, sm_bind at 1. destruct (TcpProxy.call _ w) as [[st|e] w1] eqn:H1.
  - assert (TcpProxy.clock w1 = TcpProxy.clock w) as Hw
      by (unfold TcpProxy.call in H1; destruct (SmoltcpBackend.socket_state _ _); by simplify_eq).
    assert (((x ← sm_gets TcpProxy.clock;
              if HANDSHAKE_TIMEOUT <? x - start then sm_fail (Failed TimedOut)
              else _ ← TcpProxy.sleep; TcpProxy.handshake_loop (K := K) fuel h start) w1).1 <>
            Err Unfinished) as Hrest.
    { erewrite sm_bind_ok by done. unfold HANDSHAKE_TIMEOUT. case_if; [done|]. erewrite sm_bind_ok by done.
      apply IH; simpl; unfold POLL_INTERVAL; lia. }
    by destruct st.
  - unfold TcpProxy.call in H1. destruct (SmoltcpBackend.socket_state _ _) as [[?|?] ?]; [done|].
    injection H1 as <- _. done.
Qed.

Lemma handshake_decides h w : (TcpProxy.wait_for_handshake (K := K) h w).1 <> Err Unfinished.
Proof.
  unfold TcpProxy.wait_for_handshake. erewrite sm_bind_ok by done. apply handshake_loop_decides.
  - unfold TcpProxy.handshake_polls. rewrite Z2Nat.id by done.
    change (HANDSHAKE_TIMEOUT / POLL_INTERVAL) with 5000. unfold HANDSHAKE_TIMEOUT, POLL_INTERVAL. lia.
  - unfold TcpProxy.handshake_polls. apply Nat2Z.inj_lt. rewrite Z2Nat.id by done. done.
Qed.

(** Every write takes a byte, an event, or ends the loop. *)
Lemma write_loop_ends fuel : forall d w,
  (length d + length (TcpStream.capacity (TcpProxy.stream w)) <= fuel)%nat ->
  (TcpProxy.write_loop (I := I) (SS := SS) fuel d w).1 <> Err Unfinished.
Proof.
  induction fuel as [|fuel IH]; intros d w Hf; simpl; case_bool_decide as Hd; try done.
  - destruct d; [done|simpl in Hf; lia].
  - assert (0 < length d)%nat as Hl by (destruct d; [done|simpl; lia]).
    unfold mbind at 1, sm_bind at 1, TcpProxy.io, TcpStream.write.
    destruct (TcpStream.capacity (TcpProxy.stream w)) as [|[n| |e] rest]; simpl in *; [| | |done].
    + destruct (length d) as [|n] eqn:Hn; [done|]. apply IH. simpl. rewrite length_drop. lia.
    + destruct (n `min` length d)%nat as [|n'] eqn:Hn; [done|]. apply IH. simpl. rewrite length_drop. lia.
    + apply IH. simpl. lia.
Qed.

(** The bridge's own socket is new: no byte went through it. *)
Lemma run_calls_inv host cs : forall m,
  wf (K := K) (SmoltcpBackend.inner m) -> Forall (client_call (echo m)) cs ->
  wf (K := K) (SmoltcpBackend.inner (run_calls (K := K) host m cs)) /\
  echo (run_calls (K := K) host m cs) = echo m.
Proof.
  induction cs as [|c cs IH]; intros m Hw Hcs; [done|]. apply Forall_cons in Hcs as [Hc Hcs]. simpl.
  destruct (run_call_inv host m c Hw Hc) as (Hw' & He & _).
  destruct (IH (run_call (K := K) host m c)) as [Hw2 He2]; [done|by rewrite He|]. split; congruence.
Qed.

Lemma open_attends ep w h w1 :
  wf (K := K) (SmoltcpBackend.inner (TcpProxy.backend w)) ->
  Forall (Forall (client_call (echo (TcpProxy.backend w)))) (TcpProxy.others w) ->
  TcpProxy.call (K := K) (SmoltcpBackend.open_client_socket ep) w = (Ok h, w1) ->
  attends h w1 /\ TcpProxy.stream w1 = TcpProxy.stream w /\
  forall k : K, get h (TcpProxy.backend w1) = Some k -> accepted k = [] /\ delivered k = [].
Proof.
  intros Hw Hcs. unfold TcpProxy.call.
  assert (Forall (client_call (echo (TcpProxy.backend w))) (hd [] (TcpProxy.others w)) /\
          Forall (Forall (client_call (echo (TcpProxy.backend w)))) (tl (TcpProxy.others w))) as [Hc Ho]
    by (destruct (TcpProxy.others w); [by split|by apply Forall_cons in Hcs]).
  destruct (run_calls_inv (TcpProxy.clock w) _ _ Hw Hc) as [Hw1 He1].
  destruct (SmoltcpBackend.open_client_socket _ _ _) as [[h'|e] b] eqn:Hop; [|done]. intros [= -> <-].
  apply with_lock_inv in Hop.
  destruct (open_body_spec ep (TcpProxy.clock w) _ Hw1) as (h' & _ & _ & Hh & Hbody). rewrite Hop in Hbody.
  destruct Hbody as [Ha Hr]. destruct (Hr h eq_refl) as [<- Hk]. pose proof (adv_echo _ _ _ Ha) as He.
  split_and!; simpl; [|done|by intros k Hg; destruct (Hk k Hg)].
  split; simpl; [by eapply adv_wf|congruence|by rewrite He, He1].
Qed.

(** The streams when a connection is at [w], its socket being [h]. *)
Definition conserved h w (pending : bytes) : Prop :=
  exists k : K, get h (TcpProxy.backend w) = Some k /\
    taken w = accepted k ++ pending /\ sent w = delivered k.

(** Since [w] no other thread was given the index [h] or moved bytes through it,
    and then the streams are conserved at [w']. *)
Definition undisturbed_conserves h w w' (pending : bytes) : Prop :=
  exists used, TcpProxy.touched w' = TcpProxy.touched w ++ used /\ (h ∈ used \/ conserved h w' pending).

Lemma moved_conserved h w w' tk up d pending :
  (forall k : K, get h (TcpProxy.backend w) = Some k -> accepted k = [] /\ delivered k = []) ->
  taken w = [] -> sent w = [] -> moved h w w' tk up d d -> tk = up ++ pending -> present h w' ->
  undisturbed_conserves h w w' pending.
Proof.
  intros Hk Ht Hs [_ Ht' Hs' (used & Hu & Htr)] -> [k' Hk']. exists used. split; [done|].
  destruct (decide (h ∈ used)) as [|Hn]; [by left|]. right. exists k'. split; [done|].
  destruct (Htr Hn k' Hk') as (k & Hg & Ha & Hd). destruct (Hk k Hg) as [Hka Hkd].
  rewrite Ha, Hd, Hka, Hkd, Ht', Hs', Ht, Hs. done.
Qed.

Lemma attempt_inv {A} (c : SM World Failure A) w r w' :
  TcpProxy.attempt c w = (Ok r, w') ->
  c w = (match r with Ok a => Ok a | Err e => Err (Failed e) end, w').
Proof.
  unfold TcpProxy.attempt. destruct (c w) as [[a|[e|p|]] w1]; intros [= <- <-]; done.
Qed.
End Bridge.

(** ** Correctness of a bridged connection *)

(** C12: A bridge on a fresh stream, while other threads move the guest's frames,
    open sockets and use the back end, in any order: between any two iterations,
    unless since the bridge's own open another thread was given the index of its
    socket or moved bytes through it, everything read from the client is what the
    socket has taken, in order, followed by what is still pending, and everything
    the socket has handed out has been written to the client; and when the bridge
    returns successfully, however long it ran, nothing is pending at the moment it
    closes the socket. (The index can be given out again only once the socket is
    gone.) *)
Theorem bridge_conserves_streams {I SS K : Type} `{!Smoltcp I SS K, !TcpStreams K, !SmoltcpLaws I SS K}
    (ep : IpEndpoint) (w w1 : TcpProxy.world I SS) (h : Z) :
  wf (K := K) (SmoltcpBackend.inner (TcpProxy.backend w)) ->
  TcpStream.taken (TcpProxy.stream w) = [] -> TcpStream.sent (TcpProxy.stream w) = [] ->
  TcpProxy.call (K := K) (SmoltcpBackend.open_client_socket ep) w = (Ok h, w1) ->
  Forall (Forall (client_call (State.echo_handle (SmoltcpBackend.inner (TcpProxy.backend w))))) (TcpProxy.others w) ->
  (forall w2 p w3,
     TcpProxy.wait_for_handshake (K := K) h w1 = (Ok tt, w2) ->
     pump_reaches (K := K) h (TcpProxy.mk_pump [] false) w2 p w3 ->
     undisturbed_conserves (K := K) h w1 w3 (TcpProxy.pending p)) /\
  (forall fuel w', TcpProxy.bridge_connection (K := K) fuel ep w = (Ok tt, w') ->
     exists w3, undisturbed_conserves (K := K) h w1 w3 [] /\
       TcpProxy.call (K := K) (SmoltcpBackend.close_socket h) w3 = (Ok tt, w')).
Proof.
  intros Hw Ht Hs Hop Ho. destruct (open_attends ep w h w1 Hw Ho Hop) as (Ha & Hst & Hk).
  assert (forall w2 p w3, TcpProxy.wait_for_handshake (K := K) h w1 = (Ok tt, w2) ->
     pump_reaches (K := K) h (TcpProxy.mk_pump [] false) w2 p w3 ->
     exists tk up d, moved (K := K) h w1 w3 tk up d d /\ tk = up ++ TcpProxy.pending p /\ present (K := K) h w3) as Hreach.
  { intros w2 p w3 Hh Hr. unfold TcpProxy.wait_for_handshake in Hh. erewrite sm_bind_ok in Hh by done.
    destruct (handshake_moved h _ _ w1 w2 Ha Hh) as [M Hp].
    destruct (reaches_moved h _ w2 p w3 (mv_attends _ _ _ _ _ _ _ M) Hp Hr) as (tk & up & d & M2 & E & Hp3).
    exists tk, up, d. split_and!; [exact (moved_trans _ _ _ _ _ _ _ _ _ _ _ _ M M2)|exact E|done]. }
  split.
  - intros w2 p w3 Hh Hr. destruct (Hreach w2 p w3 Hh Hr) as (tk & up & d & M & E & Hp).
    eapply moved_conserved; [exact Hk|by rewrite Hst..|exact M|exact E|exact Hp].
  - intros fuel w' Hb. unfold TcpProxy.bridge_connection in Hb.
    apply sm_bind_inv in Hb as (r & w0 & H0 & Hb). assert (w0 = w) as ->.
    { unfold TcpProxy.io, TcpStream.set_nonblocking in H0. injection H0 as _ <-. by destruct w. }
    destruct r as [[]|e]; [|done]. rewrite (sm_bind_ok _ _ _ _ _ Hop) in Hb.
    apply sm_bind_inv in Hb as ([[]|e] & w2 & Hh%attempt_inv & Hb);
      [|by apply sm_bind_inv in Hb as ([] & ? & _ & Hb)].
    apply sm_bind_inv in Hb as ([[]|e] & w3 & Hp%attempt_inv & Hb);
      [|by apply sm_bind_inv in Hb as ([] & ? & _ & Hb)].
    apply sm_bind_inv in Hb as ([] & w4 & Hcl & Hb). injection Hb as <-. exists w3. split; [|done].
    destruct (pump_loop_reaches h fuel _ w2 w3 Hp) as (p & w5 & Hr & Hi).
    destruct (Hreach w2 p w5 Hh Hr) as (tk & up & d & M & E & _).
    destruct (iteration_moved h p w5 None w3 (mv_attends _ _ _ _ _ _ _ M) Hi) as (tk2 & up2 & d2 & M2 & E2 & Hp3).
    eapply moved_conserved; [exact Hk|by rewrite Hst..|by eapply moved_trans| |exact Hp3].
    by rewrite E, <- !app_assoc, E2.
Qed.

(** ** Runs on the small stack *)

Module Sample.
Definition frame (kind : Byte.byte) (payload : bytes) : Call := CWriteFrame (Byte.x00 :: kind :: payload).
Definition SYN : Call := frame Byte.x00 [].
Definition FIN : Call := frame Byte.x02 [].
Definition ACK : Call := frame Byte.x03 [].
Definition hi : bytes := [Byte.x68; Byte.x69].
Definition yo : bytes := [Byte.x79; Byte.x6f].
Definition guest : IpEndpoint := mk_endpoint DEFAULT_GUEST_IPV4 8080.

Definition other_guest : IpEndpoint := mk_endpoint DEFAULT_GUEST_IPV4 9090.

Definition idle : SmoltcpBackend.t unit (gmap Z Small.sock) :=
  SmoltcpBackend.mk (State.mk (SmoltDevice.new DEVICE_MTU) tt ∅ None 0 State.EPHEMERAL_START [] 0) false.

Definition world (incoming : list TcpStream.ReadEvent) (others : list (list Call))
  : TcpProxy.world unit (gmap Z Small.sock) :=
  TcpProxy.mk_world idle (TcpStream.mk incoming [TcpStream.Full; TcpStream.Room 1] None [] []) 0 others [] [].

(** The client sends two bytes, gets two back and closes first; meanwhile another
    thread opens a socket of its own and writes to it. *)
Definition client_closes := world
  [TcpStream.Data Byte.x68 [Byte.x69]; TcpStream.Eof]
  [[]; [SYN]; []; [frame Byte.x01 yo]; [COpen other_guest; CSend 1 yo]; []; [ACK; FIN]].

(** The guest closes first and the client after it. *)
Definition guest_closes := world
  [TcpStream.Quiet; TcpStream.Quiet; TcpStream.Eof]
  [[]; [SYN]; [FIN]; []; []; []; []; []; []; [ACK]].

(** The guest resets the connection, and before the bridge's next call another
    thread opens a connection of its own that the guest answers on. *)
Definition handle_reused := world
  [TcpStream.Quiet; TcpStream.Quiet]
  [[]; [SYN]; [frame Byte.x04 []; COpen guest; SYN; frame Byte.x01 yo]].
End Sample.


Lemma sample_idle_wf : wf (SmoltcpBackend.inner Sample.idle).
Proof. by split. Qed.

(** The client's two bytes reach the guest and the guest's two bytes the client. *)
Lemma bridge_conserves_streams_witness : exists w',
  TcpProxy.bridge_connection 10 Sample.guest Sample.client_closes = (Ok tt, w') /\
  TcpStream.taken (TcpProxy.stream w') = Sample.hi /\ TcpStream.sent (TcpProxy.stream w') = Sample.yo /\
  TcpProxy.touched w' = [1; 1] /\ exists w3, conserved 0 w3 [].
Proof.
  set (w1 := (TcpProxy.call (SmoltcpBackend.open_client_socket Sample.guest) Sample.client_closes).2).
  destruct (bridge_conserves_streams Sample.guest Sample.client_closes w1 0
    sample_idle_wf eq_refl eq_refl) as [_ H].
  - vm_compute. reflexivity.
  - repeat constructor; intros h; simpl; intros [= <-]; discriminate.
  - set (w' := (TcpProxy.bridge_connection 10 Sample.guest Sample.client_closes).2).
    assert (Ht : TcpProxy.touched w' = [1; 1]) by (vm_compute; reflexivity).
    assert (Hb : TcpProxy.bridge_connection 10 Sample.guest Sample.client_closes = (Ok tt, w')) by (vm_compute; reflexivity).
    assert (Hs : TcpStream.taken (TcpProxy.stream w') = Sample.hi /\ TcpStream.sent (TcpProxy.stream w') = Sample.yo)
      by (vm_compute; split; reflexivity).
    exists w'. clearbody w'. split; [exact Hb|]. split; [apply Hs|]. split; [apply Hs|]. split; [exact Ht|].
    destruct (H 10%nat w' Hb) as (w3 & (used & Hu & [Hin|Hc]) & Hcl); [|by exists w3].
    exfalso. unfold TcpProxy.call in Hcl. destruct (SmoltcpBackend.close_socket _ _ _) as [r b]. injection Hcl as _ Hw'.
    assert (Hf : Forall (fun z => z = 1) (TcpProxy.touched w')) by (rewrite Ht; repeat constructor).
    rewrite <- Hw' in Hf. cbn [TcpProxy.touched] in Hf. rewrite Hu in Hf.
    apply Forall_app in Hf as [Hf _]. apply Forall_app in Hf as [_ Hf].
    rewrite Forall_forall in Hf. discriminate (Hf 0 Hin).
Defined.

(** When the guest closes first, its last acknowledgement removes the socket
    between two iterations and the bridge's thread panics, with the back end's
    mutex poisoned. *)
Example guest_closes_first :
  let (r, w) := TcpProxy.bridge_connection 10 Sample.guest Sample.guest_closes in
  r = Err (Panicked NoSuchSocket) /\ SmoltcpBackend.poisoned (TcpProxy.backend w) = true.
Proof. vm_compute. split; reflexivity. Qed.

(** A handle outlives its socket: once the set has given the index to another
    connection, the bridge delivers that connection's bytes to its own client. *)
Example reused_handle_crosses_streams :
  let (r, w) := TcpProxy.bridge_connection 2 Sample.guest Sample.handle_reused in
  r = Err Unfinished /\ TcpStream.sent (TcpProxy.stream w) = Sample.yo.
Proof. vm_compute. split; reflexivity. Qed.
