(* ===== verification/AuditTrail.v ===== *)
(** * control-plane: request ids and the audit log

    Models [crates/control-plane/src/request_id.rs], [audit.rs] and
    [audit_sink.rs]: the id every request carries, the record appended for every
    mutating call, and the channel that ships records to a collector. A
    middleware is a function of the rest of the chain, [next]; the log's file is
    a writer, the channel the records in it, and what the collector does with a
    record is an argument. *)

From Stdlib Require Import Ascii String.
From stdpp Require Import strings pretty.
From S2P Require Import Prelude Io Str Fs VmCore VmMock HvCalls Store ApiError Auth WarmPool Api Ownership.
From S2P Require Import Metrics Routes.

Local Open Scope string_scope.
Local Open Scope Z_scope.

(** ** Request ids *)

Definition MAX_INCOMING_LEN : nat := 128.

Definition id_char (c : ascii) : bool :=
  between_n 48 (code c) 57 || between_n 65 (code c) 90 || between_n 97 (code c) 122 ||
  Ascii.eqb c "." || Ascii.eqb c "_" || Ascii.eqb c "-".

Fixpoint all_chars (p : ascii -> bool) (s : string) : bool :=
  match s with "" => true | String a s => p a && all_chars p s end.

Definition is_valid_incoming (s : string) : bool :=
  negb (bool_decide (s = "")) && (String.length s <=? MAX_INCOMING_LEN)%nat && all_chars id_char s.

(** [{z:0wx}]: at least [w] hexadecimal digits. *)
Definition hex_min (w : nat) (z : Z) : string := hex_fixed (Nat.max w (Z.to_nat (Z.log2 z / 4 + 1))) z.

(** [nanos] is the clock, zero when it is before 1970; the counter wraps. *)
Definition mint (nanos : Z) (counter : Z) : string * Z :=
  ("nanovm-" +:+ hex_min 16 (wrap64 nanos) +:+ "-" +:+ hex_min 8 counter, wrap64 (counter + 1)).

(** The id of a request; [header] is [x-request-id] when it is text. *)
Definition request_id (header : option string) (nanos counter : Z) : string * Z :=
  match header with
  | Some s => if is_valid_incoming s then (s, counter) else mint nanos counter
  | None => mint nanos counter
  end.

(** [next] gets the id; the response is returned with the id as its header. *)
Definition with_request_id {R} (header : option string) (nanos : Z) (next : string -> R) (counter : Z)
  : R * string * Z :=
  let (id, counter) := request_id header nanos counter in
  (next id, id, counter).

(** ** The channel to the collector *)

Definition SINK_CHANNEL_CAP : nat := 1024.

Module Chan.
Record t (A : Type) : Type := mk { queue : list A; cap : nat; closed : bool }.
Arguments mk {A} queue cap closed.
Arguments queue {A} t.
Arguments cap {A} t.
Arguments closed {A} t.

Inductive TrySendError : Type := Full | Closed.

Definition channel {A} (cap : nat) : t A := mk [] cap false.

Definition try_send {A} (a : A) : SM (t A) TrySendError unit := fun c =>
  if closed c then (Err Closed, c)
  else if (cap c <=? length (queue c))%nat then (Err Full, c)
  else (Ok tt, mk (queue c ++ [a]) (cap c) (closed c)).

Definition recv {A} (c : t A) : option A * t A :=
  match queue c with
  | [] => (None, c)
  | a :: q => (Some a, mk q (cap c) (closed c))
  end.
End Chan.

Module AuditRecord.
Record t : Type := mk {
  ts : string;
  method : string;
  path : string;
  status : Z;
  token : string;
  request_id : option string;
}.
End AuditRecord.

(** The channel [spawn] makes. *)
Definition sink_channel : Chan.t AuditRecord.t := Chan.channel SINK_CHANNEL_CAP.

(** [audit_sink::push]: a record that does not fit is dropped. *)
Definition push (record : AuditRecord.t) (sender : Chan.t AuditRecord.t) : Chan.t AuditRecord.t :=
  (Chan.try_send record sender).2.

Section Sink.
Context {N : Type} (post : AuditRecord.t -> N -> N).

(** [post_one]: whatever the collector answers, the record is gone. *)
Definition post_one (record : AuditRecord.t) (net : N) : N := post record net.

(** One turn of the drain task; without a client ([ready = false]) records are
    thrown away. *)
Definition drain_step (ready : bool) (c : Chan.t AuditRecord.t) (net : N) : Chan.t AuditRecord.t * N :=
  match Chan.recv c with
  | (Some record, c) => (c, if ready then post_one record net else net)
  | (None, c) => (c, net)
  end.
End Sink.

(** [HeaderName::from_bytes] and [HeaderValue::from_str] belong to the [http]
    crate; [name_error] and [value_error] are the texts of their errors. *)
Definition parse_header {HN HV} (header_name : string -> result string HN)
    (header_value : string -> result string HV) (debug_str : string -> string) (raw : string)
  : result string (HN * HV) :=
  '(name, value) ← ok_or "expected `Name: Value`, got no colon" (split_once ":" raw);
  let name := trim name in
  let value := trim value in
  name' ← map_err (fun e => "invalid header name " +:+ debug_str name +:+ ": " +:+ e) (header_name name);
  value' ← map_err (fun e => "invalid header value: " +:+ e) (header_value value);
  Ok (name', value').

(** [s.split_once(sep)] for a separator of several characters. *)
Fixpoint split_once_str (sep s : string) : option (string * string) :=
  match strip_str_prefix sep s with
  | Some rest => Some ("", rest)
  | None =>
      match s with
      | "" => None
      | String a s => '(l, r) ← split_once_str sep s; Some (String a l, r)
      end
  end.

Definition redact_url (raw : string) : string :=
  match split_once_str "://" raw with
  | None => "<redacted>"
  | Some (scheme, rest) =>
      let path := default "" (head (split "?" rest)) in
      let host_and_path :=
        match split_once "@" path with
        | Some (userinfo, rest) =>
            if negb (has_char "/" rest) || negb (has_char "/" userinfo) then rest else path
        | None => path
        end in
      scheme +:+ "://" +:+ host_and_path
  end.

(** ** The log *)

Module AuditLog.
Section Log.
Context {JE : Type} `{!Serde JE AuditRecord.t}.

(** [path] is kept for display; [sink_tx] is the channel's sender. *)
Record t : Type := mk {
  inner : option Writer.t;
  path : option string;
  sink_tx : option (Chan.t AuditRecord.t);
}.

Definition disabled : t := mk None None None.

(** [open_append] opens the file for appending. *)
Definition open {E} (open_append : string -> result E Writer.t) (path : string) : result E t :=
  file ← open_append path;
  Ok (mk (Some file) (Some path) None).

Definition with_sink (sender : Chan.t AuditRecord.t) (log : t) : t :=
  mk (inner log) (path log) (Some sender).

(** [raw] is [NANOVM_AUDIT_LOG]. *)
Definition from_env {E} (open_append : string -> result E Writer.t) (raw : option string) : t :=
  let trimmed := trim (default "" raw) in
  if bool_decide (trimmed = "") then disabled
  else match open open_append trimmed with Ok log => log | Err _ => disabled end.

Definition is_disabled (log : t) : bool := match inner log with None => true | Some _ => false end.

Definition set_file (file : Writer.t) (log : t) : t := mk (Some file) (path log) (sink_tx log).

(** The push to the sink, if there is one. *)
Definition ship (record : AuditRecord.t) (log : t) : t :=
  match sink_tx log with
  | Some sender => mk (inner log) (path log) (Some (push record sender))
  | None => log
  end.

Definition append (record : AuditRecord.t) (log : t) : t :=
  match inner log with
  | None => ship record log
  | Some file =>
      match to_vec (JE := JE) record with
      | Err _ => log
      | Ok line =>
          let (_, file) := Writer.write_all (line ++ [Byte.x0a])%list file in
          ship record (set_file file log)
      end
  end.
End Log.
End AuditLog.

Definition is_mutating (method : string) : bool :=
  bool_decide (method ∈ ["POST"; "PUT"; "PATCH"; "DELETE"]).

(** What the middleware looks at in a request. *)
Module AuditRequest.
Record t : Type := mk {
  method : string;
  original_path : string;
  authorization : option string;
  request_id : option string;
}.
End AuditRequest.

Section Audit.
Context {JE : Type} `{!Serde JE AuditRecord.t}.
Context {S R : Type} (status : R -> Z).

Definition record_of (req : AuditRequest.t) (now : string) (status : Z) : AuditRecord.t :=
  {| AuditRecord.ts := now; AuditRecord.method := AuditRequest.method req;
     AuditRecord.path := AuditRequest.original_path req; AuditRecord.status := status;
     AuditRecord.token := fingerprint_or_anonymous (extract_bearer (AuditRequest.authorization req));
     AuditRecord.request_id := AuditRequest.request_id req |}.

(** [next] is the handler on the server's state; [now] the time at which it has
    answered. *)
Definition require_audit (audit : option AuditLog.t) (req : AuditRequest.t) (now : string)
    (next : S -> R * S) (s : S) : R * option AuditLog.t * S :=
  match audit with
  | None => let (r, s) := next s in (r, None, s)
  | Some log =>
      if AuditLog.is_disabled log then let (r, s) := next s in (r, Some log, s)
      else if negb (is_mutating (AuditRequest.method req)) then let (r, s) := next s in (r, Some log, s)
      else
        let (r, s) := next s in
        (r, Some (AuditLog.append (JE := JE) (record_of req now (status r)) log), s)
  end.
End Audit.

(** ** Ids are well formed and, within a process, distinct *)

Lemma all_chars_app p a b : all_chars p (a +:+ b) = all_chars p a && all_chars p b.
Proof. induction a as [|c a IH]; [done|]. simpl. by rewrite IH, andb_assoc. Qed.

Lemma str_length_app a b : String.length (a +:+ b) = (String.length a + String.length b)%nat.
Proof. induction a as [|c a IH]; [done|]. simpl. by rewrite IH. Qed.

Lemma digits_16 (P : Z -> Prop) : Forall P (seqZ 0 16) -> forall d, 0 <= d < 16 -> P d.
Proof. intros HP d Hd. rewrite Forall_forall in HP. apply HP, elem_of_seqZ. lia. Qed.

Lemma hex_fixed_chars n z : all_chars id_char (hex_fixed n z) = true.
Proof.
  revert z. induction n as [|n IH]; intros z; [done|]. simpl. rewrite all_chars_app, IH. simpl. rewrite andb_true_r.
  apply (digits_16 (fun d => id_char (hex_digit d) = true)); [by repeat constructor|]. apply Z.mod_pos_bound. lia.
Qed.

Lemma hex_fixed_length n z : String.length (hex_fixed n z) = n.
Proof. revert z. induction n as [|n IH]; intros z; [done|]. simpl. rewrite str_length_app, IH. simpl. lia. Qed.

Lemma hex_min_chars w z : all_chars id_char (hex_min w z) = true.
Proof. apply hex_fixed_chars. Qed.

(** The value of a string of hexadecimal digits. *)
Definition hex_value (c : ascii) : Z :=
  let n := Z.of_N (code c) in if n <? 58 then n - 48 else n - 87.
Fixpoint hex_read (acc : Z) (s : string) : Z :=
  match s with "" => acc | String c s => hex_read (16 * acc + hex_value c) s end.

Lemma hex_read_app acc a b : hex_read acc (a +:+ b) = hex_read (hex_read acc a) b.
Proof. revert acc. induction a as [|c a IH]; intros acc; [done|]. simpl. apply IH. Qed.

Lemma hex_read_fixed n z : 0 <= z < 16 ^ Z.of_nat n -> hex_read 0 (hex_fixed n z) = z.
Proof.
  revert z. induction n as [|n IH]; intros z Hz; [simpl in *; lia|].
  rewrite Nat2Z.inj_succ, Z.pow_succ_r in Hz by lia. pose proof (Z.mod_pos_bound z 16 ltac:(lia)) as Hm.
  simpl. rewrite hex_read_app, IH; [|split; [apply Z.div_pos|apply Z.div_lt_upper_bound]; lia].
  cbn [hex_read]. rewrite (digits_16 (fun d => hex_value (hex_digit d) = d)) by (done || by repeat constructor).
  pose proof (Z.div_mod z 16). lia.
Qed.

Lemma hex_min_digits w z : 0 <= z -> z < 16 ^ Z.of_nat (Nat.max w (Z.to_nat (Z.log2 z / 4 + 1))).
Proof.
  intros Hz. destruct (decide (z = 0)) as [->|]; [by apply Z.pow_pos_nonneg; lia|].
  pose proof (Z.log2_spec z ltac:(lia)) as [_ Hl]. pose proof (Z.log2_nonneg z) as Hn.
  eapply Z.lt_le_trans; [exact Hl|]. change 16 with (2 ^ 4). rewrite <- Z.pow_mul_r by lia.
  apply Z.pow_le_mono_r; [lia|]. pose proof (Z.div_mod (Z.log2 z) 4 ltac:(lia)).
  pose proof (Z.mod_pos_bound (Z.log2 z) 4 ltac:(lia)). lia.
Qed.

Lemma hex_min_inj w z z' : 0 <= z -> 0 <= z' -> hex_min w z = hex_min w z' -> z = z'.
Proof.
  intros Hz Hz' He. rewrite <- (hex_read_fixed _ z (conj Hz (hex_min_digits w z Hz))).
  rewrite <- (hex_read_fixed _ z' (conj Hz' (hex_min_digits w z' Hz'))). unfold hex_min in He. by rewrite He.
Qed.

Lemma hex_min_length w z : is_u64 z -> (String.length (hex_min w z) <= Nat.max w 16)%nat.
Proof.
  intros [Hz Hl]. unfold hex_min. rewrite hex_fixed_length.
  assert (Z.log2 z < 64) as Hlog.
  { destruct (decide (z = 0)) as [->|]; [done|]. apply Z.log2_lt_pow2; lia. }
  pose proof (Z.log2_nonneg z). assert (Z.log2 z / 4 < 16) by (apply Z.div_lt_upper_bound; lia). lia.
Qed.

(** A minted id passes the check for ids of callers, and two ids minted at
    different values of the counter differ, whatever the clock says. *)
Lemma mint_valid nanos counter : is_u64 counter -> is_valid_incoming (mint nanos counter).1 = true.
Proof.
  intros Hc. unfold is_valid_incoming, mint. cbn [fst]. rewrite !all_chars_app, !str_length_app.
  rewrite !hex_min_chars.
  pose proof (hex_min_length 16 (wrap64 nanos) (wrap64_range _)). pose proof (hex_min_length 8 counter Hc).
  change (all_chars id_char "nanovm-") with true. change (all_chars id_char "-") with true.
  rewrite !andb_true_r, bool_decide_false by done. apply Nat.leb_le.
  change (String.length "nanovm-") with 7%nat. change (String.length "-") with 1%nat. unfold MAX_INCOMING_LEN, hex_min in *. lia.
Qed.

Lemma str_app_inj_length a b c d :
  String.length a = String.length b -> a +:+ c = b +:+ d -> a = b /\ c = d.
Proof.
  revert b. induction a as [|x a IH]; intros [|y b] Hl He; try done. simpl in *. injection He as -> He.
  destruct (IH b) as [-> ->]; [lia|done|done].
Qed.

Lemma mint_distinct nanos nanos' c c' :
  is_u64 c -> is_u64 c' -> c <> c' -> (mint nanos c).1 <> (mint nanos' c').1.
Proof.
  intros Hc Hc' Hne He. unfold mint in He. cbn [fst] in He.
  apply str_app_inj_length in He as [_ He]; [|done].
  assert (forall n, String.length (hex_min 16 (wrap64 n)) = 16%nat) as H16.
  { intros n. pose proof (hex_min_length 16 (wrap64 n) (wrap64_range _)). unfold hex_min in *.
    rewrite hex_fixed_length in *. lia. }
  apply str_app_inj_length in He as [_ He]; [|by rewrite !H16].
  injection He as He. apply Hne. destruct Hc, Hc'. by eapply (hex_min_inj 8).
Qed.

(** Whatever the caller sends, the id it gets back is one of the allowed
    characters and of bounded length; a valid id comes back as it was sent. *)
Lemma request_id_spec header nanos counter :
  is_u64 counter ->
  is_valid_incoming (request_id header nanos counter).1 = true /\
  (forall s, header = Some s -> is_valid_incoming s = true -> request_id header nanos counter = (s, counter)).
Proof.
  intros Hc. unfold request_id. split.
  - destruct header as [s|]; [|by apply mint_valid]. destruct (is_valid_incoming s) eqn:Hs; [done|by apply mint_valid].
  - intros s -> Hs. by rewrite Hs.
Qed.

(** ** The channel never holds more than its capacity *)

Lemma push_bounded record c :
  (length (Chan.queue c) <= Chan.cap c)%nat ->
  (length (Chan.queue (push record c)) <= Chan.cap (push record c))%nat /\
  Chan.queue c `prefix_of` Chan.queue (push record c).
Proof.
  intros Hl. unfold push, Chan.try_send. destruct (Chan.closed c); [done|].
  destruct (Nat.leb_spec (Chan.cap c) (length (Chan.queue c))); [done|]. simpl. rewrite length_app. simpl.
  split; [lia|]. by apply prefix_app_r.
Qed.

(** ** The trail of a sequence of requests *)

(** Whatever is pushed, the channel to the collector has at most 1024 records. *)
Lemma sink_bounded records :
  (length (Chan.queue (foldl (flip push) sink_channel records)) <= SINK_CHANNEL_CAP)%nat.
Proof.
  enough (forall c : Chan.t AuditRecord.t, (length (Chan.queue c) <= Chan.cap c)%nat ->
    (length (Chan.queue (foldl (flip push) c records)) <= Chan.cap c)%nat) as H by (apply H; simpl; lia).
  induction records as [|r records IH]; intros c Hc; [done|]. simpl.
  assert (Chan.cap (push r c) = Chan.cap c) as <-
    by (unfold push, Chan.try_send; destruct (Chan.closed c); [done|]; by case_match).
  apply IH. by apply push_bounded.
Qed.

Section Trail.
Context {JE : Type} `{!Serde JE AuditRecord.t}.
Context {S R : Type} (status : R -> Z).

(** A request, the time it is answered at and the rest of the chain. *)
Abbreviation entry := (AuditRequest.t * string * (S -> R * S))%type.

Fixpoint audited (log : AuditLog.t) (es : list entry) (s : S) : list R * AuditLog.t * S :=
  match es with
  | [] => ([], log, s)
  | (req, now, next) :: es =>
      let '(r, log', s) := require_audit (JE := JE) status (Some log) req now next s in
      let '(rs, log'', s) := audited (default log log') es s in
      (r :: rs, log'', s)
  end.

(** The same requests without the middleware, and the records they deserve. *)
Fixpoint served (es : list entry) (s : S) : list R * list AuditRecord.t * S :=
  match es with
  | [] => ([], [], s)
  | (req, now, next) :: es =>
      let (r, s) := next s in
      let '(rs, recs, s) := served es s in
      (r :: rs, (if is_mutating (AuditRequest.method req) then record_of req now (status r) :: recs else recs)%list, s)
  end.

Definition line_of (r : AuditRecord.t) : bytes :=
  match to_vec (JE := JE) r with Ok js => (js ++ [Byte.x0a])%list | Err _ => [] end.

Lemma audited_disabled log es : forall s,
  AuditLog.inner log = None ->
  audited log es s = ((served es s).1.1, log, (served es s).2).
Proof.
  induction es as [|[[req now] next] es IH]; intros s Hl; [done|]. simpl.
  assert (AuditLog.is_disabled log = true) as Hd by (unfold AuditLog.is_disabled; by rewrite Hl). rewrite Hd.
  destruct (next s) as [r s1]. rewrite IH by done. destruct (served es s1) as [[rs recs] s2]. done.
Qed.

Lemma append_file record log file :
  AuditLog.inner log = Some file -> Writer.room file = None ->
  exists file', AuditLog.inner (AuditLog.append (JE := JE) record log) = Some file' /\ Writer.room file' = None /\
    Writer.written file' = (Writer.written file ++ line_of record)%list.
Proof.
  intros Hf Hr. unfold AuditLog.append, line_of. rewrite Hf. destruct (to_vec record) as [js|e].
  - unfold Writer.write_all. rewrite Hr. unfold AuditLog.ship, AuditLog.set_file. simpl.
    destruct (AuditLog.sink_tx log); eexists; done.
  - exists file. by rewrite app_nil_r.
Qed.

Lemma audited_file es : forall log file s,
  AuditLog.inner log = Some file -> Writer.room file = None ->
  exists log' file', audited log es s = ((served es s).1.1, log', (served es s).2) /\
    AuditLog.inner log' = Some file' /\ Writer.room file' = None /\
    Writer.written file' = (Writer.written file ++ concat (line_of <$> (served es s).1.2))%list.
Proof.
  induction es as [|[[req now] next] es IH]; intros log file s Hf Hr.
  { exists log, file. simpl. by rewrite app_nil_r. }
  simpl. assert (AuditLog.is_disabled log = false) as Hd by (unfold AuditLog.is_disabled; by rewrite Hf). rewrite Hd.
  destruct (next s) as [r s1]. destruct (is_mutating _); simpl.
  - destruct (append_file (record_of req now (status r)) log file Hf Hr) as (f1 & Hf1 & Hr1 & Hw1).
    destruct (IH _ f1 s1 Hf1 Hr1) as (log' & f2 & Ha & Hf2 & Hr2 & Hw2). rewrite Ha.
    destruct (served es s1) as [[rs recs] s2]. exists log', f2. split_and!; [done..|]. simpl in *.
    by rewrite Hw2, Hw1, <- app_assoc.
  - destruct (IH log file s1 Hf Hr) as (log' & f2 & Ha & Hf2 & Hr2 & Hw2). rewrite Ha.
    destruct (served es s1) as [[rs recs] s2]. by exists log', f2.
Qed.
End Trail.

(** ** Tokens stay out of the trail *)

(** A request with its bearer token replaced. *)
Definition with_token (t : string) (req : AuditRequest.t) : AuditRequest.t :=
  AuditRequest.mk (AuditRequest.method req) (AuditRequest.original_path req) (Some ("Bearer " +:+ t))
                  (AuditRequest.request_id req).

Lemma record_of_token t t' req now st :
  take_chars 4 t = take_chars 4 t' -> String.length t = String.length t' ->
  record_of (with_token t req) now st = record_of (with_token t' req) now st.
Proof.
  intros Hh Hl. assert (forall u, fingerprint_or_anonymous (extract_bearer (Some ("Bearer " +:+ u))) = token_fingerprint u)
    as Hf by done.
  unfold record_of, with_token. cbn [AuditRequest.authorization]. rewrite !Hf. unfold token_fingerprint. by rewrite Hh, Hl.
Qed.

(** C14: The middleware never changes an answer or what a handler does. With a file,
    the file grows by exactly one line for each mutating request, in the order in
    which they were answered; the lines do not depend on a bearer token beyond
    its first four characters and its length. Without a file nothing is recorded
    at all, whether or not a collector is attached. *)
Theorem audit_trail_exact {JE : Type} `{!Serde JE AuditRecord.t} {S R : Type} (status : R -> Z)
    (es : list (AuditRequest.t * string * (S -> R * S))) (log : AuditLog.t) (s : S) :
  let '(rs, log', s') := audited (JE := JE) status log es s in
  rs = (served status es s).1.1 /\ s' = (served status es s).2 /\
  match AuditLog.inner log with
  | None => log' = log
  | Some file =>
      Writer.room file = None ->
      exists file', AuditLog.inner log' = Some file' /\
        Writer.written file' =
          (Writer.written file ++ concat (line_of (JE := JE) <$> (served status es s).1.2))%list
  end /\
  (forall t t' req now next, take_chars 4 t = take_chars 4 t' -> String.length t = String.length t' ->
     require_audit (JE := JE) status (Some log) (with_token t req) now next s =
     require_audit (JE := JE) status (Some log) (with_token t' req) now next s).
Proof.
  assert (forall t t' req now next, take_chars 4 t = take_chars 4 t' -> String.length t = String.length t' ->
     require_audit (JE := JE) status (Some log) (with_token t req) now next s =
     require_audit (JE := JE) status (Some log) (with_token t' req) now next s) as Htok.
  { intros t t' req now next Hh Hl. unfold require_audit. destruct (next s) as [r s1].
    by rewrite (record_of_token t t' req now (status r) Hh Hl). }
  destruct (AuditLog.inner log) as [file|] eqn:Hf.
  - destruct (audited status log es s) as [[rs log'] s'] eqn:Ha.
    enough (rs = (served status es s).1.1 /\ s' = (served status es s).2) as [-> ->].
    + split_and!; [done..| |done]. intros Hr.
      destruct (audited_file status es log file s Hf Hr) as (l' & f' & Ha' & Hi & _ & Hw).
      rewrite Ha in Ha'. injection Ha' as ->. by exists f'.
    + clear Hf Htok. revert log s rs log' s' Ha. induction es as [|[[req now] next] es IH]; intros log s rs log' s'.
      { by intros [= <- <- <-]. }
      simpl. destruct (AuditLog.is_disabled log); [|destruct (negb _)];
        destruct (next s) as [r s1]; simpl;
        match goal with |- context [audited status ?l es s1] => destruct (audited status l es s1) as [[rs1 l1] s2] eqn:Ha end;
        apply IH in Ha as [-> ->]; intros [= <- <- <-]; by destruct (served status es s1) as [[? ?] ?].
  - rewrite audited_disabled by done. done.
Qed.

(** ** Addresses in log lines *)

(** User information and the query of an address are not logged. *)
Lemma redact_url_spec scheme user host query :
  has_char ":" scheme = false -> has_char "@" user = false -> has_char "/" user = false ->
  has_char "?" user = false -> has_char "?" host = false -> has_char "@" host = false ->
  redact_url (scheme +:+ "://" +:+ user +:+ "@" +:+ host +:+ "?" +:+ query) = scheme +:+ "://" +:+ host /\
  redact_url (scheme +:+ "://" +:+ host) = scheme +:+ "://" +:+ host.
Proof.
  intros Hs Hu Hus Huq Hhq Hhat.
  assert (forall rest, split_once_str "://" (scheme +:+ "://" +:+ rest) = Some (scheme, rest)) as Hsplit.
  { intros rest. induction scheme as [|c sch IH]; [done|]. simpl in Hs. apply orb_false_iff in Hs as [Hc Hs].
    change (String c sch +:+ "://" +:+ rest) with (String c (sch +:+ "://" +:+ rest)).
    cbn [split_once_str]. assert (strip_str_prefix "://" (String c (sch +:+ "://" +:+ rest)) = None) as ->.
    { cbn [strip_str_prefix]. rewrite Ascii.eqb_sym in Hc. by rewrite Hc. }
    by rewrite (IH Hs). }
  unfold redact_url. rewrite !Hsplit. split.
  - change ("?" +:+ query) with (String "?" query).
    replace (user +:+ "@" +:+ host +:+ String "?" query) with ((user +:+ String "@" host) +:+ String "?" query)
      by (by rewrite string_app_assoc).
    rewrite split_app by (rewrite has_char_app; simpl; by rewrite Huq, Hhq). simpl.
    rewrite (split_once_app "@") by done. by rewrite Hus, orb_true_r.
  - rewrite split_plain by done. simpl. by rewrite split_once_none.
Qed.

(** ** An example *)

Module AuditSample.
(** A record is written as the last two digits of its status. *)
#[local] Instance short_json : Serde unit AuditRecord.t := {|
  to_json r := (Ok tt, [byte_of (48 + (AuditRecord.status r / 10) mod 10); byte_of (48 + AuditRecord.status r mod 10)]);
  from_json _ := Err tt |}.

Definition request (method : string) : AuditRequest.t :=
  AuditRequest.mk method "/v1/vms" (Some "Bearer secret-token") (Some "id-1").

(** Created, read and destroyed: the state counts the handlers run. *)
Definition history : list (AuditRequest.t * string * (Z -> Z * Z)) :=
  [(request "POST", "t1", fun n => (201, n + 1)); (request "GET", "t2", fun n => (200, n + 1));
   (request "DELETE", "t3", fun n => (204, n + 1))].

Definition log : AuditLog.t := AuditLog.mk (Some (Writer.mk [] None)) (Some "/var/log/audit") (Some (Chan.channel 1)).

Lemma audit_trail_exact_witness :
  exists rs log' file', audited (JE := unit) id log history 0 = (rs, log', 3) /\ rs = [201; 200; 204] /\
    AuditLog.inner log' = Some file' /\
    Writer.written file' = [Byte.x30; Byte.x31; Byte.x0a; Byte.x30; Byte.x34; Byte.x0a].
Proof.
  pose proof (audit_trail_exact (JE := unit) id history log 0) as H.
  destruct (audited id log history 0) as [[rs log'] s'] eqn:Ha. destruct H as (Hr & Hs & Hw & _).
  destruct (Hw eq_refl) as (file' & Hf & Hwr). exists rs, log', file'.
  split; [rewrite Hs; reflexivity|]. split; [rewrite Hr; reflexivity|]. split; [exact Hf|].
  rewrite Hwr. vm_compute. reflexivity.
Defined.
End AuditSample.
