(* ===== verification/ExecSse.v ===== *)
(** * control-plane: streaming exec

    Models [crates/control-plane/src/exec_stream.rs]: the handler of
    [POST /v1/vms/:id/exec/stream], which turns the frames of an exec stream into
    server-sent events. The events go through a bounded channel to the client; a
    client that goes away makes the next send fail. *)

From Stdlib Require Import Ascii String.
From stdpp Require Import strings pretty.
From S2P Require Import Prelude Io Str Fs VmCore VmMock HvCalls Store ApiError Auth WarmPool Api Ownership.
From S2P Require Import Metrics Routes.

Local Open Scope string_scope.
Local Open Scope Z_scope.

Module ExitPayload.
Record t : Type := mk { exit_code : option Z; signal : option Z; duration_ms : Z }.
End ExitPayload.

(** [Event::default().event(kind).data(data)] *)
Module Event.
Record t : Type := mk { kind : string; data : string }.
End Event.

(** The receiving side of the channel: the events the client has got, and how
    many more it takes before it is gone ([None]: it stays). *)
Module Client.
Record t : Type := mk { got : list Event.t; patience : option nat }.

(** [tx.blocking_send(event).is_ok()]: the channel keeps the order, and a full
    one makes the producer wait. *)
Definition blocking_send (ev : Event.t) (c : t) : bool * t :=
  match patience c with
  | None => (true, mk (got c ++ [ev])%list None)
  | Some O => (false, c)
  | Some (S k) => (true, mk (got c ++ [ev])%list (Some k))
  end.
End Client.

Section Stream.
Context {X : Type} `{!ExecStream X}.
Context {JE : Type} `{!Serde JE ExitPayload.t}.
Context (b64 : bytes -> string).

Definition exit_event (exit_code signal : option Z) (duration_ms : Z) : Event.t :=
  let payload := match to_vec (JE := JE) (ExitPayload.mk exit_code signal duration_ms) with
                 | Ok js => string_of_bytes js
                 | Err _ => "{}"
                 end in
  Event.mk "exit" payload.

Definition no_exit_event : Event.t := Event.mk "error" "backend ended exec stream without an exit frame".
Definition error_event (e : VmError) : Event.t := Event.mk "error" (display_vm_error e).

(** The producer's loop: [None] while it is still running. *)
Fixpoint produce (fuel : nat) (stream : X) (client : Client.t) : option Client.t * X :=
  match fuel with
  | O => (None, stream)
  | S fuel =>
      match next_frame stream with
      | (Ok (Some (Stdout data)), stream) =>
          let (ok, client) := Client.blocking_send (Event.mk "stdout" (b64 data)) client in
          if ok then produce fuel stream client else (Some client, stream)
      | (Ok (Some (Stderr data)), stream) =>
          let (ok, client) := Client.blocking_send (Event.mk "stderr" (b64 data)) client in
          if ok then produce fuel stream client else (Some client, stream)
      | (Ok (Some (Exit exit_code signal duration_ms)), stream) =>
          (Some (Client.blocking_send (exit_event exit_code signal duration_ms) client).2, stream)
      | (Ok None, stream) => (Some (Client.blocking_send no_exit_event client).2, stream)
      | (Err e, stream) => (Some (Client.blocking_send (error_event e) client).2, stream)
      end
  end.
End Stream.

Section Handler.
Context {H Q S O X : Type} `{!OwnershipStore O}.

(** [open_stream] is [exec_in_guest_stream] of the hypervisor. The stream is
    opened before the response begins, so that its errors are ordinary answers. *)
Definition exec_vm_stream (open_stream : VmId -> GuestExecRequest.t -> SM H VmError X)
    (org : OrgId) (id : result Rejection.t Z) (body : result Rejection.t ExecRequest.t)
  : SM (AppState.t H Q S O) ApiError X :=
  vm_id ← path_id id;
  _ ← require_vm vm_id org;
  req ← json_body body;
  hv (open_stream vm_id (ExecRequest.into_guest req)).
End Handler.

(** ** What the client receives *)

Section Faithful.
Context {X : Type} `{!ExecStream X}.
Context {JE : Type} `{!Serde JE ExitPayload.t}.
Context (b64 : bytes -> string).

(** The bytes of a frame that is not the last, and how a stream ends. *)
Inductive chunk : Type := Out (data : bytes) | Errs (data : bytes).
Inductive ending : Type :=
| Exited (exit_code signal : option Z) (duration_ms : Z)
| Broken (e : VmError)
| Vanished.

Definition frame_of (c : chunk) : ExecFrame := match c with Out d => Stdout d | Errs d => Stderr d end.

(** The stream gives these chunks and then ends. *)
Inductive gives : X -> list chunk -> ending -> Prop :=
| gives_chunk x c x' cs e :
    next_frame x = (Ok (Some (frame_of c)), x') -> gives x' cs e -> gives x (c :: cs) e
| gives_exit x x' ec sg ms : next_frame x = (Ok (Some (Exit ec sg ms)), x') -> gives x [] (Exited ec sg ms)
| gives_error x x' err : next_frame x = (Err err, x') -> gives x [] (Broken err)
| gives_nothing x x' : next_frame x = (Ok None, x') -> gives x [] Vanished.

Definition chunk_event (c : chunk) : Event.t :=
  match c with Out d => Event.mk "stdout" (b64 d) | Errs d => Event.mk "stderr" (b64 d) end.
Definition ending_event (e : ending) : Event.t :=
  match e with
  | Exited ec sg ms => exit_event (JE := JE) ec sg ms
  | Broken err => error_event err
  | Vanished => no_exit_event
  end.

(** The whole conversation: a chunk each, and one last event that says how it
    ended. *)
Definition conversation (cs : list chunk) (e : ending) : list Event.t :=
  ((chunk_event <$> cs) ++ [ending_event e])%list.

Lemma produce_gives x cs e : gives x cs e -> forall fuel client,
  (length cs < fuel)%nat ->
  exists client' x', produce (JE := JE) b64 fuel x client = (Some client', x') /\
    Client.got client' = (Client.got client ++
      match Client.patience client with
      | None => conversation cs e
      | Some k => take k (conversation cs e)
      end)%list.
Proof.
  assert (forall c (last : Event.t), Client.got (Client.blocking_send last c).2 = (Client.got c ++
    match Client.patience c with None => [last] | Some k => take k [last] end)%list) as Hlast.
  { intros c last. unfold Client.blocking_send. destruct (Client.patience c) as [[|k]|]; simpl; rewrite ?app_nil_r, ?take_nil; done. }
  induction 1 as [x c x' cs e Hn _ IH|x x' ec sg ms Hn|x x' err Hn|x x' Hn]; intros [|fuel] client Hf;
    simpl in Hf; try lia; cbn [produce]; rewrite Hn;
    [|eexists _, _; split; [done|]; by rewrite Hlast..].
  assert (produce (JE := JE) b64 (S fuel) x client =
    let (ok, client) := Client.blocking_send (chunk_event c) client in
    if ok then produce (JE := JE) b64 fuel x' client else (Some client, x')) as Hp
    by (cbn [produce]; rewrite Hn; by destruct c).
  cbn [produce] in Hp. rewrite Hn in Hp. rewrite Hp. unfold Client.blocking_send.
  destruct (Client.patience client) as [[|k]|].
  - eexists _, _. split; [done|]. by rewrite app_nil_r.
  - destruct (IH fuel (Client.mk (Client.got client ++ [chunk_event c])%list (Some k))) as (c' & x2 & -> & Hg); [lia|].
    eexists _, _. split; [done|]. rewrite Hg. simpl. by rewrite <- app_assoc.
  - destruct (IH fuel (Client.mk (Client.got client ++ [chunk_event c])%list None)) as (c' & x2 & -> & Hg); [lia|].
    eexists _, _. split; [done|]. rewrite Hg. simpl. by rewrite <- app_assoc.
Qed.
End Faithful.

(** A stream that ends is served to its end: the client receives an event for
    every chunk, in order, and exactly one last event that is an exit or an error;
    a client that goes away has received a prefix of that, and the producer stops. *)
Theorem sse_conversation_complete {X : Type} `{!ExecStream X} {JE : Type} `{!Serde JE ExitPayload.t}
    (b64 : bytes -> string) (x : X) (cs : list chunk) (e : ending) (client : Client.t) (fuel : nat) :
  gives x cs e -> (length cs < fuel)%nat ->
  exists client' x', produce (JE := JE) b64 fuel x client = (Some client', x') /\
    (Client.patience client = None ->
     Client.got client' = (Client.got client ++ (chunk_event b64 <$> cs) ++ [ending_event (JE := JE) e])%list) /\
    (forall k, Client.patience client = Some k ->
     Client.got client' = (Client.got client ++ take k ((chunk_event b64 <$> cs) ++ [ending_event (JE := JE) e]))%list) /\
    Forall (fun ev => Event.kind ev = "stdout" \/ Event.kind ev = "stderr") (chunk_event b64 <$> cs) /\
    (Event.kind (ending_event (JE := JE) e) = "exit" \/ Event.kind (ending_event (JE := JE) e) = "error").
Proof.
  intros Hg Hf. destruct (produce_gives (JE := JE) b64 x cs e Hg fuel client Hf) as (c' & x' & Hp & Hgot).
  exists c', x'. split; [done|]. split; [intros Hn; by rewrite Hn in Hgot|]. split; [intros k Hk; by rewrite Hk in Hgot|].
  split; [|destruct e; simpl; auto]. apply Forall_forall. intros ev (c & -> & _)%list_elem_of_fmap. destruct c; simpl; auto.
Qed.

(** ** An example *)

Module SseSample.
#[local] Instance frames : ExecStream (list ExecFrame) := fun l =>
  match l with [] => (Ok None, []) | f :: l => (Ok (Some f), l) end.
#[local] Instance no_json : Serde unit ExitPayload.t := {| to_json _ := (Err tt, []); from_json _ := Err tt |}.

Definition child : list ExecFrame := [Stdout [Byte.x68]; Stderr [Byte.x21]; Stdout [Byte.x69]; Exit (Some 0) None 12].

Lemma sse_conversation_complete_witness :
  exists client' x', produce (JE := unit) string_of_bytes 5 child (Client.mk [] (Some 2%nat)) = (Some client', x') /\
    Client.got client' = [Event.mk "stdout" "h"; Event.mk "stderr" "!"].
Proof.
  destruct (sse_conversation_complete (JE := unit) string_of_bytes child
    [Out [Byte.x68]; Errs [Byte.x21]; Out [Byte.x69]] (Exited (Some 0) None 12) (Client.mk [] (Some 2%nat)) 5)
    as (c' & x' & Hp & _ & Hk & _).
  - eapply gives_chunk; [reflexivity|]. eapply gives_chunk; [reflexivity|]. eapply gives_chunk; [reflexivity|].
    eapply gives_exit. reflexivity.
  - simpl. lia.
  - exists c', x'. split; [exact Hp|]. rewrite (Hk 2%nat eq_refl). reflexivity.
Defined.
End SseSample.

(** A caller that may not use the VM is refused before its body is looked at, and
    nothing is started. *)
Lemma exec_vm_stream_refused {H Q S O X : Type} `{!OwnershipStore O}
    (open_stream : VmId -> GuestExecRequest.t -> SM H VmError X) org vm body (s : AppState.t H Q S O) e :
  OwnershipMap.require_vm_access (AppState.ownership s) vm org = Err e ->
  exec_vm_stream open_stream org (Ok vm) body s = (Err e, s).
Proof.
  intros He. unfold exec_vm_stream. erewrite sm_bind_ok by done. eapply sm_bind_err. unfold require_vm. by rewrite He.
Qed.
